(* ===== verification/_CoqProject ===== *)
-Q . S2P
Prelude.v
RustStd.v
Utf8.v
RecordUpdate.v
Net.v
NetText.v
BytesCodec.v
TransportConfig.v
Reality.v
Vless.v
Gateway.v
PortForwardFlow.v
PortForwardMux.v
PortForwardTunnel.v
Peer.v
Rendezvous.v
RendezvousProofs.v
F64.v
Relay.v
RelayProofs.v
LoginGuard.v
LoginGuardProofs.v
AudioQueue.v
F32.v
VideoQos.v
VideoQosProofs.v
FileSystem.v
FileTransfer.v
FileSystemProofs.v
FileTransferProofs.v
FileTransferService.v
FileDelivery.v
Secrets.v
SecretsProofs.v
ConfigStore.v
Config2Store.v
PeerStore.v
ConfigStoreProofs.v
TrustedDevices.v
TrustedDevicesProofs.v
TrustedTokens.v
Unauthorized.v
HostNames.v
Messages.v
SessionScope.v
Session.v
Login.v
Dispatch.v
LoginFrames.v
LoginProofs.v
SessionExamples.v
SessionEffects.v
SessionScopeProofs.v
LoginLimits.v
SecureStream.v
SecureStreamProofs.v
KeyExchange.v
KeyExchangeProofs.v
KeyExchangeExamples.v
TrustedClient.v
TrustedClientProofs.v
ControllerConfig.v
ControllerLogin.v
ControllerLoginProofs.v
ControllerRemember.v
ControllerHost.v
ControllerExamples.v
ControllerHostExamples.v
TerminalOutput.v
TerminalOutputProofs.v
OutputBufferProofs.v
TerminalService.v
TerminalStream.v
TerminalServiceProofs.v
TerminalExamples.v
UpdateMetadata.v
UpdateDownload.v
UpdateDownloadProofs.v
Updater.v
UpdaterProofs.v
