(* ===== verification/Prelude.v ===== *)
(** * RustDesk over VLESS and SSH: a verification development

    The program is a remote-desktop client (client/) and its servers (server/).
    A controlled machine registers with the rendezvous server under an id; a
    controller asks that server for the id and is told how to reach the machine,
    directly or through the relay server, which pairs the two connections by a
    uuid.  Both programs can reach the servers through a SOCKS proxy, through an
    authenticated VLESS tunnel (TLS, or Reality by means of a local Xray process)
    or through an SSH tunnel; the servers end these tunnels in gateways that
    forward to their own loopback listeners.  Peers exchange length-prefixed
    frames; forwarded TCP ports share one session as channels with credits.

    ** Parts

    Language and library layer:
    - Prelude.v: [Result] and its bind, integer widths and casts, bytes and
      their little- and big-endian forms, lists, tactics and hint bases.
    - RustStd.v, NetText.v, Net.v, F64.v: what the code uses of Rust's strings,
      integer and float parsing and printing, [std::net] addresses and their
      text, floats in double and single precision (F32.v), and UTF-8.  Strings are
      UTF-8 bytes.  Net.v also has [AddrMangle] and [try_into_v4] of
      client/libs/hbb_common/src/lib.rs.
    - RecordUpdate.v: the notation for changing one field of a record.

    Transport (client/libs/hbb_common/src):
    - BytesCodec.v: bytes_codec.rs, the frame codec; [decode] and [encode] are the
      methods, the buffer is its bytes with the memory reserved for it.
    - TransportConfig.v: config.rs and socket_client.rs, the layered options, the
      SOCKS, VLESS and SSH settings and the choice of route.  The state is the
      in-memory [Config2] and the stored copy.
    - Reality.v: vless_reality.rs, the life of the sidecar process.  The state is
      the static [SIDECAR] and the set of live children.
    - Vless.v: vless.rs, the request and the response stream over a script of
      reads.
    - Gateway.v: server/src/vless.rs and ssh.rs, and ssh.rs of the client.  It
      parses what Vless.v writes and reads the settings of TransportConfig.v.

    - SecureStream.v, SecureStreamProofs.v: the encryption of a stream in tcp.rs
      and the stream of stream.rs.  [Encrypt] has the two keys and counters; a
      [Stream] is what the program sees of a transport.
    - KeyExchange.v, KeyExchangeProofs.v: [secure_connection] of client.rs,
      [identity_handshake] of server.rs and [key_exchange] of common.rs, as programs
      on a [Wire] on which anything may arrive; KeyExchangeExamples.v a handshake on
      concrete data.

    Port forwarding (client/src/port_forward_mux.rs, server/port_forward_mux.rs):
    - PortForwardFlow.v: receive windows, send credit, the relay loops of one
      channel, and one direction of a channel as a step relation.
    - PortForwardMux.v: the controlled side, its channel table and tasks.
    - PortForwardTunnel.v: the controller's tunnel, channel ids and reports.
      Channels are shared between a table and tasks, so they live in a store.

    File transfer (client/libs/base/src/fs.rs, fs/download.rs, ipc/fs.rs):
    - FileSystem.v, FileSystemProofs.v: a file system of names, inodes and links
      in which any call may fail, and the Hoare triples of its calls.
    - FileTransfer.v, FileTransferProofs.v: the transfer jobs, their path checks
      and messages; FileTransferService.v the loop over the jobs, FileDelivery.v a
      sender and a receiver together.

    Secrets, configuration and trusted devices:
    - Secrets.v, SecretsProofs.v: password_security.rs, permanent_password.rs and
      the key pair of config.rs.  The state [Host] is the configuration in memory
      and on disk; [HostM] threads it.  Ciphers, hashes and base64 are a class
      with laws, randomness a stream.
    - ConfigStore.v, Config2Store.v, PeerStore.v, ConfigStoreProofs.v: the three
      kinds of configuration file of config.rs and the password settings.
    - TrustedDevices.v, TrustedDevicesProofs.v, TrustedTokens.v:
      client/src/trusted_devices/, the tokens that waive the second factor; the
      last has the events of a host and what holds after any sequence of them.
    - TrustedClient.v, TrustedClientProofs.v: trusted_devices/client.rs, the
      controller's side, over the [Host] and the files of the peers.

    Controller (client/src/client.rs):
    - ControllerConfig.v, ControllerLogin.v: [LoginConfigHandler], its settings and
      messages, and the functions that answer a challenge and take the user's and the
      peer's answer.  The state [Client] is the handler, the device with the files
      of its peers, the trusted-device session and what was sent and shown.
    - ControllerLoginProofs.v, ControllerRemember.v: what is sent and what is kept;
      ControllerHost.v the controller and the host together; ControllerExamples.v and
      ControllerHostExamples.v concrete sessions.

    Servers (server/src):
    - Peer.v: peer.rs and database.rs, the peers in memory over the table.
    - Rendezvous.v, RendezvousProofs.v: rendezvous_server.rs; [handle_udp],
      [handle_tcp] and the console command take the server state and the time and
      return the new state with the messages sent.
    - Relay.v, RelayProofs.v: relay_server.rs; the forwarding loop as a function
      of its events, and a world of interleaved [make_pair_] tasks over the shared
      maps [PEERS] and [USAGE].

    Controlled side (client/src/server):
    - LoginGuard.v, LoginGuardProofs.v: login_failure_check.rs and the failure
      counters and id whitelist of connection.rs.
    - Unauthorized.v: the places for connections that have not logged in.
    - HostNames.v, Messages.v, SessionScope.v: what connection.rs reads of names,
      versions and protobuf messages; its permissions and the scope of a session.
    - Session.v, Login.v, Dispatch.v: connection.rs itself.  The state [World] is the
      connection, the statics it shares with others and the [Host] of Secrets.v;
      [Conn] threads it, and what a handler does outside of it is a list of
      effects.  [on_message] and [on_cm] are the steps of the event loop; [Site] are
      the settings of the program and [Env] what one event reads of the system.
    - LoginFrames.v, LoginProofs.v, SessionEffects.v, SessionScopeProofs.v,
      LoginLimits.v: rules for code that moves along a preorder, and what is proved
      of a connection; SessionExamples.v the concrete logins.
    - AudioQueue.v: audio_service/audio_capture_queue.rs, under every
      interleaving of its two threads.
    - VideoQos.v, VideoQosProofs.v: video_qos.rs, in exact single precision.
    - Utf8.v, TerminalOutput.v, TerminalOutputProofs.v, OutputBufferProofs.v: texts and
      where they may be cut, and the chunks and the buffer of a terminal's output in
      terminal_service.rs.
    - TerminalService.v: the rest of terminal_service.rs on Linux.  The state
      [Terminals] is the registry with its services and their sessions; a message, a
      poll and a turn of a reader thread are functions on it, and what the shell, its
      pseudo-terminal and the clock answer are arguments.  TerminalStream.v follows one
      session, TerminalServiceProofs.v the registry; TerminalExamples.v concrete ones.

    Updates (client/src):
    - UpdateMetadata.v: update_metadata.rs with artifact.rs and offline.rs, and the
      release ids and versions of common.rs, over a class of the libraries they call.
    - UpdateDownload.v, UpdateDownloadProofs.v: updater/download.rs and update_hash.rs
      over the file system of FileSystem.v.
    - Updater.v, UpdaterProofs.v: updater.rs and updater/artifact.rs.  The state is the
      static variables, the file system and the installers that were started with the
      file system they met; [World] and [RootWorld] are what a check meets outside of
      the program.  Module [UpdaterExamples] is a release and a machine.

    ** What is shown

    - Round trips and refinement: frames survive any fragmentation
      ([frames_survive_fragmentation]) and the relay ([relay_carries_frames]);
      address mangling; the VLESS response stream delivers what follows the
      header however reads are cut ([response_stream_refines]); what a client
      writes the gateway accepts and forwards ([vless_tunnel_end_to_end]).
    - Invariants under interleaving: relay pairing is exclusive and authorised
      ([relay_pairing_exclusive]); a channel never holds more than its window
      ([flow_never_overruns]) and is never stuck ([flow_never_wedges]); the
      demultiplexer's memory is bounded; one sidecar at most runs
      ([ensure_sidecar_correct]); every audio packet is accounted for.
    - Security: registered identities are pinned; registration is limited per
      peer and per address; a login gets a bounded number of guesses; the id
      whitelist means its patterns; a punch request needs the key; a channel
      opens only to the target of the login; Reality and the internal listeners
      use loopback only; a download touches nothing outside of its destination and
      replaces nothing unasked ([download_confined], [unconfirmed_keeps_files]).
    - The login of a controlled machine: nobody is let in without the user, an
      accepted password with the second factor, or a switch of sides
      ([login_needs_credentials]); before that a connection only causes harmless
      effects ([unauthorized_is_inert]); after it, only those of its kind of session
      and its permissions ([session_stays_in_scope]); a temporary password takes ten
      wrong answers, a connection asks for one scope, places are bounded
      ([temporary_password_rotates], [scope_is_latched], [unauthorized_bounded]).
    - Encrypted streams: a stream is secured only for the peer asked for
      ([secured_only_for_peer], [required_means_encrypted]); two current builds agree
      ([handshake_agrees]); keys are bound to the exchange ([split_binds_transcript]),
      no nonce is used twice ([nonces_used_once]) and what opens was sent in that
      place ([opened_in_place]).
    - The controller: the right password is accepted by the host
      ([right_password_accepted]), a remembered one logs in again
      ([remembered_password_logs_in]), one of a shared address book is not kept
      ([shared_password_not_kept]), and an incoming-only program logs in nowhere
      ([incoming_only_logs_in_nowhere]).  A credential is kept, sent to its issuer only
      and taken only when asked for ([credential_survives],
      [credential_only_to_issuer], [credential_asked_for]).
    - Trust: a second factor is waived only for a token this host gave out and did
      not revoke ([token_was_issued], [password_change_revokes]); the salt stays with
      its hash ([salt_bound_to_password]); settings never touch the grants
      ([grants_survive_settings]).
    - Files: a transfer arrives as it was sent ([file_delivered]) and ends
      ([sending_ends]).
    - Configuration: transports exclude each other and switching them keeps the
      user's own choices; passwords and settings are found again after a restart;
      the reported network type is the route that is used, with the case that
      differs stated.
    - Terminals: chunks are what was read and never cut a character
      ([chunks_are_text]); the buffer keeps the end of the output within its limits
      ([replay_is_recent_output], [terminals_stay_bounded]); after a reconnection the
      controller is shown that and all that follows, without a gap
      ([reconnection_has_no_gap]), the surviving terminals are found
      ([reopening_keeps_terminals]), the size settles ([sigwinch_settles]), and an end is
      reported once, after the output ([poll_shows_output_then_ends]).
    - Updates: an installer is started only for a file that has the size and the hash
      which metadata of a newer release, signed by a key of the program, name
      ([only_newer_signed_updates_installed], [offline_update_signed]), whatever the
      server sends and whichever calls fail ([update_file_verified]), by the macOS
      service only when every user is idle ([root_update_needs_everyone_idle]), and
      not too often ([checks_are_spaced]).
    - Video: rates and ratios stay in range whatever the peers report
      ([stream_rate_in_bounds], [reply_reaction], [jitter_never_lowers]).
    - Bounds, errors and endings: decoder memory, encoder overflow, connection
      limits, report limits, why a relay session ends, when it is downgraded.

    ** Bounds, fuel and time

    Loops that are not structural take fuel, and each fuel is shown to be enough
    where it is used: reading frames takes two more than the bytes at hand; the
    VLESS header and its addons take the bytes missing; a channel id is found
    within one more than the channels open; the wait for the sidecar takes 201
    polls of 50 ms, more than its ten seconds; switching a transport off recurs
    once (fuel 2); a pattern match takes one more than
    [(|text| + 1) * (|pattern| + 1)]; creating directories takes one more than
    the components of the path.  [usize] is 64 bits.  Integers that can
    wrap wrap as in a release build; counters that cannot reach their limit are
    plain integers, with the reason beside them.  Times are arguments, in the
    unit the code reads.

    ** What is not modelled

    Sockets, TLS, SSH and WebSocket libraries, processes and SQLite appear as
    arguments: the results of their calls, or functions with the documented
    behaviour as a named hypothesis; so do compression, JSON, ciphers, hashes and
    one-time codes.  Android documents, directory listing and the storage of
    transfer jobs, local settings and address books are left, and of the controller
    the race of its transports and its event loop.  Protobuf messages are inductive types with
    the fields the handlers read; their wire form is generated code.  Sending is
    assumed to succeed in the rendezvous handlers.  Of connection.rs the contents of
    input, files and frames, the timers, audits and the other systems' builds are left;
    an unreadable clock or lock does not occur.  Of the terminals the choice of the shell
    and the helper process of Windows are left; a poll is one step, so that a message
    that arrives while it runs comes before or after it.  Of the updates the installers,
    the copy that Windows checks once more, the lock file of the service and the downloads
    of the user interface are left; paths are those of Unix, and nobody else changes
    the files while a check runs.  Capture, codecs, input,
    clipboard, platform code, user interfaces and translations are left out:
    they are calls into libraries and the operating system.

    ** Order of further work

    The log throttle; the rendezvous mediator of the client; the downloads of updates in
    the user interface. *)
From stdpp Require Export base gmap sets list strings.
From Stdlib Require Export ZArith Lia.
From Stdlib Require Export Strings.Byte.
#[global] Open Scope Z_scope.

(** ** Result values

    Rust's [Result<A, E>].  The [?] operator is the bind written [let?]. *)
Inductive result (A E : Type) : Type :=
| Ok (a : A)
| Err (e : E).
Arguments Ok {A E} a.
Arguments Err {A E} e.

Declare Scope rust_scope.
Delimit Scope rust_scope with rust.
Open Scope rust_scope.

Definition result_bind {A B E} (m : result A E) (k : A → result B E) : result B E :=
  match m with Ok a => k a | Err e => Err e end.

Notation "'let?' x ':=' c 'in' k" := (result_bind c (λ x, k))
  (at level 10, x pattern, c at level 100, k at level 200,
   format "'[v' 'let?'  x  ':='  c  'in' '/' k ']'") : rust_scope.

Definition is_ok {A E} (r : result A E) : bool :=
  match r with Ok _ => true | Err _ => false end.

Definition ok {A E} (r : result A E) : option A :=
  match r with Ok a => Some a | Err _ => None end.

Lemma result_bind_ok {A B E} (m : result A E) (k : A → result B E) b :
  result_bind m k = Ok b ↔ ∃ a, m = Ok a ∧ k a = Ok b.
Proof. destruct m; simpl; naive_solver. Qed.

Lemma result_bind_err {A B E} (m : result A E) (k : A → result B E) e :
  result_bind m k = Err e ↔ m = Err e ∨ ∃ a, m = Ok a ∧ k a = Err e.
Proof. destruct m; simpl; naive_solver. Qed.

(** ** Machine integers

    An unsigned integer of [w] bits is a [Z] in [0, 2^w).  The operators write
    out what the Rust method of the same name does at the boundary. *)
Definition umax (w : Z) : Z := 2 ^ w - 1.
Definition u8_max : Z := 255.
Definition u16_max : Z := 65535.
Definition u32_max : Z := 4294967295.
Definition u64_max : Z := 18446744073709551615.
Definition i32_max : Z := 2147483647.
Definition i32_min : Z := -2147483648.
Definition i64_max : Z := 9223372036854775807.
Definition i64_min : Z := -9223372036854775808.

(** [usize] is 64 bits wide on every supported target. *)
Definition usize_max : Z := u64_max.

(** [x as uN] of an integer. *)
Definition as_u8 (z : Z) : Z := z mod 2 ^ 8.
Definition as_u16 (z : Z) : Z := z mod 2 ^ 16.
Definition as_u32 (z : Z) : Z := z mod 2 ^ 32.
Definition as_u64 (z : Z) : Z := z mod 2 ^ 64.
Definition as_u128 (z : Z) : Z := z mod 2 ^ 128.
Definition as_i32 (z : Z) : Z := (z + 2 ^ 31) mod 2 ^ 32 - 2 ^ 31.

Definition saturating_add (mx a b : Z) : Z := Z.min (a + b) mx.
Definition saturating_sub (a b : Z) : Z := Z.max (a - b) 0.
Definition checked_sub (a b : Z) : option Z := if b <=? a then Some (a - b) else None.
Definition clamp (x lo hi : Z) : Z := if x <? lo then lo else if hi <? x then hi else x.

Lemma checked_sub_Some a b c : checked_sub a b = Some c ↔ b ≤ a ∧ c = a - b.
Proof. unfold checked_sub. destruct (Z.leb_spec b a); naive_solver lia. Qed.

Lemma checked_sub_None a b : checked_sub a b = None ↔ a < b.
Proof. unfold checked_sub. destruct (Z.leb_spec b a); naive_solver lia. Qed.

Lemma clamp_bounds x lo hi : lo ≤ hi → lo ≤ clamp x lo hi ≤ hi.
Proof. unfold clamp. destruct (Z.ltb_spec x lo), (Z.ltb_spec hi x); lia. Qed.

Lemma clamp_id x lo hi : lo ≤ x ≤ hi → clamp x lo hi = x.
Proof. unfold clamp. destruct (Z.ltb_spec x lo), (Z.ltb_spec hi x); lia. Qed.

(** ** Bytes *)
Abbreviation byte := Byte.byte.

#[global] Instance byte_eq_dec : EqDecision byte := Byte.byte_eq_dec.
#[global] Instance byte_inhabited : Inhabited byte := populate Byte.x00.

Definition b2z (b : byte) : Z := Z.of_N (Byte.to_N b).
Definition z2b (z : Z) : byte := default Byte.x00 (Byte.of_N (Z.to_N (z mod 256))).

Lemma b2z_range b : 0 ≤ b2z b < 256.
Proof. unfold b2z. pose proof (Byte.to_N_bounded b). lia. Qed.

Lemma b2z_inj b1 b2 : b2z b1 = b2z b2 → b1 = b2.
Proof.
  unfold b2z. intros H%N2Z.inj.
  assert (Some b1 = Some b2) as [= ->]; [|done].
  by rewrite <- !Byte.of_to_N, H.
Qed.

Lemma b2z_z2b z : b2z (z2b z) = z mod 256.
Proof.
  unfold b2z, z2b. pose proof (Z.mod_pos_bound z 256 eq_refl) as Hm.
  destruct (Byte.of_N (Z.to_N (z mod 256))) as [b|] eqn:E; simpl.
  - apply Byte.to_of_N in E. rewrite E. lia.
  - apply Byte.of_N_None_iff in E. lia.
Qed.

Lemma z2b_b2z b : z2b (b2z b) = b.
Proof. apply b2z_inj. rewrite b2z_z2b. apply Z.mod_small, b2z_range. Qed.

Lemma b2z_z2b_small z : 0 ≤ z < 256 → b2z (z2b z) = z.
Proof. intros ?. rewrite b2z_z2b. by apply Z.mod_small. Qed.

#[global] Instance byte_countable : Countable byte :=
  inj_countable' Byte.to_N (λ n, default Byte.x00 (Byte.of_N n))
    (λ b, f_equal (default Byte.x00) (Byte.of_to_N b)).

(** Length as an integer. *)
Definition len {A} (l : list A) : Z := Z.of_nat (length l).

Lemma len_nonneg {A} (l : list A) : 0 ≤ len l.
Proof. unfold len. lia. Qed.

Lemma len_app {A} (l k : list A) : len (l ++ k) = len l + len k.
Proof. unfold len. rewrite length_app. lia. Qed.

Lemma len_cons {A} (x : A) l : len (x :: l) = 1 + len l.
Proof. unfold len. simpl. lia. Qed.

Lemma len_nil {A} : len (@nil A) = 0.
Proof. done. Qed.

(** Little- and big-endian encodings on a fixed number of bytes
    ([to_le_bytes], [from_le_bytes], [to_be_bytes], [from_be_bytes]). *)
Fixpoint to_le_bytes (n : nat) (z : Z) : list byte :=
  match n with
  | O => []
  | S n => z2b z :: to_le_bytes n (z / 256)
  end.

Fixpoint from_le_bytes (l : list byte) : Z :=
  match l with
  | [] => 0
  | b :: l => b2z b + 256 * from_le_bytes l
  end.

Definition to_be_bytes (n : nat) (z : Z) : list byte := reverse (to_le_bytes n z).
Definition from_be_bytes (l : list byte) : Z := from_le_bytes (reverse l).

Lemma length_to_le_bytes n z : length (to_le_bytes n z) = n.
Proof. revert z. induction n; intros; simpl; auto. Qed.

Lemma from_le_bytes_range l : 0 ≤ from_le_bytes l < 256 ^ len l.
Proof.
  induction l as [|b l IH]; simpl; [done|].
  rewrite len_cons, Z.pow_add_r by (pose proof (len_nonneg l); lia).
  pose proof (b2z_range b). lia.
Qed.

Lemma from_to_le_bytes n z : from_le_bytes (to_le_bytes n z) = z mod 256 ^ Z.of_nat n.
Proof.
  revert z. induction n as [|n IH]; intros z; simpl.
  - by rewrite Z.mod_1_r.
  - rewrite IH, b2z_z2b, Nat2Z.inj_succ, Z.pow_succ_r by lia.
    rewrite Z.rem_mul_r by lia. lia.
Qed.

Lemma from_to_le_bytes_small n z :
  0 ≤ z < 256 ^ Z.of_nat n → from_le_bytes (to_le_bytes n z) = z.
Proof. intros. rewrite from_to_le_bytes. by apply Z.mod_small. Qed.

Lemma to_from_le_bytes l : to_le_bytes (length l) (from_le_bytes l) = l.
Proof.
  induction l as [|b l IH]; simpl; [done|]. pose proof (b2z_range b).
  f_equal.
  - apply b2z_inj. rewrite b2z_z2b, (Z.mul_comm 256), Z.mod_add by lia.
    by apply Z.mod_small.
  - by rewrite (Z.mul_comm 256), Z.div_add, (Z.div_small (b2z b)), Z.add_0_l by lia.
Qed.

Lemma length_to_be_bytes n z : length (to_be_bytes n z) = n.
Proof. unfold to_be_bytes. by rewrite length_reverse, length_to_le_bytes. Qed.

Lemma from_to_be_bytes_small n z :
  0 ≤ z < 256 ^ Z.of_nat n → from_be_bytes (to_be_bytes n z) = z.
Proof.
  intros. unfold from_be_bytes, to_be_bytes.
  by rewrite reverse_involutive, from_to_le_bytes_small.
Qed.

Lemma from_le_bytes_app l k :
  from_le_bytes (l ++ k) = from_le_bytes l + 256 ^ len l * from_le_bytes k.
Proof.
  induction l as [|b l IH]; simpl; [change (256 ^ len (@nil byte)) with 1; lia|].
  rewrite IH, len_cons, Z.pow_add_r by (pose proof (len_nonneg l); lia). ring.
Qed.

Lemma from_le_bytes_zeros l n :
  from_le_bytes (l ++ replicate n Byte.x00) = from_le_bytes l.
Proof.
  rewrite from_le_bytes_app.
  assert (from_le_bytes (replicate n Byte.x00) = 0) as ->; [|lia].
  induction n as [|n IH]; simpl; [done|]. by rewrite IH.
Qed.

(** A buffered prefix [b] of [h ++ x], with [f] still to come, either covers [h]
    or is a strict prefix of it. *)
Lemma app_split_prefix {A} (b f h x : list A) :
  b ++ f = h ++ x →
  (∃ k, b = h ++ k ∧ k ++ f = x) ∨ (∃ k, k ≠ [] ∧ h = b ++ k ∧ f = k ++ x).
Proof.
  intros [(k & -> & ->)|(k & -> & ->)]%app_eq_inv; [left; by exists k|].
  destruct k as [|y k]; [left; exists []|right; exists (y :: k); done].
  by rewrite !app_nil_r.
Qed.

(** ** Bit-field arithmetic

    Disjoint fields combined with [|] add up. *)
Lemma lor_shiftl_add a b n : 0 ≤ n → 0 ≤ b < 2 ^ n → Z.lor (Z.shiftl a n) b = Z.shiftl a n + b.
Proof.
  intros Hn Hb. rewrite <- Z.lxor_lor, <- Z.add_nocarry_lxor; [done| |];
  (apply Z.bits_inj'; intros i Hi; rewrite Z.land_spec, Z.bits_0;
   destruct (Z.lt_ge_cases i n);
   [rewrite Z.shiftl_spec_low by done; done|
    rewrite <- (Z.mod_small b (2 ^ n)), Z.testbit_mod_pow2 by lia;
    destruct (Z.ltb_spec i n); [lia|]; simpl; by rewrite andb_false_r]).
Qed.

(** ** Proof automation *)

(** Case split on the boolean tests of a goal or hypothesis, leaving the
    arithmetic facts they decide. *)
Ltac bool_cases :=
  repeat match goal with
  | |- context [?a <? ?b] => destruct (Z.ltb_spec a b)
  | |- context [?a <=? ?b] => destruct (Z.leb_spec a b)
  | |- context [?a =? ?b] => destruct (Z.eqb_spec a b)
  | H : context [?a <? ?b] |- _ => destruct (Z.ltb_spec a b)
  | H : context [?a <=? ?b] |- _ => destruct (Z.leb_spec a b)
  | H : context [?a =? ?b] |- _ => destruct (Z.eqb_spec a b)
  end.

(** Inversion of a computation that returned. *)
Ltac inv_result :=
  repeat match goal with
  | H : result_bind _ _ = Ok _ |- _ => apply result_bind_ok in H as (? & ? & ?)
  | H : Ok _ = Ok _ |- _ => injection H as H
  | H : Err _ = Err _ |- _ => injection H as H
  | H : Ok _ = Err _ |- _ => discriminate H
  | H : Err _ = Ok _ |- _ => discriminate H
  | H : Some _ = Some _ |- _ => injection H as H
  | H : Some _ = None |- _ => discriminate H
  | H : None = Some _ |- _ => discriminate H
  end.

Create HintDb rd discriminated.
Create Rewrite HintDb rd.
#[export] Hint Resolve len_nonneg b2z_range from_le_bytes_range : rd.
#[export] Hint Rewrite @len_app @len_cons @len_nil length_to_le_bytes length_to_be_bytes
  b2z_z2b z2b_b2z : rd.
