(* ===== verification/RustStd.v ===== *)
(** * The part of Rust's standard library the modelled code uses on text

    A [String] is its UTF-8 bytes ([String.string], one [ascii] per byte), so
    that [len] is a byte count.  Each definition is the method of the same name:
    [split], [rsplit_once], [trim], [trim_matches], [contains], the integer
    [parse] methods and the decimal [Display] of integers. *)
From S2P Require Import Prelude.
From Stdlib Require Import Ascii.

Definition str_len (s : string) : Z := Z.of_nat (String.length s).
Definition as_bytes (s : string) : list byte := String.list_byte_of_string s.
Definition of_bytes (l : list byte) : string := String.string_of_list_byte l.
Definition is_empty (s : string) : bool := bool_decide (s = "").

Definition eqb_str (a b : string) : bool := bool_decide (a = b).
Infix "==s" := eqb_str (at level 70) : rust_scope.

Fixpoint str_rev_app (s acc : string) : string :=
  match s with
  | EmptyString => acc
  | String a s => str_rev_app s (String a acc)
  end.
Definition str_rev (s : string) : string := str_rev_app s "".

(** [s.contains(c)] *)
Fixpoint contains (c : ascii) (s : string) : bool :=
  match s with
  | EmptyString => false
  | String a s => bool_decide (a = c) || contains c s
  end.

(** [s.split(c)]: one piece more than there are separators. *)
Fixpoint split (c : ascii) (s : string) : list string :=
  match s with
  | EmptyString => [""]
  | String a s =>
      if bool_decide (a = c) then "" :: split c s
      else match split c s with
           | x :: xs => String a x :: xs
           | [] => [String a ""]
           end
  end.

(** [s.rsplit_once(c)] *)
Fixpoint rsplit_once (c : ascii) (s : string) : option (string * string) :=
  match s with
  | EmptyString => None
  | String a s' =>
      match rsplit_once c s' with
      | Some (h, t) => Some (String a h, t)
      | None => if bool_decide (a = c) then Some ("", s') else None
      end
  end.

(** [s.strip_prefix(p)] *)
Fixpoint strip_prefix (p s : string) : option string :=
  match p, s with
  | EmptyString, _ => Some s
  | String a p, String b s => if bool_decide (a = b) then strip_prefix p s else None
  | String _ _, EmptyString => None
  end.

Definition starts_with (p s : string) : bool := bool_decide (is_Some (strip_prefix p s)).

(** The UTF-8 encodings of the characters with the Unicode White_Space
    property, which [char::is_whitespace] and [str::trim] use. *)
Definition hex (l : list Z) : string := of_bytes (z2b <$> l).

Definition whitespace : list string :=
  hex <$> [[0x09]; [0x0A]; [0x0B]; [0x0C]; [0x0D]; [0x20];
    [0xC2; 0x85]; [0xC2; 0xA0]; [0xE1; 0x9A; 0x80];
    [0xE2; 0x80; 0x80]; [0xE2; 0x80; 0x81]; [0xE2; 0x80; 0x82]; [0xE2; 0x80; 0x83];
    [0xE2; 0x80; 0x84]; [0xE2; 0x80; 0x85]; [0xE2; 0x80; 0x86]; [0xE2; 0x80; 0x87];
    [0xE2; 0x80; 0x88]; [0xE2; 0x80; 0x89]; [0xE2; 0x80; 0x8A];
    [0xE2; 0x80; 0xA8]; [0xE2; 0x80; 0xA9]; [0xE2; 0x80; 0xAF]; [0xE2; 0x81; 0x9F];
    [0xE3; 0x80; 0x80]].

Fixpoint strip_any (ps : list string) (s : string) : option string :=
  match ps with
  | [] => None
  | p :: ps => match strip_prefix p s with Some t => Some t | None => strip_any ps s end
  end.

Fixpoint strip_while (fuel : nat) (ps : list string) (s : string) : string :=
  match fuel with
  | O => s
  | S fuel => match strip_any ps s with Some t => strip_while fuel ps t | None => s end
  end.

Definition trim_start (s : string) : string := strip_while (String.length s) whitespace s.
Definition trim_end (s : string) : string :=
  str_rev (strip_while (String.length s) (str_rev <$> whitespace) (str_rev s)).
Definition trim (s : string) : string := trim_end (trim_start s).

(** [s.trim_matches([..])] for ASCII characters. *)
Fixpoint drop_chars (cs : list ascii) (s : string) : string :=
  match s with
  | EmptyString => ""
  | String a s' => if bool_decide (a ∈ cs) then drop_chars cs s' else s
  end.
Definition trim_matches (cs : list ascii) (s : string) : string :=
  str_rev (drop_chars cs (str_rev (drop_chars cs s))).

(** ** Integers as text *)
Definition digit_of (c : ascii) : option Z :=
  let n := Z.of_N (N_of_ascii c) in
  if (48 <=? n) && (n <=? 57) then Some (n - 48) else None.

Definition digit_char (d : Z) : ascii := ascii_of_N (Z.to_N (48 + d)).

Fixpoint parse_digits (s : string) (acc : Z) : option Z :=
  match s with
  | EmptyString => Some acc
  | String c s => match digit_of c with
                  | Some d => parse_digits s (acc * 10 + d)
                  | None => None
                  end
  end.

(** [s.parse::<uN>()] with [mx] the type's maximum: an optional [+], then at
    least one digit and nothing else, with no overflow. *)
Definition parse_uint (mx : Z) (s : string) : option Z :=
  let body := match s with String "+" t => t | _ => s end in
  match body with
  | EmptyString => None
  | _ => match parse_digits body 0 with
         | Some n => if n <=? mx then Some n else None
         | None => None
         end
  end.

(** [s.parse::<iN>()]: a [-] is accepted as well. *)
Definition parse_int (mn mx : Z) (s : string) : option Z :=
  match s with
  | String "-" t =>
      match t with
      | EmptyString => None
      | _ => match parse_digits t 0 with
             | Some n => if mn <=? - n then Some (- n) else None
             | None => None
             end
      end
  | _ => parse_uint mx s
  end.

Definition parse_u16 := parse_uint u16_max.
Definition parse_u64 := parse_uint u64_max.
Definition parse_usize := parse_uint usize_max.
Definition parse_i32 := parse_int i32_min i32_max.
Definition parse_i64 := parse_int i64_min i64_max.

Fixpoint dec_go (fuel : nat) (n : Z) (acc : string) : string :=
  match fuel with
  | O => acc
  | S fuel =>
      let acc := String (digit_char (n mod 10)) acc in
      if n / 10 =? 0 then acc else dec_go fuel (n / 10) acc
  end.

(** [n.to_string()] *)
Definition uint_to_string (n : Z) : string := dec_go (S (Z.to_nat (Z.log2 n))) n "".
Definition int_to_string (n : Z) : string :=
  if n <? 0 then String.append "-" (uint_to_string (- n)) else uint_to_string n.

(** ** Facts *)
Lemma is_empty_true s : is_empty s = true ↔ s = "".
Proof. unfold is_empty. apply bool_decide_eq_true. Qed.

Lemma is_empty_false s : is_empty s = false ↔ s ≠ "".
Proof. unfold is_empty. apply bool_decide_eq_false. Qed.

Lemma eqb_str_true a b : (a ==s b) = true ↔ a = b.
Proof. unfold eqb_str. apply bool_decide_eq_true. Qed.

Lemma eqb_str_refl a : (a ==s a) = true.
Proof. by apply eqb_str_true. Qed.

Lemma str_len_as_bytes s : len (as_bytes s) = str_len s.
Proof.
  unfold len, str_len, as_bytes, String.list_byte_of_string. rewrite List.length_map.
  induction s as [|a s IH]; simpl; [done|]. lia.
Qed.

Lemma of_as_bytes s : of_bytes (as_bytes s) = s.
Proof. apply String.string_of_list_byte_of_string. Qed.

Lemma as_of_bytes l : as_bytes (of_bytes l) = l.
Proof. apply String.list_byte_of_string_of_list_byte. Qed.

Lemma digit_of_char d : 0 ≤ d < 10 → digit_of (digit_char d) = Some d.
Proof.
  intros H. assert (d ∈ seqZ 0 10) as Hin by (apply elem_of_seqZ; lia).
  clear H. revert d Hin. apply Forall_forall. repeat constructor.
Qed.

Lemma parse_digits_dec_go fuel n acc a :
  0 ≤ n < 10 ^ Z.of_nat fuel → fuel ≠ 0%nat →
  ∃ p, 0 ≤ p ∧ parse_digits (dec_go fuel n acc) a = parse_digits acc (a * p + n) ∧
       (a = 0 → parse_digits (dec_go fuel n acc) a = parse_digits acc n).
Proof.
  revert n acc a. induction fuel as [|fuel IH]; intros n acc a Hn Hf; [done|].
  cbn [dec_go]. pose proof (Z.mod_pos_bound n 10 eq_refl) as Hm.
  assert (n = 10 * (n / 10) + n mod 10) as Hdm by (apply Z.div_mod; lia).
  destruct (Z.eqb_spec (n / 10) 0) as [E|E].
  - exists 10. cbn [parse_digits]. rewrite digit_of_char by lia.
    assert (n mod 10 = n) as -> by lia. split_and!; [lia|f_equal; lia|].
    intros ->. f_equal.
  - assert (fuel ≠ 0%nat) as Hf'.
    { intros ->. change (10 ^ Z.of_nat 1) with 10 in Hn. apply E, Z.div_small. lia. }
    rewrite Nat2Z.inj_succ, Z.pow_succ_r in Hn by lia.
    destruct (IH (n / 10) (String (digit_char (n mod 10)) acc) a) as (p & Hp & H1 & H2);
      [split; [apply Z.div_pos; lia|apply Z.div_lt_upper_bound; lia]|done|].
    cbn [parse_digits] in H1, H2. rewrite digit_of_char in H1, H2 by lia.
    exists (p * 10). split; [lia|]. split.
    + rewrite H1. f_equal. lia.
    + intros Ha. rewrite (H2 Ha). f_equal. lia.
Qed.

Lemma dec_go_nonempty fuel n acc : fuel ≠ 0%nat →
  ∃ d acc', dec_go fuel n acc = String d acc' ∧ is_Some (digit_of d).
Proof.
  revert n acc. induction fuel as [|fuel IH]; intros n acc Hf; [done|].
  cbn [dec_go]. destruct (n / 10 =? 0).
  - eexists _, _. split; [done|]. rewrite digit_of_char; [done|].
    apply Z.mod_pos_bound; lia.
  - destruct fuel as [|fuel].
    + eexists _, _. split; [done|]. rewrite digit_of_char; [done|].
      apply Z.mod_pos_bound; lia.
    + by apply IH.
Qed.

Lemma log2_fuel n : 0 ≤ n → n < 10 ^ Z.of_nat (S (Z.to_nat (Z.log2 n))).
Proof.
  intros Hn. rewrite Nat2Z.inj_succ, Z2Nat.id by apply Z.log2_nonneg.
  destruct (decide (n = 0)) as [->|]; [done|].
  pose proof (Z.log2_spec n ltac:(lia)) as [_ H].
  eapply Z.lt_le_trans; [exact H|]. apply Z.pow_le_mono_l. lia.
Qed.

(** Printing an integer and parsing it back gives the integer. *)
Lemma parse_uint_to_string mx n : 0 ≤ n ≤ mx → parse_uint mx (uint_to_string n) = Some n.
Proof.
  intros [Hn Hm]. unfold parse_uint, uint_to_string.
  set (fuel := S (Z.to_nat (Z.log2 n))).
  destruct (parse_digits_dec_go fuel n "" 0) as (p & _ & _ & H); [|done|].
  { split; [done|]. by apply log2_fuel. }
  destruct (dec_go_nonempty fuel n "") as (d & t & E & Hd); [done|].
  rewrite E in *.
  assert (match String d t with String "+" t0 => t0 | _ => String d t end = String d t) as ->.
  { destruct d as [[] [] [] [] [] [] [] []]; try done; simpl in Hd; by destruct Hd. }
  rewrite H by done. simpl. destruct (Z.leb_spec n mx); [done|lia].
Qed.

Lemma parse_u16_to_string n : 0 ≤ n < 65536 → parse_u16 (uint_to_string n) = Some n.
Proof. intros. apply parse_uint_to_string. unfold u16_max. lia. Qed.

Lemma parse_uint_range mx s n : parse_uint mx s = Some n → n ≤ mx.
Proof.
  unfold parse_uint. intros H. repeat case_match; simplify_eq; try done; bool_cases; done.
Qed.

Lemma digit_of_nonneg c d : digit_of c = Some d → 0 ≤ d < 10.
Proof. unfold digit_of. intros H. case_match; simplify_eq; lia. Qed.

Lemma parse_digits_nonneg s a n : 0 ≤ a → parse_digits s a = Some n → 0 ≤ n.
Proof.
  revert a. induction s as [|c s IH]; intros a Ha; simpl; [naive_solver|].
  destruct (digit_of c) as [d|] eqn:E; [|done]. apply digit_of_nonneg in E.
  apply IH. lia.
Qed.

Lemma parse_uint_nonneg mx s n : parse_uint mx s = Some n → 0 ≤ n.
Proof.
  unfold parse_uint. intros H.
  repeat case_match; simplify_eq; try done; by eapply parse_digits_nonneg; [|eassumption].
Qed.

Lemma rsplit_once_None c s : contains c s = false → rsplit_once c s = None.
Proof.
  induction s as [|a s IH]; simpl; [done|]. intros [Ha Hs]%orb_false_iff.
  rewrite (IH Hs). by rewrite Ha.
Qed.

(** [format!("{h}:{t}").rsplit_once(':')] recovers [h] and [t]. *)
Lemma rsplit_once_app c h t :
  contains c t = false → rsplit_once c (String.append h (String c t)) = Some (h, t).
Proof.
  intros Ht. induction h as [|a h IH]; simpl.
  - rewrite rsplit_once_None by done. by rewrite bool_decide_eq_true_2.
  - by rewrite IH.
Qed.

Lemma dec_go_no_char c fuel n acc :
  digit_of c = None → contains c acc = false → contains c (dec_go fuel n acc) = false.
Proof.
  intros Hc. revert n acc. induction fuel as [|fuel IH]; intros n acc Ha; simpl; [done|].
  assert (contains c (String (digit_char (n mod 10)) acc) = false) as H.
  { simpl. rewrite Ha, orb_false_r. apply bool_decide_eq_false. intros E.
    rewrite <- E, digit_of_char in Hc; [done|]. apply Z.mod_pos_bound. lia. }
  destruct (n / 10 =? 0); [done|]. by apply IH.
Qed.

Lemma uint_to_string_no_char c n : digit_of c = None → contains c (uint_to_string n) = false.
Proof. intros. by apply dec_go_no_char. Qed.

(** ** Joining with a separator and splitting again *)
Fixpoint join (c : ascii) (l : list string) : string :=
  match l with
  | [] => ""
  | [x] => x
  | x :: l => String.append x (String c (join c l))
  end.

Lemma split_no_sep c s : contains c s = false → split c s = [s].
Proof.
  induction s as [|a s IH]; simpl; [done|]. intros [Ha Hs]%orb_false_iff.
  by rewrite Ha, (IH Hs).
Qed.

Lemma split_app c x s :
  contains c x = false → split c (String.append x (String c s)) = x :: split c s.
Proof.
  induction x as [|a x IH]; intros Hx.
  - simpl. by rewrite bool_decide_eq_true_2.
  - simpl in Hx. apply orb_false_iff in Hx as [Ha Hx].
    change (String.append (String a x) (String c s))
      with (String a (String.append x (String c s))).
    cbn [split]. by rewrite Ha, (IH Hx).
Qed.

Lemma split_join c l :
  l ≠ [] → Forall (λ x, contains c x = false) l → split c (join c l) = l.
Proof.
  intros Hne Hl. induction Hl as [|x l Hx Hl IH]; [done|].
  destruct l as [|y l]; [by apply split_no_sep|].
  change (join c (x :: y :: l)) with (String.append x (String c (join c (y :: l)))).
  rewrite split_app by done. f_equal. by apply IH.
Qed.

(** ** UTF-8 *)

(** The length of the first sequence of [l], and whether it encodes a character;
    if not, the length of what [String::from_utf8_lossy] replaces at once. *)
Definition utf8_step (l : list byte) : nat * bool :=
  let at_ n := default 0 (b2z <$> l !! n) in
  let within lo hi n := (lo <=? at_ n) && (at_ n <=? hi) in
  let b0 := at_ 0%nat in
  if b0 <? 128 then (1%nat, true)
  else if (194 <=? b0) && (b0 <=? 223) then
    if within 128 191 1%nat then (2%nat, true) else (1%nat, false)
  else if (224 <=? b0) && (b0 <=? 239) then
    let lo := if b0 =? 224 then 160 else 128 in
    let hi := if b0 =? 237 then 159 else 191 in
    if negb (within lo hi 1%nat) then (1%nat, false)
    else if within 128 191 2%nat then (3%nat, true) else (2%nat, false)
  else if (240 <=? b0) && (b0 <=? 244) then
    let lo := if b0 =? 240 then 144 else 128 in
    let hi := if b0 =? 244 then 143 else 191 in
    if negb (within lo hi 1%nat) then (1%nat, false)
    else if negb (within 128 191 2%nat) then (2%nat, false)
    else if within 128 191 3%nat then (4%nat, true) else (3%nat, false)
  else (1%nat, false).

Fixpoint utf8_lossy_go (fuel : nat) (l : list byte) : list byte :=
  match fuel, l with
  | S fuel, _ :: _ =>
      let '(n, valid) := utf8_step l in
      (if valid then take n l else [z2b 239; z2b 191; z2b 189]) ++ utf8_lossy_go fuel (drop n l)
  | _, _ => []
  end.
Definition from_utf8_lossy (l : list byte) : string := of_bytes (utf8_lossy_go (length l) l).

Fixpoint is_utf8_go (fuel : nat) (l : list byte) : bool :=
  match fuel, l with
  | _, [] => true
  | S fuel, _ :: _ => let '(n, valid) := utf8_step l in valid && is_utf8_go fuel (drop n l)
  | O, _ :: _ => false
  end.
(** What every Rust string satisfies. *)
Definition is_utf8 (s : string) : bool := is_utf8_go (String.length s) (as_bytes s).

(** [s.chars().count()]: every byte that does not continue a character starts one. *)
Definition chars_count (s : string) : Z :=
  len (filter (λ b, Z.land (b2z b) 192 ≠ 128) (as_bytes s)).

Lemma utf8_lossy_go_valid fuel l : (length l ≤ fuel)%nat → is_utf8_go fuel l = true → utf8_lossy_go fuel l = l.
Proof.
  revert l. induction fuel as [|fuel IH]; intros l Hl Hv; [by destruct l|].
  destruct l as [|b l]; [done|]. cbn [utf8_lossy_go is_utf8_go] in *.
  assert (1 ≤ (utf8_step (b :: l)).1)%nat as Hpos by (unfold utf8_step; repeat case_match; cbn; lia).
  destruct (utf8_step (b :: l)) as [n valid]. cbn [fst] in Hpos.
  apply andb_true_iff in Hv as [-> Hv]. rewrite IH; [by rewrite take_drop|rewrite length_drop; cbn in *; lia|done].
Qed.

Lemma length_as_bytes s : length (as_bytes s) = String.length s.
Proof. induction s as [|a s IH]; [done|]. cbn. by f_equal. Qed.

Lemma from_utf8_lossy_valid s : is_utf8 s = true → from_utf8_lossy (as_bytes s) = s.
Proof.
  intros Hs. unfold from_utf8_lossy, is_utf8 in *. rewrite length_as_bytes.
  rewrite utf8_lossy_go_valid; [apply of_as_bytes|by rewrite length_as_bytes|done].
Qed.

Example utf8_examples :
  from_utf8_lossy [z2b 49; z2b 195; z2b 188] = of_bytes [z2b 49; z2b 195; z2b 188] ∧
  chars_count (of_bytes [z2b 49; z2b 195; z2b 188]) = 2 ∧
  from_utf8_lossy [z2b 240; z2b 159; z2b 65] = of_bytes [z2b 239; z2b 191; z2b 189; z2b 65].
Proof. vm_compute. auto. Qed.
