(* ===== verification/Utf8.v ===== *)
(** * Text in UTF-8

    Characters and texts as lists of bytes, with [is_utf8_go] of RustStd.v as the
    test; where a text may be cut; and lines of a text. *)
From S2P Require Import Prelude RustStd.

Module Utf8.

(** The bits that tell what a byte of a text is, as the code tests them. *)
Definition masked (b : byte) (mask value : Z) : bool := Z.land (b2z b) mask =? value.
Definition continues (b : byte) : bool := masked b 0xC0 0x80.

(** The length of the sequence that a byte starts, by its leading bits. *)
Definition seq_len (b : byte) : option nat :=
  if masked b 0x80 0 then Some 1%nat
  else if masked b 0xE0 0xC0 then Some 2%nat
  else if masked b 0xF0 0xE0 then Some 3%nat
  else if masked b 0xF8 0xF0 then Some 4%nat else None.

Lemma byte_class b :
  (continues b = (128 <=? b2z b) && (b2z b <? 192)) ∧
  (seq_len b = if b2z b <? 128 then Some 1%nat else if b2z b <? 192 then None
               else if b2z b <? 224 then Some 2%nat else if b2z b <? 240 then Some 3%nat
               else if b2z b <? 248 then Some 4%nat else None).
Proof. destruct b; vm_compute; done. Qed.

(** ** Characters *)
Definition low (a : byte) : Z := if b2z a =? 224 then 160 else if b2z a =? 240 then 144 else 128.
Definition high (a : byte) : Z := if b2z a =? 237 then 159 else if b2z a =? 244 then 143 else 191.
Definition tail_byte (x : byte) : Prop := 128 ≤ b2z x ≤ 191.

Inductive char : list byte → Prop :=
| char_1 a : b2z a < 128 → char [a]
| char_2 a b : 194 ≤ b2z a ≤ 223 → tail_byte b → char [a; b]
| char_3 a b c : 224 ≤ b2z a ≤ 239 → low a ≤ b2z b ≤ high a → tail_byte c → char [a; b; c]
| char_4 a b c d : 240 ≤ b2z a ≤ 244 → low a ≤ b2z b ≤ high a → tail_byte c → tail_byte d →
    char [a; b; c; d].

(** What follows a character does not change it. *)
Lemma char_app c x : char c → utf8_step (c ++ x) = (length c, true).
Proof.
  intros []; unfold utf8_step, low, high, tail_byte in *; cbn in *;
    repeat (case_match; try done; try lia).
Qed.

Lemma utf8_step_char l n : l ≠ [] → utf8_step l = (n, true) → ∃ c x, l = c ++ x ∧ char c ∧ length c = n.
Proof.
  unfold utf8_step. destruct l as [|a [|b [|c [|d t]]]]; intros Hne; [done|..]; cbn; repeat case_match; intros [= <-]; try lia.
  all: repeat match goal with H : negb _ = false |- _ => apply negb_false_iff in H end; try lia.
  all: first
    [ exists [a]; eexists; split; [reflexivity|]; split; [constructor; lia|done]
    | exists [a; b]; eexists; split; [reflexivity|]; split; [constructor; unfold tail_byte; lia|done]
    | exists [a; b; c]; eexists; split; [reflexivity|];
      split; [constructor; unfold tail_byte, low, high; repeat case_match; lia|done]
    | exists [a; b; c; d]; eexists; split; [reflexivity|];
      split; [constructor; unfold tail_byte, low, high; repeat case_match; lia|done] ].
Qed.

Lemma tail_continues x : 128 ≤ b2z x ≤ 191 → continues x = true.
Proof. destruct (byte_class x) as [-> _]. lia. Qed.
Lemma low_bounds a x : low a ≤ b2z x ≤ high a → 128 ≤ b2z x ≤ 191.
Proof. unfold low, high. repeat case_match; lia. Qed.

(** A character is a byte that starts it, and bytes that continue it. *)
Lemma char_shape c : char c →
  ∃ b t, c = b :: t ∧ continues b = false ∧ seq_len b = Some (length c) ∧
    Forall (λ x, continues x = true) t ∧ (length c ≤ 4)%nat.
Proof.
  intros Hc. destruct Hc as [a Ha|a b Ha Hb|a b c Ha Hb Hc|a b c d Ha Hb Hc Hd];
    eexists a, _; (split; [reflexivity|]); destruct (byte_class a) as [-> ->]; pose proof (b2z_range a);
    (split; [lia|]); (split; [repeat case_match; done || lia|]);
    (split; [repeat constructor; apply tail_continues; first [assumption|by eapply low_bounds]|cbn; lia]).
Qed.

Lemma char_nonempty c : char c → c ≠ [].
Proof. by intros []. Qed.

Lemma char_step c x : char c → c = take (utf8_step (c ++ x)).1 (c ++ x).
Proof. intros Hc. rewrite char_app by done. cbn. by rewrite take_app_length. Qed.

(** Two characters where one would do are the same. *)
Lemma char_unique c d x y : char c → char d → c ++ x = d ++ y → c = d.
Proof.
  intros Hc Hd E. rewrite (char_step c x Hc), (char_step d y Hd). by rewrite E.
Qed.

(** ** Texts *)
Inductive text : list byte → Prop :=
| text_nil : text []
| text_cons c l : char c → text l → text (c ++ l).

Lemma text_app l r : text l → text r → text (l ++ r).
Proof. induction 1; intros; [done|]. rewrite <- app_assoc. constructor; auto. Qed.
Lemma text_char c : char c → text c.
Proof. intros Hc. rewrite <- (app_nil_r c). by constructor; [|constructor]. Qed.

Lemma is_utf8_text fuel l : (length l ≤ fuel)%nat → (is_utf8_go fuel l = true ↔ text l).
Proof.
  revert l. induction fuel as [|fuel IH]; intros l Hl.
  { destruct l; [|cbn in Hl; lia]. split; [constructor|done]. }
  destruct l as [|b l]; [split; [constructor|done]|]. cbn [is_utf8_go]. split.
  - destruct (utf8_step (b :: l)) as [n v] eqn:Es. intros [-> Hv]%andb_true_iff.
    destruct (utf8_step_char (b :: l) n ltac:(done) Es) as (c & x & E & Hc & <-). rewrite E in *.
    constructor; [done|]. rewrite drop_app_length in Hv. apply IH; [|done].
    rewrite length_app in Hl. pose proof (char_nonempty c Hc). destruct c; cbn in *; [done|lia].
  - intros Ht. inversion Ht as [|c l' Hc Hl' E]. rewrite char_app by done.
    rewrite drop_app_length. apply andb_true_iff. split; [done|]. apply IH; [|done].
    apply (f_equal length) in E. rewrite length_app in E.
    pose proof (char_nonempty c Hc). destruct c; cbn in *; [done|lia].
Qed.

(** A text, and a beginning of one character more. *)
Definition part (p : list byte) : Prop := ∃ c, char c ∧ p `prefix_of` c ∧ p ≠ c.

Lemma part_nil : part [].
Proof.
  exists [Byte.x61]. split; [by constructor|]. split; [apply prefix_nil|done].
Qed.

(** What follows a text in a beginning of a text is one again. *)
Lemma text_rest o r v p : text o → text v → part p → o ++ r = v ++ p →
  ∃ v', text v' ∧ r = v' ++ p.
Proof.
  intros Ho. revert r v. induction Ho as [|c l Hc Hl IH]; intros r v Hv Hp E; [by exists v|].
  destruct Hv as [|d v Hd Hv].
  - exfalso. destruct Hp as (e & He & [x Hx] & Hne). cbn in E. rewrite <- E in Hx.
    rewrite <- !app_assoc in Hx.
    assert (c = e) as ->.
    { apply (char_unique c e (l ++ r ++ x) []); [done..|]. by rewrite app_nil_r. }
    apply Hne. rewrite <- E. rewrite <- (app_nil_r e) in Hx at 1. rewrite <- ?app_assoc in Hx.
    apply app_inv_head in Hx. symmetry in Hx. apply app_eq_nil in Hx as [-> Hx].
    apply app_eq_nil in Hx as [-> _]. by rewrite !app_nil_r.
  - rewrite <- !app_assoc in E.
    assert (c = d) as -> by by eapply char_unique.
    apply app_inv_head in E. by eapply IH.
Qed.

Lemma text_split o r : text o → text (o ++ r) → text r.
Proof.
  intros Ho Hr. destruct (text_rest o r (o ++ r) [] Ho Hr part_nil) as (v' & Hv & ->);
    [by rewrite app_nil_r|by rewrite app_nil_r].
Qed.

(** ** Where a text may be cut *)
Lemma part_shape p : part p → p = [] ∨
  ∃ b t k, p = b :: t ∧ continues b = false ∧ seq_len b = Some k ∧
    Forall (λ x, continues x = true) t ∧ (length p < k ≤ 4)%nat.
Proof.
  intros (c & Hc & [x Hx] & Hne). destruct (char_shape c Hc) as (b & t & E & Hb & Hk & Ht & Hl).
  destruct p as [|b' t']; [by left|]. right. rewrite E in Hx. cbn in Hx.
  injection Hx as <- ->. apply Forall_app in Ht as [Ht _].
  exists b, t', (length c). split_and!; try done.
  subst c. cbn in *. rewrite length_app. destruct x; [|cbn; lia].
  by rewrite app_nil_r in Hne.
Qed.

Lemma text_last v : text v → v = [] ∨ ∃ u c, v = u ++ c ∧ text u ∧ char c.
Proof.
  induction 1 as [|c l Hc Hl [->|(u & d & -> & Hu & Hd)]]; [by left|right..].
  - exists [], c. rewrite app_nil_r. split_and!; [done|apply text_nil|done].
  - exists (c ++ u), d. rewrite app_assoc. split_and!; [done|by constructor|done].
Qed.

(** Behind any cut at most three bytes belong to the character before it. *)
Lemma text_behind x y : text (x ++ y) →
  ∃ t z, y = t ++ z ∧ text z ∧ Forall (λ b, continues b = true) t ∧ (length t ≤ 3)%nat ∧
    (t = [] → text x).
Proof.
  intros Ht. remember (x ++ y) as l eqn:E. revert x y E.
  induction Ht as [|c l Hc Hl IH]; intros x y E.
  { symmetry in E. apply app_eq_nil in E as [-> ->]. exists [], []. split_and!; [done|apply text_nil|apply Forall_nil_2|cbn; lia|intros _; apply text_nil]. }
  destruct x as [|b x].
  { exists [], y. cbn in E. subst y. split_and!; [done|by constructor|apply Forall_nil_2|cbn; lia|intros _; apply text_nil]. }
  destruct (char_shape c Hc) as (b' & t & -> & _ & _ & Hcont & H4).
  cbn in E. injection E as <- E.
  apply app_eq_inv in E as [(k & -> & ->)|(k & -> & E)].
  - apply Forall_app in Hcont as [Hx Hk]. destruct k as [|b k].
    + rewrite app_nil_r in *. cbn. destruct (IH [] l eq_refl) as (t' & z & -> & Hz & Ht' & Hl' & _).
      exists [], (t' ++ z). split_and!; [done|done|constructor|cbn; lia|]. intros _. by apply text_char.
    + exists (b :: k), l. split_and!; [done..| |done]. cbn in *. rewrite length_app in H4. cbn in H4. lia.
  - destruct (IH k y E) as (t' & z & -> & Hz & Ht' & Hl' & Hk).
    exists t', z. split_and!; [done..|]. intros Hn. change (b' :: t ++ k) with ((b' :: t) ++ k).
    constructor; auto.
Qed.

(** A text may be cut where no byte continues a character. *)
Lemma text_cut x b y : text (x ++ b :: y) → continues b = false → text x ∧ text (b :: y).
Proof.
  intros Ht Hb. destruct (text_behind x (b :: y) Ht) as (t & z & E & Hz & Hc & _ & Hx).
  destruct t as [|b' t]; [cbn in E; subst z; auto|].
  cbn in E. injection E as <- _. apply Forall_cons in Hc as [Hc _]. congruence.
Qed.

(** The beginning of a text is a text and the beginning of a character. *)
Lemma text_prefix x y : text (x ++ y) → ∃ v p, x = v ++ p ∧ text v ∧ part p.
Proof.
  intros Ht. remember (x ++ y) as l eqn:E. revert x y E.
  induction Ht as [|c l Hc Hl IH]; intros x y E.
  { symmetry in E. apply app_eq_nil in E as [-> _]. exists [], []. split_and!; [done|apply text_nil|apply part_nil]. }
  apply app_eq_inv in E as [(k & -> & ->)|(k & -> & E)].
  - destruct k as [|b k].
    + rewrite app_nil_r in Hc. exists x, []. rewrite app_nil_r. split_and!; [done|by apply text_char|apply part_nil].
    + exists [], x. split_and!; [done|apply text_nil|]. exists (x ++ b :: k). split_and!; [done|by exists (b :: k)|].
      intros E. apply (f_equal length) in E. rewrite length_app in E. cbn in E. lia.
  - destruct (IH k y E) as (v & p & -> & Hv & Hp). exists (c ++ v), p.
    split_and!; [by rewrite app_assoc|by constructor|done].
Qed.

Lemma part_prefix x y v p : text v → part p → x ++ y = v ++ p → ∃ v' p', x = v' ++ p' ∧ text v' ∧ part p'.
Proof.
  intros Hv (c & Hc & [z Hz] & _) E. apply (text_prefix x (y ++ z)).
  rewrite app_assoc, E, <- app_assoc, <- Hz. apply text_app; [done|by apply text_char].
Qed.

(** There is no character in the beginning of one. *)
Lemma part_text v p : part (v ++ p) → text v → v = [].
Proof.
  intros (c & Hc & [z Hz] & Hne) Hv. destruct Hv as [|d v Hd Hv]; [done|]. exfalso. apply Hne.
  assert (c = d) as ->.
  { apply (char_unique c d [] (v ++ p ++ z)); [done..|]. by rewrite app_nil_r, Hz, <- !app_assoc. }
  rewrite <- !app_assoc in Hz. rewrite <- (app_nil_r d) in Hz at 1. apply app_inv_head in Hz.
  symmetry in Hz. apply app_eq_nil in Hz as [-> Hz]. apply app_eq_nil in Hz as [-> _].
  by rewrite !app_nil_r.
Qed.

Lemma part_length p : part p → (length p ≤ 3)%nat.
Proof. intros Hp. destruct (part_shape p Hp) as [->|(b & t & k & -> & _ & _ & _ & Hl)]; [cbn; lia|lia]. Qed.

Definition newline : byte := Byte.x0a.

Lemma text_newline x y : text (x ++ newline :: y) → text x ∧ text (x ++ [newline]) ∧ text y.
Proof.
  intros Ht. assert (text [newline]) as Hn by (apply text_char; by constructor).
  destruct (text_cut _ _ _ Ht) as [Hx Hy]; [done|].
  split; [done|]. split; [by apply text_app|]. by apply (text_split [newline]).
Qed.

End Utf8.
