(* ===== verification/RecordUpdate.v ===== *)
(** * Updating one field of a record

    [r <| f := v |>] is the record [r] with the field [f] set to [v], the
    counterpart of an assignment [r.f = v].  A record opts in with an instance of
    [Eta], its own eta expansion; the update function of each projection is then
    built from it. *)
From S2P Require Import Prelude.

Class Eta (R : Type) : Type := eta : R → R.

(** The update function of the projection [p]. *)
Class Update {R T : Type} (p : R → T) : Type := update : T → R → R.
Arguments update {R T} p {_} _ _.

Ltac build_update p :=
  match type of p with
  | ?R → ?T =>
      let v := fresh "v" in
      let r := fresh "r" in
      refine (fun (v : T) (r : R) => _);
      let b := eval hnf in (@eta R _ r) in
      let b := eval pattern (p r) in b in
      match b with
      | ?f _ => let t := eval cbv beta in (f v) in exact t
      end
  end.

#[export] Hint Extern 0 (Update ?p) => build_update p : typeclass_instances.

Notation "r '<|' p ':=' v '|>'" := (update p v r)
  (at level 1, left associativity, p at level 10, v at level 200) : rust_scope.

Module Test.
Record Point : Type := mkPoint { px : Z; py : Z; pz : bool }.
#[local] Instance eta_point : Eta Point := λ r, mkPoint (px r) (py r) (pz r).

Example update_one (r : Point) :
  r <| px := 3 |> <| pz := true |> = mkPoint 3 (py r) true.
Proof. reflexivity. Qed.
End Test.
