(* ===== verification/Net.v ===== *)
(** * Socket addresses and their mangled wire form

    [std::net] addresses as the code uses them (classification, text form,
    parsing), [try_into_v4] and [AddrMangle] of hbb_common/src/lib.rs. *)
From S2P Require Import Prelude RustStd.
From Stdlib Require Import Ascii.

(** ** Fixed-size arrays [[u8; n]] *)
Definition array (n : nat) : Type := dsig (λ l : list byte, length l = n).

Definition octets {n} (a : array n) : list byte := proj1_sig a.

(** [slice.try_into().unwrap_or_default()] *)
Definition to_array (n : nat) (l : list byte) : array n :=
  match decide (length l = n) with
  | left H => dexist l H
  | right _ => dexist (replicate n Byte.x00) (length_replicate n Byte.x00)
  end.

Lemma length_octets {n} (a : array n) : length (octets a) = n.
Proof. apply (proj2_dsig a). Qed.

Lemma octets_to_array n l : length l = n → octets (to_array n l) = l.
Proof. intros H. unfold to_array. by destruct (decide _). Qed.

Lemma to_array_octets {n} (a : array n) : to_array n (octets a) = a.
Proof. apply dsig_eq. apply octets_to_array, length_octets. Qed.

#[global] Instance array_eq_dec n : EqDecision (array n).
Proof. unfold array, dsig. apply _. Defined.
#[global] Instance array_countable n : Countable (array n) :=
  inj_countable' octets (to_array n) to_array_octets.

Definition Ipv4Addr : Type := array 4.
Definition Ipv6Addr : Type := array 16.

Inductive IpAddr : Type :=
| IpV4 (ip : Ipv4Addr)
| IpV6 (ip : Ipv6Addr).

(** A [SocketAddrV6] carries a flow label and a scope id next to the port. *)
Inductive SocketAddr : Type :=
| SaV4 (ip : Ipv4Addr) (port : Z)
| SaV6 (ip : Ipv6Addr) (port flowinfo scope_id : Z).

#[global] Instance IpAddr_eq_dec : EqDecision IpAddr.
Proof. solve_decision. Defined.
#[global] Instance SocketAddr_eq_dec : EqDecision SocketAddr.
Proof. solve_decision. Defined.
#[global] Instance SocketAddr_countable : Countable SocketAddr.
Proof.
  refine (inj_countable'
    (λ a, match a with
          | SaV4 ip p => inl (ip, p)
          | SaV6 ip p f s => inr (ip, p, f, s) end)
    (λ x, match x with
          | inl (ip, p) => SaV4 ip p
          | inr (ip, p, f, s) => SaV6 ip p f s end) _).
  by intros [].
Defined.

Definition ipv4 (a b c d : Z) : Ipv4Addr := to_array 4 (z2b <$> [a; b; c; d]).
Definition localhost4 : Ipv4Addr := ipv4 127 0 0 1.
Definition unspecified4 : Ipv4Addr := ipv4 0 0 0 0.
Definition unspecified6 : Ipv6Addr := to_array 16 (replicate 16 Byte.x00).
Definition localhost6 : Ipv6Addr := to_array 16 (replicate 15 Byte.x00 ++ [Byte.x01]).

(** [SocketAddr::new] *)
Definition socket_addr (ip : IpAddr) (port : Z) : SocketAddr :=
  match ip with
  | IpV4 ip => SaV4 ip port
  | IpV6 ip => SaV6 ip port 0 0
  end.

Definition sa_ip (a : SocketAddr) : IpAddr :=
  match a with SaV4 ip _ => IpV4 ip | SaV6 ip _ _ _ => IpV6 ip end.
Definition sa_port (a : SocketAddr) : Z :=
  match a with SaV4 _ p => p | SaV6 _ p _ _ => p end.

Definition is_loopback (ip : IpAddr) : bool :=
  match ip with
  | IpV4 ip => bool_decide (octets ip !! 0%nat = Some (z2b 127))
  | IpV6 ip => bool_decide (ip = localhost6)
  end.

Definition is_unspecified (ip : IpAddr) : bool :=
  match ip with
  | IpV4 ip => bool_decide (ip = unspecified4)
  | IpV6 ip => bool_decide (ip = unspecified6)
  end.

(** [Ipv6Addr::to_ipv4]: the IPv4-mapped and IPv4-compatible forms. *)
Definition to_ipv4 (ip : Ipv6Addr) : option Ipv4Addr :=
  let l := octets ip in
  if bool_decide (take 10 l = replicate 10 Byte.x00) &&
     (bool_decide (take 2 (drop 10 l) = [z2b 0; z2b 0]) ||
      bool_decide (take 2 (drop 10 l) = [z2b 255; z2b 255]))
  then Some (to_array 4 (drop 12 l)) else None.

Definition to_ipv4_mapped (ip : Ipv6Addr) : option Ipv4Addr :=
  let l := octets ip in
  if bool_decide (take 12 l = replicate 10 Byte.x00 ++ [z2b 255; z2b 255])
  then Some (to_array 4 (drop 12 l)) else None.

(** hbb_common/src/lib.rs [try_into_v4] *)
Definition try_into_v4 (addr : SocketAddr) : SocketAddr :=
  match addr with
  | SaV6 v6 _ _ _ =>
      if negb (is_loopback (sa_ip addr)) then
        match to_ipv4 v6 with
        | Some v4 => socket_addr (IpV4 v4) (sa_port addr)
        | None => addr
        end
      else addr
  | _ => addr
  end.

(** ** [AddrMangle]

    The clock reading ([as_micros() as u32]) is the argument [tm]. *)

(** The number the mangled form of an IPv4 address spells. *)
Definition mangle_v4 (tm ip port : Z) : Z :=
  Z.lor (Z.lor (Z.shiftl (ip + tm) 49) (Z.shiftl tm 17)) (port + Z.land tm 0xFFFF).

(** The loop over [bytes.iter().rev()]. *)
Fixpoint leading_zeros (l : list byte) : nat :=
  match l with
  | b :: l => if bool_decide (b = Byte.x00) then S (leading_zeros l) else O
  | [] => O
  end.
Definition n_padding (l : list byte) : nat := leading_zeros (reverse l).

Definition encode (tm : Z) (addr : SocketAddr) : list byte :=
  match try_into_v4 addr with
  | SaV4 ip port =>
      let v := mangle_v4 tm (from_le_bytes (octets ip)) port in
      let bytes := to_le_bytes 16 v in
      take (16 - n_padding bytes) bytes
  | SaV6 ip port _ _ => octets ip ++ to_le_bytes 2 port
  end.

(** [Config::get_any_listen_addr] *)
Definition get_any_listen_addr (is_ipv4 : bool) : SocketAddr :=
  if is_ipv4 then socket_addr (IpV4 unspecified4) 0 else socket_addr (IpV6 unspecified6) 0.

(** The release profile leaves overflow checks off: the two subtractions wrap. *)
Definition decode (bytes : list byte) : SocketAddr :=
  if 16 <? len bytes then
    if negb (len bytes =? 18) then get_any_listen_addr false
    else
      let port := from_le_bytes (drop 16 bytes) in
      socket_addr (IpV6 (to_array 16 (take 16 bytes))) port
  else
    let padded := bytes ++ replicate (16 - length bytes) Byte.x00 in
    let number := from_le_bytes padded in
    let tm := Z.land (Z.shiftr number 17) u32_max in
    let ip := to_le_bytes 4 (as_u32 (as_u128 (Z.shiftr number 49 - tm))) in
    let port := as_u128 (Z.land number 0xFFFFFF - Z.land tm 0xFFFF) in
    SaV4 (to_array 4 ip) (as_u16 port).

(** A port fits in 16 bits. *)
Definition port_ok (a : SocketAddr) : Prop := 0 ≤ sa_port a < 65536.

(** What survives the wire: a V6 address loses its flow label and scope id. *)
Definition wire_addr (a : SocketAddr) : SocketAddr := socket_addr (sa_ip a) (sa_port a).

(** ** Facts about the mangled form *)
Lemma leading_zeros_spec l :
  ∃ k, l = replicate (leading_zeros l) Byte.x00 ++ k.
Proof.
  induction l as [|b l [k IH]]; simpl; [by exists []|].
  case_bool_decide as E; [|by exists (b :: l)].
  exists k. simpl. congruence.
Qed.

(** Dropping the trailing zero bytes keeps the number. *)
Lemma strip_padding_spec l :
  l = take (length l - n_padding l) l ++ replicate (n_padding l) Byte.x00.
Proof.
  destruct (leading_zeros_spec (reverse l)) as [k Hk]. fold (n_padding l) in Hk.
  apply (f_equal reverse) in Hk. rewrite reverse_involutive, reverse_app, reverse_replicate in Hk.
  set (n := n_padding l) in *. clearbody n. subst l.
  rewrite length_app, length_replicate, Nat.add_sub. by rewrite take_app_length.
Qed.

Lemma mangle_v4_sum tm ip port :
  0 ≤ tm < 2 ^ 32 → 0 ≤ port < 65536 →
  mangle_v4 tm ip port = (ip + tm) * 2 ^ 49 + tm * 2 ^ 17 + (port + tm mod 65536).
Proof.
  intros Htm Hp. unfold mangle_v4.
  change 0xFFFF with (Z.ones 16). rewrite Z.land_ones by lia.
  change (2 ^ 16) with 65536. pose proof (Z.mod_pos_bound tm 65536 eq_refl).
  rewrite (lor_shiftl_add (ip + tm) (Z.shiftl tm 17) 49)
    by (rewrite ?Z.shiftl_mul_pow2 by lia; lia).
  replace (Z.shiftl (ip + tm) 49 + Z.shiftl tm 17)
    with (Z.shiftl ((ip + tm) * 2 ^ 32 + tm) 17) by (rewrite !Z.shiftl_mul_pow2 by lia; lia).
  rewrite lor_shiftl_add by lia. rewrite Z.shiftl_mul_pow2 by lia. lia.
Qed.

Lemma encode_v4_number tm ip port :
  0 ≤ tm < 2 ^ 32 → 0 ≤ port < 65536 →
  let bs := encode tm (SaV4 ip port) in
  len bs ≤ 16 ∧
  from_le_bytes (bs ++ replicate (16 - length bs) Byte.x00) =
    mangle_v4 tm (from_le_bytes (octets ip)) port.
Proof.
  intros Htm Hp. unfold encode, try_into_v4. cbv zeta.
  set (v := mangle_v4 _ _ _). set (l := to_le_bytes 16 v).
  assert (length l = 16%nat) as Hl by apply length_to_le_bytes.
  pose proof (strip_padding_spec l) as Hs. rewrite Hl in Hs.
  set (t := take (16 - n_padding l) l) in *.
  assert (length l = (length t + n_padding l)%nat) as Hlt.
  { rewrite Hs at 1. by rewrite length_app, length_replicate. }
  split; [unfold len; lia|].
  replace (16 - length t)%nat with (n_padding l) by lia.
  rewrite <- Hs. apply from_to_le_bytes_small.
  pose proof (from_le_bytes_range (octets ip)) as Hip. unfold len in Hip.
  rewrite length_octets in Hip. change (256 ^ Z.of_nat 4) with 4294967296 in Hip.
  unfold v. rewrite mangle_v4_sum by done.
  pose proof (Z.mod_pos_bound tm 65536 eq_refl).
  change (256 ^ Z.of_nat 16) with (2 ^ 128). lia.
Qed.

Lemma decode_mangled tm ip port :
  0 ≤ tm < 2 ^ 32 → 0 ≤ ip < 2 ^ 32 → 0 ≤ port < 65536 →
  let number := mangle_v4 tm ip port in
  Z.land (Z.shiftr number 17) u32_max = tm ∧
  as_u32 (as_u128 (Z.shiftr number 49 - tm)) = ip ∧
  as_u16 (as_u128 (Z.land number 0xFFFFFF - Z.land tm 0xFFFF)) = port.
Proof.
  intros Htm Hip Hp. cbv zeta. rewrite mangle_v4_sum by done.
  pose proof (Z.mod_pos_bound tm 65536 eq_refl) as Hm. set (r := tm mod 65536) in *.
  set (number := _ + (port + r)).
  assert (Z.shiftr number 17 = (ip + tm) * 2 ^ 32 + tm) as E17.
  { rewrite Z.shiftr_div_pow2 by lia. symmetry. apply Z.div_unique with (port + r); lia. }
  assert (Z.shiftr number 49 = ip + tm) as E49.
  { rewrite Z.shiftr_div_pow2 by lia. symmetry.
    apply Z.div_unique with (tm * 2 ^ 17 + (port + r)); lia. }
  split_and!.
  - rewrite E17. change u32_max with (Z.ones 32). rewrite Z.land_ones by lia.
    symmetry. apply Z.mod_unique with (ip + tm); lia.
  - rewrite E49. unfold as_u32, as_u128. replace (ip + tm - tm) with ip by lia.
    rewrite (Z.mod_small ip (2 ^ 128)) by lia. by apply Z.mod_small.
  - change 0xFFFF with (Z.ones 16). change 0xFFFFFF with (Z.ones 24).
    rewrite !Z.land_ones by lia. change (2 ^ 16) with 65536. fold r.
    assert (number mod 2 ^ 24 = (tm mod 128) * 2 ^ 17 + (port + r)) as ->.
    { pose proof (Z.mod_pos_bound tm 128 eq_refl). symmetry.
      apply Z.mod_unique with ((ip + tm) * 2 ^ 25 + tm / 128); [lia|].
      pose proof (Z.div_mod tm 128 ltac:(lia)). lia. }
    unfold as_u16, as_u128. pose proof (Z.mod_pos_bound tm 128 eq_refl).
    rewrite (Z.mod_small _ (2 ^ 128)) by lia.
    symmetry. apply Z.mod_unique with ((tm mod 128) * 2); lia.
Qed.

Lemma decode_encode_v4 tm ip port :
  0 ≤ tm < 2 ^ 32 → 0 ≤ port < 65536 → decode (encode tm (SaV4 ip port)) = SaV4 ip port.
Proof.
  intros Htm Hp. destruct (encode_v4_number tm ip port Htm Hp) as [Hl Hn].
  set (bs := encode tm (SaV4 ip port)) in *. unfold decode.
  destruct (Z.ltb_spec 16 (len bs)); [lia|]. cbv zeta. rewrite Hn.
  pose proof (from_le_bytes_range (octets ip)) as Hip. unfold len in Hip.
  rewrite length_octets in Hip. change (256 ^ Z.of_nat 4) with (2 ^ 32) in Hip.
  destruct (decode_mangled tm _ port Htm Hip Hp) as (-> & -> & ->).
  f_equal. replace 4%nat with (length (octets ip)) at 2 by apply length_octets.
  rewrite to_from_le_bytes. apply to_array_octets.
Qed.

Lemma decode_encode_v6 ip port :
  0 ≤ port < 65536 →
  decode (octets ip ++ to_le_bytes 2 port) = SaV6 ip port 0 0.
Proof.
  intros Hp. unfold decode.
  assert (len (octets ip ++ to_le_bytes 2 port) = 18) as ->.
  { unfold len. by rewrite length_app, length_octets, length_to_le_bytes. }
  simpl. rewrite drop_app_length', take_app_length' by (by rewrite length_octets).
  rewrite to_array_octets. f_equal. apply (from_to_le_bytes_small 2).
  change (256 ^ Z.of_nat 2) with 65536. done.
Qed.

(** (C28) Decoding the mangled form of any socket address gives the address
    back, in its IPv4 form when it is an IPv4-mapped or -compatible IPv6 address,
    whatever the clock reads when it is encoded. *)
Theorem addr_mangle_roundtrip tm addr :
  0 ≤ tm < 2 ^ 32 → port_ok addr →
  decode (encode tm addr) = wire_addr (try_into_v4 addr).
Proof.
  intros Htm Hp.
  assert (port_ok (try_into_v4 addr)) as Hp'.
  { unfold try_into_v4, port_ok in *. destruct addr; simpl in *; [done|].
    repeat case_match; done. }
  unfold port_ok in Hp'. unfold encode at 1.
  destruct (try_into_v4 addr) as [ip p|ip p f s]; cbn [sa_port] in Hp'.
  - apply (decode_encode_v4 tm ip p Htm Hp').
  - apply (decode_encode_v6 ip p Hp').
Qed.

Lemma addr_mangle_roundtrip_witness :
  decode (encode 1700000000 (SaV4 (ipv4 192 0 2 7) 21118)) = SaV4 (ipv4 192 0 2 7) 21118 ∧
  decode (encode 4294967295 (SaV6 localhost6 21116 0 3)) = SaV6 localhost6 21116 0 0.
Proof.
  split.
  - refine (addr_mangle_roundtrip 1700000000 (SaV4 (ipv4 192 0 2 7) 21118) _ _);
      [lia|unfold port_ok; simpl; lia].
  - refine (addr_mangle_roundtrip 4294967295 (SaV6 localhost6 21116 0 3) _ _);
      [lia|unfold port_ok; simpl; lia].
Defined.
