(* ===== verification/NetText.v ===== *)
(** * The text form of addresses

    [Display] and [FromStr] of [std::net] addresses, following the recursive
    descent parser of [core::net::parser]: a reader consumes a prefix of the
    text or fails without consuming anything. *)
From S2P Require Import Prelude RustStd Net.
From Stdlib Require Import Ascii.

(** ** Readers *)
Definition reader (A : Type) : Type := string → option (A * string).

Definition to_digit (radix : Z) (c : ascii) : option Z :=
  let n := Z.of_N (N_of_ascii c) in
  let d := if (48 <=? n) && (n <=? 57) then n - 48
           else if (97 <=? n) && (n <=? 122) then n - 87
           else if (65 <=? n) && (n <=? 90) then n - 55
           else 36 in
  if d <? radix then Some d else None.

Fixpoint take_digits (radix : Z) (s : string) (acc count : Z) : Z * Z * string :=
  match s with
  | String c t => match to_digit radix c with
                  | Some d => take_digits radix t (acc * radix + d) (count + 1)
                  | None => (acc, count, s)
                  end
  | EmptyString => (acc, count, s)
  end.

(** [read_number]: at most [max_digits] digits when that is given, no leading
    zero unless [allow_zero_prefix], and a value that fits in the type. *)
Definition read_number (radix : Z) (max_digits : option Z) (allow_zero_prefix : bool)
    (mx : Z) : reader Z := λ s,
  let has_leading_zero := match s with String "0" _ => true | _ => false end in
  let '(n, count, t) := take_digits radix s 0 0 in
  if match max_digits with Some m => m <? count | None => false end then None
  else if count =? 0 then None
  else if negb allow_zero_prefix && has_leading_zero && (1 <? count) then None
  else if n <=? mx then Some (n, t) else None.

Definition read_given_char (c : ascii) : reader unit := λ s,
  match s with
  | String a t => if bool_decide (a = c) then Some (tt, t) else None
  | EmptyString => None
  end.

Definition read_separator {A} (sep : ascii) (index : nat) (inner : reader A) : reader A := λ s,
  match index with
  | O => inner s
  | _ => match read_given_char sep s with Some (_, t) => inner t | None => None end
  end.

Definition read_octet : reader Z := read_number 10 (Some 3) false 255.

Definition read_ipv4_addr : reader Ipv4Addr := λ s,
  '(a, s) ← read_separator "." 0 read_octet s;
  '(b, s) ← read_separator "." 1 read_octet s;
  '(c, s) ← read_separator "." 2 read_octet s;
  '(d, s) ← read_separator "." 3 read_octet s;
  Some (ipv4 a b c d, s).

Definition read_group : reader Z := read_number 16 (Some 4) true 65535.

(** [read_groups]: the groups read, whether an embedded IPv4 address ended
    them, and the rest.  [limit] is the length of the slice being filled, [i] the
    group's index. *)
Fixpoint read_groups (fuel : nat) (limit i : nat) (s : string) : list Z * bool * string :=
  match fuel with
  | O => ([], false, s)
  | S fuel =>
      match (if (i <? limit - 1)%nat then read_separator ":" i read_ipv4_addr s else None) with
      | Some (v4, t) =>
          ([from_be_bytes (take 2 (octets v4)); from_be_bytes (drop 2 (octets v4))], true, t)
      | None =>
          match read_separator ":" i read_group s with
          | Some (g, t) =>
              let '(gs, v4, rest) := read_groups fuel limit (S i) t in (g :: gs, v4, rest)
          | None => ([], false, s)
          end
      end
  end.

Definition ipv6_of_groups (gs : list Z) : Ipv6Addr :=
  to_array 16 (gs ≫= to_be_bytes 2).

Definition read_ipv6_addr : reader Ipv6Addr := λ s,
  let '(head, head_ipv4, t) := read_groups 8 8 0 s in
  let head_size := length head in
  if (head_size =? 8)%nat then Some (ipv6_of_groups head, t)
  else if head_ipv4 then None
  else
    '(_, t) ← read_given_char ":" t;
    '(_, t) ← read_given_char ":" t;
    let limit := (8 - (head_size + 1))%nat in
    let '(tail, _, t) := read_groups limit limit 0 t in
    Some (ipv6_of_groups (head ++ replicate (8 - head_size - length tail) 0 ++ tail), t).

(** [parse_with]: the whole text has to be consumed. *)
Definition parse_with {A} (r : reader A) (s : string) : option A :=
  match r s with
  | Some (a, EmptyString) => Some a
  | _ => None
  end.

Definition read_ip_addr : reader IpAddr := λ s,
  match read_ipv4_addr s with
  | Some (a, t) => Some (IpV4 a, t)
  | None => match read_ipv6_addr s with Some (a, t) => Some (IpV6 a, t) | None => None end
  end.

Definition read_port : reader Z := λ s,
  '(_, s) ← read_given_char ":" s; read_number 10 None true u16_max s.

Definition read_scope_id : reader Z := λ s,
  '(_, s) ← read_given_char "%" s; read_number 10 None true u32_max s.

Definition read_socket_addr_v4 : reader SocketAddr := λ s,
  '(ip, s) ← read_ipv4_addr s; '(port, s) ← read_port s; Some (SaV4 ip port, s).

Definition read_socket_addr_v6 : reader SocketAddr := λ s,
  '(_, s) ← read_given_char "[" s;
  '(ip, s) ← read_ipv6_addr s;
  let '(scope, s) := match read_scope_id s with Some (n, t) => (n, t) | None => (0, s) end in
  '(_, s) ← read_given_char "]" s;
  '(port, s) ← read_port s;
  Some (SaV6 ip port 0 scope, s).

Definition read_socket_addr : reader SocketAddr := λ s,
  match read_socket_addr_v4 s with Some r => Some r | None => read_socket_addr_v6 s end.

(** [s.parse::<IpAddr>()], [s.parse::<SocketAddr>()] *)
Definition parse_ip : string → option IpAddr := parse_with read_ip_addr.
Definition parse_socket_addr : string → option SocketAddr := parse_with read_socket_addr.

(** ** Printing *)
Infix "+s+" := String.append (at level 60, right associativity) : rust_scope.

Definition ipv4_to_string (ip : Ipv4Addr) : string :=
  match octets ip with
  | [a; b; c; d] =>
      uint_to_string (b2z a) +s+ "." +s+ uint_to_string (b2z b) +s+ "."
        +s+ uint_to_string (b2z c) +s+ "." +s+ uint_to_string (b2z d)
  | _ => ""
  end.

Definition hex_char (d : Z) : ascii :=
  ascii_of_N (Z.to_N (if d <? 10 then 48 + d else 87 + d)).

(** [{:x}] of a 16-bit group. *)
Definition hex_group (n : Z) : string :=
  let ds := [n / 4096; (n / 256) mod 16; (n / 16) mod 16; n mod 16] in
  let fix strip (l : list Z) : list Z :=
    match l with
    | [d] => [d]
    | d :: l' => if d =? 0 then strip l' else l
    | [] => []
    end in
  foldr (λ d s, String (hex_char d) s) "" (strip ds).

Fixpoint segments (l : list byte) : list Z :=
  match l with
  | a :: b :: l => (b2z a * 256 + b2z b) :: segments l
  | _ => []
  end.

Fixpoint join_groups (gs : list Z) : string :=
  match gs with
  | [] => ""
  | [g] => hex_group g
  | g :: gs => hex_group g +s+ ":" +s+ join_groups gs
  end.

(** The first longest run of zero groups, as (start, length). *)
Fixpoint longest_zero_run (gs : list Z) (i : nat) (cur longest : nat * nat) : nat * nat :=
  match gs with
  | [] => longest
  | g :: gs =>
      if g =? 0 then
        let cur := (if (cur.2 =? 0)%nat then i else cur.1, S cur.2) in
        longest_zero_run gs (S i) cur (if (longest.2 <? cur.2)%nat then cur else longest)
      else longest_zero_run gs (S i) (0%nat, 0%nat) longest
  end.

Definition ipv6_to_string (ip : Ipv6Addr) : string :=
  match to_ipv4_mapped ip with
  | Some v4 => "::ffff:" +s+ ipv4_to_string v4
  | None =>
      let gs := segments (octets ip) in
      let '(start, n) := longest_zero_run gs 0 (0%nat, 0%nat) (0%nat, 0%nat) in
      if (1 <? n)%nat then
        join_groups (take start gs) +s+ "::" +s+ join_groups (drop (start + n) gs)
      else join_groups gs
  end.

Definition ip_to_string (ip : IpAddr) : string :=
  match ip with IpV4 ip => ipv4_to_string ip | IpV6 ip => ipv6_to_string ip end.

Definition socket_addr_to_string (a : SocketAddr) : string :=
  match a with
  | SaV4 ip port => ipv4_to_string ip +s+ ":" +s+ uint_to_string port
  | SaV6 ip port _ scope =>
      "[" +s+ ipv6_to_string ip +s+
      (if scope =? 0 then "" else "%" +s+ uint_to_string scope) +s+
      "]:" +s+ uint_to_string port
  end.

Example parse_examples :
  parse_socket_addr "127.0.0.1:22116" = Some (SaV4 localhost4 22116) ∧
  parse_socket_addr "[::1]:22116" = Some (SaV6 localhost6 22116 0 0) ∧
  parse_socket_addr "relay.example.com:21117" = None ∧
  parse_socket_addr "127.0.0.01:1" = None ∧
  parse_ip "::ffff:1.2.3.4" = Some (IpV6 (to_array 16 (replicate 10 Byte.x00 ++ (z2b <$> [255;255;1;2;3;4])))) ∧
  ip_to_string (IpV6 localhost6) = "::1" ∧
  ip_to_string (IpV6 (to_array 16 (z2b <$> [0x20;1;0x0d;0xb8;0;0;0;0;0;0;0;0;0;0;0;1]))) = "2001:db8::1".
Proof. repeat split; vm_compute; reflexivity. Qed.

(** ** Printing and parsing an IPv4 socket address *)
Definition digit_free_head (radix : Z) (s : string) : Prop :=
  match s with String c _ => to_digit radix c = None | EmptyString => True end.

Lemma take_digits_app radix s acc count n k rest :
  take_digits radix s acc count = (n, k, "") → digit_free_head radix rest →
  take_digits radix (s +s+ rest) acc count = (n, k, rest).
Proof.
  revert acc count. induction s as [|c s IH]; intros acc count; simpl.
  - intros [= <- <-] Hr. destruct rest as [|c t]; simpl in *; [done|]. by rewrite Hr.
  - destruct (to_digit radix c); [|done]. apply IH.
Qed.

Lemma read_number_app radix md az mx s n rest :
  read_number radix md az mx s = Some (n, "") → digit_free_head radix rest →
  read_number radix md az mx (s +s+ rest) = Some (n, rest).
Proof.
  unfold read_number. intros H Hr.
  destruct (take_digits radix s 0 0) as [[m k] t] eqn:E.
  assert (t = "") as -> by (repeat case_match; simplify_eq; done).
  rewrite (take_digits_app _ _ _ _ _ _ _ E Hr).
  destruct s as [|c s].
  - simpl in E. simplify_eq. repeat case_match; simplify_eq.
  - simpl. repeat case_match; simplify_eq; done.
Qed.

Lemma read_octet_string b rest :
  digit_free_head 10 rest →
  read_octet (uint_to_string (b2z b) +s+ rest) = Some (b2z b, rest).
Proof.
  intros Hr. apply read_number_app; [|done]. destruct b; vm_compute; reflexivity.
Qed.

Lemma to_digit_10 c : to_digit 10 c = digit_of c.
Proof. by destruct c as [[] [] [] [] [] [] [] []]. Qed.

Lemma take_digits_parse s acc count n :
  parse_digits s acc = Some n → take_digits 10 s acc count = (n, count + str_len s, "").
Proof.
  unfold str_len. revert acc count.
  induction s as [|c s IH]; intros acc count; cbn [parse_digits take_digits].
  - intros [= ->]. f_equal. f_equal. simpl. lia.
  - rewrite to_digit_10. destruct (digit_of c) as [d|]; [|done].
    intros ->%(IH _ (count + 1)). cbn [String.length]. f_equal. f_equal. lia.
Qed.

Lemma read_u16_string p :
  0 ≤ p < 65536 → read_number 10 None true u16_max (uint_to_string p) = Some (p, "").
Proof.
  intros Hp. unfold read_number, uint_to_string.
  set (fuel := S (Z.to_nat (Z.log2 p))).
  destruct (parse_digits_dec_go fuel p "" 0) as (q & _ & _ & H); [|done|].
  { split; [lia|]. apply log2_fuel. lia. }
  specialize (H eq_refl). destruct (dec_go_nonempty fuel p "") as (d & t & E & _); [done|].
  rewrite E in *. rewrite (take_digits_parse _ _ _ _ H).
  unfold str_len, u16_max. cbn [String.length negb andb].
  destruct (Z.eqb_spec (0 + Z.of_nat (S (String.length t))) 0); [lia|].
  destruct (Z.leb_spec p 65535); [done|lia].
Qed.

Lemma str_app_cons a s t : String a s +s+ t = String a (s +s+ t).
Proof. done. Qed.

Lemma str_app_nil_l t : "" +s+ t = t.
Proof. done. Qed.

Lemma str_app_nil_r s : s +s+ "" = s.
Proof. induction s as [|a s IH]; [done|]. by rewrite str_app_cons, IH. Qed.

Lemma str_app_assoc a b c : (a +s+ b) +s+ c = a +s+ b +s+ c.
Proof. induction a as [|x a IH]; [done|]. by rewrite !str_app_cons, IH. Qed.

Lemma read_given_char_eq c t : read_given_char c (String c t) = Some (tt, t).
Proof. simpl. by rewrite bool_decide_eq_true_2. Qed.

Lemma octets4_cases (ip : Ipv4Addr) :
  ∃ a b c d, octets ip = [a; b; c; d].
Proof.
  pose proof (length_octets ip) as H.
  destruct (octets ip) as [|a [|b [|c [|d [|e l]]]]]; simpl in H; try lia.
  by exists a, b, c, d.
Qed.

Lemma read_ipv4_string ip rest :
  digit_free_head 10 rest →
  read_ipv4_addr (ipv4_to_string ip +s+ rest) = Some (ip, rest).
Proof.
  intros Hr. destruct (octets4_cases ip) as (a & b & c & d & E).
  unfold ipv4_to_string. rewrite E, !str_app_assoc.
  unfold read_ipv4_addr, read_separator.
  rewrite !str_app_cons, !str_app_nil_l.
  repeat (rewrite ?read_given_char_eq, read_octet_string by done;
          cbn -[read_octet read_given_char uint_to_string b2z ipv4]).
  f_equal. f_equal. unfold ipv4. simpl. rewrite !z2b_b2z, <- E. apply to_array_octets.
Qed.

(** An IPv4 socket address printed and parsed again is the same address. *)
Lemma parse_socket_addr_v4 ip port :
  0 ≤ port < 65536 →
  parse_socket_addr (socket_addr_to_string (SaV4 ip port)) = Some (SaV4 ip port).
Proof.
  intros Hp. unfold parse_socket_addr, parse_with, read_socket_addr, read_socket_addr_v4.
  unfold socket_addr_to_string. rewrite read_ipv4_string by done.
  rewrite str_app_cons, str_app_nil_l.
  cbn -[read_port uint_to_string]. unfold read_port. rewrite read_given_char_eq.
  cbn -[read_number uint_to_string]. by rewrite read_u16_string.
Qed.

Lemma parse_ip_v4 ip : parse_ip (ipv4_to_string ip) = Some (IpV4 ip).
Proof.
  unfold parse_ip, parse_with, read_ip_addr.
  rewrite <- (str_app_nil_r (ipv4_to_string ip)). by rewrite read_ipv4_string.
Qed.

(** Distinct IPv4 addresses print differently. *)
Lemma ipv4_to_string_inj ip1 ip2 : ipv4_to_string ip1 = ipv4_to_string ip2 → ip1 = ip2.
Proof.
  intros H. pose proof (parse_ip_v4 ip1) as H1. rewrite H, parse_ip_v4 in H1. congruence.
Qed.
