(* ===== verification/BytesCodec.v ===== *)
(** * The length-prefixed frame codec

    hbb_common/src/bytes_codec.rs: [BytesCodec] with its decoder state, the
    variable-length header, raw mode and the packet cap.  The buffer is the bytes
    it holds together with the amount of memory its [reserve] calls asked for. *)
From S2P Require Import Prelude.

Definition MAX_PREALLOCATED_PAYLOAD_LEN : Z := 256 * 1024.
Definition MAX_FRAME_LENGTH : Z := 0x3FFFFFFF.

Inductive DecodeState : Type :=
| Head
| Data (n : Z).

Record BytesCodec : Type := mkCodec {
  state : DecodeState;
  raw : bool;
  max_packet_length : Z
}.

Inductive io_error : Type :=
| InvalidData (msg : string)
| InvalidInput (msg : string).

Record BytesMut : Type := mkBytes {
  content : list byte;
  reserved : Z
}.

Definition new : BytesCodec := mkCodec Head false usize_max.
Definition set_raw (c : BytesCodec) : BytesCodec :=
  mkCodec (state c) true (max_packet_length c).
Definition set_max_packet_length (c : BytesCodec) (n : Z) : BytesCodec :=
  mkCodec (state c) (raw c) n.
Definition set_state (c : BytesCodec) (s : DecodeState) : BytesCodec :=
  mkCodec s (raw c) (max_packet_length c).

(** [src[i]]; the source indexes only below [src.len()]. *)
Definition byte_at (l : list byte) (i : nat) : Z := b2z (nth i l Byte.x00).

Definition head_len_of (src : list byte) : Z := Z.land (byte_at src 0) 3 + 1.

(** The number the first [head_len] bytes spell, before the final shift. *)
Definition head_number (src : list byte) (head_len : Z) : Z :=
  let n := byte_at src 0 in
  let n := if 1 <? head_len then Z.lor n (Z.shiftl (byte_at src 1) 8) else n in
  let n := if 2 <? head_len then Z.lor n (Z.shiftl (byte_at src 2) 16) else n in
  if 3 <? head_len then Z.lor n (Z.shiftl (byte_at src 3) 24) else n.

Definition decode_head (c : BytesCodec) (src : BytesMut)
    : result (option Z) io_error * BytesMut :=
  let s := content src in
  if bool_decide (s = []) then (Ok None, src)
  else
    let head_len := head_len_of s in
    if len s <? head_len then (Ok None, src)
    else
      let n := Z.shiftr (head_number s head_len) 2 in
      if max_packet_length c <? n then (Err (InvalidData "Too big packet"), src)
      else
        let s := drop (Z.to_nat head_len) s in
        let want := Z.min (saturating_sub n (len s)) MAX_PREALLOCATED_PAYLOAD_LEN in
        (Ok (Some n), mkBytes s (reserved src + want)).

(** [src.split_to(n)] once [n] bytes are there. *)
Definition decode_data (n : Z) (src : BytesMut) : option (list byte) * BytesMut :=
  if len (content src) <? n then (None, src)
  else (Some (take (Z.to_nat n) (content src)),
        mkBytes (drop (Z.to_nat n) (content src)) (reserved src)).

(** The second half of [decode]: the payload, once its length is known. *)
Definition decode_payload (n : Z) (c : BytesCodec) (src : BytesMut)
    : result (option (list byte)) io_error * BytesCodec * BytesMut :=
  match decode_data n src with
  | (Some data, src) => (Ok (Some data), set_state c Head, src)
  | (None, src) => (Ok None, c, src)
  end.

Definition decode (c : BytesCodec) (src : BytesMut)
    : result (option (list byte)) io_error * BytesCodec * BytesMut :=
  if raw c then
    if bool_decide (content src ≠ [])
    then (Ok (Some (content src)), c, mkBytes [] (reserved src))
    else (Ok None, c, src)
  else
    match state c with
    | Head =>
        match decode_head c src with
        | (Err e, src) => (Err e, c, src)
        | (Ok (Some n), src) => decode_payload n (set_state c (Data n)) src
        | (Ok None, src) => (Ok None, c, src)
        end
    | Data n => decode_payload n c src
    end.

(** The header [encode] writes for a payload of [n] bytes. *)
Definition head_bytes (n : Z) : option (list byte) :=
  if n <=? 0x3F then Some (to_le_bytes 1 (as_u8 (Z.shiftl n 2)))
  else if n <=? 0x3FFF then Some (to_le_bytes 2 (Z.lor (as_u16 (Z.shiftl n 2)) 1))
  else if n <=? 0x3FFFFF then
    let h := Z.lor (as_u32 (Z.shiftl n 2)) 2 in
    Some (to_le_bytes 2 (Z.land h 0xFFFF) ++ to_le_bytes 1 (as_u8 (Z.shiftr h 16)))
  else if n <=? MAX_FRAME_LENGTH then Some (to_le_bytes 4 (Z.lor (as_u32 (Z.shiftl n 2)) 3))
  else None.

Definition encode (c : BytesCodec) (data buf : list byte) : result unit io_error * list byte :=
  if raw c then (Ok tt, buf ++ data)
  else match head_bytes (len data) with
       | Some h => (Ok tt, (buf ++ h) ++ data)
       | None => (Err (InvalidInput "Overflow"), buf)
       end.

(** ** The header *)
Lemma lor_disjoint a b n : 0 ≤ n → 0 ≤ a < 2 ^ n → Z.lor a (Z.shiftl b n) = a + Z.shiftl b n.
Proof. intros. rewrite Z.lor_comm, lor_shiftl_add by lia. lia. Qed.

Lemma byte_at_range l i : 0 ≤ byte_at l i < 256.
Proof. apply b2z_range. Qed.

Lemma take_cons_nth {A} (d : A) l n :
  (n < length l)%nat → take (S n) l = take n l ++ [nth n l d].
Proof.
  revert n. induction l as [|x l IH]; intros n Hn; simpl in *; [lia|].
  destruct n; simpl; [by rewrite take_0|]. f_equal. apply IH. lia.
Qed.

(** The shifts and ors of [decode_head] read a little-endian number. *)
Lemma head_number_spec src hl :
  1 ≤ hl ≤ 4 → hl ≤ len src → head_number src hl = from_le_bytes (take (Z.to_nat hl) src).
Proof.
  unfold len. intros Hhl Hlen. unfold head_number.
  pose proof (byte_at_range src 0) as Hb0. pose proof (byte_at_range src 1) as Hb1.
  pose proof (byte_at_range src 2) as Hb2.
  assert (hl = 1 ∨ hl = 2 ∨ hl = 3 ∨ hl = 4) as Hc by lia.
  assert (∀ i, Z.of_nat i < hl →
    from_le_bytes (take (S i) src) = from_le_bytes (take i src) + 256 ^ Z.of_nat i * byte_at src i)
    as Hstep.
  { intros i Hi. rewrite (take_cons_nth Byte.x00) by lia.
    rewrite from_le_bytes_app. unfold len. rewrite length_take_le by lia. simpl.
    unfold byte_at. lia. }
  pose proof (Hstep 0%nat) as H0. pose proof (Hstep 1%nat) as H1.
  pose proof (Hstep 2%nat) as H2. pose proof (Hstep 3%nat) as H3.
  rewrite take_0 in H0. change (from_le_bytes []) with 0 in H0.
  destruct Hc as [->|[->|[->| ->]]]; cbn -[Z.lor Z.shiftl from_le_bytes take byte_at];
    rewrite ?(lor_disjoint _ _ 8), ?(lor_disjoint _ _ 16), ?(lor_disjoint _ _ 24)
      by (rewrite ?Z.shiftl_mul_pow2 by lia; lia);
    rewrite ?Z.shiftl_mul_pow2 by lia;
    [change (Z.to_nat 1) with 1%nat|change (Z.to_nat 2) with 2%nat
    |change (Z.to_nat 3) with 3%nat|change (Z.to_nat 4) with 4%nat]; lia.
Qed.

(** The header spells [4 * n] plus its own length minus one. *)
Definition head_size (n : Z) : Z :=
  if n <=? 0x3F then 1 else if n <=? 0x3FFF then 2 else if n <=? 0x3FFFFF then 3 else 4.

Lemma lor_low2 n k : 0 ≤ k < 4 → Z.lor (Z.shiftl n 2) k = 4 * n + k.
Proof. intros. rewrite lor_shiftl_add by lia. rewrite Z.shiftl_mul_pow2 by lia. lia. Qed.

Lemma head_bytes_spec n h :
  0 ≤ n → head_bytes n = Some h →
  len h = head_size n ∧ from_le_bytes h = 4 * n + (head_size n - 1).
Proof.
  intros Hn. unfold head_bytes, head_size, MAX_FRAME_LENGTH, as_u8, as_u16, as_u32.
  assert (Z.shiftl n 2 = 4 * n) as E by (rewrite Z.shiftl_mul_pow2 by lia; lia).
  destruct (Z.leb_spec n 0x3F); [|destruct (Z.leb_spec n 0x3FFF);
    [|destruct (Z.leb_spec n 0x3FFFFF); [|destruct (Z.leb_spec n 0x3FFFFFFF); [|done]]]];
    intros <-%(inj Some); rewrite (Z.mod_small (Z.shiftl n 2)) by lia.
  - split; [done|]. rewrite from_to_le_bytes_small; change (256 ^ Z.of_nat 1) with 256; lia.
  - rewrite lor_low2 by lia. split; [done|].
    rewrite from_to_le_bytes_small; change (256 ^ Z.of_nat 2) with 65536; lia.
  - rewrite lor_low2 by lia. change 0xFFFF with (Z.ones 16). rewrite Z.land_ones by lia.
    rewrite Z.shiftr_div_pow2 by lia. set (h := 4 * n + 2).
    pose proof (Z.mod_pos_bound h (2 ^ 16) ltac:(lia)).
    assert (0 ≤ h / 2 ^ 16 < 256) by (split; [apply Z.div_pos|apply Z.div_lt_upper_bound]; lia).
    rewrite (Z.mod_small (h / 2 ^ 16)) by lia.
    rewrite len_app, from_le_bytes_app. unfold len. rewrite !length_to_le_bytes.
    rewrite !from_to_le_bytes_small
      by (rewrite ?(eq_refl : 256 ^ Z.of_nat 2 = 65536), ?(eq_refl : 256 ^ Z.of_nat 1 = 256); lia).
    split; [done|]. pose proof (Z.div_mod h (2 ^ 16) ltac:(lia)).
    change (256 ^ Z.of_nat 2) with (2 ^ 16). lia.
  - rewrite lor_low2 by lia. split; [done|].
    rewrite from_to_le_bytes_small; change (256 ^ Z.of_nat 4) with 4294967296; lia.
Qed.

Lemma head_size_range n : 1 ≤ head_size n ≤ 4.
Proof. unfold head_size. bool_cases; lia. Qed.

Lemma byte_at_0_mod4 src : src ≠ [] → byte_at src 0 mod 4 = from_le_bytes src mod 4.
Proof.
  destruct src as [|b l]; [done|]. intros _. unfold byte_at. simpl.
  replace (256 * from_le_bytes l) with (64 * from_le_bytes l * 4) by lia.
  by rewrite Z.mod_add by lia.
Qed.

(** A header is recognised whatever follows it. *)
Lemma decode_head_encoded c n h rest rs :
  0 ≤ n → head_bytes n = Some h →
  decode_head c (mkBytes (h ++ rest) rs) =
    if max_packet_length c <? n then (Err (InvalidData "Too big packet"), mkBytes (h ++ rest) rs)
    else (Ok (Some n), mkBytes rest (rs +
       Z.min (saturating_sub n (len rest)) MAX_PREALLOCATED_PAYLOAD_LEN)).
Proof.
  intros Hn Hh. destruct (head_bytes_spec n h Hn Hh) as [Hlen Hval].
  pose proof (head_size_range n) as Hr.
  assert (h ≠ []) as Hne by (intros ->; rewrite len_nil in Hlen; lia).
  assert (h ++ rest ≠ []) as Hne' by (intros [? _]%app_nil; done).
  assert (head_len_of (h ++ rest) = head_size n) as Hhl.
  { unfold head_len_of. change 3 with (Z.ones 2). rewrite Z.land_ones by lia.
    change (2 ^ 2) with 4. destruct h as [|b h]; [done|].
    change (byte_at ((b :: h) ++ rest) 0) with (byte_at (b :: h) 0).
    rewrite byte_at_0_mod4, Hval by done.
    replace (4 * n + (head_size n - 1)) with (head_size n - 1 + n * 4) by lia.
    rewrite Z.mod_add, Z.mod_small by lia. lia. }
  assert (head_number (h ++ rest) (head_size n) = 4 * n + (head_size n - 1)) as Hnum.
  { rewrite head_number_spec by (rewrite ?len_app; pose proof (len_nonneg rest); lia).
    rewrite take_app_length' by (unfold len in Hlen; lia). done. }
  unfold decode_head. cbn [content reserved].
  rewrite bool_decide_eq_false_2 by done. rewrite Hhl, Hnum.
  destruct (Z.ltb_spec (len (h ++ rest)) (head_size n)) as [Hlt|_];
    [rewrite len_app in Hlt; pose proof (len_nonneg rest); lia|].
  replace (Z.shiftr _ 2) with n.
  2:{ rewrite Z.shiftr_div_pow2 by lia. apply Z.div_unique with (head_size n - 1); lia. }
  destruct (max_packet_length c <? n); [done|].
  rewrite drop_app_length' by (unfold len in Hlen; lia). done.
Qed.

(** A strict prefix of a header is waited on. *)
Lemma decode_head_partial c n h p q rs :
  0 ≤ n → head_bytes n = Some h → h = p ++ q → q ≠ [] →
  decode_head c (mkBytes p rs) = (Ok None, mkBytes p rs).
Proof.
  intros Hn Hh -> Hq. destruct (head_bytes_spec n _ Hn Hh) as [Hlen Hval].
  pose proof (head_size_range n) as Hr.
  unfold decode_head. cbn [content]. case_bool_decide as Hp; [done|].
  assert (head_len_of p = head_size n) as ->.
  { unfold head_len_of. change 3 with (Z.ones 2). rewrite Z.land_ones by lia.
    change (2 ^ 2) with 4. destruct p as [|b p]; [done|].
    change (byte_at (b :: p) 0) with (byte_at ((b :: p) ++ q) 0).
    rewrite byte_at_0_mod4, Hval by done.
    replace (4 * n + (head_size n - 1)) with (head_size n - 1 + n * 4) by lia.
    rewrite Z.mod_add, Z.mod_small by lia. lia. }
  rewrite len_app in Hlen. destruct q as [|b q]; [done|]. rewrite len_cons in Hlen.
  pose proof (len_nonneg q). destruct (Z.ltb_spec (len p) (head_size n)); [done|lia].
Qed.

(** ** Streams of frames

    [read_frames] calls [decode] until it wants more bytes or fails, as a framed
    reader does after every read; [feed] adds one read to the buffer first. *)
Fixpoint read_frames (fuel : nat) (c : BytesCodec) (src : BytesMut)
    : list (list byte) * BytesCodec * BytesMut * option io_error :=
  match fuel with
  | O => ([], c, src, None)
  | S fuel =>
      match decode c src with
      | (Ok (Some m), c, src) =>
          let '(ms, c, src, e) := read_frames fuel c src in (m :: ms, c, src, e)
      | (Ok None, c, src) => ([], c, src, None)
      | (Err e, c, src) => ([], c, src, Some e)
      end
  end.

Definition feed (c : BytesCodec) (src : BytesMut) (chunk : list byte) :=
  let b := content src ++ chunk in read_frames (S (S (length b))) c (mkBytes b (reserved src)).

Fixpoint feed_all (c : BytesCodec) (src : BytesMut) (chunks : list (list byte))
    : list (list byte) * BytesCodec * BytesMut * option io_error :=
  match chunks with
  | [] => ([], c, src, None)
  | chunk :: chunks =>
      match feed c src chunk with
      | (ms, c, src, None) =>
          let '(ms', c, src, e) := feed_all c src chunks in (ms ++ ms', c, src, e)
      | (ms, c, src, Some e) => (ms, c, src, Some e)
      end
  end.

Fixpoint encode_all (c : BytesCodec) (ms : list (list byte)) (buf : list byte)
    : result unit io_error * list byte :=
  match ms with
  | [] => (Ok tt, buf)
  | m :: ms => match encode c m buf with
               | (Ok _, buf) => encode_all c ms buf
               | (Err e, buf) => (Err e, buf)
               end
  end.

Definition frame (m : list byte) : list byte := default [] (head_bytes (len m)) ++ m.
Definition frames (ms : list (list byte)) : list byte := concat (frame <$> ms).

Definition wire (st : DecodeState) (ms : list (list byte)) : list byte :=
  match st, ms with
  | Head, _ => frames ms
  | Data _, m :: ms => m ++ frames ms
  | Data _, [] => []
  end.

Definition coherent (st : DecodeState) (ms : list (list byte)) : Prop :=
  match st, ms with
  | Head, _ => True
  | Data n, m :: _ => len m = n
  | Data _, [] => False
  end.

Definition sendable (c : BytesCodec) (m : list byte) : Prop :=
  len m ≤ MAX_FRAME_LENGTH ∧ len m ≤ max_packet_length c.

Lemma head_bytes_Some n : n ≤ MAX_FRAME_LENGTH → is_Some (head_bytes n).
Proof. unfold head_bytes. intros. bool_cases; eauto; lia. Qed.

Lemma head_bytes_None n : MAX_FRAME_LENGTH < n → head_bytes n = None.
Proof. unfold head_bytes, MAX_FRAME_LENGTH. intros. bool_cases; done || lia. Qed.

Lemma head_bytes_nonempty n h : 0 ≤ n → head_bytes n = Some h → h ≠ [].
Proof.
  intros Hn Hh ->. destruct (head_bytes_spec n [] Hn Hh) as [E _].
  pose proof (head_size_range n). rewrite len_nil in E. lia.
Qed.

Lemma encode_frame c m buf :
  raw c = false → len m ≤ MAX_FRAME_LENGTH → encode c m buf = (Ok tt, buf ++ frame m).
Proof.
  intros Hr Hm. unfold encode, frame. rewrite Hr.
  destruct (head_bytes_Some (len m) Hm) as [h ->]. simpl. by rewrite app_assoc.
Qed.

Lemma encode_all_frames c ms buf :
  raw c = false → Forall (λ m, len m ≤ MAX_FRAME_LENGTH) ms →
  encode_all c ms buf = (Ok tt, buf ++ frames ms).
Proof.
  intros Hr Hms. revert buf. induction Hms as [|m ms Hm _ IH]; intros buf; simpl.
  - unfold frames. simpl. by rewrite app_nil_r.
  - rewrite encode_frame by done. rewrite IH. unfold frames. simpl. by rewrite app_assoc.
Qed.

(** The payload part of [decode]: either the whole payload is buffered and is
    returned, or more bytes are still to come. *)
Lemma decode_payload_step m rest c b f rs :
  b ++ f = m ++ rest →
  (decode_payload (len m) c (mkBytes b rs) = (Ok None, c, mkBytes b rs) ∧ f ≠ []) ∨
  (∃ b', b = m ++ b' ∧ b' ++ f = rest ∧
     decode_payload (len m) c (mkBytes b rs) = (Ok (Some m), set_state c Head, mkBytes b' rs)).
Proof.
  intros [(k & -> & Hk)|(k & Hk0 & -> & ->)]%app_split_prefix;
    unfold decode_payload, decode_data; cbn [content reserved].
  - right. exists k. split_and!; [done|done|]. rewrite len_app.
    pose proof (len_nonneg k). destruct (Z.ltb_spec (len m + len k) (len m)); [lia|].
    unfold len. rewrite Nat2Z.id. by rewrite take_app_length, drop_app_length.
  - left. destruct k as [|x k]; [done|]. rewrite len_app, len_cons.
    pose proof (len_nonneg k).
    destruct (Z.ltb_spec (len b) (len b + (1 + len k))); [done|lia].
Qed.

(** One call of [decode] on a buffer that holds the start of a well-formed
    stream: it either asks for more, with nothing lost, or returns the next
    message. *)
Definition decode_outcome (c : BytesCodec) (ms : list (list byte)) (b f : list byte) (rs : Z) : Prop :=
  (∃ st' b' rs', decode c (mkBytes b rs) = (Ok None, set_state c st', mkBytes b' rs') ∧
     coherent st' ms ∧ b' ++ f = wire st' ms ∧ (f = [] → ms = [] ∧ st' = Head ∧ b' = [])) ∨
  (∃ m ms' b' rs', ms = m :: ms' ∧
     decode c (mkBytes b rs) = (Ok (Some m), set_state c Head, mkBytes b' rs') ∧
     b' ++ f = wire Head ms' ∧
     (length b' < length b + match state c with Head => 0 | Data _ => 1 end)%nat).

Lemma set_state_id c : set_state c (state c) = c.
Proof. by destruct c. Qed.

Lemma decode_step_data c n m ms b f rs :
  raw c = false → state c = Data n → len m = n → b ++ f = m ++ frames ms →
  decode_outcome c (m :: ms) b f rs.
Proof.
  intros Hr Hst <- Hw. unfold decode_outcome, decode. rewrite Hr, Hst.
  destruct (decode_payload_step m (frames ms) c b f rs Hw) as [[-> Hf]|(b' & -> & Hb & ->)].
  - left. exists (Data (len m)), b, rs. rewrite <- Hst, set_state_id, Hst. done.
  - right. exists m, ms, b', rs. split_and!; [done..|]. rewrite length_app. lia.
Qed.

Lemma decode_step_head c ms b f rs :
  raw c = false → state c = Head → Forall (sendable c) ms → b ++ f = frames ms →
  decode_outcome c ms b f rs.
Proof.
  intros Hr Hst Hms Hw. unfold decode_outcome, decode. rewrite Hr, Hst.
  destruct ms as [|m ms].
  { apply app_nil in Hw as [-> ->]. left. exists Head, [], rs. by rewrite <- Hst, set_state_id, Hst. }
  apply Forall_cons in Hms as [[Hm Hmx] _].
  destruct (head_bytes_Some (len m) Hm) as [h Hh].
  unfold frames, frame in Hw. simpl in Hw. rewrite Hh in Hw. simpl in Hw. fold (frames ms) in Hw.
  rewrite <- app_assoc in Hw.
  pose proof (head_bytes_nonempty _ _ (len_nonneg m) Hh) as Hne.
  apply app_split_prefix in Hw as [(k & -> & Hk)|(k & Hk0 & Hbk & Hk)].
  - rewrite (decode_head_encoded c _ _ _ _ (len_nonneg m) Hh).
    destruct (Z.ltb_spec (max_packet_length c) (len m)); [lia|].
    set (rs' := rs + _). set (c' := set_state c (Data (len m))).
    destruct (decode_payload_step m (frames ms) c' k f rs' Hk) as [[-> Hf]|(b' & -> & Hb & ->)].
    + left. by exists (Data (len m)), k, rs'.
    + right. exists m, ms, b', rs'. split_and!; [done..|].
      rewrite !length_app. destruct h; [done|]. simpl. lia.
  - rewrite (decode_head_partial c _ _ _ _ _ (len_nonneg m) Hh Hbk Hk0).
    left. exists Head, b, rs. rewrite <- Hst at 1. rewrite set_state_id.
    split_and!; [done|done| |intros ->; symmetry in Hk; by apply app_eq_nil in Hk as [-> _]].
    subst f. rewrite app_assoc, <- Hbk. unfold wire, frames, frame. simpl. rewrite Hh. simpl.
    by rewrite app_assoc.
Qed.

Lemma decode_step c ms b f rs :
  raw c = false → Forall (sendable c) ms → coherent (state c) ms → b ++ f = wire (state c) ms →
  decode_outcome c ms b f rs.
Proof.
  intros Hr Hms Hco Hw. destruct (state c) as [|n] eqn:Hst.
  - by apply decode_step_head.
  - destruct ms as [|m ms]; [done|]. by apply decode_step_data with n.
Qed.

Definition state_cost (st : DecodeState) : nat := match st with Head => 0 | Data _ => 1 end.

Lemma read_frames_spec fuel c ms b f rs :
  (length b + state_cost (state c) < fuel)%nat →
  raw c = false → Forall (sendable c) ms → coherent (state c) ms → b ++ f = wire (state c) ms →
  ∃ out ms' st' b' rs', ms = out ++ ms' ∧
    read_frames fuel c (mkBytes b rs) = (out, set_state c st', mkBytes b' rs', None) ∧
    coherent st' ms' ∧ b' ++ f = wire st' ms' ∧ (f = [] → ms' = [] ∧ st' = Head ∧ b' = []).
Proof.
  revert c ms b rs. induction fuel as [|fuel IH]; intros c ms b rs Hf Hr Hms Hco Hw; [lia|].
  destruct (decode_step c ms b f rs Hr Hms Hco Hw)
    as [(st' & b' & rs' & E & H)|(m & ms' & b' & rs' & -> & E & Hb' & Hl)];
    cbn [read_frames]; rewrite E.
  - by exists [], ms, st', b', rs'.
  - apply Forall_cons in Hms as [_ Hms].
    destruct (IH (set_state c Head) ms' b' rs') as (out & ms'' & st & b'' & rs'' & -> & -> & H);
      [unfold state_cost in *; destruct (state c); simpl; lia|done..|].
    by exists (m :: out), ms'', st, b'', rs''.
Qed.

Lemma feed_all_spec chunks c ms b rs :
  raw c = false → Forall (sendable c) ms → coherent (state c) ms →
  b ++ concat chunks = wire (state c) ms → (chunks = [] → ms = [] ∧ state c = Head ∧ b = []) →
  ∃ rs', feed_all c (mkBytes b rs) chunks = (ms, set_state c Head, mkBytes [] rs', None).
Proof.
  revert c ms b rs. induction chunks as [|ch chunks IH]; intros c ms b rs Hr Hms Hco Hw Hend.
  - destruct (Hend eq_refl) as (-> & Hst & ->). exists rs. simpl. by rewrite <- Hst, set_state_id.
  - cbn [feed_all]. unfold feed. cbn [content reserved]. simpl in Hw.
    rewrite app_assoc in Hw.
    destruct (read_frames_spec (S (S (length (b ++ ch)))) c ms (b ++ ch) (concat chunks) rs)
      as (out & ms' & st & b' & rs' & -> & -> & Hco' & Hw' & Hfin);
      [destruct (state c); simpl; lia|done..|].
    apply Forall_app in Hms as [_ Hms].
    destruct (IH (set_state c st) ms' b' rs') as [rs'' ->]; [done..| |by exists rs''].
    intros ->. by apply Hfin.
Qed.

(** (C8) However the byte stream written for a list of messages is cut into
    reads, the decoder returns exactly those messages, in order, without an error
    and with nothing left in the buffer. *)
Theorem frames_survive_fragmentation c ms chunks rs :
  raw c = false → state c = Head → chunks ≠ [] →
  Forall (sendable c) ms →
  (Ok tt, concat chunks) = encode_all c ms [] →
  ∃ rs', feed_all c (mkBytes [] rs) chunks = (ms, c, mkBytes [] rs', None).
Proof.
  intros Hr Hst Hne Hms He.
  rewrite encode_all_frames in He
    by (done || (eapply Forall_impl; [exact Hms|by intros m [? _]])).
  injection He as He.
  destruct (feed_all_spec chunks c ms [] rs) as [rs' ->]; try done.
  - by rewrite Hst.
  - by rewrite Hst.
  - exists rs'. by rewrite <- Hst, set_state_id.
Qed.

Lemma frames_survive_fragmentation_witness :
  let ms := [z2b <$> [1; 2; 3]; []; replicate 70 (z2b 9)] in
  let bytes := (encode_all new ms []).2 in
  ∃ rs, feed_all new (mkBytes [] 0) [take 2 bytes; take 5 (drop 2 bytes); drop 7 bytes]
        = (ms, new, mkBytes [] rs, None).
Proof.
  apply frames_survive_fragmentation; [done|done|done| |vm_compute; reflexivity].
  repeat constructor; vm_compute; congruence.
Defined.

(** ** Bounds *)

(** The decoder's own invariant: a length it waits for is within the cap. *)
Definition codec_ok (c : BytesCodec) : Prop :=
  match state c with Head => True | Data n => 0 ≤ n ≤ max_packet_length c end.

Lemma byte_at_shift_nonneg s i k : 0 ≤ k → 0 ≤ Z.shiftl (byte_at s i) k.
Proof. intros. apply Z.shiftl_nonneg. apply byte_at_range. Qed.

Lemma head_number_nonneg s hl : 0 ≤ head_number s hl.
Proof.
  unfold head_number. pose proof (byte_at_range s 0).
  pose proof (byte_at_shift_nonneg s 1 8 ltac:(lia)).
  pose proof (byte_at_shift_nonneg s 2 16 ltac:(lia)).
  pose proof (byte_at_shift_nonneg s 3 24 ltac:(lia)).
  repeat case_match; rewrite ?Z.lor_nonneg; lia.
Qed.

(** Whatever bytes a peer sends, in any decoder state reachable from
    [new] by [decode] calls: a returned packet is no longer than the cap, the
    decoder stays within its invariant, one call asks for at most 256 KiB of
    memory, and a header over the cap is refused without consuming it. *)
Theorem decode_bounded c src r c' src' :
  codec_ok c → raw c = false → decode c src = (r, c', src') →
  codec_ok c' ∧
  reserved src' ≤ reserved src + MAX_PREALLOCATED_PAYLOAD_LEN ∧
  match r with
  | Ok (Some m) => len m ≤ max_packet_length c ∧ c' = set_state c Head
  | Ok None => True
  | Err e => e = InvalidData "Too big packet" ∧ src' = src ∧ c' = c
  end.
Proof.
  intros Hok Hr. unfold decode. rewrite Hr.
  assert (∀ n c1 s1, 0 ≤ n ≤ max_packet_length c → state c1 = Data n →
    set_state c1 Head = set_state c Head → max_packet_length c1 = max_packet_length c →
    reserved s1 ≤ reserved src + MAX_PREALLOCATED_PAYLOAD_LEN →
    decode_payload n c1 s1 = (r, c', src') →
    codec_ok c' ∧ reserved src' ≤ reserved src + MAX_PREALLOCATED_PAYLOAD_LEN ∧
    match r with Ok (Some m) => len m ≤ max_packet_length c ∧ c' = set_state c Head
               | Ok None => True
               | Err e => e = InvalidData "Too big packet" ∧ src' = src ∧ c' = c end) as Hp.
  { intros n c1 s1 Hn Hst Hc1 Hmx Hrs. unfold decode_payload, decode_data.
    destruct (Z.ltb_spec (len (content s1)) n); intros [= <- <- <-].
    - split_and!; [|done|done]. unfold codec_ok. by rewrite Hst, Hmx.
    - split_and!; [by rewrite Hc1|done| |done].
      unfold len. rewrite length_take. unfold len in *. lia. }
  unfold codec_ok in Hok. unfold MAX_PREALLOCATED_PAYLOAD_LEN in *.
  destruct (state c) as [|n] eqn:Hst.
  - unfold decode_head. cbv zeta.
    case_bool_decide; [intros [= <- <- <-]; unfold codec_ok; rewrite Hst; split_and!; done || lia|].
    destruct (Z.ltb_spec (len (content src)) (head_len_of (content src)));
      [intros [= <- <- <-]; unfold codec_ok; rewrite Hst; split_and!; done || lia|].
    set (n := Z.shiftr _ 2). destruct (Z.ltb_spec (max_packet_length c) n);
      [intros [= <- <- <-]; unfold codec_ok; rewrite Hst; split_and!; done || lia|].
    apply Hp; try done.
    + split; [apply Z.shiftr_nonneg, head_number_nonneg|done].
    + simpl. unfold MAX_PREALLOCATED_PAYLOAD_LEN. lia.
  - apply Hp; try done. lia.
Qed.

Lemma decode_bounded_witness :
  let c := set_max_packet_length new 100 in
  let src := mkBytes (default [] (head_bytes 101)) 0 in
  codec_ok c ∧ len (content src) = 2 ∧ (decode c src).2 = src.
Proof.
  split_and!; [done|done|].
  destruct (decode _ _) as [[r c'] src'] eqn:E.
  destruct (decode_bounded (set_max_packet_length new 100)
    (mkBytes (default [] (head_bytes 101)) 0) r c' src') as (_ & _ & H); [done|done|done|].
  vm_compute in E. injection E as <- <- <-. simpl in H. apply H.
Defined.


