(* ===== verification/TransportConfig.v ===== *)
(** * The transport settings: options, SOCKS, VLESS and SSH

    [config.rs] of hbb_common: the layered options ([get_option],
    [set_option]), the three transport settings and the rules that tie them
    together.  VLESS and SSH exclude each other, and turning either on forces
    three network options after saving what the user had chosen; turning it off
    puts the choices back.  The state is the in-memory [Config2] and the copy
    last written by [store]. *)
From S2P Require Import Prelude RustStd.

Module TransportConfig.

Record Socks5Server : Type := mkSocks {
  proxy : string;
  socks_username : string;
  socks_password : string;
}.

Record VlessServer : Type := mkVless {
  v_server : string;
  v_port : Z;
  v_uuid : string;
  v_server_name : string;
  v_enabled : bool;
}.

Record SshServer : Type := mkSsh {
  s_server : string;
  s_port : Z;
  s_username : string;
  s_public_key : string;
  s_private_key : string;
  s_enabled : bool;
}.

#[global] Instance Socks5Server_eq_dec : EqDecision Socks5Server.
Proof. solve_decision. Defined.
#[global] Instance VlessServer_eq_dec : EqDecision VlessServer.
Proof. solve_decision. Defined.
#[global] Instance SshServer_eq_dec : EqDecision SshServer.
Proof. solve_decision. Defined.

Inductive NetworkType : Type := Direct | ProxySocks | Vless | Ssh.

Definition SSH_BUILTIN_USERNAME : string := "rustdesk".
Definition SSH_BUILTIN_PUBLIC_KEY : string := "".
Definition SSH_BUILTIN_PRIVATE_KEY : string := "".

Definition OPTION_ALLOW_WEBSOCKET : string := "allow-websocket".
Definition OPTION_PROXY_URL : string := "proxy-url".
Definition OPTION_PROXY_USERNAME : string := "proxy-username".
Definition OPTION_PROXY_PASSWORD : string := "proxy-password".

(** The fields of [Config2] the transport code reads and writes. *)
Record Config2 : Type := mkConfig2 {
  socks : option Socks5Server;
  vless : option VlessServer;
  ssh : option SshServer;
  options : gmap string string;
}.

#[global] Instance Config2_eq_dec : EqDecision Config2.
Proof. solve_decision. Defined.

(** The static [CONFIG2] and the file it is stored in. *)
Record Global : Type := mkGlobal {
  CONFIG2 : Config2;
  stored : Config2;
}.

Definition set_mem (g : Global) (c : Config2) : Global := mkGlobal c (stored g).
Definition store (g : Global) : Global := mkGlobal (CONFIG2 g) (CONFIG2 g).
Definition write (g : Global) (c : Config2) : Global := store (set_mem g c).

Definition with_options (c : Config2) (o : gmap string string) : Config2 :=
  mkConfig2 (socks c) (vless c) (ssh c) o.
Definition with_vless (c : Config2) (v : option VlessServer) : Config2 :=
  mkConfig2 (socks c) v (ssh c) (options c).
Definition with_ssh (c : Config2) (s : option SshServer) : Config2 :=
  mkConfig2 (socks c) (vless c) s (options c).
Definition with_socks (c : Config2) (s : option Socks5Server) : Config2 :=
  mkConfig2 s (vless c) (ssh c) (options c).

(** [impl Default for Config2]. *)
Definition default_config2 : Config2 :=
  mkConfig2 None None None
    (<["enable-check-update" := "N"]> (<["vless-transport" := "tls"]>
     (<["vless-reality-fingerprint" := "chrome"]>
      (<["vless-reality-flow" := "xtls-rprx-vision"]> ∅)))).

Definition get_or (a b c : gmap string string) (k : string) : option string :=
  match a !! k with
  | Some v => Some v
  | None => match b !! k with Some v => Some v | None => c !! k end
  end.

Definition is_option_can_save (overwrite : gmap string string) (k : string)
    (defaults : gmap string string) (v : string) : bool :=
  negb (bool_decide (is_Some (overwrite !! k)) || bool_decide (defaults !! k = Some v)).

Definition option2bool (option value : string) : bool :=
  if starts_with "enable-" option then negb (value ==s "N")
  else if starts_with "allow-" option
          || (option ==s "stop-service") || (option ==s "direct-server")
          || (option ==s "force-always-relay")
       then value ==s "Y"
       else negb (value ==s "N").

Section Operations.
Context (OVERWRITE_SETTINGS DEFAULT_SETTINGS : gmap string string).

Definition get_options (g : Global) : gmap string string :=
  OVERWRITE_SETTINGS ∪ (options (CONFIG2 g) ∪ DEFAULT_SETTINGS).

Definition get_option (g : Global) (k : string) : string :=
  default "" (get_or OVERWRITE_SETTINGS (options (CONFIG2 g)) DEFAULT_SETTINGS k).

Definition get_bool_option (g : Global) (k : string) : bool :=
  option2bool k (get_option g k).

Definition use_ws (g : Global) : bool := get_bool_option g OPTION_ALLOW_WEBSOCKET.

Definition purify_options (v : gmap string string) : gmap string string :=
  filter (λ kv, is_option_can_save OVERWRITE_SETTINGS kv.1 DEFAULT_SETTINGS kv.2 = true) v.

Definition set_options (g : Global) (v : gmap string string) : Global :=
  let v := purify_options v in
  if bool_decide (options (CONFIG2 g) = v) then g
  else write g (with_options (CONFIG2 g) v).

Definition set_option (g : Global) (k v : string) : Global :=
  let config := CONFIG2 g in
  if negb (is_option_can_save OVERWRITE_SETTINGS k DEFAULT_SETTINGS v) then
    if bool_decide (is_Some (options config !! k))
    then write g (with_options config (delete k (options config)))
    else g
  else
    let v2 := if is_empty v then None else Some v in
    if bool_decide (v2 = options config !! k) then g
    else match v2 with
         | None => write g (with_options config (delete k (options config)))
         | Some v => write g (with_options config (<[k := v]> (options config)))
         end.

Definition get_socks_from_custom_client_advanced_settings
    (settings : gmap string string) : option Socks5Server :=
  match settings !! OPTION_PROXY_URL with
  | None => None
  | Some url => Some (mkSocks url (default "" (settings !! OPTION_PROXY_USERNAME))
                                  (default "" (settings !! OPTION_PROXY_PASSWORD)))
  end.

Definition get_socks (g : Global) : option Socks5Server :=
  match get_socks_from_custom_client_advanced_settings OVERWRITE_SETTINGS with
  | Some s => Some s
  | None =>
      match socks (CONFIG2 g) with
      | Some s => Some s
      | None => get_socks_from_custom_client_advanced_settings DEFAULT_SETTINGS
      end
  end.

Definition equal_to_default (key value : string) : bool :=
  bool_decide (DEFAULT_SETTINGS !! key = Some value).

Definition set_socks (g : Global) (s : option Socks5Server) : Global :=
  if bool_decide (is_Some (OVERWRITE_SETTINGS !! OPTION_PROXY_URL)) then g
  else if bool_decide (socks (CONFIG2 g) = s) then g
  else
    let s' := default (mkSocks "" "" "") s in
    if bool_decide (socks (CONFIG2 g) = None)
       && bool_decide (is_Some (DEFAULT_SETTINGS !! OPTION_PROXY_URL))
       && equal_to_default OPTION_PROXY_URL (proxy s')
       && equal_to_default OPTION_PROXY_USERNAME (socks_username s')
       && equal_to_default OPTION_PROXY_PASSWORD (socks_password s')
    then g
    else write g (with_socks (CONFIG2 g) s).

Definition get_vless_config (g : Global) : option VlessServer := vless (CONFIG2 g).

Definition vless_usable (v : VlessServer) : bool :=
  v_enabled v && negb (is_empty (v_server v)) && (0 <? v_port v) && negb (is_empty (v_uuid v)).

Definition get_vless (g : Global) : option VlessServer :=
  match get_vless_config g with
  | Some v => if vless_usable v then Some v else None
  | None => None
  end.

Definition get_ssh_config (g : Global) : option SshServer :=
  match ssh (CONFIG2 g) with
  | Some s => Some s
  | None => Some (mkSsh "" 2222 SSH_BUILTIN_USERNAME SSH_BUILTIN_PUBLIC_KEY
                        SSH_BUILTIN_PRIVATE_KEY false)
  end.

Definition ssh_usable (s : SshServer) : bool :=
  s_enabled s && negb (is_empty (s_server s)) && (0 <? s_port s)
  && negb (is_empty (s_username s)) && negb (is_empty (s_private_key s)).

Definition get_ssh (g : Global) : option SshServer :=
  match get_ssh_config g with
  | Some s => if ssh_usable s then Some s else None
  | None => None
  end.

(** The three options a proxied transport forces, with the keys the previous
    values are saved under. *)
Record SavedKeys : Type := mkSaved {
  SAVED_DISABLE_UDP : string;
  SAVED_FORCE_RELAY : string;
  SAVED_WEBSOCKET : string;
}.

Definition ssh_saved : SavedKeys :=
  mkSaved "ssh-saved-disable-udp" "ssh-saved-force-always-relay" "ssh-saved-allow-websocket".
Definition vless_saved : SavedKeys :=
  mkSaved "vless-saved-disable-udp" "vless-saved-force-always-relay" "vless-saved-allow-websocket".

(** The common body of [set_ssh_mode] and [set_vless_mode]. *)
Definition set_mode (k : SavedKeys) (enabled : bool) (g : Global) : Global :=
  if enabled then
    let g := set_option g (SAVED_DISABLE_UDP k) (get_option g "disable-udp") in
    let g := set_option g (SAVED_FORCE_RELAY k) (get_option g "force-always-relay") in
    let g := set_option g (SAVED_WEBSOCKET k) (get_option g OPTION_ALLOW_WEBSOCKET) in
    let g := set_option g "disable-udp" "Y" in
    let g := set_option g "force-always-relay" "Y" in
    set_option g OPTION_ALLOW_WEBSOCKET "N"
  else
    let disable_udp := get_option g (SAVED_DISABLE_UDP k) in
    let force_relay := get_option g (SAVED_FORCE_RELAY k) in
    let websocket := get_option g (SAVED_WEBSOCKET k) in
    let g := set_option g "disable-udp" disable_udp in
    let g := set_option g "force-always-relay" force_relay in
    let g := set_option g OPTION_ALLOW_WEBSOCKET websocket in
    let g := set_option g (SAVED_DISABLE_UDP k) "" in
    let g := set_option g (SAVED_FORCE_RELAY k) "" in
    set_option g (SAVED_WEBSOCKET k) "".

Definition set_ssh_mode (enabled : bool) (g : Global) : Global := set_mode ssh_saved enabled g.
Definition set_vless_mode (enabled : bool) (g : Global) : Global := set_mode vless_saved enabled g.

Definition vless_on (v : option VlessServer) : bool := from_option v_enabled false v.
Definition ssh_on (s : option SshServer) : bool := from_option s_enabled false s.

(** What [set_vless] and [set_ssh] do once the other transport is off. *)
Definition commit_vless (g : Global) (v : option VlessServer) : Global :=
  let was_enabled := vless_on (vless (CONFIG2 g)) in
  let enabled := vless_on v in
  let g := if bool_decide (vless (CONFIG2 g) = v) then g
           else write g (with_vless (CONFIG2 g) v) in
  if negb (Bool.eqb was_enabled enabled) then set_vless_mode enabled g else g.

Definition commit_ssh (g : Global) (s : option SshServer) : Global :=
  let was_enabled := ssh_on (ssh (CONFIG2 g)) in
  let enabled := ssh_on s in
  let g := if bool_decide (ssh (CONFIG2 g) = s) then g
           else write g (with_ssh (CONFIG2 g) s) in
  if negb (Bool.eqb was_enabled enabled) then set_ssh_mode enabled g else g.

Definition disabled_vless (v : VlessServer) : VlessServer :=
  mkVless (v_server v) (v_port v) (v_uuid v) (v_server_name v) false.
Definition disabled_ssh (s : SshServer) : SshServer :=
  mkSsh (s_server s) (s_port s) (s_username s) (s_public_key s) (s_private_key s) false.

(** The two setters call each other: enabling one transport sets the other with
    [enabled] cleared.  [fuel] bounds the depth of these calls. *)
Fixpoint set_vless_ (fuel : nat) (g : Global) (v : option VlessServer) : option Global :=
  match fuel with
  | O => None
  | S fuel =>
      let disabled :=
        if vless_on v then
          match get_ssh_config g with
          | Some s => if s_enabled s then set_ssh_ fuel g (Some (disabled_ssh s)) else Some g
          | None => Some g
          end
        else Some g in
      match disabled with Some g => Some (commit_vless g v) | None => None end
  end
with set_ssh_ (fuel : nat) (g : Global) (s : option SshServer) : option Global :=
  match fuel with
  | O => None
  | S fuel =>
      let disabled :=
        if ssh_on s then
          match get_vless_config g with
          | Some v => if v_enabled v then set_vless_ fuel g (Some (disabled_vless v)) else Some g
          | None => Some g
          end
        else Some g in
      match disabled with Some g => Some (commit_ssh g s) | None => None end
  end.

(** Two levels are enough, see [set_vless_total]. *)
Definition set_vless (g : Global) (v : option VlessServer) : Global := default g (set_vless_ 2 g v).
Definition set_ssh (g : Global) (s : option SshServer) : Global := default g (set_ssh_ 2 g s).

Definition get_network_type (g : Global) : NetworkType :=
  if bool_decide (is_Some (get_vless g)) then Vless
  else if bool_decide (is_Some (get_ssh g)) then Ssh
  else if bool_decide (is_Some (OVERWRITE_SETTINGS !! OPTION_PROXY_URL)) then ProxySocks
  else if bool_decide (is_Some (socks (CONFIG2 g))) then ProxySocks
  else if bool_decide (is_Some (DEFAULT_SETTINGS !! OPTION_PROXY_URL)) then ProxySocks
  else Direct.

Definition is_proxy (g : Global) : bool :=
  match get_network_type g with Direct => false | _ => true end.

(** [socket_client.rs], [connect_tcp_local]: the transport a TCP connection
    takes. *)
Inductive Route : Type :=
| ViaSocks (s : Socks5Server)
| ViaVless (v : VlessServer)
| ViaSsh (s : SshServer)
| NoProxy.

Definition connect_tcp_local (g : Global) : Route :=
  match get_socks g with
  | Some conf => ViaSocks conf
  | None =>
      match get_vless g with
      | Some conf => ViaVless conf
      | None => match get_ssh g with Some conf => ViaSsh conf | None => NoProxy end
      end
  end.

(** ** Options *)

Lemma set_option_lookup g k v k' :
  OVERWRITE_SETTINGS !! k = None →
  get_option (set_option g k v) k' =
    if decide (k = k') then
      if is_empty v then default "" (DEFAULT_SETTINGS !! k) else v
    else get_option g k'.
Proof.
  intros Hk. unfold get_option, set_option, get_or, is_option_can_save, is_empty.
  rewrite Hk. rewrite (bool_decide_eq_false_2 (is_Some None)) by (by intros []).
  simpl. rewrite negb_involutive.
  repeat case_bool_decide; subst; simpl; destruct (decide (k = k')); subst; simpl;
    rewrite ?Hk, ?lookup_delete_eq, ?lookup_delete_ne, ?lookup_insert_eq, ?lookup_insert_ne by done;
    try done; try by destruct (OVERWRITE_SETTINGS !! k').
  all: try (match goal with |- context [options ?c !! ?k] => destruct (options c !! k) eqn:? end;
            simplify_eq/=; try done).
  all: match goal with
       | H : DEFAULT_SETTINGS !! _ = Some _ |- _ => by rewrite H
       | H : ¬ is_Some _ |- _ => exfalso; apply H; eauto
       | _ => idtac
       end.
Qed.

(** A write to the options leaves the transports alone, and every operation
    that changes the memory writes the file. *)
Definition in_sync (g : Global) : Prop := stored g = CONFIG2 g.

Definition same_transports (g g' : Global) : Prop :=
  socks (CONFIG2 g') = socks (CONFIG2 g) ∧ vless (CONFIG2 g') = vless (CONFIG2 g) ∧
  ssh (CONFIG2 g') = ssh (CONFIG2 g).

Definition frame (g g' : Global) : Prop := same_transports g g' ∧ (in_sync g → in_sync g').

#[local] Instance frame_preorder : PreOrder frame.
Proof.
  unfold frame, same_transports. split; [by intros ?|].
  intros g1 g2 g3 [(-> & -> & ->) ?] [(-> & -> & ->) ?]. auto.
Qed.

Lemma set_option_frame g k v : frame g (set_option g k v).
Proof. unfold set_option. repeat case_match; repeat split; done. Qed.

Lemma set_mode_frame k b g : frame g (set_mode k b g).
Proof.
  unfold set_mode. destruct b; cbv zeta;
    do 5 (etransitivity; [|apply set_option_frame]); apply set_option_frame.
Qed.

(** ** The forced options *)

(** The values of the three options a proxied transport forces. *)
Definition Prefs : Type := string * string * string.
Definition current (g : Global) : Prefs :=
  (get_option g "disable-udp", get_option g "force-always-relay",
   get_option g OPTION_ALLOW_WEBSOCKET).
Definition saved (k : SavedKeys) (g : Global) : Prefs :=
  (get_option g (SAVED_DISABLE_UDP k), get_option g (SAVED_FORCE_RELAY k),
   get_option g (SAVED_WEBSOCKET k)).
Definition forced : Prefs := ("Y", "Y", "N").

Definition mode_keys : list string := ["disable-udp"; "force-always-relay"; OPTION_ALLOW_WEBSOCKET].
Definition saved_keys : list string :=
  [SAVED_DISABLE_UDP ssh_saved; SAVED_FORCE_RELAY ssh_saved; SAVED_WEBSOCKET ssh_saved;
   SAVED_DISABLE_UDP vless_saved; SAVED_FORCE_RELAY vless_saved; SAVED_WEBSOCKET vless_saved].

(** The administrator's layers leave the keys involved alone. *)
Definition layers_clean : Prop :=
  Forall (λ k, OVERWRITE_SETTINGS !! k = None) (mode_keys ++ saved_keys) ∧
  Forall (λ k, DEFAULT_SETTINGS !! k = None) saved_keys.

(** An empty option is an absent one. *)
Definition restores (k v : string) : Prop := v = "" → default "" (DEFAULT_SETTINGS !! k) = "".
Definition restorable (p : Prefs) : Prop :=
  restores "disable-udp" p.1.1 ∧ restores "force-always-relay" p.1.2 ∧
  restores OPTION_ALLOW_WEBSOCKET p.2.

Definition no_empty_option (g : Global) : Prop :=
  ∀ k, options (CONFIG2 g) !! k ≠ Some "".

Ltac in_keys := refine (bool_decide_unpack _ _); vm_compute; exact I.

Section Modes.
Context (Hclean : layers_clean).

Lemma overwrite_none k : k ∈ mode_keys ++ saved_keys → OVERWRITE_SETTINGS !! k = None.
Proof. destruct Hclean as [H _]. by apply (proj1 (Forall_forall _ _) H). Qed.

Lemma default_none k : k ∈ saved_keys → DEFAULT_SETTINGS !! k = None.
Proof. destruct Hclean as [_ H]. by apply (proj1 (Forall_forall _ _) H). Qed.

Lemma current_restorable g : no_empty_option g → restorable (current g).
Proof.
  intros Hne. unfold restorable, current, restores, get_option, get_or; simpl.
  rewrite !overwrite_none by in_keys.
  repeat split; match goal with |- context [options ?c !! ?k] => specialize (Hne k) end;
    case_match; simpl; congruence.
Qed.

Lemma set_option_same g k v : k ∈ mode_keys ++ saved_keys →
  get_option (set_option g k v) k = if is_empty v then default "" (DEFAULT_SETTINGS !! k) else v.
Proof. intros. rewrite set_option_lookup by by apply overwrite_none. by rewrite decide_True. Qed.

Lemma set_option_other g k v k' : k ∈ mode_keys ++ saved_keys → k ≠ k' →
  get_option (set_option g k v) k' = get_option g k'.
Proof. intros. rewrite set_option_lookup by by apply overwrite_none. by rewrite decide_False. Qed.

Ltac option_lookup :=
  repeat match goal with
  | |- context [get_option (set_option ?g ?k ?v) ?k'] =>
      first [unify k k'; rewrite (set_option_same g k v) by in_keys
            |rewrite (set_option_other g k v k') by (in_keys || discriminate)]
  end.

Lemma restore_empty (v d : string) : (v = "" → d = "") → (if is_empty v then d else v) = v.
Proof. unfold is_empty. case_bool_decide; naive_solver. Qed.

Lemma set_mode_on k g : k = ssh_saved ∨ k = vless_saved →
  current (set_mode k true g) = forced ∧ saved k (set_mode k true g) = current g.
Proof.
  intros Hk. unfold set_mode, current, saved; cbv zeta.
  destruct Hk as [-> | ->]; cbn [ssh_saved vless_saved SAVED_DISABLE_UDP SAVED_FORCE_RELAY SAVED_WEBSOCKET];
  (split; [by option_lookup|]); option_lookup;
  rewrite !default_none by in_keys; simpl; by rewrite !restore_empty.
Qed.

Lemma set_mode_off k g : k = ssh_saved ∨ k = vless_saved → restorable (saved k g) →
  current (set_mode k false g) = saved k g.
Proof.
  intros Hk (Hu & Hr & Hw). unfold set_mode, current, saved in *; cbv zeta in *; simpl in *.
  destruct Hk as [-> | ->];
  cbn [ssh_saved vless_saved SAVED_DISABLE_UDP SAVED_FORCE_RELAY SAVED_WEBSOCKET] in *;
  option_lookup; by rewrite !restore_empty.
Qed.
(** ** Refinement: the user's choice under any sequence of switches *)

(** [represents p g]: the user chose [p]; with no proxied transport it is what
    is in force, otherwise it is what the active transport saved. *)
Definition represents (p : Prefs) (g : Global) : Prop :=
  match vless_on (vless (CONFIG2 g)), ssh_on (ssh (CONFIG2 g)) with
  | true, true => False
  | true, false => current g = forced ∧ saved vless_saved g = p
  | false, true => current g = forced ∧ saved ssh_saved g = p
  | false, false => current g = p
  end.

Lemma set_mode_transports k b g :
  vless (CONFIG2 (set_mode k b g)) = vless (CONFIG2 g) ∧
  ssh (CONFIG2 (set_mode k b g)) = ssh (CONFIG2 g).
Proof. by destruct (set_mode_frame k b g) as [(_ & -> & ->) _]. Qed.

Lemma commit_vless_after g v :
  vless (CONFIG2 (commit_vless g v)) = v ∧ ssh (CONFIG2 (commit_vless g v)) = ssh (CONFIG2 g).
Proof.
  unfold commit_vless, set_vless_mode. case_bool_decide as E; case_match;
    rewrite ?(proj1 (set_mode_transports _ _ _)), ?(proj2 (set_mode_transports _ _ _));
    simpl; naive_solver.
Qed.

Lemma commit_ssh_after g s :
  ssh (CONFIG2 (commit_ssh g s)) = s ∧ vless (CONFIG2 (commit_ssh g s)) = vless (CONFIG2 g).
Proof.
  unfold commit_ssh, set_ssh_mode. case_bool_decide as E; case_match;
    rewrite ?(proj1 (set_mode_transports _ _ _)), ?(proj2 (set_mode_transports _ _ _));
    simpl; naive_solver.
Qed.

Section Represents.
Context (p : Prefs) (Hp : restorable p).

Lemma commit_vless_represents g v :
  represents p g → (vless_on v = true → ssh_on (ssh (CONFIG2 g)) = false) →
  represents p (commit_vless g v).
Proof.
  intros Hr Hs. unfold represents at 1. destruct (commit_vless_after g v) as [-> ->].
  unfold represents in Hr. unfold commit_vless, set_vless_mode.
  set (g1 := if bool_decide _ then g else _).
  assert (current g1 = current g ∧ ∀ k, saved k g1 = saved k g) as [Hc Hk]
    by (unfold g1; by case_bool_decide).
  clearbody g1.
  destruct (vless_on (vless (CONFIG2 g))), (vless_on v) eqn:Ev, (ssh_on (ssh (CONFIG2 g)));
    try done; cbn [negb Bool.eqb]; rewrite ?Hc, ?Hk; try tauto.
  - rewrite set_mode_off; [rewrite Hk; tauto|by right|rewrite Hk; by destruct Hr as [_ ->]].
  - by specialize (Hs eq_refl).
  - destruct (set_mode_on vless_saved g1) as [? ->]; [by right|]. by rewrite Hc.
Qed.

Lemma commit_ssh_represents g s :
  represents p g → (ssh_on s = true → vless_on (vless (CONFIG2 g)) = false) →
  represents p (commit_ssh g s).
Proof.
  intros Hr Hs. unfold represents at 1. destruct (commit_ssh_after g s) as [-> ->].
  unfold represents in Hr. unfold commit_ssh, set_ssh_mode.
  set (g1 := if bool_decide _ then g else _).
  assert (current g1 = current g ∧ ∀ k, saved k g1 = saved k g) as [Hc Hk]
    by (unfold g1; by case_bool_decide).
  clearbody g1.
  destruct (vless_on (vless (CONFIG2 g))), (ssh_on s) eqn:Ev, (ssh_on (ssh (CONFIG2 g)));
    try done; cbn [negb Bool.eqb]; rewrite ?Hc, ?Hk; try tauto.
  - by specialize (Hs eq_refl).
  - destruct (set_mode_on ssh_saved g1) as [? ->]; [by left|]. by rewrite Hc.
  - rewrite set_mode_off; [rewrite Hk; tauto|by left|rewrite Hk; by destruct Hr as [_ ->]].
Qed.
End Represents.
End Modes.

(** Two levels of calls are all the setters ever make: with more fuel the result
    is the same. *)
Lemma set_vless_total n g v : set_vless_ (2 + n) g v = Some (set_vless g v).
Proof.
  unfold set_vless. simpl. destruct (vless_on v) eqn:Ev; [|by rewrite ?Ev].
  destruct (get_ssh_config g) as [s|]; [|by rewrite ?Ev]. by destruct (s_enabled s).
Qed.

Lemma set_ssh_total n g s : set_ssh_ (2 + n) g s = Some (set_ssh g s).
Proof.
  unfold set_ssh. simpl. destruct (ssh_on s) eqn:Es; [|done].
  destruct (get_vless_config g) as [v|]; [|done]. by destruct (v_enabled v).
Qed.

(** The operations a user or a management script performs on the transports. *)
Inductive TransportOp : Type :=
| SetVless (v : option VlessServer)
| SetSsh (s : option SshServer).

Definition apply_op (g : Global) (op : TransportOp) : Global :=
  match op with SetVless v => set_vless g v | SetSsh s => set_ssh g s end.

Definition apply_ops (g : Global) (ops : list TransportOp) : Global := foldl apply_op g ops.

Definition vless_active (g : Global) : bool := vless_on (vless (CONFIG2 g)).
Definition ssh_active (g : Global) : bool := ssh_on (ssh (CONFIG2 g)).

(** Turning the other transport off before committing. *)
Definition turn_ssh_off (g : Global) : Global :=
  match ssh (CONFIG2 g) with
  | Some s => if s_enabled s then commit_ssh g (Some (disabled_ssh s)) else g
  | None => g
  end.
Definition turn_vless_off (g : Global) : Global :=
  match vless (CONFIG2 g) with
  | Some v => if v_enabled v then commit_vless g (Some (disabled_vless v)) else g
  | None => g
  end.

Lemma set_vless_eq g v :
  set_vless g v = commit_vless (if vless_on v then turn_ssh_off g else g) v.
Proof.
  unfold set_vless, turn_ssh_off. simpl. unfold get_ssh_config.
  destruct (vless_on v); [|done]. destruct (ssh (CONFIG2 g)) as [s|]; [|done].
  by destruct (s_enabled s).
Qed.

Lemma set_ssh_eq g s :
  set_ssh g s = commit_ssh (if ssh_on s then turn_vless_off g else g) s.
Proof.
  unfold set_ssh, turn_vless_off. simpl. unfold get_vless_config.
  destruct (ssh_on s); [|done]. destruct (vless (CONFIG2 g)) as [v|]; [|done].
  by destruct (v_enabled v).
Qed.

Lemma turn_ssh_off_after g :
  ssh_active (turn_ssh_off g) = false ∧ vless (CONFIG2 (turn_ssh_off g)) = vless (CONFIG2 g).
Proof.
  unfold turn_ssh_off, ssh_active. destruct (ssh (CONFIG2 g)) as [s|] eqn:E; [|by rewrite E].
  destruct (s_enabled s) eqn:Es; [|by rewrite E].
  by destruct (commit_ssh_after g (Some (disabled_ssh s))) as [-> ->].
Qed.

Lemma turn_vless_off_after g :
  vless_active (turn_vless_off g) = false ∧ ssh (CONFIG2 (turn_vless_off g)) = ssh (CONFIG2 g).
Proof.
  unfold turn_vless_off, vless_active. destruct (vless (CONFIG2 g)) as [v|] eqn:E; [|by rewrite E].
  destruct (v_enabled v) eqn:Ev; [|by rewrite E].
  by destruct (commit_vless_after g (Some (disabled_vless v))) as [-> ->].
Qed.

Lemma commit_vless_sync g v : in_sync g → in_sync (commit_vless g v).
Proof.
  intros Hg. unfold commit_vless, set_vless_mode. case_match; [apply set_mode_frame|]; by case_bool_decide.
Qed.

Lemma commit_ssh_sync g s : in_sync g → in_sync (commit_ssh g s).
Proof.
  intros Hg. unfold commit_ssh, set_ssh_mode. case_match; [apply set_mode_frame|]; by case_bool_decide.
Qed.

Lemma apply_op_represents p g op : layers_clean → restorable p →
  represents p g → represents p (apply_op g op).
Proof.
  intros Hc Hp Hr. destruct op as [v|s]; simpl.
  - rewrite set_vless_eq. apply commit_vless_represents; try done.
    + destruct (vless_on v); [|done]. unfold turn_ssh_off. repeat case_match; try done.
      by apply commit_ssh_represents.
    + intros ->. apply turn_ssh_off_after.
  - rewrite set_ssh_eq. apply commit_ssh_represents; try done.
    + destruct (ssh_on s); [|done]. unfold turn_vless_off. repeat case_match; try done.
      by apply commit_vless_represents.
    + intros ->. apply turn_vless_off_after.
Qed.

Lemma apply_ops_represents p g ops : layers_clean → restorable p →
  represents p g → represents p (apply_ops g ops).
Proof.
  intros Hc Hp. revert g. induction ops as [|op ops IH]; intros g Hr; [done|].
  by apply IH, apply_op_represents.
Qed.

(** Whatever state the settings are in, after setting either transport at
    most one of VLESS and SSH is enabled; and a configuration whose file is up
    to date is up to date afterwards. *)
Theorem transports_exclusive (g : Global) (op : TransportOp) :
  (vless_active (apply_op g op) && ssh_active (apply_op g op) = false) ∧
  (in_sync g → in_sync (apply_op g op)).
Proof.
  unfold vless_active, ssh_active. destruct op as [v|s]; simpl.
  - rewrite set_vless_eq. set (g1 := if vless_on v then _ else _). split.
    + destruct (commit_vless_after g1 v) as [-> ->]. unfold g1. destruct (vless_on v); [|done].
      apply turn_ssh_off_after.
    + intros Hg. apply commit_vless_sync. unfold g1, turn_ssh_off. repeat case_match; try done.
      by apply commit_ssh_sync.
  - rewrite set_ssh_eq. set (g1 := if ssh_on s then _ else _). split.
    + destruct (commit_ssh_after g1 s) as [-> ->]. unfold g1. destruct (ssh_on s);
        [|by rewrite andb_false_r].
      pose proof (proj1 (turn_vless_off_after g)) as Hv. unfold vless_active in Hv. by rewrite Hv.
    + intros Hg. apply commit_ssh_sync. unfold g1, turn_vless_off. repeat case_match; try done.
      by apply commit_vless_sync.
Qed.

(** Starting with both proxied transports off, after any sequence of
    settings: while one is on, UDP is disabled, relay is forced and WebSocket
    is off; once both are off again the three options read exactly what the user
    had chosen at the start. *)
Theorem transport_switching_preserves_choice (g : Global) (ops : list TransportOp) :
  layers_clean → no_empty_option g → vless_active g = false → ssh_active g = false →
  let g' := apply_ops g ops in
  (vless_active g' || ssh_active g' = true → current g' = forced) ∧
  (vless_active g' || ssh_active g' = false → current g' = current g).
Proof.
  intros Hc Hne Hv Hs g'.
  assert (represents (current g) g) as H0.
  { unfold represents. unfold vless_active, ssh_active in *. by rewrite Hv, Hs. }
  apply (apply_ops_represents _ _ ops Hc (current_restorable Hc g Hne)) in H0.
  fold g' in H0. unfold represents in H0. unfold vless_active, ssh_active.
  destruct (vless_on (vless (CONFIG2 g'))), (ssh_on (ssh (CONFIG2 g'))); simpl;
    (split; [|]); intros ?; try done; tauto.
Qed.

(** A connection is proxied exactly when [is_proxy] says so; and without a
    SOCKS proxy the transport [connect_tcp_local] takes is the one
    [get_network_type] names. *)
Theorem network_type_matches_route (g : Global) :
  (is_proxy g = true ↔ connect_tcp_local g ≠ NoProxy) ∧
  (get_socks g = None →
   match connect_tcp_local g with
   | ViaSocks _ => False
   | ViaVless _ => get_network_type g = Vless
   | ViaSsh _ => get_network_type g = Ssh
   | NoProxy => get_network_type g = Direct
   end).
Proof.
  unfold is_proxy, get_network_type, connect_tcp_local, get_socks,
    get_socks_from_custom_client_advanced_settings.
  destruct (get_vless g), (get_ssh g), (OVERWRITE_SETTINGS !! OPTION_PROXY_URL),
    (socks (CONFIG2 g)), (DEFAULT_SETTINGS !! OPTION_PROXY_URL); simpl;
    rewrite ?bool_decide_eq_true_2 by eauto; rewrite ?bool_decide_eq_false_2 by (by intros []);
    repeat split; naive_solver.
Qed.

End Operations.

Definition fresh : Global := mkGlobal default_config2 default_config2.
Definition demo_vless : VlessServer :=
  mkVless "vpn.example" 443 "11111111-1111-4111-8111-111111111111" "" true.
Definition demo_ssh : SshServer := mkSsh "ssh.example" 2222 "rustdesk" "" "key" true.
Definition demo_user : Global := set_option ∅ ∅ fresh "disable-udp" "Q".

Lemma transports_exclusive_witness :
  in_sync (apply_op ∅ ∅ fresh (SetVless (Some demo_vless))).
Proof. exact (proj2 (transports_exclusive ∅ ∅ fresh (SetVless (Some demo_vless))) eq_refl). Defined.

Lemma transport_switching_preserves_choice_witness :
  let g' := apply_ops ∅ ∅ demo_user
              [SetVless (Some demo_vless); SetSsh (Some demo_ssh); SetSsh None] in
  current ∅ ∅ g' = current ∅ ∅ demo_user ∧ get_option ∅ ∅ g' "disable-udp" = "Q".
Proof.
  split; [|by vm_compute].
  apply (transport_switching_preserves_choice ∅ ∅ demo_user
    [SetVless (Some demo_vless); SetSsh (Some demo_ssh); SetSsh None]); [| |by vm_compute..].
  - split; repeat constructor.
  - intros k Hk.
    assert (map_Forall (λ _ v, v ≠ "") (options (CONFIG2 demo_user))) as H
      by (refine (bool_decide_unpack _ _); vm_compute; exact I).
    exact (H _ _ Hk eq_refl).
Defined.

Lemma network_type_matches_route_witness :
  get_network_type ∅ ∅ (set_vless ∅ ∅ fresh (Some demo_vless)) = Vless.
Proof.
  exact (proj2 (network_type_matches_route ∅ ∅ (set_vless ∅ ∅ fresh (Some demo_vless))) eq_refl).
Defined.

(** With a SOCKS proxy configured too, [get_network_type] names VLESS while the
    connection goes through SOCKS. *)
Example socks_shadows_vless :
  let g := set_socks ∅ ∅ (set_vless ∅ ∅ fresh (Some demo_vless)) (Some (mkSocks "p:1080" "" "")) in
  get_network_type ∅ ∅ g = Vless ∧ connect_tcp_local ∅ ∅ g = ViaSocks (mkSocks "p:1080" "" "").
Proof. by vm_compute. Qed.
End TransportConfig.
