(* ===== verification/Reality.v ===== *)
(** * The VLESS Reality transport of the client

    [vless_reality.rs]: a local Xray process (the sidecar) carries the tunnel.
    The sidecar of the process is the static [SIDECAR]; [ensure_sidecar], which
    holds its lock throughout, reuses it or replaces it.  Operating-system
    processes are the set [running] of live sidecar children, and everything the
    code asks of its surroundings (the probe listener, the executable, the
    attempts to reach the sidecar) is an [Env] argument.  The build modelled is
    the Unix one: dropping a sidecar kills its child and reaps it. *)
From S2P Require Import Prelude RustStd Net NetText TransportConfig.
From Stdlib Require Import Ascii.
Import TransportConfig.

Module Reality.

Definition OPTION_PUBLIC_KEY : string := "vless-reality-public-key".
Definition OPTION_SHORT_ID : string := "vless-reality-short-id".
Definition OPTION_FINGERPRINT : string := "vless-reality-fingerprint".
Definition OPTION_FLOW : string := "vless-reality-flow".

Record RealitySettings : Type := mkSettings {
  endpoint : string;
  port : Z;
  uuid : string;
  server_name : string;
  public_key : string;
  short_id : string;
  fingerprint : string;
  flow : string;
}.

Record RealitySidecar : Type := mkSidecar {
  child : Z;
  local_port : Z;
  signature : string;
}.

Inductive error : Type :=
| InvalidPort | MissingServer | InvalidUuid | MissingKey
| TargetWithoutPort | TargetPortSyntax | PortNotPermitted
| TryWait | Bind | NoExecutable | WriteConfig | Spawn | ExitedDuringStartup | StartupTimeout.

Set Warnings "-register-all".

(** [serde_json::Value]. *)
Inductive Value : Type :=
| JBool (b : bool)
| JNumber (z : Z)
| JString (s : string)
| JArray (l : list Value)
| JObject (o : list (string * Value)).

(** [u16::try_from] of an [i32]. *)
Definition u16_try_from (z : Z) : option Z := if (0 <=? z) && (z <=? u16_max) then Some z else None.

Definition restricted_port (p : Z) : option Z :=
  if p =? 21115 then Some 22115
  else if p =? 21116 then Some 22116
  else if (p =? 21117) || (p =? 443) || (p =? 8443) then Some 22117
  else None.

Definition restricted_target (target : string) : result string error :=
  let? p :=
    match parse_socket_addr target with
    | Some address => Ok (sa_port address)
    | None =>
        match rsplit_once ":"%char target with
        | None => Err TargetWithoutPort
        | Some (_, p) => match parse_u16 p with Some p => Ok p | None => Err TargetPortSyntax end
        end
    end in
  match restricted_port p with
  | Some p => Ok ("127.0.0.1:" +s+ uint_to_string p)
  | None => Err PortNotPermitted
  end.

Definition build_sidecar_config (s : RealitySettings) (local_port : Z) : Value :=
  JObject
   [("log", JObject [("loglevel", JString "warning")]);
    ("inbounds", JArray
      [JObject
        [("tag", JString "rustdesk-local");
         ("listen", JString "127.0.0.1");
         ("port", JNumber local_port);
         ("protocol", JString "socks");
         ("settings", JObject [("auth", JString "noauth"); ("udp", JBool false)]);
         ("sniffing", JObject [("enabled", JBool false)])]]);
    ("outbounds", JArray
      [JObject
        [("tag", JString "rustdesk-reality");
         ("protocol", JString "vless");
         ("settings", JObject
           [("vnext", JArray
             [JObject
               [("address", JString (endpoint s));
                ("port", JNumber (port s));
                ("users", JArray
                  [JObject
                    [("id", JString (uuid s));
                     ("encryption", JString "none");
                     ("flow", JString (flow s))]])]])]);
         ("streamSettings", JObject
           [("network", JString "raw");
            ("security", JString "reality");
            ("realitySettings", JObject
              [("show", JBool false);
               ("fingerprint", JString (fingerprint s));
               ("serverName", JString (server_name s));
               ("password", JString (public_key s));
               ("shortId", JString (short_id s));
               ("spiderX", JString "/")])])]]);
    ("routing", JObject
      [("domainStrategy", JString "AsIs");
       ("rules", JArray
         [JObject
           [("type", JString "field");
            ("inboundTag", JArray [JString "rustdesk-local"]);
            ("outboundTag", JString "rustdesk-reality")]])])].

(** The process-wide state: the static [SIDECAR], the live children started for
    it, the configuration file they read and the pid the system hands out next. *)
Record World : Type := mkWorld {
  SIDECAR : option RealitySidecar;
  running : gset Z;
  config_json : option Value;
  next_pid : Z;
}.

Definition set_sidecar (w : World) (s : option RealitySidecar) : World :=
  mkWorld s (running w) (config_json w) (next_pid w).
(** The child is gone: [kill] followed by [wait], or its own exit. *)
Definition stop_child (w : World) (pid : Z) : World :=
  mkWorld (SIDECAR w) (running w ∖ {[pid]}) (config_json w) (next_pid w).
Definition write_config (w : World) (v : option Value) : World :=
  mkWorld (SIDECAR w) (running w) v (next_pid w).
Definition spawn_child (w : World) : Z * World :=
  (next_pid w, mkWorld (SIDECAR w) ({[next_pid w]} ∪ running w) (config_json w) (next_pid w + 1)).

(** [Option::take] of [SIDECAR]: the old value is dropped, which kills its child. *)
Definition take_sidecar (w : World) : World :=
  match SIDECAR w with
  | Some s => stop_child (set_sidecar w None) (child s)
  | None => w
  end.

(** One turn of the startup loop: whether the port answers, whether [try_wait]
    fails or reports an exit, and the time elapsed since the start. *)
Record Attempt : Type := mkAttempt {
  answers : bool;
  wait_fails : bool;
  exited : bool;
  elapsed : Z;
}.

Record Env : Type := mkEnv {
  current_wait_fails : bool;
  free_port : option Z;
  executable : option string;
  write_ok : bool;
  leftover : option Value;  (* what a failed write leaves in the file *)
  spawn_ok : bool;
  attempt : nat → Attempt;
}.

Fixpoint wait_ready (fuel i : nat) (wait_limit : Z) (pid : Z) (env : Env) (w : World)
    : option (World * result unit error) :=
  match fuel with
  | O => None
  | S fuel =>
      let a := attempt env i in
      if answers a then Some (w, Ok ())
      else if wait_fails a then Some (w, Err TryWait)
      else if exited a then Some (stop_child w pid, Err ExitedDuringStartup)
      else if wait_limit <=? elapsed a then Some (stop_child w pid, Err StartupTimeout)
      else wait_ready fuel (S i) wait_limit pid env w
  end.

(** At most 10 s in steps of at least 50 ms. *)
Definition startup_fuel : nat := 201.

Section Settings.
Context (uuid_parse : string → option (array 16)) (get_option : string → string).

Definition from_config (config : VlessServer) : result RealitySettings error :=
  match u16_try_from (v_port config) with
  | None => Err InvalidPort
  | Some p =>
      if is_empty (v_server config) || is_empty (v_uuid config) || is_empty (v_server_name config)
      then Err MissingServer
      else
        match uuid_parse (v_uuid config) with
        | None => Err InvalidUuid
        | Some _ =>
            let pk := get_option OPTION_PUBLIC_KEY in
            let sid := get_option OPTION_SHORT_ID in
            if is_empty pk || is_empty sid then Err MissingKey
            else
              let fp := get_option OPTION_FINGERPRINT in
              let fl := get_option OPTION_FLOW in
              Ok (mkSettings (v_server config) p (v_uuid config) (v_server_name config) pk sid
                    (if is_empty fp then "chrome" else fp)
                    (if is_empty fl then "xtls-rprx-vision"
                     else if fl ==s "none" then "" else fl))
        end
  end.

End Settings.

Section Operations.
Context (sha256_hex : list byte → string).

Definition signature_fields (s : RealitySettings) : list string :=
  [endpoint s; uint_to_string (port s); uuid s; server_name s; public_key s; short_id s;
   fingerprint s; flow s].

Definition signature_of (s : RealitySettings) : string :=
  sha256_hex (as_bytes (join ":"%char (signature_fields s))).

(** The current sidecar, when it may be reused: [try_wait] is only asked when the
    signatures agree. *)
Definition reuse (w : World) (sig : string) (env : Env) : result (option Z) error :=
  match SIDECAR w with
  | Some current =>
      if signature current ==s sig then
        if current_wait_fails env then Err TryWait
        else if bool_decide (child current ∈ running w) then Ok (Some (local_port current))
        else Ok None
      else Ok None
  | None => Ok None
  end.

Definition start_sidecar (w : World) (s : RealitySettings) (ms_timeout : Z) (env : Env)
    : option (World * result Z error) :=
  match free_port env with
  | None => Some (w, Err Bind)
  | Some lp =>
      match executable env with
      | None => Some (w, Err NoExecutable)
      | Some _ =>
          if negb (write_ok env) then Some (write_config w (leftover env), Err WriteConfig)
          else
            let w := write_config w (Some (build_sidecar_config s lp)) in
            if negb (spawn_ok env) then Some (w, Err Spawn)
            else
              let (pid, w) := spawn_child w in
              match wait_ready startup_fuel 0 (clamp ms_timeout 1000 10000) pid env w with
              | None => None
              | Some (w, Err e) => Some (w, Err e)
              | Some (w, Ok _) =>
                  Some (set_sidecar w (Some (mkSidecar pid lp (signature_of s))), Ok lp)
              end
      end
  end.

Definition ensure_sidecar (w : World) (s : RealitySettings) (ms_timeout : Z) (env : Env)
    : option (World * result Z error) :=
  match reuse w (signature_of s) env with
  | Err e => Some (w, Err e)
  | Ok (Some lp) => Some (w, Ok lp)
  | Ok None => start_sidecar (take_sidecar w) s ms_timeout env
  end.

(** ** Startup ends *)

Lemma wait_ready_ends fuel i limit pid env w :
  (∀ j, 50 * Z.of_nat j ≤ elapsed (attempt env j)) →
  limit ≤ 50 * (Z.of_nat i + Z.of_nat fuel - 1) → (0 < fuel)%nat →
  is_Some (wait_ready fuel i limit pid env w).
Proof.
  intros Hel. revert i. induction fuel as [|fuel IH]; intros i Hl Hf; [lia|]. simpl.
  repeat (case_match; [by eexists|]).
  apply IH; [lia|]. specialize (Hel i). bool_cases; try done. lia.
Qed.

Lemma ensure_sidecar_ends w s ms env :
  (∀ j, 50 * Z.of_nat j ≤ elapsed (attempt env j)) → is_Some (ensure_sidecar w s ms env).
Proof.
  intros Hel. unfold ensure_sidecar, start_sidecar, spawn_child.
  repeat case_match; try (by eexists).
  match goal with H : wait_ready _ _ _ _ _ _ = None |- _ =>
    edestruct (wait_ready_ends startup_fuel 0 (clamp ms 1000 10000)) as [? E]; [exact Hel| |unfold startup_fuel; lia|rewrite E in H; done]
  end.
  pose proof (clamp_bounds ms 1000 10000). unfold startup_fuel. lia.
Qed.

(** ** The sidecar invariant *)

(** At most the registered child is alive, pids are fresh, and the file on disk
    configures the registered sidecar. *)
Definition colon_free (s : RealitySettings) : Prop :=
  0 ≤ port s ∧
  Forall (λ f, contains ":"%char f = false)
    [endpoint s; uuid s; server_name s; public_key s; short_id s; fingerprint s; flow s].

#[local] Instance colon_free_dec s : Decision (colon_free s).
Proof. unfold colon_free. apply _. Defined.

Record wf (w : World) : Prop := mkWf {
  wf_running : ∀ pid, pid ∈ running w → ∃ s, SIDECAR w = Some s ∧ child s = pid;
  wf_fresh : ∀ s, SIDECAR w = Some s → child s < next_pid w;
  wf_config : ∀ s, SIDECAR w = Some s →
    ∃ st, colon_free st ∧ signature s = signature_of st ∧
          config_json w = Some (build_sidecar_config st (local_port s));
}.

Lemma wf_take w : wf w → SIDECAR (take_sidecar w) = None ∧ running (take_sidecar w) = ∅.
Proof.
  intros [Hr _ _]. unfold take_sidecar. destruct (SIDECAR w) as [s|] eqn:E; simpl.
  - split; [done|]. apply set_eq. intros x. rewrite elem_of_difference, elem_of_singleton.
    split; [|done]. intros [(s' & ? & ?)%Hr ?]. simplify_eq.
  - split; [done|]. apply set_eq. intros x. split; [|done]. intros (? & ? & _)%Hr. done.
Qed.

Lemma wf_idle w : SIDECAR w = None → running w = ∅ → wf w.
Proof. intros Hs Hr. split; rewrite ?Hs, ?Hr; done. Qed.

Lemma running_single w : wf w → (size (running w) ≤ 1)%nat.
Proof.
  intros [Hr _ _]. destruct (SIDECAR w) as [s|].
  - transitivity (size ({[child s]} : gset Z)); [|by rewrite size_singleton].
    apply subseteq_size. intros x (s' & [= <-] & <-)%Hr. set_solver.
  - assert (running w = ∅) as ->; [|by rewrite size_empty; lia].
    apply set_eq. intros x. split; [|done]. intros (? & ? & _)%Hr. done.
Qed.

(** How the startup loop can end: the child is registered alive, or dead, unless
    [try_wait] failed. *)
Lemma wait_ready_result fuel i limit pid env w w' r :
  wait_ready fuel i limit pid env w = Some (w', r) →
  (r = Ok () ∧ w' = w) ∨ (r = Err TryWait ∧ ∃ j, wait_fails (attempt env j) = true) ∨
  (is_ok r = false ∧ w' = stop_child w pid).
Proof.
  revert i. induction fuel as [|fuel IH]; intros i; simpl; [done|].
  destruct (answers _); [intros [= <- <-]; by left|].
  destruct (wait_fails (attempt env i)) eqn:Ew; [intros [= <- <-]; right; left; eauto|].
  destruct (exited _); [intros [= <- <-]; by right; right|].
  destruct (_ <=? _); [intros [= <- <-]; by right; right|]. apply IH.
Qed.

#[local] Opaque wait_ready.

(** What [start_sidecar] leaves behind when nothing was running before. *)
Lemma start_sidecar_result w s ms env w' r :
  colon_free s → SIDECAR w = None → running w = ∅ → (∀ j, wait_fails (attempt env j) = false) →
  start_sidecar w s ms env = Some (w', r) →
  wf w' ∧
  match r with
  | Ok lp => ∃ pid, SIDECAR w' = Some (mkSidecar pid lp (signature_of s)) ∧ pid ∈ running w' ∧
                    config_json w' = Some (build_sidecar_config s lp)
  | Err _ => SIDECAR w' = None ∧ running w' = ∅
  end.
Proof.
  intros Hcf Hs Hr Hw. unfold start_sidecar, spawn_child.
  destruct (free_port env) as [lp|]; [|intros [= <- <-]; auto using wf_idle].
  destruct (executable env); [|intros [= <- <-]; auto using wf_idle].
  destruct (write_ok env); cbn [negb]; [|intros [= <- <-]; auto using wf_idle].
  destruct (spawn_ok env); cbn [negb]; [|intros [= <- <-]; auto using wf_idle].
  destruct (wait_ready _ _ _ _ _ _) as [[w1 r1]|] eqn:E; [|done].
  apply wait_ready_result in E as [[-> ->]|[[-> (j & Hj)]|[Hr1 ->]]].
  - intros [= <- <-]. split; [split; simpl|].
    + intros pid. rewrite Hr. intros Hp. exists (mkSidecar (next_pid w) lp (signature_of s)). set_solver.
    + intros ? [= <-]. simpl. lia.
    + intros ? [= <-]. simpl. eauto.
    + exists (next_pid w). simpl. repeat split; set_solver.
  - by rewrite Hw in Hj.
  - destruct r1; [done|]. intros [= <- <-].
    assert (({[next_pid w]} ∪ running w) ∖ {[next_pid w]} = ∅) as Hd by (rewrite Hr; set_solver).
    split; [by apply wf_idle|done].
Qed.

Lemma reuse_some w sig env lp : reuse w sig env = Ok (Some lp) →
  ∃ s, SIDECAR w = Some s ∧ signature s = sig ∧ child s ∈ running w ∧ lp = local_port s.
Proof.
  unfold reuse. destruct (SIDECAR w) as [s|]; [|done].
  destruct (signature s ==s sig) eqn:E; [|done]. apply eqb_str_true in E.
  destruct (current_wait_fails env); [done|]. case_bool_decide; [|done]. intros [= <-]. eauto.
Qed.

(** Settings whose fields hold no colon are told apart by the string that is
    hashed. *)
Lemma signature_fields_inj s s' : 0 ≤ port s → 0 ≤ port s' →
  signature_fields s = signature_fields s' → s = s'.
Proof.
  destruct s as [e p u n k i f l], s' as [e' p' u' n' k' i' f' l']; simpl.
  intros Hp Hp' [= -> E -> -> -> -> -> ->].
  pose proof (parse_uint_to_string (Z.max p p') p) as H1.
  rewrite E, parse_uint_to_string in H1 by lia. f_equal. symmetry. by apply (inj Some), H1; lia.
Qed.

Lemma signature_of_inj s s' : Inj (=) (=) sha256_hex →
  colon_free s → colon_free s' → signature_of s = signature_of s' → s = s'.
Proof.
  intros Hsha [Hp Hs] [Hp' Hs'] E. apply signature_fields_inj; [done..|].
  apply Hsha in E. apply (f_equal of_bytes) in E. rewrite !of_as_bytes in E.
  assert (∀ st, Forall (λ f, contains ":"%char f = false)
      [endpoint st; uuid st; server_name st; public_key st; short_id st; fingerprint st; flow st] →
      split ":"%char (join ":"%char (signature_fields st)) = signature_fields st) as Hsp.
  { intros st H. apply split_join; [done|]. unfold signature_fields.
    repeat (apply Forall_cons in H as [? H]).
    repeat (constructor; [first [done|by apply uint_to_string_no_char]|]). constructor. }
  by rewrite <- (Hsp s Hs), <- (Hsp s' Hs'), E.
Qed.


Section Connect.
Context (uuid_parse : string → option (array 16)) (get_option : string → string).

(** [connect]: on success the SOCKS proxy that is dialled and the target asked of
    it. *)
Definition connect (w : World) (target : string) (config : VlessServer) (ms_timeout : Z)
    (env : Env) : option (World * result (Socks5Server * string) error) :=
  match from_config uuid_parse get_option config with
  | Err e => Some (w, Err e)
  | Ok settings =>
      match ensure_sidecar w settings ms_timeout env with
      | None => None
      | Some (w, Err e) => Some (w, Err e)
      | Some (w, Ok lp) =>
          match restricted_target target with
          | Err e => Some (w, Err e)
          | Ok t => Some (w, Ok (mkSocks ("127.0.0.1:" +s+ uint_to_string lp) "" "", t))
          end
      end
  end.

Definition loopback_targets : list string :=
  ["127.0.0.1:22115"; "127.0.0.1:22116"; "127.0.0.1:22117"].

Lemma restricted_port_cases p q : restricted_port p = Some q → q ∈ [22115; 22116; 22117].
Proof. unfold restricted_port. repeat case_match; intros; simplify_eq; set_solver. Qed.

Lemma restricted_target_loopback t r : restricted_target t = Ok r → r ∈ loopback_targets.
Proof.
  unfold restricted_target. intros (p & _ & H)%result_bind_ok.
  destruct (restricted_port p) as [q|] eqn:E; [|done]. injection H as <-.
  apply restricted_port_cases in E. repeat (apply elem_of_cons in E as [->|E]; [by vm_compute; set_solver|]).
  by apply elem_of_nil in E.
Qed.

(** A connection set up over Reality is dialled through the SOCKS port on
    the loopback interface that [ensure_sidecar] returned, and what is asked of
    it is one of the three loopback listeners reserved for authenticated
    traffic, whatever target the caller named; the settings were complete and
    the port 16 bits wide. *)
Theorem reality_connects_to_loopback w target config ms env w' proxy t :
  connect w target config ms env = Some (w', Ok (proxy, t)) →
  t ∈ loopback_targets ∧
  ∃ s lp, from_config uuid_parse get_option config = Ok s ∧ ensure_sidecar w s ms env = Some (w', Ok lp) ∧
    proxy = mkSocks ("127.0.0.1:" +s+ uint_to_string lp) "" "" ∧
    0 ≤ port s ≤ u16_max ∧ is_Some (uuid_parse (uuid s)) ∧
    Forall (λ f, f ≠ "") [endpoint s; uuid s; server_name s; public_key s; short_id s; fingerprint s].
Proof.
  unfold connect. destruct (from_config uuid_parse get_option config) as [s|] eqn:Ec; [|done].
  destruct (ensure_sidecar w s ms env) as [[w1 [lp|]]|] eqn:Ee; [|done..].
  destruct (restricted_target target) as [t1|] eqn:Et; [|done]. intros [= <- <- <-].
  split; [by eapply restricted_target_loopback|]. exists s, lp. do 3 (split; [done|]).
  revert Ec. unfold from_config, u16_try_from.
  destruct ((0 <=? v_port config) && (v_port config <=? u16_max)) eqn:Ep; [|done].
  destruct (is_empty (v_server config) || _ || _) eqn:En; [done|].
  destruct (uuid_parse (v_uuid config)) eqn:Eu; [|done].
  destruct (is_empty (get_option OPTION_PUBLIC_KEY) || _) eqn:Ek; [done|]. intros [= <-]; simpl.
  apply orb_false_elim in En as [[? ?]%orb_false_elim ?], Ek as [? ?].
  apply andb_prop in Ep as [? ?].
  split; [lia|]. split; [by rewrite Eu|].
  repeat constructor; try (by apply is_empty_false).
  destruct (is_empty (get_option OPTION_FINGERPRINT)) eqn:Ef; [done|by apply is_empty_false].
Qed.

End Connect.
End Operations.

(** ** Concrete runs *)

Definition demo_settings : RealitySettings :=
  mkSettings "rd.example.com" 443 "11111111-1111-4111-8111-111111111111" "rd.example.com"
    "public-key" "0123456789abcdef" "chrome" "".
Definition demo_env : Env :=
  mkEnv false (Some 10808) (Some "/opt/rustdesk/xray") true None true
    (λ j, mkAttempt (2 <=? j)%nat false false (60 * Z.of_nat j)).
Definition empty_world : World := mkWorld None ∅ None 1.
Definition demo_option (k : string) : string :=
  if k ==s OPTION_PUBLIC_KEY then "public-key"
  else if k ==s OPTION_SHORT_ID then "0123456789abcdef"
  else if k ==s OPTION_FLOW then "none" else "".
Definition demo_config : VlessServer :=
  mkVless "rd.example.com" 443 "11111111-1111-4111-8111-111111111111" "rd.example.com" true.
Definition demo_uuid (s : string) : option (array 16) :=
  if (str_len s =? 36)%Z then Some unspecified6 else None.

#[local] Instance of_bytes_inj : Inj (=) (=) of_bytes.
Proof. intros x y E. by rewrite <- (as_of_bytes x), E, as_of_bytes. Qed.


Lemma reality_connects_to_loopback_witness :
  ∃ w', connect of_bytes demo_uuid demo_option empty_world "rd.example.com:443" demo_config 3000
          demo_env = Some (w', Ok (mkSocks "127.0.0.1:10808" "" "", "127.0.0.1:22117")) ∧
    "127.0.0.1:22117" ∈ loopback_targets.
Proof.
  eexists. split; [by vm_compute|].
  eapply (reality_connects_to_loopback of_bytes demo_uuid demo_option empty_world
            "rd.example.com:443" demo_config 3000 demo_env).
  by vm_compute.
Defined.

(** The string that is hashed does not determine the settings when a field holds
    a colon: both settings below share a signature, so the sidecar of the first
    is reused for the second. *)
Example signature_ambiguous :
  let a := mkSettings "h" 443 "u" "sni" "key" "a:b" "chrome" "" in
  let b := mkSettings "h" 443 "u" "sni" "key:a" "b" "chrome" "" in
  a ≠ b ∧ ∀ sha256_hex, signature_of sha256_hex a = signature_of sha256_hex b.
Proof. by split. Qed.
End Reality.
