(* ===== verification/Vless.v ===== *)
(** * The VLESS client transport

    [vless.rs]: the request a client writes once the TLS session is up, and
    [VlessResponseStream], the reader that removes the response header and its
    addons from the stream whenever they arrive.  The inner transport is a
    script of what successive reads meet: nothing yet, a failure, or bytes. *)
From S2P Require Import Prelude RustStd Net NetText TransportConfig Reality.
From Stdlib Require Import Ascii.
Import TransportConfig.

Module Vless.

Inductive ErrorKind : Type :=
| UnexpectedEof | InvalidData | ConnectionReset | Other.

Inductive Poll : Type :=
| Pending
| ReadyErr (k : ErrorKind)
| ReadyOk (filled : list byte).

(** ** The inner transport *)

Inductive Event : Type :=
| Quiet
| Fails (k : ErrorKind)
| Data (bs : list byte).

(** A read into a buffer of [cap] bytes; at the end of the script the peer has
    closed and reads return nothing. *)
Definition inner_read (cap : nat) (script : list Event) : Poll * list Event :=
  match script with
  | [] => (ReadyOk [], [])
  | Quiet :: script => (Pending, script)
  | Fails k :: script => (ReadyErr k, script)
  | Data bs :: script =>
      if decide (length bs ≤ cap)%nat then (ReadyOk bs, script)
      else (ReadyOk (take cap bs), Data (drop cap bs) :: script)
  end.

(** ** [VlessResponseStream] *)

Record VlessResponseStream : Type := mkStream {
  inner : list Event;
  header : list byte;
  header_read : nat;
  addons_remaining : nat;
  header_done : bool;
  failed : option ErrorKind;
}.

Definition new (inner : list Event) : VlessResponseStream :=
  mkStream inner [Byte.x00; Byte.x00] 0 0 false None.

Definition with_inner (s : VlessResponseStream) (i : list Event) : VlessResponseStream :=
  mkStream i (header s) (header_read s) (addons_remaining s) (header_done s) (failed s).

Definition reject (s : VlessResponseStream) (k : ErrorKind) : Poll * VlessResponseStream :=
  (ReadyErr k, mkStream (inner s) (header s) (header_read s) (addons_remaining s) (header_done s)
                        (Some k)).

(** The bytes of a read stored at offset [at_] of the header array. *)
Definition fill (h : list byte) (at_ : nat) (bs : list byte) : list byte :=
  take at_ h ++ bs ++ drop (at_ + length bs) h.

(** A loop of [poll_read]: it returns from the function, or it is done. *)
Inductive Loop : Type :=
| Return (p : Poll * VlessResponseStream)
| Done (s : VlessResponseStream).

(** [while header_read < header.len()]; every turn that does not return reads at
    least one byte, so [fuel] turns suffice for [fuel] missing bytes. *)
Fixpoint read_header (fuel : nat) (s : VlessResponseStream) : Loop :=
  if decide (header_read s < length (header s))%nat then
    match fuel with
    | O => Done s
    | S fuel =>
        let (p, i) := inner_read (length (header s) - header_read s) (inner s) in
        let s := with_inner s i in
        match p with
        | Pending => Return (Pending, s)
        | ReadyErr k => Return (reject s k)
        | ReadyOk [] => Return (reject s UnexpectedEof)
        | ReadyOk bs =>
            let s := mkStream (inner s) (fill (header s) (header_read s) bs)
                       (header_read s + length bs) (addons_remaining s) (header_done s) (failed s) in
            if bool_decide (nth 0 (header s) Byte.x00 = Byte.x00)
            then read_header fuel s
            else Return (reject s InvalidData)
        end
    end
  else Done s.

(** [while addons_remaining > 0] *)
Fixpoint skip_addons (fuel : nat) (s : VlessResponseStream) : Loop :=
  if decide (0 < addons_remaining s)%nat then
    match fuel with
    | O => Done s
    | S fuel =>
        let (p, i) := inner_read (addons_remaining s) (inner s) in
        let s := with_inner s i in
        match p with
        | Pending => Return (Pending, s)
        | ReadyErr k => Return (reject s k)
        | ReadyOk [] => Return (reject s UnexpectedEof)
        | ReadyOk bs =>
            skip_addons fuel
              (mkStream (inner s) (header s) (header_read s) (addons_remaining s - length bs)
                 (header_done s) (failed s))
        end
    end
  else Done s.

Definition finish_header (s : VlessResponseStream) : VlessResponseStream :=
  mkStream (inner s) (header s) (header_read s) (Z.to_nat (b2z (nth 1 (header s) Byte.x00))) true
    (failed s).

Definition poll_read (cap : nat) (s : VlessResponseStream) : Poll * VlessResponseStream :=
  if decide (cap = 0)%nat then (ReadyOk [], s)
  else
    match failed s with
    | Some kind => (ReadyErr kind, s)
    | None =>
        let h :=
          if header_done s then Done s
          else match read_header (length (header s) - header_read s) s with
               | Return p => Return p
               | Done s => Done (finish_header s)
               end in
        match h with
        | Return p => p
        | Done s =>
            match skip_addons (addons_remaining s) s with
            | Return p => p
            | Done s => let (p, i) := inner_read cap (inner s) in (p, with_inner s i)
            end
        end
    end.

(** ** The request *)

Inductive error : Type :=
| TcpConnect | InvalidServerName | Tls | TargetWithoutPort | TargetPortSyntax
| InvalidUuid | HostTooLong | WriteFailed | RealityError (e : Reality.error).

Definition split_target (target : string) : result (string * Z) error :=
  match parse_socket_addr target with
  | Some address => Ok (ip_to_string (sa_ip address), sa_port address)
  | None =>
      match rsplit_once ":"%char target with
      | None => Err TargetWithoutPort
      | Some (host, port) =>
          match parse_u16 port with
          | None => Err TargetPortSyntax
          | Some port => Ok (trim_matches ["["%char; "]"%char] host, port)
          end
      end
  end.

(** The address part: its type byte and its bytes. *)
Definition address_bytes (host : string) : result (list byte) error :=
  match parse_ip host with
  | Some (IpV4 address) => Ok (z2b 1 :: octets address)
  | Some (IpV6 address) => Ok (z2b 3 :: octets address)
  | None =>
      let host := as_bytes host in
      if u8_max <? len host then Err HostTooLong
      else Ok (z2b 2 :: z2b (len host) :: host)
  end.

Definition request_bytes (uuid : array 16) (host : string) (port : Z) : result (list byte) error :=
  let? a := address_bytes host in
  Ok (z2b 0 :: octets uuid ++ z2b 0 :: z2b 1 :: to_be_bytes 2 port ++ a).

(** What the code meets outside: whether TCP, the TLS session and the write
    succeed, how the TLS library reads a server name and the uuid crate a uuid. *)
Record Peer : Type := mkPeer {
  tcp_connect : string → bool;
  server_name_valid : string → bool;
  tls_connect : string → bool;
  write_all : list byte → bool;
  incoming : list Event;
}.

Section Connect.
Context (uuid_parse : string → option (array 16)).

(** [connect] over TLS: the bytes written and the stream that reads the answer. *)
Definition connect_tls (peer : Peer) (target : string) (config : VlessServer)
    : result (list byte * VlessResponseStream) error :=
  let endpoint := v_server config +s+ ":" +s+ int_to_string (v_port config) in
  if negb (tcp_connect peer endpoint) then Err TcpConnect
  else
    let server_name := if is_empty (v_server_name config) then v_server config
                       else v_server_name config in
    if negb (server_name_valid peer server_name) then Err InvalidServerName
    else if negb (tls_connect peer server_name) then Err Tls
    else
      let? hp := split_target target in
      match uuid_parse (v_uuid config) with
      | None => Err InvalidUuid
      | Some uuid =>
          let? request := request_bytes uuid hp.1 hp.2 in
          if write_all peer request then Ok (request, new (incoming peer)) else Err WriteFailed
      end.

Inductive Connection : Type :=
| OverTls (request : list byte) (stream : VlessResponseStream)
| OverReality (proxy : Socks5Server) (target : string).

(** [connect]: the transport option chooses between TLS and Reality. *)
Definition connect (sha256_hex : list byte → string) (get_option : string → string)
    (w : Reality.World) (env : Reality.Env) (peer : Peer) (target : string) (config : VlessServer)
    (ms_timeout : Z) : option (Reality.World * result Connection error) :=
  if get_option "vless-transport" ==s "reality" then
    match Reality.connect sha256_hex uuid_parse get_option w target config ms_timeout env with
    | None => None
    | Some (w, Ok (proxy, t)) => Some (w, Ok (OverReality proxy t))
    | Some (w, Err e) => Some (w, Err (RealityError e))
    end
  else
    Some (w, let? c := connect_tls peer target config in Ok (OverTls c.1 c.2)).
End Connect.

(** ** The reference reading of a response

    What the whole answer of the server means, independent of how it arrives. *)
Inductive Outcome : Type :=
| Payload (p : list byte)
| Reject (k : ErrorKind).

Definition skip (n : nat) (bs : list byte) : Outcome :=
  if decide (length bs < n)%nat then Reject UnexpectedEof else Payload (drop n bs).

Definition response_spec (bs : list byte) : Outcome :=
  match bs with
  | [] => Reject UnexpectedEof
  | v :: rest =>
      if decide (v = Byte.x00) then
        match rest with
        | [] => Reject UnexpectedEof
        | n :: rest => skip (Z.to_nat (b2z n)) rest
        end
      else Reject InvalidData
  end.

(** A transport that delivers bytes, possibly late, in non-empty pieces. *)
Definition delivers (e : Event) : Prop :=
  match e with Quiet => True | Fails _ => False | Data bs => bs ≠ [] end.

Fixpoint script_bytes (script : list Event) : list byte :=
  match script with
  | [] => []
  | Data bs :: script => bs ++ script_bytes script
  | _ :: script => script_bytes script
  end.

(** Successive polls with the given buffer sizes, what they yield. *)
Fixpoint drive (caps : list nat) (s : VlessResponseStream) : list Poll :=
  match caps with
  | [] => []
  | cap :: caps => let (p, s) := poll_read cap s in p :: drive caps s
  end.

Definition data_of (p : Poll) : list byte := match p with ReadyOk bs => bs | _ => [] end.
Definition received (ps : list Poll) : list byte := concat (data_of <$> ps).
Definition errors (ps : list Poll) : list ErrorKind :=
  omap (λ p, match p with ReadyErr k => Some k | _ => None end) ps.

(** ** One poll against the reference *)

Definition script_size (script : list Event) : nat :=
  length script + length (script_bytes script).

Lemma inner_read_ok cap i p i' :
  (0 < cap)%nat → Forall delivers i → inner_read cap i = (p, i') →
  Forall delivers i' ∧
  match p with
  | Pending => script_bytes i' = script_bytes i ∧ (script_size i' < script_size i)%nat
  | ReadyErr _ => False
  | ReadyOk bs => script_bytes i = bs ++ script_bytes i' ∧ (length bs ≤ cap)%nat ∧
      (bs = [] → script_bytes i = []) ∧ (bs ≠ [] → (script_size i' < script_size i)%nat)
  end.
Proof.
  intros Hcap Hi. unfold script_size. destruct Hi as [|[|k|bs] i Hd Hi]; simpl.
  - intros [= <- <-]. repeat split; simpl; try done; lia.
  - intros [= <- <-]. repeat split; simpl; try done; lia.
  - done.
  - simpl in Hd. case_decide; intros [= <- <-]; simpl.
    + repeat split; try done. intros _. rewrite length_app. destruct bs; simpl; [done|lia].
    + assert (drop cap bs ≠ []).
      { intros E. apply (f_equal length) in E. rewrite length_drop in E. simpl in E. lia. }
      split; [by constructor|]. rewrite (assoc_L (++)), take_drop.
      repeat split; try done; rewrite ?length_app, ?length_take, ?length_drop; try lia.
      intros E. apply (f_equal length) in E. rewrite length_take in E. simpl in E. lia.
Qed.

(** What remains to be read, given the state of the reader. *)
Definition residual (s : VlessResponseStream) : Outcome :=
  match failed s with
  | Some k => Reject k
  | None =>
      if header_done s then skip (addons_remaining s) (script_bytes (inner s))
      else response_spec (take (header_read s) (header s) ++ script_bytes (inner s))
  end.

(** The header read so far: at most two bytes, the first of which is zero. *)
Record header_ok (s : VlessResponseStream) : Prop := mkHeaderOk {
  ho_delivers : Forall delivers (inner s);
  ho_length : length (header s) = 2%nat;
  ho_failed : failed s = None;
  ho_done : header_done s = false;
  ho_read : (header_read s ≤ 2)%nat;
  ho_version : (0 < header_read s)%nat → nth 0 (header s) Byte.x00 = Byte.x00;
}.

Definition inv (s : VlessResponseStream) : Prop :=
  Forall delivers (inner s) ∧ (failed s = None → header_done s = false → header_ok s).

Definition size (s : VlessResponseStream) : nat := script_size (inner s).

Definition step_ok (s : VlessResponseStream) (p : Poll) (s' : VlessResponseStream) : Prop :=
  inv s' ∧
  match p with
  | Pending => residual s' = residual s ∧ (size s' < size s)%nat
  | ReadyErr k => residual s = Reject k ∧ failed s' = Some k
  | ReadyOk bs => ∃ pl, residual s = Payload (bs ++ pl) ∧ residual s' = Payload pl ∧
      (bs = [] → pl = []) ∧ (bs ≠ [] → (size s' < size s)%nat)
  end.

Lemma rejected_inv s k : Forall delivers (inner s) → inv (reject s k).2.
Proof. by split. Qed.

Lemma skip_app n bs r : (length bs ≤ n)%nat → skip n (bs ++ r) = skip (n - length bs) r.
Proof.
  intros Hl. unfold skip. rewrite length_app. rewrite drop_app_ge by done.
  destruct (decide (length r < n - length bs)%nat), (decide (length bs + length r < n)%nat);
    first [done|lia].
Qed.

(** A later step of the same poll counts from its start. *)
Lemma step_ok_trans s s1 p s' :
  residual s1 = residual s → (size s1 ≤ size s)%nat → step_ok s1 p s' → step_ok s p s'.
Proof.
  intros Hr Hs [Hi Hp]. split; [done|]. destruct p; rewrite <- Hr; naive_solver lia.
Qed.

Lemma skip_addons_ok fuel s :
  Forall delivers (inner s) → failed s = None → header_done s = true →
  (addons_remaining s ≤ fuel)%nat →
  match skip_addons fuel s with
  | Return (p, s') => step_ok s p s'
  | Done s' => Forall delivers (inner s') ∧ failed s' = None ∧ header_done s' = true ∧
      addons_remaining s' = 0%nat ∧ residual s' = residual s ∧ (size s' ≤ size s)%nat
  end.
Proof.
  revert s. induction fuel as [|fuel IH]; intros s Hd Hf Hh Hfuel; simpl;
    (case_decide as Ha; [try lia|repeat split; try done; try lia]).
  destruct (inner_read _ _) as [p i] eqn:E.
  apply inner_read_ok in E as [Hd' Hp]; [|done..].
  destruct p as [|k|bs]; [|done|destruct bs as [|b bs]].
  - destruct Hp as [Hb Hs]. split; [split; simpl; [done|congruence]|].
    unfold residual, size; simpl. by rewrite Hf, Hh, Hb.
  - destruct Hp as (Hb & _ & Hnil & _). split; [by apply rejected_inv|]. split; [|done].
    unfold residual, skip. rewrite Hf, Hh, Hnil by done. simpl. by rewrite decide_True by lia.
  - destruct Hp as (Hb & Hl & _ & Hs). specialize (Hs ltac:(done)).
    match goal with |- match skip_addons fuel ?s1 with _ => _ end =>
      assert (residual s1 = residual s ∧ (size s1 < size s)%nat) as [Hres Hsz] end.
    { unfold residual, size; simpl. rewrite Hf, Hh, Hb. split; [|exact Hs].
      symmetry. by apply (skip_app _ (b :: bs)). }
    match goal with |- match skip_addons fuel ?s1 with _ => _ end =>
      specialize (IH s1); destruct (skip_addons fuel s1) as [[p s']|s'] end.
    + eapply step_ok_trans; [exact Hres|lia|]. apply IH; simpl in *; first [done|lia].
    + destruct (IH ltac:(done) ltac:(done) ltac:(done) ltac:(simpl in *; lia))
        as (? & ? & ? & ? & ? & ?). repeat split; try done; [congruence|lia].
Qed.

(** The response header: a byte of the version, a byte of the addons length. *)
Lemma fill_take h hr bs : length h = 2%nat → (hr + length bs ≤ 2)%nat →
  length (fill h hr bs) = 2%nat ∧ take (hr + length bs) (fill h hr bs) = take hr h ++ bs.
Proof.
  intros Hl Hb. unfold fill. split.
  - rewrite !length_app, length_take, length_drop. lia.
  - rewrite (assoc_L (++)), take_app_le by (rewrite length_app, length_take; lia).
    apply take_ge. rewrite length_app, length_take. lia.
Qed.

Lemma bad_version s bs : header_ok s → (header_read s + length bs ≤ 2)%nat → bs ≠ [] →
  nth 0 (fill (header s) (header_read s) bs) Byte.x00 ≠ Byte.x00 →
  ∀ rest, response_spec (take (header_read s) (header s) ++ bs ++ rest) = Reject InvalidData.
Proof.
  intros [_ Hl _ _ _ Hv] Hb Hne Hbad rest.
  destruct bs as [|b bs]; [done|].
  destruct (header s) as [|h0 [|h1 []]]; try done.
  destruct (header_read s) as [|[|n]]; simpl in *.
  - by rewrite decide_False.
  - by rewrite Hv in Hbad by lia.
  - lia.
Qed.

Lemma read_header_ok fuel s :
  header_ok s → (2 - header_read s ≤ fuel)%nat →
  match read_header fuel s with
  | Return (p, s') => step_ok s p s'
  | Done s' => header_ok s' ∧ header_read s' = 2%nat ∧ residual s' = residual s ∧
      (size s' ≤ size s)%nat
  end.
Proof.
  revert s. induction fuel as [|fuel IH]; intros s Hok Hfuel;
    pose proof Hok as [Hd Hl Hf Hh Hr Hv]; simpl; rewrite Hl;
    (case_decide as Ha; [try lia|repeat split; try done; lia]).
  destruct (inner_read _ _) as [p i] eqn:E. apply inner_read_ok in E as [Hd' Hp]; [|lia|done].
  destruct p as [|k|bs]; [|done|destruct bs as [|b bs]].
  - destruct Hp as [Hb Hs]. split; [split; simpl; [done|by intros; constructor]|].
    unfold residual, size; simpl. by rewrite Hf, Hh, Hb.
  - destruct Hp as (Hb & _ & Hnil & _). split; [by apply rejected_inv|]. split; [|done].
    unfold residual. rewrite Hf, Hh, Hnil, app_nil_r by done.
    destruct (header s) as [|h0 [|h1 []]]; try done.
    destruct (header_read s) as [|[|n]]; [done| |lia]. simpl in *. rewrite Hv by lia. done.
  - destruct Hp as (Hb & Hlen & _ & Hs). specialize (Hs ltac:(done)).
    destruct (fill_take (header s) (header_read s) (b :: bs)) as [Hfl Hft]; [done|lia|].
    case_bool_decide as Hver; simpl in Hver.
    + set (s1 := mkStream _ _ _ _ _ _).
      assert (header_ok s1) as Hok1 by (split; simpl; try done; simpl in *; lia).
      assert (residual s1 = residual s) as Hres.
      { unfold residual; simpl. rewrite Hf, Hh, Hb. simpl in Hft. by rewrite Hft, <- (assoc_L (++)). }
      specialize (IH s1 Hok1 ltac:(simpl in *; lia)).
      assert (size s1 < size s)%nat as Hsz by exact Hs.
      destruct (read_header fuel s1) as [[p s']|s'].
      * by apply (step_ok_trans _ s1); [|lia|].
      * destruct IH as (? & ? & ? & ?). repeat split; try apply H; try done; [congruence|lia].
    + split; [by apply rejected_inv|]. split; [|done]. unfold residual. rewrite Hf, Hh, Hb.
      apply (bad_version s); [done|simpl in *; lia|done|exact Hver].
Qed.

(** Once the header is complete, its two bytes announce the addons. *)
Lemma finish_header_residual s : header_ok s → header_read s = 2%nat →
  residual (finish_header s) = residual s.
Proof.
  intros [_ Hl Hf Hh _ Hv] Hr. unfold residual; simpl. rewrite Hf, Hh, Hr.
  destruct (header s) as [|h0 [|h1 []]]; try done. simpl in *. by rewrite Hv by lia.
Qed.

Lemma payload_read_ok cap s :
  (0 < cap)%nat → Forall delivers (inner s) → failed s = None → header_done s = true →
  addons_remaining s = 0%nat →
  let (p, i) := inner_read cap (inner s) in step_ok s p (with_inner s i).
Proof.
  intros Hcap Hd Hf Hh Ha. destruct (inner_read _ _) as [p i] eqn:E.
  apply inner_read_ok in E as [Hd' Hp]; [|done..].
  unfold step_ok, inv, residual, skip, size; simpl. rewrite Hf, Hh, Ha.
  rewrite decide_False by lia. rewrite decide_False by lia. rewrite !drop_0.
  split; [by split|]. destruct p as [|k|bs]; [by destruct Hp as [-> ?]|done|].
  destruct Hp as (Hb & _ & Hnil & Hs). exists (script_bytes i). repeat split; [by rewrite Hb| |done].
  intros ->. by rewrite <- Hnil.
Qed.

Lemma poll_read_ok cap s p s' :
  (0 < cap)%nat → inv s → poll_read cap s = (p, s') → step_ok s p s'.
Proof.
  intros Hcap [Hd Hinv] E. unfold poll_read in E. rewrite decide_False in E by lia.
  destruct (failed s) as [k|] eqn:Hf.
  { injection E as <- <-. unfold step_ok, residual. rewrite Hf. repeat split; try done; congruence. }
  assert (∀ s1, Forall delivers (inner s1) → failed s1 = None → header_done s1 = true →
    residual s1 = residual s → (size s1 ≤ size s)%nat →
    match skip_addons (addons_remaining s1) s1 with
    | Return p => p
    | Done s => let (p, i) := inner_read cap (inner s) in (p, with_inner s i)
    end = (p, s') → step_ok s p s') as Hbody.
  { intros s1 Hd1 Hf1 Hh1 Hr1 Hs1 E1. pose proof (skip_addons_ok _ s1 Hd1 Hf1 Hh1 ltac:(done)) as H1.
    apply (step_ok_trans _ s1); [done..|].
    destruct (skip_addons _ s1) as [[p1 s2]|s2]; [by simplify_eq|].
    destruct H1 as (Hd2 & Hf2 & Hh2 & Ha2 & Hr2 & Hs2).
    apply (step_ok_trans _ s2); [done..|]. pose proof (payload_read_ok cap s2) as H2.
    destruct (inner_read _ _). injection E1 as <- <-. by apply H2. }
  destruct (header_done s) eqn:Hh; [by eapply (Hbody s)|].
  pose proof (Hinv eq_refl eq_refl) as Hok.
  pose proof (read_header_ok (length (header s) - header_read s) s Hok) as H1.
  rewrite (ho_length _ Hok) in *. specialize (H1 ltac:(lia)).
  destruct (read_header _ s) as [[p1 s1]|s1]; [by simplify_eq|].
  destruct H1 as (Hok1 & Hr1 & Hres1 & Hs1). eapply (Hbody (finish_header s1)); try done.
  - apply Hok1.
  - apply Hok1.
  - by rewrite finish_header_residual.
Qed.

(** ** A whole run *)

Lemma size_zero s pl : inv s → size s = 0%nat → residual s = Payload pl → pl = [].
Proof.
  intros [_ Hinv] Hz. unfold size, script_size in Hz. destruct (inner s) eqn:Ei; [|simpl in Hz; lia].
  unfold residual, skip in *. destruct (failed s); [done|]. rewrite Ei. simpl.
  destruct (header_done s); [case_decide; [done|]; rewrite drop_nil; congruence|].
  destruct (Hinv eq_refl eq_refl) as [_ Hl _ _ _ _]. rewrite app_nil_r.
  destruct (header s) as [|h0 [|h1 []]]; try done.
  destruct (header_read s) as [|[|[|]]]; simpl; unfold skip; repeat case_decide; try done;
    rewrite ?drop_nil; congruence.
Qed.

Lemma drive_payload caps s pl :
  Forall (λ c, 0 < c)%nat caps → inv s → residual s = Payload pl →
  errors (drive caps s) = [] ∧ (∃ rest, pl = received (drive caps s) ++ rest) ∧
  ((size s ≤ length caps)%nat → received (drive caps s) = pl).
Proof.
  intros Hc. revert s pl. induction Hc as [|cap caps Hcap _ IH]; intros s pl Hi Hr; simpl.
  { repeat split; [by exists pl|]. intros Hz. symmetry. apply (size_zero s); [done|lia|done]. }
  destruct (poll_read cap s) as [p s'] eqn:E. apply poll_read_ok in E as [Hi' Hp]; [|done..].
  unfold errors, received in *. simpl. destruct p as [|k|bs]; simpl.
  - destruct Hp as [Hr' Hs]. rewrite Hr in Hr'. destruct (IH s' pl Hi' Hr') as (? & ? & Hl).
    repeat split; try done. intros. apply Hl. lia.
  - by rewrite Hr in Hp; destruct Hp.
  - destruct Hp as (pl' & Hr1 & Hr' & Hnil & Hs). rewrite Hr in Hr1. injection Hr1 as ->.
    destruct (IH s' pl' Hi' Hr') as (He & (rest & Hrest) & Hl). repeat split; [done| |].
    + exists rest. rewrite Hrest at 1. by rewrite (assoc_L (++)).
    + intros Hsz. f_equal. destruct bs as [|b bs]; [|apply Hl; specialize (Hs ltac:(done)); lia].
      specialize (Hnil eq_refl). subst pl'. symmetry in Hrest. apply app_eq_nil in Hrest as [Hz _]. exact Hz.
Qed.

Lemma drive_failed caps s k : Forall (λ c, 0 < c)%nat caps → failed s = Some k →
  drive caps s = replicate (length caps) (ReadyErr k).
Proof.
  intros Hc Hf. induction Hc as [|cap caps Hcap _ IH]; simpl; [done|].
  unfold poll_read. rewrite decide_False, Hf by lia. by rewrite IH.
Qed.

Lemma drive_reject caps s k :
  Forall (λ c, 0 < c)%nat caps → inv s → residual s = Reject k →
  ∃ n m, drive caps s = replicate n Pending ++ replicate m (ReadyErr k) ∧ (n ≤ size s)%nat ∧
    (n + m = length caps)%nat.
Proof.
  intros Hc. revert s. induction Hc as [|cap caps Hcap Hc IH]; intros s Hi Hr; simpl.
  { exists 0%nat, 0%nat. repeat split; simpl; lia. }
  destruct (poll_read cap s) as [p s'] eqn:E. apply poll_read_ok in E as [Hi' Hp]; [|done..].
  destruct p as [|k'|bs]; simpl.
  - destruct Hp as [Hr' Hs]. destruct (IH s' Hi' ltac:(congruence)) as (n & m & -> & ? & ?).
    exists (S n), m. repeat split; simpl; lia.
  - destruct Hp as [Hr1 Hf]. rewrite Hr in Hr1. injection Hr1 as <-.
    exists 0%nat, (S (length caps)). rewrite (drive_failed caps s' k) by done.
    repeat split; simpl; lia.
  - destruct Hp as (? & ? & _). congruence.
Qed.

Lemma new_inv script : Forall delivers script → inv (new script).
Proof. intros Hs. split; [done|]. intros _ _. split; simpl; try done; lia. Qed.

(** (C18) However the server's answer is cut into reads and delayed, and whatever
    buffers the caller reads into, polling the response stream yields what the
    answer as a whole means: the bytes behind the header and its addons, in
    order, nothing else and no error; or, for a wrong version or an answer that
    ends too soon, that error on every poll that has a result, and never a byte.
    Polling often enough yields all of it. *)
Theorem response_stream_refines (script : list Event) (caps : list nat) :
  Forall delivers script → Forall (λ c, 0 < c)%nat caps →
  let polls := drive caps (new script) in
  match response_spec (script_bytes script) with
  | Payload p => errors polls = [] ∧ (∃ rest, p = received polls ++ rest) ∧
      ((script_size script ≤ length caps)%nat → received polls = p)
  | Reject k => ∃ n m, polls = replicate n Pending ++ replicate m (ReadyErr k) ∧
      (n ≤ script_size script)%nat ∧ (n + m = length caps)%nat
  end.
Proof.
  intros Hs Hc polls. pose proof (new_inv script Hs) as Hi.
  destruct (response_spec (script_bytes script)) as [p|k] eqn:E.
  - by apply drive_payload.
  - by apply drive_reject.
Qed.

Definition demo_script : list Event :=
  [Data [Byte.x00]; Quiet; Data [Byte.x02; Byte.x61]; Quiet; Data [Byte.x62; Byte.x77; Byte.x78];
   Data [Byte.x79]].

Lemma response_stream_refines_witness :
  received (drive (replicate 16 2%nat) (new demo_script)) = [Byte.x77; Byte.x78; Byte.x79].
Proof.
  apply (response_stream_refines demo_script (replicate 16 2%nat)); [| |vm_compute; lia].
  - repeat constructor; done.
  - apply Forall_replicate; lia.
Defined.

End Vless.
