(* ===== verification/Gateway.v ===== *)
(** * The server's VLESS and SSH gateways

    [server/src/vless.rs] and [server/src/ssh.rs]: the two front ends that
    authenticate a tunnel and forward it to one of the three RustDesk services;
    with [hbb_common/src/ssh.rs], the SSH side of the client. *)
From S2P Require Import Prelude RustStd Net NetText TransportConfig Reality Vless.
From Stdlib Require Import Ascii.
Import TransportConfig.

Module Gateway.

Inductive error : Type :=
| Eof | InvalidCredential | UnsupportedCommand | UnsupportedAddressType
| PortNotPermitted | TlsHandshake | HeaderTimeout | UpstreamConnect | ReplyFailed
| BadUuid | Missing (name : string) | NotAnInteger (name : string) | NotPositive (name : string)
| BadBuiltinKey.

(** The services behind a gateway. *)
Record Upstreams : Type := mkUpstreams {
  hbbs : string;
  nat_ : string;
  hbbr : string;
}.

(** The port match of [handle] and of [channel_open_direct_tcpip]. *)
Definition select_upstream (u : Upstreams) (port : Z) : option string :=
  if port =? 21116 then Some (hbbs u)
  else if port =? 21115 then Some (nat_ u)
  else if (port =? 21117) || (port =? 8443) || (port =? 443) then Some (hbbr u)
  else None.

(** ** Configuration from the environment *)
Section Env.
Context (env : string → option string).

Definition value (name dflt : string) : string := default dflt (env name).

Definition required (name : string) : result string error :=
  let v := value name "" in
  if is_empty v then Err (Missing name) else Ok v.

(** Whole seconds. *)
Definition duration_from_env (name dflt : string) : result Z error :=
  match parse_u64 (value name dflt) with
  | None => Err (NotAnInteger name)
  | Some seconds => if seconds =? 0 then Err (NotPositive name) else Ok seconds
  end.

Definition positive_usize (name dflt : string) : result Z error :=
  match parse_usize (value name dflt) with
  | None => Err (NotAnInteger name)
  | Some parsed => if parsed =? 0 then Err (NotPositive name) else Ok parsed
  end.

Record Config : Type := mkConfig {
  listen : string;
  uuid : array 16;
  cert : string;
  key : string;
  upstreams : Upstreams;
  tls_handshake_timeout : Z;
  header_timeout : Z;
  upstream_connect_timeout : Z;
  max_connections : Z;
}.

Definition vless_from_env (uuid_parse : string → option (array 16)) : result Config error :=
  let l := value "VLESS_LISTEN" "0.0.0.0:443" in
  let? id := match uuid_parse (value "VLESS_UUID" "") with Some u => Ok u | None => Err BadUuid end in
  let? c := required "VLESS_CERT" in
  let? k := required "VLESS_KEY" in
  let u := mkUpstreams (value "VLESS_HBBS" "127.0.0.1:21116") (value "VLESS_NAT" "127.0.0.1:21115")
                       (value "VLESS_HBBR" "127.0.0.1:21117") in
  let? tls := duration_from_env "VLESS_TLS_HANDSHAKE_TIMEOUT_SECS" "10" in
  let? hdr := duration_from_env "VLESS_HEADER_TIMEOUT_SECS" "10" in
  let? up := duration_from_env "VLESS_UPSTREAM_CONNECT_TIMEOUT_SECS" "5" in
  let? mx := positive_usize "VLESS_MAX_CONNECTIONS" "1024" in
  Ok (mkConfig l id c k u tls hdr up mx).
End Env.

(** ** The VLESS request *)

(** [read_exact]: [n] bytes, or the end of the stream. *)
Definition read_exact (n : nat) (s : list byte) : result (list byte * list byte) error :=
  if decide (n ≤ length s)%nat then Ok (take n s, drop n s) else Err Eof.

Definition at_ (l : list byte) (i : nat) : Z := b2z (nth i l Byte.x00).

Definition read_address_len (ty : Z) (s : list byte) : result (nat * list byte) error :=
  if ty =? 1 then Ok (4%nat, s)
  else if ty =? 2 then
    let? r := read_exact 1 s in Ok (Z.to_nat (at_ r.1 0), r.2)
  else if ty =? 3 then Ok (16%nat, s)
  else Err UnsupportedAddressType.

(** The port asked for and what follows the request on the stream. *)
Definition read_request (expected_uuid : array 16) (s : list byte) : result (Z * list byte) error :=
  let? (header, s) := read_exact 18 s in
  if negb (at_ header 0 =? 0) || negb (bool_decide (take 16 (drop 1 header) = octets expected_uuid))
  then Err InvalidCredential
  else
    let? (_, s) := read_exact (Z.to_nat (at_ header 17)) s in
    let? (command, s) := read_exact 3 s in
    if negb (at_ command 0 =? 1) then Err UnsupportedCommand
    else
      let? (address_type, s) := read_exact 1 s in
      let? (address_len, s) := read_address_len (at_ address_type 0) s in
      let? (_, s) := read_exact address_len s in
      Ok (from_be_bytes (drop 1 command), s).

(** What a connection meets: the TLS handshake and the header within their
    timeouts, the upstream, the write of the reply. *)
Record Peer : Type := mkPeer {
  tls_accept : bool;
  header_in_time : bool;
  upstream_connect : string → bool;
  reply_ok : bool;
}.

(** An established tunnel: where it goes, what the client is answered first and
    the bytes of the client already read that go to the upstream. *)
Record Tunnel : Type := mkTunnel {
  t_port : Z;
  t_upstream : string;
  t_reply : list byte;
  t_forward : list byte;
}.

Definition handle (config : Config) (peer : Peer) (incoming : list byte) : result Tunnel error :=
  if negb (tls_accept peer) then Err TlsHandshake
  else if negb (header_in_time peer) then Err HeaderTimeout
  else
    let? (port, rest) := read_request (uuid config) incoming in
    match select_upstream (upstreams config) port with
    | None => Err PortNotPermitted
    | Some upstream =>
        if negb (upstream_connect peer upstream) then Err UpstreamConnect
        else if negb (reply_ok peer) then Err ReplyFailed
        else Ok (mkTunnel port upstream [z2b 0; z2b 0] rest)
    end.

(** ** The accept loop of [main]

    A connection holds a permit of the semaphore from its acceptance to the end
    of its task. *)
Record Listener : Type := mkListener {
  permits : Z;
  active : gset Z;
  next_conn : Z;
}.

Inductive Accept : Type := Accepted (conn : Z) | Rejected.

Definition listen_start (config : Config) : Listener := mkListener (max_connections config) ∅ 0.

Definition accept (l : Listener) : Accept * Listener :=
  if 0 <? permits l
  then (Accepted (next_conn l),
        mkListener (permits l - 1) ({[next_conn l]} ∪ active l) (next_conn l + 1))
  else (Rejected, l).

(** The task of [conn] ends, whatever [handle] returned, and drops its permit. *)
Definition finish (l : Listener) (conn : Z) : Listener :=
  if bool_decide (conn ∈ active l)
  then mkListener (permits l + 1) (active l ∖ {[conn]}) (next_conn l)
  else l.

Inductive listener_step : Listener → Listener → Prop :=
| step_accept l : listener_step l (accept l).2
| step_finish l conn : conn ∈ active l → listener_step l (finish l conn).

(** ** The SSH gateway *)

(** [str::lines]: pieces between line feeds, a trailing empty piece dropped and a
    carriage return before the line feed removed. *)
Definition LF : ascii := ascii_of_N 10.
Definition CR : ascii := ascii_of_N 13.

Definition strip_cr (s : string) : string :=
  match str_rev s with
  | String c r => if bool_decide (c = CR) then str_rev r else s
  | "" => s
  end.

(** The last piece, when it is not empty, is a line without a terminator, from
    which no carriage return is removed. *)
Fixpoint lines_of (pieces : list string) : list string :=
  match pieces with
  | [] => []
  | [last] => if is_empty last then [] else [last]
  | p :: pieces => strip_cr p :: lines_of pieces
  end.

Definition lines (s : string) : list string := lines_of (split LF s).

Section Ssh.
Context {PublicKey KeyData : Type} `{EqDecision KeyData}.
Context (from_openssh : string → option PublicKey) (key_data : PublicKey → KeyData).

Record SshConfig : Type := mkSshConfig {
  ssh_upstreams : Upstreams;
  authorized_keys : list PublicKey;
}.

(** A line of the authorized keys file: blank, a comment, a key or unreadable. *)
Definition authorized_line (line : string) : option PublicKey :=
  let line := trim line in
  if is_empty line || starts_with "#" line then None else from_openssh line.

Definition ssh_from_env (env : string → option string) (read_to_string : string → option string)
    (BUILTIN_AUTH_PUBLIC_KEY : string) : result SshConfig error :=
  match from_openssh BUILTIN_AUTH_PUBLIC_KEY with
  | None => Err BadBuiltinKey
  | Some builtin =>
      let extra :=
        match env "SSH_AUTHORIZED_KEYS" with
        | Some path =>
            if is_empty path then []
            else match read_to_string path with
                 | Some content => omap authorized_line (lines content)
                 | None => []
                 end
        | None => []
        end in
      Ok (mkSshConfig
            (mkUpstreams (value env "SSH_HBBS" "127.0.0.1:22116") (value env "SSH_NAT" "127.0.0.1:22115")
                         (value env "SSH_HBBR" "127.0.0.1:22117"))
            (builtin :: extra))
  end.

Definition auth_publickey (config : SshConfig) (key : PublicKey) : bool :=
  existsb (λ k, bool_decide (key_data k = key_data key)) (authorized_keys config).

Inductive ChannelReply : Type :=
| AdministrativelyProhibited
| ConnectFailed
| Forwarded (upstream : string).

Definition channel_open_direct_tcpip (config : SshConfig) (upstream_connect : string → bool)
    (port_to_connect : Z) : ChannelReply :=
  match select_upstream (ssh_upstreams config) port_to_connect with
  | None => AdministrativelyProhibited
  | Some upstream => if upstream_connect upstream then Forwarded upstream else ConnectFailed
  end.

(** *** The client's side, [hbb_common/src/ssh.rs] *)
Inductive ssh_error : Type :=
| SshTcp | SshPrivateKey | SshNegotiate | SshAuth | SshTarget (e : Vless.error) | SshChannel.

(** [split_target] of ssh.rs is that of vless.rs but for its messages. *)
Definition ssh_split_target (target : string) : result (string * Z) ssh_error :=
  match Vless.split_target target with Ok r => Ok r | Err e => Err (SshTarget e) end.

Record SshPeer : Type := mkSshPeer {
  sp_tcp : string → bool;
  sp_negotiate : bool;
  sp_authenticate : string → PublicKey → bool;
  sp_channel : string → Z → bool;
}.

(** The key pair's public part is what [authenticate_publickey] presents. *)
Definition ssh_connect (private_key : string → option PublicKey) (peer : SshPeer) (target : string)
    (config : SshServer) : result (string * Z) ssh_error :=
  if negb (sp_tcp peer (s_server config +s+ ":" +s+ int_to_string (s_port config))) then Err SshTcp
  else
    match private_key (s_private_key config) with
    | None => Err SshPrivateKey
    | Some k =>
        if negb (sp_negotiate peer) then Err SshNegotiate
        else if negb (sp_authenticate peer (s_username config) k) then Err SshAuth
        else
          let? (host, port) := ssh_split_target target in
          if sp_channel peer host port then Ok (host, port) else Err SshChannel
    end.
End Ssh.

(** ** The request, both ways *)

Lemma read_exact_app n l s : length l = n → read_exact n (l ++ s) = Ok (l, s).
Proof.
  intros <-. unfold read_exact. rewrite decide_True by (rewrite length_app; lia).
  by rewrite take_app_length, drop_app_length.
Qed.

Lemma read_exact_ok n s l r : read_exact n s = Ok (l, r) → s = l ++ r ∧ length l = n.
Proof.
  unfold read_exact. case_decide; [|done]. intros [= <- <-].
  rewrite take_drop, length_take. split; [done|lia].
Qed.

Lemma be16_range l : length l = 2%nat → 0 ≤ from_be_bytes l < 65536.
Proof.
  intros Hl. unfold from_be_bytes. pose proof (from_le_bytes_range (reverse l)) as H.
  unfold len in H. rewrite length_reverse, Hl in H. exact H.
Qed.

(** The address part of a request: a type, a length for a name, the address. *)
Inductive address_wf : list byte → Prop :=
| addr_v4 a : length a = 4%nat → address_wf (z2b 1 :: a)
| addr_name a : (length a < 256)%nat → address_wf (z2b 2 :: z2b (len a) :: a)
| addr_v6 a : length a = 16%nat → address_wf (z2b 3 :: a).

Lemma address_bytes_wf host a : Vless.address_bytes host = Ok a → address_wf a.
Proof.
  unfold Vless.address_bytes. destruct (parse_ip host) as [[ip|ip]|].
  - intros [= <-]. constructor. apply length_octets.
  - intros [= <-]. constructor. apply length_octets.
  - case_match eqn:E; [done|]. intros [= <-]. constructor.
    apply Z.ltb_ge in E. unfold u8_max, len in E. lia.
Qed.

(** Reading the address part consumes exactly it. *)
Lemma read_address a rest : address_wf a →
  ∃ ty l more, a = ty :: more ∧
    read_address_len (b2z ty) (more ++ rest) = Ok (l, drop (length more - l) (more ++ rest)) ∧
    read_exact l (drop (length more - l) (more ++ rest)) =
      Ok (drop (length more - l) more, rest).
Proof.
  intros [a0 Ha|a0 Ha|a0 Ha].
  - exists (z2b 1), 4%nat, a0. rewrite Ha, !drop_0. repeat split; try by apply read_exact_app.
  - exists (z2b 2), (length a0), (z2b (len a0) :: a0). split; [done|].
    replace (length (z2b (len a0) :: a0) - length a0)%nat with 1%nat by (simpl; lia).
    simpl drop. rewrite drop_0. split; [|by apply read_exact_app].
    unfold read_address_len. change (b2z (z2b 2)) with 2. cbn [Z.eqb Pos.eqb app].
    change (z2b (len a0) :: a0 ++ rest) with ([z2b (len a0)] ++ (a0 ++ rest)).
    rewrite read_exact_app by done. simpl. unfold at_; simpl.
    rewrite b2z_z2b_small by (unfold len; lia). unfold len. by rewrite Nat2Z.id.
  - exists (z2b 3), 16%nat, a0. rewrite Ha, !drop_0. repeat split; try by apply read_exact_app.
Qed.

(** Any addons are skipped: the general form of a valid request. *)
Definition request (u : array 16) (addons port address : list byte) : list byte :=
  z2b 0 :: octets u ++ z2b (len addons) :: addons ++ z2b 1 :: port ++ address.

Lemma read_request_complete u addons port address rest :
  (length addons < 256)%nat → length port = 2%nat → address_wf address →
  read_request u (request u addons port address ++ rest) = Ok (from_be_bytes port, rest).
Proof.
  intros Ha Hp Hw. unfold read_request, request.
  pose proof (length_octets u) as Hu.
  replace (_ ++ rest) with
    ((z2b 0 :: octets u ++ [z2b (len addons)]) ++ addons ++ (z2b 1 :: port) ++ address ++ rest)
    by (simpl; repeat (rewrite <- (assoc_L (++)); simpl); done).
  rewrite read_exact_app by (simpl; rewrite length_app, Hu; simpl; lia). cbn [result_bind].
  assert (at_ (z2b 0 :: octets u ++ [z2b (len addons)]) 17 = len addons) as ->.
  { unfold at_. simpl. rewrite app_nth2 by lia. rewrite Hu. simpl.
    apply b2z_z2b_small. unfold len. lia. }
  assert (take 16 (drop 1 (z2b 0 :: octets u ++ [z2b (len addons)])) = octets u) as ->.
  { simpl. rewrite drop_0. by rewrite take_app_length' by done. }
  rewrite bool_decide_eq_true_2 by done. change (at_ (z2b 0 :: _) 0) with 0.
  cbn [negb orb Z.eqb]. unfold len. rewrite Nat2Z.id. rewrite read_exact_app by done.
  cbn [result_bind]. rewrite read_exact_app by (simpl; lia). cbn [result_bind].
  change (at_ (z2b 1 :: port) 0) with 1. cbn [negb Z.eqb Pos.eqb].
  destruct (read_address address rest Hw) as (ty & l & more & -> & H1 & H2).
  change ((ty :: more) ++ rest) with ([ty] ++ (more ++ rest)).
  rewrite read_exact_app by done. cbn [result_bind]. change (at_ [ty] 0) with (b2z ty).
  rewrite H1. cbn [result_bind]. rewrite H2. cbn [result_bind]. simpl drop. by rewrite drop_0.
Qed.

Lemma read_address_sound ty s l r b rest :
  read_address_len (b2z ty) s = Ok (l, r) → read_exact l r = Ok (b, rest) →
  ∃ address, ty :: s = address ++ rest ∧ address_wf address.
Proof.
  unfold read_address_len. intros H1 H2.
  assert (∀ z, 0 ≤ z < 256 → b2z ty = z → ty = z2b z) as Hty
    by (intros z Hz <-; by rewrite z2b_b2z).
  destruct (Z.eqb_spec (b2z ty) 1) as [E|_]; [|destruct (Z.eqb_spec (b2z ty) 2) as [E|_];
    [|destruct (Z.eqb_spec (b2z ty) 3) as [E|_]; [|done]]].
  - injection H1 as <- <-. apply read_exact_ok in H2 as [-> Hl]. exists (ty :: b).
    split; [done|]. rewrite (Hty 1) by lia. by constructor.
  - apply result_bind_ok in H1 as ([l1 r1] & H1 & [= <- <-]).
    apply read_exact_ok in H1 as [-> Hl1], H2 as [-> Hl]. simpl in *.
    destruct l1 as [|x []]; try done. exists (ty :: x :: b). split; [done|].
    rewrite (Hty 2) by lia. unfold at_ in Hl. simpl in Hl. pose proof (b2z_range x).
    rewrite <- (z2b_b2z x). replace (b2z x) with (len b) by (unfold len; lia).
    constructor. lia.
  - injection H1 as <- <-. apply read_exact_ok in H2 as [-> Hl]. exists (ty :: b).
    split; [done|]. rewrite (Hty 3) by lia. by constructor.
Qed.

Lemma header_shape header (u : array 16) : length header = 18%nat →
  at_ header 0 = 0 → take 16 (drop 1 header) = octets u →
  ∃ n, header = z2b 0 :: octets u ++ [n] ∧ at_ header 17 = b2z n.
Proof.
  intros Hl H0 Hu. destruct header as [|h0 h]; [done|]. unfold at_ in *. simpl in *.
  exists (nth 16 h Byte.x00). split; [|done]. rewrite drop_0 in Hu. rewrite <- Hu.
  f_equal; [by rewrite <- H0, z2b_b2z|].
  assert (drop 16 h = [nth 16 h Byte.x00]) as Hd.
  { do 17 (destruct h as [|? h]; [done|]). by destruct h. }
  by rewrite <- Hd, take_drop.
Qed.

Lemma read_request_sound u s p rest : read_request u s = Ok (p, rest) →
  ∃ addons port address, s = request u addons port address ++ rest ∧
    (length addons < 256)%nat ∧ length port = 2%nat ∧ address_wf address ∧ p = from_be_bytes port.
Proof.
  unfold read_request. intros ([header s1] & E1 & H)%result_bind_ok.
  destruct (negb (at_ header 0 =? 0) || _) eqn:Eh; [done|].
  apply orb_false_elim in Eh as [H0%negb_false_iff%Z.eqb_eq Hu%negb_false_iff%bool_decide_eq_true].
  apply result_bind_ok in H as ([addons s2] & E2 & H).
  apply result_bind_ok in H as ([command s3] & E3 & H).
  destruct (negb (at_ command 0 =? 1)) eqn:Ec; [done|]. apply negb_false_iff, Z.eqb_eq in Ec.
  apply result_bind_ok in H as ([aty s4] & E4 & H).
  apply result_bind_ok in H as ([l s5] & E5 & H).
  apply result_bind_ok in H as ([b s6] & E6 & [= <- <-]).
  apply read_exact_ok in E1 as [-> L1], E2 as [-> L2], E3 as [-> L3], E4 as [-> L4].
  destruct (header_shape header u L1 H0 Hu) as (n & -> & Hn).
  destruct aty as [|ty []]; try done. destruct command as [|c0 port]; [done|].
  destruct (read_address_sound _ _ _ _ _ _ E5 E6) as (address & Ea & Hw).
  pose proof (b2z_range n). rewrite Hn in L2. exists addons, port, address.
  split; [|simpl in L3; repeat split; try done; lia].
  unfold at_ in Ec; simpl in Ec. unfold request.
  replace (len addons) with (b2z n) by (unfold len; lia). rewrite z2b_b2z, <- Ec, z2b_b2z.
  simpl in *. repeat (rewrite <- (assoc_L (++)); simpl). by rewrite Ea.
Qed.

(** The gateway accepts exactly the byte streams that begin with a VLESS TCP
    request under its own uuid, with any addons and an address of one of the
    three kinds; it reports the port the request names and leaves every byte
    behind the request for the upstream. *)
Theorem read_request_spec (u : array 16) (s : list byte) (p : Z) (rest : list byte) :
  read_request u s = Ok (p, rest) ↔
  ∃ addons port address, s = request u addons port address ++ rest ∧
    (length addons < 256)%nat ∧ length port = 2%nat ∧ address_wf address ∧ p = from_be_bytes port.
Proof.
  split; [apply read_request_sound|]. intros (addons & port & address & -> & ? & ? & ? & ->).
  by apply read_request_complete.
Qed.

(** What the client writes is such a request. *)
Lemma request_bytes_request u host p req : 0 ≤ p < 65536 →
  Vless.request_bytes u host p = Ok req →
  ∃ port address, req = request u [] port address ∧ length port = 2%nat ∧ address_wf address ∧
    p = from_be_bytes port.
Proof.
  intros Hp (a & Ha & [= <-])%result_bind_ok. exists (to_be_bytes 2 p), a.
  split; [done|]. split; [apply length_to_be_bytes|]. split; [by eapply address_bytes_wf|].
  symmetry. by apply from_to_be_bytes_small.
Qed.

Lemma select_upstream_range u p x : select_upstream u p = Some x → 0 ≤ p < 65536.
Proof. unfold select_upstream. repeat case_match; intros; try done; lia. Qed.

(** (C37) End to end over TLS: when a client with the gateway's uuid connects to a
    target whose port is served, the gateway dials the service of that port,
    hands it exactly the bytes the client sends after its request, and the
    client's response stream returns exactly the service's answer, however the
    answer is cut into reads. *)
Theorem vless_tunnel_end_to_end uuid_parse cpeer target cconf req stream host port
    sconf speer up payload answer caps :
  uuid_parse (v_uuid cconf) = Some (uuid sconf) →
  Vless.connect_tls uuid_parse cpeer target cconf = Ok (req, stream) →
  Vless.split_target target = Ok (host, port) →
  select_upstream (upstreams sconf) port = Some up →
  tls_accept speer = true → header_in_time speer = true → upstream_connect speer up = true →
  reply_ok speer = true →
  Forall Vless.delivers (Vless.incoming cpeer) → Forall (λ c, 0 < c)%nat caps →
  (Vless.script_size (Vless.incoming cpeer) ≤ length caps)%nat →
  ∃ t, handle sconf speer (req ++ payload) = Ok t ∧ t_upstream t = up ∧ t_forward t = payload ∧
    (Vless.script_bytes (Vless.incoming cpeer) = t_reply t ++ answer →
     Vless.received (Vless.drive caps stream) = answer).
Proof.
  intros Hu Hc Ht Hup H1 H2 H3 H4 Hd Hcaps Hsz.
  assert (Vless.request_bytes (uuid sconf) host port = Ok req ∧ stream = Vless.new (Vless.incoming cpeer))
    as [Hreq ->].
  { revert Hc. unfold Vless.connect_tls. repeat (destruct (negb _); [done|]).
    rewrite Ht. cbn [result_bind]. rewrite Hu.
    intros (r & Hr & Hw)%result_bind_ok. destruct (Vless.write_all cpeer r); [|done].
    by injection Hw as <- <-. }
  destruct (request_bytes_request _ _ _ _ (select_upstream_range _ _ _ Hup) Hreq)
    as (pb & ab & -> & Hl & Hw & ->).
  exists (mkTunnel (from_be_bytes pb) up [z2b 0; z2b 0] payload). split.
  { unfold handle. rewrite H1, H2. cbn [negb]. rewrite read_request_complete by (simpl; lia || done).
    cbn [result_bind]. by rewrite Hup, H3, H4. }
  repeat split. simpl. intros Hs.
  assert (Vless.residual (Vless.new (Vless.incoming cpeer)) = Vless.Payload answer) as Hres.
  { unfold Vless.residual; simpl. by rewrite Hs. }
  eapply Vless.drive_payload in Hres as (_ & _ & Hall); [by apply Hall|done|by apply Vless.new_inv].
Qed.

(** ** Routing *)

Definition internal_upstreams : Upstreams :=
  mkUpstreams "127.0.0.1:22116" "127.0.0.1:22115" "127.0.0.1:22117".

(** The three ways into the server agree: for every port, a gateway in front
    of the internal listeners forwards to exactly the address the Reality client
    asks its sidecar for, and refuses exactly the ports it refuses; an SSH
    gateway with nothing set in its environment is such a gateway. *)
Theorem gateways_route_alike {K : Type} (from_openssh : string → option K)
    (builtin : string) (env : string → option string) (port : Z) (cfg : @SshConfig K) :
  (∀ name, env name = None) → ssh_from_env from_openssh env (λ _, None) builtin = Ok cfg →
  select_upstream internal_upstreams port =
    (λ p, "127.0.0.1:" +s+ uint_to_string p) <$> Reality.restricted_port port ∧
  ∀ up, channel_open_direct_tcpip cfg up port =
    match Reality.restricted_port port with
    | None => AdministrativelyProhibited
    | Some p => let a := "127.0.0.1:" +s+ uint_to_string p in
                if up a then Forwarded a else ConnectFailed
    end.
Proof.
  intros Henv Hc.
  assert (ssh_upstreams cfg = internal_upstreams) as Hu.
  { revert Hc. unfold ssh_from_env, value. rewrite !Henv. simpl.
    destruct (from_openssh builtin); [|done]. by intros [= <-]. }
  assert (select_upstream internal_upstreams port =
    (λ p, "127.0.0.1:" +s+ uint_to_string p) <$> Reality.restricted_port port) as Hs.
  { unfold select_upstream, Reality.restricted_port. bool_cases; subst; try done; lia. }
  split; [done|]. intros up. unfold channel_open_direct_tcpip. rewrite Hu, Hs.
  by destruct (Reality.restricted_port port).
Qed.

(** With its own defaults the VLESS gateway forwards to other listeners than the
    SSH gateway: the public ones. *)
Example vless_default_upstreams :
  match vless_from_env (λ n, if n ==s "VLESS_CERT" then Some "c" else
                             if n ==s "VLESS_KEY" then Some "k" else None)
          (λ _, Some unspecified6) with
  | Ok c => select_upstream (upstreams c) 21117 = Some "127.0.0.1:21117" ∧
            select_upstream internal_upstreams 21117 = Some "127.0.0.1:22117"
  | Err _ => False
  end.
Proof. by vm_compute. Qed.

(** ** The connection limit *)

Record listener_inv (mx : Z) (l : Listener) : Prop := mkListenerInv {
  li_count : permits l + Z.of_nat (size (active l)) = mx;
  li_permits : 0 ≤ permits l;
  li_fresh : ∀ c, c ∈ active l → c < next_conn l;
}.

Lemma listener_step_inv mx l l' : listener_step l l' → listener_inv mx l → listener_inv mx l'.
Proof.
  intros Hs [Hc Hp Hf]. destruct Hs as [l|l conn Hin].
  - unfold accept. destruct (Z.ltb_spec 0 (permits l)); simpl; [|done].
    assert (next_conn l ∉ active l) by (intros ?%Hf; lia).
    split; simpl; [rewrite size_union, size_singleton by set_solver; lia|lia|].
    intros c [->%elem_of_singleton|?%Hf]%elem_of_union; lia.
  - unfold finish. rewrite bool_decide_eq_true_2 by done.
    assert (size (active l) ≠ 0%nat) by (intros ?%size_empty_inv; set_solver).
    split; simpl; [|lia|].
    + rewrite size_difference, size_singleton by set_solver. lia.
    + intros c [? _]%elem_of_difference. by apply Hf.
Qed.

(** Whatever the order in which connections arrive and end, at most
    [max_connections] are served at a time, and one that arrives is turned away
    exactly when that many are being served. *)
Theorem connection_limit (config : Config) (l : Listener) :
  0 < max_connections config → rtc listener_step (listen_start config) l →
  Z.of_nat (size (active l)) ≤ max_connections config ∧
  ((accept l).1 = Rejected ↔ Z.of_nat (size (active l)) = max_connections config).
Proof.
  intros Hmx Hr.
  assert (listener_inv (max_connections config) l) as [Hc Hp _].
  { assert (listener_inv (max_connections config) (listen_start config)) as H0.
    { split; cbn [listen_start permits active next_conn]; [rewrite size_empty; lia|lia|set_solver]. }
    revert H0. induction Hr as [|l1 l2 l3 H1 _ IH]; [done|]. eauto using listener_step_inv. }
  split; [lia|]. unfold accept. destruct (Z.ltb_spec 0 (permits l)); simpl; split; intros ?;
    first [done|lia|exfalso; lia].
Qed.

(** The limit read from the environment is positive. *)
Lemma vless_from_env_positive env uuid_parse c :
  vless_from_env env uuid_parse = Ok c →
  0 < max_connections c ∧ 0 < tls_handshake_timeout c ∧ 0 < header_timeout c ∧
  0 < upstream_connect_timeout c.
Proof.
  assert (∀ n d z, duration_from_env env n d = Ok z → 0 < z) as Hd.
  { intros n d z. unfold duration_from_env. destruct (parse_u64 _) as [v|] eqn:E; [|done].
    apply parse_uint_nonneg in E. destruct (Z.eqb_spec v 0); [done|]. intros [= <-]. lia. }
  assert (∀ n d z, positive_usize env n d = Ok z → 0 < z) as Hu.
  { intros n d z. unfold positive_usize. destruct (parse_usize _) as [v|] eqn:E; [|done].
    apply parse_uint_nonneg in E. destruct (Z.eqb_spec v 0); [done|]. intros [= <-]. lia. }
  unfold vless_from_env. intros H. inv_result. subst. simpl. repeat split; eauto.
Qed.

(** ** SSH authentication *)

(** The SSH gateway accepts a public key exactly when its key data is that
    of the built-in key or of a key that a line of the authorized keys file
    holds; blank lines, comments and unreadable lines authorise nothing. *)
Theorem ssh_auth_spec {K D : Type} `{EqDecision D} (from_openssh : string → option K)
    (key_data : K → D) env read_to_string builtin cfg key :
  ssh_from_env from_openssh env read_to_string builtin = Ok cfg →
  (auth_publickey key_data cfg key = true ↔
   ∃ k, key_data k = key_data key ∧
     (from_openssh builtin = Some k ∨
      ∃ path content line, env "SSH_AUTHORIZED_KEYS" = Some path ∧ path ≠ "" ∧
        read_to_string path = Some content ∧ line ∈ lines content ∧ trim line ≠ "" ∧
        starts_with "#" (trim line) = false ∧ from_openssh (trim line) = Some k)).
Proof.
  unfold ssh_from_env. destruct (from_openssh builtin) as [b|] eqn:Eb; [|done]. intros [= <-].
  unfold auth_publickey. simpl authorized_keys. rewrite existsb_exists.
  assert (∀ k line, authorized_line from_openssh line = Some k ↔
    trim line ≠ "" ∧ starts_with "#" (trim line) = false ∧ from_openssh (trim line) = Some k) as Hline.
  { intros k line. unfold authorized_line. rewrite <- is_empty_false.
    destruct (is_empty (trim line)), (starts_with "#" (trim line)); simpl; naive_solver. }
  split.
  - intros (k & Hin & Hk%bool_decide_eq_true). exists k. split; [done|].
    destruct Hin as [<-|Hin]; [by left|right].
    destruct (env "SSH_AUTHORIZED_KEYS") as [path|]; [|done].
    destruct (is_empty path) eqn:Ep; [done|]. apply is_empty_false in Ep.
    destruct (read_to_string path) as [content|] eqn:Ec; [|done].
    apply list_elem_of_In, list_elem_of_omap in Hin as (line & Hl & Ha).
    apply Hline in Ha. naive_solver.
  - intros (k & Hk & Hor). exists k. split; [|by apply bool_decide_eq_true].
    destruct Hor as [[= ->]|(path & content & line & -> & Hp & Hr & Hl & Ha)]; [by left|right].
    apply is_empty_false in Hp. rewrite Hp, Hr. apply list_elem_of_In, list_elem_of_omap.
    exists line. split; [done|]. by apply Hline.
Qed.

(** ** Concrete runs *)

Definition demo_uuid (s : string) : option (array 16) :=
  if str_len s =? 36 then Some (to_array 16 (z2b <$> seqZ 1 16)) else None.
Definition demo_gateway : Config :=
  mkConfig "0.0.0.0:443" (to_array 16 (z2b <$> seqZ 1 16)) "c" "k" internal_upstreams 10 10 5 2.
Definition demo_server_peer : Peer := mkPeer true true (λ _, true) true.
Definition demo_client_peer : Vless.Peer :=
  Vless.mkPeer (λ _, true) (λ _, true) (λ _, true) (λ _, true)
    [Vless.Data [z2b 0]; Vless.Quiet; Vless.Data [z2b 0; z2b 104]; Vless.Data [z2b 105]].
Definition demo_stream : Vless.VlessResponseStream := Vless.new (Vless.incoming demo_client_peer).
Definition demo_request : list byte :=
  match Vless.connect_tls demo_uuid demo_client_peer "relay.example:21117" demo_vless with
  | Ok (r, _) => r | Err _ => [] end.

Lemma vless_tunnel_end_to_end_witness :
  ∃ t, handle demo_gateway demo_server_peer (demo_request ++ [z2b 7]) = Ok t ∧
    t_upstream t = "127.0.0.1:22117" ∧ t_forward t = [z2b 7] ∧
    Vless.received (Vless.drive (replicate 10 1%nat) demo_stream) = [z2b 104; z2b 105].
Proof.
  destruct (vless_tunnel_end_to_end demo_uuid demo_client_peer "relay.example:21117" demo_vless
    demo_request demo_stream "relay.example" 21117 demo_gateway demo_server_peer
    "127.0.0.1:22117" [z2b 7] [z2b 104; z2b 105] (replicate 10 1%nat))
    as (t & Ht & Hu & Hf & Hr); try by vm_compute.
  - repeat constructor; done.
  - apply Forall_replicate; lia.
  - vm_compute. lia.
  - exists t. split; [done|]. split; [done|]. split; [done|]. apply Hr.
    vm_compute in Ht. injection Ht as <-. by vm_compute.
Defined.

Definition demo_ssh_config : @SshConfig string := mkSshConfig internal_upstreams ["K"].

Lemma gateways_route_alike_witness :
  select_upstream internal_upstreams 443 = Some "127.0.0.1:22117" ∧
  channel_open_direct_tcpip demo_ssh_config (λ _, true) 22 = AdministrativelyProhibited.
Proof.
  destruct (gateways_route_alike (λ s, Some s) "K" (λ _, None) 443 demo_ssh_config) as [-> _];
    [done..|].
  split; [by vm_compute|].
  destruct (gateways_route_alike (λ s, Some s) "K" (λ _, None) 22 demo_ssh_config) as [_ ->]; done.
Defined.

Definition busy : Listener := (accept (accept (listen_start demo_gateway)).2).2.

Lemma connection_limit_witness :
  Z.of_nat (size (active busy)) = 2 ∧ (accept busy).1 = Rejected.
Proof.
  split; [by vm_compute|].
  apply (connection_limit demo_gateway busy); [by vm_compute| |by vm_compute].
  eapply rtc_l; [apply step_accept|]. eapply rtc_l; [apply step_accept|]. apply rtc_refl.
Defined.

Lemma ssh_auth_spec_witness :
  ∃ cfg, ssh_from_env (λ s, if starts_with "ssh-" s then Some s else None)
    (λ n, if n ==s "SSH_AUTHORIZED_KEYS" then Some "keys" else None)
    (λ _, Some "# comment") "ssh-ed25519 AAAA" = Ok cfg ∧
    auth_publickey (λ k, k) cfg "ssh-ed25519 AAAA" = true.
Proof.
  eexists. split; [done|].
  apply (ssh_auth_spec (λ s, if starts_with "ssh-" s then Some s else None) (λ k, k)
    (λ n, if n ==s "SSH_AUTHORIZED_KEYS" then Some "keys" else None)
    (λ _, Some "# comment") "ssh-ed25519 AAAA"); [done|].
  exists "ssh-ed25519 AAAA". split; [done|]. by left.
Defined.

End Gateway.
