(* ===== verification/PortForwardFlow.v ===== *)
(** * Flow control of a multiplexed port-forward channel

    [port_forward_mux.rs]: the receiver's [RecvWindow], the sender's
    [SendCredit], the two relay loops of a channel, and one direction of a
    channel as a step relation over them: sender, frames in flight, receiver. *)
From S2P Require Import Prelude.

Module Flow.

Definition INITIAL_WINDOW : Z := 64 * 1024.
Definition MIN_FRAME_CHARGE : Z := 64.
Definition CHANNEL_WINDOW : Z := 256 * 1024.
Definition MAX_FRAME : Z := 64 * 1024.
Definition MAX_PACKET : Z := 2 * MAX_FRAME.
Definition UPDATE_THRESHOLD : Z := CHANNEL_WINDOW / 2.
Definition MAX_SEND_CREDIT : Z := CHANNEL_WINDOW.

Definition effective_window (advertised : Z) : Z := Z.max advertised INITIAL_WINDOW.

(** [u32::try_from(len).unwrap_or(u32::MAX).max(MIN_FRAME_CHARGE)] *)
Definition charge (len : Z) : Z := Z.max (if len <=? u32_max then len else u32_max) MIN_FRAME_CHARGE.

(** ** The receiver's window *)
Record RecvWindow : Type := mkWindow {
  remaining : Z;
  drained_since_update : Z;
}.

Definition window_new (granted : Z) : RecvWindow := mkWindow (effective_window granted) 0.

Definition accept (w : RecvWindow) (len : Z) : bool * RecvWindow :=
  match checked_sub (remaining w) (charge len) with
  | Some rest => (true, mkWindow rest (drained_since_update w))
  | None => (false, w)
  end.

Definition grant (w : RecvWindow) (n : Z) : RecvWindow :=
  mkWindow (saturating_add u32_max (remaining w) n) (drained_since_update w).

Definition drained (w : RecvWindow) (n : Z) : option Z * RecvWindow :=
  let d := saturating_add u32_max (drained_since_update w) (charge n) in
  if d <? UPDATE_THRESHOLD then (None, mkWindow (remaining w) d)
  else (Some d, mkWindow (saturating_add u32_max (remaining w) d) 0).

(** ** The sender's credit *)
Definition credit_new (initial : Z) : Z := Z.min initial MAX_SEND_CREDIT.

(** One turn of the loop of [take]: what is taken and what is left, or [None]
    when the taker parks. *)
Definition take_credit (credit mx : Z) : option (Z * Z) :=
  if MIN_FRAME_CHARGE <=? credit
  then let n := Z.min credit mx in Some (n, credit - n)
  else None.

Definition add_credit (credit n : Z) : Z :=
  Z.min (saturating_add u32_max credit n) MAX_SEND_CREDIT.

Definition raise_initial (credit total : Z) : Z :=
  let extra := effective_window total - INITIAL_WINDOW in
  if 0 <? extra then add_credit credit extra else credit.

(** After a read of [got] bytes under an allowance of [allow]: the credit with
    the unused part refunded. *)
Definition refund (credit allow got : Z) : Z :=
  let spent := if got =? 0 then 0 else charge got in
  if spent <? allow then add_credit credit (allow - spent) else credit.

(** ** One direction of a channel

    The data frames in flight and queued are their lengths; window updates travel
    apart from them ([send_control]) and may arrive in any order relative to
    them.  [widening] is the window announced by an [opened] frame in flight. *)
Record Link : Type := mkLink {
  credit : Z;
  allowance : option Z;
  sender_open : bool;
  in_flight : list Z;
  updates : list Z;
  widening : option Z;
  window : RecvWindow;
  queue : list Z;
  connected : bool;
  violated : bool;
}.

(** Controlled side to controller: the [open] frame carried the window. *)
Definition start_controlled (advertised : Z) : Link :=
  mkLink (credit_new (effective_window advertised)) None true [] [] None
    (window_new advertised) [] true false.

(** Controller to controlled side: [INITIAL_WINDOW] until [opened]. *)
Definition start_controller : Link :=
  mkLink (credit_new INITIAL_WINDOW) None true [] [] None (window_new INITIAL_WINDOW) [] false false.

Inductive step : Link → Link → Prop :=
(** [credit.take(MAX_FRAME)] returns. *)
| step_take l n c :
    sender_open l = true → allowance l = None → take_credit (credit l) MAX_FRAME = Some (n, c) →
    step l (mkLink c (Some n) true (in_flight l) (updates l) (widening l) (window l) (queue l)
                   (connected l) (violated l))
(** The socket yields [got] bytes, which leave as one frame. *)
| step_read l allow got :
    sender_open l = true → allowance l = Some allow → 0 < got ≤ allow →
    step l (mkLink (refund (credit l) allow got) None true (in_flight l ++ [got]) (updates l)
                   (widening l) (window l) (queue l) (connected l) (violated l))
(** End of file, a read error, or a cancellation: the allowance goes back. *)
| step_eof l allow :
    sender_open l = true → allowance l = Some allow →
    step l (mkLink (refund (credit l) allow 0) None false (in_flight l) (updates l) (widening l)
                   (window l) (queue l) (connected l) (violated l))
(** A data frame arrives. *)
| step_data l n ns ok w :
    in_flight l = n :: ns → violated l = false → accept (window l) n = (ok, w) →
    step l (mkLink (credit l) (allowance l) (sender_open l) ns (updates l) (widening l) w
                   (if ok then queue l ++ [n] else queue l) (connected l) (negb ok))
(** The receiver writes a frame to its socket and may announce what it drained. *)
| step_drain l n ns upd w :
    connected l = true → queue l = n :: ns → drained (window l) n = (upd, w) →
    step l (mkLink (credit l) (allowance l) (sender_open l) (in_flight l)
                   (updates l ++ from_option (λ a, [a]) [] upd) (widening l) w ns
                   (connected l) (violated l))
(** A window update arrives. *)
| step_update l a us1 us2 :
    updates l = us1 ++ a :: us2 →
    step l (mkLink (add_credit (credit l) a) (allowance l) (sender_open l) (in_flight l) (us1 ++ us2)
                   (widening l) (window l) (queue l) (connected l) (violated l))
(** The controlled side reached its target: it widens its window, then announces. *)
| step_connected l :
    connected l = false →
    step l (mkLink (credit l) (allowance l) (sender_open l) (in_flight l) (updates l)
                   (Some CHANNEL_WINDOW) (grant (window l) (CHANNEL_WINDOW - INITIAL_WINDOW))
                   (queue l) true (violated l))
(** The first [opened] frame arrives. *)
| step_opened l total :
    widening l = Some total →
    step l (mkLink (raise_initial (credit l) total) (allowance l) (sender_open l) (in_flight l)
                   (updates l) None (window l) (queue l) (connected l) (violated l)).

(** ** Accounting lemmas *)

Definition charges (l : list Z) : Z := foldr (λ n acc, charge n + acc) 0 l.
Definition total (l : list Z) : Z := foldr Z.add 0 l.

Lemma charges_app l k : charges (l ++ k) = charges l + charges k.
Proof. unfold charges. induction l; simpl; lia. Qed.

Lemma total_app l k : total (l ++ k) = total l + total k.
Proof. unfold total. induction l; simpl; lia. Qed.

Lemma charge_min n : MIN_FRAME_CHARGE ≤ charge n.
Proof. unfold charge. lia. Qed.

Lemma charge_le n m : n ≤ m → MIN_FRAME_CHARGE ≤ m → charge n ≤ m.
Proof. unfold charge. bool_cases; lia. Qed.

Lemma charge_ge n : n ≤ u32_max → n ≤ charge n.
Proof. unfold charge. bool_cases; lia. Qed.

Lemma charges_nonneg l : 0 ≤ charges l.
Proof.
  unfold charges. induction l as [|n l IH]; simpl; [lia|].
  pose proof (charge_min n) as H. unfold MIN_FRAME_CHARGE in H. lia.
Qed.

Lemma charges_count l : MIN_FRAME_CHARGE * len l ≤ charges l.
Proof.
  unfold charges. induction l as [|n l IH]; simpl; [done|]. rewrite len_cons.
  pose proof (charge_min n). unfold MIN_FRAME_CHARGE in *. lia.
Qed.

Lemma total_nonneg l : Forall (λ a, 0 ≤ a) l → 0 ≤ total l.
Proof. unfold total. induction 1; simpl; lia. Qed.

#[local] Hint Resolve charges_nonneg total_nonneg : rd.

(** Every constant of the protocol, for [lia]. *)
Ltac consts :=
  unfold MAX_SEND_CREDIT, INITIAL_WINDOW, MIN_FRAME_CHARGE, CHANNEL_WINDOW, MAX_FRAME, u32_max in *;
  change UPDATE_THRESHOLD with 131072 in *.

Lemma accept_spec w n ok w' : accept w n = (ok, w') →
  (ok = true ↔ charge n ≤ remaining w) ∧
  drained_since_update w' = drained_since_update w ∧
  remaining w' = remaining w - (if ok then charge n else 0).
Proof.
  unfold accept, checked_sub. destruct (Z.leb_spec (charge n) (remaining w)); intros [= <- <-];
    simpl; repeat split; intros; first [done|lia].
Qed.

(** As long as the window stays within 32 bits, draining moves credit from
    drained to announced and the rest is untouched. *)
Lemma drained_spec w n upd w' : drained w n = (upd, w') →
  0 ≤ remaining w → 0 ≤ drained_since_update w →
  remaining w + drained_since_update w + charge n ≤ CHANNEL_WINDOW →
  0 ≤ drained_since_update w' < UPDATE_THRESHOLD ∧
  remaining w' = remaining w + from_option id 0 upd ∧
  drained_since_update w' + from_option id 0 upd = drained_since_update w + charge n ∧
  0 ≤ from_option id 0 upd.
Proof.
  unfold drained, saturating_add. intros H Hr Hd Hs. pose proof (charge_min n). consts.
  rewrite Z.min_l in H by lia. destruct (Z.ltb_spec (drained_since_update w + charge n) 131072);
    injection H as <- <-; simpl; lia.
Qed.

Lemma take_credit_spec c mx n c' : take_credit c mx = Some (n, c') → MIN_FRAME_CHARGE ≤ mx →
  c' = c - n ∧ MIN_FRAME_CHARGE ≤ n ≤ mx ∧ n ≤ c.
Proof. unfold take_credit. destruct (Z.leb_spec MIN_FRAME_CHARGE c); [|done]. intros [= <- <-]. lia. Qed.

Lemma add_credit_exact c n : 0 ≤ c → 0 ≤ n → c + n ≤ CHANNEL_WINDOW → add_credit c n = c + n.
Proof. unfold add_credit, saturating_add. consts. lia. Qed.

Lemma refund_exact c allow got : 0 ≤ c → 0 ≤ got ≤ allow → MIN_FRAME_CHARGE ≤ allow ≤ MAX_FRAME →
  c + allow ≤ CHANNEL_WINDOW →
  refund c allow got = c + allow - (if got =? 0 then 0 else charge got).
Proof.
  intros Hc Hg Ha Hs. unfold refund. pose proof (charge_min got).
  assert (charge got ≤ allow) by (apply charge_le; lia).
  destruct (Z.eqb_spec got 0).
  - destruct (Z.ltb_spec 0 allow); [|consts; lia]. rewrite add_credit_exact by (consts; lia). lia.
  - destruct (Z.ltb_spec (charge got) allow); [|lia]. rewrite add_credit_exact by (consts; lia). lia.
Qed.

(** ** The invariant of a direction *)

Definition granted (l : Link) : Z := if connected l then CHANNEL_WINDOW else INITIAL_WINDOW.
Definition widen (l : Link) : Z :=
  from_option (λ _, CHANNEL_WINDOW - INITIAL_WINDOW) 0 (widening l).

(** Everything the sender has or will have to spend, with what it has spent and
    has not arrived, is exactly what the receiver still expects; and the
    receiver's window is what it granted less what it holds or has not yet
    announced. *)
Record inv (l : Link) : Prop := mkInv {
  inv_credit : credit l + default 0 (allowance l) + charges (in_flight l) + total (updates l) + widen l
               = remaining (window l);
  inv_window : remaining (window l) + charges (queue l) + drained_since_update (window l) = granted l;
  inv_drained : 0 ≤ drained_since_update (window l) < UPDATE_THRESHOLD;
  inv_nonneg : 0 ≤ credit l;
  inv_allow : ∀ a, allowance l = Some a → MIN_FRAME_CHARGE ≤ a ≤ MAX_FRAME;
  inv_updates : Forall (λ a, 0 ≤ a) (updates l);
  inv_widen : ∀ t, widening l = Some t → t = CHANNEL_WINDOW;
  inv_early : connected l = false →
    drained_since_update (window l) = 0 ∧ updates l = [] ∧ widening l = None;
  inv_clean : violated l = false;
}.

Lemma inv_start_controlled : inv (start_controlled CHANNEL_WINDOW).
Proof. split; simpl; try done; consts; lia. Qed.

Lemma inv_start_controller : inv start_controller.
Proof. split; simpl; try done; consts; lia. Qed.

(** The amounts an invariant bounds, all non-negative. *)
Lemma inv_bounds l : inv l →
  0 ≤ default 0 (allowance l) ∧ 0 ≤ charges (in_flight l) ∧ 0 ≤ total (updates l) ∧
  0 ≤ widen l ∧ 0 ≤ charges (queue l) ∧ granted l ≤ CHANNEL_WINDOW ∧ 0 ≤ remaining (window l).
Proof.
  intros [Hc Hw Hd Hn Ha Hu Hwi He Hv].
  assert (0 ≤ default 0 (allowance l))
    by (destruct (allowance l) as [a|]; simpl; [specialize (Ha _ eq_refl); consts; lia|lia]).
  assert (0 ≤ widen l) by (unfold widen; destruct (widening l); simpl; consts; lia).
  assert (granted l ≤ CHANNEL_WINDOW) by (unfold granted; destruct (connected l); consts; lia).
  pose proof (charges_nonneg (in_flight l)). pose proof (charges_nonneg (queue l)).
  pose proof (total_nonneg _ Hu). lia.
Qed.

Lemma step_inv l l' : step l l' → inv l → inv l'.
Proof.
  intros Hs Hi. pose proof (inv_bounds l Hi) as (B1 & B2 & B3 & B4 & B5 & B6 & B7).
  destruct Hi as [Hc Hw Hd Hn Ha Hu Hwi He Hv].
  destruct Hs as [l n c So Al Tk|l allow got So Al Hg|l allow So Al|l n ns ok w Fl Vi Ac
    |l n ns upd w Co Qu Dr|l a us1 us2 Up|l Co|l t Wi]; unfold widen, granted in *; simpl in *.
  - rewrite Al in *. simpl in *. apply take_credit_spec in Tk as (-> & ? & ?); [|consts; lia].
    split; unfold widen, granted; simpl; try done; try lia. intros ? [= <-]. done.
  - rewrite Al in *. simpl in *. specialize (Ha _ eq_refl).
    rewrite refund_exact by (consts; lia). destruct (Z.eqb_spec got 0); [lia|].
    assert (charge got ≤ allow) by (apply charge_le; lia).
    split; unfold widen, granted; simpl; try done; try lia.
    rewrite charges_app. simpl. lia.
  - rewrite Al in *. simpl in *. specialize (Ha _ eq_refl).
    rewrite refund_exact by (consts; lia). simpl.
    split; unfold widen, granted; simpl; try done; lia.
  - rewrite Fl in *. simpl in *. apply accept_spec in Ac as (Hok & Hdr & Hr).
    pose proof (charges_nonneg ns).
    assert (ok = true) as -> by (apply Hok; lia).
    split; unfold widen, granted; simpl; rewrite ?Hdr, ?Hr, ?charges_app; simpl; try done; lia.
  - rewrite Qu in *. simpl in *. rewrite Co in *. pose proof (charges_nonneg ns).
    apply drained_spec in Dr as (Hd' & Hr' & Hsum & Hpos); [|lia..].
    split; unfold widen, granted; simpl; rewrite ?Co, ?Hr', ?total_app; try done;
      try (destruct upd; simpl in *; lia).
    apply Forall_app. split; [done|]. destruct upd; simpl in *; auto.
  - rewrite Up in *. rewrite total_app in *. simpl in *.
    apply Forall_app in Hu as [Hu1 [Hu2 Hu3]%Forall_cons].
    pose proof (total_nonneg _ Hu1). pose proof (total_nonneg _ Hu3).
    rewrite add_credit_exact by lia.
    split; unfold widen, granted; simpl; rewrite ?total_app; try done; try lia.
    + by apply Forall_app.
    + intros E. destruct (He E) as (_ & Hnil & _). by destruct us1.
  - destruct (He Co) as (Hdr & Hup & Hwid). rewrite Co, Hwid in *. simpl in *.
    unfold grant, saturating_add.
    split; unfold widen, granted; simpl; try done; try (consts; lia). by intros ? [= <-].
  - rewrite (Hwi _ Wi) in *. rewrite Wi in *. simpl in *.
    assert (connected l = true) as Co.
    { destruct (connected l) eqn:E; [done|]. destruct (He eq_refl) as (_ & _ & ?). congruence. }
    assert (raise_initial (credit l) CHANNEL_WINDOW = credit l + (CHANNEL_WINDOW - INITIAL_WINDOW)) as ->.
    { unfold raise_initial.
      change (effective_window CHANNEL_WINDOW - INITIAL_WINDOW) with (CHANNEL_WINDOW - INITIAL_WINDOW).
      rewrite add_credit_exact; [done|consts; lia..]. }
    rewrite Co in *. split; unfold widen, granted; simpl; rewrite ?Co; try done; consts; lia.
Qed.

(** Both directions of a channel between two parties that follow the protocol. *)
Inductive initial : Link → Prop :=
| from_controlled : initial (start_controlled CHANNEL_WINDOW)
| from_controller : initial start_controller.

Definition reachable (l : Link) : Prop := ∃ l0, initial l0 ∧ rtc step l0 l.

Lemma reachable_inv l : reachable l → inv l.
Proof.
  intros (l0 & H0 & Hr).
  assert (inv l0) as Hi by (destruct H0; [apply inv_start_controlled|apply inv_start_controller]).
  clear H0. induction Hr as [|l1 l2 l3 H1 _ IH]; eauto using step_inv.
Qed.

(** (C29) Between two parties that follow the protocol, in either direction and
    however frames, updates and the opening interleave, no data frame ever
    overruns the receiver's window, so a channel is never torn down as a
    violation; the receiver never holds more than [CHANNEL_WINDOW] of charged
    data nor more than 4096 frames, and the sender never has more credit than
    [MAX_SEND_CREDIT]. *)
Theorem flow_never_overruns (l : Link) : reachable l →
  violated l = false ∧
  (∀ n ns, in_flight l = n :: ns → (accept (window l) n).1 = true) ∧
  charges (queue l) + charges (in_flight l) ≤ CHANNEL_WINDOW ∧
  len (queue l) ≤ 4096 ∧ 0 ≤ credit l ≤ MAX_SEND_CREDIT.
Proof.
  intros Hr%reachable_inv. pose proof (inv_bounds l Hr) as (B1 & B2 & B3 & B4 & B5 & B6 & B7).
  destruct Hr as [Hc Hw Hd Hn _ _ _ _ Hv]. pose proof (charges_count (queue l)).
  repeat split; [done| | |consts; lia|done|consts; lia].
  - intros n ns E. rewrite E in Hc. simpl in Hc. pose proof (charges_nonneg ns).
    unfold accept. destruct (checked_sub (remaining (window l)) (charge n)) eqn:Ec; [done|].
    apply checked_sub_None in Ec. lia.
  - lia.
Qed.

(** (C33) A channel does not wedge: when nothing is on the wire, nothing is queued
    at the receiver and no allowance is held, the sender has credit for a frame,
    so a sender that is parked always has a frame, an update or an [opened]
    still to come. *)
Theorem flow_never_wedges (l : Link) : reachable l →
  allowance l = None → in_flight l = [] → updates l = [] → widening l = None → queue l = [] →
  is_Some (take_credit (credit l) MAX_FRAME).
Proof.
  intros [Hc Hw Hd _ _ _ _ He _]%reachable_inv Ha Hf Hu Hwi Hq.
  unfold widen, granted in *. rewrite Ha, Hf, Hu, Hwi, Hq in *. simpl in *.
  unfold take_credit. destruct (Z.leb_spec MIN_FRAME_CHARGE (credit l)); [by eexists|].
  destruct (connected l); [|destruct (He eq_refl) as [? _]]; consts; lia.
Qed.

(** *** A run *)
Definition sent_one : Link :=
  mkLink (CHANNEL_WINDOW - 100) None true [100] [] None (window_new CHANNEL_WINDOW) [] true false.

Lemma sent_one_reachable : reachable sent_one.
Proof.
  exists (start_controlled CHANNEL_WINDOW). split; [constructor|].
  set (took := mkLink (CHANNEL_WINDOW - MAX_FRAME) (Some MAX_FRAME) true [] [] None
                 (window_new CHANNEL_WINDOW) [] true false).
  apply (rtc_l _ _ took); [exact (step_take (start_controlled CHANNEL_WINDOW) MAX_FRAME (CHANNEL_WINDOW - MAX_FRAME) eq_refl eq_refl eq_refl)|].
  apply rtc_once. refine (step_read took MAX_FRAME 100 eq_refl eq_refl _). by vm_compute.
Qed.

Lemma flow_never_overruns_witness : (accept (window sent_one) 100).1 = true.
Proof.
  destruct (flow_never_overruns sent_one sent_one_reachable) as (_ & H & _). by apply (H 100 []).
Defined.

Lemma flow_never_wedges_witness :
  is_Some (take_credit (credit (start_controlled CHANNEL_WINDOW)) MAX_FRAME).
Proof.
  apply (flow_never_wedges (start_controlled CHANNEL_WINDOW)); try done.
  exists (start_controlled CHANNEL_WINDOW). split; [constructor|apply rtc_refl].
Defined.

End Flow.
