(* ===== verification/PortForwardMux.v ===== *)
(** * Multiplexed port forwarding: the two demultiplexers

    [server/port_forward_mux.rs], the controlled side, and the [tunnel] module of
    [port_forward_mux.rs], the controller.  A channel's queue, credit and window
    are shared between the demultiplexer's table and the channel's task, so they
    live in a store and the table holds references; removing an entry leaves the
    task's objects alone. *)
From S2P Require Import Prelude RustStd NetText PortForwardFlow.
Import Flow.

Module Mux.

Definition MAX_CHANNELS : Z := 256.

Inductive Inbound : Type :=
| Data (len : Z)
| Close
| Violation.

Inductive Frame : Type :=
| Open (id : Z) (host : string) (port win : Z)
| Opened (id : Z) (success : bool) (message : string) (win : Z)
| DataFrame (id len : Z)
| CloseFrame (id : Z)
| WindowUpdate (id add : Z).

(** What the table and the task of a channel share, with what the task holds: the
    frames it took from the queue and has not written yet, and whether it widened
    the window. *)
Record Chan : Type := mkChan {
  inbound : list Inbound;
  receiver : bool;  (* the task still holds the receiving end *)
  credit : Z;
  window : RecvWindow;
  pending : list Z;
  widened : bool;
}.

Definition send_inbound (c : Chan) (m : Inbound) : Chan :=
  mkChan (if receiver c then inbound c ++ [m] else inbound c) (receiver c) (credit c) (window c)
         (pending c) (widened c).
Definition set_window (c : Chan) (w : RecvWindow) : Chan :=
  mkChan (inbound c) (receiver c) (credit c) w (pending c) (widened c).
Definition set_credit (c : Chan) (n : Z) : Chan :=
  mkChan (inbound c) (receiver c) n (window c) (pending c) (widened c).

(** A demultiplexed data frame: accepted by the window, then delivered if the
    task is still there; otherwise the entry goes, with a [Violation] for the
    task when it was the window that refused. *)
Definition deliver (c : Chan) (n : Z) : bool * Chan :=
  let (accepted, w) := accept (window c) n in
  let c := set_window c w in
  if accepted && receiver c then (true, send_inbound c (Data n))
  else (false, if accepted then c else send_inbound c Violation).

(** ** The controlled side *)

Record PortForward : Type := mkPf { host : string; port : Z }.

Definition normalize_port_forward_target (pf : PortForward) : string * bool :=
  let (pf, is_rdp) :=
    if (host pf ==s "RDP") && (port pf =? 0) then (mkPf "localhost" 3389, true) else (pf, false) in
  let pf := if is_empty (host pf) then mkPf "localhost" (port pf) else pf in
  (host pf +s+ ":" +s+ int_to_string (port pf), is_rdp).

(** A task started for a channel. *)
Record Task : Type := mkTask {
  task_id : Z;
  addr : string;
  is_rdp : bool;
  chan : nat;
}.

Record PortForwardMux : Type := mkMux {
  channels : gmap Z nat;
  store : gmap nat Chan;
  tasks : list Task;
  sent : list Frame;
  login_target : string;
  teardown : bool;
}.

Definition mux_new (login_target : string) : PortForwardMux := mkMux ∅ ∅ [] [] login_target false.

Definition set_channels (m : PortForwardMux) (c : gmap Z nat) : PortForwardMux :=
  mkMux c (store m) (tasks m) (sent m) (login_target m) (teardown m).
Definition set_chan (m : PortForwardMux) (r : nat) (c : Chan) : PortForwardMux :=
  mkMux (channels m) (<[r := c]> (store m)) (tasks m) (sent m) (login_target m) (teardown m).
Definition reply (m : PortForwardMux) (f : Frame) : PortForwardMux :=
  mkMux (channels m) (store m) (tasks m) (sent m ++ [f]) (login_target m) (teardown m).

(** The channel an id is bound to. *)
Definition entry (m : PortForwardMux) (id : Z) : option (nat * Chan) :=
  match channels m !! id with
  | Some r => match store m !! r with Some c => Some (r, c) | None => None end
  | None => None
  end.

Definition live (st : gmap nat Chan) (r : nat) : bool :=
  match st !! r with Some c => receiver c | None => false end.

Definition on_open (m : PortForwardMux) (id : Z) (h : string) (p win : Z) (permitted : bool)
    : PortForwardMux :=
  let m := set_channels m (filter (λ e, live (store m) e.2 = true) (channels m)) in
  if negb permitted then reply m (Opened id false "No permission of IP tunneling" 0)
  else if MAX_CHANNELS <=? Z.of_nat (size (channels m))
  then reply m (Opened id false "Too many port forward channels" 0)
  else if bool_decide (is_Some (channels m !! id)) then m
  else
    let (a, rdp) := normalize_port_forward_target (mkPf h p) in
    if negb (a ==s login_target m)
    then reply m (Opened id false "Port forward target not authorized" 0)
    else
      let r := fresh (dom (store m)) in
      let c := mkChan [] true (credit_new (effective_window win)) (window_new INITIAL_WINDOW)
                      [] false in
      mkMux (<[id := r]> (channels m)) (<[r := c]> (store m)) (tasks m ++ [mkTask id a rdp r])
            (sent m) (login_target m) (teardown m).

Definition handle (m : PortForwardMux) (f : Frame) (tunnel_permitted : bool) : PortForwardMux :=
  match f with
  | Open id h p win => on_open m id h p win tunnel_permitted
  | DataFrame id n =>
      match entry m id with
      | None => m
      | Some (r, c) =>
          let (delivered, c) := deliver c n in
          let m := set_chan m r c in
          if delivered then m else set_channels m (delete id (channels m))
      end
  | CloseFrame id =>
      match entry m id with
      | Some (r, c) => set_channels (set_chan m r (send_inbound c Close)) (delete id (channels m))
      | None => m
      end
  | WindowUpdate id add =>
      match entry m id with
      | Some (r, c) => set_chan m r (set_credit c (add_credit (credit c) add))
      | None => m
      end
  | Opened _ _ _ _ => m
  end.

Definition close_all (m : PortForwardMux) : PortForwardMux :=
  mkMux ∅ (store m) (tasks m) (sent m) (login_target m) true.

(** *** The task of a channel *)

(** Before [opened] the controller may only have used [INITIAL_WINDOW]. *)
Definition pending_fits (charged add_len : Z) : bool :=
  saturating_add usize_max charged (charge add_len) <=? INITIAL_WINDOW.

Definition unreachable_message (addr : string) (rdp : bool) : string :=
  "Failed to access remote " +s+ (if rdp then "RDP" else addr)
    +s+ ". Please make sure it is reachable/open.".

(** What the [select!] of the connect loop meets next: a command of the queue,
    the end of the queue, or the outcome of the connection attempt. *)
Inductive Connecting : Type :=
| Command (i : Inbound)
| QueueGone
| ConnectOk
| ConnectFailed.

(** How the task leaves the connect loop: it ended with a frame or without, or it
    goes on to relay with what it buffered. *)
Inductive ConnectEnd : Type :=
| Ended (f : option Frame)
| Relays (pending : list Z)
| Waiting (pending : list Z) (pending_len : Z).

Fixpoint run_connecting (t : Task) (pending : list Z) (pending_len : Z) (evs : list Connecting)
    : ConnectEnd :=
  match evs with
  | [] => Waiting pending pending_len
  | Command (Data n) :: evs =>
      if pending_fits pending_len n
      then run_connecting t (pending ++ [n]) (pending_len + charge n) evs
      else Ended (Some (CloseFrame (task_id t)))
  | Command Close :: _ | QueueGone :: _ => Ended None
  | Command Violation :: _ => Ended (Some (CloseFrame (task_id t)))
  | ConnectOk :: _ => Relays pending
  | ConnectFailed :: _ =>
      Ended (Some (Opened (task_id t) false (unreachable_message (addr t) (is_rdp t)) 0))
  end.

(** *** How a relay ends, [run_channel] *)
Inductive RelayEnd : Type := LocalEof | PeerClosed | RelayViolation | Cancelled | TunnelGone.

#[global] Instance RelayEnd_eq_dec : EqDecision RelayEnd.
Proof. solve_decision. Defined.

Definition local_reason (e : RelayEnd) : bool :=
  match e with LocalEof | RelayViolation => true | _ => false end.

(** The close frame a channel sends when both its halves have ended. *)
Definition channel_close (id : Z) (first second : RelayEnd) : option Frame :=
  let peer_closed := bool_decide (first = PeerClosed) || bool_decide (second = PeerClosed) in
  let tunnel_gone := bool_decide (first = TunnelGone) || bool_decide (second = TunnelGone) in
  if negb peer_closed && negb tunnel_gone && (local_reason first || local_reason second)
  then Some (CloseFrame id) else None.

(** What a task does to its channel: take a frame from the queue, write one and
    count it as drained, widen the window once connected, spend or regain credit,
    or end. *)
Inductive task_step : Chan → Chan → Prop :=
| task_pop c n rest : inbound c = Data n :: rest →
    task_step c (mkChan rest (receiver c) (credit c) (window c) (pending c ++ [n]) (widened c))
| task_drain c n rest : pending c = n :: rest →
    task_step c (mkChan (inbound c) (receiver c) (credit c) (drained (window c) n).2 rest (widened c))
| task_widen c : widened c = false →
    task_step c (mkChan (inbound c) (receiver c) (credit c)
                        (grant (window c) (CHANNEL_WINDOW - INITIAL_WINDOW)) (pending c) true)
| task_take c n rest : take_credit (credit c) MAX_FRAME = Some (n, rest) →
    task_step c (set_credit c rest)
| task_refund c allow got : 0 ≤ got ≤ allow → task_step c (set_credit c (refund (credit c) allow got))
| task_end c : task_step c (mkChan [] false (credit c) (window c) [] (widened c)).

(** The controlled side under an arbitrary peer: any frames, whatever the tasks
    do in between. *)
Inductive mux_step : PortForwardMux → PortForwardMux → Prop :=
| step_frame m f permitted : mux_step m (handle m f permitted)
| step_task m r c c' : store m !! r = Some c → task_step c c' → mux_step m (set_chan m r c')
| step_close_all m : mux_step m (close_all m).

(** ** Bounds on what a peer can make the controlled side hold *)

Definition queued (l : list Inbound) : list Z :=
  omap (λ i, match i with Data n => Some n | _ => None end) l.

Definition limit (c : Chan) : Z := if widened c then CHANNEL_WINDOW else INITIAL_WINDOW.

Record chan_ok (c : Chan) : Prop := mkChanOk {
  ok_held : remaining (window c) + charges (queued (inbound c)) + charges (pending c)
            + drained_since_update (window c) ≤ limit c;
  ok_remaining : 0 ≤ remaining (window c);
  ok_drained : 0 ≤ drained_since_update (window c);
  ok_credit : credit c ≤ MAX_SEND_CREDIT;
}.

Lemma queued_app l k : queued (l ++ k) = queued l ++ queued k.
Proof. apply omap_app. Qed.

Lemma charges_queued_snoc c m n : queued [m] = n →
  charges (queued (inbound (send_inbound c m))) ≤ charges (queued (inbound c)) + charges n.
Proof.
  intros <-. unfold send_inbound. cbn [inbound]. pose proof (charges_nonneg (queued [m])).
  destruct (receiver c); [rewrite queued_app, charges_app|]; lia.
Qed.

Lemma add_credit_le c n : add_credit c n ≤ MAX_SEND_CREDIT.
Proof. unfold add_credit. lia. Qed.

Lemma limit_le c : limit c ≤ CHANNEL_WINDOW.
Proof. unfold limit. destruct (widened c); consts; lia. Qed.

Lemma deliver_ok c n : chan_ok c → chan_ok (deliver c n).2.
Proof.
  intros [Hh Hr Hd Hc]. unfold deliver. destruct (accept (window c) n) as [a w] eqn:E.
  apply accept_spec in E as (Ha & Hdr & Hrem). unfold limit in *.
  destruct a; simpl in *; [assert (charge n ≤ remaining (window c)) by (by apply Ha)|];
  [destruct (receiver c) eqn:Er; simpl|].
  - split; simpl; rewrite ?Hdr, ?Hrem; unfold limit; simpl; try done; try lia.
    pose proof (charges_queued_snoc (set_window c w) (Data n) [n] eq_refl). simpl in *.
    rewrite Er in *. rewrite queued_app, charges_app in *. simpl in *. lia.
  - split; simpl; rewrite ?Hdr, ?Hrem; unfold limit; simpl; try done; try lia.
    pose proof (charge_min n). consts. lia.
  - split; simpl; rewrite ?Hdr, ?Hrem; unfold limit; simpl; try done; try lia.
    destruct (receiver c); [rewrite queued_app, app_nil_r|]; lia.
Qed.

Lemma task_step_ok c c' : task_step c c' → chan_ok c → chan_ok c'.
Proof.
  intros Hs [Hh Hr Hd Hc]. pose proof (limit_le c).
  pose proof (charges_nonneg (queued (inbound c))). pose proof (charges_nonneg (pending c)).
  destruct Hs as [c n rest E|c n rest E|c E|c n rest E|c allow got Hg|c]; unfold limit in *.
  - rewrite E in *. simpl in *. split; unfold limit; simpl; try done.
    rewrite charges_app. simpl. lia.
  - rewrite E in *. simpl in *. destruct (drained (window c) n) as [upd w] eqn:Ed.
    pose proof (charges_nonneg rest).
    apply drained_spec in Ed as (? & ? & ? & ?); [|lia..].
    split; unfold limit; simpl; try done; lia.
  - unfold grant, saturating_add. rewrite E in *. split; unfold limit; simpl; try done; consts; lia.
  - apply take_credit_spec in E as (-> & ? & ?); [|consts; lia].
    split; unfold limit; simpl; try done. consts; lia.
  - split; unfold limit; simpl; try done. unfold refund.
    destruct (_ <? _); [apply add_credit_le|done].
  - split; unfold limit; simpl; try done. lia.
Qed.

Record mux_ok (target : string) (m : PortForwardMux) : Prop := mkMuxOk {
  mo_chans : map_Forall (λ _ c, chan_ok c) (store m);
  mo_size : Z.of_nat (size (channels m)) ≤ MAX_CHANNELS;
  mo_tasks : Forall (λ t, addr t = target) (tasks m);
  mo_login : login_target m = target;
}.

Lemma entry_Some m id r c : entry m id = Some (r, c) → store m !! r = Some c.
Proof. unfold entry. destruct (channels m !! id) as [r'|]; [|done]. case_match; naive_solver. Qed.

Lemma mux_ok_chan target m r c : mux_ok target m → chan_ok c → mux_ok target (set_chan m r c).
Proof. intros [] ?. split; simpl; try done. by apply map_Forall_insert_2. Qed.

Lemma mux_ok_shrink target m chs : mux_ok target m → chs ⊆ channels m →
  mux_ok target (set_channels m chs).
Proof.
  intros [? Hs ? ?] Hsub. split; simpl; try done.
  apply map_subseteq_size in Hsub. lia.
Qed.

Lemma mux_ok_reply target m f : mux_ok target m → mux_ok target (reply m f).
Proof. by intros []. Qed.

Lemma fresh_chan_ok win : chan_ok (mkChan [] true (credit_new (effective_window win))
  (window_new INITIAL_WINDOW) [] false).
Proof.
  split; [by vm_compute|by vm_compute|by vm_compute|]. cbn [credit]. unfold credit_new. lia.
Qed.

Lemma on_open_ok target m id h p win permitted :
  mux_ok target m → mux_ok target (on_open m id h p win permitted).
Proof.
  intros Hm. unfold on_open.
  set (m1 := set_channels m _).
  assert (mux_ok target m1) as H1 by (apply mux_ok_shrink; [done|apply map_filter_subseteq]).
  destruct permitted; cbn [negb]; [|by apply mux_ok_reply].
  destruct (Z.leb_spec MAX_CHANNELS (Z.of_nat (size (channels m1)))); [by apply mux_ok_reply|].
  case_bool_decide as Hid; [done|].
  destruct (normalize_port_forward_target (mkPf h p)) as [a rdp].
  destruct (a ==s login_target m1) eqn:Ea; cbn [negb]; [|by apply mux_ok_reply].
  apply eqb_str_true in Ea. destruct H1 as [Hc Hs Ht Hl]. split; cbn [store channels tasks login_target].
  - apply map_Forall_insert_2; [apply fresh_chan_ok|done].
  - rewrite map_size_insert_None by (by apply eq_None_not_Some). unfold MAX_CHANNELS in *. lia.
  - apply Forall_app. split; [done|]. constructor; [|done]. simpl. congruence.
  - done.
Qed.

Lemma handle_ok target m f permitted : mux_ok target m → mux_ok target (handle m f permitted).
Proof.
  intros Hm. pose proof (mo_chans _ _ Hm) as Hc.
  destruct f as [id h p win|id ok msg win|id n|id|id add]; simpl; [by apply on_open_ok|done|..];
    (destruct (entry m id) as [[r c]|] eqn:E; [|done]); apply entry_Some in E as E';
    pose proof (Hc _ _ E') as Hok; simpl in Hok.
  - pose proof (deliver_ok c n Hok) as Hd. destruct (deliver c n) as [d c']. simpl in Hd.
    destruct d; [by apply mux_ok_chan|]. apply mux_ok_shrink; [by apply mux_ok_chan|].
    apply delete_subseteq.
  - apply mux_ok_shrink; [|apply delete_subseteq]. apply mux_ok_chan; [done|].
    destruct Hok as [Hh ? ? ?]. split; unfold limit in *; simpl; try done.
    destruct (receiver c); [rewrite queued_app, app_nil_r|]; done.
  - apply mux_ok_chan; [done|]. destruct Hok. split; unfold limit in *; simpl; try done.
    apply add_credit_le.
Qed.

Lemma mux_step_ok target m m' : mux_step m m' → mux_ok target m → mux_ok target m'.
Proof.
  intros Hs Hm. destruct Hs as [m f b|m r c c' Hr Ht|m].
  - by apply handle_ok.
  - apply mux_ok_chan; [done|]. eapply task_step_ok; [done|]. by apply (mo_chans _ _ Hm r).
  - destruct Hm. by split.
Qed.

(** Whatever frames a peer sends and however they interleave with the
    channel tasks, the controlled side never serves more than [MAX_CHANNELS]
    entries, never starts a task for another target than the one the tunnel was
    authorised for, and never holds more than [CHANNEL_WINDOW] of charged data,
    in at most 4096 frames, for any channel; nor does an adversarial window
    update lift its credit above [MAX_SEND_CREDIT]. *)
Theorem controlled_side_bounded (target : string) (m : PortForwardMux) :
  rtc mux_step (mux_new target) m →
  Z.of_nat (size (channels m)) ≤ MAX_CHANNELS ∧
  Forall (λ t, addr t = target) (tasks m) ∧
  ∀ r c, store m !! r = Some c →
    charges (queued (inbound c)) + charges (pending c) ≤ CHANNEL_WINDOW ∧
    len (queued (inbound c)) + len (pending c) ≤ 4096 ∧ credit c ≤ MAX_SEND_CREDIT.
Proof.
  intros Hr.
  assert (mux_ok target m) as [Hc Hs Ht Hl].
  { assert (mux_ok target (mux_new target)) as H0 by (split; simpl; done).
    revert H0. induction Hr as [|m1 m2 m3 H1 _ IH]; [done|]. eauto using mux_step_ok. }
  split; [done|]. split; [done|]. intros r c [Hh Hrem Hd Hcr]%Hc.
  pose proof (limit_le c). pose proof (charges_count (queued (inbound c))).
  pose proof (charges_count (pending c)). consts. repeat split; lia.
Qed.

(** A channel task is started only by an [open] frame that the tunnel's
    permission check allowed, whose normalised target is the one authorised at
    login and whose id is not that of a live channel; the task serves that very
    target, and the channel starts with an empty queue, the initial window and no
    more credit than the sender's cap. *)
Theorem open_authorised (m : PortForwardMux) (f : Frame) (permitted : bool) :
  tasks (handle m f permitted) ≠ tasks m →
  permitted = true ∧
  ∃ id h p win rdp r, f = Open id h p win ∧
    normalize_port_forward_target (mkPf h p) = (login_target m, rdp) ∧
    (∀ r', channels m !! id = Some r' → live (store m) r' = false) ∧
    store m !! r = None ∧
    tasks (handle m f permitted) = tasks m ++ [mkTask id (login_target m) rdp r] ∧
    entry (handle m f permitted) id =
      Some (r, mkChan [] true (credit_new (effective_window win)) (window_new INITIAL_WINDOW) [] false).
Proof.
  destruct f as [id h p win|id ok msg win|id n|id|id add]; simpl;
    [|done|destruct (entry m id) as [[r c]|]; [destruct (deliver c n) as [[] ?]|]; done
     |by destruct (entry m id) as [[r c]|]|by destruct (entry m id) as [[r c]|]].
  unfold on_open. destruct permitted; cbn [negb]; [|done].
  destruct (MAX_CHANNELS <=? _); [done|]. case_bool_decide as Hid; [done|].
  destruct (normalize_port_forward_target (mkPf h p)) as [a rdp] eqn:En.
  destruct (a ==s _) eqn:Ea; cbn [negb]; [|done]. apply eqb_str_true in Ea. simpl in Ea. subst a.
  intros _. split; [done|]. exists id, h, p, win, rdp, (fresh (dom (store m))).
  split; [done|]. split; [done|]. split.
  { intros r' Hr'. destruct (live (store m) r') eqn:El; [|done]. destruct Hid. exists r'.
    apply map_lookup_filter_Some. done. }
  split; [apply not_elem_of_dom, is_fresh|]. split; [done|].
  unfold entry. cbn [channels store]. by rewrite lookup_insert_eq, lookup_insert_eq.
Qed.

Definition demo_open : PortForwardMux := handle (mux_new "localhost:22") (Open 1 "" 22 CHANNEL_WINDOW) true.
Definition demo_mux : PortForwardMux := handle demo_open (DataFrame 1 70000) true.

Lemma controlled_side_bounded_witness :
  Forall (λ t, addr t = "localhost:22") (tasks demo_mux) ∧ tasks demo_mux ≠ [].
Proof.
  split; [|by vm_compute].
  apply (controlled_side_bounded "localhost:22" demo_mux).
  apply (rtc_l _ _ demo_open); [exact (step_frame _ (Open 1 "" 22 CHANNEL_WINDOW) true)|].
  apply rtc_once. exact (step_frame demo_open (DataFrame 1 70000) true).
Defined.

Lemma open_authorised_witness :
  ∃ id h p win rdp r, Open 1 "" 22 CHANNEL_WINDOW = Open id h p win ∧
    normalize_port_forward_target (mkPf h p) = ("localhost:22", rdp) ∧
    tasks demo_open = [mkTask id "localhost:22" rdp r].
Proof.
  destruct (open_authorised (mux_new "localhost:22") (Open 1 "" 22 CHANNEL_WINDOW) true)
    as (_ & id & h & p & win & rdp & r & H1 & H2 & _ & _ & H3 & _); [by vm_compute|].
  by exists id, h, p, win, rdp, r.
Defined.

End Mux.
