(* ===== verification/PortForwardTunnel.v ===== *)
(** * Multiplexed port forwarding: the controller's tunnel

    The [tunnel] module of [port_forward_mux.rs]: the life of a listener's
    tunnel ([Tunnel]), the table of its channels ([TunnelHandle]) and the
    reports of refused channels.  Channels share the store of
    PortForwardMux.v. *)
From S2P Require Import Prelude RustStd PortForwardFlow PortForwardMux.
Import Flow Mux.

Module Tunnel.

(** Instants and durations are in nanoseconds. *)
Definition REPORT_AGAIN_AFTER : Z := 10 * 1000000000.
Definition MAX_REPORTED_OPEN_ERRORS : Z := 8.

Record ChannelEntry : Type := mkEntry {
  ce_chan : nat;
  opened : bool;
}.

Record TunnelHandle : Type := mkHandle {
  h_channels : gmap Z ChannelEntry;
  h_store : gmap nat Chan;
  next_id : Z;
  reported : gmap string Z;
  h_teardown : bool;
  sink_closed : bool;
  spawned : list (Z * Frame);  (* channel tasks and the [open] each sends first *)
}.

Definition handle_new : TunnelHandle := mkHandle ∅ ∅ 1 ∅ false false [].

(** [AtomicI32::fetch_add] wraps around. *)
Definition wrap_i32 (z : Z) : Z := (z + 2 ^ 31) mod 2 ^ 32 - 2 ^ 31.

(** The id loop of [open]: the id found and the counter left behind. *)
Fixpoint alloc_id (fuel : nat) (chs : gmap Z ChannelEntry) (next : Z) : option (Z * Z) :=
  match fuel with
  | O => None
  | S fuel =>
      if bool_decide (is_Some (chs !! next)) then alloc_id fuel chs (wrap_i32 (next + 1))
      else Some (next, wrap_i32 (next + 1))
  end.

Inductive open_error : Type := TunnelIsGone | TooManyChannels | NoFreeId.

Definition with_channels (h : TunnelHandle) (c : gmap Z ChannelEntry) : TunnelHandle :=
  mkHandle c (h_store h) (next_id h) (reported h) (h_teardown h) (sink_closed h) (spawned h).
Definition with_chan (h : TunnelHandle) (r : nat) (c : Chan) : TunnelHandle :=
  mkHandle (h_channels h) (<[r := c]> (h_store h)) (next_id h) (reported h) (h_teardown h)
           (sink_closed h) (spawned h).
Definition with_reported (h : TunnelHandle) (m : gmap string Z) : TunnelHandle :=
  mkHandle (h_channels h) (h_store h) (next_id h) m (h_teardown h) (sink_closed h) (spawned h).

Definition open (h : TunnelHandle) (host : string) (port : Z) : result Z open_error * TunnelHandle :=
  if sink_closed h then (Err TunnelIsGone, h)
  else if MAX_CHANNELS <=? Z.of_nat (size (h_channels h)) then (Err TooManyChannels, h)
  else
    match alloc_id (S (size (h_channels h))) (h_channels h) (next_id h) with
    | None => (Err NoFreeId, h)
    | Some (id, next) =>
        let r := fresh (dom (h_store h)) in
        let c := mkChan [] true (credit_new INITIAL_WINDOW) (window_new CHANNEL_WINDOW) [] true in
        (Ok id,
         mkHandle (<[id := mkEntry r false]> (h_channels h)) (<[r := c]> (h_store h)) next (reported h)
                  (h_teardown h) (sink_closed h)
                  (spawned h ++ [(id, Open id host port CHANNEL_WINDOW)]))
    end.

(** The task of [id] has ended and removes its entry. *)
Definition task_done (h : TunnelHandle) (id : Z) : TunnelHandle :=
  with_channels h (delete id (h_channels h)).

Definition first_report_at (h : TunnelHandle) (message : string) (now : Z)
    : option string * TunnelHandle :=
  if is_empty message then (None, h)
  else
    let rep := filter (λ e, saturating_sub now e.2 < REPORT_AGAIN_AFTER) (reported h) in
    if bool_decide (is_Some (rep !! message)) then (None, with_reported h (<[message := now]> rep))
    else if MAX_REPORTED_OPEN_ERRORS <=? Z.of_nat (size rep) then (None, with_reported h rep)
    else (Some message, with_reported h (<[message := now]> rep)).

Definition lookup (h : TunnelHandle) (id : Z) : option (ChannelEntry * Chan) :=
  match h_channels h !! id with
  | Some e => match h_store h !! ce_chan e with Some c => Some (e, c) | None => None end
  | None => None
  end.

Definition on_frame (h : TunnelHandle) (f : Frame) (now : Z) : option string * TunnelHandle :=
  match f with
  | Opened id success message win =>
      match lookup h id with
      | None => (None, h)
      | Some (e, c) =>
          if success then
            if opened e then (None, h)
            else (None, with_chan (with_channels h (<[id := mkEntry (ce_chan e) true]> (h_channels h)))
                          (ce_chan e) (set_credit c (raise_initial (Mux.credit c) win)))
          else
            first_report_at
              (with_chan (with_channels h (delete id (h_channels h))) (ce_chan e)
                 (send_inbound c Close)) message now
      end
  | DataFrame id n =>
      match lookup h id with
      | None => (None, h)
      | Some (e, c) =>
          let (delivered, c) := deliver c n in
          let h := with_chan h (ce_chan e) c in
          (None, if delivered then h else with_channels h (delete id (h_channels h)))
      end
  | CloseFrame id =>
      match lookup h id with
      | Some (e, c) =>
          (None, with_chan (with_channels h (delete id (h_channels h))) (ce_chan e)
                   (send_inbound c Close))
      | None => (None, h)
      end
  | WindowUpdate id add =>
      match lookup h id with
      | Some (e, c) => (None, with_chan h (ce_chan e) (set_credit c (add_credit (Mux.credit c) add)))
      | None => (None, h)
      end
  | Open _ _ _ _ => (None, h)
  end.

Definition close_all (h : TunnelHandle) : TunnelHandle :=
  mkHandle ∅ (h_store h) (next_id h) (reported h) true (sink_closed h) (spawned h).

(** *** The listener's view *)
Inductive TunnelState : Type := Unset | Muxed (h : TunnelHandle) | Legacy | Failed.
Inductive Claim : Type := Claimed | ClaimMuxed (h : TunnelHandle) | ClaimLegacy.

Definition claim (s : TunnelState) : Claim :=
  match s with
  | Unset | Failed => Claimed
  | Muxed h => ClaimMuxed h
  | Legacy => ClaimLegacy
  end.

(** The end of [tunnel_loop]. *)
Definition loop_end (h : TunnelHandle) : TunnelHandle * TunnelState := (close_all h, Unset).

(** ** Identifiers *)

Lemma wrap_i32_range z : i32_min ≤ wrap_i32 z ≤ i32_max.
Proof.
  unfold wrap_i32, i32_min, i32_max. pose proof (Z.mod_pos_bound (z + 2 ^ 31) (2 ^ 32)). lia.
Qed.

Lemma wrap_i32_id z : i32_min ≤ z ≤ i32_max → wrap_i32 z = z.
Proof. unfold wrap_i32, i32_min, i32_max. intros. rewrite Z.mod_small; lia. Qed.

Lemma wrap_i32_wrap a b : wrap_i32 (wrap_i32 a + b) = wrap_i32 (a + b).
Proof.
  unfold wrap_i32. f_equal.
  replace ((a + 2 ^ 31) mod 2 ^ 32 - 2 ^ 31 + b + 2 ^ 31) with ((a + 2 ^ 31) mod 2 ^ 32 + b) by lia.
  rewrite Z.add_mod_idemp_l by lia. f_equal. lia.
Qed.

(** Fewer than 2^32 consecutive identifiers are distinct. *)
Lemma wrap_i32_inj z i j : 0 ≤ i < 2 ^ 32 → 0 ≤ j < 2 ^ 32 →
  wrap_i32 (z + i) = wrap_i32 (z + j) → i = j.
Proof.
  unfold wrap_i32. intros Hi Hj E.
  assert ((z + i + 2 ^ 31) mod 2 ^ 32 = (z + j + 2 ^ 31) mod 2 ^ 32) as Em by lia.
  pose proof (Z.div_mod (z + i + 2 ^ 31) (2 ^ 32)). pose proof (Z.div_mod (z + j + 2 ^ 31) (2 ^ 32)).
  nia.
Qed.

(** When the loop gives up, every identifier it tried is taken. *)
Lemma alloc_id_None fuel chs next : i32_min ≤ next ≤ i32_max →
  alloc_id fuel chs next = None →
  ∀ i, (i < fuel)%nat → is_Some (chs !! wrap_i32 (next + Z.of_nat i)).
Proof.
  revert next. induction fuel as [|fuel IH]; intros next Hn; simpl; [intros; lia|].
  case_bool_decide as Hs; [|done]. intros HN i Hi. destruct i as [|i].
  - by rewrite Z.add_0_r, wrap_i32_id.
  - specialize (IH _ (wrap_i32_range _) HN i ltac:(lia)). rewrite wrap_i32_wrap in IH.
    replace (next + Z.of_nat (S i)) with (next + 1 + Z.of_nat i) by lia. done.
Qed.

Lemma alloc_id_Some fuel chs next id next' : alloc_id fuel chs next = Some (id, next') →
  i32_min ≤ next ≤ i32_max → chs !! id = None ∧ i32_min ≤ id ≤ i32_max ∧ i32_min ≤ next' ≤ i32_max.
Proof.
  revert next. induction fuel as [|fuel IH]; intros next; simpl; [done|].
  case_bool_decide as Hs.
  - intros E _. eapply IH; [done|]. apply wrap_i32_range.
  - intros [= <- <-] Hn. split; [by apply eq_None_not_Some|]. split; [done|apply wrap_i32_range].
Qed.

(** One more step than there are channels always finds a free identifier. *)
Lemma alloc_id_total chs next : i32_min ≤ next ≤ i32_max → Z.of_nat (size chs) < 2 ^ 32 - 1 →
  is_Some (alloc_id (S (size chs)) chs next).
Proof.
  intros Hn Hs. destruct (alloc_id _ chs next) as [p|] eqn:E; [by eexists|].
  pose proof (alloc_id_None _ _ _ Hn E) as Hall. exfalso.
  set (ids := (λ i, wrap_i32 (next + Z.of_nat i)) <$> seq 0 (S (size chs))).
  assert (NoDup ids) as Hnd.
  { apply NoDup_fmap_2_strong; [|apply NoDup_seq]. intros i j Hi%elem_of_seq Hj%elem_of_seq H.
    apply Nat2Z.inj. eapply wrap_i32_inj; [| |exact H]; lia. }
  assert (list_to_set ids ⊆@{gset Z} dom chs) as Hsub.
  { intros x [i [-> Hi%elem_of_seq]]%elem_of_list_to_set%list_elem_of_fmap.
    apply elem_of_dom, Hall. lia. }
  apply subseteq_size in Hsub. rewrite size_list_to_set, size_dom in Hsub by done.
  unfold ids in Hsub. rewrite length_fmap, length_seq in Hsub. lia.
Qed.

(** ** The table *)

Record handle_ok (h : TunnelHandle) : Prop := mkHandleOk {
  hk_size : Z.of_nat (size (h_channels h)) ≤ MAX_CHANNELS;
  hk_next : i32_min ≤ next_id h ≤ i32_max;
  hk_chans : map_Forall (λ _ c, chan_ok c) (h_store h);
  hk_reported : Z.of_nat (size (reported h)) ≤ MAX_REPORTED_OPEN_ERRORS;
}.

Lemma ok_shrink h chs : handle_ok h → chs ⊆ h_channels h → handle_ok (with_channels h chs).
Proof. intros [] Hs%map_subseteq_size. split; simpl; try done. lia. Qed.

Lemma ok_chan h r c : handle_ok h → chan_ok c → handle_ok (with_chan h r c).
Proof. intros [] ?. split; simpl; try done. by apply map_Forall_insert_2. Qed.

Lemma ok_reported h m : handle_ok h → Z.of_nat (size m) ≤ MAX_REPORTED_OPEN_ERRORS →
  handle_ok (with_reported h m).
Proof. by intros []. Qed.

Lemma chan_ok_close c : chan_ok c → chan_ok (send_inbound c Close).
Proof.
  intros [Hh ? ? ?]. split; unfold limit in *; simpl; try done.
  destruct (receiver c); [rewrite queued_app, app_nil_r|]; done.
Qed.

Lemma chan_ok_credit c n : chan_ok c → n ≤ MAX_SEND_CREDIT → chan_ok (set_credit c n).
Proof. by intros [? ? ? ?]. Qed.

Lemma raise_initial_le c n : c ≤ MAX_SEND_CREDIT → raise_initial c n ≤ MAX_SEND_CREDIT.
Proof. unfold raise_initial. intros. destruct (_ <? _); [apply add_credit_le|done]. Qed.

Lemma lookup_ok h id e c : handle_ok h → lookup h id = Some (e, c) →
  h_channels h !! id = Some e ∧ h_store h !! ce_chan e = Some c ∧ chan_ok c.
Proof.
  intros Hh. unfold lookup. destruct (h_channels h !! id) as [e'|]; [|done].
  destruct (h_store h !! ce_chan e') as [c'|] eqn:E; [|done]. intros [= <- <-].
  split; [done|]. split; [done|]. by apply (hk_chans h Hh (ce_chan e')).
Qed.

Lemma filter_reported_size (P : string * Z → Prop) `{∀ x, Decision (P x)} (m : gmap string Z) :
  (size (filter P m) ≤ size m)%nat.
Proof. apply map_subseteq_size, map_filter_subseteq. Qed.

Lemma first_report_at_ok h msg now : handle_ok h → handle_ok (first_report_at h msg now).2.
Proof.
  intros Hh. unfold first_report_at. destruct (is_empty msg); [done|].
  set (rep := filter _ _).
  assert (Z.of_nat (size rep) ≤ MAX_REPORTED_OPEN_ERRORS).
  { pose proof (hk_reported h Hh). pose proof (filter_reported_size
      (λ e, saturating_sub now e.2 < REPORT_AGAIN_AFTER) (reported h)). unfold rep. lia. }
  case_bool_decide as Hs; simpl; [|destruct (Z.leb_spec MAX_REPORTED_OPEN_ERRORS (Z.of_nat (size rep)));
    simpl]; apply ok_reported; try done.
  - rewrite map_size_insert_Some by done. done.
  - rewrite map_size_insert_None by (by apply eq_None_not_Some). lia.
Qed.

Lemma on_frame_ok h f now : handle_ok h → handle_ok (on_frame h f now).2.
Proof.
  intros Hh. destruct f as [id hst p win|id success msg win|id n|id|id add]; simpl; [done|..];
    (destruct (lookup h id) as [[e c]|] eqn:El; [|done]);
    apply lookup_ok in El as (He & Hc & Hok); try done.
  - destruct success.
    + destruct (opened e); [done|]. apply ok_chan.
      * destruct Hh. split; simpl; try done. by rewrite map_size_insert_Some by eauto.
      * apply chan_ok_credit; [done|]. apply raise_initial_le, Hok.
    + apply first_report_at_ok, ok_chan; [|by apply chan_ok_close].
      apply ok_shrink; [done|apply delete_subseteq].
  - pose proof (deliver_ok c n Hok) as Hd. destruct (deliver c n) as [d c']. simpl in *.
    destruct d; [by apply ok_chan|]. apply ok_shrink; [by apply ok_chan|apply delete_subseteq].
  - simpl. apply ok_chan; [|by apply chan_ok_close]. apply ok_shrink; [done|apply delete_subseteq].
  - simpl. apply ok_chan; [done|]. apply chan_ok_credit; [done|apply add_credit_le].
Qed.

Lemma open_ok h host port : handle_ok h → handle_ok (open h host port).2.
Proof.
  intros Hh. unfold open. destruct (sink_closed h); [done|].
  destruct (Z.leb_spec MAX_CHANNELS (Z.of_nat (size (h_channels h)))); [done|].
  destruct (alloc_id _ _ _) as [[id next]|] eqn:E; [|done].
  apply alloc_id_Some in E as (Hid & Hr & Hn); [|apply Hh]. destruct Hh. split; simpl; try done.
  - rewrite map_size_insert_None by done. lia.
  - apply map_Forall_insert_2; [|done]. split; by vm_compute.
Qed.

(** The controller's table under an arbitrary peer and arbitrary local use. *)
Inductive handle_step : TunnelHandle → TunnelHandle → Prop :=
| step_open h host port : handle_step h (open h host port).2
| step_frame h f now : handle_step h (on_frame h f now).2
| step_done h id : handle_step h (task_done h id)
| step_chan_task h r c c' : h_store h !! r = Some c → task_step c c' → handle_step h (with_chan h r c')
| step_close h : handle_step h (close_all h).

Lemma handle_step_ok h h' : handle_step h h' → handle_ok h → handle_ok h'.
Proof.
  intros Hs Hh. destruct Hs as [h host port|h f now|h id|h r c c' Hr Ht|h].
  - by apply open_ok.
  - by apply on_frame_ok.
  - apply ok_shrink; [done|apply delete_subseteq].
  - apply ok_chan; [done|]. eapply task_step_ok; [done|]. by apply (hk_chans h Hh r).
  - destruct Hh. by split.
Qed.

Lemma reachable_ok h : rtc handle_step handle_new h → handle_ok h.
Proof.
  intros Hr. assert (handle_ok handle_new) as H0 by (split; by vm_compute).
  revert H0. induction Hr as [|h1 h2 h3 H1 _ IH]; [done|]. eauto using handle_step_ok.
Qed.

(** In every state of the controller's table, whatever the peer sent, opening
    a channel on a live tunnel with fewer than [MAX_CHANNELS] channels succeeds:
    the search for an identifier ends, also after the counter has wrapped, with
    one that no live channel uses; the new channel does not share its queue,
    credit or window with any other, and the first frame of its task is the
    [open] with that identifier.  The table never exceeds [MAX_CHANNELS]. *)
Theorem open_finds_fresh_channel (h : TunnelHandle) (host : string) (port : Z) :
  rtc handle_step handle_new h → sink_closed h = false →
  Z.of_nat (size (h_channels h)) < MAX_CHANNELS →
  ∃ id h' r, open h host port = (Ok id, h') ∧ h_channels h !! id = None ∧
    i32_min ≤ id ≤ i32_max ∧
    h_channels h' = <[id := mkEntry r false]> (h_channels h) ∧ h_store h !! r = None ∧
    h_store h' !! r = Some (mkChan [] true INITIAL_WINDOW (mkWindow CHANNEL_WINDOW 0) [] true) ∧
    spawned h' = spawned h ++ [(id, Open id host port CHANNEL_WINDOW)] ∧
    Z.of_nat (size (h_channels h')) ≤ MAX_CHANNELS.
Proof.
  intros Hr%reachable_ok Hsink Hsz. pose proof (open_ok h host port Hr) as Hok.
  unfold open in *. rewrite Hsink in *.
  destruct (Z.leb_spec MAX_CHANNELS (Z.of_nat (size (h_channels h)))); [lia|].
  destruct (alloc_id_total (h_channels h) (next_id h)) as [[id next] E];
    [apply Hr|unfold MAX_CHANNELS in *; lia|].
  rewrite E in *. apply alloc_id_Some in E as (Hid & Hrange & _); [|apply Hr].
  eexists _, _, _. split; [done|]. split; [done|]. split; [done|]. split; [done|].
  split; [apply not_elem_of_dom, is_fresh|]. split; [cbn [h_store]; by rewrite lookup_insert_eq|].
  split; [done|]. apply Hok.
Qed.

(** ** Reports *)

(** A burst of refusals, each with its reason and time. *)
Fixpoint report_all (h : TunnelHandle) (burst : list (string * Z)) : list string * TunnelHandle :=
  match burst with
  | [] => ([], h)
  | (msg, now) :: burst =>
      let (r, h) := first_report_at h msg now in
      let (rs, h) := report_all h burst in
      (from_option (λ m, [m]) [] r ++ rs, h)
  end.

(** Every reason reported since [t] is still remembered with a time in the
    interval. *)
Definition remembers (t : Z) (h : TunnelHandle) (msgs : list string) : Prop :=
  ∀ m, m ∈ msgs → ∃ last, reported h !! m = Some last ∧ t ≤ last.

Lemma first_report_at_remembers t h msgs msg now :
  t ≤ now < t + REPORT_AGAIN_AFTER → remembers t h msgs →
  remembers t (first_report_at h msg now).2 msgs ∧
  ∀ m, (first_report_at h msg now).1 = Some m →
    m ∉ msgs ∧ remembers t (first_report_at h msg now).2 ((m :: msgs) : list string).
Proof.
  intros Ht Hrem. unfold first_report_at. destruct (is_empty msg); [done|].
  set (rep := filter _ (reported h)).
  assert (∀ m, m ∈ msgs → ∃ last, rep !! m = Some last ∧ t ≤ last) as Hrep.
  { intros m (last & Hl & Hle)%Hrem. exists last. split; [|done].
    apply map_lookup_filter_Some. split; [done|]. simpl. unfold saturating_sub, REPORT_AGAIN_AFTER in *. lia. }
  assert (∀ m, m ∈ msgs → ∃ last, <[msg := now]> rep !! m = Some last ∧ t ≤ last) as Hins.
  { intros m Hm. destruct (decide (m = msg)) as [->|Hne].
    - exists now. rewrite lookup_insert_eq. split; [done|lia].
    - rewrite lookup_insert_ne by done. by apply Hrep. }
  case_bool_decide as Hs; simpl; [by split|]. destruct (_ <=? _); simpl; [by split|].
  split; [done|]. intros m [= <-]. split.
  - intros (last & Hl & _)%Hrep. destruct Hs. eauto.
  - intros m [->|Hm]%elem_of_cons; [|by apply Hins].
    exists now. simpl. rewrite lookup_insert_eq. split; [done|lia].
Qed.

Lemma report_all_remembers t burst h msgs :
  Forall (λ e, t ≤ e.2 < t + REPORT_AGAIN_AFTER) burst → handle_ok h → NoDup msgs →
  remembers t h msgs →
  handle_ok (report_all h burst).2 ∧
  ∃ all, NoDup all ∧ length all = (length msgs + length (report_all h burst).1)%nat ∧
    remembers t (report_all h burst).2 all.
Proof.
  intros Hb. revert h msgs. induction Hb as [|[msg now] burst Hn _ IH]; intros h msgs Hh Hnd Hrem; simpl.
  { split; [done|]. exists msgs. split; [done|]. split; [simpl; lia|done]. }
  destruct (first_report_at_remembers t h msgs msg now Hn Hrem) as [Hk Hnew].
  pose proof (first_report_at_ok h msg now Hh) as Hh1.
  destruct (first_report_at h msg now) as [r h1]; simpl in *.
  assert (∃ msgs', NoDup msgs' ∧ remembers t h1 msgs' ∧
    length msgs' = (length msgs + length (from_option (λ m, [m]) [] r))%nat) as (msgs' & Hnd' & Hrem' & Hl').
  { destruct r as [m|]; simpl; [|exists msgs; split; [done|split; [done|lia]]].
    destruct (Hnew m eq_refl) as [? ?]. exists (m :: msgs). split; [by constructor|]. split; [done|simpl; lia]. }
  destruct (IH h1 msgs' Hh1 Hnd' Hrem') as (Hok & all & Hna & Hla & Hra).
  destruct (report_all h1 burst) as [rs h2]; simpl in *. split; [done|]. exists all.
  split; [done|]. split; [|done]. rewrite length_app. lia.
Qed.

(** However many channels a peer refuses, and whatever reasons it invents, the
    user sees at most [MAX_REPORTED_OPEN_ERRORS] reports in any ten seconds. *)
Theorem reports_bounded (h : TunnelHandle) (t : Z) (burst : list (string * Z)) :
  rtc handle_step handle_new h → Forall (λ e, t ≤ e.2 < t + REPORT_AGAIN_AFTER) burst →
  Z.of_nat (length (report_all h burst).1) ≤ MAX_REPORTED_OPEN_ERRORS.
Proof.
  intros Hr%reachable_ok Hb.
  destruct (report_all_remembers t burst h [] Hb Hr) as (Hok & all & Hnd & Hl & Hrem);
    [constructor|by intros ? ?%elem_of_nil|].
  pose proof (hk_reported _ Hok) as Hs. simpl in Hl. rewrite <- Hl.
  assert (list_to_set all ⊆@{gset string} dom (reported (report_all h burst).2)) as Hsub.
  { intros m (last & Hm & _)%elem_of_list_to_set%Hrem. apply elem_of_dom. eauto. }
  apply subseteq_size in Hsub. rewrite size_list_to_set, size_dom in Hsub by done. lia.
Qed.

Lemma open_finds_fresh_channel_witness :
  ∃ h', open handle_new "localhost" 22 = (Ok 1, h').
Proof.
  destruct (open_finds_fresh_channel handle_new "localhost" 22) as (id & h' & r & E & _);
    [apply rtc_refl|done|done|].
  exists h'. assert (id = 1) as -> by (by vm_compute in E; injection E). exact E.
Defined.

Lemma reports_bounded_witness :
  Z.of_nat (length (report_all handle_new [("a", 5); ("a", 6); ("b", 7)]).1) ≤ 8 ∧
  (report_all handle_new [("a", 5); ("a", 6); ("b", 7)]).1 = ["a"; "b"].
Proof.
  split; [|by vm_compute].
  apply (reports_bounded handle_new 0 [("a", 5); ("a", 6); ("b", 7)]); [apply rtc_refl|].
  repeat constructor; by vm_compute.
Defined.

End Tunnel.
