(* ===== verification/Peer.v ===== *)
(** * The peer directory of the rendezvous server

    [server/src/peer.rs] and [server/src/database.rs]: the peers in memory, the
    table they are stored in, and registration of a key.  A peer in memory is a
    shared object that is never replaced, so the map from identifiers to peers
    stands for the shared objects.  The table holds rows under their guid, with a
    unique identifier each; whether a statement reaches the database is an
    argument.  Instants are in nanoseconds. *)
From S2P Require Import Prelude RustStd Net.

Module Peers.

Definition NS_PER_SEC : Z := 1000000000.
Definition NS_PER_MS : Z := 1000000.

(** [t.elapsed().as_secs()] and [t.elapsed().as_millis()] at time [now]. *)
Definition elapsed_secs (now t : Z) : Z := saturating_sub now t / NS_PER_SEC.
Definition elapsed_millis (now t : Z) : Z := saturating_sub now t / NS_PER_MS.

Definition IP_CHANGE_DUR : Z := 180.
Definition IP_CHANGE_DUR_X2 : Z := IP_CHANGE_DUR * 2.
Definition DAY_SECONDS : Z := 3600 * 24.
Definition IP_BLOCK_DUR : Z := 60.

Record PeerInfo : Type := mkInfo { ip : string }.

Record Peer : Type := mkPeer {
  socket_addr : SocketAddr;
  last_reg_time : Z;
  guid : list byte;
  uuid : list byte;
  pk : list byte;
  info : PeerInfo;
  reg_pk : Z * Z;
}.

(** [get_expired_time]: an hour ago (the clock is far enough from its origin). *)
Definition get_expired_time (now : Z) : Z := now - 3600 * NS_PER_SEC.

Definition any_addr : SocketAddr := SaV4 unspecified4 0.

Definition default_peer (now : Z) : Peer :=
  mkPeer any_addr (get_expired_time now) [] [] [] (mkInfo "") (0, get_expired_time now).

(** ** The database *)
Record Row : Type := mkRow {
  r_id : string;
  r_uuid : list byte;
  r_pk : list byte;
  r_info : string;
}.

Definition Table : Type := gmap (list byte) Row.

Definition find_row (t : Table) (id : string) : option (list byte * Row) :=
  head (filter (λ gr, r_id gr.2 = id) (map_to_list t)).

(** [insert into peer ...]: refused when the identifier is taken. *)
Definition insert_peer (t : Table) (reaches : bool) (g : list byte) (id : string)
    (uuid pk : list byte) (info : string) : option Table :=
  if reaches && bool_decide (t !! g = None) && bool_decide (find_row t id = None)
  then Some (<[g := mkRow id uuid pk info]> t) else None.

(** [update peer set id=?, pk=?, info=? where guid=?]: refused when it would give
    two rows one identifier; without a row of that guid nothing changes. *)
Definition update_row (t : Table) (reaches : bool) (g : list byte) (id : string) (pk : list byte)
    (info : string) : option Table :=
  if negb reaches then None
  else
    match t !! g with
    | None => Some t
    | Some r =>
        match find_row t id with
        | Some (g', _) => if bool_decide (g' = g) then Some (<[g := mkRow id (r_uuid r) pk info]> t)
                          else None
        | None => Some (<[g := mkRow id (r_uuid r) pk info]> t)
        end
    end.

(** ** The directory *)
Record PeerMap : Type := mkPeerMap {
  map : gmap string Peer;
  db : Table;
}.

(** What the surroundings decide: whether the database answers and the guid the
    next insertion draws. *)
Record Draw : Type := mkDraw {
  db_up : bool;
  new_guid : list byte;
}.

Inductive RegisterResult : Type := OK | UUID_MISMATCH | TOO_FREQUENT | NOT_SUPPORT | SERVER_ERROR.

Definition put (pm : PeerMap) (id : string) (p : Peer) : PeerMap := mkPeerMap (<[id := p]> (map pm)) (db pm).

Section Directory.
(** [serde_json::to_string] and [from_str] of a [PeerInfo]. *)
Context (to_json : PeerInfo → string) (from_json : string → option PeerInfo).

Definition update_pk (pm : PeerMap) (d : Draw) (now : Z) (id : string) (p : Peer)
    (addr : SocketAddr) (new_uuid new_pk : list byte) (new_ip : string) : RegisterResult * PeerMap :=
  let p := mkPeer addr now (guid p) new_uuid new_pk (mkInfo new_ip) (reg_pk p) in
  let pm := put pm id p in
  let info_str := to_json (info p) in
  if bool_decide (guid p = []) then
    match insert_peer (db pm) (db_up d) (new_guid d) id new_uuid new_pk info_str with
    | None => (SERVER_ERROR, pm)
    | Some t =>
        (OK, mkPeerMap (<[id := mkPeer addr now (new_guid d) new_uuid new_pk (mkInfo new_ip) (reg_pk p)]>
                          (map pm)) t)
    end
  else
    match update_row (db pm) (db_up d) (guid p) id new_pk info_str with
    | None => (SERVER_ERROR, pm)
    | Some t => (OK, mkPeerMap (map pm) t)
    end.

Definition get (pm : PeerMap) (d : Draw) (now : Z) (id : string) : option Peer * PeerMap :=
  match map pm !! id with
  | Some p => (Some p, pm)
  | None =>
      match (if db_up d then find_row (db pm) id else None) with
      | Some (g, r) =>
          let p := mkPeer any_addr (get_expired_time now) g (r_uuid r) (r_pk r)
                     (default (mkInfo "") (from_json (r_info r))) (0, get_expired_time now) in
          (Some p, put pm id p)
      | None => (None, pm)
      end
  end.

Definition get_or (pm : PeerMap) (d : Draw) (now : Z) (id : string) : Peer * PeerMap :=
  match get pm d now id with
  | (Some p, pm) => (p, pm)
  | (None, pm) =>
      match map pm !! id with
      | Some p => (p, pm)
      | None => (default_peer now, put pm id (default_peer now))
      end
  end.
End Directory.

Definition get_in_memory (pm : PeerMap) (id : string) : option Peer := map pm !! id.
Definition is_in_memory (pm : PeerMap) (id : string) : bool := bool_decide (is_Some (map pm !! id)).

(** ** Facts about the directory *)

Lemma find_row_Some t id g r : find_row t id = Some (g, r) → t !! g = Some r ∧ r_id r = id.
Proof.
  unfold find_row. intros H. destruct (filter _ _) as [|x l] eqn:E; [done|]. simpl in H.
  assert ((g, r) ∈ filter (λ gr : list byte * Row, r_id gr.2 = id) (map_to_list t)) as Hin.
  { rewrite E. injection H as ->. left. }
  apply list_elem_of_filter in Hin as [Hid Hin]. by apply elem_of_map_to_list in Hin.
Qed.

Lemma find_row_None t id : find_row t id = None ↔ ∀ g r, t !! g = Some r → r_id r ≠ id.
Proof.
  unfold find_row. split.
  - intros H g r Hg Hid. destruct (filter _ _) as [|x l] eqn:E; [|done].
    assert ((g, r) ∈ filter (λ gr : list byte * Row, r_id gr.2 = id) (map_to_list t)) as Hin.
    { apply list_elem_of_filter. split; [done|]. by apply elem_of_map_to_list. }
    rewrite E in Hin. by apply elem_of_nil in Hin.
  - intros H. destruct (filter _ _) as [|[g r] l] eqn:E; [done|].
    assert ((g, r) ∈ filter (λ gr : list byte * Row, r_id gr.2 = id) (map_to_list t)) as Hin
      by (rewrite E; left).
    apply list_elem_of_filter in Hin as [Hid Hin]. apply elem_of_map_to_list in Hin.
    by destruct (H g r Hin).
Qed.

End Peers.
