(* ===== verification/Rendezvous.v ===== *)
(** * The rendezvous server

    [server/src/rendezvous_server.rs]: the handlers of UDP and TCP messages over
    the peer directory, the limiters, the relay list and the registry of
    authenticated TCP sessions.  A handler takes the server state and the time and
    returns the new state with what it sends.  Message parsing, signatures, host
    name resolution and network masks are parameters. *)
From S2P Require Import Prelude RustStd Net NetText Peer.
From Stdlib Require Import Ascii.
Import Peers.

Module Rendezvous.

Definition REG_TIMEOUT : Z := 30000.
Definition PUNCH_REQ_DEDUPE_SEC : Z := 60.
Definition NAT_SYMMETRIC : Z := 2.

Record ConfigUpdate : Type := mkCu { cu_serial : Z; cu_servers : list string }.

Inductive Failure : Type := NoFailure | ID_NOT_EXIST | OFFLINE | LICENSE_MISMATCH.

Record PunchHoleResponse : Type := mkPhr {
  phr_socket_addr : list byte;
  phr_pk : list byte;
  phr_failure : Failure;
  phr_nat_type : option Z;
  phr_relay_server : string;
  phr_is_local : bool;
}.

Definition failed_phr (f : Failure) : PunchHoleResponse := mkPhr [] [] f None "" false.

(** [RelayResponse]: its union holds the id the peer sent or the key the server
    puts there; an absent id reads as empty. *)
Inductive IdOrPk : Type := RrNone | RrId (id : string) | RrPk (pk : list byte).

Record RelayResponse : Type := mkRr {
  rr_socket_addr : list byte;
  rr_uuid : string;
  rr_union : IdOrPk;
  rr_relay_server : string;
  rr_refuse_reason : string;
  rr_version : string;
}.

Definition rr_id (rr : RelayResponse) : string :=
  match rr_union rr with RrId id => id | _ => "" end.

(** Fields of [RequestRelay] that the server passes on unread are left out. *)
Record RequestRelay : Type := mkRf {
  rf_id : string;
  rf_uuid : string;
  rf_socket_addr : list byte;
  rf_relay_server : string;
}.

Inductive Message : Type :=
| RegisterPeer (id : string) (serial : Z)
| RegisterPk (id : string) (uuid pk : list byte)
| PunchHoleRequest (id licence_key : string) (nat_type : Z)
| PunchHoleSent (socket_addr : list byte) (id relay_server version : string) (nat_type : Z)
| LocalAddr (socket_addr local_addr : list byte) (relay_server id version : string)
| ConfigureUpdate (cu : ConfigUpdate)
| SoftwareUpdate (url : string)
| MRequestRelay (rf : RequestRelay)
| MRelayResponse (rr : RelayResponse)
| TestNatRequest (serial : Z)
| OnlineRequest (peers : list string)
| RegisterPeerResponse (request_pk : bool)
| RegisterPkResponse (res : RegisterResult)
| MPunchHoleResponse (p : PunchHoleResponse)
| FetchLocalAddr (socket_addr : list byte) (relay_server : string)
| PunchHole (socket_addr : list byte) (nat_type : Z) (relay_server : string)
| TestNatResponse (port : Z) (cu : option ConfigUpdate)
| OnlineResponse (states : list byte).

(** What a handler emits: a datagram, a frame on a connection's write half, or a
    message queued for the main loop to deliver to a peer's address. *)
Inductive Out : Type :=
| Udp (m : Message) (to : SocketAddr)
| Tcp (conn : Z) (m : Message)
| Queue (m : Message) (to : SocketAddr)
| SetRelayServers0 (rs : string).

Record PunchReqEntry : Type := mkPunchReq {
  pr_tm : Z;
  pr_from_ip : string;
  pr_to_ip : string;
  pr_to_id : string;
}.

Record Server : Type := mkServer {
  pm : PeerMap;
  ip_blocker : gmap string ((Z * Z) * (gset string * Z));
  ip_changes : gmap string (Z * gmap string Z);
  tcp_punch : gmap SocketAddr Z;
  tcp_senders : gmap SocketAddr Z;
  relay_servers : list string;
  relay_servers0 : list string;
  rendezvous_servers : list string;
  serial : Z;
  rotation : Z;
  always_use_relay : bool;
  punch_reqs : list PunchReqEntry;
}.

Definition with_pm (s : Server) (p : PeerMap) : Server :=
  mkServer p (ip_blocker s) (ip_changes s) (tcp_punch s) (tcp_senders s) (relay_servers s)
    (relay_servers0 s) (rendezvous_servers s) (serial s) (rotation s) (always_use_relay s) (punch_reqs s).
Definition with_blocker (s : Server) b : Server :=
  mkServer (pm s) b (ip_changes s) (tcp_punch s) (tcp_senders s) (relay_servers s)
    (relay_servers0 s) (rendezvous_servers s) (serial s) (rotation s) (always_use_relay s) (punch_reqs s).
Definition with_changes (s : Server) c : Server :=
  mkServer (pm s) (ip_blocker s) c (tcp_punch s) (tcp_senders s) (relay_servers s)
    (relay_servers0 s) (rendezvous_servers s) (serial s) (rotation s) (always_use_relay s) (punch_reqs s).
Definition with_punch (s : Server) c : Server :=
  mkServer (pm s) (ip_blocker s) (ip_changes s) c (tcp_senders s) (relay_servers s)
    (relay_servers0 s) (rendezvous_servers s) (serial s) (rotation s) (always_use_relay s) (punch_reqs s).
Definition with_senders (s : Server) c : Server :=
  mkServer (pm s) (ip_blocker s) (ip_changes s) (tcp_punch s) c (relay_servers s)
    (relay_servers0 s) (rendezvous_servers s) (serial s) (rotation s) (always_use_relay s) (punch_reqs s).
Definition with_relays (s : Server) r r0 : Server :=
  mkServer (pm s) (ip_blocker s) (ip_changes s) (tcp_punch s) (tcp_senders s) r
    r0 (rendezvous_servers s) (serial s) (rotation s) (always_use_relay s) (punch_reqs s).
Definition with_config (s : Server) sr rv : Server :=
  mkServer (pm s) (ip_blocker s) (ip_changes s) (tcp_punch s) (tcp_senders s) (relay_servers s)
    (relay_servers0 s) rv sr (rotation s) (always_use_relay s) (punch_reqs s).
Definition with_rotation (s : Server) n : Server :=
  mkServer (pm s) (ip_blocker s) (ip_changes s) (tcp_punch s) (tcp_senders s) (relay_servers s)
    (relay_servers0 s) (rendezvous_servers s) (serial s) n (always_use_relay s) (punch_reqs s).
Definition with_always (s : Server) b : Server :=
  mkServer (pm s) (ip_blocker s) (ip_changes s) (tcp_punch s) (tcp_senders s) (relay_servers s)
    (relay_servers0 s) (rendezvous_servers s) (serial s) (rotation s) b (punch_reqs s).
Definition with_reqs (s : Server) l : Server :=
  mkServer (pm s) (ip_blocker s) (ip_changes s) (tcp_punch s) (tcp_senders s) (relay_servers s)
    (relay_servers0 s) (rendezvous_servers s) (serial s) (rotation s) (always_use_relay s) l.

(** The limiter of registrations per source address. *)
Definition check_ip_blocker (s : Server) (now : Z) (ip id : string) : bool * Server :=
  match ip_blocker s !! ip with
  | None => (true, with_blocker s (<[ip := ((0, now), (∅, now))]> (ip_blocker s)))
  | Some ((count, tm), (ids, day)) =>
      let expired := IP_BLOCK_DUR <? elapsed_secs now tm in
      if negb expired && (30 <? count) then (false, s)
      else
        let first := (if expired then 1 else count + 1, now) in
        let is_new := negb (bool_decide (id ∈ ids)) in
        let day_over := DAY_SECONDS <? elapsed_secs now day in
        if negb day_over && (300 <? Z.of_nat (size ids))
        then (negb is_new, with_blocker s (<[ip := (first, (ids, day))]> (ip_blocker s)))
        else
          let ids := if day_over then ∅ else ids in
          let ids := if is_new then {[id]} ∪ ids else ids in
          (true, with_blocker s (<[ip := (first, (ids, now))]> (ip_blocker s)))
  end.

(** [ROTATION_RELAY_SERVER.fetch_add(1) % len] *)
Definition get_relay_server (s : Server) : string * Server :=
  match relay_servers s with
  | [] => ("", s)
  | [x] => (x, s)
  | l => (nth (Z.to_nat (rotation s mod len l)) l "",
          with_rotation s ((rotation s + 1) mod 2 ^ 64))
  end.

(** The record of IP changes of a peer. *)
Definition note_ip_change (s : Server) (now : Z) (id ip : string) : Server :=
  let entry :=
    match ip_changes s !! id with
    | Some (tm, ips) =>
        if IP_CHANGE_DUR <? elapsed_secs now tm then (now, {[ip := 1]})
        else match ips !! ip with
             | Some v => (tm, <[ip := v + 1]> ips)
             | None => (tm, <[ip := 1]> ips)
             end
    | None => (now, {[ip := 1]})
    end in
  with_changes s (<[id := entry]> (ip_changes s)).

(** The limiter of registrations per peer: the new [reg_pk], or [None]. *)
Definition reg_pk_limit (now : Z) (r : Z * Z) : option (Z * Z) :=
  if 6 <? elapsed_secs now r.2 then Some (1, now)
  else if 2 <? r.1 then None
  else Some (r.1 + 1, now).

Definition set_reg_pk (p : Peer) (r : Z * Z) : Peer :=
  mkPeer (socket_addr p) (last_reg_time p) (guid p) (uuid p) (pk p) (info p) r.
Definition set_addr (p : Peer) (a : SocketAddr) (now : Z) : Peer :=
  mkPeer a now (guid p) (uuid p) (pk p) (info p) (reg_pk p).

(** The identity check shared by the UDP and the TCP handler: whether the key, the
    uuid or the address changed and whether the address did, or [None] when the
    registration is refused. *)
Definition identity_check (p : Peer) (u k : list byte) (src_ip : string) : option (bool * bool) :=
  if bool_decide (uuid p = []) then Some (true, false)
  else if bool_decide (uuid p = u) then
    if negb (ip (info p) ==s src_ip) && negb (bool_decide (pk p = k)) then None
    else
      let ip_changed := negb (ip (info p) ==s src_ip) in
      Some (negb (bool_decide (pk p = k)) || ip_changed, ip_changed)
  else None.

Section Server.
Context {SecretKey : Type}.
(** The signature over the serialised identity and key of a peer. *)
Context (sign_id_pk : SecretKey → string → list byte → list byte).
Context (to_json : PeerInfo → string) (from_json : string → option PeerInfo).
(** Whether a host name resolves ([test_if_valid_server]). *)
Context (valid_server : string → bool).

Record Inner : Type := mkInner {
  version : string;
  software_url : string;
  mask : option (Ipv4Addr → bool);
  local_ip : string;
  sk : option SecretKey;
}.

Definition get_servers (l : string) : list string :=
  filter (λ x, negb (is_empty x) && valid_server x = true) (split ","%char l).

Definition parse_relay_servers (s : Server) (l : string) : Server :=
  let rs := get_servers l in with_relays s rs rs.

Definition is_lan (i : Inner) (addr : SocketAddr) : bool :=
  match mask i with
  | Some network =>
      match addr with
      | SaV4 a _ => network a
      | SaV6 a _ _ _ => match to_ipv4 a with Some v4 => network v4 | None => false end
      end
  | None => false
  end.

Definition get_pk (i : Inner) (s : Server) (d : Draw) (now : Z) (ver id : string)
    : list byte * Server :=
  match sk i with
  | Some key =>
      if is_empty ver then ([], s)
      else
        match get from_json (pm s) d now id with
        | (Some p, m) => (sign_id_pk key id (pk p), with_pm s m)
        | (None, m) => ([], with_pm s m)
        end
  | None => ([], s)
  end.

(** *** Registration *)

Definition update_addr (s : Server) (now : Z) (id : string) (a : SocketAddr) : Server * Out :=
  match get_in_memory (pm s) id with
  | Some old =>
      let ip_change :=
        (if negb (sa_port (socket_addr old) =? 0)
         then negb (bool_decide (sa_ip a = sa_ip (socket_addr old)))
         else negb (ip_to_string (sa_ip a) ==s ip (info old)))
        && negb (is_loopback (sa_ip a)) in
      let request_pk := bool_decide (pk old = []) || ip_change in
      let s := if request_pk then s else with_pm s (put (pm s) id (set_addr old a now)) in
      (s, Udp (RegisterPeerResponse request_pk) a)
  | None => (s, Udp (RegisterPeerResponse true) a)
  end.

(** The part of both [RegisterPk] handlers behind the first checks: the directory
    entry, the identity check, the limiter, the record and the update. *)
Definition register_known (s : Server) (d : Draw) (now : Z) (id : string) (u k : list byte)
    (addr : SocketAddr) : RegisterResult * Server :=
  let src_ip := ip_to_string (sa_ip addr) in
  let (p, m) := get_or from_json (pm s) d now id in
  let s := with_pm s m in
  match identity_check p u k src_ip with
  | None => (UUID_MISMATCH, s)
  | Some (changed, ip_changed) =>
      match reg_pk_limit now (reg_pk p) with
      | None => (TOO_FREQUENT, s)
      | Some r =>
          let p := set_reg_pk p r in
          let s := with_pm s (put (pm s) id p) in
          let s := if ip_changed then note_ip_change s now id src_ip else s in
          if changed then
            let (res, m) := update_pk to_json (pm s) d now id p addr u k src_ip in
            (res, with_pm s m)
          else (OK, s)
      end
  end.

(** UDP: the answer after the limiters is [OK] whatever [update_pk] returned. *)
Definition udp_register_pk (s : Server) (d : Draw) (now : Z) (id : string) (u k : list byte)
    (addr : SocketAddr) : Server * list Out :=
  let answer r := [Udp (RegisterPkResponse r) addr] in
  if bool_decide (u = []) || bool_decide (k = []) then (s, [])
  else if str_len id <? 6 then (s, answer UUID_MISMATCH)
  else
    let (pass, s) := check_ip_blocker s now (ip_to_string (sa_ip addr)) id in
    if negb pass then (s, answer TOO_FREQUENT)
    else
      let (res, s) := register_known s d now id u k addr in
      (s, answer (match res with SERVER_ERROR => OK | r => r end)).

Definition handle_tcp_register_pk (s : Server) (d : Draw) (now : Z) (id : string) (u k : list byte)
    (addr : SocketAddr) : RegisterResult * Server :=
  if bool_decide (u = []) || bool_decide (k = []) then (NOT_SUPPORT, s)
  else if str_len id <? 6 then (UUID_MISMATCH, s)
  else register_known s d now id u k addr.

(** *** UDP *)
Definition handle_udp (i : Inner) (s : Server) (d : Draw) (now : Z) (m : Message) (addr : SocketAddr)
    : Server * list Out :=
  match m with
  | RegisterPeer id sr =>
      if is_empty id then (s, [])
      else
        let (s, o) := update_addr s now id addr in
        (s, o :: if sr <? serial s
                 then [Udp (ConfigureUpdate (mkCu (serial s) (rendezvous_servers s))) addr] else [])
  | RegisterPk id u k => udp_register_pk s d now id u k addr
  | ConfigureUpdate cu =>
      if is_loopback (sa_ip (try_into_v4 addr)) && (serial s <? cu_serial cu)
      then (with_config s (cu_serial cu)
              (filter (λ x, negb (is_empty x) && valid_server x = true) (cu_servers cu)), [])
      else (s, [])
  | SoftwareUpdate url =>
      if negb (is_empty (version i)) && negb (url ==s version i)
      then (s, [Udp (SoftwareUpdate (software_url i)) addr]) else (s, [])
  | _ => (s, [])
  end.

(** *** TCP *)

(** [send_to_tcp] and [send_to_tcp_sync]: the write half parked for an address
    gets the message, once. *)
Definition send_to_tcp (s : Server) (m : Message) (a : SocketAddr) : Server * list Out :=
  let key := try_into_v4 a in
  (with_punch s (delete key (tcp_punch s)),
   match tcp_punch s !! key with Some conn => [Tcp conn m] | None => [] end).

(** [phs.nat_type.enum_value()] *)
Definition nat_type_known (n : Z) : option Z := if (0 <=? n) && (n <=? 2) then Some n else None.

Definition handle_hole_sent (i : Inner) (s : Server) (d : Draw) (now tm : Z) (sa : list byte)
    (id relay ver : string) (nat_type : Z) (addr : SocketAddr) : Server * list Out :=
  let addr_a := decode sa in
  let (k, s) := get_pk i s d now ver id in
  send_to_tcp s
    (MPunchHoleResponse (mkPhr (encode tm addr) k NoFailure (nat_type_known nat_type) relay false)) addr_a.

Definition handle_local_addr (i : Inner) (s : Server) (d : Draw) (now : Z) (sa la : list byte)
    (relay id ver : string) : Server * list Out :=
  let addr_a := decode sa in
  let (k, s) := get_pk i s d now ver id in
  send_to_tcp s (MPunchHoleResponse (mkPhr la k NoFailure None relay true)) addr_a.

(** The recent requests are searched from the end for one of the same source and
    target; the first found decides. *)
Definition is_duplicate (now : Z) (from to_id : string) (reqs : list PunchReqEntry) : bool :=
  match filter (λ e, pr_from_ip e = from ∧ pr_to_id e = to_id) (take 30 (reverse reqs)) with
  | e :: _ => elapsed_secs now (pr_tm e) <? PUNCH_REQ_DEDUPE_SEC
  | [] => false
  end.

Definition same_ip (a b : SocketAddr) : bool :=
  match a, b with
  | SaV4 x _, SaV4 y _ => bool_decide (x = y)
  | SaV6 x _ _ _, SaV6 y _ _ _ => bool_decide (x = y)
  | _, _ => false
  end.

Definition handle_punch_hole_request (i : Inner) (s : Server) (d : Draw) (now tm : Z)
    (addr : SocketAddr) (id licence_key : string) (nat_type : Z) (key : string)
    (ws vless_authenticated : bool) : Server * Message * option SocketAddr :=
  if negb (is_empty key) && negb (licence_key ==s key)
  then (s, MPunchHoleResponse (failed_phr LICENSE_MISMATCH), None)
  else
    match get from_json (pm s) d now id with
    | (None, m) => (with_pm s m, MPunchHoleResponse (failed_phr ID_NOT_EXIST), None)
    | (Some p, m) =>
        let s := with_pm s m in
        if REG_TIMEOUT <=? elapsed_millis now (last_reg_time p)
        then (s, MPunchHoleResponse (failed_phr OFFLINE), None)
        else
          let peer_addr := socket_addr p in
          let from_ip := ip_to_string (sa_ip (try_into_v4 addr)) in
          let to_ip := ip_to_string (sa_ip (try_into_v4 peer_addr)) in
          let s := if is_duplicate now from_ip id (punch_reqs s) then s
                   else with_reqs s (punch_reqs s ++ [mkPunchReq now from_ip to_ip id]) in
          let peer_is_vless := bool_decide (is_Some (tcp_senders s !! try_into_v4 peer_addr)) in
          let peer_is_lan := negb peer_is_vless && is_lan i peer_addr in
          let lan := negb vless_authenticated && is_lan i addr in
          let (relay, s) := get_relay_server s in
          let force := always_use_relay s || xorb peer_is_lan lan in
          let relay := if force && peer_is_lan then local_ip i else relay in
          let nat_type := if force then NAT_SYMMETRIC else nat_type in
          let same_intranet :=
            negb vless_authenticated && negb peer_is_vless && negb ws
            && (peer_is_lan && lan || same_ip peer_addr addr) in
          (s,
           if same_intranet then FetchLocalAddr (encode tm addr) relay
           else PunchHole (encode tm addr) nat_type relay,
           Some peer_addr)
    end.

Definition handle_tcp_punch_hole_request (i : Inner) (s : Server) (d : Draw) (now tm : Z)
    (addr : SocketAddr) (id licence_key : string) (nat_type : Z) (key : string)
    (ws vless_authenticated : bool) : Server * list Out :=
  match handle_punch_hole_request i s d now tm addr id licence_key nat_type key ws vless_authenticated with
  | (s, m, Some to) => (s, [Queue m to])
  | (s, m, None) => send_to_tcp s m addr
  end.

(** The write half of a connection is parked under its address while a request is
    pending. *)
Definition park (s : Server) (sink : option Z) (addr : SocketAddr) : Server :=
  match sink with
  | Some conn => with_punch s (<[try_into_v4 addr := conn]> (tcp_punch s))
  | None => s
  end.

Definition send_to_sink (sink : option Z) (m : Message) : list Out :=
  match sink with Some conn => [Tcp conn m] | None => [] end.

(** The result: whether the connection goes on, what is left of its write half,
    the state and what is sent. *)
Definition handle_tcp (i : Inner) (s : Server) (d : Draw) (now tm : Z) (m : Message)
    (sink : option Z) (addr : SocketAddr) (key : string) (ws vless_authenticated : bool)
    : bool * option Z * Server * list Out :=
  match m with
  | PunchHoleRequest id lk nat_type =>
      let s := park s sink addr in
      let (s, o) := handle_tcp_punch_hole_request i s d now tm addr id lk nat_type key ws
                      vless_authenticated in
      (true, None, s, o)
  | MRequestRelay rf =>
      let s := park s sink addr in
      (true, None, s,
       match get_in_memory (pm s) (rf_id rf) with
       | Some p => [Queue (MRequestRelay (mkRf (rf_id rf) (rf_uuid rf) (encode tm addr)
                                               (rf_relay_server rf))) (socket_addr p)]
       | None => []
       end)
  | MRelayResponse rr =>
      let addr_b := decode (rr_socket_addr rr) in
      let (union, s) := if is_empty (rr_id rr) then (rr_union rr, s)
                        else let (k, s) := get_pk i s d now (rr_version rr) (rr_id rr) in (RrPk k, s) in
      let (relay, s) :=
        if is_empty (rr_relay_server rr) then (rr_relay_server rr, s)
        else
          let target_is_vless := bool_decide (is_Some (tcp_senders s !! try_into_v4 addr_b)) in
          if is_lan i addr_b && negb target_is_vless then (local_ip i, s)
          else if rr_relay_server rr ==s local_ip i then get_relay_server s
          else (rr_relay_server rr, s) in
      let (s, o) := send_to_tcp s
                      (MRelayResponse (mkRr [] (rr_uuid rr) union relay (rr_refuse_reason rr)
                                            (rr_version rr))) addr_b in
      (false, sink, s, o)
  | PunchHoleSent sa id relay ver nt =>
      let (s, o) := handle_hole_sent i s d now tm sa id relay ver nt addr in (false, sink, s, o)
  | LocalAddr sa la relay id ver =>
      let (s, o) := handle_local_addr i s d now sa la relay id ver in (false, sink, s, o)
  | TestNatRequest sr =>
      (false, sink, s,
       send_to_sink sink
         (TestNatResponse (sa_port addr)
            (if sr <? serial s then Some (mkCu (serial s) (rendezvous_servers s)) else None)))
  | RegisterPeer id _ =>
      if negb vless_authenticated then (false, sink, s, [])
      else if is_empty id then (true, sink, s, [])
      else
        match get_in_memory (pm s) id with
        | Some old =>
            let request_pk := bool_decide (pk old = []) in
            let s := if request_pk then s else with_pm s (put (pm s) id (set_addr old addr now)) in
            (true, sink, s, send_to_sink sink (RegisterPeerResponse request_pk))
        | None => (true, sink, s, send_to_sink sink (RegisterPeerResponse true))
        end
  | RegisterPk id u k =>
      if vless_authenticated then
        let (res, s) := handle_tcp_register_pk s d now id u k addr in
        (true, sink, s, send_to_sink sink (RegisterPkResponse res))
      else (false, sink, s, send_to_sink sink (RegisterPkResponse NOT_SUPPORT))
  | _ => (false, sink, s, [])
  end.

End Server.

(** *** Queries *)

(** [states[i / 8] |= 1 << (7 - i % 8)] *)
Definition set_bit (states : list byte) (i : nat) : list byte :=
  let idx := (i / 8)%nat in
  let old := b2z (nth idx states Byte.x00) in
  <[idx := z2b (Z.lor old (Z.shiftl 1 (7 - Z.of_nat (i mod 8)%nat)))]> states.

Definition online (s : Server) (now : Z) (id : string) : bool :=
  match get_in_memory (pm s) id with
  | Some p => elapsed_millis now (last_reg_time p) <? REG_TIMEOUT
  | None => false
  end.

Fixpoint mark_online (s : Server) (now : Z) (peers : list string) (i : nat) (states : list byte)
    : list byte :=
  match peers with
  | [] => states
  | id :: peers =>
      mark_online s now peers (S i) (if online s now id then set_bit states i else states)
  end.

Definition handle_online_request (s : Server) (now : Z) (peers : list string) : Message :=
  OnlineResponse
    (mark_online s now peers 0 (replicate ((length peers + 7) / 8)%nat Byte.x00)).

(** [handle_listener2] on a framed connection. *)
Definition handle_listener2 (s : Server) (now : Z) (m : Message) (addr : SocketAddr) : option Message :=
  match m with
  | TestNatRequest _ => Some (TestNatResponse (sa_port addr) None)
  | OnlineRequest peers => Some (handle_online_request s now peers)
  | _ => None
  end.

(** Connections to the NAT port that reach the console instead. *)
Definition is_console (addr : SocketAddr) (vless_authenticated : bool) : bool :=
  is_loopback (sa_ip (try_into_v4 addr)) && negb vless_authenticated.

(** [parse_vless_internal_addr_value] *)
Inductive addr_error : Type := InvalidAddr | NotLoopback.

Definition parse_vless_internal_addr_value (value : string) : result (option SocketAddr) addr_error :=
  let value := trim value in
  if is_empty value then Ok None
  else match parse_socket_addr value with
       | None => Err InvalidAddr
       | Some addr => if is_loopback (sa_ip addr) then Ok (Some addr) else Err NotLoopback
       end.

(** The main loop on a queued message: over the peer's authenticated TCP session
    if its address has one, else a datagram. *)
Definition deliver (s : Server) (m : Message) (to : SocketAddr) : Out :=
  match tcp_senders s !! try_into_v4 to with
  | Some conn => Tcp conn m
  | None => Udp m to
  end.

(** The life of a framed connection: an authenticated one is registered for
    pushes while it lasts; at the end a parked write half is dropped. *)
Definition session_start (s : Server) (conn : Z) (addr : SocketAddr) (vless_authenticated : bool) : Server :=
  if vless_authenticated then with_senders s (<[try_into_v4 addr := conn]> (tcp_senders s)) else s.

Definition session_end (s : Server) (sink : option Z) (addr : SocketAddr) (vless_authenticated : bool)
    : Server :=
  let s := if vless_authenticated then with_senders s (delete (try_into_v4 addr) (tcp_senders s)) else s in
  match sink with
  | None => with_punch s (delete (try_into_v4 addr) (tcp_punch s))
  | Some _ => s
  end.

(** What [check_cmd] changes, apart from the text it returns. *)
Definition Y_or_y (s : string) : bool := (s ==s "Y") || (s ==s "y").

Definition check_cmd (s : Server) (now : Z) (cmd : string) : Server * list Out :=
  match split " "%char (trim cmd) with
  | [] => (s, [])
  | c :: args =>
      if (c ==s "relay-servers") || (c ==s "rs") then
        match args with rs :: _ => (s, [SetRelayServers0 rs]) | [] => (s, []) end
      else if (c ==s "ip-blocker") || (c ==s "ib") then
        let kept := filter (λ e, elapsed_secs now e.2.1.2 ≤ IP_BLOCK_DUR ∨
                                 elapsed_secs now e.2.2.2 ≤ DAY_SECONDS) (ip_blocker s) in
        (with_blocker s
           match args with
           | a :: "-" :: _ => if default (-1) (parse_i32 a) <? 0 then delete a kept else kept
           | _ => kept
           end, [])
      else if (c ==s "ip-changes") || (c ==s "ic") then
        let kept := filter (λ e, elapsed_secs now e.2.1 < IP_CHANGE_DUR_X2 ∧ (1 < size e.2.2)%nat)
                           (ip_changes s) in
        (with_changes s
           match args with
           | a :: "-" :: _ =>
               let start := default (-1) (parse_i32 a) in
               if (0 <=? start) && (start <=? 10000000) then kept else delete a kept
           | _ => kept
           end, [])
      else if (c ==s "punch-requests") || (c ==s "pr") then
        match args with "-" :: _ => (with_reqs s [], []) | _ => (s, []) end
      else if (c ==s "always-use-relay") || (c ==s "aur") then
        match args with
        | rs :: _ => (with_always s (Y_or_y rs), [SetRelayServers0 rs])
        | [] => (s, [])
        end
      else if (c ==s "test-geo") || (c ==s "tg") then
        match args with
        | a :: rest =>
            match parse_ip a, rest with
            | Some _, b :: _ => match parse_ip b with
                                | Some _ => ((get_relay_server s).2, [])
                                | None => (s, [])
                                end
            | Some _, [] => ((get_relay_server s).2, [])
            | None, _ => (s, [])
            end
        | [] => (s, [])
        end
      else (s, [])
  end.

End Rendezvous.
