(* ===== verification/RendezvousProofs.v ===== *)
(** * Properties of the rendezvous server

    Pinning of identities, the two limiters, the online query, relay rotation,
    punch requests, and the agreement of the two registration paths. *)
From S2P Require Import Prelude RustStd Net NetText Peer Rendezvous.
Import Peers Rendezvous.

Module RendezvousProofs.

Section Proofs.
Context {SecretKey : Type} (sign_id_pk : SecretKey → string → list byte → list byte).
Context (to_json : PeerInfo → string) (from_json : string → option PeerInfo).
Context (valid_server : string → bool).

(** ** Identities *)

(** The directory kept: every peer with a uuid keeps its uuid, key and recorded
    address. *)
Definition keeps (m m' : PeerMap) : Prop :=
  ∀ id p, map m !! id = Some p → uuid p ≠ [] →
    ∃ p', map m' !! id = Some p' ∧ uuid p' = uuid p ∧ pk p' = pk p ∧ info p' = info p.

#[local] Instance keeps_preorder : PreOrder keeps.
Proof.
  split; [intros m id p; eauto|]. intros m1 m2 m3 H1 H2 id p Hp Hu.
  destruct (H1 id p Hp Hu) as (p2 & Hp2 & E1 & E2 & E3).
  destruct (H2 id p2 Hp2 ltac:(congruence)) as (p3 & ? & ? & ? & ?).
  exists p3. repeat split; congruence.
Qed.

Lemma keeps_put m id p : (∀ q, map m !! id = Some q → uuid q ≠ [] →
    uuid p = uuid q ∧ pk p = pk q ∧ info p = info q) → keeps m (put m id p).
Proof.
  intros H id' q Hq Hu. simpl. destruct (decide (id = id')) as [<-|Hne].
  - exists p. rewrite lookup_insert_eq. destruct (H q Hq Hu) as (? & ? & ?). eauto.
  - exists q. rewrite lookup_insert_ne by done. eauto.
Qed.

Lemma get_keeps m d now id : keeps m (get from_json m d now id).2 ∧
  ∀ p, (get from_json m d now id).1 = Some p → map (get from_json m d now id).2 !! id = Some p.
Proof.
  unfold get. destruct (map m !! id) as [p|] eqn:E; simpl; [split; [done|congruence]|].
  destruct (if db_up d then _ else _) as [[g r]|]; simpl; [|by split].
  split; [apply keeps_put; congruence|]. intros p [= <-]. by rewrite lookup_insert_eq.
Qed.

Lemma get_or_keeps m d now id : keeps m (get_or from_json m d now id).2 ∧
  map (get_or from_json m d now id).2 !! id = Some (get_or from_json m d now id).1.
Proof.
  unfold get_or. destruct (get_keeps m d now id) as [Hk Hp].
  destruct (get from_json m d now id) as [[p|] m1]; simpl in *; [by eauto|].
  destruct (map m1 !! id) as [q|] eqn:E; simpl; [done|].
  split; [|by rewrite lookup_insert_eq]. etransitivity; [done|]. apply keeps_put. congruence.
Qed.

(** What a registration may change of a peer that has a uuid: its key, when the
    message carries its uuid and comes from its recorded address. *)
Definition pinned (m m' : PeerMap) (rid : string) (u k : list byte) (src_ip : string) : Prop :=
  ∀ id p, map m !! id = Some p → uuid p ≠ [] →
    ∃ p', map m' !! id = Some p' ∧ uuid p' = uuid p ∧
      (pk p' = pk p ∨ (id = rid ∧ u = uuid p ∧ k = pk p' ∧ src_ip = ip (info p))).

Lemma keeps_pinned m m' rid u k src : keeps m m' → pinned m m' rid u k src.
Proof. intros H id p Hp Hu. destruct (H id p Hp Hu) as (p' & ? & ? & ? & ?). eauto 10. Qed.

Lemma keeps_then_pinned m m1 m' rid u k src : keeps m m1 → pinned m1 m' rid u k src → pinned m m' rid u k src.
Proof.
  intros H1 H2 id p Hp Hu. destruct (H1 id p Hp Hu) as (p1 & Hp1 & E1 & E2 & E3).
  destruct (H2 id p1 Hp1 ltac:(congruence)) as (p2 & Hp2 & E4 & Hor). exists p2.
  rewrite E1, E2, E3 in *. auto.
Qed.

(** [update_pk] stores the new identity under the id and touches no other peer. *)
Lemma update_pk_map m d now id p addr u k src r m' :
  update_pk to_json m d now id p addr u k src = (r, m') →
  ∃ g, map m' = <[id := mkPeer addr now g u k (mkInfo src) (reg_pk p)]> (map m).
Proof.
  unfold update_pk. simpl. case_bool_decide.
  - destruct (insert_peer _ _ _ _ _ _ _); intros [= <- <-]; simpl; eexists;
      rewrite ?insert_insert_eq; done.
  - destruct (update_row _ _ _ _ _ _); intros [= <- <-]; simpl; eauto.
Qed.

Lemma identity_check_Some p u k src c ipc : identity_check p u k src = Some (c, ipc) → uuid p ≠ [] →
  uuid p = u ∧ (ip (info p) = src ∨ pk p = k).
Proof.
  unfold identity_check, eqb_str. intros H Hu. rewrite bool_decide_eq_false_2 in H by done.
  repeat case_bool_decide; simpl in *; try done; eauto.
Qed.

Lemma register_known_pinned s d now id u k addr :
  pinned (pm s) (pm (register_known to_json from_json s d now id u k addr).2) id u k
    (ip_to_string (sa_ip addr)).
Proof.
  unfold register_known. destruct (get_or_keeps (pm s) d now id) as [Hk Hm].
  destruct (get_or from_json (pm s) d now id) as [p m1]; simpl in *.
  destruct (identity_check p u k _) as [[c ipc]|] eqn:Ei; [|by apply keeps_pinned].
  destruct (reg_pk_limit now (reg_pk p)) as [r|]; [|by apply keeps_pinned].
  assert (keeps (pm s) (put m1 id (set_reg_pk p r))) as Hk'.
  { etransitivity; [exact Hk|]. apply keeps_put. intros q Hq _. by simplify_eq. }
  set (s2 := if ipc then _ else _).
  assert (pm s2 = put m1 id (set_reg_pk p r)) as Hs2 by (unfold s2; by destruct ipc).
  clearbody s2. destruct c; simpl; [|rewrite Hs2; by apply keeps_pinned].
  destruct (update_pk _ _ _ _ _ _ _ _ _ _) as [res m2] eqn:Eu. simpl.
  apply update_pk_map in Eu as [g Eg]. eapply keeps_then_pinned; [exact Hk|].
  intros id' q Hq Hu'. rewrite Eg, Hs2. simpl. destruct (decide (id = id')) as [<-|Hne].
  - rewrite lookup_insert_eq. eexists. split; [done|]. simpl. rewrite Hm in Hq. simplify_eq.
    destruct (identity_check_Some _ _ _ _ _ _ Ei Hu') as [-> [Hip| ->]]; auto 10.
  - rewrite !lookup_insert_ne by done. exists q. auto.
Qed.

Lemma with_blocker_pm s b : pm (with_blocker s b) = pm s.
Proof. done. Qed.

Lemma check_ip_blocker_pm s now ip id : pm (check_ip_blocker s now ip id).2 = pm s.
Proof. unfold check_ip_blocker. repeat case_match; done. Qed.

Lemma get_pk_keeps (i : @Inner SecretKey) s d now ver id : keeps (pm s) (pm (get_pk sign_id_pk from_json i s d now ver id).2).
Proof.
  unfold get_pk. destruct (sk i); [|done]. destruct (is_empty ver); [done|].
  destruct (get_keeps (pm s) d now id) as [Hk _].
  by destruct (get from_json (pm s) d now id) as [[p|] m].
Qed.

(** ** Handlers and the directory *)

Lemma set_addr_keeps m id old a now : map m !! id = Some old → keeps m (put m id (set_addr old a now)).
Proof. intros Ho. apply keeps_put. intros q Hq _. by simplify_eq. Qed.

Lemma get_relay_server_pm s : pm (get_relay_server s).2 = pm s.
Proof. unfold get_relay_server. by repeat case_match. Qed.

Lemma punch_keeps (i : @Inner SecretKey) s d now tm addr id lk nt key ws v :
  keeps (pm s) (pm (handle_punch_hole_request from_json i s d now tm addr id lk nt key ws v).1.1
    : PeerMap).
Proof.
  unfold handle_punch_hole_request. destruct (_ && _); [done|].
  destruct (get_keeps (pm s) d now id) as [Hk _].
  destruct (get from_json (pm s) d now id) as [[p|] m]; [|done].
  destruct (REG_TIMEOUT <=? _); [done|]. cbv zeta.
  match goal with |- context [get_relay_server ?x] =>
    pose proof (get_relay_server_pm x) as Hr; destruct (get_relay_server x) as [relay s1] end.
  simpl in *. rewrite Hr. by destruct (is_duplicate _ _ _ _).
Qed.

(** An event at the server: a datagram or a frame of a TCP connection. *)
Inductive Event : Type :=
| EvUdp (m : Message) (addr : SocketAddr)
| EvTcp (m : Message) (sink : option Z) (addr : SocketAddr) (key : string) (ws vless : bool).

Definition ev_message (e : Event) : Message := match e with EvUdp m _ => m | EvTcp m _ _ _ _ _ => m end.
Definition ev_addr (e : Event) : SocketAddr := match e with EvUdp _ a => a | EvTcp _ _ a _ _ _ => a end.

(** Whether an event may register a key at all: UDP, or an authenticated TCP
    session. *)
Definition may_register (e : Event) : bool :=
  match e with EvUdp _ _ => true | EvTcp _ _ _ _ _ vless => vless end.

Definition process (i : @Inner SecretKey) (s : Server) (d : Draw) (now tm : Z) (e : Event) : Server :=
  match e with
  | EvUdp m addr => (handle_udp to_json from_json valid_server i s d now m addr).1
  | EvTcp m sink addr key ws vless =>
      (handle_tcp sign_id_pk to_json from_json i s d now tm m sink addr key ws vless).1.2
  end.

Lemma send_to_tcp_pm s m a : pm (send_to_tcp s m a).1 = pm s.
Proof. done. Qed.

Lemma park_pm s sink a : pm (park s sink a) = pm s.
Proof. by destruct sink. Qed.

Lemma handle_udp_pinned (i : @Inner SecretKey) s d now m addr : 
  (keeps (pm s) (pm (handle_udp to_json from_json valid_server i s d now m addr).1)) ∨
  ∃ id u k, m = RegisterPk id u k ∧
    pinned (pm s) (pm (handle_udp to_json from_json valid_server i s d now m addr).1) id u k
      (ip_to_string (sa_ip addr)).
Proof.
  destruct m; simpl; try (left; done).
  - left. destruct (is_empty id); [done|]. unfold update_addr, get_in_memory.
    destruct (map (pm s) !! id) as [old|] eqn:E; simpl; [|done].
    destruct (_ || _); [done|]. by apply set_addr_keeps.
  - right. exists id, uuid0, pk0. split; [done|]. unfold udp_register_pk.
    destruct (_ || _); [by apply keeps_pinned|]. destruct (_ <? _); [by apply keeps_pinned|].
    pose proof (check_ip_blocker_pm s now (ip_to_string (sa_ip addr)) id) as Hb.
    destruct (check_ip_blocker _ _ _ _) as [pass s1]. simpl in Hb.
    destruct pass; simpl; [|rewrite Hb; by apply keeps_pinned].
    pose proof (register_known_pinned s1 d now id uuid0 pk0 addr) as Hr.
    destruct (register_known _ _ _ _ _ _ _ _ _) as [res s2]. simpl in *. by rewrite <- Hb.
  - left. by destruct (_ && _).
  - left. by destruct (_ && _).
Qed.

Lemma handle_tcp_pinned (i : @Inner SecretKey) s d now tm m sink addr key ws vless :
  let s' := (handle_tcp sign_id_pk to_json from_json i s d now tm m sink addr key ws vless).1.2 in
  keeps (pm s) (pm s') ∨
  ∃ id u k, vless = true ∧ m = RegisterPk id u k ∧
    pinned (pm s) (pm s') id u k (ip_to_string (sa_ip addr)).
Proof.
  destruct m; simpl; try (left; done).
  - left. destruct vless; simpl; [|done]. destruct (is_empty id); [done|]. unfold get_in_memory.
    destruct (map (pm s) !! id) as [old|] eqn:E; simpl; [|done].
    case_bool_decide; [done|]. by apply set_addr_keeps.
  - destruct vless; simpl; [right|left; done]. exists id, uuid0, pk0. do 2 (split; [done|]).
    unfold handle_tcp_register_pk. destruct (_ || _); [by apply keeps_pinned|].
    destruct (_ <? _); [by apply keeps_pinned|].
    pose proof (register_known_pinned s d now id uuid0 pk0 addr) as Hr.
    by destruct (register_known _ _ _ _ _ _ _ _ _).
  - left. unfold handle_tcp_punch_hole_request.
    pose proof (punch_keeps i (park s sink addr) d now tm addr id licence_key nat_type key ws vless) as Hk.
    rewrite park_pm in Hk.
    by destruct (handle_punch_hole_request _ _ _ _ _ _ _ _ _ _ _ _ _) as [[s1 m1] [to|]].
  - left. unfold handle_hole_sent. pose proof (get_pk_keeps i s d now version0 id) as Hk.
    by destruct (get_pk _ _ _ _ _ _ _ _).
  - left. unfold handle_local_addr. pose proof (get_pk_keeps i s d now version0 id) as Hk.
    by destruct (get_pk _ _ _ _ _ _ _ _).
  - left. by rewrite park_pm.
  - left. pose proof (get_pk_keeps i s d now (rr_version rr) (rr_id rr)) as Hk.
    set (us := if is_empty (rr_id rr) then _ else _).
    assert (keeps (pm s) (pm us.2)) as Hu.
    { unfold us. destruct (is_empty (rr_id rr)); [done|]. by destruct (get_pk _ _ _ _ _ _ _ _). }
    destruct us as [un s1]. simpl in Hu.
    destruct (is_empty (rr_relay_server rr)); [done|].
    destruct (_ && _); [done|]. destruct (_ ==s _); [|done].
    pose proof (get_relay_server_pm s1) as Hr. destruct (get_relay_server s1) as [rel s2]. simpl in *.
    by rewrite Hr.
Qed.


(** ** The limiter per peer *)

(** Registrations for one id, each with its time. *)
Record Attempt : Type := mkAttempt {
  at_time : Z;
  at_uuid : list byte;
  at_pk : list byte;
  at_addr : SocketAddr;
  at_draw : Draw;
}.

Definition passed (r : RegisterResult) : bool :=
  match r with OK | SERVER_ERROR => true | _ => false end.

Fixpoint register_all (s : Server) (id : string) (l : list Attempt) : list RegisterResult * Server :=
  match l with
  | [] => ([], s)
  | a :: l =>
      let (r, s) := register_known to_json from_json s (at_draw a) (at_time a) id (at_uuid a)
                      (at_pk a) (at_addr a) in
      let (rs, s) := register_all s id l in (r :: rs, s)
  end.

Definition reg_of (s : Server) (id : string) : option (Z * Z) := reg_pk <$> map (pm s) !! id.

Lemma register_known_reg s d now id u k addr r s' :
  register_known to_json from_json s d now id u k addr = (r, s') →
  ∃ old, reg_of s' id = Some (if passed r then default old (reg_pk_limit now old) else old) ∧
    (passed r = true → is_Some (reg_pk_limit now old)) ∧
    (∀ r0, reg_of s id = Some r0 → old = r0) ∧ (reg_of s id = None → old.1 = 0).
Proof.
  unfold register_known, reg_of. destruct (get_or_keeps (pm s) d now id) as [_ Hm].
  assert (∀ r0, reg_pk <$> map (pm s) !! id = Some r0 → reg_pk (get_or from_json (pm s) d now id).1 = r0) as Hold.
  { unfold get_or, get. destruct (map (pm s) !! id) as [q|]; simpl; [congruence|done]. }
  assert (reg_pk <$> map (pm s) !! id = None → (reg_pk (get_or from_json (pm s) d now id).1).1 = 0) as Hnew.
  { unfold get_or, get. destruct (map (pm s) !! id) as [q|] eqn:Eq; simpl; [done|].
    destruct (if db_up d then _ else _) as [[g row]|]; simpl; [done|]. by rewrite Eq. }
  destruct (get_or from_json (pm s) d now id) as [p m1]; simpl in *.
  destruct (identity_check p u k _) as [[c ipc]|]; [|intros [= <- <-]; exists (reg_pk p); simpl; by rewrite Hm].
  destruct (reg_pk_limit now (reg_pk p)) as [rl|] eqn:El;
    [|intros [= <- <-]; exists (reg_pk p); simpl; by rewrite Hm].
  set (s2 := if ipc then _ else _).
  assert (pm s2 = put m1 id (set_reg_pk p rl)) as Hs2 by (unfold s2; by destruct ipc).
  clearbody s2. intros H. exists (reg_pk p). rewrite El.
  assert (passed r = true ∧ reg_pk <$> map (pm s') !! id = Some rl) as [-> ->]; [|simpl; eauto].
  destruct c; [|injection H as <- <-; by rewrite Hs2; simpl; rewrite lookup_insert_eq].
  destruct (update_pk _ _ _ _ _ _ _ _ _ _) as [res m2] eqn:Eu. injection H as <- <-.
  split; [|simpl; apply update_pk_map in Eu as [g ->]; by rewrite lookup_insert_eq].
  revert Eu. unfold update_pk. simpl. repeat case_match; intros; simplify_eq; done.
Qed.

(** After an attempt at a time of the interval was let through, the counter only
    grows until the interval ends. *)
Lemma register_all_count s id t l n tm :
  Forall (λ a, t ≤ at_time a < t + 7 * NS_PER_SEC) l →
  reg_of s id = Some (n, tm) → t ≤ tm → n ≤ 3 →
  Z.of_nat (length (filter (λ r, passed r = true) (register_all s id l).1)) ≤ 3 - n.
Proof.
  intros Hl. revert s n tm. induction Hl as [|a l Ha _ IH]; intros s n tm Hr Ht Hn; simpl.
  { change (length (filter _ (@nil RegisterResult))) with 0%nat. lia. }
  destruct (register_known _ _ _ _ _ _ _ _ _) as [r s1] eqn:E.
  apply register_known_reg in E as (old & Hr1 & Hsome & Hold & _). rewrite (Hold _ Hr) in *.
  assert (¬ 6 < elapsed_secs (at_time a) tm) as Hel.
  { unfold elapsed_secs, saturating_sub, NS_PER_SEC in *.
    assert (Z.max (at_time a - tm) 0 / 1000000000 < 7) by (apply Z.div_lt_upper_bound; lia). lia. }
  unfold reg_pk_limit in *. simpl in *.
  destruct (Z.ltb_spec 6 (elapsed_secs (at_time a) tm)); [lia|].
  destruct (passed r) eqn:Ep.
  - destruct (Z.ltb_spec 2 n); [destruct (Hsome eq_refl); congruence|].
    specialize (IH s1 (n + 1) (at_time a) Hr1 ltac:(lia) ltac:(lia)).
    destruct (register_all s1 id l) as [rs s2]. simpl in *.
    rewrite filter_cons_True by done. simpl. lia.
  - specialize (IH s1 n tm Hr1 Ht Hn). destruct (register_all s1 id l) as [rs s2]. simpl in *.
    rewrite filter_cons_False by (by rewrite Ep). lia.
Qed.

(** However often and from wherever a peer's registration is attempted, at
    most three attempts get past the limiter within any seven seconds. *)
Theorem registration_rate_limited s id t l :
  map_Forall (λ _ p, 0 ≤ (reg_pk p).1) (map (pm s)) →
  Forall (λ a, t ≤ at_time a < t + 7 * NS_PER_SEC) l →
  (length (filter (λ r, passed r = true) (register_all s id l).1) ≤ 3)%nat.
Proof.
  intros Hs Hl.
  assert (∀ old, (∀ r0, reg_of s id = Some r0 → old = r0) → (reg_of s id = None → old.1 = 0) → 0 ≤ old.1)
    as Hpos.
  { unfold reg_of. intros old H1 H2. destruct (map (pm s) !! id) as [p|] eqn:E; simpl in *.
    - rewrite (H1 _ eq_refl). by apply (Hs id).
    - rewrite H2 by done. done. }
  clear Hs. revert s Hpos. induction Hl as [|a l Ha Hl IH]; intros s Hpos; simpl.
  { change (length (filter _ (@nil RegisterResult))) with 0%nat. lia. }
  destruct (register_known _ _ _ _ _ _ _ _ _) as [r s1] eqn:E.
  apply register_known_reg in E as (old & Hr1 & Hsome & Ho1 & Ho2). specialize (Hpos old Ho1 Ho2).
  destruct (passed r) eqn:Ep.
  - destruct (Hsome eq_refl) as [[n tm] Hlim]. rewrite Hlim in Hr1. simpl in Hr1.
    assert (1 ≤ n ≤ 3 ∧ tm = at_time a) as (Hn & ->).
    { unfold reg_pk_limit in Hlim. destruct (6 <? _); [by simplify_eq|].
      destruct (Z.ltb_spec 2 old.1); simplify_eq. lia. }
    pose proof (register_all_count s1 id t l n (at_time a) Hl Hr1 ltac:(lia) ltac:(lia)) as Hc.
    destruct (register_all s1 id l) as [rs s2]. simpl in *.
    rewrite filter_cons_True by done. simpl. lia.
  - specialize (IH s1). destruct (register_all s1 id l) as [rs s2]. simpl in *.
    rewrite filter_cons_False by (by rewrite Ep). apply IH.
    intros old' H1 _. rewrite (H1 _ Hr1). done.
Qed.

(** ** Punch requests *)

(** A punch request is forwarded only with the server's key, when it has one,
    and only to the current address of a peer that registered less than thirty
    seconds ago; local addresses are exchanged only when neither side is an
    authenticated tunnel or a WebSocket; a request that is not forwarded is
    answered with the failure that fits, and with a wrong key nothing is looked
    up or recorded. *)
Theorem punch_hole_routing (i : @Inner SecretKey) s d now tm addr id lk nt key ws vless s' m to :
  handle_punch_hole_request from_json i s d now tm addr id lk nt key ws vless = (s', m, to) →
  match to with
  | Some a =>
      (key = "" ∨ lk = key) ∧
      (∃ p, map (pm s') !! id = Some p ∧ socket_addr p = a ∧
            elapsed_millis now (last_reg_time p) < REG_TIMEOUT) ∧
      ((∃ relay, m = FetchLocalAddr (encode tm addr) relay ∧ vless = false ∧ ws = false ∧
                 tcp_senders s' !! try_into_v4 a = None) ∨
       ∃ nt' relay, m = PunchHole (encode tm addr) nt' relay)
  | None =>
      (m = MPunchHoleResponse (failed_phr LICENSE_MISMATCH) ∧ s' = s ∧ key ≠ "" ∧ lk ≠ key) ∨
      (m = MPunchHoleResponse (failed_phr ID_NOT_EXIST) ∧ map (pm s') !! id = None) ∨
      (m = MPunchHoleResponse (failed_phr OFFLINE) ∧ ∃ p, map (pm s') !! id = Some p ∧
         REG_TIMEOUT ≤ elapsed_millis now (last_reg_time p))
  end.
Proof.
  unfold handle_punch_hole_request.
  destruct (negb (is_empty key) && negb (lk ==s key)) eqn:Ek.
  { intros [= <- <- <-]. left. apply andb_prop in Ek as [E1%negb_true_iff E2%negb_true_iff].
    apply is_empty_false in E1. unfold eqb_str in E2. apply bool_decide_eq_false in E2. done. }
  assert (key = "" ∨ lk = key) as Hkey.
  { unfold is_empty, eqb_str in Ek. repeat case_bool_decide; simpl in Ek; auto. done. }
  destruct (get_keeps (pm s) d now id) as [_ Hget].
  destruct (get from_json (pm s) d now id) as [[p|] mp] eqn:Eg; simpl in Hget.
  2:{ intros [= <- <- <-]. right; left. split; [done|]. simpl. revert Eg. unfold get.
      destruct (map (pm s) !! id) eqn:E; [done|].
      destruct (if db_up d then _ else _) as [[g r]|]; [done|]. by intros [= <-]. }
  specialize (Hget p eq_refl).
  destruct (Z.leb_spec REG_TIMEOUT (elapsed_millis now (last_reg_time p))).
  { intros [= <- <- <-]. right; right. eauto. }
  cbv zeta. set (s1 := if is_duplicate _ _ _ _ then _ else _).
  assert (pm s1 = mp ∧ tcp_senders s1 = tcp_senders s) as [Hp1 Ht1] by (unfold s1; by destruct (is_duplicate _ _ _ _)).
  assert (pm (get_relay_server s1).2 = mp ∧ tcp_senders (get_relay_server s1).2 = tcp_senders s) as [Hp2 Ht2].
  { rewrite <- Hp1, <- Ht1. unfold get_relay_server. by repeat case_match. }
  rewrite Ht1. destruct (get_relay_server s1) as [relay s2]. simpl in Hp2, Ht2.
  intros [= <- <- <-]. split; [done|]. split; [exists p; rewrite Hp2; done|]. rewrite Ht2.
  match goal with |- context [if ?b then FetchLocalAddr _ _ else _] => destruct b eqn:Eb end; [left|right; eauto].
  eexists. split; [done|].
  apply andb_prop in Eb as [[[E1%negb_true_iff E2%negb_true_iff]%andb_prop E3%negb_true_iff]%andb_prop _].
  apply bool_decide_eq_false in E2. by rewrite eq_None_not_Some.
Qed.

End Proofs.

(** ** The limiter per source address *)

Fixpoint block_all (s : Server) (ip : string) (l : list (Z * string)) : list bool * Server :=
  match l with
  | [] => ([], s)
  | (now, id) :: l =>
      let (b, s) := check_ip_blocker s now ip id in
      let (bs, s) := block_all s ip l in (b :: bs, s)
  end.

Definition counter (s : Server) (ip : string) : option (Z * Z) := fst <$> ip_blocker s !! ip.

Lemma check_ip_blocker_counter s now ip id b s' : check_ip_blocker s now ip id = (b, s') →
  match counter s ip with
  | None => counter s' ip = Some (0, now)
  | Some (c, tm) =>
      if negb (IP_BLOCK_DUR <? elapsed_secs now tm) && (30 <? c)
      then b = false ∧ counter s' ip = Some (c, tm)
      else counter s' ip = Some (if IP_BLOCK_DUR <? elapsed_secs now tm then 1 else c + 1, now)
  end.
Proof.
  unfold check_ip_blocker, counter.
  destruct (ip_blocker s !! ip) as [[[c tm] [ids day]]|] eqn:E; simpl.
  - destruct (negb _ && _); [intros [= <- <-]; by rewrite E|].
    destruct (_ && (300 <? _)); intros [= <- <-]; simpl; by rewrite lookup_insert_eq.
  - intros [= <- <-]. simpl. by rewrite lookup_insert_eq.
Qed.

Lemma block_all_count s ip t l c tm :
  Forall (λ a, t ≤ a.1 < t + 61 * NS_PER_SEC) l → counter s ip = Some (c, tm) → t ≤ tm → c ≤ 31 →
  Z.of_nat (length (filter (λ b, b = true) (block_all s ip l).1)) ≤ 31 - c.
Proof.
  intros Hl. revert s c tm. induction Hl as [|[now id] l Ha _ IH]; intros s c tm Hc Ht Hle; simpl.
  { change (length (filter _ (@nil bool))) with 0%nat. lia. }
  destruct (check_ip_blocker s now ip id) as [b s1] eqn:E. apply check_ip_blocker_counter in E.
  rewrite Hc in E. simpl in Ha.
  assert (¬ IP_BLOCK_DUR < elapsed_secs now tm) as Hel.
  { unfold IP_BLOCK_DUR, elapsed_secs, saturating_sub, NS_PER_SEC in *.
    assert (Z.max (now - tm) 0 / 1000000000 < 61) by (apply Z.div_lt_upper_bound; lia). lia. }
  destruct (Z.ltb_spec IP_BLOCK_DUR (elapsed_secs now tm)); [lia|]. simpl in E.
  destruct (Z.ltb_spec 30 c).
  - destruct E as [-> E]. specialize (IH s1 c tm E Ht Hle).
    destruct (block_all s1 ip l) as [bs s2]. simpl in *. by rewrite filter_cons_False.
  - specialize (IH s1 (c + 1) now E ltac:(lia) ltac:(lia)).
    destruct (block_all s1 ip l) as [bs s2]. simpl in *.
    destruct b; [rewrite filter_cons_True by done; simpl; lia|rewrite filter_cons_False by done; lia].
Qed.

(** However many ids one address tries to register, at most 32 registrations
    of that address pass the blocker within any 61 seconds. *)
Theorem address_rate_limited s ip t l :
  (∀ c tm, counter s ip = Some (c, tm) → 0 ≤ c) →
  Forall (λ a, t ≤ a.1 < t + 61 * NS_PER_SEC) l →
  (length (filter (λ b, b = true) (block_all s ip l).1) ≤ 32)%nat.
Proof.
  intros Hs Hl. revert s Hs. induction Hl as [|[now id] l Ha Hl IH]; intros s Hs; simpl.
  { change (length (filter _ (@nil bool))) with 0%nat. lia. }
  destruct (check_ip_blocker s now ip id) as [b s1] eqn:E. apply check_ip_blocker_counter in E.
  simpl in Ha. destruct (counter s ip) as [[c tm]|] eqn:Ec.
  - specialize (Hs _ _ eq_refl). destruct (negb _ && (30 <? c)) eqn:Eb.
    + destruct E as [-> E]. specialize (IH s1 ltac:(congruence)).
      destruct (block_all s1 ip l) as [bs s2]. simpl in *. by rewrite filter_cons_False.
    + set (c' := if IP_BLOCK_DUR <? elapsed_secs now tm then 1 else c + 1) in E.
      assert (0 ≤ c' ≤ 31) as Hc'.
      { unfold c'. destruct (IP_BLOCK_DUR <? _); simpl in Eb; [lia|]. apply Z.ltb_ge in Eb. lia. }
      pose proof (block_all_count s1 ip t l c' now Hl E ltac:(lia) ltac:(lia)) as Hb.
      destruct (block_all s1 ip l) as [bs s2]. simpl in *.
      destruct b; [rewrite filter_cons_True by done; simpl; lia|rewrite filter_cons_False by done; lia].
  - pose proof (block_all_count s1 ip t l 0 now Hl E ltac:(lia) ltac:(lia)) as Hb.
    destruct (block_all s1 ip l) as [bs s2]. simpl in *.
    destruct b; [rewrite filter_cons_True by done; simpl; lia|rewrite filter_cons_False by done; lia].
Qed.

(** ** The online query *)

Definition state_bit (states : list byte) (i : nat) : bool :=
  Z.testbit (b2z (nth (i / 8) states Byte.x00)) (7 - Z.of_nat (i mod 8)).

Lemma shiftl1_bit n m : 0 ≤ n → 0 ≤ m → Z.testbit (Z.shiftl 1 n) m = (n =? m).
Proof.
  intros Hn Hm. rewrite Z.shiftl_spec by done. destruct (Z.eqb_spec n m) as [->|Hne].
  - by rewrite Z.sub_diag.
  - destruct (Z.lt_ge_cases m n); [by rewrite Z.testbit_neg_r by lia|].
    by rewrite Z.bits_above_log2 by (simpl; lia).
Qed.

Lemma lor_range a b n : 0 ≤ n → 0 ≤ a < 2 ^ n → 0 ≤ b < 2 ^ n → 0 ≤ Z.lor a b < 2 ^ n.
Proof.
  intros Hn Ha Hb.
  rewrite <- (Z.mod_small a (2 ^ n)), <- (Z.mod_small b (2 ^ n)) by done.
  rewrite <- !Z.land_ones, <- Z.land_lor_distr_l, Z.land_ones by done.
  apply Z.mod_pos_bound. lia.
Qed.

Lemma set_bit_state states i j : (i / 8 < length states)%nat →
  state_bit (set_bit states i) j = (i =? j)%nat || state_bit states j.
Proof.
  intros Hi. unfold state_bit, set_bit.
  pose proof (Nat.mod_upper_bound i 8 ltac:(lia)). pose proof (Nat.mod_upper_bound j 8 ltac:(lia)).
  destruct (decide (i / 8 = j / 8)%nat) as [E|Hne].
  - rewrite <- E. rewrite !nth_lookup, list_lookup_insert_eq by done. cbn [from_option id].
    rewrite b2z_z2b_small.
    + rewrite Z.lor_spec, shiftl1_bit by lia. rewrite orb_comm. f_equal.
      pose proof (Nat.div_mod_eq i 8). pose proof (Nat.div_mod_eq j 8).
      destruct (Nat.eqb_spec i j); [subst; apply Z.eqb_refl|apply Z.eqb_neq; lia].
    + pose proof (b2z_range (default Byte.x00 (states !! (i / 8)%nat))) as Hb.
      assert (0 ≤ Z.shiftl 1 (7 - Z.of_nat (i mod 8)) < 2 ^ 8) as Hs.
      { rewrite Z.shiftl_1_l. split; [apply Z.pow_nonneg; lia|]. apply Z.pow_lt_mono_r; lia. }
      change 256 with (2 ^ 8). apply lor_range; lia.
  - rewrite !nth_lookup, list_lookup_insert_ne by done.
    destruct (Nat.eqb_spec i j); [by subst|]. done.
Qed.

Lemma length_set_bit states i : length (set_bit states i) = length states.
Proof. apply length_insert. Qed.

Lemma mark_online_bits s now peers k states :
  (k + length peers ≤ 8 * length states)%nat →
  length (mark_online s now peers k states) = length states ∧
  ∀ j, state_bit (mark_online s now peers k states) j =
    state_bit states j ||
    match (if decide (k ≤ j)%nat then peers !! (j - k)%nat else None) with
    | Some id => online s now id
    | None => false
    end.
Proof.
  revert k states. induction peers as [|id peers IH]; intros k states Hl; simpl.
  { split; [done|]. intros j. destruct (decide _); by rewrite ?lookup_nil, orb_false_r. }
  set (states1 := if online s now id then set_bit states k else states).
  assert (length states1 = length states) as Hl1 by (unfold states1; by destruct (online s now id); rewrite ?length_set_bit).
  assert (k / 8 < length states)%nat as Hk by (apply Nat.Div0.div_lt_upper_bound; simpl in Hl; lia).
  destruct (IH (S k) states1) as [IHl IHb]; [rewrite Hl1; simpl in Hl; lia|].
  split; [congruence|]. intros j. rewrite IHb. unfold states1.
  destruct (decide (j = k)) as [->|Hjk].
  - rewrite (decide_True (P := (k ≤ k)%nat)), (decide_False (P := (S k ≤ k)%nat)), Nat.sub_diag by lia. simpl.
    destruct (online s now id).
    + rewrite set_bit_state, Nat.eqb_refl by done. by rewrite orb_true_r.
    + by rewrite orb_false_r.
  - assert (state_bit (if online s now id then set_bit states k else states) j = state_bit states j) as ->.
    { destruct (online s now id); [|done]. rewrite set_bit_state by done.
      by rewrite (proj2 (Nat.eqb_neq k j)) by lia. }
    f_equal. destruct (decide (k ≤ j)%nat).
    + rewrite decide_True by lia. by replace (j - k)%nat with (S (j - S k)) by lia.
    + by rewrite decide_False by lia.
Qed.

(** The answer to an online query has one bit per queried peer, the most
    significant bit of the first byte for the first: it is set exactly when the
    peer is in memory and registered less than thirty seconds ago, and the bits
    beyond the last peer are zero. *)
Theorem online_query_correct s now peers :
  ∃ states, handle_online_request s now peers = OnlineResponse states ∧
    length states = ((length peers + 7) / 8)%nat ∧
    ∀ j, state_bit states j =
      match peers !! j with Some id => online s now id | None => false end.
Proof.
  unfold handle_online_request. eexists. split; [done|].
  destruct (mark_online_bits s now peers 0 (replicate ((length peers + 7) / 8) Byte.x00)) as [Hl Hb].
  { rewrite length_replicate. pose proof (Nat.div_mod_eq (length peers + 7) 8).
    pose proof (Nat.mod_upper_bound (length peers + 7) 8 ltac:(lia)). lia. }
  rewrite Hl, length_replicate. split; [done|]. intros j. rewrite Hb.
  assert (state_bit (replicate ((length peers + 7) / 8) Byte.x00) j = false) as ->.
  { unfold state_bit. rewrite nth_lookup.
    destruct (replicate _ _ !! _) as [x|] eqn:E; simpl; [|apply Z.testbit_0_l].
    apply lookup_replicate in E as [-> _]. apply Z.testbit_0_l. }
  rewrite decide_True by lia. by rewrite Nat.sub_0_r.
Qed.

(** ** Relay rotation *)

Fixpoint serve (n : nat) (s : Server) : list string * Server :=
  match n with
  | O => ([], s)
  | S n => let (r, s) := get_relay_server s in let (rs, s) := serve n s in (r :: rs, s)
  end.

Lemma serve_lookup n s : 2 ≤ len (relay_servers s) → 0 ≤ rotation s →
  rotation s + Z.of_nat n ≤ 2 ^ 64 - 1 →
  relay_servers (serve n s).2 = relay_servers s ∧ length (serve n s).1 = n ∧
  ∀ i, (i < n)%nat → (serve n s).1 !! i =
    relay_servers s !! Z.to_nat ((rotation s + Z.of_nat i) mod len (relay_servers s)).
Proof.
  revert s. induction n as [|n IH]; intros s Hl H0 Hr; cbn [serve]; [repeat split; done || lia|].
  assert (get_relay_server s =
    (nth (Z.to_nat (rotation s mod len (relay_servers s))) (relay_servers s) "",
     with_rotation s (rotation s + 1))) as ->.
  { unfold get_relay_server. destruct (relay_servers s) as [|a [|b l]] eqn:E;
      [rewrite len_nil in Hl; lia|rewrite len_cons in Hl; change (len (@nil string)) with 0 in Hl; lia|].
    by rewrite (Z.mod_small (rotation s + 1)) by lia. }
  set (s1 := with_rotation s (rotation s + 1)).
  destruct (IH s1) as (H1 & H2 & H3); [done|simpl; lia|simpl; lia|].
  destruct (serve n s1) as [rs s2]; simpl in *. split; [done|]. split; [lia|].
  intros [|i] Hi; simpl.
  - rewrite Z.add_0_r. pose proof (Z.mod_pos_bound (rotation s) (len (relay_servers s)) ltac:(lia)).
    rewrite nth_lookup. destruct (relay_servers s !! _) eqn:E; [done|].
    apply lookup_ge_None in E. unfold len in *. lia.
  - rewrite H3 by lia. by replace (rotation s + Z.of_nat (S i)) with (rotation s + 1 + Z.of_nat i) by lia.
Qed.

Lemma rotated_lookup {A} (l : list A) k i : (k < length l)%nat → (i < length l)%nat →
  (drop k l ++ take k l) !! i = l !! Z.to_nat ((Z.of_nat k + Z.of_nat i) mod len l).
Proof.
  intros Hk Hi. unfold len. destruct (decide (k + i < length l)%nat).
  - rewrite lookup_app_l by (rewrite length_drop; lia). rewrite lookup_drop, Z.mod_small by lia.
    f_equal. lia.
  - rewrite lookup_app_r, length_drop, lookup_take_lt by (rewrite ?length_drop; lia). f_equal.
    replace (Z.of_nat k + Z.of_nat i) with ((Z.of_nat k + Z.of_nat i - Z.of_nat (length l)) + 1 * Z.of_nat (length l)) by lia.
    rewrite Z.mod_add, Z.mod_small by lia. lia.
Qed.

(** With several relay servers, any run of as many requests as there are
    servers is given each of them exactly once (until the 64-bit counter wraps). *)
Theorem relay_rotation_fair s : 2 ≤ len (relay_servers s) → 0 ≤ rotation s →
  rotation s + len (relay_servers s) ≤ 2 ^ 64 - 1 →
  (serve (length (relay_servers s)) s).1 ≡ₚ relay_servers s.
Proof.
  intros Hl H0 Hr. unfold len in Hr.
  destruct (serve_lookup (length (relay_servers s)) s Hl H0 Hr) as (_ & Hlen & Hlk).
  set (l := relay_servers s) in *. set (k := Z.to_nat (rotation s mod len l)).
  pose proof (Z.mod_pos_bound (rotation s) (len l) ltac:(lia)) as Hk. unfold len in Hk.
  assert ((serve (length l) s).1 = drop k l ++ take k l) as ->.
  { apply list_eq_same_length with (length l); [|done|].
    - rewrite length_app, length_drop, length_take. unfold k, len. lia.
    - intros i x y Hi Hx Hy. rewrite Hlk in Hx by done.
      rewrite rotated_lookup in Hy by (unfold k, len; lia).
      unfold k in Hy. rewrite Z2Nat.id in Hy by (unfold len; lia).
      rewrite Z.add_mod_idemp_l in Hy by (unfold len in *; lia). congruence. }
  rewrite Permutation_app_comm. by rewrite take_drop.
Qed.

(** ** Concrete runs *)

Definition demo_server : Server :=
  mkServer (mkPeerMap ∅ ∅) ∅ ∅ ∅ ∅ ["r1"; "r2"; "r3"] ["r1"; "r2"; "r3"] [] 0 7 false [].
Definition demo_json (i : PeerInfo) : string := ip i.
Definition demo_unjson (s : string) : option PeerInfo := Some (mkInfo s).
Definition demo_addr : SocketAddr := SaV4 (ipv4 198 51 100 7) 5000.
Definition demo_draw : Draw := mkDraw true [Byte.x01].
Definition demo_inner : @Inner unit := mkInner "" "" None "" None.
Definition sign0 (_ : unit) (_ : string) (k : list byte) : list byte := k.
Definition hour : Z := 3600 * NS_PER_SEC.

Definition registered : Server :=
  (handle_udp demo_json demo_unjson (λ _, true) demo_inner demo_server demo_draw hour
     (RegisterPk "123456789" [Byte.x07] [Byte.x0a]) demo_addr).1.


Definition demo_attempt (t : Z) : Attempt := mkAttempt t [Byte.x07] [Byte.x0a] demo_addr demo_draw.
Definition demo_attempts : list Attempt := demo_attempt <$> [hour; hour + 1; hour + 2; hour + 3].

Lemma registration_rate_limited_witness :
  (length (filter (λ r, passed r = true)
    (register_all demo_json demo_unjson demo_server "123456789" demo_attempts).1) ≤ 3)%nat ∧
  (register_all demo_json demo_unjson demo_server "123456789" demo_attempts).1 =
    [OK; OK; OK; TOO_FREQUENT].
Proof.
  split; [|by vm_compute].
  apply (registration_rate_limited demo_json demo_unjson demo_server "123456789" hour demo_attempts).
  - apply map_Forall_empty.
  - repeat constructor; by vm_compute.
Defined.

Lemma address_rate_limited_witness :
  (length (filter (λ b, b = true)
    (block_all demo_server "198.51.100.7" ((λ n : Z, ((hour + n)%Z, uint_to_string n)) <$> seqZ 0 40)).1) ≤ 32)%nat ∧
  length (filter (λ b, b = true)
    (block_all demo_server "198.51.100.7" ((λ n : Z, ((hour + n)%Z, uint_to_string n)) <$> seqZ 0 40)).1) = 32%nat.
Proof.
  split; [|by vm_compute].
  apply (address_rate_limited demo_server "198.51.100.7" hour); [done|].
  apply Forall_fmap, Forall_forall. intros n Hn%elem_of_seqZ. simpl. unfold NS_PER_SEC. lia.
Defined.

Lemma punch_hole_routing_witness :
  ∃ s', handle_punch_hole_request demo_unjson demo_inner registered demo_draw (hour + 5) 0 demo_addr
    "123456789" "k" 0 "k" false true = (s', PunchHole (encode 0 demo_addr) 0 "r2", Some demo_addr) ∧
    ("k" = "" ∨ "k" = "k").
Proof.
  eexists. split; [by vm_compute|].
  match goal with |- _ => 
    refine (proj1 (punch_hole_routing demo_unjson demo_inner registered demo_draw (hour + 5) 0 demo_addr
      "123456789" "k" 0 "k" false true _ (PunchHole (encode 0 demo_addr) 0 "r2") (Some demo_addr) _)) end.
  by vm_compute.
Defined.

Lemma relay_rotation_fair_witness : (serve 3 demo_server).1 ≡ₚ ["r1"; "r2"; "r3"].
Proof. by apply (relay_rotation_fair demo_server). Defined.

(** With the database down, UDP answers [OK] where TCP answers [SERVER_ERROR]. *)
Example udp_hides_server_error :
  (handle_udp demo_json demo_unjson (λ _, true) demo_inner demo_server (mkDraw false []) hour
     (RegisterPk "123456789" [Byte.x07] [Byte.x0a]) demo_addr).2 = [Udp (RegisterPkResponse OK) demo_addr] ∧
  (handle_tcp_register_pk demo_json demo_unjson demo_server (mkDraw false []) hour
     "123456789" [Byte.x07] [Byte.x0a] demo_addr).1 = SERVER_ERROR.
Proof. by vm_compute. Qed.

(** Switching [always-use-relay] on asks for the relay list to be replaced by the
    argument, which resolves to no server. *)
Example always_use_relay_drops_relays :
  let (s, o) := check_cmd demo_server hour "always-use-relay Y" in
  o = [SetRelayServers0 "Y"] ∧
  relay_servers (parse_relay_servers (λ x, negb (x ==s "Y")) s "Y") = [].
Proof. by vm_compute. Qed.

(** After the daily clear of the ids of an address, a known id is not recorded
    again. *)
Example known_id_forgotten_after_a_day :
  let s := with_blocker demo_server (<["a" := ((1, 0), ({["id"]}, 0))]> ∅) in
  let now := (DAY_SECONDS + 1) * NS_PER_SEC in
  (λ e, elements e.2.1) <$> ip_blocker (check_ip_blocker s now "a" "id").2 !! "a" = Some [].
Proof. by vm_compute. Qed.

End RendezvousProofs.
