(* ===== verification/F64.v ===== *)
(** * Binary64 numbers

    The parts of Rust's [f64] the servers use: [as] casts from and to [usize],
    multiplication, division, comparison with zero and [str::parse::<f64>].
    Numbers are the Standard Library's [spec_float] at precision 53, so every
    operation rounds to nearest, ties to even, and evaluates. *)
From S2P Require Import Prelude RustStd.
From Stdlib Require Import Ascii.
From Stdlib Require Import Floats.SpecFloat.

Definition f64 : Type := spec_float.

Definition f64_of_usize (z : Z) : f64 := binary_normalize 53 1024 z 0 false.
Definition f64_mul : f64 → f64 → f64 := SFmul 53 1024.
Definition f64_div : f64 → f64 → f64 := SFdiv 53 1024.
Definition f64_pos (x : f64) : bool := SFltb (S754_zero false) x.

(** [x as usize]: towards zero, saturating, zero for a NaN. *)
Definition f64_as_usize (x : f64) : Z :=
  match x with
  | S754_nan | S754_zero _ | S754_infinity true => 0
  | S754_infinity false => usize_max
  | S754_finite true _ _ => 0
  | S754_finite false m e => Z.min (Z.shiftl (Zpos m) e) usize_max
  end.

(** The correctly rounded value of [m * 10^e]. *)
Definition f64_decimal (m e : Z) : f64 :=
  match m with
  | Zpos p =>
      if 0 <=? e then binary_normalize 53 1024 (m * 10 ^ e) 0 false
      else SFdiv 53 1024 (S754_finite false p 0) (S754_finite false (Z.to_pos (10 ^ (- e))) 0)
  | _ => S754_zero false
  end.

(** The digits at the front: their value added to [acc], how many, and the rest. *)
Fixpoint span_digits (s : string) (acc count : Z) : Z * Z * string :=
  match s with
  | String c s' =>
      match digit_of c with
      | Some d => span_digits s' (acc * 10 + d) (count + 1)
      | None => (acc, count, s)
      end
  | EmptyString => (acc, count, s)
  end.

Definition strip_sign (s : string) : bool * string :=
  match strip_prefix "-" s with
  | Some s => (true, s)
  | None => (false, default s (strip_prefix "+" s))
  end.

(** The exponent part of a number, the whole of [s]. *)
Definition parse_exponent (s : string) : option Z :=
  if is_empty s then Some 0
  else
    match strip_prefix "e" s, strip_prefix "E" s with
    | Some s, _ | None, Some s =>
        let (neg, s) := strip_sign s in
        let '(n, k, rest) := span_digits s 0 0 in
        if (k =? 0) || negb (is_empty rest) then None else Some (if neg then - n else n)
    | None, None => None
    end.

Definition lower (c : ascii) : ascii :=
  let n := N_of_ascii c in
  if (65 <=? n)%N && (n <=? 90)%N then ascii_of_N (n + 32) else c.

Fixpoint to_lower (s : string) : string :=
  match s with EmptyString => "" | String c s => String (lower c) (to_lower s) end.

Definition parse_f64 (s : string) : option f64 :=
  let (neg, s) := strip_sign s in
  let signed x := if neg then SFopp x else x in
  let word := to_lower s in
  if (word ==s "inf") || (word ==s "infinity") then Some (signed (S754_infinity false))
  else if word ==s "nan" then Some S754_nan
  else
    let '(m, k, rest) := span_digits s 0 0 in
    let '(m, f, rest) :=
      match strip_prefix "." rest with
      | Some r => span_digits r m 0
      | None => (m, 0, rest)
      end in
    if k + f =? 0 then None
    else e ← parse_exponent rest; Some (signed (f64_decimal m (e - f))).

Example parse_f64_examples :
  (f64_as_usize <$> parse_f64 "32") = Some 32 ∧
  ((λ x, f64_as_usize (f64_mul x (f64_of_usize 100))) <$> parse_f64 "0.66") = Some 66 ∧
  ((λ x, f64_as_usize (f64_mul x (f64_of_usize 100))) <$> parse_f64 "0.29") = Some 28 ∧
  ((λ x, f64_as_usize (f64_mul x (f64_of_usize 100))) <$> parse_f64 "1.5e-1") = Some 15 ∧
  (f64_pos <$> parse_f64 "-1") = Some false ∧ (f64_pos <$> parse_f64 "1e-400") = Some false ∧
  parse_f64 "1.2.3" = None ∧ parse_f64 "." = None ∧ parse_f64 "" = None ∧
  (f64_as_usize <$> parse_f64 "inf") = Some usize_max ∧ parse_f64 "1e" = None.
Proof. vm_compute. split_and!; reflexivity. Qed.
