(* ===== verification/Relay.v ===== *)
(** * The relay server

    [server/src/relay_server.rs]: the tunables and lists the console edits
    ([check_cmd]), the admission of a connection ([handle_connection]), the
    pairing of two connections by uuid ([make_pair_]) and the loop that forwards
    between them ([relay]).  Tasks interleave: [make_pair_] is split at its
    [await] points, and a world is the shared maps with one entry per task.
    Parsing of the first message is its result, an argument of the event. *)
From S2P Require Import Prelude RustStd Net NetText F64 BytesCodec.
From Stdlib Require Import Ascii.

Module Relay.

(** ** Tunables *)

Record Params : Type := mkParams {
  DOWNGRADE_THRESHOLD_100 : Z;
  DOWNGRADE_START_CHECK : Z;
  LIMIT_SPEED : Z;
  TOTAL_BANDWIDTH : Z;
  SINGLE_BANDWIDTH : Z;
}.

Definition default_params : Params :=
  mkParams 66 1800000 (32 * 1024 * 1024) (1024 * 1024 * 1024) (128 * 1024 * 1024).

Definition mb : f64 := f64_of_usize 1024.

(** [(v * 1024. * 1024.) as usize] and [(v * 100.) as usize], kept when [v > 0]. *)
Definition bits_of (old : Z) (v : f64) : Z :=
  if f64_pos v then f64_as_usize (f64_mul (f64_mul v mb) mb) else old.
Definition percent_of (old : Z) (v : f64) : Z :=
  if f64_pos v then f64_as_usize (f64_mul v (f64_of_usize 100)) else old.
(** [tmp * 1000] wraps around in a release build. *)
Definition millis_of (old v : Z) : Z := if 0 <? v then as_u64 (v * 1000) else old.

Definition with_threshold (p : Params) v :=
  mkParams v (DOWNGRADE_START_CHECK p) (LIMIT_SPEED p) (TOTAL_BANDWIDTH p) (SINGLE_BANDWIDTH p).
Definition with_start (p : Params) v :=
  mkParams (DOWNGRADE_THRESHOLD_100 p) v (LIMIT_SPEED p) (TOTAL_BANDWIDTH p) (SINGLE_BANDWIDTH p).
Definition with_limit (p : Params) v :=
  mkParams (DOWNGRADE_THRESHOLD_100 p) (DOWNGRADE_START_CHECK p) v (TOTAL_BANDWIDTH p) (SINGLE_BANDWIDTH p).
Definition with_total (p : Params) v :=
  mkParams (DOWNGRADE_THRESHOLD_100 p) (DOWNGRADE_START_CHECK p) (LIMIT_SPEED p) v (SINGLE_BANDWIDTH p).
Definition with_single (p : Params) v :=
  mkParams (DOWNGRADE_THRESHOLD_100 p) (DOWNGRADE_START_CHECK p) (LIMIT_SPEED p) (TOTAL_BANDWIDTH p) v.

Definition zero_f64 : f64 := f64_of_usize 0.

(** [get_arg] reads a setting; an unset one is empty. *)
Definition check_params (get_arg : string → string) (p : Params) : Params :=
  let num k := default zero_f64 (parse_f64 (get_arg k)) in
  let p := with_threshold p (percent_of (DOWNGRADE_THRESHOLD_100 p) (num "DOWNGRADE_THRESHOLD")) in
  let p := with_start p (millis_of (DOWNGRADE_START_CHECK p)
                           (default 0 (parse_usize (get_arg "DOWNGRADE_START_CHECK")))) in
  let p := with_limit p (bits_of (LIMIT_SPEED p) (num "LIMIT_SPEED")) in
  let p := with_total p (bits_of (TOTAL_BANDWIDTH p) (num "TOTAL_BANDWIDTH")) in
  with_single p (bits_of (SINGLE_BANDWIDTH p) (num "SINGLE_BANDWIDTH")).

(** ** Shared state *)

Record Usage : Type := mkUsage { u_elapsed : Z; u_total : Z; u_highest : Z; u_speed : Z }.

Record Globals : Type := mkGlobals {
  BLACKLIST : gset string;
  BLOCKLIST : gset string;
  params : Params;
  total_limiter : Z;  (* the speed limit of the limiter all relays share *)
}.

Definition with_black (g : Globals) l := mkGlobals l (BLOCKLIST g) (params g) (total_limiter g).
Definition with_block (g : Globals) l := mkGlobals (BLACKLIST g) l (params g) (total_limiter g).
Definition with_params (g : Globals) p := mkGlobals (BLACKLIST g) (BLOCKLIST g) p (total_limiter g).

(** Loading a list file: the first word of every line. *)
Definition newline : ascii := "010".
Definition load_list (contents : string) (l : gset string) : gset string :=
  foldl (λ l x, match split " " (trim x) with ip :: _ => {[ip]} ∪ l | [] => l end)
        l (split newline contents).

Definition parse_vless_internal_addr (value : option string) : result (option SocketAddr) string :=
  match value with
  | None => Ok None
  | Some v =>
      let v := trim v in
      if is_empty v then Ok None
      else match parse_socket_addr v with
           | None => Err ("Invalid VLESS_HBBR_INTERNAL address '" +s+ v +s+ "'")
           | Some a =>
               if negb (is_loopback (sa_ip a))
               then Err ("VLESS_HBBR_INTERNAL must bind to a loopback address, got "
                         +s+ socket_addr_to_string a)
               else Ok (Some a)
           end
  end.

Definition relay_key_is_valid (key licence_key : string) (vless_authenticated : bool) : bool :=
  is_empty key || (licence_key ==s key) || vless_authenticated.

(** The key clients must present: the public half of a secret key, the generated
    public key for a placeholder, or the text itself. *)
Section ServerKey.
Context (base64_decode : string → option (list byte)) (base64_encode : list byte → string).
(** The public key of the key file, which [gen_sk] creates when it is missing. *)
Context (gen_sk : string).

Definition SECRETKEYBYTES : nat := 64.

Definition get_server_sk (key : string) : string :=
  let key :=
    match base64_decode key with
    | Some sk => if bool_decide (length sk = SECRETKEYBYTES)
                 then base64_encode (drop (SECRETKEYBYTES / 2) sk) else key
    | None => key
    end in
  if (key ==s "-") || (key ==s "_") then gen_sk else key.
End ServerKey.

(** ** The console

    What a command prints, before it is laid out as text. *)
Inductive Reply : Type :=
| Nothing | Help | Member (b : bool) | Members (l : gset string)
| Value (z : Z) | UsageTable (rows : list (string * Usage)).

Definition insert_all (ips : list string) (l : gset string) : gset string :=
  foldl (λ l ip, {[ip]} ∪ l) l ips.
Definition remove_all (ips : list string) (l : gset string) : gset string :=
  foldl (λ l ip, l ∖ {[ip]}) l ips.

Definition list_remove (ip : string) (l : gset string) : gset string :=
  if ip ==s "all" then ∅ else remove_all (split "|" ip) l.

(** [sort_by] is stable and compares totals in descending order. *)
Fixpoint insert_usage (x : string * Usage) (l : list (string * Usage)) : list (string * Usage) :=
  match l with
  | [] => [x]
  | y :: l' => if u_total y.2 <=? u_total x.2 then x :: l else y :: insert_usage x l'
  end.
Definition sort_usage (l : list (string * Usage)) : list (string * Usage) := foldr insert_usage [] l.

Definition is_cmd (c long short : string) : bool := (c ==s long) || (c ==s short).

Definition check_cmd (cmd : string) (usage : gmap string Usage) (g : Globals) : Reply * Globals :=
  let p := params g in
  let fds := split " " (trim cmd) in
  let arg := fds !! 1%nat in
  let set_f64 (k : f64 → Globals) := default g (k <$> (arg ≫= parse_f64)) in
  match fds with
  | [] => (Nothing, g)
  | c :: _ =>
      if c ==s "h" then (Help, g)
      else if is_cmd c "blacklist-add" "ba" then
        (Nothing, match arg with Some ip => with_black g (insert_all (split "|" ip) (BLACKLIST g))
                               | None => g end)
      else if is_cmd c "blacklist-remove" "br" then
        (Nothing, match arg with Some ip => with_black g (list_remove ip (BLACKLIST g)) | None => g end)
      else if is_cmd c "blacklist" "b" then
        (match arg with Some ip => Member (bool_decide (ip ∈ BLACKLIST g))
                      | None => Members (BLACKLIST g) end, g)
      else if is_cmd c "blocklist-add" "Ba" then
        (Nothing, match arg with Some ip => with_block g (insert_all (split "|" ip) (BLOCKLIST g))
                               | None => g end)
      else if is_cmd c "blocklist-remove" "Br" then
        (Nothing, match arg with Some ip => with_block g (list_remove ip (BLOCKLIST g)) | None => g end)
      else if is_cmd c "blocklist" "B" then
        (match arg with Some ip => Member (bool_decide (ip ∈ BLOCKLIST g))
                      | None => Members (BLOCKLIST g) end, g)
      else if is_cmd c "downgrade-threshold" "dt" then
        match arg with
        | Some _ => (Nothing, set_f64 (λ v, with_params g (with_threshold p (percent_of (DOWNGRADE_THRESHOLD_100 p) v))))
        | None => (Value (DOWNGRADE_THRESHOLD_100 p), g)
        end
      else if is_cmd c "downgrade-start-check" "t" then
        match arg with
        | Some v => (Nothing, match parse_usize v with
                              | Some v => with_params g (with_start p (millis_of (DOWNGRADE_START_CHECK p) v))
                              | None => g end)
        | None => (Value (DOWNGRADE_START_CHECK p / 1000), g)
        end
      else if is_cmd c "limit-speed" "ls" then
        match arg with
        | Some _ => (Nothing, set_f64 (λ v, with_params g (with_limit p (bits_of (LIMIT_SPEED p) v))))
        | None => (Value (LIMIT_SPEED p), g)
        end
      else if is_cmd c "total-bandwidth" "tb" then
        match arg with
        | Some _ => (Nothing, set_f64 (λ v,
            if f64_pos v
            then let t := bits_of (TOTAL_BANDWIDTH p) v in
                 mkGlobals (BLACKLIST g) (BLOCKLIST g) (with_total p t) t
            else g))
        | None => (Value (TOTAL_BANDWIDTH p), g)
        end
      else if is_cmd c "single-bandwidth" "sb" then
        match arg with
        | Some _ => (Nothing, set_f64 (λ v, with_params g (with_single p (bits_of (SINGLE_BANDWIDTH p) v))))
        | None => (Value (SINGLE_BANDWIDTH p), g)
        end
      else if is_cmd c "usage" "u" then
        (UsageTable (filter (λ r, u_elapsed r.2 ≠ 0) (sort_usage (map_to_list usage))), g)
      else (Nothing, g)
  end.

(** ** The forwarding loop *)

(** Local variables of [relay].  Instants are in milliseconds. *)
Record RelayState : Type := mkRelay {
  tm : Z;
  elapsed : Z;
  total : Z;
  total_s : Z;
  highest_s : Z;
  downgrade : bool;
  blacked : bool;
  last_recv_time : Z;
  downgrade_threshold : Z;  (* bit/ms *)
}.

Definition threshold_of (p : Params) : Z :=
  f64_as_usize
    (f64_div (f64_div (f64_mul (f64_of_usize (SINGLE_BANDWIDTH p))
                               (f64_of_usize (DOWNGRADE_THRESHOLD_100 p)))
                      (f64_of_usize 100)) (f64_of_usize 1000)).

Definition relay_start (p : Params) (now : Z) : RelayState :=
  mkRelay now 0 0 0 0 false false now (threshold_of p).

Inductive Side : Type := FromPeer | FromStream.

(** What the [select!] returned, with the times the clock is read at: on
    reception, for the accounting, and when the accounting restarts. *)
Inductive Event : Type :=
| Recv (side : Side) (res : option (list byte)) (t_recv : Z) (sent : bool) (t_acc t_reset : Z)
| Timer (t t_acc t_reset : Z).

Inductive Limiter : Type := Single | Slow | Total.

Inductive Out : Type :=
| Consume (l : Limiter) (nb : Z)
| SendTo (side : Side) (bytes : list byte)  (* written to the side opposite to [side] *)
| SetUsage (u : Usage).

Inductive Exit : Type := Closed | TimedOut | SendError | Blocked.

Definition receive (r : RelayState) (t nb : Z) : RelayState :=
  mkRelay (tm r) (elapsed r) (as_u64 (total r + nb)) (as_u64 (total_s r + nb)) (highest_s r)
          (downgrade r) (blacked r) t (downgrade_threshold r).

(** The body of the [select!]. *)
Definition relay_select (r : RelayState) (e : Event) : RelayState * list Out * option Exit :=
  match e with
  | Recv side (Some bytes) t sent _ _ =>
      let nb := as_u64 (len bytes * 8) in
      let outs := [Consume (if blacked r || downgrade r then Slow else Single) nb; Consume Total nb] in
      let r := receive r t nb in
      if bool_decide (bytes = []) then (r, outs, None)
      else if sent then (r, outs ++ [SendTo side bytes], None)
      else (r, outs, Some SendError)
  | Recv _ None _ _ _ _ => (r, [], Some Closed)
  | Timer t _ _ => (r, [], if 30 <? (t - last_recv_time r) / 1000 then Some TimedOut else None)
  end.

(** The accounting behind it, every second. *)
Definition relay_account (g : Globals) (ip : string) (r : RelayState) (t_acc t_reset : Z)
    : RelayState * list Out * option Exit :=
  let n := t_acc - tm r in
  if n <? 1000 then (r, [], None)
  else if bool_decide (ip ∈ BLOCKLIST g) then (r, [], Some Blocked)
  else
    let blacked := bool_decide (ip ∈ BLACKLIST g) in
    let speed := total_s r / n in
    let highest_s := Z.max (highest_s r) speed in
    let elapsed := as_u64 (elapsed r + n) in
    let down := (DOWNGRADE_START_CHECK (params g) <? elapsed) && negb (downgrade r)
                && (as_u64 (elapsed * downgrade_threshold r) <? total r) in
    (mkRelay t_reset elapsed (total r) 0 highest_s (downgrade r || down) blacked
             (last_recv_time r) (downgrade_threshold r),
     [SetUsage (mkUsage elapsed (total r) highest_s speed)], None).

Definition event_acc (e : Event) : Z * Z :=
  match e with Recv _ _ _ _ a b => (a, b) | Timer _ a b => (a, b) end.

Definition relay_step (g : Globals) (ip : string) (r : RelayState) (e : Event)
    : RelayState * list Out * option Exit :=
  match relay_select r e with
  | (r, o, Some x) => (r, o, Some x)
  | (r, o, None) =>
      let '(r, o', x) := relay_account g ip r (event_acc e).1 (event_acc e).2 in (r, o ++ o', x)
  end.

(** The loop over the events of a session, with the globals at each. *)
Fixpoint relay_loop (ip : string) (r : RelayState) (es : list (Globals * Event))
    : RelayState * list Out * option Exit :=
  match es with
  | [] => (r, [], None)
  | (g, e) :: es =>
      match relay_step g ip r e with
      | (r, o, Some x) => (r, o, Some x)
      | (r, o, None) => let '(r, o', x) := relay_loop ip r es in (r, o ++ o', x)
      end
  end.

(** ** Connections and pairing *)

Record Conn : Type := mkConn {
  c_addr : SocketAddr;
  c_ws : bool;
  c_vless : bool;
  c_header : option string;  (* X-Real-IP, else X-Forwarded-For, when it is text *)
}.

Record RequestRelay : Type := mkRequest { licence_key : string; uuid : string }.

(** The address [make_pair] goes on with. *)
Definition real_addr (c : Conn) : SocketAddr :=
  if c_ws c then
    match c_header c with
    | Some ip =>
        default (c_addr c)
          (parse_socket_addr (if contains "." ip then ip +s+ ":0" else "[" +s+ ip +s+ "]:0"))
    | None => c_addr c
    end
  else c_addr c.

Inductive Admission : Type := Reject | Console | Spawn.

Definition handle_connection (g : Globals) (c : Conn) : Admission :=
  let ip := sa_ip (try_into_v4 (c_addr c)) in
  if c_vless c && negb (is_loopback ip) then Reject
  else if negb (c_ws c) && negb (c_vless c) && is_loopback ip then Console
  else if bool_decide (ip_to_string ip ∈ BLOCKLIST g) then Reject
  else Spawn.

(** Where a [make_pair_] task stands.  Streams are named by their tasks. *)
Inductive Phase : Type :=
| Receiving (deadline : Z)
| Registering (rf : RequestRelay)
| Sleeping (rf : RequestRelay) (wake : Z)
| Relaying (rf : RequestRelay) (peer : nat) (raw : bool) (r : RelayState)
| Finished (rf : option RequestRelay).

Record Task : Type := mkTask { t_conn : Conn; t_phase : Phase }.

Record World : Type := mkWorld {
  globals : Globals;
  PEERS : gmap string nat;
  USAGE : gmap string Usage;
  tasks : gmap nat Task;
}.

Definition set_phase (w : World) (i : nat) (t : Task) (p : Phase) : World :=
  mkWorld (globals w) (PEERS w) (USAGE w) (<[i := mkTask (t_conn t) p]> (tasks w)).
Definition with_peers (w : World) m : World := mkWorld (globals w) m (USAGE w) (tasks w).
Definition with_usage (w : World) m : World := mkWorld (globals w) (PEERS w) m (tasks w).

Definition usage_id (a : SocketAddr) : string :=
  ip_to_string (sa_ip a) +s+ ":" +s+ uint_to_string (sa_port a).

(** The first frame of a connection: [None] is a timeout, an error or a frame that
    is not a relay request.  The lookup in [PEERS] and the later insertion take
    the lock separately. *)
Definition on_first_frame (key : string) (w : World) (i : nat) (t : Task) (now : Z)
    (msg : option RequestRelay) : World :=
  match msg with
  | None => set_phase w i t (Finished None)
  | Some rf =>
      if negb (relay_key_is_valid key (licence_key rf) (c_vless (t_conn t)))
      then set_phase w i t (Finished None)
      else if is_empty (uuid rf) then set_phase w i t (Finished None)
      else
        match PEERS w !! uuid rf with
        | Some p =>
            let w := with_peers w (delete (uuid rf) (PEERS w)) in
            let w := with_usage w (<[usage_id (real_addr (t_conn t)) := mkUsage 0 0 0 0]> (USAGE w)) in
            let raw := negb (c_ws (t_conn t))
                       && negb (default false (c_ws ∘ t_conn <$> tasks w !! p)) in
            set_phase w i t (Relaying rf p raw (relay_start (params (globals w)) now))
        | None => set_phase w i t (Registering rf)
        end
  end.

Definition apply_out (w : World) (id : string) (o : Out) : World :=
  match o with SetUsage u => with_usage w (<[id := u]> (USAGE w)) | _ => w end.

Definition on_relay_event (w : World) (i : nat) (t : Task) (rf : RequestRelay) (p : nat) (raw : bool)
    (r : RelayState) (e : Event) : World :=
  let addr := real_addr (t_conn t) in
  let '(r, o, x) := relay_step (globals w) (ip_to_string (sa_ip addr)) r e in
  let w := foldl (λ w, apply_out w (usage_id addr)) w o in
  match x with
  | None => set_phase w i t (Relaying rf p raw r)
  | Some _ => with_usage (set_phase w i t (Finished (Some rf))) (delete (usage_id addr) (USAGE w))
  end.

(** One step of the server: a connection, the next step of a task, or a console
    command.  An event that does not fit the task's phase changes nothing. *)
Inductive Step : Type :=
| Accept (c : Conn) (now : Z)
| FirstFrame (i : nat) (now : Z) (msg : option RequestRelay)
| Register (i : nat) (now : Z)
| Wake (i : nat) (now : Z)
| RelayEvent (i : nat) (e : Event)
| Cmd (c : Conn) (cmd : string).

Definition step (key : string) (w : World) (s : Step) : World :=
  match s with
  | Accept c now =>
      match handle_connection (globals w) c with
      | Spawn => mkWorld (globals w) (PEERS w) (USAGE w)
                   (<[fresh (dom (tasks w)) := mkTask c (Receiving (now + 30000))]> (tasks w))
      | _ => w
      end
  | FirstFrame i now msg =>
      match tasks w !! i with
      | Some (mkTask c (Receiving d)) =>
          on_first_frame key w i (mkTask c (Receiving d)) now (if d <=? now then None else msg)
      | _ => w
      end
  | Register i now =>
      match tasks w !! i with
      | Some (mkTask c (Registering rf)) =>
          set_phase (with_peers w (<[uuid rf := i]> (PEERS w))) i (mkTask c (Registering rf))
                    (Sleeping rf (now + 30000))
      | _ => w
      end
  | Wake i now =>
      match tasks w !! i with
      | Some (mkTask c (Sleeping rf wake)) =>
          if wake <=? now
          then set_phase (with_peers w (delete (uuid rf) (PEERS w))) i
                 (mkTask c (Sleeping rf wake)) (Finished (Some rf))
          else w
      | _ => w
      end
  | RelayEvent i e =>
      match tasks w !! i with
      | Some (mkTask c (Relaying rf p raw r)) =>
          on_relay_event w i (mkTask c (Relaying rf p raw r)) rf p raw r e
      | _ => w
      end
  | Cmd c cmd =>
      match handle_connection (globals w) c with
      | Console => mkWorld (check_cmd cmd (USAGE w) (globals w)).2 (PEERS w) (USAGE w) (tasks w)
      | _ => w
      end
  end.

Definition run (key : string) (w : World) (l : list Step) : World := foldl (step key) w l.

Definition start (p : Params) (black block : gset string) : World :=
  mkWorld (mkGlobals black block p (TOTAL_BANDWIDTH p)) ∅ ∅ ∅.

End Relay.
