(* ===== verification/RelayProofs.v ===== *)
(** * The relay server: proofs

    Pairing under every interleaving of the tasks, admission, the forwarding loop
    and the console's lists. *)
From S2P Require Import Prelude RustStd Net NetText F64 BytesCodec Relay.
From Stdlib Require Import Ascii.
Import Relay.

Module RelayProofs.

(** ** Pairing *)

(** The request a task has accepted. *)
Definition request_of (p : Phase) : option RequestRelay :=
  match p with
  | Receiving _ => None
  | Registering rf | Sleeping rf _ | Relaying rf _ _ _ => Some rf
  | Finished o => o
  end.

(** The task has given its stream to [PEERS], or is over. *)
Definition waited (p : Phase) (rf : RequestRelay) : Prop :=
  match p with
  | Sleeping rf' _ => rf' = rf
  | Finished (Some rf') => rf' = rf
  | _ => False
  end.

(** What a connection passed before its request counts: the right key, or the
    loopback listener behind the authenticated VLESS server. *)
Definition conn_ok (c : Conn) : Prop :=
  let ip := sa_ip (try_into_v4 (c_addr c)) in
  (c_vless c = true → is_loopback ip = true) ∧
  (c_ws c = false → c_vless c = false → is_loopback ip = false).

Definition request_ok (key : string) (c : Conn) (rf : RequestRelay) : Prop :=
  uuid rf ≠ "" ∧ (key = "" ∨ licence_key rf = key ∨ c_vless c = true).

Record inv (key : string) (m : gmap string nat) (ts : gmap nat Task) : Prop := {
  inv_conn : ∀ i t, ts !! i = Some t → conn_ok (t_conn t);
  inv_request : ∀ i t rf, ts !! i = Some t → request_of (t_phase t) = Some rf →
    request_ok key (t_conn t) rf;
  inv_peers : ∀ u i, m !! u = Some i → ∃ c rf wake,
    ts !! i = Some (mkTask c (Sleeping rf wake)) ∧ uuid rf = u;
  inv_pair : ∀ i c rf p raw r, ts !! i = Some (mkTask c (Relaying rf p raw r)) →
    (∃ tp rfp, ts !! p = Some tp ∧ waited (t_phase tp) rfp ∧ uuid rfp = uuid rf) ∧
    (∀ u, m !! u ≠ Some p);
  inv_once : ∀ i j c c' rf rf' p raw raw' r r', ts !! i = Some (mkTask c (Relaying rf p raw r)) →
    ts !! j = Some (mkTask c' (Relaying rf' p raw' r')) → i = j;
}.

Lemma handle_connection_spawn g c : handle_connection g c = Spawn → conn_ok c.
Proof.
  unfold handle_connection, conn_ok.
  destruct (c_vless c), (c_ws c), (is_loopback _); simpl; try done; case_bool_decide; done.
Qed.

Lemma request_ok_valid key c rf :
  relay_key_is_valid key (licence_key rf) (c_vless c) = true → uuid rf ≠ "" → request_ok key c rf.
Proof.
  unfold relay_key_is_valid. intros [[H|H]%orb_true_iff|H]%orb_true_iff Hu; split; try done.
  - left. by apply is_empty_true.
  - right; left. by apply eqb_str_true.
  - by right; right.
Qed.

Section Preserved.
Context (key : string) (m : gmap string nat) (ts : gmap nat Task) (Hinv : inv key m ts).

Lemma inv_peers_delete u : inv key (delete u m) ts.
Proof.
  destruct Hinv as [H1 H2 H3 H4 H5]. split; try done.
  - intros v i [_ Hv]%lookup_delete_Some. eauto.
  - intros i c rf p raw r Hi. destruct (H4 _ _ _ _ _ _ Hi) as [Hp Hm]. split; [done|].
    intros v [_ Hv]%lookup_delete_Some. by apply (Hm v).
Qed.

(** A task outside [PEERS] moves to a phase that relays nothing. *)
Lemma inv_move i t q :
  ts !! i = Some t →
  (∀ u, m !! u ≠ Some i) →
  (∀ rf p raw r, q ≠ Relaying rf p raw r) →
  (∀ rf, waited (t_phase t) rf → waited q rf) →
  (∀ rf, request_of q = Some rf → request_ok key (t_conn t) rf) →
  inv key m (<[i := mkTask (t_conn t) q]> ts).
Proof.
  intros Hi Hm Hq Hw Hok. destruct Hinv as [H1 H2 H3 H4 H5]. split.
  - intros j t' [[<- <-]|[_ Hj]]%lookup_insert_Some; [apply (H1 _ _ Hi)|eauto].
  - intros j t' rf [[<- <-]|[_ Hj]]%lookup_insert_Some Hr; [by apply Hok|eauto].
  - intros u j Hu. destruct (decide (j = i)) as [->|Hne]; [by destruct (Hm u)|].
    destruct (H3 _ _ Hu) as (c & rf & wake & ? & ?). exists c, rf, wake.
    by rewrite lookup_insert_ne.
  - intros j c rf p raw r [[<- [= <- ->]]|[_ Hj]]%lookup_insert_Some; [by destruct (Hq rf p raw r)|].
    destruct (H4 _ _ _ _ _ _ Hj) as [(tp & rfp & Hp & Hwp & Hu) Hmp]. split; [|done].
    destruct (decide (p = i)) as [->|Hne].
    + exists (mkTask (t_conn t) q), rfp. rewrite lookup_insert_eq. simplify_eq. eauto.
    + exists tp, rfp. by rewrite lookup_insert_ne.
  - intros j j' c c' rf rf' p raw raw' r r' [[<- [= <- ->]]|[_ Hj]]%lookup_insert_Some;
      [by destruct (Hq rf p raw r)|].
    intros [[<- [= <- ->]]|[_ Hj']]%lookup_insert_Some; [by destruct (Hq rf' p raw' r')|].
    eauto.
Qed.

(** A task whose stream nobody relays puts it into [PEERS]. *)
Lemma inv_peers_insert i c rf wake :
  ts !! i = Some (mkTask c (Sleeping rf wake)) →
  (∀ j cj rfj raw r, ts !! j ≠ Some (mkTask cj (Relaying rfj i raw r))) →
  inv key (<[uuid rf := i]> m) ts.
Proof.
  intros Hi Hno. destruct Hinv as [H1 H2 H3 H4 H5]. split; try done.
  - intros u j [[<- <-]|[_ Hu]]%lookup_insert_Some; eauto.
  - intros j cj rfj p raw r Hj. destruct (H4 _ _ _ _ _ _ Hj) as [Hp Hm]. split; [done|].
    intros u [[<- ->]|[_ Hu]]%lookup_insert_Some; [by eapply Hno|by apply (Hm u)].
Qed.

(** A task that never waited starts, or goes on, relaying a stream that is out of
    [PEERS] and that no other task relays. *)
Lemma inv_relay i t rf p raw r tp rfp :
  ts !! i = Some t → (∀ rf, ¬ waited (t_phase t) rf) →
  ts !! p = Some tp → waited (t_phase tp) rfp → uuid rfp = uuid rf →
  (∀ u, m !! u ≠ Some p) →
  (∀ j cj rfj rawj rj, j ≠ i → ts !! j ≠ Some (mkTask cj (Relaying rfj p rawj rj))) →
  request_ok key (t_conn t) rf →
  inv key m (<[i := mkTask (t_conn t) (Relaying rf p raw r)]> ts).
Proof.
  intros Hi Hnw Hp Hwp Hu Hm Hno Hok.
  assert (∀ tq rfq, waited (t_phase tq) rfq → ts !! i ≠ Some tq) as Hne.
  { intros tq rfq Hq Hi'. simplify_eq. by eapply Hnw. }
  destruct Hinv as [H1 H2 H3 H4 H5]. split.
  - intros j t' [[<- <-]|[_ Hj]]%lookup_insert_Some; [apply (H1 _ _ Hi)|eauto].
  - intros j t' rf' [[<- <-]|[_ Hj]]%lookup_insert_Some Hr; [by simplify_eq/=|eauto].
  - intros u j Hj. destruct (H3 _ _ Hj) as (c & rf' & wake & Hs & ?). exists c, rf', wake.
    split; [|done]. rewrite lookup_insert_ne; [done|]. intros <-.
    by eapply (Hne _ rf'); [|exact Hs].
  - assert (∀ q tq rfq, ts !! q = Some tq → waited (t_phase tq) rfq →
      <[i := mkTask (t_conn t) (Relaying rf p raw r)]> ts !! q = Some tq) as Hkeep.
    { intros q tq rfq Hq Hwq. rewrite lookup_insert_ne; [done|]. intros <-. by eapply Hne. }
    intros j c rf' p' raw' r' [[<- [= <- <- <- <- <-]]|[_ Hj]]%lookup_insert_Some.
    + split; [|done]. exists tp, rfp. eauto.
    + destruct (H4 _ _ _ _ _ _ Hj) as [(tq & rfq & Hq & Hwq & ?) ?]. split; [|done].
      exists tq, rfq. eauto.
  - intros j j' c c' rf1 rf2 p' raw1 raw2 r1 r2
      [[<- [= <- <- <- <- <-]]|[Hji Hj]]%lookup_insert_Some
      [[<- [= <- <- <- <-]]|[Hji' Hj']]%lookup_insert_Some; try done.
    + by destruct (Hno j' c' rf2 raw2 r2 ltac:(done)).
    + simplify_eq. by destruct (Hno j c rf1 raw1 r1 ltac:(done)).
    + eauto.
Qed.

(** Facts about a task that never waited. *)
Lemma not_waited_out i t : ts !! i = Some t → (∀ rf, ¬ waited (t_phase t) rf) →
  (∀ u, m !! u ≠ Some i) ∧ (∀ j cj rfj raw r, ts !! j ≠ Some (mkTask cj (Relaying rfj i raw r))).
Proof.
  intros Hi Hnw. split.
  - intros u Hu. destruct (inv_peers _ _ _ Hinv _ _ Hu) as (c & rf & wake & Hs & _).
    simplify_eq. by apply (Hnw rf).
  - intros j cj rfj raw r Hj. destruct (inv_pair _ _ _ Hinv _ _ _ _ _ _ Hj) as [(tp & rfp & ? & Hw & _) _].
    simplify_eq. by apply (Hnw rfp).
Qed.
End Preserved.


Definition world_inv (key : string) (w : World) : Prop := inv key (PEERS w) (tasks w).

Lemma inv_accept key m ts c now :
  inv key m ts → conn_ok c →
  inv key m (<[fresh (dom ts) := mkTask c (Receiving now)]> ts).
Proof.
  intros Hinv Hc. set (i := fresh (dom ts)).
  assert (ts !! i = None) as Hi by (apply not_elem_of_dom, is_fresh).
  destruct Hinv as [H1 H2 H3 H4 H5].
  assert (∀ j t, ts !! j = Some t → <[i := mkTask c (Receiving now)]> ts !! j = Some t) as Hk.
  { intros j t Hj. rewrite lookup_insert_ne; [done|]. intros <-. congruence. }
  split.
  - intros j t [[<- <-]|[_ Hj]]%lookup_insert_Some; eauto.
  - intros j t rf [[<- <-]|[_ Hj]]%lookup_insert_Some; [done|eauto].
  - intros u j (c' & rf & wake & ? & ?)%H3. exists c', rf, wake. eauto.
  - intros j c' rf p raw r [[<- [=]]|[_ Hj]]%lookup_insert_Some.
    destruct (H4 _ _ _ _ _ _ Hj) as [(tp & rfp & ? & ? & ?) ?]. split; [|done].
    exists tp, rfp. eauto.
  - intros j j' c1 c2 rf1 rf2 p raw1 raw2 r1 r2 [[<- [=]]|[_ Hj]]%lookup_insert_Some
      [[<- [=]]|[_ Hj']]%lookup_insert_Some. eauto.
Qed.

Lemma inv_first_frame key w i c d now msg :
  world_inv key w → tasks w !! i = Some (mkTask c (Receiving d)) →
  world_inv key (on_first_frame key w i (mkTask c (Receiving d)) now msg).
Proof.
  intros Hinv Hi. destruct (not_waited_out _ _ _ Hinv _ _ Hi) as [Hm Hno]; [by intros ? []|].
  assert (∀ q, (∀ rf p raw r, q ≠ Relaying rf p raw r) →
    (∀ rf, request_of q = Some rf → request_ok key c rf) →
    world_inv key (set_phase w i (mkTask c (Receiving d)) q)) as Hmove.
  { intros q ??. by apply (inv_move key (PEERS w) (tasks w) Hinv i (mkTask c (Receiving d)) q). }
  unfold on_first_frame. destruct msg as [rf|]; [|by apply Hmove].
  destruct (relay_key_is_valid _ _ _) eqn:Hk; simpl; [|by apply Hmove].
  destruct (is_empty (uuid rf)) eqn:Hu; [by apply Hmove|].
  assert (request_ok key c rf) as Hok by (apply request_ok_valid; [done|by apply is_empty_false]).
  destruct (PEERS w !! uuid rf) as [p|] eqn:Hp; [|apply Hmove; [done|by intros ? [= <-]]].
  destruct (inv_peers _ _ _ Hinv _ _ Hp) as (cp & rfp & wake & Htp & Hup).
  unfold world_inv; cbn.
  eapply (inv_relay key (delete (uuid rf) (PEERS w)) (tasks w) (inv_peers_delete _ _ _ Hinv _)
    i (mkTask c (Receiving d)) rf p _ _ (mkTask cp (Sleeping rfp wake)) rfp); try done; [by intros ? []| |].
  - intros u [Hne Hu']%lookup_delete_Some.
    destruct (inv_peers _ _ _ Hinv _ _ Hu') as (? & ? & ? & ? & ?). by simplify_eq.
  - intros j cj rfj rawj rj _ Hj.
    destruct (inv_pair _ _ _ Hinv _ _ _ _ _ _ Hj) as [_ Hno']. by apply (Hno' (uuid rf)).
Qed.

Lemma apply_outs_tasks id os w :
  let w' := foldl (λ w, apply_out w id) w os in
  PEERS w' = PEERS w ∧ tasks w' = tasks w ∧ globals w' = globals w.
Proof.
  revert w. induction os as [|o os IH]; intros w; simpl; [done|].
  destruct (IH (apply_out w id o)) as (-> & -> & ->). by destruct o.
Qed.

Lemma inv_relay_event key w i c rf p raw r e :
  world_inv key w → tasks w !! i = Some (mkTask c (Relaying rf p raw r)) →
  world_inv key (on_relay_event w i (mkTask c (Relaying rf p raw r)) rf p raw r e).
Proof.
  intros Hinv Hi. destruct (not_waited_out _ _ _ Hinv _ _ Hi) as [Hm Hno]; [by intros ? []|].
  pose proof (inv_request _ _ _ Hinv _ _ _ Hi eq_refl) as Hok.
  destruct (inv_pair _ _ _ Hinv _ _ _ _ _ _ Hi) as [(tp & rfp & Hp & Hw & Hu) Hmp].
  unfold on_relay_event. destruct (relay_step _ _ _ _) as [[r' o] x].
  destruct (apply_outs_tasks (usage_id (real_addr c)) o w) as (E1 & E2 & _).
  destruct x; unfold world_inv; cbn [set_phase with_usage PEERS tasks t_conn]; rewrite ?E1, ?E2.
  - apply (inv_move key (PEERS w) (tasks w) Hinv i (mkTask c (Relaying rf p raw r)));
      try done. by intros ? [= <-].
  - eapply (inv_relay key (PEERS w) (tasks w) Hinv i (mkTask c (Relaying rf p raw r)) rf p raw r' tp rfp);
      try done; [by intros ? []|].
    intros j cj rfj rawj rj Hne Hj. apply Hne. symmetry. eapply (inv_once _ _ _ Hinv); eauto.
Qed.

Lemma inv_step key w s : world_inv key w → world_inv key (step key w s).
Proof.
  intros Hinv. destruct s as [c now|i now msg|i now|i now|i e|c cmd]; simpl.
  - destruct (handle_connection _ _) eqn:Hc; try done. apply inv_accept; [done|].
    by eapply handle_connection_spawn.
  - destruct (tasks w !! i) as [[c []]|] eqn:Hi; try done. by apply inv_first_frame.
  - destruct (tasks w !! i) as [[c [|rf| | |]]|] eqn:Hi; try done.
    destruct (not_waited_out _ _ _ Hinv _ _ Hi) as [Hm Hno]; [by intros ? []|].
    pose proof (inv_request _ _ _ Hinv _ _ _ Hi eq_refl) as Hok. unfold world_inv; cbn.
    eapply (inv_peers_insert key (PEERS w) _ _ i c rf); [by rewrite lookup_insert_eq|].
    intros j cj rfj raw r [[<- [=]]|[_ Hj]]%lookup_insert_Some. by eapply Hno.
  - destruct (tasks w !! i) as [[c [| |rf wake| |]]|] eqn:Hi; try done.
    destruct (_ <=? _); [|done].
    pose proof (inv_request _ _ _ Hinv _ _ _ Hi eq_refl) as Hok. unfold world_inv; cbn.
    apply (inv_move key _ (tasks w) (inv_peers_delete _ _ _ Hinv _) i (mkTask c (Sleeping rf wake)));
      try done; [|by intros ? [= <-]].
    intros u [Hne Hu]%lookup_delete_Some.
    destruct (inv_peers _ _ _ Hinv _ _ Hu) as (? & ? & ? & ? & ?). by simplify_eq.
  - destruct (tasks w !! i) as [[c []]|] eqn:Hi; try done. by apply inv_relay_event.
  - by destruct (handle_connection _ _).
Unshelve.
  apply (inv_move key (PEERS w) (tasks w) Hinv i (mkTask c (Registering rf))); try done.
  by intros ? [= <-].
Qed.

Lemma inv_run key p black block l : world_inv key (run key (start p black block) l).
Proof.
  unfold run. assert (world_inv key (start p black block)) as H by (by split).
  revert H. generalize (start p black block). induction l as [|s l IH]; intros w H; simpl; [done|].
  by apply IH, inv_step.
Qed.

(** The stream of task [i] is in use by the relay that task [j] runs. *)
Definition uses (ts : gmap nat Task) (j i : nat) : Prop :=
  ∃ c rf p raw r, ts !! j = Some (mkTask c (Relaying rf p raw r)) ∧ (i = j ∨ i = p).

(** (C26) Whatever connections arrive and however their tasks interleave: two
    streams that are relayed to each other gave the same nonempty uuid, each gave
    the server's key or came through the loopback listener of the authenticated
    VLESS server, neither is still on offer in [PEERS], and neither takes part in
    any other relay. *)
Theorem relay_pairing_exclusive key p0 black block l i c rf p raw r :
  let w := run key (start p0 black block) l in
  tasks w !! i = Some (mkTask c (Relaying rf p raw r)) →
  i ≠ p ∧ request_ok key c rf ∧ conn_ok c ∧
  (∃ cp ph rfp, tasks w !! p = Some (mkTask cp ph) ∧ request_of ph = Some rfp ∧
     uuid rfp = uuid rf ∧ request_ok key cp rfp ∧ conn_ok cp) ∧
  (∀ u, PEERS w !! u ≠ Some i ∧ PEERS w !! u ≠ Some p) ∧
  (∀ j, uses (tasks w) j i ∨ uses (tasks w) j p → j = i).
Proof.
  intros w Hi. pose proof (inv_run key p0 black block l) as Hinv. fold w in Hinv.
  destruct (not_waited_out _ _ _ Hinv _ _ Hi) as [Hm Hno]; [by intros ? []|].
  destruct (inv_pair _ _ _ Hinv _ _ _ _ _ _ Hi) as [([cp ph] & rfp & Hp & Hw & Hu) Hmp].
  assert (request_of ph = Some rfp) as Hrq by (destruct ph as [| | | |[]]; naive_solver).
  split_and!.
  - intros ->. by simplify_eq.
  - by apply (inv_request _ _ _ Hinv _ _ _ Hi).
  - by apply (inv_conn _ _ _ Hinv _ _ Hi).
  - exists cp, ph, rfp. split_and!; [done..| |].
    + by apply (inv_request _ _ _ Hinv _ _ _ Hp).
    + by apply (inv_conn _ _ _ Hinv _ _ Hp).
  - done.
  - intros j [(c' & rf' & p' & raw' & r' & Hj & [-> | ->])|(c' & rf' & p' & raw' & r' & Hj & [-> | ->])].
    + done.
    + by destruct (Hno j c' rf' raw' r').
    + by simplify_eq.
    + by eapply (inv_once _ _ _ Hinv).
Qed.

Definition example_conn (last port : Z) : Conn :=
  mkConn (SaV4 (ipv4 192 0 2 last) port) false false None.
Definition example_request : RequestRelay := mkRequest "k" "u".
Definition example_start : World := start default_params ∅ ∅.
Definition arrive (i : nat) (now : Z) : list Step :=
  [Accept (example_conn (Z.of_nat i + 1) 5000) now; FirstFrame i (now + 10) (Some example_request)].

Lemma relay_pairing_exclusive_witness :
  let w := run "k" example_start (arrive 0 0 ++ [Register 0 20] ++ arrive 1 1000) in
  ∃ rf raw r, tasks w !! 1%nat = Some (mkTask (example_conn 2 5000) (Relaying rf 0 raw r)) ∧
    (∀ u, PEERS w !! u ≠ Some 1%nat ∧ PEERS w !! u ≠ Some 0%nat).
Proof.
  exists example_request, true, (relay_start default_params 1010).
  assert (tasks (run "k" example_start (arrive 0 0 ++ [Register 0 20] ++ arrive 1 1000)) !! 1%nat
    = Some (mkTask (example_conn 2 5000) (Relaying example_request 0 true (relay_start default_params 1010))))
    as H by (vm_compute; reflexivity).
  split; [exact H|].
  apply (relay_pairing_exclusive "k" default_params ∅ ∅ _ _ _ _ _ _ _ H).
Defined.

(** The two sides of the same uuid that arrive together both find nobody, and the
    second registration drops the stream of the first: neither is ever paired. *)
Example simultaneous_requests_miss_each_other :
  let w := run "k" example_start (arrive 0 0 ++ arrive 1 0 ++ [Register 0 20; Register 1 20]) in
  PEERS w !! "u" = Some 1%nat ∧
  t_phase <$> tasks w !! 0%nat = Some (Sleeping example_request 30020) ∧
  t_phase <$> tasks w !! 1%nat = Some (Sleeping example_request 30020).
Proof. vm_compute. done. Qed.

(** The timer of a registration that was paired long ago removes a later
    registration under the same uuid, here twenty seconds early. *)
Example stale_timer_evicts_newcomer :
  let w := run "k" example_start
    (arrive 0 0 ++ [Register 0 20] ++ arrive 1 1000 ++
     [RelayEvent 1 (Recv FromStream None 2000 true 2000 2000)] ++
     arrive 2 20000 ++ [Register 2 20020]) in
  PEERS w !! "u" = Some 2%nat ∧ PEERS (step "k" w (Wake 0 30020)) !! "u" = None ∧
  t_phase <$> tasks w !! 2%nat = Some (Sleeping example_request 50020).
Proof. vm_compute. done. Qed.

(** ** The forwarding loop *)

Definition side_eqb (a b : Side) : bool :=
  match a, b with FromPeer, FromPeer | FromStream, FromStream => true | _, _ => false end.

(** The bytes a side has sent, and those written to the other side. *)
Definition received_1 (side : Side) (e : Event) : list byte :=
  match e with
  | Recv s (Some b) _ _ _ _ => if side_eqb s side then b else []
  | _ => []
  end.
Definition received (side : Side) (es : list (Globals * Event)) : list byte :=
  concat (received_1 side ∘ snd <$> es).
Definition written_1 (side : Side) (o : Out) : list byte :=
  match o with SendTo s b => if side_eqb s side then b else [] | _ => [] end.
Definition written (side : Side) (os : list Out) : list byte := concat (written_1 side <$> os).

Lemma received_cons side ge es : received side (ge :: es) = received_1 side ge.2 ++ received side es.
Proof. done. Qed.

Lemma written_app side a b : written side (a ++ b) = written side a ++ written side b.
Proof. unfold written. by rewrite fmap_app, concat_app. Qed.

Lemma account_written g ip r a b r' o x side :
  relay_account g ip r a b = (r', o, x) → written side o = [] ∧ total r' = total r.
Proof. unfold relay_account. repeat case_match; intros; by simplify_eq. Qed.

Definition bits (e : Event) : Z :=
  8 * (len (received_1 FromPeer e) + len (received_1 FromStream e)).

Lemma as_u64_add a b : as_u64 (a + as_u64 b) = as_u64 (a + b).
Proof. unfold as_u64. by rewrite Z.add_mod_idemp_r. Qed.

Lemma as_u64_add_l a b : as_u64 (as_u64 a + b) = as_u64 (a + b).
Proof. unfold as_u64. by rewrite Z.add_mod_idemp_l. Qed.

Lemma select_spec r e r' o x :
  relay_select r e = (r', o, x) → as_u64 (total r) = total r →
  (∀ side, written side o `prefix_of` received_1 side e ∧
           (x ≠ Some SendError → written side o = received_1 side e)) ∧
  total r' = as_u64 (total r + bits e).
Proof.
  intros H Ht. unfold relay_select in H.
  destruct e as [s [b|] t sent a1 a2|t a1 a2].
  - assert (total (receive r t (as_u64 (len b * 8))) =
            as_u64 (total r + bits (Recv s (Some b) t sent a1 a2))) as Htot.
    { simpl. rewrite as_u64_add. f_equal. unfold bits. destruct s; simpl; rewrite len_nil; lia. }
    case_bool_decide as Hb; [subst b|destruct sent]; simplify_eq; (split; [|exact Htot]); intros side.
    + by destruct s, side.
    + unfold written. simpl. rewrite app_nil_r. by destruct s, side.
    + split; [apply prefix_nil|done].
  - simplify_eq. split; [by intros []|]. by replace (bits _) with 0; rewrite ?Z.add_0_r.
  - simplify_eq. split; [by intros []|]. by replace (bits _) with 0; rewrite ?Z.add_0_r.
Qed.

Lemma step_spec g ip r e r' o x :
  relay_step g ip r e = (r', o, x) → as_u64 (total r) = total r →
  (∀ side, written side o `prefix_of` received_1 side e ∧
           (x ≠ Some SendError → written side o = received_1 side e)) ∧
  total r' = as_u64 (total r + bits e).
Proof.
  unfold relay_step. destruct (relay_select r e) as [[r1 o1] [x1|]] eqn:Hs; intros H Ht;
    destruct (select_spec _ _ _ _ _ Hs Ht) as [Hw Htot]; [by simplify_eq|].
  destruct (relay_account _ _ _ _ _) as [[r2 o2] x2] eqn:Ha. simplify_eq.
  split; [|by rewrite <- Htot; apply (account_written _ _ _ _ _ _ _ _ FromPeer Ha)].
  intros side. rewrite written_app.
  destruct (account_written _ _ _ _ _ _ _ _ side Ha) as [-> _]. rewrite app_nil_r.
  destruct (Hw side) as [_ ->]; done.
Qed.

Lemma total_wf g ip r e r' o x : relay_step g ip r e = (r', o, x) → as_u64 (total r) = total r →
  as_u64 (total r') = total r'.
Proof.
  intros H Ht. destruct (step_spec _ _ _ _ _ _ _ H Ht) as [_ ->]. unfold as_u64.
  by rewrite Z.mod_mod.
Qed.

Definition moved (es : list (Globals * Event)) : Z :=
  len (received FromPeer es) + len (received FromStream es).

Lemma loop_spec ip es r : as_u64 (total r) = total r → ∀ r' outs x,
  relay_loop ip r es = (r', outs, x) →
  ∃ fin rest, es = fin ++ rest ∧ (x = None → rest = []) ∧
    (∀ side, written side outs `prefix_of` received side fin) ∧
    (x ≠ Some SendError → ∀ side, written side outs = received side fin) ∧
    total r' = as_u64 (total r + 8 * moved fin).
Proof.
  revert r. induction es as [|[g e] es IH]; intros r Ht r1 o1 x1 H; simpl in H.
  - simplify_eq. exists [], []. split_and!; try done. unfold moved. simpl.
    by rewrite Z.add_0_r.
  - destruct (relay_step g ip r e) as [[r2 o2] [x2|]] eqn:Hs;
      destruct (step_spec _ _ _ _ _ _ _ Hs Ht) as [Hw Htot].
    + simplify_eq. exists [(g, e)], es. split_and!; try done.
      * intros side. unfold received. simpl. rewrite app_nil_r. apply Hw.
      * intros Hx side. unfold received. simpl. rewrite app_nil_r. by apply Hw.
      * rewrite Htot. unfold moved, bits, received. simpl. by rewrite !app_nil_r.
    + destruct (relay_loop ip r2 es) as [[r3 o3] x3] eqn:Hl. simplify_eq.
      destruct (IH r2 (total_wf _ _ _ _ _ _ _ Hs Ht) _ _ _ Hl)
        as (fin & rest & -> & Hr & Hpre & Heq & Htot').
      exists ((g, e) :: fin), rest. split_and!; try done.
      * intros side. rewrite written_app, received_cons. destruct (Hw side) as [_ ->]; [|done].
        by apply prefix_app.
      * intros Hx side. rewrite written_app, received_cons. destruct (Hw side) as [_ ->]; [|done].
        by rewrite Heq.
      * rewrite Htot', Htot, as_u64_add_l. f_equal. unfold moved, bits.
        rewrite !received_cons, !len_app. cbn [snd]. lia.
Qed.

(** The relay is transparent: up to the event that ends it, each side is
    sent exactly the bytes the other side sent, in order (only the frame whose
    write failed may be missing), and the traffic counter is eight times the
    number of bytes, modulo [2^64]. *)
Theorem relay_transparent ip p now es r' outs x :
  relay_loop ip (relay_start p now) es = (r', outs, x) →
  ∃ fin rest, es = fin ++ rest ∧ (x = None → rest = []) ∧
    (∀ side, written side outs `prefix_of` received side fin) ∧
    (x ≠ Some SendError → ∀ side, written side outs = received side fin) ∧
    total r' = as_u64 (8 * moved fin).
Proof. intros H. apply (loop_spec ip es (relay_start p now) eq_refl _ _ _ H). Qed.

Definition tick (now : Z) : Globals * Event := (globals example_start, Timer now now now).
Definition data (s : Side) (b : list byte) (now : Z) : Globals * Event :=
  (globals example_start, Recv s (Some b) now true now now).

Lemma relay_transparent_witness :
  let es := [data FromPeer [Byte.x01; Byte.x02] 10; tick 20; data FromStream [Byte.x03] 30;
             data FromPeer [Byte.x04] 2000] in
  let '(r, outs, x) := relay_loop "192.0.2.1" (relay_start default_params 0) es in
  x = None ∧ written FromPeer outs = [Byte.x01; Byte.x02; Byte.x04] ∧ total r = 32.
Proof.
  intros es. destruct (relay_loop "192.0.2.1" (relay_start default_params 0) es) as [[r outs] x] eqn:E.
  pose proof (relay_transparent "192.0.2.1" default_params 0 _ _ _ _ E) as (fin & rest & Hes & Hr & _ & Heq & Htot).
  assert (x = None) as -> by (vm_compute in E; by injection E).
  rewrite (Hr eq_refl), app_nil_r in Hes. subst fin. rewrite Htot, (Heq ltac:(done)).
  vm_compute. done.
Defined.


(** A peer's messages survive the relay end to end: the sender frames them,
    the relay reads and forwards the bytes in pieces of any size, the receiver
    reads them in other pieces, and decodes exactly the messages sent. *)
Theorem relay_carries_frames ip p now es r' outs side c ms chunks rs :
  relay_loop ip (relay_start p now) es = (r', outs, None) →
  raw c = false → state c = Head → Forall (sendable c) ms →
  encode_all c ms [] = (Ok tt, received side es) →
  chunks ≠ [] → concat chunks = written side outs →
  ∃ rs', feed_all c (mkBytes [] rs) chunks = (ms, c, mkBytes [] rs', None).
Proof.
  intros Hl Hr Hst Hms He Hne Hc.
  destruct (loop_spec ip es (relay_start p now) eq_refl _ _ _ Hl)
    as (fin & rest & -> & Hrest & _ & Heq & _).
  rewrite (Hrest eq_refl), app_nil_r in He. rewrite (Heq ltac:(done)) in Hc.
  rewrite encode_all_frames in He
    by (done || (eapply Forall_impl; [exact Hms|by intros m [? _]])).
  injection He as He. rewrite <- Hc in He.
  destruct (feed_all_spec chunks c ms [] rs) as [rs' ->]; try done; rewrite ?Hst; try done.
  exists rs'. by rewrite <- Hst, set_state_id.
Qed.

Lemma relay_carries_frames_witness :
  let ms := [[Byte.x01; Byte.x02]; [Byte.x03]] in
  let wire := (encode_all new ms []).2 in
  let es := [data FromPeer (take 2 wire) 10; tick 20; data FromPeer (drop 2 wire) 30] in
  let '(r, outs, x) := relay_loop "192.0.2.1" (relay_start default_params 0) es in
  ∃ rs', feed_all new (mkBytes [] 0) [take 1 (written FromPeer outs); drop 1 (written FromPeer outs)]
         = (ms, new, mkBytes [] rs', None).
Proof.
  intros ms wire es. destruct (relay_loop _ (relay_start default_params 0) es) as [[r outs] x] eqn:E.
  assert (x = None) as -> by (vm_compute in E; by injection E).
  apply (relay_carries_frames "192.0.2.1" default_params 0 es r outs FromPeer); try done.
  - repeat constructor; vm_compute; congruence.
  - simpl. by rewrite app_nil_r, take_drop.
Defined.

(** *** Why a session ends *)

(** The time of the last reception, [now] before the first. *)
Definition seen_1 (t : Z) (e : Event) : Z :=
  match e with Recv _ (Some _) t' _ _ _ => t' | _ => t end.
Definition last_seen (now : Z) (es : list (Globals * Event)) : Z :=
  foldl (λ t ge, seen_1 t ge.2) now es.

Lemma step_last_recv g ip r e r' o : relay_step g ip r e = (r', o, None) →
  last_recv_time r' = seen_1 (last_recv_time r) e.
Proof.
  unfold relay_step, relay_select, relay_account.
  destruct e as [s [b|] t sent a1 a2|t a1 a2]; repeat case_match; intros; by simplify_eq.
Qed.

(** What the event that ends a session looks like, [seen] being the time of the
    last reception before it. *)
Definition reason (ip : string) (seen : Z) (g : Globals) (e : Event) (x : Exit) : Prop :=
  match x with
  | Closed => ∃ s t sent a b, e = Recv s None t sent a b
  | TimedOut => ∃ t a b, e = Timer t a b ∧ 31000 ≤ t - seen
  | SendError => ∃ s bytes t a b, e = Recv s (Some bytes) t false a b ∧ bytes ≠ []
  | Blocked => ip ∈ BLOCKLIST g
  end.

Lemma idle_secs d : (30 <? d / 1000) = (31000 <=? d).
Proof.
  apply eq_true_iff_eq. rewrite Z.ltb_lt, Z.leb_le. split; intros.
  - assert (31 * 1000 ≤ d / 1000 * 1000) by lia. pose proof (Z.mul_div_le d 1000). lia.
  - pose proof (Z.div_le_mono 31000 d 1000). change (31000 / 1000) with 31 in *. lia.
Qed.

Lemma account_exit g ip r a b r' o x : relay_account g ip r a b = (r', o, x) →
  match x with
  | Some x => x = Blocked ∧ ip ∈ BLOCKLIST g
  | None => 1000 ≤ a - tm r → ip ∉ BLOCKLIST g
  end.
Proof.
  unfold relay_account. destruct (Z.ltb_spec (a - tm r) 1000); [intros [= <- <- <-]; lia|].
  case_bool_decide; intros [= <- <- <-]; done.
Qed.

Lemma select_exit ip g r e r' o x : relay_select r e = (r', o, x) →
  match x with
  | Some x => reason ip (last_recv_time r) g e x
  | None => tm r' = tm r ∧ (∀ s t sent a b, e ≠ Recv s None t sent a b) ∧
            (∀ t a b, e = Timer t a b → t - last_recv_time r < 31000)
  end.
Proof.
  unfold relay_select. destruct e as [s [b|] t sent a1 a2|t a1 a2]; rewrite ?idle_secs.
  - case_bool_decide; [|destruct sent]; intros [= <- <- <-]; simpl; naive_solver.
  - intros [= <- <- <-]. simpl. eauto 10.
  - destruct (Z.leb_spec 31000 (t - last_recv_time r)); intros [= <- <- <-]; simpl.
    + eauto 10.
    + split_and!; [done|done|]. by intros ??? [= <- <- <-].
Qed.

Lemma step_exit g ip r e r' o x : relay_step g ip r e = (r', o, x) →
  match x with
  | Some x => reason ip (last_recv_time r) g e x
  | None => (∀ s t sent a b, e ≠ Recv s None t sent a b) ∧
            (∀ t a b, e = Timer t a b → t - last_recv_time r < 31000) ∧
            (1000 ≤ (event_acc e).1 - tm r → ip ∉ BLOCKLIST g)
  end.
Proof.
  unfold relay_step. destruct (relay_select r e) as [[r1 o1] x1] eqn:Hs.
  apply (select_exit ip g) in Hs. destruct x1 as [x1|]; [by intros [= <- <- <-]|].
  destruct (relay_account _ _ _ _ _) as [[r2 o2] x2] eqn:Ha. intros [= <- <- <-].
  apply account_exit in Ha. destruct x2; [by destruct Ha as [-> ?]|].
  destruct Hs as (Htm & ? & ?). rewrite Htm in Ha. done.
Qed.

Lemma loop_exit ip es : ∀ r r' outs x, relay_loop ip r es = (r', outs, x) →
  match x with
  | Some x => ∃ fin g e rest, es = fin ++ (g, e) :: rest ∧
                reason ip (last_seen (last_recv_time r) fin) g e x
  | None => ∀ fin g e rest, es = fin ++ (g, e) :: rest →
      (∀ s t sent a b, e ≠ Recv s None t sent a b) ∧
      (∀ t a b, e = Timer t a b → t - last_seen (last_recv_time r) fin < 31000)
  end.
Proof.
  induction es as [|[g e] es IH]; intros r r' outs x H; simpl in H.
  - simplify_eq. intros [] ? ? ? [=].
  - destruct (relay_step g ip r e) as [[r1 o1] [x1|]] eqn:Hs.
    + simplify_eq. apply step_exit in Hs. by exists [], g, e, es.
    + destruct (relay_loop ip r1 es) as [[r2 o2] x2] eqn:Hl. simplify_eq.
      apply IH in Hl. rewrite (step_last_recv _ _ _ _ _ _ Hs) in Hl.
      apply step_exit in Hs. destruct x as [x|].
      * destruct Hl as (fin & g' & e' & rest & -> & Hr). by exists ((g, e) :: fin), g', e', rest.
      * intros [|ge fin] g' e' rest [= <- ?].
        -- simplify_eq. split; apply Hs.
        -- by eapply Hl.
Qed.

(** A session ends for a reason and only then: when a side closed, when a
    timer found that neither side had sent anything for 31 seconds, when a write
    failed, or when the address was on the block list at a check; a session that
    goes on has seen no end of stream and no timer with such a silence. *)
Theorem relay_ends_for_a_reason ip p now es r' outs x :
  relay_loop ip (relay_start p now) es = (r', outs, x) →
  match x with
  | Some x => ∃ fin g e rest, es = fin ++ (g, e) :: rest ∧ reason ip (last_seen now fin) g e x
  | None => ∀ fin g e rest, es = fin ++ (g, e) :: rest →
      (∀ s t sent a b, e ≠ Recv s None t sent a b) ∧
      (∀ t a b, e = Timer t a b → t - last_seen now fin < 31000)
  end.
Proof. apply (loop_exit ip es (relay_start p now)). Qed.

Lemma relay_ends_for_a_reason_witness :
  let es := [data FromPeer [Byte.x01] 500; tick 31499; tick 31500] in
  let '(r, outs, x) := relay_loop "192.0.2.1" (relay_start default_params 0) es in
  x = Some TimedOut ∧ ∃ fin g e rest, es = fin ++ (g, e) :: rest ∧
    reason "192.0.2.1" (last_seen 0 fin) g e TimedOut.
Proof.
  intros es. destruct (relay_loop _ (relay_start default_params 0) es) as [[r outs] x] eqn:E.
  assert (x = Some TimedOut) as -> by (vm_compute in E; by injection E).
  split; [done|]. exact (relay_ends_for_a_reason _ _ _ _ _ _ _ E).
Defined.

(** *** Downgrading *)

Lemma step_downgraded g ip r e r' o x : relay_step g ip r e = (r', o, x) → downgrade r = true →
  downgrade r' = true ∧ ∀ nb, Consume Single nb ∉ o.
Proof.
  intros H Hd. unfold relay_step, relay_select, relay_account in H.
  destruct e as [s [b|] t sent a1 a2|t a1 a2]; simpl in H; rewrite ?Hd, ?orb_true_r in H;
    repeat case_match; simplify_eq/=; rewrite ?Hd; (split; [done|]); intros nb; set_solver.
Qed.

Lemma loop_downgraded ip es : ∀ r r' outs x, relay_loop ip r es = (r', outs, x) →
  downgrade r = true → downgrade r' = true ∧ ∀ nb, Consume Single nb ∉ outs.
Proof.
  induction es as [|[g e] es IH]; intros r r' outs x H Hd; simpl in H.
  - simplify_eq. split; [done|]. intros nb. set_solver.
  - destruct (relay_step g ip r e) as [[r1 o1] [x1|]] eqn:Hs;
      destruct (step_downgraded _ _ _ _ _ _ _ Hs Hd) as [Hd1 Ho1]; [by simplify_eq|].
    destruct (relay_loop ip r1 es) as [[r2 o2] x2] eqn:Hl. simplify_eq.
    destruct (IH _ _ _ _ Hl Hd1) as [Hd2 Ho2]. split; [done|].
    intros nb [?|?]%elem_of_app; [by eapply Ho1|by eapply Ho2].
Qed.

Lemma step_downgrades g ip r e r' o x : relay_step g ip r e = (r', o, x) →
  downgrade_threshold r' = downgrade_threshold r ∧
  (downgrade r = false → downgrade r' = true →
   x = None ∧ DOWNGRADE_START_CHECK (params g) < elapsed r' ∧
   as_u64 (elapsed r' * downgrade_threshold r) < total r').
Proof.
  unfold relay_step. destruct (relay_select r e) as [[r1 o1] x1] eqn:Hs.
  assert (downgrade r1 = downgrade r ∧ downgrade_threshold r1 = downgrade_threshold r) as [Hd Ht].
  { unfold relay_select in Hs. destruct e as [s [b|] t sent a1 a2|t a1 a2];
      repeat case_match; by simplify_eq/=. }
  destruct x1; [intros [= <- <- <-]; split; [done|congruence]|].
  unfold relay_account. destruct (Z.ltb_spec ((event_acc e).1 - tm r1) 1000);
    [intros [= <- <- <-]; split; [done|congruence]|].
  case_bool_decide; intros [= <- <- <-]; (split; [done|]); [congruence|].
  cbn [downgrade elapsed total]. rewrite Hd, Ht. intros -> H1. simpl in H1.
  rewrite andb_true_r in H1. apply andb_true_iff in H1 as [?%Z.ltb_lt ?%Z.ltb_lt]. done.
Qed.

Lemma loop_downgrades ip es : ∀ r r' outs x, relay_loop ip r es = (r', outs, x) →
  downgrade r = false → downgrade r' = true →
  ∃ fin g e rest r1 o1 o2, es = fin ++ (g, e) :: rest ∧
    relay_loop ip r (fin ++ [(g, e)]) = (r1, o1, None) ∧
    relay_loop ip r1 rest = (r', o2, x) ∧ outs = o1 ++ o2 ∧
    DOWNGRADE_START_CHECK (params g) < elapsed r1 ∧
    as_u64 (elapsed r1 * downgrade_threshold r) < total r1 ∧
    ∀ nb, Consume Single nb ∉ o2.
Proof.
  induction es as [|[g e] es IH]; intros r r' outs x H Hd Hd'; simpl in H; [congruence|].
  destruct (relay_step g ip r e) as [[r1 o1] x1] eqn:Hs.
  destruct (step_downgrades _ _ _ _ _ _ _ Hs) as [Ht Hcond].
  destruct (downgrade r1) eqn:Hd1.
  - destruct Hcond as (-> & ? & ?); [done..|].
    destruct (relay_loop ip r1 es) as [[r2 o2] x2] eqn:Hl. simplify_eq.
    exists [], g, e, es, r1, o1, o2. split_and!; try done.
    + simpl. by rewrite Hs, app_nil_r.
    + by destruct (loop_downgraded _ _ _ _ _ _ Hl Hd1).
  - destruct x1 as [x1|]; [congruence|].
    destruct (relay_loop ip r1 es) as [[r2 o2] x2] eqn:Hl. simplify_eq.
    destruct (IH _ _ _ _ Hl Hd1 Hd') as (fin & g' & e' & rest & r2 & p1 & p2 & -> & Hf & Hr & -> & ? & ? & ?).
    exists ((g, e) :: fin), g', e', rest, r2, (o1 ++ p1), p2. split_and!; try done.
    + simpl. by rewrite Hs, Hf.
    + by rewrite app_assoc.
    + by rewrite <- Ht.
Qed.

(** A session is downgraded only at a check after the start period at which
    its average rate since the start is over the threshold, and from then on no
    traffic of it is charged to the ordinary limiter any more. *)
Theorem downgrade_justified_and_final ip p now es r' outs x :
  relay_loop ip (relay_start p now) es = (r', outs, x) → downgrade r' = true →
  ∃ fin g e rest r1 o1 o2, es = fin ++ (g, e) :: rest ∧
    relay_loop ip (relay_start p now) (fin ++ [(g, e)]) = (r1, o1, None) ∧
    relay_loop ip r1 rest = (r', o2, x) ∧ outs = o1 ++ o2 ∧
    DOWNGRADE_START_CHECK (params g) < elapsed r1 ∧
    as_u64 (elapsed r1 * threshold_of p) < total r1 ∧
    ∀ nb, Consume Single nb ∉ o2.
Proof. intros H. by apply (loop_downgrades _ _ _ _ _ _ H). Qed.

(** A tiny threshold: 1% of 0.1 Mbit/s, checked after one second. *)
Definition tight : Params := mkParams 1 1000 1 1 100000.
Definition tight_globals : Globals := mkGlobals ∅ ∅ tight 1.

Lemma downgrade_justified_and_final_witness :
  let ev b t := (tight_globals, Recv FromPeer (Some (replicate b Byte.x00)) t true t t) in
  let es := [ev 400%nat 100; ev 10%nat 2000; ev 5%nat 2100] in
  let '(r, outs, x) := relay_loop "192.0.2.1" (relay_start tight 0) es in
  downgrade r = true ∧ Consume Slow 40 ∈ outs ∧
  ∃ fin g e rest r1 o1 o2, es = fin ++ (g, e) :: rest ∧
    relay_loop "192.0.2.1" (relay_start tight 0) (fin ++ [(g, e)]) = (r1, o1, None) ∧
    relay_loop "192.0.2.1" r1 rest = (r, o2, x) ∧ outs = o1 ++ o2 ∧
    DOWNGRADE_START_CHECK (params g) < elapsed r1 ∧
    as_u64 (elapsed r1 * threshold_of tight) < total r1 ∧
    ∀ nb, Consume Single nb ∉ o2.
Proof.
  intros ev es. destruct (relay_loop _ (relay_start tight 0) es) as [[r outs] x] eqn:E.
  assert (downgrade r = true) as Hd by (vm_compute in E; injection E as <- _ _; done).
  split_and!; [done| |by apply (downgrade_justified_and_final "192.0.2.1" tight 0 es r outs x)].
  vm_compute in E. injection E as _ <- _.
  do 7 right. left.
Defined.

(** ** The console *)

Definition run_cmds (cmds : list string) (g : Globals) : Globals :=
  foldl (λ g c, (check_cmd c ∅ g).2) g cmds.

(** Commands a user types, with the line end the console client sends. *)
Example console_session :
  let g := run_cmds ["Ba 192.0.2.7|192.0.2.8
"; "ba 192.0.2.9"; "Br 192.0.2.8"; "t 60"; "sb 0.5"; "tb 2"; "dt 0.29"; "ls nonsense"]
    (globals example_start) in
  handle_connection g (example_conn 7 1) = Reject ∧
  handle_connection g (example_conn 8 1) = Spawn ∧
  BLACKLIST g = {["192.0.2.9"]} ∧
  params g = mkParams 28 60000 (32 * 1024 * 1024) 2097152 524288 ∧ total_limiter g = 2097152 ∧
  check_cmd "B 192.0.2.7" ∅ g = (Member true, g) ∧
  BLOCKLIST (run_cmds ["Br all"] g) = ∅.
Proof. vm_compute. done. Qed.

End RelayProofs.
