(* ===== verification/LoginGuard.v ===== *)
(** * Guarding the login of the controlled side

    The limits on login attempts of [client/src/server/login_failure_check.rs] and
    [client/src/server/connection.rs]: the back-off of terminal logins with
    operating-system credentials, the failure counters per address and IPv6
    prefix, and the whitelist of controller ids with its pattern matching. *)
From S2P Require Import Prelude RustStd Net NetText.
From Stdlib Require Import Ascii.

Module LoginGuard.

(** ** Operating-system credentials *)

Definition OS_CREDENTIAL_LOGIN_TOTAL_IDLE_RESET_MS : Z := 120 * 60 * 1000.
Definition OS_CREDENTIAL_LOGIN_BACKOFF_BASE_SECONDS : Z := 15.
Definition OS_CREDENTIAL_LOGIN_BACKOFF_MAX_SECONDS : Z := 30 * 60.

Inductive FailureScope : Type := Default | TerminalOsLogin.

Record OsCredentialFailureState : Type := mkOs {
  total_failures : Z;
  backoff_until_ms : option Z;
  last_failure_ms : option Z;
}.

Definition os_default : OsCredentialFailureState := mkOs 0 None None.

Definition os_credential_login_backoff_seconds (n : Z) : Z :=
  if n <=? 2 then 0
  else
    let exp := Z.min (n - 3) 7 in
    Z.min (OS_CREDENTIAL_LOGIN_BACKOFF_BASE_SECONDS * Z.shiftl 1 exp)
          OS_CREDENTIAL_LOGIN_BACKOFF_MAX_SECONDS.

Definition normalize_backoff (s : OsCredentialFailureState) (now : Z) : OsCredentialFailureState :=
  match backoff_until_ms s with
  | Some u => if u <=? now then mkOs (total_failures s) None (last_failure_ms s) else s
  | None => s
  end.

(** [i64::saturating_sub] *)
Definition saturating_sub_i64 (a b : Z) : Z := clamp (a - b) i64_min i64_max.

Definition reset_totals_on_idle (s : OsCredentialFailureState) (now : Z) : OsCredentialFailureState :=
  match last_failure_ms s with
  | Some l => if OS_CREDENTIAL_LOGIN_TOTAL_IDLE_RESET_MS <=? saturating_sub_i64 now l
              then os_default else s
  | None => s
  end.

(** Allowed, or the number of seconds the message asks to wait. *)
Inductive OsDecision : Type := Allowed | Wait (seconds : Z).

Definition evaluate_os_credential_policy (s : OsCredentialFailureState) (now : Z)
    : OsDecision * OsCredentialFailureState :=
  let s := normalize_backoff (reset_totals_on_idle s now) now in
  match backoff_until_ms s with
  | Some u => (Wait (Z.max ((Z.max (u - now) 0 + 999) / 1000) 1), s)
  | None => (Allowed, s)
  end.

Definition record_os_credential_failure (s : OsCredentialFailureState) (now : Z)
    : OsCredentialFailureState :=
  let s := normalize_backoff (reset_totals_on_idle s now) now in
  let n := saturating_add i32_max (total_failures s) 1 in
  let b := os_credential_login_backoff_seconds n in
  mkOs n (if 0 <? b then Some (now + b * 1000) else backoff_until_ms s) (Some now).

(** ** Failure counters *)

Definition Entry : Type := Z * Z * Z.  (* minute, failures in it, failures *)
Definition no_entry : Entry := (0, 0, 0).
Definition Failures : Type := gmap string Entry.

Definition mask_u128 (addr prefix : Z) : Z :=
  let mask := if (prefix =? 0) || (128 <? prefix) then 0
              else as_u128 (Z.shiftl (2 ^ 128 - 1) (128 - prefix)) in
  Z.land addr mask.

Definition get_ipv6_prefixes (ip : string) : option (string * string * string) :=
  let ip_only := trim (default ip (head (split "%" ip))) in
  a ← parse_with read_ipv6_addr ip_only;
  let n := from_be_bytes (octets a) in
  let p k := ipv6_to_string (to_array 16 (to_be_bytes 16 (mask_u128 n k))) in
  Some (p 64 +s+ "/64", p 56 +s+ "/56", p 48 +s+ "/48").

(** [(get_time() / 60_000) as i32] *)
Definition minutes (now_ms : Z) : Z := as_i32 (Z.quot now_ms 60000).

(** The counters stay far below [i32::MAX]: a failure is counted only after a
    check that found them at most 100. *)
Definition bump_failure_entry (cur : Entry) (time : Z) : Entry :=
  let '(m, k, n) := cur in
  if m =? time then (m, k + 1, n + 1) else (time, 1, n + 1).

Definition entry (f : Failures) (key : string) : Entry := default no_entry (f !! key).

Definition bump (f : Failures) (time : Z) (key : string) : Failures :=
  <[key := bump_failure_entry (entry f key) time]> f.

(** [update_failure_with_scope] with the default scope; [seen] is the entry that
    [check_failure] returned. *)
Definition update_failure (f : Failures) (ip : string) (seen : Entry) (time : Z) (remove : bool)
    : Failures :=
  if remove then
    if seen.1.1 =? 0 then f
    else match get_ipv6_prefixes ip with
         | Some (p64, p56, p48) => delete ip (delete p48 (delete p56 (delete p64 f)))
         | None => delete ip f
         end
  else
    match get_ipv6_prefixes ip with
    | Some (p64, p56, p48) => bump (bump (bump (bump f time p64) time p56) time p48) time ip
    | None => bump f time ip
    end.

Inductive Alarm : Type := ExceedIPv6PrefixAttempts (prefix : Z) | ExceedThirtyAttempts
| SixAttemptsWithinOneMinute.

Definition check_failure_ipv6_prefix (f : Failures) (time : Z) (prefix : string) (num thresh : Z)
    : option ((Entry * Z) * option Alarm) :=
  let e := entry f prefix in
  if thresh <? e.2 then Some ((e, time), Some (ExceedIPv6PrefixAttempts num)) else None.

(** The entry and the time for [update_failure], and the alarm of a refusal. *)
Definition check_failure (f : Failures) (ip : string) (now_ms : Z) : (Entry * Z) * option Alarm :=
  let time := minutes now_ms in
  let direct :=
    let e := entry f ip in
    ((e, time),
     if 30 <? e.2 then Some ExceedThirtyAttempts
     else if (time =? e.1.1) && (6 <? e.1.2) then Some SixAttemptsWithinOneMinute
     else None) in
  match get_ipv6_prefixes ip with
  | Some (p64, p56, p48) =>
      match check_failure_ipv6_prefix f time p64 64 60 with
      | Some r => r
      | None =>
          match check_failure_ipv6_prefix f time p56 56 80 with
          | Some r => r
          | None => default direct (check_failure_ipv6_prefix f time p48 48 100)
          end
      end
  | None => direct
  end.

(** A login with a password (or a second factor): checked, compared, counted. *)
Inductive Verdict : Type := Refused (a : Alarm) | Wrong | Right.

Definition login_attempt (f : Failures) (ip : string) (now_ms : Z) (right_password : bool)
    : Verdict * Failures :=
  match check_failure f ip now_ms with
  | (_, Some a) => (Refused a, f)
  | ((e, t), None) =>
      (if right_password then Right else Wrong, update_failure f ip e t right_password)
  end.

(** ** The whitelist of controller ids *)

Definition ID_WHITELIST_FAILURE_DECAY_MINUTES : Z := 10.

(** [i32::saturating_sub] *)
Definition saturating_sub_i32 (a b : Z) : Z := clamp (a - b) i32_min i32_max.

Definition failure_keys (ip : string) : list string :=
  ip :: match get_ipv6_prefixes ip with Some (a, b, c) => [a; b; c] | None => [] end.

Definition decay_stale_failures (f : Failures) (keys : list string) (now window : Z) : Failures :=
  foldl (λ f key, match f !! key with
                  | Some e => if window <=? saturating_sub_i32 now e.1.1 then delete key f else f
                  | None => f
                  end) f keys.

Definition clear_failures (f : Failures) (keys : list string) : Failures :=
  foldl (λ f key, delete key f) f keys.

(** The loop of [wildcard_match] on the characters of both strings; [None] when
    the fuel is spent. *)
Definition star : Z := 42.
Definition question : Z := 63.

Fixpoint trailing_stars (p : list Z) (pi : nat) (fuel : nat) : nat :=
  match fuel with
  | O => pi
  | S fuel => if bool_decide (p !! pi = Some star) then trailing_stars p (S pi) fuel else pi
  end.

Fixpoint wildcard_loop (fuel : nat) (p t : list Z) (pi ti : nat) (st : option (nat * nat))
    : option bool :=
  match fuel with
  | O => None
  | S fuel =>
      match t !! ti with
      | None => Some (bool_decide (trailing_stars p pi (length p) = length p))
      | Some c =>
          if bool_decide (p !! pi = Some star)
          then wildcard_loop fuel p t (S pi) ti (Some (S pi, ti))
          else if bool_decide (p !! pi = Some question) || bool_decide (p !! pi = Some c)
          then wildcard_loop fuel p t (S pi) (S ti) st
          else match st with
               | Some (sp, s) => wildcard_loop fuel p t sp (S s) (Some (sp, S s))
               | None => Some false
               end
      end
  end.

Definition wildcard_fuel (p t : list Z) : nat := S (S (length t) * S (length p)).

Section Whitelist.
(** [s.to_lowercase().chars()]: the Unicode case mapping. *)
Context (lower_chars : string → list Z).

Definition wildcard_match (pattern text : string) : bool :=
  let p := lower_chars (trim pattern) in
  let t := lower_chars (trim text) in
  default false (wildcard_loop (wildcard_fuel p t) p t 0 0 None).

Definition id_whitelist_allows (wl : list string) (my_id : string) : bool :=
  if bool_decide (wl = []) then true
  else
    let bare_id := default my_id (head (split "@" my_id)) in
    existsb (λ x, wildcard_match x my_id || wildcard_match x bare_id) wl.

Definition parse_id_whitelist (option_value : string) : list string :=
  filter (λ x, is_empty x = false) (trim <$> split "," option_value).

Definition check_id_whitelist (option_value : string) (f : Failures) (ip my_id : string) (now_ms : Z)
    : bool * Failures :=
  let wl := parse_id_whitelist option_value in
  if bool_decide (wl = []) then (true, f)
  else
    let f := decay_stale_failures f (failure_keys ip) (minutes now_ms) ID_WHITELIST_FAILURE_DECAY_MINUTES in
    match check_failure f ip now_ms with
    | (_, Some _) => (false, f)
    | ((e, t), None) =>
        if id_whitelist_allows wl my_id then (true, f)
        else (false, update_failure f ip e t false)
    end.
End Whitelist.

End LoginGuard.
