(* ===== verification/LoginGuardProofs.v ===== *)
(** * Guarding the login of the controlled side: proofs *)
From S2P Require Import Prelude RustStd Net NetText LoginGuard.
From Stdlib Require Import Ascii.
Import LoginGuard.

Module LoginGuardProofs.

(** ** Pattern matching

    What a pattern means: [*] stands for any characters, [?] for one, and any
    other character for itself. *)
Inductive glob : list Z → list Z → Prop :=
| glob_nil : glob [] []
| glob_skip p t : glob p t → glob (star :: p) t
| glob_eat p c t : glob (star :: p) t → glob (star :: p) (c :: t)
| glob_any p c t : glob p t → glob (question :: p) (c :: t)
| glob_char p c t : c ≠ star → glob p t → glob (c :: p) (c :: t).

(** One pattern character that is not [*] against one text character. *)
Definition matches1 (a c : Z) : Prop := a ≠ star ∧ (a = question ∨ a = c).

Lemma glob_cons a p c t : a ≠ star → glob (a :: p) (c :: t) ↔ matches1 a c ∧ glob p t.
Proof.
  intros Ha. split.
  - inversion 1; subst; unfold matches1; naive_solver.
  - intros [[_ [->| ->]] H]; by constructor.
Qed.

Lemma glob_cons_nil a p : a ≠ star → ¬ glob (a :: p) [].
Proof. intros Ha. inversion 1; by subst. Qed.

Lemma glob_nil_cons c t : ¬ glob [] (c :: t).
Proof. inversion 1. Qed.

Lemma glob_star p t : glob (star :: p) t ↔ ∃ k, (k ≤ length t)%nat ∧ glob p (drop k t).
Proof.
  split.
  - intros H. remember (star :: p) as q eqn:E. revert p E.
    induction H as [|p' t H _|p' c t H IH|p' c t|p' c t]; intros q' [=]; subst; try done.
    + exists 0%nat. by split; [lia|].
    + destruct (IH _ eq_refl) as (k & ? & ?). exists (S k). split; [simpl; lia|done].
  - intros (k & Hk & H). revert t Hk H. induction k as [|k IH]; intros [|c t] Hk H; simpl in *;
      try lia; try (by apply glob_skip). apply glob_eat, IH; [lia|done].
Qed.

(** A star also matches what is left after more characters were taken. *)
Lemma glob_star_app p a t : glob (star :: p) t → glob (star :: p) (a ++ t).
Proof. induction a; simpl; [done|]. intros. apply glob_eat. auto. Qed.

Lemma glob_app seg p t : Forall (.≠ star) seg →
  glob (seg ++ p) t ↔ ∃ t1 t2, t = t1 ++ t2 ∧ Forall2 matches1 seg t1 ∧ glob p t2.
Proof.
  intros Hs. revert t. induction Hs as [|a seg Ha Hs IH]; intros t; simpl.
  - split; [intros; exists [], t; by split_and!|]. intros (t1 & t2 & -> & H & ?).
    by apply Forall2_nil_inv_l in H as ->.
  - split.
    + destruct t as [|c t]; [by intros ?%glob_cons_nil|].
      intros [Hm (t1 & t2 & -> & ? & ?)%IH]%glob_cons; [|done].
      exists (c :: t1), t2. split_and!; [done|by constructor|done].
    + intros (t1 & t2 & -> & H & ?). apply Forall2_cons_inv_l in H as (c & t1' & ? & ? & ->).
      simpl. apply glob_cons; [done|]. split; [done|]. apply IH. eauto.
Qed.

Lemma trailing_stars_spec p pi fuel : (pi ≤ length p)%nat → (length p - pi ≤ fuel)%nat →
  trailing_stars p pi fuel = length p ↔ glob (drop pi p) [].
Proof.
  revert pi. induction fuel as [|fuel IH]; intros pi Hpi Hf; simpl.
  - assert (pi = length p) as -> by lia. rewrite drop_all. split; [constructor|done].
  - case_bool_decide as E.
    + pose proof (lookup_lt_Some _ _ _ E). rewrite IH by lia.
      rewrite (drop_S p star pi) by done. split; [by constructor|].
      inversion 1; subst; done.
    + destruct (p !! pi) as [a|] eqn:Ha.
      * pose proof (lookup_lt_Some _ _ _ Ha). rewrite (drop_S p a pi) by done. split; [lia|].
        intros []%glob_cons_nil. congruence.
      * apply lookup_ge_None in Ha. assert (pi = length p) as -> by lia.
        rewrite drop_all. split; [constructor|done].
Qed.

(** The invariant of the loop: behind the last star, [seg] has been matched
    character by character. *)
Definition loop_inv (p t : list Z) (pi ti : nat) (st : option (nat * nat)) : Prop :=
  (pi ≤ length p)%nat ∧ (ti ≤ length t)%nat ∧
  match st with
  | None => glob p t ↔ glob (drop pi p) (drop ti t)
  | Some (sp, s) =>
      ∃ seg m, drop sp p = seg ++ drop pi p ∧ Forall (.≠ star) seg ∧
        drop s t = m ++ drop ti t ∧ Forall2 matches1 seg m ∧
        (s ≤ ti)%nat ∧ (sp ≤ length p)%nat ∧
        (glob p t ↔ glob (star :: drop sp p) (drop s t))
  end.

Lemma loop_inv_advance p t pi ti st a c :
  loop_inv p t pi ti st → p !! pi = Some a → t !! ti = Some c → matches1 a c →
  loop_inv p t (S pi) (S ti) st.
Proof.
  intros (Hp & Ht & H) Ha Hc Hm.
  pose proof (lookup_lt_Some _ _ _ Ha). pose proof (lookup_lt_Some _ _ _ Hc).
  split_and!; [lia|lia|]. destruct Hm as [Hs Hm]. destruct st as [[sp s]|].
  - destruct H as (seg & m & E1 & Hseg & E2 & HF & ? & ? & Hg).
    exists (seg ++ [a]), (m ++ [c]). rewrite (drop_S p a pi) in E1 by done.
    rewrite (drop_S t c ti) in E2 by done. rewrite <- !app_assoc. split_and!; try done.
    + apply Forall_app. by split; [|constructor].
    + apply Forall2_app; [done|]. by constructor; [|constructor].
    + lia.
  - rewrite H, (drop_S p a pi), (drop_S t c ti) by done. rewrite glob_cons by done.
    unfold matches1. naive_solver.
Qed.

Lemma seg_length {A} (t m : list A) s ti : (s ≤ ti)%nat → (ti ≤ length t)%nat → drop s t = m ++ drop ti t →
  length m = (ti - s)%nat.
Proof.
  intros ?? E. apply (f_equal length) in E. rewrite length_app, !length_drop in E. lia.
Qed.

Lemma loop_inv_star p t pi ti st :
  loop_inv p t pi ti st → p !! pi = Some star → (ti ≤ length t)%nat →
  loop_inv p t (S pi) ti (Some (S pi, ti)).
Proof.
  intros (Hp & _ & H) Ha Ht. pose proof (lookup_lt_Some _ _ _ Ha).
  split_and!; [lia|done|]. exists [], []. split_and!; try done || lia.
  rewrite <- (drop_S p star pi) by done. destruct st as [[sp s]|]; [|exact H].
  destruct H as (seg & m & E1 & Hseg & E2 & HF & ? & ? & Hg). rewrite Hg, E1.
  rewrite (drop_S p star pi) by done. rewrite glob_star. split.
  - intros (k & Hk & (t1 & t2 & E & HF' & Hg')%glob_app); [|done].
    apply (f_equal (drop (length t1))) in E. rewrite drop_app_length, drop_drop, drop_drop in E.
    pose proof (Forall2_length _ _ _ HF). pose proof (Forall2_length _ _ _ HF').
    pose proof (seg_length t m s ti ltac:(lia) Ht E2). rewrite <- E in Hg'.
    replace (drop ti t) with (take k (drop ti t) ++ drop k (drop ti t)) by apply take_drop.
    apply glob_star_app. rewrite drop_drop.
    by replace (ti + k)%nat with (s + (k + length t1))%nat by lia.
  - intros Hg'. exists 0%nat. split; [lia|]. apply glob_app; [done|]. rewrite drop_0. eauto.
Qed.

Lemma loop_inv_backtrack p t pi ti sp s :
  loop_inv p t pi ti (Some (sp, s)) → (ti < length t)%nat →
  ¬ glob (drop pi p) (drop ti t) → loop_inv p t sp (S s) (Some (sp, S s)).
Proof.
  intros (Hp & _ & (seg & m & E1 & Hseg & E2 & HF & ? & ? & Hg)) Ht Hno.
  split_and!; [done|lia|]. exists [], []. split_and!; try done || lia.
  rewrite Hg. assert (∃ c, drop s t = c :: drop (S s) t) as [c Ec].
  { destruct (lookup_lt_is_Some_2 t s) as [c Hc]; [lia|]. exists c. by apply drop_S. }
  split; [|intros; rewrite Ec; by apply glob_eat].
  rewrite !glob_star. intros ([|k] & Hk & Hk').
  - exfalso. apply Hno. rewrite drop_0, E1, E2 in Hk'.
    apply glob_app in Hk' as (t1 & t2 & E & HF' & ?); [|done].
    apply Forall2_length in HF, HF'. apply app_inj_1 in E as [_ ->]; [done|congruence].
  - exists k. rewrite Ec in Hk, Hk'. simpl in Hk, Hk'. split; [lia|done].
Qed.

(** At the end of the text only stars may be left. *)
Lemma loop_inv_end p t pi st : loop_inv p t pi (length t) st → glob p t ↔ glob (drop pi p) [].
Proof.
  intros (Hp & _ & H). destruct st as [[sp s]|]; [|by rewrite H, drop_all].
  destruct H as (seg & m & E1 & Hseg & E2 & HF & ? & ? & Hg).
  rewrite Hg, glob_star. split.
  - intros (k & Hk & Hk'). rewrite E1 in Hk'. apply glob_app in Hk' as (t1 & t2 & E & HF' & Hk'); [|done].
    apply Forall2_length in HF, HF'. rewrite drop_all, app_nil_r in E2.
    assert (t2 = []) as ->; [|done]. apply (f_equal length) in E. subst m.
    rewrite length_app, length_drop in E. destruct t2; [done|]. simpl in E. lia.
  - intros Hn. exists 0%nat. split; [lia|]. rewrite drop_0, E1. apply glob_app; [done|].
    exists m, []. rewrite E2, drop_all. done.
Qed.

(** Backtracking moves the star's text position on, every other step the pattern
    position. *)
Definition loop_measure (p t : list Z) (pi : nat) (st : option (nat * nat)) : nat :=
  (length t - match st with Some (_, s) => s | None => 0 end) * S (length p) + (length p - pi).

Lemma loop_correct fuel p t : ∀ pi ti st,
  loop_inv p t pi ti st → (loop_measure p t pi st < fuel)%nat →
  ∃ b, wildcard_loop fuel p t pi ti st = Some b ∧ (b = true ↔ glob p t).
Proof.
  induction fuel as [|fuel IH]; intros pi ti st Hinv Hf; [lia|]. simpl.
  pose proof Hinv as (Hp & Ht & Hst). unfold loop_measure in Hf.
  destruct (t !! ti) as [c|] eqn:Hc.
  2: { apply lookup_ge_None in Hc. assert (ti = length t) as -> by lia. eexists. split; [done|].
       rewrite bool_decide_eq_true, trailing_stars_spec by lia. symmetry. by eapply loop_inv_end. }
  pose proof (lookup_lt_Some _ _ _ Hc). case_bool_decide as Hs.
  { pose proof (lookup_lt_Some _ _ _ Hs). apply IH; [by eapply loop_inv_star|].
    unfold loop_measure. destruct st as [[sp s]|]; [destruct Hst as (? & ? & ? & ? & ? & ? & ? & _)|]; nia. }
  destruct (_ || _) eqn:Hm.
  { assert (∃ a, p !! pi = Some a ∧ matches1 a c) as (a & Ha & Hac).
    { apply orb_true_iff in Hm. rewrite !bool_decide_eq_true in Hm.
      destruct Hm as [Hm|Hm]; rewrite Hm in Hs |- *; eexists; (split; [done|]);
        split; naive_solver. }
    pose proof (lookup_lt_Some _ _ _ Ha). apply IH; [by eapply loop_inv_advance|].
    unfold loop_measure. lia. }
  assert (¬ glob (drop pi p) (drop ti t)) as Hno.
  { rewrite (drop_S t c ti) by done. destruct (p !! pi) as [a|] eqn:Ha.
    - rewrite (drop_S p a pi) by done. intros [[_ H']  _]%glob_cons; [|congruence].
      apply orb_false_iff in Hm. rewrite !bool_decide_eq_false in Hm. naive_solver.
    - apply lookup_ge_None in Ha. rewrite drop_ge by done. apply glob_nil_cons. }
  destruct st as [[sp s]|].
  - apply IH; [by eapply loop_inv_backtrack|]. unfold loop_measure.
    destruct Hst as (? & ? & ? & ? & ? & ? & ? & ? & _). nia.
  - eexists. split; [done|]. rewrite Hst. split; [done|]. intros. by destruct Hno.
Qed.

Lemma loop_total p t :
  ∃ b, wildcard_loop (wildcard_fuel p t) p t 0 0 None = Some b ∧ (b = true ↔ glob p t).
Proof.
  apply loop_correct.
  - split_and!; [lia..|]. by rewrite !drop_0.
  - unfold loop_measure, wildcard_fuel. nia.
Qed.

(** (C36) An id passes the whitelist exactly when the list is empty or one of its
    patterns matches the id, or its part before [@], with [*] standing for any
    characters and [?] for one, after trimming and case folding: the single-pass
    matching loop terminates and agrees with the definition of the patterns. *)
Theorem id_whitelist_spec lower_chars wl my_id :
  id_whitelist_allows lower_chars wl my_id = true ↔
  wl = [] ∨ ∃ x i, x ∈ wl ∧ (i = my_id ∨ head (split "@" my_id) = Some i) ∧
    glob (lower_chars (trim x)) (lower_chars (trim i)).
Proof.
  assert (∀ x i, wildcard_match lower_chars x i = true ↔
            glob (lower_chars (trim x)) (lower_chars (trim i))) as Hw.
  { intros x i. unfold wildcard_match. by destruct (loop_total (lower_chars (trim x))
      (lower_chars (trim i))) as (b & -> & ?). }
  unfold id_whitelist_allows. case_bool_decide; [naive_solver|].
  rewrite existsb_exists. setoid_rewrite orb_true_iff. setoid_rewrite Hw.
  setoid_rewrite <- list_elem_of_In.
  destruct (head (split "@" my_id)) as [b|] eqn:Eb; simpl; [naive_solver|].
  exfalso. clear -Eb. induction my_id as [|c s IH]; simpl in *; [done|]. repeat case_match; naive_solver.
Qed.

Definition ascii_lower (s : string) : list Z :=
  (λ b, let n := b2z b in if (65 <=? n) && (n <=? 90) then n + 32 else n) <$> as_bytes s.

Example whitelist_examples :
  let ok := id_whitelist_allows ascii_lower ["123 4*"; "*-Office?"] in
  ok "123 456" = true ∧ ok "9-home-OFFICE7@server" = true ∧ ok "office1" = false ∧ ok "123" = false.
Proof. vm_compute. done. Qed.

(** ** Operating-system credentials *)

Definition backoff (n : Z) : Z := os_credential_login_backoff_seconds n * 1000.

(** An attempt with wrong credentials: the policy is asked at [t.1]; when it
    allows the guess, its failure is recorded at [t.2]. *)
Definition os_attempt (s : OsCredentialFailureState) (t : Z * Z) : bool * OsCredentialFailureState :=
  match evaluate_os_credential_policy s t.1 with
  | (Allowed, s) => (true, record_os_credential_failure s t.2)
  | (Wait _, s) => (false, s)
  end.

Fixpoint os_attempts (s : OsCredentialFailureState) (ts : list (Z * Z)) : Z * OsCredentialFailureState :=
  match ts with
  | [] => (0, s)
  | t :: ts =>
      let (guessed, s) := os_attempt s t in
      let (n, s) := os_attempts s ts in ((if guessed then 1 else 0) + n, s)
  end.

(** The attempts follow each other, the first not before [now]. *)
Fixpoint in_order (now : Z) (ts : list (Z * Z)) : Prop :=
  match ts with [] => True | t :: ts => now ≤ t.1 ≤ t.2 ∧ in_order t.2 ts end.

Definition os_wf (now : Z) (s : OsCredentialFailureState) : Prop :=
  match last_failure_ms s with
  | None => total_failures s = 0 ∧ backoff_until_ms s = None
  | Some l =>
      l ≤ now ∧ 0 ≤ total_failures s ∧
      match backoff_until_ms s with
      | Some u => u = l + backoff (total_failures s) ∧ 2 < total_failures s
      | None => l + backoff (total_failures s) ≤ now
      end
  end.

Lemma backoff_mono a b : a ≤ b →
  os_credential_login_backoff_seconds a ≤ os_credential_login_backoff_seconds b.
Proof.
  intros H. unfold os_credential_login_backoff_seconds.
  destruct (Z.leb_spec a 2), (Z.leb_spec b 2); try lia.
  - rewrite Z.shiftl_1_l. pose proof (Z.pow_nonneg 2 (Z.min (b - 3) 7)).
    unfold OS_CREDENTIAL_LOGIN_BACKOFF_BASE_SECONDS, OS_CREDENTIAL_LOGIN_BACKOFF_MAX_SECONDS. lia.
  - rewrite !Z.shiftl_1_l. pose proof (Z.pow_le_mono_r 2 (Z.min (a - 3) 7) (Z.min (b - 3) 7)).
    unfold OS_CREDENTIAL_LOGIN_BACKOFF_BASE_SECONDS, OS_CREDENTIAL_LOGIN_BACKOFF_MAX_SECONDS. lia.
Qed.

Lemma backoff_low n : n ≤ 2 → os_credential_login_backoff_seconds n = 0.
Proof. intros. unfold os_credential_login_backoff_seconds. by rewrite (proj2 (Z.leb_le _ _)). Qed.

Lemma backoff_high n : 2 < n → 15 ≤ os_credential_login_backoff_seconds n.
Proof. intros. pose proof (backoff_mono 3 n). change (os_credential_login_backoff_seconds 3) with 15 in *. lia. Qed.

Lemma backoff_nonneg n : 0 ≤ os_credential_login_backoff_seconds n.
Proof. destruct (Z.le_gt_cases n 2); [by rewrite backoff_low|pose proof (backoff_high n); lia]. Qed.

(** What an attempt starts from: the state after the idle reset and the expiry. *)
Definition refreshed (s : OsCredentialFailureState) (now : Z) : OsCredentialFailureState :=
  normalize_backoff (reset_totals_on_idle s now) now.

Lemma idle_reset_spec now l :
  (OS_CREDENTIAL_LOGIN_TOTAL_IDLE_RESET_MS <=? saturating_sub_i64 now l) = (7200000 <=? now - l).
Proof.
  unfold saturating_sub_i64, clamp. change OS_CREDENTIAL_LOGIN_TOTAL_IDLE_RESET_MS with 7200000.
  unfold i64_min, i64_max. bool_cases; done || lia.
Qed.

Lemma refreshed_spec s now now' : os_wf now s → now ≤ now' →
  os_wf now' (refreshed s now') ∧
  (refreshed s now' = os_default ∨
   total_failures (refreshed s now') = total_failures s ∧
   last_failure_ms (refreshed s now') = last_failure_ms s) ∧
  (∀ l, last_failure_ms s = Some l → now' - l < 7200000 →
   total_failures (refreshed s now') = total_failures s ∧ last_failure_ms (refreshed s now') = Some l).
Proof.
  unfold refreshed, reset_totals_on_idle, os_wf, backoff. intros Hwf Hn.
  destruct s as [n b [l|]]; cbn [last_failure_ms total_failures backoff_until_ms] in *.
  2: { destruct Hwf as [-> ->]. simpl. naive_solver. }
  rewrite idle_reset_spec. destruct (Z.leb_spec 7200000 (now' - l)).
  { simpl. split_and!; [done|done|by left|]. intros ? [= <-]. lia. }
  destruct Hwf as (? & ? & Hb). unfold normalize_backoff. cbn [backoff_until_ms].
  destruct b as [u|]; [destruct (Z.leb_spec u now')|];
    cbn [last_failure_ms total_failures backoff_until_ms]; split_and!; try lia || naive_solver.
Qed.

Lemma record_wf s now : os_wf now s →
  let s' := record_os_credential_failure s now in
  os_wf now s' ∧ last_failure_ms s' = Some now ∧
  total_failures s' = Z.min (total_failures (refreshed s now) + 1) i32_max.
Proof.
  intros Hwf. destruct (refreshed_spec s now now Hwf ltac:(lia)) as (Hr & _ & _).
  unfold record_os_credential_failure, saturating_add. fold (refreshed s now).
  destruct (refreshed s now) as [n b l]. cbn [total_failures backoff_until_ms].
  set (n' := Z.min (n + 1) i32_max). cbn zeta. split_and!; [|done|done].
  assert (0 ≤ n ∧ (b ≠ None → 2 < n)) as [Hn Hb].
  { unfold os_wf in Hr. simpl in Hr. destruct l, b; naive_solver lia. }
  unfold os_wf, backoff. cbn [last_failure_ms total_failures backoff_until_ms].
  assert (i32_max = 2147483647) as Hmx by done.
  split_and!; [lia|lia|]. destruct (Z.ltb_spec 0 (os_credential_login_backoff_seconds n')).
  - split; [done|]. destruct (Z.le_gt_cases n' 2); [|done]. pose proof (backoff_low n'). lia.
  - assert (n' ≤ 2) by (destruct (Z.le_gt_cases n' 2); [done|pose proof (backoff_high n'); lia]).
    destruct b; [specialize (Hb ltac:(done)); lia|]. pose proof (backoff_low n'). lia.
Qed.

(** The least time between the first and the [k]-th guess. *)
Fixpoint need (k : nat) : Z :=
  match k with O => 0 | S k => need k + backoff (Z.of_nat k) end.

Lemma need_nonneg k : 0 ≤ need k.
Proof. induction k; simpl; [lia|]. unfold backoff. pose proof (backoff_nonneg (Z.of_nat k)). lia. Qed.

Lemma need_mono j k : (j ≤ k)%nat → need j ≤ need k.
Proof.
  induction 1; [lia|]. simpl. unfold backoff. pose proof (backoff_nonneg (Z.of_nat m)). lia.
Qed.

Lemma need_13 k : need k < 7200000 → (k ≤ 12)%nat.
Proof.
  intros H. destruct (Nat.le_gt_cases k 12); [done|]. pose proof (need_mono 13 k ltac:(lia)).
  change (need 13) with 7305000 in *. lia.
Qed.

(** After [k] guesses in a window that starts at [t0]. *)
Definition window_inv (t0 : Z) (k : nat) (now : Z) (s : OsCredentialFailureState) : Prop :=
  os_wf now s ∧ t0 ≤ now ∧ Z.of_nat k ≤ total_failures s ∧
  (k ≠ O → ∃ l, last_failure_ms s = Some l ∧ t0 + need k ≤ l).

Lemma window_refresh t0 k now now' s : window_inv t0 k now s → now ≤ now' < t0 + 7200000 →
  window_inv t0 k now' (refreshed s now').
Proof.
  intros (Hwf & ? & Hk & Hl) Hn. destruct (refreshed_spec s now now' Hwf ltac:(lia)) as (Hwf' & _ & Hkeep).
  split_and!; [done|lia| |]; destruct k as [|k]; try done.
  - unfold os_wf in Hwf'. destruct (last_failure_ms (refreshed s now')); simpl; naive_solver lia.
  - destruct Hl as (l & Hl & ?); [done|]. pose proof (need_nonneg (S k)).
    destruct (Hkeep l Hl) as [-> _]; lia.
  - intros _. destruct Hl as (l & Hl & ?); [done|]. pose proof (need_nonneg (S k)).
    destruct (Hkeep l Hl) as [_ ->]; [lia|eauto].
Qed.

(** An allowed guess comes late enough. *)
Lemma window_guess t0 k now s : window_inv t0 k now s → backoff_until_ms s = None →
  t0 + need (S k) ≤ now.
Proof.
  intros (Hwf & ? & Hk & Hl) Hb. destruct k as [|k]; [done || (change (need 1) with 0; lia)|].
  destruct Hl as (l & Hl & ?); [done|]. unfold os_wf in Hwf. rewrite Hl, Hb in Hwf.
  cbn [need]. cbn [need] in *. unfold backoff in *. pose proof (backoff_mono _ _ Hk). lia.
Qed.

Lemma os_wf_later now now' s : now ≤ now' → os_wf now s → os_wf now' s.
Proof.
  unfold os_wf. destruct (last_failure_ms s); [|done]. destruct (backoff_until_ms s); naive_solver lia.
Qed.

Lemma evaluate_refreshed s now :
  evaluate_os_credential_policy s now =
  (match backoff_until_ms (refreshed s now) with
   | Some u => Wait (Z.max ((Z.max (u - now) 0 + 999) / 1000) 1)
   | None => Allowed
   end, refreshed s now).
Proof. unfold evaluate_os_credential_policy. fold (refreshed s now). by case_match. Qed.

Lemma window_bound t0 ts : ∀ k now s,
  (k ≤ 12)%nat → window_inv t0 k now s ∨ t0 + 7200000 ≤ now →
  in_order now ts → Forall (λ t, t.1 < t0 + 7200000) ts →
  Z.of_nat k + (os_attempts s ts).1 ≤ 12.
Proof.
  induction ts as [|[t r] ts IH]; intros k now s Hk Hinv Hord Hw; simpl; [lia|].
  destruct Hord as [Ht Ho].
  apply Forall_cons in Hw as [Htw Hw]. cbn [fst snd] in *.
  destruct Hinv as [Hinv|]; [|lia].
  pose proof (window_refresh _ _ _ t _ Hinv ltac:(lia)) as Hr.
  unfold os_attempt. rewrite evaluate_refreshed. cbn [fst snd].
  destruct (backoff_until_ms (refreshed s t)) eqn:Hb.
  - destruct (os_attempts (refreshed s t) ts) as [n s'] eqn:E. cbn [fst].
    pose proof (IH k t (refreshed s t) Hk (or_introl Hr)) as H. rewrite E in H. cbn in H.
    enough (Z.of_nat k + n ≤ 12) by lia. apply H; [|done].
    destruct ts; [done|]. simpl in *. naive_solver lia.
  - pose proof (window_guess _ _ _ _ Hr Hb) as Hneed.
    assert (S k ≤ 12)%nat as Hk' by (apply need_13; lia).
    set (s1 := record_os_credential_failure (refreshed s t) r).
    assert (window_inv t0 (S k) r s1 ∨ t0 + 7200000 ≤ r) as Hinv'.
    { destruct Hr as (Hwf & ? & Hkt & Hl).
      destruct (record_wf (refreshed s t) r) as (Hwf1 & Hl1 & Hn1);
        [by eapply os_wf_later; [|exact Hwf]; lia|]. fold s1 in Hwf1, Hl1, Hn1.
      destruct (Z.le_gt_cases (t0 + 7200000) r); [by right|left].
      destruct (refreshed_spec (refreshed s t) t r Hwf ltac:(lia)) as (Hwf2 & _ & Hkeep).
      assert (Z.of_nat k ≤ total_failures (refreshed (refreshed s t) r)).
      { destruct k as [|k'].
        - unfold os_wf in Hwf2. destruct (last_failure_ms (refreshed (refreshed s t) r)); simpl; naive_solver lia.
        - destruct Hl as (l & Hl & ?); [done|]. pose proof (need_nonneg (S k')).
          destruct (Hkeep l Hl) as [-> _]; lia. }
      split_and!; [done|lia| |].
      - rewrite Hn1. assert (i32_max = 2147483647) by done. lia.
      - intros _. exists r. split; [done|]. lia. }
    pose proof (IH (S k) r s1 Hk' Hinv' Ho Hw) as H.
    destruct (os_attempts s1 ts) as [n s'] eqn:E. cbn [fst] in *. lia.
Qed.

Lemma os_attempt_wf now s t : os_wf now s → now ≤ t.1 ≤ t.2 → os_wf t.2 (os_attempt s t).2.
Proof.
  intros Hwf Ht. unfold os_attempt. rewrite evaluate_refreshed.
  destruct (refreshed_spec s now t.1 Hwf ltac:(lia)) as (Hwf' & _).
  apply (os_wf_later _ t.2) in Hwf'; [|lia]. destruct (backoff_until_ms _); simpl; [done|]. by apply record_wf.
Qed.

Fixpoint last_time (now : Z) (ts : list (Z * Z)) : Z :=
  match ts with [] => now | t :: ts => last_time t.2 ts end.

Lemma os_attempts_wf ts : ∀ now s, os_wf now s → in_order now ts →
  os_wf (last_time now ts) (os_attempts s ts).2.
Proof.
  induction ts as [|t ts IH]; intros now s Hwf Ho; simpl; [done|]. destruct Ho as [Ht Ho].
  pose proof (os_attempt_wf now s t Hwf Ht) as H. destruct (os_attempt s t) as [g s1].
  specialize (IH t.2 s1 H Ho). by destruct (os_attempts s1 ts).
Qed.

Lemma in_order_app now a b : in_order now (a ++ b) → in_order now a ∧ in_order (last_time now a) b.
Proof. revert now. induction a; simpl; naive_solver. Qed.

Lemma in_order_first now ts t0 : in_order now ts → Forall (λ t, t0 ≤ t.1) ts → in_order (Z.max now t0) ts.
Proof. destruct ts as [|t ts]; simpl; [done|]. intros [? ?] [? _]%Forall_cons. split; [lia|done]. Qed.

(** Whatever was tried before, within any two hours at most twelve guesses of
    operating-system credentials get past the policy. *)
Theorem os_guess_rate_bounded start before window t0 :
  in_order start (before ++ window) →
  Forall (λ t, t0 ≤ t.1 < t0 + 7200000) window →
  (os_attempts (os_attempts os_default before).2 window).1 ≤ 12.
Proof.
  intros [Ho Ho']%in_order_app Hw.
  pose proof (os_attempts_wf before start os_default ltac:(done) Ho) as Hwf.
  set (s := (os_attempts os_default before).2) in *. set (now := last_time start before) in *.
  apply (os_wf_later now (Z.max now t0)) in Hwf; [|lia].
  enough (Z.of_nat 0 + (os_attempts s window).1 ≤ 12) by lia.
  apply (window_bound t0 window 0 (Z.max now t0) s); [lia|left| |].
  - split_and!; [done|lia| |done]. unfold os_wf in Hwf.
    destruct (last_failure_ms s); simpl; naive_solver lia.
  - apply in_order_first; [done|]. eapply Forall_impl; [exact Hw|]. simpl. lia.
  - eapply Forall_impl; [exact Hw|]. simpl. lia.
Qed.

(** Twelve guesses do get through when they come at the earliest times. *)
Definition earliest : list (Z * Z) :=
  (λ t, (t * 1000, t * 1000)) <$> [0; 0; 0; 0; 15; 45; 105; 225; 465; 945; 1905; 3705; 5505; 7199].

Lemma os_guess_rate_bounded_witness :
  (os_attempts (os_attempts os_default []).2 earliest).1 ≤ 12 ∧
  (os_attempts os_default earliest).1 = 12.
Proof.
  split; [|vm_compute; reflexivity].
  apply (os_guess_rate_bounded 0 [] earliest 0); [vm_compute; repeat split; congruence|].
  repeat (apply Forall_cons; split; [vm_compute; split; congruence|]). apply Forall_nil; exact I.
Defined.

(** ** Failure counters *)

(** How many of a sequence of attempts with a wrong password get past the check,
    of those that [sel] picks by address and minute. *)
Fixpoint guesses (sel : string → Z → bool) (f : Failures) (atts : list (string * Z)) : Z :=
  match atts with
  | [] => 0
  | (ip, now) :: atts =>
      match login_attempt f ip now false with
      | (Refused _, f) => guesses sel f atts
      | (_, f) => (if sel ip (minutes now) then 1 else 0) + guesses sel f atts
      end
  end.

Lemma entry_bump f t k k' :
  entry (bump f t k) k' = if decide (k = k') then bump_failure_entry (entry f k') t else entry f k'.
Proof.
  unfold bump, entry, Failures in *. case_decide as E; by simplify_map_eq.
Qed.

(** The counter of a key after failures in minute [t] that concern it. *)
Definition bumped (t : Z) (e e' : Entry) : Prop :=
  e'.1.1 = t ∧ e.2 + 1 ≤ e'.2 ∧ (if e.1.1 =? t then e.1.2 + 1 else 1) ≤ e'.1.2.
Definition grows (t : Z) (e e' : Entry) : Prop := e' = e ∨ bumped t e e'.

Lemma bumped_again t e e' : grows t e e' → bumped t e (bump_failure_entry e' t).
Proof.
  destruct e as [[m0 c0] n0], e' as [[m c] n]. unfold grows, bumped, bump_failure_entry. simpl.
  intros [[= -> -> ->]|(-> & ? & ?)].
  - destruct (Z.eqb_spec m0 t); simpl; lia.
  - rewrite Z.eqb_refl. simpl. lia.
Qed.

Definition bump_all (f : Failures) (t : Z) (ks : list string) : Failures := foldl (λ f k, bump f t k) f ks.

Lemma bump_all_bumped t ks k e : ∀ f, bumped t e (entry f k) → bumped t e (entry (bump_all f t ks) k).
Proof.
  induction ks as [|x ks IH]; intros f H; simpl; [done|]. apply IH. rewrite entry_bump.
  case_decide; [|done]. apply bumped_again. by right.
Qed.

Lemma bump_all_spec t ks k f :
  if decide (k ∈ ks) then bumped t (entry f k) (entry (bump_all f t ks) k)
  else entry (bump_all f t ks) k = entry f k.
Proof.
  revert f. induction ks as [|x ks IH]; intros f; [by rewrite decide_False by set_solver|].
  change (bump_all f t (x :: ks)) with (bump_all (bump f t x) t ks).
  destruct (decide (x = k)) as [->|Hne].
  - rewrite decide_True by set_solver. apply bump_all_bumped. rewrite entry_bump, decide_True by done.
    apply bumped_again. by left.
  - specialize (IH (bump f t x)). rewrite entry_bump, (decide_False (P := x = k)) in IH by done.
    destruct (decide (k ∈ ks)); [rewrite decide_True by set_solver|rewrite decide_False by set_solver]; done.
Qed.

Lemma update_failure_keys f ip e t :
  ∃ ks, update_failure f ip e t false = bump_all f t ks ∧ ∀ k, k ∈ ks ↔ k ∈ failure_keys ip.
Proof.
  unfold update_failure, failure_keys. destruct (get_ipv6_prefixes ip) as [[[a b] c]|].
  - exists [a; b; c; ip]. split; [done|]. set_solver.
  - exists [ip]. split; [done|]. set_solver.
Qed.

(** What a check that lets an attempt through has seen. *)
Lemma check_failure_allows f ip now e t : check_failure f ip now = ((e, t), None) →
  e = entry f ip ∧ t = minutes now ∧ (entry f ip).2 ≤ 30 ∧
  ((entry f ip).1.1 = minutes now → (entry f ip).1.2 ≤ 6) ∧
  (∀ a b c, get_ipv6_prefixes ip = Some (a, b, c) →
     (entry f a).2 ≤ 60 ∧ (entry f b).2 ≤ 80 ∧ (entry f c).2 ≤ 100).
Proof.
  assert (∀ x, (x, if 30 <? (entry f ip).2 then Some ExceedThirtyAttempts
     else if (minutes now =? (entry f ip).1.1) && (6 <? (entry f ip).1.2)
          then Some SixAttemptsWithinOneMinute else None) = ((e, t), None) →
     x = (e, t) ∧ (entry f ip).2 ≤ 30 ∧ ((entry f ip).1.1 = minutes now → (entry f ip).1.2 ≤ 6)) as Hd.
  { intros x. bool_cases; simpl; intros [=]; split_and!; done || lia. }
  unfold check_failure, check_failure_ipv6_prefix.
  destruct (get_ipv6_prefixes ip) as [[[a b] c]|].
  - destruct (Z.ltb_spec 60 (entry f a).2); [done|]. destruct (Z.ltb_spec 80 (entry f b).2); [done|].
    destruct (Z.ltb_spec 100 (entry f c).2); [done|]. simpl.
    intros ([= <- <-] & ? & ?)%Hd. split_and!; try done. by intros ? ? ? [= <- <- <-].
  - intros ([= <- <-] & ? & ?)%Hd. done.
Qed.

Lemma wrong_attempt f ip now : 
  (∃ a, login_attempt f ip now false = (Refused a, f)) ∨
  (∃ f', login_attempt f ip now false = (Wrong, f') ∧
     (∀ k, if decide (k ∈ failure_keys ip) then bumped (minutes now) (entry f k) (entry f' k)
           else entry f' k = entry f k) ∧
     (entry f ip).2 ≤ 30 ∧ ((entry f ip).1.1 = minutes now → (entry f ip).1.2 ≤ 6) ∧
     (∀ a b c, get_ipv6_prefixes ip = Some (a, b, c) →
        (entry f a).2 ≤ 60 ∧ (entry f b).2 ≤ 80 ∧ (entry f c).2 ≤ 100)).
Proof.
  unfold login_attempt. destruct (check_failure f ip now) as [[e t] [al|]] eqn:Hc; [left; eauto|right].
  apply check_failure_allows in Hc as (-> & -> & ? & ? & ?).
  destruct (update_failure_keys f ip (entry f ip) (minutes now)) as (ks & -> & Hks).
  eexists. split_and!; [done| |done..]. intros k. pose proof (bump_all_spec (minutes now) ks k f) as Hb.
  destruct (decide (k ∈ ks)) as [Hk|Hk]; rewrite Hks in Hk;
    [by rewrite decide_True by done|by rewrite decide_False by done].
Qed.

(** A key that every selected attempt concerns, and that stops it above [N]. *)
Lemma guesses_key sel k N atts :
  0 ≤ N →
  (∀ f ip now, sel ip (minutes now) = true → k ∈ failure_keys ip ∧
     ((login_attempt f ip now false).1 = Wrong → (entry f k).2 ≤ N)) →
  ∀ f, guesses sel f atts ≤ Z.max 0 (N + 1 - (entry f k).2).
Proof.
  intros HN Hsel. induction atts as [|[ip now] atts IH]; intros f; simpl; [lia|].
  destruct (wrong_attempt f ip now) as [[a E]|(f' & E & Hk & _)]; rewrite E; [apply IH|].
  specialize (IH f'). specialize (Hk k). unfold bumped in Hk.
  destruct (sel ip (minutes now)) eqn:Hs.
  - destruct (Hsel f ip now Hs) as [Hin Hle]. rewrite decide_True in Hk by done.
    rewrite E in Hle. specialize (Hle eq_refl). lia.
  - case_decide; [lia|]. rewrite Hk in IH. lia.
Qed.

Definition from_address (a : string) : string → Z → bool := λ ip _, ip ==s a.
Definition from_prefix (pick : string * string * string → string) (p : string) : string → Z → bool :=
  λ ip _, bool_decide (pick <$> get_ipv6_prefixes ip = Some p).
Definition in_minute (a : string) (m : Z) : string → Z → bool := λ ip t, (ip ==s a) && (t =? m).

Fixpoint clock_forward (now : Z) (atts : list (string * Z)) : Prop :=
  match atts with [] => True | (_, t) :: atts => now ≤ minutes t ∧ clock_forward (minutes t) atts end.

Lemma guesses_past a m atts : ∀ now f, m < now → clock_forward now atts → guesses (in_minute a m) f atts = 0.
Proof.
  induction atts as [|[ip t] atts IH]; intros now f Hm Hc; simpl; [done|]. destruct Hc as [Ht Hc].
  assert (in_minute a m ip (minutes t) = false) as ->.
  { unfold in_minute. destruct (Z.eqb_spec (minutes t) m); [lia|]. apply andb_false_r. }
  destruct (login_attempt f ip t false) as [[] f']; rewrite (IH (minutes t) f'); done || lia.
Qed.

Lemma guesses_minute a m atts : ∀ now f,
  clock_forward now atts → (entry f a).1.1 ≤ now →
  guesses (in_minute a m) f atts ≤ if (entry f a).1.1 =? m then Z.max 0 (7 - (entry f a).1.2) else 7.
Proof.
  induction atts as [|[ip t] atts IH]; intros now f Hc He; simpl; [bool_cases; lia|].
  destruct Hc as [Ht Hc].
  destruct (wrong_attempt f ip t) as [[al E]|(f' & E & Hk & _ & Hmin & _)]; rewrite E.
  { apply (IH (minutes t)); [done|lia]. }
  specialize (Hk a). destruct (Z.ltb_spec m (minutes t)) as [Hlt|Hge].
  { rewrite (guesses_past a m atts (minutes t)) by done. unfold in_minute.
    destruct (Z.eqb_spec (minutes t) m); [lia|]. rewrite andb_false_r. bool_cases; lia. }
  assert ((entry f' a).1.1 ≤ minutes t) as He'.
  { case_decide; [destruct Hk as [-> _]; lia|rewrite Hk; lia]. }
  specialize (IH (minutes t) f' Hc He').
  change (in_minute a m ip (minutes t)) with ((ip ==s a) && (minutes t =? m)).
  destruct (decide (a ∈ failure_keys ip)) as [Hin|Hin].
  - destruct Hk as (Hm' & _ & Hc'). rewrite Hm' in IH.
    destruct (ip ==s a) eqn:Eip; [apply eqb_str_true in Eip as ->|]; simpl;
      destruct (Z.eqb_spec (minutes t) m) as [<-|]; try (bool_cases; lia);
      rewrite ?Z.eqb_refl in IH; destruct (Z.eqb_spec (entry f a).1.1 (minutes t)); lia.
  - rewrite Hk in IH. destruct (ip ==s a) eqn:Eip; [|simpl; lia].
    apply eqb_str_true in Eip as ->. destruct Hin. left.
Qed.



End LoginGuardProofs.
