(* ===== verification/AudioQueue.v ===== *)
(** * The queue of captured audio

    [client/src/server/audio_service/audio_capture_queue.rs]: the hand-off of PCM
    packets from the capture callback to the encoder thread through a fixed pool
    of buffers.  The methods that lock run under the lock and are one step each;
    what [try_lock] found is an argument of [submit].  Samples are opaque. *)
From S2P Require Import Prelude.

Module AudioQueue.

Section Queue.
Context {Sample : Type}.

Record CapturePcmLoss : Type := mkLoss {
  dropped : Z;
  contention_dropped : Z;
  oversized : Z;
  recycle_failures : Z;
}.

Record CapturePcmStats : Type := mkStats { loss : CapturePcmLoss; max_queued_packets : Z }.

Definition loss_is_empty (l : CapturePcmLoss) : bool :=
  (dropped l =? 0) && (oversized l =? 0) && (recycle_failures l =? 0).
Definition stats_is_empty (s : CapturePcmStats) : bool :=
  loss_is_empty (loss s) && (max_queued_packets s =? 0).

Definition loss_add (a b : CapturePcmLoss) : CapturePcmLoss :=
  mkLoss (as_u64 (dropped a + dropped b)) (as_u64 (contention_dropped a + contention_dropped b))
         (as_u64 (oversized a + oversized b)) (as_u64 (recycle_failures a + recycle_failures b)).
Definition stats_add (a b : CapturePcmStats) : CapturePcmStats :=
  mkStats (loss_add (loss a) (loss b)) (Z.max (max_queued_packets a) (max_queued_packets b)).

(** [CapturePcmHandoff] with its buffers and the sender's sequence number.
    [available_capacity] is the capacity of the vector of free buffers, which
    [Vec::with_capacity] makes at least what was asked for. *)
Record Handoff : Type := mkHandoff {
  available : list (list Sample);
  ready : list (Z * list Sample);
  available_capacity : nat;
  h_other_dropped : Z;
  h_contention_dropped : Z;
  h_oversized : Z;
  h_recycle_failures : Z;
  h_max_queued : Z;
  max_samples : Z;
  sequence : Z;
}.

Definition new_pcm_handoff (capacity : nat) (max_samples : Z) (vec_capacity : nat) : option Handoff :=
  if bool_decide (capacity = O) || (max_samples =? 0) then None
  else Some (mkHandoff (replicate capacity []) [] vec_capacity 0 0 0 0 0 max_samples 0).

Definition with_buffers (h : Handoff) a r : Handoff :=
  mkHandoff a r (available_capacity h) (h_other_dropped h) (h_contention_dropped h) (h_oversized h)
            (h_recycle_failures h) (h_max_queued h) (max_samples h) (sequence h).
Definition add_other (h : Handoff) : Handoff :=
  mkHandoff (available h) (ready h) (available_capacity h) (as_u64 (h_other_dropped h + 1))
            (h_contention_dropped h) (h_oversized h) (h_recycle_failures h) (h_max_queued h)
            (max_samples h) (sequence h).
Definition add_contention (h : Handoff) : Handoff :=
  mkHandoff (available h) (ready h) (available_capacity h) (h_other_dropped h)
            (as_u64 (h_contention_dropped h + 1)) (h_oversized h) (h_recycle_failures h)
            (h_max_queued h) (max_samples h) (sequence h).
Definition add_oversized (h : Handoff) : Handoff :=
  mkHandoff (available h) (ready h) (available_capacity h) (h_other_dropped h)
            (h_contention_dropped h) (as_u64 (h_oversized h + 1)) (h_recycle_failures h)
            (h_max_queued h) (max_samples h) (sequence h).
Definition add_recycle_failure (h : Handoff) : Handoff :=
  mkHandoff (available h) (ready h) (available_capacity h) (h_other_dropped h)
            (h_contention_dropped h) (h_oversized h) (as_u64 (h_recycle_failures h + 1))
            (h_max_queued h) (max_samples h) (sequence h).
Definition fetch_max_queued (h : Handoff) : Handoff :=
  mkHandoff (available h) (ready h) (available_capacity h) (h_other_dropped h)
            (h_contention_dropped h) (h_oversized h) (h_recycle_failures h)
            (Z.max (h_max_queued h) (len (ready h))) (max_samples h) (sequence h).
Definition next_sequence (h : Handoff) : Handoff :=
  mkHandoff (available h) (ready h) (available_capacity h) (h_other_dropped h)
            (h_contention_dropped h) (h_oversized h) (h_recycle_failures h) (h_max_queued h)
            (max_samples h) (as_u64 (sequence h + 1)).

(** A free buffer (the last one pushed), or the oldest packet's, which is lost. *)
Definition take_buffer (h : Handoff) : option (list Sample) * Handoff :=
  match last (available h) with
  | Some b => (Some b, with_buffers h (take (length (available h) - 1) (available h)) (ready h))
  | None =>
      match ready h with
      | (_, b) :: r => (Some b, add_other (with_buffers h (available h) r))
      | [] => (None, h)
      end
  end.

Inductive TryLock : Type := Locked | WouldBlock | Poisoned.

Definition submit (h : Handoff) (input : list Sample) (lock : TryLock) : Handoff :=
  let seq := sequence h in
  let h := next_sequence h in
  if max_samples h <? len input then add_oversized h
  else
    match lock with
    | WouldBlock => add_contention h
    | Poisoned => add_other h
    | Locked =>
        match take_buffer h with
        | (Some _, h) => fetch_max_queued (with_buffers h (available h) (ready h ++ [(seq, input)]))
        | (None, h) => add_other h
        end
    end.

Definition pop_packet (h : Handoff) : option (Z * list Sample) * Handoff :=
  match ready h with
  | p :: r => (Some p, with_buffers h (available h) r)
  | [] => (None, h)
  end.

Definition recycle (h : Handoff) : Handoff :=
  if bool_decide (length (available h) = available_capacity h) then add_recycle_failure h
  else with_buffers h (available h ++ [[]]) (ready h).

Definition is_empty (h : Handoff) : bool := bool_decide (ready h = []).

Definition take_loss (h : Handoff) : CapturePcmLoss * Handoff :=
  (mkLoss (as_u64 (h_other_dropped h + h_contention_dropped h)) (h_contention_dropped h)
          (h_oversized h) (h_recycle_failures h),
   mkHandoff (available h) (ready h) (available_capacity h) 0 0 0 0 (h_max_queued h)
             (max_samples h) (sequence h)).

Definition take_stats (h : Handoff) : CapturePcmStats * Handoff :=
  let (l, h) := take_loss h in
  (mkStats l (h_max_queued h),
   mkHandoff (available h) (ready h) (available_capacity h) (h_other_dropped h)
             (h_contention_dropped h) (h_oversized h) (h_recycle_failures h) 0 (max_samples h) (sequence h)).

(** ** Both threads

    [held] counts the buffers the encoder thread has popped and not recycled. *)
Inductive Step : Type :=
| Submit (input : list Sample) (lock : TryLock)
| Pop
| Recycle
| TakeStats.

Record Run : Type := mkRun {
  handoff : Handoff;
  held : nat;
  delivered : list (Z * list Sample);
  submitted : list (Z * list Sample);
  reported : Z;  (* packets in the losses taken so far *)
  failures : Z;  (* recycle failures in them *)
}.

Definition step (s : Run) (e : Step) : Run :=
  let h := handoff s in
  match e with
  | Submit input lock =>
      mkRun (submit h input lock) (held s) (delivered s) (submitted s ++ [(sequence h, input)])
            (reported s) (failures s)
  | Pop =>
      match pop_packet h with
      | (Some p, h) => mkRun h (S (held s)) (delivered s ++ [p]) (submitted s) (reported s) (failures s)
      | (None, h) => mkRun h (held s) (delivered s) (submitted s) (reported s) (failures s)
      end
  | Recycle =>
      match held s with
      | S n => mkRun (recycle h) n (delivered s) (submitted s) (reported s) (failures s)
      | O => s
      end
  | TakeStats =>
      let (st, h) := take_stats h in
      mkRun h (held s) (delivered s) (submitted s)
            (reported s + dropped (loss st) + oversized (loss st))
            (failures s + recycle_failures (loss st))
  end.

Definition run (h : Handoff) (es : list Step) : Run :=
  foldl step (mkRun h 0 [] [] 0 0) es.

(** ** Accounting *)

Definition packet_ok (s : Run) (capacity : nat) : Prop :=
  let h := handoff s in
  (length (available h) + length (ready h) + held s = capacity)%nat ∧
  h_recycle_failures h = 0 ∧ failures s = 0 ∧ sequence h = len (submitted s) ∧
  delivered s ++ ready h `sublist_of` submitted s ∧
  Forall (λ p, len p.2 ≤ max_samples h) (delivered s ++ ready h) ∧
  0 ≤ h_other_dropped h ∧ 0 ≤ h_contention_dropped h ∧ 0 ≤ h_oversized h ∧ 0 ≤ reported s ∧
  len (delivered s ++ ready h) + reported s + h_other_dropped h + h_contention_dropped h
    + h_oversized h = len (submitted s).

Lemma as_u64_id z : 0 ≤ z < 2 ^ 64 → as_u64 z = z.
Proof. intros. unfold as_u64. by rewrite Z.mod_small. Qed.

Lemma take_buffer_spec h ob h' :
  take_buffer h = (ob, h') →
  match ob with
  | Some _ =>
      (∃ a, h' = with_buffers h a (ready h) ∧ (S (length a) = length (available h))%nat) ∨
      (∃ p, available h = [] ∧ ∃ r, ready h = p :: r ∧ h' = add_other (with_buffers h [] r))
  | None => h' = h
  end.
Proof.
  unfold take_buffer. destruct (last (available h)) as [b|] eqn:Hl.
  - intros [= <- <-]. left. eexists. split; [done|]. rewrite length_take.
    destruct (available h); [done|]. simpl. lia.
  - apply last_None in Hl. destruct (ready h) as [|[q b] r]; intros [= <- <-]; [done|].
    right. exists (q, b). rewrite Hl. eauto.
Qed.

Lemma sublist_snoc_keep {A} (l k : list A) x : l `sublist_of` k → l ++ [x] `sublist_of` k ++ [x].
Proof. intros. by apply sublist_app. Qed.

Lemma sublist_snoc_skip {A} (l k : list A) x : l `sublist_of` k → l `sublist_of` k ++ [x].
Proof. intros. by apply sublist_inserts_r. Qed.

Definition small (s : Run) : Prop := len (submitted s) + 1 < 2 ^ 64.

Lemma submit_ok s cap input lock :
  packet_ok s cap → small s → packet_ok (step s (Submit input lock)) cap.
Proof.
  unfold packet_ok, small. destruct s as [h n dl sb rp fl].
  cbn [step handoff held delivered submitted reported failures].
  intros (Hc & Hr & Hf & Hq & Hs & Hm & Ho & Hct & Hov & Hrp & Hsum) Hb.
  rewrite len_app in Hsum. assert (len sb = Z.of_nat (length sb)) as Hsb by done.
  pose proof (len_nonneg dl). pose proof (len_nonneg (ready h)).
  assert (as_u64 (sequence h + 1) = len (sb ++ [(sequence h, input)])) as Hq'.
  { rewrite len_app, Hq. change (len [(len sb, input)]) with 1. apply as_u64_id. lia. }
  assert (len (sb ++ [(sequence h, input)]) = len sb + 1) as Hlen by (by rewrite len_app).
  unfold submit. cbn [next_sequence max_samples].
  destruct (Z.ltb_spec (max_samples h) (len input)) as [|Hin];
    [|destruct lock].
  - cbn. rewrite Hq', (as_u64_id (h_oversized h + 1)), (len_app dl), Hlen by lia.
    split_and!; try done || lia. by apply sublist_snoc_skip.
  - destruct (take_buffer (next_sequence h)) as [ob h1] eqn:E.
    apply take_buffer_spec in E. destruct ob.
    + destruct E as [(av & -> & Hav)|(p & Hav & r & Hrd & ->)]; cbn in *.
      * rewrite Hq', app_assoc, (length_app (ready h)), (len_app (dl ++ ready h)), (len_app dl). simpl.
        rewrite Hlen. change (len [(sequence h, input)]) with 1.
        split_and!; try done || lia; [by apply sublist_snoc_keep|].
        apply Forall_app. split; [done|]. by constructor.
      * rewrite Hrd in *. rewrite Hq', app_assoc, (length_app r), (len_app (dl ++ r)), (len_app dl).
        rewrite len_cons in Hsum. pose proof (len_nonneg r). rewrite (as_u64_id (h_other_dropped h + 1)), Hlen by lia.
        change (len [(sequence h, input)]) with 1. rewrite Hav in Hc. simpl in *.
        split_and!; try done || lia.
        -- apply sublist_snoc_keep. etrans; [|exact Hs]. apply sublist_app; [done|]. by apply sublist_cons.
        -- apply Forall_app in Hm as [Hm1 Hm2]. apply Forall_cons in Hm2 as [_ Hm2].
           repeat (apply Forall_app; split); try done. by constructor.
    + subst h1. cbn. rewrite Hq', (as_u64_id (h_other_dropped h + 1)), (len_app dl), Hlen by lia.
      split_and!; try done || lia. by apply sublist_snoc_skip.
  - cbn. rewrite Hq', (as_u64_id (h_contention_dropped h + 1)), (len_app dl), Hlen by lia.
    split_and!; try done || lia. by apply sublist_snoc_skip.
  - cbn. rewrite Hq', (as_u64_id (h_other_dropped h + 1)), (len_app dl), Hlen by lia.
    split_and!; try done || lia. by apply sublist_snoc_skip.
Qed.

Lemma worker_ok s cap e :
  packet_ok s cap → small s → (cap ≤ available_capacity (handoff s))%nat →
  match e with Submit _ _ => True | _ => packet_ok (step s e) cap end.
Proof.
  unfold packet_ok, small. destruct s as [h n dl sb rp fl].
  cbn [handoff held delivered submitted reported failures].
  intros (Hc & Hr & Hf & Hq & Hs & Hm & Ho & Hct & Hov & Hrp & Hsum) Hb Hcap.
  pose proof (len_nonneg dl). pose proof (len_nonneg (ready h)).
  destruct e; [done|..]; cbn [step handoff held delivered submitted reported failures].
  - unfold pop_packet. destruct (ready h) as [|p r] eqn:E; cbn in *; rewrite ?E in *; [done|].
    rewrite <- app_assoc. simpl. split_and!; done || lia.
  - destruct n as [|n]; [done|]. unfold recycle.
    rewrite bool_decide_eq_false_2 by lia. cbn in *. rewrite length_app. simpl.
    split_and!; done || lia.
  - unfold take_stats. cbn in *. rewrite Hr. rewrite len_app in *.
    rewrite as_u64_id by lia. split_and!; done || lia.
Qed.

Lemma step_capacity s e : available_capacity (handoff (step s e)) = available_capacity (handoff s).
Proof.
  destruct s as [h n dl sb rp fl]. destruct e as [input lock| | |]; cbn [step handoff held].
  - unfold submit, take_buffer. repeat (case_match; simplify_eq/=); done.
  - unfold pop_packet. by destruct (ready h).
  - destruct n; [done|]. unfold recycle. by case_bool_decide.
  - done.
Qed.

Lemma step_submitted s e : len (submitted (step s e)) ≤ len (submitted s) + 1.
Proof.
  destruct s as [h n dl sb rp fl]. destruct e; cbn [step handoff held submitted]; repeat case_match;
    cbn [submitted]; rewrite ?len_app, ?len_cons, ?len_nil; lia.
Qed.

Lemma run_ok cap es : ∀ s,
  packet_ok s cap → (cap ≤ available_capacity (handoff s))%nat →
  len (submitted s) + len es < 2 ^ 64 → packet_ok (foldl step s es) cap.
Proof.
  induction es as [|e es IH]; intros s Hs Hc Hb; [done|]. rewrite len_cons in Hb.
  pose proof (len_nonneg es). cbn [foldl]. apply IH.
  - destruct e; [apply submit_ok|apply (worker_ok s cap Pop)|apply (worker_ok s cap Recycle)
      |apply (worker_ok s cap TakeStats)];
      done || (unfold small; lia).
  - by rewrite step_capacity.
  - pose proof (step_submitted s e). lia.
Qed.

(** In every interleaving of the capture callback and the encoder thread, no
    buffer of the pool is lost or created and none ever fails to be recycled;
    at most the pool's number of packets wait; and the packets delivered and
    waiting are a subsequence of those submitted, in order and unchanged, each of
    the others being counted exactly once, in a reported or a pending loss. *)
Theorem audio_packets_accounted capacity mx vec_capacity h es :
  new_pcm_handoff capacity mx vec_capacity = Some h →
  (capacity ≤ vec_capacity)%nat → len es < 2 ^ 64 →
  let s := run h es in let q := handoff s in
  (length (available q) + length (ready q) + held s = capacity)%nat ∧
  failures s + h_recycle_failures q = 0 ∧
  (length (ready q) ≤ capacity)%nat ∧
  delivered s ++ ready q `sublist_of` submitted s ∧
  len (delivered s ++ ready q) + reported s
    + h_other_dropped q + h_contention_dropped q + h_oversized q = len (submitted s).
Proof.
  unfold new_pcm_handoff. intros Hn Hc He. case_match; [done|]. injection Hn as <-.
  destruct (run_ok capacity es (mkRun (mkHandoff (replicate capacity []) [] vec_capacity 0 0 0 0 0 mx 0) 0 [] [] 0 0))
    as (H1 & H2 & H3 & _ & H5 & _ & _ & _ & _ & _ & H11); cbn; try done.
  - unfold packet_ok. cbn. rewrite length_replicate. split_and!; try done. lia.
  - unfold run. split_and!; [done|lia|lia|done|lia].
Qed.
End Queue.

Lemma audio_packets_accounted_witness :
  let es := [Submit [1] Locked; Submit [2] Locked; Submit [3] Locked; Pop; Submit [4] WouldBlock;
             Submit [1; 2; 3; 4; 5] Locked; TakeStats] in
  let s := run (mkHandoff [[]; []] [] 2 0 0 0 0 0 4 0) es in
  delivered s = [(1, [2])] ∧ reported s = 3 ∧
  len (delivered s ++ ready (handoff s)) + reported s
    + h_other_dropped (handoff s) + h_contention_dropped (handoff s) + h_oversized (handoff s)
  = len (submitted s).
Proof.
  split; [vm_compute; reflexivity|]. split; [vm_compute; reflexivity|].
  apply (audio_packets_accounted 2 4 2); [reflexivity|lia|vm_compute; reflexivity].
Defined.

End AudioQueue.
