(* ===== verification/F32.v ===== *)
(** * Binary32 numbers

    The parts of Rust's [f32] the video quality control uses: casts from [u32],
    multiplication, division, comparison, [min], [max], [clamp] and
    [ceil() as u32].  Numbers are the Standard Library's [spec_float] at precision
    24, so every operation rounds to nearest, ties to even, and evaluates.  The
    facts are those a program needs to stay clear of NaNs and in order. *)
From S2P Require Import Prelude.
From Stdlib Require Import Floats.SpecFloat.

Definition f32 : Type := spec_float.
#[global] Instance f32_eq_dec : EqDecision f32.
Proof. solve_decision. Defined.

(** [n as f32] *)
Definition f32_of_u32 (n : Z) : f32 := binary_normalize 24 128 n 0 false.

(** The literal [m * 10^-k]. *)
Definition f32_decimal (m k : positive) : f32 :=
  SFdiv 24 128 (S754_finite false m 0) (S754_finite false (10 ^ k) 0).

Definition f32_mul : f32 → f32 → f32 := SFmul 24 128.
Definition f32_div : f32 → f32 → f32 := SFdiv 24 128.
Definition f32_lt (a b : f32) : bool := SFltb a b.
Definition f32_le (a b : f32) : bool := SFleb a b.

Infix "*f" := f32_mul (at level 40, left associativity) : rust_scope.
Infix "/f" := f32_div (at level 40, left associativity) : rust_scope.
Infix "<f" := f32_lt (at level 65, no associativity) : rust_scope.
Infix "<=f" := f32_le (at level 65, no associativity) : rust_scope.

Definition is_nan (x : f32) : bool := match x with S754_nan => true | _ => false end.

(** [a.max(b)], [a.min(b)]: the other argument of a NaN. *)
Definition f32_max (a b : f32) : f32 :=
  if is_nan a then b else if is_nan b then a else if a <f b then b else a.
Definition f32_min (a b : f32) : f32 :=
  if is_nan a then b else if is_nan b then a else if b <f a then b else a.

(** [v.clamp(lo, hi)]: a panic unless [lo <= hi]. *)
Definition f32_clamp (v lo hi : f32) : option f32 :=
  if lo <=f hi then
    let v := if v <f lo then lo else v in
    Some (if hi <f v then hi else v)
  else None.

(** [x.ceil() as u32]: saturating, zero for a NaN. *)
Definition f32_ceil_as_u32 (x : f32) : Z :=
  match x with
  | S754_nan | S754_zero _ | S754_infinity true | S754_finite true _ _ => 0
  | S754_infinity false => u32_max
  | S754_finite false m e =>
      let n := if 0 <=? e then Z.shiftl (Zpos m) e
               else (Zpos m + (Z.shiftl 1 (- e) - 1)) / Z.shiftl 1 (- e) in
      Z.min n u32_max
  end.

Example f32_examples :
  f32_ceil_as_u32 (f32_of_u32 30 /f (f32_of_u32 200 /f f32_of_u32 150)) = 23 ∧
  f32_ceil_as_u32 (f32_of_u32 30 /f (f32_of_u32 300 /f f32_of_u32 150)) = 15 ∧
  f32_of_u32 16777217 = f32_of_u32 16777216 ∧
  f32_ceil_as_u32 (f32_decimal 1 1 *f f32_of_u32 3) = 1 ∧
  f32_decimal 15 1 = f32_of_u32 3 /f f32_of_u32 2.
Proof. vm_compute. split_and!; reflexivity. Qed.

(** ** Rounding a number that is not negative yields no NaN *)
Lemma iter_pos_nonneg p mrs :
  0 ≤ shr_m mrs → 0 ≤ shr_m (SpecFloat.iter_pos shr_1 p mrs).
Proof.
  assert (∀ m, 0 ≤ shr_m m → 0 ≤ shr_m (shr_1 m)) as H1.
  { intros [[|[]|[]] r s]; simpl; lia. }
  revert mrs. induction p as [p IH|p IH|]; intros mrs H; simpl; auto.
Qed.

Lemma shr_fexp_nonneg prec emax m e l :
  0 ≤ m → 0 ≤ shr_m (shr_fexp prec emax m e l).1.
Proof.
  intros Hm. assert (0 ≤ shr_m (shr_record_of_loc m l)) as Hl.
  { by destruct l as [|[]]. }
  unfold shr_fexp, shr. case_match; simpl; [done| |done]. by apply iter_pos_nonneg.
Qed.

Lemma round_nearest_even_nonneg m l : 0 ≤ m → 0 ≤ round_nearest_even m l.
Proof. intros. unfold round_nearest_even. repeat case_match; lia. Qed.

Lemma binary_round_aux_not_nan prec emax s m e l :
  0 ≤ m → is_nan (binary_round_aux prec emax s m e l) = false.
Proof.
  intros Hm. unfold binary_round_aux.
  pose proof (shr_fexp_nonneg prec emax m e l Hm) as H1.
  destruct (shr_fexp prec emax m e l) as [mrs e1]. simpl in H1.
  pose proof (shr_fexp_nonneg prec emax _ e1 loc_Exact
    (round_nearest_even_nonneg _ (loc_of_shr_record mrs) H1)) as H2.
  destruct (shr_fexp _ _ _ e1 loc_Exact) as [mrs' e2]. simpl in H2.
  repeat case_match; simplify_eq; done || lia.
Qed.

Definition is_finite (x : f32) : bool :=
  match x with S754_finite _ _ _ | S754_zero _ => true | _ => false end.

Lemma f32_mul_finite a b : is_finite a = true → is_finite b = true → is_nan (a *f b) = false.
Proof.
  destruct a, b; intros ??; try done. by apply binary_round_aux_not_nan.
Qed.

(** ** Order *)
Lemma f32_compare_some a b :
  is_nan a = false → is_nan b = false → ∃ c, SFcompare a b = Some c.
Proof. destruct a, b; intros; try done; simpl; eauto. Qed.

Lemma f32_compare_antisym a b : SFcompare b a = CompOpp <$> SFcompare a b.
Proof.
  destruct a as [[]|[]| |[] m1 e1], b as [[]|[]| |[] m2 e2]; try done; simpl; f_equal;
    rewrite (Z.compare_antisym e1 e2); destruct (e1 ?= e2); try done; simpl;
    change (Pos.compare_cont Eq m1 m2) with (Pos.compare m1 m2);
    change (Pos.compare_cont Eq m2 m1) with (Pos.compare m2 m1);
    rewrite (Pos.compare_antisym m1 m2); by destruct (Pos.compare m1 m2).
Qed.

Lemma f32_lt_false a b :
  is_nan a = false → is_nan b = false → a <f b = false → b <=f a = true.
Proof.
  intros Ha Hb. unfold f32_lt, f32_le, SFltb, SFleb. rewrite (f32_compare_antisym a b).
  destruct (f32_compare_some a b Ha Hb) as [[] ->]; done.
Qed.

Lemma f32_lt_le a b : a <f b = true → a <=f b = true.
Proof. unfold f32_lt, f32_le, SFltb, SFleb. by repeat case_match. Qed.

Lemma f32_le_not_nan a b : a <=f b = true → is_nan a = false ∧ is_nan b = false.
Proof. by destruct a, b. Qed.

Lemma f32_le_refl a : is_nan a = false → a <=f a = true.
Proof.
  destruct a as [[]|[]| |[] m e]; try done; intros _; unfold f32_le, SFleb; simpl;
    rewrite Z.compare_refl; change (Pos.compare_cont Eq m m) with (Pos.compare m m);
    by rewrite Pos.compare_refl.
Qed.

Lemma f32_le_trans a b c : a <=f b = true → b <=f c = true → a <=f c = true.
Proof.
  unfold f32_le, SFleb.
  destruct a as [[]|[]| |[] m1 e1], b as [[]|[]| |[] m2 e2], c as [[]|[]| |[] m3 e3];
    try done; simpl;
    change (Pos.compare_cont Eq m1 m2) with (Pos.compare m1 m2);
    change (Pos.compare_cont Eq m2 m3) with (Pos.compare m2 m3);
    change (Pos.compare_cont Eq m1 m3) with (Pos.compare m1 m3);
    destruct (Z.compare_spec e1 e2), (Z.compare_spec e2 e3), (Z.compare_spec e1 e3);
    try done; try lia; simpl;
    destruct (Pos.compare_spec m1 m2), (Pos.compare_spec m2 m3), (Pos.compare_spec m1 m3);
    try done; lia.
Qed.

Lemma f32_max_bounds lo a b hi :
  lo <=f b = true → a <=f hi = true → b <=f hi = true →
  lo <=f f32_max a b = true ∧ f32_max a b <=f hi = true.
Proof.
  intros Hlo Ha Hb. pose proof (f32_le_not_nan _ _ Ha) as [Na _].
  pose proof (f32_le_not_nan _ _ Hb) as [Nb _].
  unfold f32_max. rewrite Na, Nb. destruct (a <f b) eqn:E; [done|].
  split; [|done]. eapply f32_le_trans; [exact Hlo|]. by apply f32_lt_false.
Qed.

(** A value that is not a NaN ends up between the bounds. *)
Lemma f32_clamp_bounds v lo hi :
  is_nan v = false → lo <=f hi = true →
  ∃ r, f32_clamp v lo hi = Some r ∧ lo <=f r = true ∧ r <=f hi = true.
Proof.
  intros Hv Hlh. pose proof (f32_le_not_nan _ _ Hlh) as [Nl Nh].
  unfold f32_clamp. rewrite Hlh. eexists. split; [done|].
  destruct (v <f lo) eqn:E1.
  - destruct (hi <f lo) eqn:E2; [|by rewrite f32_le_refl].
    by rewrite f32_le_refl, Hlh.
  - destruct (hi <f v) eqn:E2; [by rewrite f32_le_refl|].
    split; by apply f32_lt_false.
Qed.
