(* ===== verification/VideoQos.v ===== *)
(** * Video quality control

    [client/src/server/video_qos.rs]: the frame rate and bitrate ratio of the
    stream, adapted per viewer from the delay of its probe replies.  Numbers are
    [u32] unless said otherwise; times are arguments: [now] an [Instant] in
    nanoseconds, [time] the wall clock in milliseconds.  An operation that can
    panic returns an option. *)
From S2P Require Import Prelude RecordUpdate F32.

Module VideoQos.

(** ** Constants and quality levels *)
Definition FPS : Z := 30.
Definition MIN_FPS : Z := 1.
Definition MAX_FPS : Z := 120.
Definition INIT_FPS : Z := 15.
Definition MIN_AUTO_FPS : Z := 5.

Definition BR_MAX : f32 := f32_decimal 400 1.
Definition BR_MIN : f32 := f32_decimal 2 1.
Definition BR_MIN_HIGH_RESOLUTION : f32 := f32_decimal 1 1.
Definition MAX_BR_MULTIPLE : f32 := f32_decimal 10 1.
Definition BR_BEST : f32 := f32_decimal 15 1.
Definition BR_BALANCED : f32 := f32_decimal 67 2.
Definition BR_SPEED : f32 := f32_decimal 5 1.

Definition HISTORY_DELAY_LEN : nat := 2.
Definition ADJUST_RATIO_INTERVAL : Z := 3.
Definition DYNAMIC_SCREEN_THRESHOLD : Z := 2.
Definition DELAY_THRESHOLD_150MS : Z := 150.
Definition RESTORE_GUARD_SAMPLES : Z := 5.
Definition u8_MAX : Z := u8_max.

(** [scrap::codec::Quality] *)
Inductive Quality : Type := Best | Balanced | Low | Custom (v : f32).

Definition quality_ratio (q : Quality) : f32 :=
  match q with
  | Best => BR_BEST
  | Balanced => BR_BALANCED
  | Low => BR_SPEED
  | Custom v => v
  end.

(** The values of [ImageQuality] of the protocol. *)
Definition ImageQuality_Low : Z := 2.
Definition ImageQuality_Balanced : Z := 3.
Definition ImageQuality_Best : Z := 4.

(** The closure of [user_image_quality]; [q] is an [i32]. *)
Definition convert_quality (q : Z) : option Quality :=
  if q =? ImageQuality_Balanced then Some Balanced
  else if q =? ImageQuality_Low then Some Low
  else if q =? ImageQuality_Best then Some Best
  else
    let b := f32_of_u32 (Z.land (Z.shiftr q 8) 0xFFF * 2) /f f32_decimal 1000 1 in
    Custom <$> f32_clamp b BR_MIN BR_MAX.

(** ** The baseline of a connection's delay *)
Record RttCalculator : Type := mkRtt { baseline : option Z; samples : list Z }.
#[export] Instance eta_rtt : Eta RttCalculator := λ r, mkRtt (baseline r) (samples r).

Definition WINDOW_SAMPLES : nat := 20.
Definition MAX_INCREASE_MS : Z := 50.

(** [VecDeque::push_back] after a [pop_front] at [n] elements. *)
Definition push_bounded (n : nat) (l : list Z) (x : Z) : list Z :=
  (if bool_decide (n ≤ length l)%nat then tail l else l) ++ [x].

(** [l.iter().min()] *)
Definition list_min (l : list Z) : option Z :=
  match l with [] => None | x :: l => Some (fold_left Z.min l x) end.
(** [l.iter().max()] *)
Definition list_max (l : list Z) : option Z :=
  match l with [] => None | x :: l => Some (fold_left Z.max l x) end.

Definition rtt_update (r : RttCalculator) (delay : Z) : RttCalculator :=
  let samples := push_bounded WINDOW_SAMPLES (samples r) delay in
  let base := Z.min (default delay (baseline r)) delay in
  let r := mkRtt (Some base) samples in
  if bool_decide (length samples < WINDOW_SAMPLES)%nat then r
  else
    let half := (WINDOW_SAMPLES / 2)%nat in
    match list_min (take half samples), list_min (drop half samples) with
    | Some older_min, Some recent_min =>
        if saturating_add u32_max older_min 10 <? recent_min then r
        else
          let rise := saturating_sub (Z.min older_min recent_min) base in
          if 0 <? rise
          then r <| baseline := Some (base + clamp (rise / 2) 1 MAX_INCREASE_MS) |>
          else r
    | _, _ => r
    end.

Definition get_rtt (r : RttCalculator) : option Z := baseline r.

(** ** The state of one viewer's adaptation *)
Record UserDelay : Type := mkDelay {
  stall_ticks : Z;
  delay_history : list Z;
  d_fps : option Z;
  rtt_calculator : RttCalculator;
  quick_increase_fps_count : Z;
  increase_fps_count : Z;
  consecutive_bad_samples : Z;
  fps_bad_samples : Z;
  good_samples : Z;
  replies_after_bitrate_reduction : option Z;
  fps_before_congestion : option Z;
  samples_since_restore : option Z;
  stall_reference_fps : option Z;
  startup_good_samples : Z;
}.
#[export] Instance eta_delay : Eta UserDelay := λ d,
  mkDelay (stall_ticks d) (delay_history d) (d_fps d) (rtt_calculator d)
    (quick_increase_fps_count d) (increase_fps_count d) (consecutive_bad_samples d)
    (fps_bad_samples d) (good_samples d) (replies_after_bitrate_reduction d)
    (fps_before_congestion d) (samples_since_restore d) (stall_reference_fps d)
    (startup_good_samples d).

Definition delay_default : UserDelay :=
  mkDelay 0 [] None (mkRtt None []) 0 0 0 0 0 None None None None 0.

Definition add_delay (d : UserDelay) (delay : Z) : UserDelay :=
  d <| delay_history := push_bounded HISTORY_DELAY_LEN (delay_history d) delay |>.

(** The delay above the baseline. *)
Definition excess_delay (d : UserDelay) (delay : Z) : Z :=
  saturating_sub delay (default 0 (get_rtt (rtt_calculator d))).

(** The sum of a [u32] iterator wraps in a release build. *)
Definition avg_delay (d : UserDelay) : Z :=
  match delay_history d with
  | [] => DELAY_THRESHOLD_150MS
  | l => excess_delay d (foldr (λ x s, as_u32 (x + s)) 0 l / as_u32 (len l))
  end.

Definition on_reduction (d : UserDelay) (current_fps : Z) : UserDelay :=
  d <| startup_good_samples := u8_MAX |>
    <| good_samples := 0 |>
    <| fps_bad_samples := 0 |>
    <| fps_before_congestion :=
         match fps_before_congestion d with None => Some current_fps | l => l end |>.

Definition recover (d : UserDelay) (current_fps fps : Z) : Z * UserDelay :=
  let gradual := current_fps + Z.max (current_fps / 10) 1 in
  let level := l ← fps_before_congestion d; if current_fps <? l then Some l else None in
  match level with
  | Some level =>
      if (good_samples d =? 2) || (good_samples d =? 3)
      then (Z.max fps level, d <| fps_before_congestion := None |>
                               <| samples_since_restore := Some 0 |>)
      else (gradual, d)
  | None =>
      if good_samples d =? 3
      then (Z.max fps (current_fps + Z.max (current_fps / 5) 2),
            d <| fps_before_congestion := None |>)
      else (gradual, d)
  end.

(** A level was restored at most [RESTORE_GUARD_SAMPLES] replies ago. *)
Definition restored_lately (d : UserDelay) : bool :=
  match samples_since_restore d with Some n => n <=? RESTORE_GUARD_SAMPLES | None => false end.

Definition limit_fps_change (d : UserDelay) (current_fps fps delay : Z)
    (bitrate_first braked : bool) : Z * UserDelay :=
  let delay := excess_delay d delay in
  let d := d <| samples_since_restore := saturating_add u8_max 1 <$> samples_since_restore d |> in
  if delay <? DELAY_THRESHOLD_150MS then
    let d := d <| consecutive_bad_samples := 0 |>
               <| fps_bad_samples := 0 |>
               <| replies_after_bitrate_reduction := None |>
               <| good_samples := Z.min (good_samples d + 1) 3 |> in
    recover d current_fps fps
  else
    let d := d <| consecutive_bad_samples := Z.min (consecutive_bad_samples d + 1) 3 |>
               <| fps_bad_samples := Z.min (fps_bad_samples d + 1) 3 |>
               <| replies_after_bitrate_reduction :=
                    (λ n, Z.min (n + 1) 2) <$> replies_after_bitrate_reduction d |> in
    let failed_restore := (600 <=? delay) && restored_lately d in
    let d :=
      if restored_lately d && (failed_restore || (3 <=? consecutive_bad_samples d))
      then d <| fps_before_congestion := Some (current_fps - current_fps / 4) |>
             <| samples_since_restore := None |>
      else d in
    if (current_fps <=? fps) || braked then (current_fps, d)
    else if negb failed_restore && (delay <? 1000)
            && ((fps_bad_samples d <? 3)
                || (bitrate_first && (default 0 (replies_after_bitrate_reduction d) <? 2)))
    then (current_fps, d)
    else
      let divisor := if (1000 <=? delay) || failed_restore then 2 else 5 in
      (Z.max fps (saturating_sub current_fps (Z.max (current_fps / divisor) 1)),
       on_reduction d current_fps).

Definition accelerate_startup (d : UserDelay) (current_fps fps cap delay : Z) (braked : bool)
    : Z * UserDelay :=
  if startup_good_samples d =? u8_MAX then (fps, d)
  else
    let excess := excess_delay d delay in
    if braked || (50 <=? excess) || (cap <=? current_fps)
    then (fps, d <| startup_good_samples := u8_MAX |>)
    else
      let d := d <| startup_good_samples := startup_good_samples d + 1 |> in
      if startup_good_samples d <? 2 then (fps, d)
      else
        let d := d <| startup_good_samples := 0 |> in
        let accelerated := Z.min (Z.max fps (Z.min (current_fps * 2) u32_max)) cap in
        (accelerated, if cap <=? accelerated then d <| startup_good_samples := u8_MAX |> else d).

Definition needs_bitrate_reduction (d : UserDelay) : bool :=
  (2 <=? consecutive_bad_samples d) || (2 <=? stall_ticks d).

Definition ratio_reduction (d : UserDelay) : option f32 :=
  if negb (needs_bitrate_reduction d) then None
  else
    let excess := avg_delay d in
    let confirmed := 3 <=? consecutive_bad_samples d in
    Some (if excess <? 200 then f32_decimal 95 2
          else if excess <? 300 then f32_decimal 9 1
          else if excess <? 500 then if confirmed then f32_decimal 7 1 else f32_decimal 85 2
          else if confirmed then f32_decimal 5 1 else f32_decimal 8 1).

(** ** Viewers, displays and the controller *)
Record UserData : Type := mkUser {
  auto_adjust_fps : option Z;
  custom_fps : option Z;
  quality : option (Z * Quality);
  delay : UserDelay;
  record : bool;
  joined_at : option Z;
}.
#[export] Instance eta_user : Eta UserData := λ u,
  mkUser (auto_adjust_fps u) (custom_fps u) (quality u) (delay u) (record u) (joined_at u).
Definition user_default : UserData := mkUser None None None delay_default false None.

Definition fps_cap (u : UserData) : Z :=
  let fps := default FPS (custom_fps u) in
  let fps := match auto_adjust_fps u with
             | Some a => if (fps =? 0) || (a <? fps) then a else fps
             | None => fps
             end in
  clamp fps MIN_FPS MAX_FPS.

Record DisplayData : Type := mkDisplay { send_counter : Z; support_changing_quality : bool }.
#[export] Instance eta_display : Eta DisplayData := λ d,
  mkDisplay (send_counter d) (support_changing_quality d).
Definition display_default : DisplayData := mkDisplay 0 false.

Record VideoQoS : Type := mkQoS {
  q_fps : Z;
  q_ratio : f32;
  users : gmap Z UserData;
  displays : gmap string DisplayData;
  bitrate_store : Z;
  adjust_ratio_instant : Z;
  abr_config : bool;
  first_reply_adjusts_ratio : bool;
}.
#[export] Instance eta_qos : Eta VideoQoS := λ q,
  mkQoS (q_fps q) (q_ratio q) (users q) (displays q) (bitrate_store q) (adjust_ratio_instant q)
        (abr_config q) (first_reply_adjusts_ratio q).

(** [linux] is [cfg!(target_os = "linux")]. *)
Definition qos_default (linux : bool) (now : Z) : VideoQoS :=
  mkQoS FPS BR_BALANCED ∅ ∅ 0 now true (negb linux).

(** [since(instant).as_secs()] *)
Definition since_secs (now instant : Z) : Z := Z.max (now - instant) 0 / 1000000000.

Definition values {K A} `{Countable K} (m : gmap K A) : list A := (map_to_list m).*2.

Definition fps (q : VideoQoS) : Z :=
  if (MIN_FPS <=? q_fps q) && (q_fps q <=? MAX_FPS) then q_fps q else FPS.

(** [spf] is one over the frame rate. *)
Definition spf (q : VideoQoS) : f32 := f32_of_u32 1 /f f32_of_u32 (fps q).

Definition store_bitrate (q : VideoQoS) (b : Z) : VideoQoS := q <| bitrate_store := b |>.
Definition bitrate (q : VideoQoS) : Z := bitrate_store q.

Definition ratio (q : VideoQoS) : f32 * VideoQoS :=
  let q := if (q_ratio q <f BR_MIN_HIGH_RESOLUTION) || (BR_MAX <f q_ratio q)
           then q <| q_ratio := BR_BALANCED |> else q in
  (q_ratio q, q).

Definition any_record (q : VideoQoS) : bool := existsb record (values (users q)).

(** [get_mut] and an assignment through it. *)
Definition with_display (q : VideoQoS) (name : string) (f : DisplayData → DisplayData) : VideoQoS :=
  q <| displays := alter f name (displays q) |>.
Definition with_user (q : VideoQoS) (id : Z) (f : UserData → UserData) : VideoQoS :=
  q <| users := alter f id (users q) |>.

Definition set_support_changing_quality (q : VideoQoS) (name : string) (support : bool) : VideoQoS :=
  with_display q name (λ d, d <| support_changing_quality := support |>).

Definition in_vbr_state (q : VideoQoS) : bool :=
  abr_config q && forallb support_changing_quality (values (displays q)).

Definition highest_fps (q : VideoQoS) : Z :=
  clamp (default FPS (list_min (fps_cap <$> values (users q)))) MIN_FPS MAX_FPS.

(** The newest quality; [Iterator::max_by] keeps the later of two equal ones, so
    [viewers] is the map's values in the order it yields them. *)
Definition newest (acc : option (Z * Quality)) (q : Z * Quality) : option (Z * Quality) :=
  match acc with
  | Some a => if a.1 <=? q.1 then Some q else Some a
  | None => Some q
  end.
Definition latest_quality_of (viewers : list UserData) : Quality :=
  (default (0, Balanced) (fold_left newest (omap quality viewers) None)).2.

Definition adjust_fps (q : VideoQoS) (now : Z) : VideoQoS :=
  let highest := highest_fps q in
  let fps := default INIT_FPS (list_min ((λ u, default INIT_FPS (d_fps (delay u))) <$> values (users q))) in
  let fps :=
    if existsb (λ u, match joined_at u with
                     | Some joined => since_secs now joined <? 1
                     | None => false
                     end) (values (users q))
    then Z.min fps INIT_FPS else fps in
  q <| q_fps := clamp fps MIN_FPS highest |>.

Definition reset_send_counters (q : VideoQoS) : VideoQoS :=
  q <| displays := (λ d, d <| send_counter := 0 |>) <$> displays q |>.

(** [if let Some(r) = r { if min > r { min = r; } }] *)
Definition lower (r : option f32) (min : f32) : f32 :=
  match r with Some r => if r <f min then r else min | None => min end.

Section Order.
(** The order a [HashMap] yields its entries in. *)
Context (order : gmap Z UserData → list UserData).

Definition latest_quality (q : VideoQoS) : Quality := latest_quality_of (order (users q)).

Definition min_ratio (q : VideoQoS) : f32 :=
  let ratio_1mbps :=
    if 0 <? bitrate q
    then Some (f32_max (q_ratio q *f f32_of_u32 1000 /f f32_of_u32 (bitrate q)) BR_MIN_HIGH_RESOLUTION)
    else None in
  match latest_quality q with
  | Best => f32_max (lower ratio_1mbps (BR_BEST /f f32_decimal 25 1)) BR_MIN
  | Balanced =>
      f32_max (lower ratio_1mbps (f32_min (BR_BALANCED /f f32_decimal 20 1) (f32_decimal 4 1)))
              BR_MIN_HIGH_RESOLUTION
  | Low | Custom _ => BR_MIN_HIGH_RESOLUTION
  end.

Definition can_reduce_bitrate (q : VideoQoS) : bool :=
  in_vbr_state q && bool_decide (displays q ≠ ∅) && (min_ratio q *f f32_decimal 102 2 <f q_ratio q).

(** The factor the controller's reductions agree on: the smallest. *)
Definition reduction (q : VideoQoS) : option f32 :=
  match omap (λ u, ratio_reduction (delay u)) (values (users q)) with
  | [] => None
  | x :: l => Some (fold_left f32_min l x)
  end.

(** The ratio before it is clamped. *)
Definition next_ratio (q : VideoQoS) (max_delay : Z) (dynamic_screen : bool) : f32 :=
  let current_ratio := q_ratio q in
  let v :=
    match reduction q with
    | Some factor => current_ratio *f factor
    | None =>
        if dynamic_screen then
          current_ratio *f (if max_delay <? 50 then f32_decimal 115 2
                            else if max_delay <? 100 then f32_decimal 11 1
                            else f32_decimal 105 2)
        else current_ratio
    end in
  if 0 <? bitrate q then
    let add := f32_of_u32 (as_u32 (bitrate q + 150)) *f current_ratio /f f32_of_u32 (bitrate q) in
    if (add <f v) && (current_ratio <f add) && (BR_SPEED <=f current_ratio) then add else v
  else v.

Definition adjust_ratio (q : VideoQoS) (now : Z) (dynamic_screen : bool) : option VideoQoS :=
  if negb (in_vbr_state q) then Some q
  else
    match list_max ((λ u, avg_delay (delay u)) <$> values (users q)) with
    | None => Some q
    | Some max_delay =>
        let reduction := reduction q in
        if bool_decide (reduction = None) && (DELAY_THRESHOLD_150MS <=? max_delay)
        then Some (reset_send_counters q)
        else
          let min := min_ratio q in
          let max := quality_ratio (latest_quality q) *f MAX_BR_MULTIPLE in
          let v := next_ratio q max_delay dynamic_screen in
          r ← f32_clamp v min max;
          let mark (u : UserData) :=
            if needs_bitrate_reduction (delay u)
               && bool_decide (replies_after_bitrate_reduction (delay u) = None)
            then u <| delay := (delay u)
                         <| replies_after_bitrate_reduction :=
                              Some (if r <f q_ratio q then 0 else 2) |> |>
            else u in
          let q := match reduction with Some _ => q <| users := mark <$> users q |> | None => q end in
          Some ((reset_send_counters (q <| q_ratio := r |>)) <| adjust_ratio_instant := now |>)
    end.

(** ** Sessions *)

(** [abr] is [Config::get_option("enable-abr") != "N"]. *)
Definition on_connection_open (q : VideoQoS) (id now : Z) (abr : bool) : VideoQoS :=
  q <| users := <[id := user_default <| joined_at := Some now |>]> (users q) |>
    <| abr_config := abr |>.

Definition on_connection_close (linux : bool) (q : VideoQoS) (id now : Z) : VideoQoS :=
  let q := q <| users := delete id (users q) |> in
  if bool_decide (users q = ∅) then qos_default linux now else adjust_fps q now.

Definition user_custom_fps (q : VideoQoS) (id fps : Z) : VideoQoS :=
  if (fps <? MIN_FPS) || (MAX_FPS <? fps) then q
  else with_user q id (λ u, u <| custom_fps := Some fps |>).

Definition user_auto_adjust_fps (q : VideoQoS) (id fps : Z) : VideoQoS :=
  if (fps <? MIN_FPS) || (MAX_FPS <? fps) then q
  else with_user q id (λ u, u <| auto_adjust_fps := Some fps |>).

Definition user_image_quality (q : VideoQoS) (id image_quality time : Z) : option VideoQoS :=
  ql ← convert_quality image_quality;
  match users q !! id with
  | Some _ =>
      let q := with_user q id (λ u, u <| quality := Some (time, ql) |>) in
      Some (q <| q_ratio := quality_ratio (latest_quality q) |>)
  | None => Some q
  end.

Definition user_record (q : VideoQoS) (id : Z) (v : bool) : VideoQoS :=
  with_user q id (λ u, u <| record := v |>).

(** The frame rates of [user_network_delay] for a target ratio. *)
Definition fps_levels (target_ratio : f32) : Z * Z :=
  if BR_BEST <=f target_ratio then (8, 16)
  else if BR_BALANCED <=f target_ratio then (10, 20)
  else (12, 24).

(** The frame rate the average delay asks for, and the count of quick increases. *)
Definition wanted_fps (min_fps normal_fps fps avg old_avg quick : Z) : Z * Z :=
  if avg <? 50 then
    let quick := quick + 1 in
    let step := if fps <? normal_fps then 1 else 0 in
    let '(step, quick) := if 3 <=? quick then (5, 0) else (step, quick) in
    (Z.max min_fps (fps + step), quick)
  else if avg <? 100 then
    let step := if avg <? old_avg then if fps <? normal_fps then 1 else 0 else 0 in
    (Z.max min_fps (fps + step), quick)
  else if avg <? DELAY_THRESHOLD_150MS then (Z.max min_fps fps, quick)
  else
    let devide_fps :=
      f32_ceil_as_u32 (f32_of_u32 fps /f (f32_of_u32 avg /f f32_of_u32 DELAY_THRESHOLD_150MS)) in
    let dividend_ms := DELAY_THRESHOLD_150MS * min_fps in
    (if avg <? 200 then Z.max min_fps devide_fps
     else if avg <? 300 then Z.min min_fps devide_fps
     else if avg <? 600 then dividend_ms / avg
     else Z.min (dividend_ms / avg) devide_fps, quick).

(** The part of [user_network_delay] that works on the replying viewer: the
    viewer, whether it asks for a lower bitrate, and whether this was its first reply. *)
Definition reply (levels : Z * Z) (bitrate_first : bool) (u : UserData) (reply_delay : Z)
    : UserData * bool * bool :=
  let (min_fps, normal_fps) := levels in
  let dl := Z.max reply_delay 10 in
  let braked := bool_decide (is_Some (stall_reference_fps (delay u))) in
  let d := (delay u) <| stall_ticks := 0 |> <| stall_reference_fps := None |> in
  let old_avg := avg_delay d in
  let d := if braked then d else d <| rtt_calculator := rtt_update (rtt_calculator d) dl |> in
  let d := add_delay d dl in
  let avg := Z.max (avg_delay d) 10 in
  let user_cap := fps_cap u in
  let current_fps := default (Z.min INIT_FPS user_cap) (d_fps d) in
  let '(fps, quick) :=
    wanted_fps min_fps normal_fps current_fps avg old_avg (quick_increase_fps_count d) in
  let d := d <| quick_increase_fps_count := quick |> in
  let d := d <| increase_fps_count :=
                  if avg <? DELAY_THRESHOLD_150MS then increase_fps_count d + 1 else 0 |> in
  let '(fps, d) :=
    if 3 <=? increase_fps_count d then (fps + 1, d <| increase_fps_count := 0 |>) else (fps, d) in
  let d := if 50 <? avg then d <| quick_increase_fps_count := 0 |> else d in
  let fps := if bitrate_first then Z.max fps min_fps else fps in
  let fps := Z.max fps (Z.min MIN_AUTO_FPS user_cap) in
  let '(fps, d) := limit_fps_change d current_fps fps dl bitrate_first braked in
  let '(fps, d) := accelerate_startup d current_fps fps user_cap dl braked in
  let reduce_bitrate := bitrate_first && needs_bitrate_reduction d
                        && bool_decide (replies_after_bitrate_reduction d = None) in
  let fps := clamp fps MIN_FPS user_cap in
  (u <| delay := d <| d_fps := Some fps |> |>, reduce_bitrate, bool_decide (d_fps d = None)).

Definition user_network_delay (q : VideoQoS) (id delay now : Z) : option VideoQoS :=
  let levels := fps_levels (quality_ratio (latest_quality q)) in
  let bitrate_first := can_reduce_bitrate q in
  let '(q, reduce_bitrate, first) :=
    match users q !! id with
    | Some u =>
        let '(u, reduce_bitrate, first) := reply levels bitrate_first u delay in
        (q <| users := <[id := u]> (users q) |>, reduce_bitrate, first)
    | None => (q, false, false)
    end in
  let q := adjust_fps q now in
  let cooled q := ADJUST_RATIO_INTERVAL <=? since_secs now (adjust_ratio_instant q) in
  q ← (if first && first_reply_adjusts_ratio q && cooled q
       then adjust_ratio q now false else Some q);
  (if reduce_bitrate && cooled q then adjust_ratio q now false else Some q).

(** The part of [user_delay_response_elapsed] that works on the viewer;
    [elapsed] is a [u128]. *)
Definition stalled (u : UserData) (elapsed : Z) : UserData :=
  let d := delay u in
  let d := d <| stall_ticks := saturating_add u8_max (stall_ticks d) 1 |> in
  let d := add_delay d (as_u32 elapsed) in
  let '(reference, d) :=
    match stall_reference_fps d with
    | Some reference => (reference, d)
    | None =>
        let reference := default (Z.min INIT_FPS (fps_cap u)) (d_fps d) in
        (reference, on_reduction (d <| stall_reference_fps := Some reference |>) reference)
    end in
  let divisor := Z.shiftl 1 (Z.min (saturating_sub (as_u32 (elapsed / 1000)) 1) 5) in
  let user_cap := fps_cap u in
  let current := default reference (d_fps d) in
  let fps := Z.min (clamp (reference / divisor) (Z.min MIN_AUTO_FPS user_cap) user_cap) current in
  u <| delay := d <| d_fps := Some fps |> |>.

Definition user_delay_response_elapsed (q : VideoQoS) (id elapsed now : Z) : VideoQoS :=
  match users q !! id with
  | None => q
  | Some u =>
      if elapsed <=? 2000 then q
      else adjust_fps (q <| users := <[id := stalled u elapsed]> (users q) |>) now
  end.

(** ** Displays *)
Definition new_display (q : VideoQoS) (name : string) : VideoQoS :=
  q <| displays := <[name := display_default]> (displays q) |>.

Definition remove_display (q : VideoQoS) (name : string) : VideoQoS :=
  q <| displays := delete name (displays q) |>.

Definition update_display_data (q : VideoQoS) (name : string) (n now : Z) : option VideoQoS :=
  let q := with_display q name (λ d, d <| send_counter := as_u64 (send_counter d + n) |>) in
  let q := adjust_fps q now in
  if in_vbr_state q then
    if ADJUST_RATIO_INTERVAL <=? since_secs now (adjust_ratio_instant q) then
      let dynamic_screen :=
        existsb (λ d, ADJUST_RATIO_INTERVAL * DYNAMIC_SCREEN_THRESHOLD <=? send_counter d)
                (values (displays q)) in
      adjust_ratio q now dynamic_screen
    else Some q
  else Some (q <| q_ratio := quality_ratio (latest_quality q) |>).

(** The calls the connections and the video services make. *)
Inductive Event : Type :=
| ConnectionOpen (id now : Z) (abr : bool)
| ConnectionClose (id now : Z)
| UserCustomFps (id fps : Z)
| UserAutoAdjustFps (id fps : Z)
| UserImageQuality (id image_quality time : Z)
| UserRecord (id : Z) (v : bool)
| UserNetworkDelay (id delay now : Z)
| UserDelayResponseElapsed (id elapsed now : Z)
| NewDisplay (name : string)
| RemoveDisplay (name : string)
| UpdateDisplayData (name : string) (send_counter now : Z)
| SetSupportChangingQuality (name : string) (support : bool)
| StoreBitrate (bitrate : Z)
| Ratio.

Definition handle (linux : bool) (q : VideoQoS) (e : Event) : option VideoQoS :=
  match e with
  | ConnectionOpen id now abr => Some (on_connection_open q id now abr)
  | ConnectionClose id now => Some (on_connection_close linux q id now)
  | UserCustomFps id fps => Some (user_custom_fps q id fps)
  | UserAutoAdjustFps id fps => Some (user_auto_adjust_fps q id fps)
  | UserImageQuality id image_quality time => user_image_quality q id image_quality time
  | UserRecord id v => Some (user_record q id v)
  | UserNetworkDelay id delay now => user_network_delay q id delay now
  | UserDelayResponseElapsed id elapsed now => Some (user_delay_response_elapsed q id elapsed now)
  | NewDisplay name => Some (new_display q name)
  | RemoveDisplay name => Some (remove_display q name)
  | UpdateDisplayData name n now => update_display_data q name n now
  | SetSupportChangingQuality name support => Some (set_support_changing_quality q name support)
  | StoreBitrate b => Some (store_bitrate q b)
  | Ratio => Some (ratio q).2
  end.

(** A sequence of calls, all of which return. *)
Fixpoint run (linux : bool) (q : VideoQoS) (es : list Event) : option VideoQoS :=
  match es with
  | [] => Some q
  | e :: es => q ← handle linux q e; run linux q es
  end.

End Order.
End VideoQos.
