(* ===== verification/VideoQosProofs.v ===== *)
(** * Video quality control: bounds and reactions

    Every sequence of the controller's operations runs without a panic and keeps
    the frame rate and the bitrate ratio in range; a viewer's target reacts to its
    own replies only, and only when they confirm congestion. *)
From S2P Require Import Prelude RecordUpdate F32 VideoQos.
Import VideoQos.

Module VideoQosProofs.

(** ** Lists *)
Lemma fold_min_spec (l : list Z) x :
  let m := fold_left Z.min l x in (m = x ∨ m ∈ l) ∧ m ≤ x ∧ ∀ y, y ∈ l → m ≤ y.
Proof.
  revert x. induction l as [|a l IH]; intros x; cbn [fold_left].
  - split_and!; [by left|lia|]. by intros y ?%not_elem_of_nil.
  - destruct (IH (Z.min x a)) as (H1 & H2 & H3). split_and!; [|lia|].
    + destruct H1 as [-> | H1]; [|right; set_solver].
      destruct (Z.min_spec x a) as [[_ ->]|[_ ->]]; [by left|right; set_solver].
    + intros y [-> |Hy]%elem_of_cons; [lia|auto].
Qed.

Lemma list_min_Some l m : list_min l = Some m → m ∈ l ∧ ∀ y, y ∈ l → m ≤ y.
Proof.
  destruct l as [|x l]; intros [= <-]. destruct (fold_min_spec l x) as (H1 & H2 & H3).
  split; [set_solver|]. intros y [-> |Hy]%elem_of_cons; auto.
Qed.

Lemma elem_of_values {K A} `{Countable K} (m : gmap K A) x :
  x ∈ values m ↔ ∃ k, m !! k = Some x.
Proof.
  unfold values. rewrite list_elem_of_fmap. split.
  - intros ([k y] & -> & Hy). exists k. by apply elem_of_map_to_list.
  - intros [k Hk]. exists (k, x). by rewrite elem_of_map_to_list.
Qed.

(** ** Well-formed states *)
Definition rate_ok (f : Z) : Prop := MIN_FPS ≤ f ≤ MAX_FPS.
Definition opt_ok (o : option Z) : Prop := ∀ f, o = Some f → rate_ok f.

(** A quality a client can ask for. *)
Definition quality_ok (q : Quality) : Prop :=
  match q with Custom v => ∃ n, convert_quality n = Some (Custom v) | _ => True end.

Record delay_ok (d : UserDelay) : Prop := mkDelayOk {
  dok_fps : opt_ok (d_fps d);
  dok_level : opt_ok (fps_before_congestion d);
  dok_reference : opt_ok (stall_reference_fps d);
  dok_quick : 0 ≤ quick_increase_fps_count d < 3;
  dok_increase : 0 ≤ increase_fps_count d < 3;
  dok_consecutive : 0 ≤ consecutive_bad_samples d ≤ 3;
  dok_bad : 0 ≤ fps_bad_samples d ≤ 3;
  dok_good : 0 ≤ good_samples d ≤ 3;
  dok_stall : 0 ≤ stall_ticks d ≤ u8_MAX;
  dok_startup : 0 ≤ startup_good_samples d ≤ 1 ∨ startup_good_samples d = u8_MAX;
  dok_replies : ∀ n, replies_after_bitrate_reduction d = Some n → 0 ≤ n ≤ 2;
  dok_restore : ∀ n, samples_since_restore d = Some n → 0 ≤ n ≤ u8_MAX;
  dok_history : (length (delay_history d) ≤ HISTORY_DELAY_LEN)%nat;
}.

Record user_ok (u : UserData) : Prop := mkUserOk {
  uok_custom : opt_ok (custom_fps u);
  uok_auto : opt_ok (auto_adjust_fps u);
  uok_quality : ∀ t q, quality u = Some (t, q) → quality_ok q;
  uok_delay : delay_ok (delay u);
}.

Definition ratio_ok (r : f32) : Prop :=
  BR_MIN_HIGH_RESOLUTION <=f r = true ∧ r <=f BR_MAX = true.

Record qos_ok (q : VideoQoS) : Prop := mkQosOk {
  qok_fps : rate_ok (q_fps q);
  qok_ratio : ratio_ok (q_ratio q);
  qok_users : map_Forall (λ _, user_ok) (users q);
}.

Lemma delay_default_ok : delay_ok delay_default.
Proof. by split; cbn; try lia; try done; try (left; lia); intros ?. Qed.

Lemma user_default_ok : user_ok user_default.
Proof. split; try done. apply delay_default_ok. Qed.

Lemma qos_default_ok linux now : qos_ok (qos_default linux now).
Proof. split; [done|by split|]. apply map_Forall_empty. Qed.

Lemma fps_cap_ok u : rate_ok (fps_cap u).
Proof. apply clamp_bounds. done. Qed.

(** ** The bitrate ratio *)
Lemma custom_ratio_check :
  forallb (λ n, match f32_clamp (f32_of_u32 (n * 2) /f f32_decimal 1000 1) BR_MIN BR_MAX with
                | Some v => (BR_MIN_HIGH_RESOLUTION <=f v) && (v <=f BR_MAX)
                            && (BR_MIN_HIGH_RESOLUTION <=f v *f MAX_BR_MULTIPLE)
                            && (v *f MAX_BR_MULTIPLE <=f BR_MAX)
                | None => false
                end) (seqZ 0 4096) = true.
Proof. vm_compute. reflexivity. Qed.

Lemma quality_bits q : Z.land (Z.shiftr q 8) 0xFFF ∈ seqZ 0 4096.
Proof.
  apply elem_of_seqZ. change 0xFFF with (Z.ones 12). rewrite Z.land_ones by lia.
  pose proof (Z.mod_pos_bound (Z.shiftr q 8) (2 ^ 12) eq_refl). lia.
Qed.

Lemma custom_ratio_ok q v : 
  f32_clamp (f32_of_u32 (Z.land (Z.shiftr q 8) 0xFFF * 2) /f f32_decimal 1000 1) BR_MIN BR_MAX = Some v →
  ratio_ok v ∧ ratio_ok (v *f MAX_BR_MULTIPLE).
Proof.
  intros H. pose proof custom_ratio_check as Hc. rewrite forallb_forall in Hc.
  specialize (Hc _ (proj1 (list_elem_of_In _ _) (quality_bits q))). cbv beta in Hc.
  rewrite H in Hc. unfold ratio_ok. rewrite !andb_true_iff in Hc. naive_solver.
Qed.

Lemma convert_quality_custom n ql :
  convert_quality n = Some ql →
  match ql with
  | Custom v => f32_clamp (f32_of_u32 (Z.land (Z.shiftr n 8) 0xFFF * 2) /f f32_decimal 1000 1)
                          BR_MIN BR_MAX = Some v
  | _ => True
  end.
Proof.
  unfold convert_quality. generalize (f32_of_u32 (Z.land (Z.shiftr n 8) 0xFFF * 2) /f f32_decimal 1000 1).
  intros x. destruct (n =? ImageQuality_Balanced); [by intros [= <-]|].
  destruct (n =? ImageQuality_Low); [by intros [= <-]|].
  destruct (n =? ImageQuality_Best); [by intros [= <-]|].
  intros (v & Hv & ->)%fmap_Some. exact Hv.
Qed.

Lemma convert_quality_total q : ∃ ql, convert_quality q = Some ql ∧ quality_ok ql.
Proof.
  destruct (convert_quality q) as [ql|] eqn:E.
  - exists ql. split; [done|]. destruct ql; try done. by exists q.
  - exfalso. revert E. unfold convert_quality.
    generalize (f32_of_u32 (Z.land (Z.shiftr q 8) 0xFFF * 2) /f f32_decimal 1000 1). intros x.
    do 3 (destruct (q =? _); [done|]). done.
Qed.

Lemma quality_ratio_ok q :
  quality_ok q → ratio_ok (quality_ratio q) ∧ ratio_ok (quality_ratio q *f MAX_BR_MULTIPLE).
Proof.
  destruct q as [| | |v]; intros H; [by vm_compute..|]. destruct H as [n Hn]. cbn [quality_ratio].
  apply (custom_ratio_ok n). exact (convert_quality_custom n _ Hn).
Qed.

Lemma fold_newest_ok l acc t q :
  (∀ t q, acc = Some (t, q) → quality_ok q) → Forall (λ p, quality_ok p.2) l →
  fold_left newest l acc = Some (t, q) → quality_ok q.
Proof.
  revert acc. induction l as [|[t' q'] l IH]; intros acc Ha Hl; cbn [fold_left]; [apply Ha|].
  apply Forall_cons in Hl as [Hq Hl]. apply IH; [|done].
  intros t1 q1. unfold newest. destruct acc as [[t2 q2]|]; [case_match|]; naive_solver.
Qed.

Lemma latest_quality_of_ok l : Forall user_ok l → quality_ok (latest_quality_of l).
Proof.
  intros Hl. unfold latest_quality_of.
  destruct (fold_left newest _ None) as [[t q]|] eqn:E; [|done].
  eapply (fold_newest_ok _ None); [done| |exact E].
  apply Forall_forall. intros [t' q'] Hin. apply list_elem_of_omap in Hin as (u & Hu & Hq).
  rewrite Forall_forall in Hl. by eapply uok_quality; [apply Hl|].
Qed.

Lemma ratio_finite r : ratio_ok r → is_finite r = true.
Proof. intros [H1 H2]. destruct r as [[]|[]| |[] m e]; try done. Qed.

Lemma ratio_reduction_finite d x : ratio_reduction d = Some x → is_finite x = true.
Proof. unfold ratio_reduction. intros H. by repeat case_match; simplify_eq. Qed.

Lemma f32_min_finite a b : is_finite a = true → is_finite b = true → is_finite (f32_min a b) = true.
Proof. unfold f32_min. by repeat case_match. Qed.

Lemma reduction_finite q x : reduction q = Some x → is_finite x = true.
Proof.
  unfold reduction. destruct (omap _ _) as [|y l] eqn:E; [done|]. intros [= <-].
  assert (Forall (λ x, is_finite x = true) (y :: l)) as [Hy Hl]%Forall_cons.
  { rewrite <- E. apply Forall_forall. intros z (u & _ & Hz)%list_elem_of_omap.
    by eapply ratio_reduction_finite. }
  clear E. revert y Hy. induction l as [|z l IH]; intros y Hy; cbn [fold_left]; [done|].
  apply Forall_cons in Hl as [Hz Hl]. apply IH; [done|]. by apply f32_min_finite.
Qed.

Lemma next_ratio_not_nan q m b : ratio_ok (q_ratio q) → is_nan (next_ratio q m b) = false.
Proof.
  intros Hr%ratio_finite. unfold next_ratio.
  set (v := match reduction q with Some _ => _ | None => _ end).
  assert (is_nan v = false) as Hv.
  { subst v. destruct (reduction q) as [x|] eqn:E; [|destruct b].
    - apply f32_mul_finite; [done|]. by eapply reduction_finite.
    - apply f32_mul_finite; [done|]. by repeat case_match.
    - by destruct (q_ratio q). }
  cbv zeta. case_match; [|done]. case_match eqn:E; [|done].
  apply andb_true_iff in E as [[E _]%andb_true_iff _].
  by apply f32_lt_le, f32_le_not_nan in E as [? _].
Qed.

Section Order.
Context (order : gmap Z UserData → list UserData).
Context (order_values : ∀ m, order m ≡ₚ values m).

Lemma latest_quality_ok q : qos_ok q → quality_ok (latest_quality order q).
Proof.
  intros Hq. apply latest_quality_of_ok, Forall_forall. intros u.
  rewrite order_values, elem_of_values. intros [k Hk]. by eapply qok_users.
Qed.

Lemma min_ratio_bounds q :
  quality_ok (latest_quality order q) →
  BR_MIN_HIGH_RESOLUTION <=f min_ratio order q = true ∧
  min_ratio order q <=f quality_ratio (latest_quality order q) *f MAX_BR_MULTIPLE = true.
Proof.
  intros Hok. unfold min_ratio. set (r := if 0 <? bitrate q then _ else None). cbv zeta.
  assert (∀ m, is_nan m = false → lower r m <=f m = true) as Hl.
  { intros m Hm. unfold lower. destruct r; [|by apply f32_le_refl].
    case_match; [by apply f32_lt_le|by apply f32_le_refl]. }
  destruct (latest_quality order q) eqn:E.
  - apply f32_max_bounds; [by vm_compute| |by vm_compute].
    eapply f32_le_trans; [by apply Hl; vm_compute|by vm_compute].
  - apply f32_max_bounds; [by vm_compute| |by vm_compute].
    eapply f32_le_trans; [by apply Hl; vm_compute|by vm_compute].
  - split; by vm_compute.
  - split; [by vm_compute|]. by destruct (quality_ratio_ok _ Hok) as [_ [? _]].
Qed.

(** [clamp] does not panic, and its result is in range. *)
Lemma clamped_ratio_ok q m b :
  qos_ok q →
  ∃ r, f32_clamp (next_ratio q m b) (min_ratio order q)
         (quality_ratio (latest_quality order q) *f MAX_BR_MULTIPLE) = Some r ∧ ratio_ok r.
Proof.
  intros Hq. pose proof (latest_quality_ok q Hq) as Hl.
  destruct (min_ratio_bounds q Hl) as [Hmin Hle].
  destruct (f32_clamp_bounds (next_ratio q m b) _ _ (next_ratio_not_nan _ m b (qok_ratio q Hq)) Hle)
    as (r & Hr & H1 & H2).
  exists r. split; [done|]. destruct (quality_ratio_ok _ Hl) as [_ [_ Hmax]].
  split; by eapply f32_le_trans.
Qed.
End Order.

(** ** One viewer's reply *)
Ltac delay_ok_tac :=
  split; unfold update; cbn;
  first [done | assumption | lia | (left; lia) | (right; reflexivity)
        | (intros ? [= <-]; first [lia | assumption | done])
        | (intros ? (? & Hk & ->)%fmap_Some;
           match goal with H : ∀ n, _ = Some n → _ |- _ => specialize (H _ Hk); lia end)
        | idtac].

Lemma on_reduction_ok d cur : delay_ok d → rate_ok cur → delay_ok (on_reduction d cur).
Proof.
  intros [] Hc. unfold on_reduction. delay_ok_tac.
  by destruct (fps_before_congestion d); [|intros ? [= <-]].
Qed.

Lemma recover_spec d cur fps :
  delay_ok d → rate_ok cur →
  delay_ok (recover d cur fps).2 ∧ cur ≤ (recover d cur fps).1 ∧
  rtt_calculator (recover d cur fps).2 = rtt_calculator d ∧
  startup_good_samples (recover d cur fps).2 = startup_good_samples d ∧
  fps_bad_samples (recover d cur fps).2 = fps_bad_samples d.
Proof.
  intros Hd Hc. pose proof Hd as []. unfold recover.
  destruct (fps_before_congestion d) as [l|] eqn:El; cbn [mbind option_bind]; cbv zeta.
  - destruct (Z.ltb_spec cur l); cbv zeta; case_match; cbn [fst snd]; split_and!; try done; try lia;
      delay_ok_tac; try (by intros ? ->); unfold u8_MAX, u8_max; intros ? [= <-]; lia.
  - case_match; cbn [fst snd]; split_and!; try done; try lia; delay_ok_tac.
Qed.

(** A level restored at most four replies ago may be rolled back at 600 ms. *)
Definition restored_before (d : UserDelay) : Prop :=
  ∃ n, samples_since_restore d = Some n ∧ n < RESTORE_GUARD_SAMPLES.

(** What permits a reply to lower the target [cur] to [f]. *)
Definition reduction_allowed (d : UserDelay) (e cur f : Z) (bitrate_first : bool) : Prop :=
  ((1000 ≤ e ∨ (600 ≤ e ∧ restored_before d)) ∧ cur - Z.max (cur / 2) 1 ≤ f) ∨
  (2 ≤ fps_bad_samples d ∧ cur - Z.max (cur / 5) 1 ≤ f ∧
   (bitrate_first = true → ∃ n, replies_after_bitrate_reduction d = Some n ∧ 1 ≤ n)).

Record limit_result (d d' : UserDelay) (e cur f : Z) (bitrate_first braked : bool) : Prop :=
  mkLimitResult {
    lr_ok : delay_ok d';
    lr_rtt : rtt_calculator d' = rtt_calculator d;
    lr_bad : fps_bad_samples d' = 0 ∨ (DELAY_THRESHOLD_150MS ≤ e ∧ fps_bad_samples d' ≤ fps_bad_samples d + 1);
    lr_good : e < DELAY_THRESHOLD_150MS → cur ≤ f;
    lr_not_up : DELAY_THRESHOLD_150MS ≤ e → f ≤ cur;
    lr_down : f < cur → braked = false ∧ reduction_allowed d e cur f bitrate_first;
  }.

Lemma restored_lately_incr d n :
  restored_lately (d <| samples_since_restore := saturating_add u8_max 1 <$> n |>) = true →
  ∃ k, n = Some k ∧ k < RESTORE_GUARD_SAMPLES.
Proof.
  unfold restored_lately. destruct n as [k|]; cbn; [|done].
  unfold saturating_add, RESTORE_GUARD_SAMPLES, u8_max. intros H. exists k. split; [done|]. lia.
Qed.

Lemma limit_spec d cur fps x bf br :
  delay_ok d → rate_ok cur →
  let r := limit_fps_change d cur fps x bf br in
  limit_result d r.2 (excess_delay d x) cur r.1 bf br.
Proof.
  intros Hd Hc. cbv zeta. unfold limit_fps_change.
  set (e := excess_delay d x). cbv zeta.
  set (d1 := d <| samples_since_restore := _ |>).
  assert (delay_ok d1) as Hd1.
  { subst d1. destruct Hd. delay_ok_tac. intros n (k & Hk & ->)%fmap_Some.
    specialize (dok_restore0 _ Hk). unfold saturating_add, u8_MAX, u8_max in *. lia. }
  assert (restored_lately d1 = true → restored_before d) as Hrl.
  { intros H. by apply restored_lately_incr in H. }
  assert (rtt_calculator d1 = rtt_calculator d ∧ fps_bad_samples d1 = fps_bad_samples d ∧
          replies_after_bitrate_reduction d1 = replies_after_bitrate_reduction d) as (R1 & B1 & P1) by done.
  clearbody d1. destruct (Z.ltb_spec e DELAY_THRESHOLD_150MS) as [He|He].
  - set (d2 := d1 <| consecutive_bad_samples := 0 |> <| fps_bad_samples := 0 |>
                  <| replies_after_bitrate_reduction := None |>
                  <| good_samples := Z.min (good_samples d1 + 1) 3 |>).
    assert (delay_ok d2) as Hd2 by (destruct Hd1; delay_ok_tac).
    destruct (recover_spec d2 cur fps Hd2 Hc) as (Hok & Hle & Hr & _ & Hb).
    split; try done; try lia; [by rewrite Hr|left; by rewrite Hb].
  - set (d2 := d1 <| consecutive_bad_samples := _ |> <| fps_bad_samples := _ |>
                  <| replies_after_bitrate_reduction := _ |>).
    assert (delay_ok d2) as Hd2.
    { destruct Hd1. subst d2. delay_ok_tac. }
    assert (restored_lately d2 = restored_lately d1) as Hrl2 by done.
    assert (fps_bad_samples d2 = Z.min (fps_bad_samples d + 1) 3) as B2 by (subst d2; cbn; by rewrite B1).
    assert (replies_after_bitrate_reduction d2 =
            (λ n, Z.min (n + 1) 2) <$> replies_after_bitrate_reduction d) as P2 by (subst d2; cbn; by rewrite P1).
    assert (rtt_calculator d2 = rtt_calculator d) as R2 by done.
    rewrite Hrl2. clearbody d2.
    set (d3 := if restored_lately d1 && _ then _ else d2).
    assert (delay_ok d3 ∧ rtt_calculator d3 = rtt_calculator d2 ∧ fps_bad_samples d3 = fps_bad_samples d2 ∧
            replies_after_bitrate_reduction d3 = replies_after_bitrate_reduction d2) as (Hd3 & R3 & B3 & P3).
    { subst d3. case_match; [|done]. split_and!; [|done..]. destruct Hd2. delay_ok_tac.
      intros ? [= <-]. unfold rate_ok, MIN_FPS, MAX_FPS in *.
      Z.div_mod_to_equations; lia. }
    clearbody d3. rewrite R2 in R3. rewrite B2 in B3. rewrite P2 in P3. clear Hd1 Hd2 B2 P2 R2.
    unfold DELAY_THRESHOLD_150MS in He.
    destruct ((cur <=? fps) || br) eqn:E1; [by split; cbn [fst snd]; try done; intros; try lia; unfold DELAY_THRESHOLD_150MS; right; lia|].
    apply orb_false_iff in E1 as [E1 ->].
    case_match eqn:E2; [by split; cbn [fst snd]; try done; intros; try lia; unfold DELAY_THRESHOLD_150MS; right; lia|].
    cbn [fst snd]. split; try done; try (unfold DELAY_THRESHOLD_150MS; intros; lia).
    + by apply on_reduction_ok.
    + by left.
    + intros _. apply Z.max_lub; [lia|]. unfold saturating_sub. destruct Hc. unfold MIN_FPS in *. lia.
    + intros _. split; [done|]. unfold reduction_allowed.
      rewrite B3, P3 in E2. apply andb_false_iff in E2.
      destruct (decide (1000 ≤ e)) as [H1|H1].
      { left. split; [by left|]. rewrite (proj2 (Z.leb_le _ _) H1). cbn [orb]. unfold saturating_sub. lia. }
      rewrite (proj2 (Z.leb_gt 1000 e)) by lia. cbn [orb].
      destruct ((600 <=? e) && restored_lately d1) eqn:E3.
      { apply andb_true_iff in E3 as [E3 E4]. left. split; [right; split; [lia|by apply Hrl]|].
        unfold saturating_sub. lia. }
      destruct E2 as [[E2|E2]%andb_false_iff|E2]; [done|lia|].
      apply orb_false_iff in E2 as [E2 E4]. right. split_and!; [lia|unfold saturating_sub; lia|].
      intros ->. cbn [andb] in E4. destruct (replies_after_bitrate_reduction d) as [n|]; cbn in E4; [|done].
      exists n. split; [done|]. lia.
Qed.

Lemma accelerate_spec d cur fps cap x br :
  delay_ok d → rate_ok cur →
  let r := accelerate_startup d cur fps cap x br in
  delay_ok r.2 ∧ rtt_calculator r.2 = rtt_calculator d ∧
  fps_bad_samples r.2 = fps_bad_samples d ∧ Z.min fps cap ≤ r.1 ∧
  (50 ≤ excess_delay d x → r.1 = fps).
Proof.
  intros Hd Hc. cbv zeta. unfold accelerate_startup.
  destruct (Z.eqb_spec (startup_good_samples d) u8_MAX) as [E|E]; [cbn; split_and!; try done; lia|].
  destruct (br || _ || _) eqn:E1; cbn [fst snd].
  { split_and!; try done; try lia. destruct Hd. delay_ok_tac. }
  apply orb_false_iff in E1 as [[_ E1]%orb_false_iff _]. cbv zeta.
  pose proof Hd as [].
  destruct (Z.ltb_spec (startup_good_samples (d <| startup_good_samples := startup_good_samples d + 1 |>)) 2)
    as [E2|E2]; cbn in E2; cbn [fst snd].
  - split_and!; try done; try lia. delay_ok_tac.
  - case_match; split_and!; try done; try lia; delay_ok_tac.
Qed.

Lemma wanted_fps_quick min_fps normal_fps fps avg old_avg quick :
  0 ≤ quick < 3 → 0 ≤ (wanted_fps min_fps normal_fps fps avg old_avg quick).2 < 3.
Proof.
  unfold wanted_fps. intros H. cbv zeta.
  destruct (avg <? 50); [destruct (Z.leb_spec 3 (quick + 1)); cbn; lia|].
  by repeat case_match.
Qed.

(** The viewer's target, also before its first reply. *)
Definition target (u : UserData) : Z := default (Z.min INIT_FPS (fps_cap u)) (d_fps (delay u)).

(** The delay above the baseline that a reply of [x] milliseconds showed. *)
Definition reply_excess (u' : UserData) (x : Z) : Z := excess_delay (delay u') (Z.max x 10).

Lemma target_ok u : user_ok u → rate_ok (target u).
Proof.
  intros [_ _ _ []]. unfold target. destruct (d_fps (delay u)) as [f|] eqn:E; cbn; [by apply dok_fps0|].
  pose proof (fps_cap_ok u). unfold rate_ok, INIT_FPS, MIN_FPS, MAX_FPS in *. lia.
Qed.

Record reply_result (u u' : UserData) (x : Z) (bitrate_first : bool) : Prop := mkReplyResult {
  rr_ok : user_ok u';
  rr_cap : fps_cap u' = fps_cap u;
  rr_target : is_Some (d_fps (delay u'));
  rr_capped : target u' ≤ fps_cap u;
  rr_bad : fps_bad_samples (delay u') = 0 ∨
           (DELAY_THRESHOLD_150MS ≤ reply_excess u' x ∧
            fps_bad_samples (delay u') ≤ fps_bad_samples (delay u) + 1);
  rr_good : reply_excess u' x < DELAY_THRESHOLD_150MS → Z.min (target u) (fps_cap u) ≤ target u';
  rr_not_up : DELAY_THRESHOLD_150MS ≤ reply_excess u' x → target u' ≤ Z.min (target u) (fps_cap u);
  rr_down : target u' < Z.min (target u) (fps_cap u) →
            stall_reference_fps (delay u) = None ∧
            reduction_allowed (delay u) (reply_excess u' x) (target u) (target u') bitrate_first;
}.

Lemma reply_spec levels bf u x :
  user_ok u → reply_result u (reply levels bf u x).1.1 x bf.
Proof.
  intros Hu. destruct levels as [min_fps normal_fps]. unfold reply.
  pose proof (fps_cap_ok u) as Hcap. pose proof (target_ok u Hu) as Ht.
  set (dl := Z.max x 10). set (braked := bool_decide (is_Some (stall_reference_fps (delay u)))).
  set (d1 := (delay u) <| stall_ticks := 0 |> <| stall_reference_fps := None |>). cbv zeta.
  set (d2 := if braked then d1 else _). set (d3 := add_delay d2 dl).
  assert (delay_ok d3 ∧ fps_bad_samples d3 = fps_bad_samples (delay u) ∧
          samples_since_restore d3 = samples_since_restore (delay u) ∧
          replies_after_bitrate_reduction d3 = replies_after_bitrate_reduction (delay u) ∧
          d_fps d3 = d_fps (delay u)) as (Hd3 & B3 & S3 & P3 & F3).
  { destruct Hu as [_ _ _ []]. subst d3 d2 d1. destruct braked; split_and!; try done;
      unfold add_delay; delay_ok_tac; unfold push_bounded, HISTORY_DELAY_LEN in *;
      case_bool_decide; rewrite length_app; cbn; try (rewrite length_tl); lia. }
  clearbody d3. rewrite F3. change (default _ (d_fps (delay u))) with (target u).
  set (avg := Z.max (avg_delay d3) 10).
  pose proof (wanted_fps_quick min_fps normal_fps (target u) avg (avg_delay d1)
    (quick_increase_fps_count d3) (dok_quick _ Hd3)) as Hq.
  destruct (wanted_fps _ _ _ _ _ _) as [f1 quick]. cbn [fst snd] in Hq |- *.
  set (d4 := d3 <| quick_increase_fps_count := quick |>).
  set (d5 := d4 <| increase_fps_count := _ |>).
  set (fd := if 3 <=? increase_fps_count d5 then _ else _).
  assert (delay_ok fd.2 ∧ fps_bad_samples fd.2 = fps_bad_samples d3 ∧
          samples_since_restore fd.2 = samples_since_restore d3 ∧
          replies_after_bitrate_reduction fd.2 = replies_after_bitrate_reduction d3)
    as (Hd6 & B6 & S6 & P6).
  { destruct Hd3. subst fd d5 d4. destruct (Z.leb_spec 3 (increase_fps_count
      (d3 <| quick_increase_fps_count := quick |>
          <| increase_fps_count := if avg <? DELAY_THRESHOLD_150MS then increase_fps_count
               (d3 <| quick_increase_fps_count := quick |>) + 1 else 0 |>))) as [H|H]; cbn in H; cbn [snd];
      split_and!; try done; delay_ok_tac. split; [case_match; lia|done]. }
  clearbody fd. destruct fd as [f2 d6]. cbn [snd] in *.
  set (d7 := if 50 <? avg then _ else d6).
  assert (delay_ok d7 ∧ fps_bad_samples d7 = fps_bad_samples d6 ∧
          samples_since_restore d7 = samples_since_restore d6 ∧
          replies_after_bitrate_reduction d7 = replies_after_bitrate_reduction d6)
    as (Hd7 & B7 & S7 & P7).
  { subst d7. case_match; [|done]. split_and!; try done. destruct Hd6. delay_ok_tac. }
  clearbody d7.
  assert (∀ e f, reduction_allowed d7 e (target u) f bf → reduction_allowed (delay u) e (target u) f bf) as Hra.
  { intros e f. unfold reduction_allowed, restored_before. by rewrite B7, B6, B3, S7, S6, S3, P7, P6, P3. }
  set (f3 := Z.max _ _).
  pose proof (limit_spec d7 (target u) f3 dl bf braked Hd7 Ht) as [Hd8 R8 B8 G8 N8 D8].
  destruct (limit_fps_change _ _ _ _ _ _) as [f4 d8]. cbn [fst snd] in *.
  pose proof (accelerate_spec d8 (target u) f4 (fps_cap u) dl braked Hd8 Ht) as (Hd9 & R9 & B9 & G9 & N9).
  destruct (accelerate_startup _ _ _ _ _ _) as [f5 d9]. cbn [fst snd] in *.
  set (u' := u <| delay := d9 <| d_fps := Some (clamp f5 MIN_FPS (fps_cap u)) |> |>).
  assert (target u' = clamp f5 MIN_FPS (fps_cap u)) as Htg by done.
  assert (reply_excess u' x = excess_delay d7 dl) as He.
  { unfold reply_excess, excess_delay. subst u'. cbn. by rewrite R9, R8. }
  assert (excess_delay d8 dl = excess_delay d7 dl) as He8 by (unfold excess_delay; by rewrite R8).
  assert (user_ok u') as Hok.
  { destruct Hu. subst u'. split; try done. cbn. destruct Hd9. delay_ok_tac. intros ? [= <-].
    pose proof (clamp_bounds f5 MIN_FPS (fps_cap u)). unfold rate_ok in *. lia. }
  assert (clamp f5 MIN_FPS (fps_cap u) = Z.max 1 (Z.min f5 (fps_cap u))) as Hcl.
  { unfold clamp, rate_ok, MIN_FPS in *. bool_cases; lia. }
  unfold rate_ok, MIN_FPS, MAX_FPS, DELAY_THRESHOLD_150MS in *.
  split; try rewrite Htg; try rewrite He; try done; rewrite ?Hcl;
    unfold DELAY_THRESHOLD_150MS; try lia.
  - change (fps_bad_samples (delay u')) with (fps_bad_samples d9). rewrite B9.
    destruct B8 as [?|[? ?]]; [by left|right]. split; [done|]. by rewrite <- B3, <- B6, <- B7.
  - intros Hd. assert (f5 < target u ∧ target u ≤ 120) as [H5 _] by lia.
    assert (f4 < target u) as H4 by lia. destruct (D8 H4) as [Hbr Hral]. split.
    + subst braked. apply bool_decide_eq_false, eq_None_not_Some in Hbr. done.
    + apply Hra. destruct (Z.lt_ge_cases (excess_delay d7 dl) 50) as [Hlo|Hhi]; [lia|].
      rewrite (N9 ltac:(lia)) in *. destruct Hral as [[? ?]|(? & ? & ?)]; [left|right]; split_and!; try done; lia.
Qed.

(** ** The controller's operations keep the state well formed *)
Lemma stalled_ok u e : user_ok u → user_ok (stalled u e) ∧ fps_cap (stalled u e) = fps_cap u.
Proof.
  intros Hu. pose proof (fps_cap_ok u) as Hcap. pose proof (target_ok u Hu) as Ht.
  destruct Hu as [Hcu Hau Hqu Hd]. unfold stalled.
  set (d1 := (delay u) <| stall_ticks := _ |>). set (d2 := add_delay d1 _).
  assert (delay_ok d2) as Hd2.
  { destruct Hd. subst d2 d1. unfold add_delay. delay_ok_tac.
    - unfold saturating_add, u8_MAX, u8_max in *. lia.
    - unfold push_bounded, HISTORY_DELAY_LEN in *.
      case_bool_decide; rewrite length_app; cbn; try (rewrite length_tl); lia. }
  assert (d_fps d2 = d_fps (delay u)) as F2 by done. clearbody d2.
  rewrite F2. change (default (Z.min INIT_FPS (fps_cap u)) (d_fps (delay u))) with (target u).
  set (rd := match stall_reference_fps d2 with Some _ => _ | None => _ end).
  assert (rate_ok rd.1 ∧ delay_ok rd.2 ∧ d_fps rd.2 = d_fps (delay u)) as (H1 & H2 & H3).
  { subst rd. destruct (stall_reference_fps d2) as [r|] eqn:E; cbn [fst snd].
    - split; [by eapply dok_reference|done].
    - split; [done|]. split; [|done]. apply on_reduction_ok; [|done]. destruct Hd2. delay_ok_tac. }
  clearbody rd. destruct rd as [reference d3]. cbn [fst snd] in *.
  split; [|done]. split; try done. cbn. destruct H2. delay_ok_tac. intros ? [= <-].
  set (k := reference / _). assert (1 ≤ default reference (d_fps d3) ≤ 120) as Hc.
  { destruct (d_fps d3) eqn:E; cbn; [by eapply dok_fps0|done]. }
  assert (Z.min MIN_AUTO_FPS (fps_cap u) ≤ fps_cap u) as Hm by lia.
  pose proof (clamp_bounds k _ _ Hm). unfold rate_ok, MIN_FPS, MAX_FPS, MIN_AUTO_FPS in *. lia.
Qed.

Lemma adjust_fps_ok q now :
  qos_ok q → qos_ok (adjust_fps q now) ∧
  map_Forall (λ _ u, q_fps (adjust_fps q now) ≤ fps_cap u) (users (adjust_fps q now)).
Proof.
  intros []. unfold adjust_fps. set (f := if existsb _ _ then _ else _).
  assert (rate_ok (highest_fps q)) as Hh by (by apply clamp_bounds).
  pose proof (clamp_bounds f MIN_FPS (highest_fps q) (proj1 Hh)) as Hf.
  split.
  - split; try done. cbn. unfold rate_ok in *. lia.
  - intros id u Hu. cbn in *. etrans; [apply Hf|].
    unfold highest_fps. destruct (list_min (fps_cap <$> values (users q))) as [m|] eqn:E; cbn.
    + apply list_min_Some in E as [Hin Hle].
      assert (m ≤ fps_cap u) as Hmu.
      { apply Hle. apply list_elem_of_fmap. exists u. split; [done|]. apply elem_of_values. eauto. }
      assert (rate_ok m) as Hm by (apply list_elem_of_fmap in Hin as (? & -> & _); apply fps_cap_ok).
      by rewrite clamp_id.
    + exfalso. assert (u ∈ values (users q)) as Hin by (apply elem_of_values; eauto).
      by destruct (values (users q)); [apply not_elem_of_nil in Hin|].
Qed.

Lemma with_user_ok q id f :
  qos_ok q → (∀ u, user_ok u → user_ok (f u)) → qos_ok (with_user q id f).
Proof.
  intros [Hf Hr Hu] H. split; try done. cbn. intros id' u'.
  destruct (decide (id = id')) as [<-|].
  - rewrite lookup_alter_eq. intros (u & Hl & ->)%fmap_Some. apply H. by eapply Hu.
  - rewrite lookup_alter_ne by done. apply Hu.
Qed.

Lemma insert_user_ok q id u :
  qos_ok q → user_ok u → qos_ok (q <| users := <[id := u]> (users q) |>).
Proof. intros [] ?. split; try done. cbn. by apply map_Forall_insert_2. Qed.

(** The part of a viewer that decides its frame rate. *)
Definition same_rates (u u' : UserData) : Prop :=
  fps_cap u' = fps_cap u ∧ target u' = target u ∧ d_fps (delay u') = d_fps (delay u).

Section Events.
Context (order : gmap Z UserData → list UserData).
Context (order_values : ∀ m, order m ≡ₚ values m).

(** An adjustment of the ratio neither panics nor touches a frame rate. *)
Lemma adjust_ratio_spec q now b :
  qos_ok q →
  ∃ q', adjust_ratio order q now b = Some q' ∧ qos_ok q' ∧ q_fps q' = q_fps q ∧
    (∀ id u', users q' !! id = Some u' → ∃ u, users q !! id = Some u ∧ same_rates u u') ∧
    (∀ id u, users q !! id = Some u → ∃ u', users q' !! id = Some u' ∧ same_rates u u').
Proof.
  intros Hq. unfold adjust_ratio.
  assert (∀ q' : VideoQoS, users q' = users q →
    (∀ id u', users q' !! id = Some u' → ∃ u, users q !! id = Some u ∧ same_rates u u') ∧
    (∀ id u, users q !! id = Some u → ∃ u', users q' !! id = Some u' ∧ same_rates u u')) as Hsame.
  { intros q' Hu. rewrite Hu. split; intros id u ?; by exists u. }
  destruct (negb (in_vbr_state q)); [exists q; split_and!; try done; by apply Hsame|].
  destruct (list_max _) as [m|]; [|exists q; split_and!; try done; by apply Hsame].
  case_match.
  { eexists. split; [done|]. split; [by destruct Hq|]. split; [done|]. by apply Hsame. }
  cbv zeta. destruct (clamped_ratio_ok order order_values q m b Hq) as (r & Hr & Hok).
  rewrite Hr. cbn [mbind option_bind]. eexists. split; [done|].
  set (mark := λ u : UserData, if needs_bitrate_reduction (delay u) && _ then _ else u).
  assert (∀ u, same_rates u (mark u) ∧ (user_ok u → user_ok (mark u))) as Hmark.
  { intros u. subst mark. cbv beta. case_match; [|done]. split; [done|]. intros [Hc Ha Hql Hd].
    split; try done. cbn. destruct Hd. delay_ok_tac. intros ? [= <-]. case_match; lia. }
  clearbody mark. destruct Hq as [Hf Hrt Hu].
  destruct (reduction q); cbn.
  - split_and!; try done.
    + split; try done. cbn. intros id u'. rewrite lookup_fmap, fmap_Some.
      intros (u & Hl & ->). apply Hmark. by eapply Hu.
    + intros id u'. rewrite lookup_fmap, fmap_Some. intros (u & Hl & ->). exists u. split; [done|]. apply Hmark.
    + intros id u Hl. rewrite lookup_fmap, Hl. cbn. eexists. split; [done|]. apply Hmark.
  - split_and!; try done; by apply Hsame.
Qed.

Lemma adjust_ratio_if q now (c : bool) :
  qos_ok q →
  ∃ q', (if c then adjust_ratio order q now false else Some q) = Some q' ∧ qos_ok q' ∧
    q_fps q' = q_fps q ∧
    (∀ id u', users q' !! id = Some u' → ∃ u, users q !! id = Some u ∧ same_rates u u') ∧
    (∀ id u, users q !! id = Some u → ∃ u', users q' !! id = Some u' ∧ same_rates u u').
Proof.
  intros Hq. destruct c; [by apply adjust_ratio_spec|].
  exists q. split_and!; try done; intros id u ?; by exists u.
Qed.

Lemma same_rates_trans u v w : same_rates u v → same_rates v w → same_rates u w.
Proof. intros (? & ? & ?) (? & ? & ?). split_and!; congruence. Qed.

(** The frame rate is at most what each viewer asked for. *)
Definition capped (q : VideoQoS) : Prop := map_Forall (λ _ u, q_fps q ≤ fps_cap u) (users q).

Lemma user_network_delay_spec q id x now :
  qos_ok q →
  ∃ q', user_network_delay order q id x now = Some q' ∧ qos_ok q' ∧ capped q' ∧
    (∀ u, users q !! id = Some u →
       let r := (reply (fps_levels (quality_ratio (latest_quality order q)))
                       (can_reduce_bitrate order q) u x).1.1 in
       ∃ u', reply_result u r x (can_reduce_bitrate order q) ∧
             users q' !! id = Some u' ∧ same_rates r u') ∧
    (∀ id' u, id' ≠ id → users q !! id' = Some u → ∃ u', users q' !! id' = Some u' ∧ same_rates u u').
Proof.
  intros Hq. unfold user_network_delay.
  set (levels := fps_levels _). set (bf := can_reduce_bitrate order q).
  set (step := match users q !! id with Some _ => _ | None => _ end). cbv zeta.
  assert (qos_ok step.1.1 ∧
    (∀ u, users q !! id = Some u → users step.1.1 !! id = Some (reply levels bf u x).1.1) ∧
    (∀ id' u, id' ≠ id → users q !! id' = Some u → users step.1.1 !! id' = Some u)) as (Hq1 & Hid & Hne).
  { subst step. destruct (users q !! id) as [u|] eqn:E;
      [|split; [exact Hq|]; split; [by intros ? [=]|by intros; assumption]].
    pose proof (reply_spec levels bf u x (qok_users _ Hq _ _ E)) as Hr.
    destruct (reply levels bf u x) as [[v rb] first] eqn:Er. cbn [fst] in *. split_and!.
    - apply insert_user_ok; [done|apply Hr].
    - intros ? [= <-]. rewrite Er. apply lookup_insert_eq.
    - intros id' u' Hn Hu. etrans; [|exact Hu]. by apply lookup_insert_ne. }
  clearbody step. destruct step as [[q1 rb] first]. cbn [fst] in *.
  destruct (adjust_fps_ok q1 now Hq1) as [Hq2 Hcap]. 
  destruct (adjust_ratio_if (adjust_fps q1 now) now
    (first && first_reply_adjusts_ratio (adjust_fps q1 now) &&
     (ADJUST_RATIO_INTERVAL <=? since_secs now (adjust_ratio_instant (adjust_fps q1 now)))) Hq2)
    as (q3 & E3 & Hq3 & F3 & B3 & S3).
  rewrite E3. cbn [mbind option_bind].
  destruct (adjust_ratio_if q3 now
    (rb && (ADJUST_RATIO_INTERVAL <=? since_secs now (adjust_ratio_instant q3))) Hq3)
    as (q4 & E4 & Hq4 & F4 & B4 & S4).
  rewrite E4. exists q4. split; [done|]. split; [done|].
  assert (∀ id u, users q1 !! id = Some u → ∃ u', users q4 !! id = Some u' ∧ same_rates u u') as S.
  { intros id' u Hu. destruct (S3 id' u Hu) as (u1 & H1 & R1). destruct (S4 id' u1 H1) as (u2 & H2 & R2).
    exists u2. split; [done|]. by eapply same_rates_trans. }
  split_and!.
  - intros id' u Hu. destruct (B4 _ _ Hu) as (u1 & H1 & R1). destruct (B3 _ _ H1) as (u2 & H2 & R2).
    rewrite F4, F3. destruct (same_rates_trans _ _ _ R2 R1) as [-> _]. by eapply Hcap.
  - intros u Hu. destruct (S _ _ (Hid u Hu)) as (u' & Hu' & R). exists u'.
    split; [|split; [exact Hu'|exact R]]. apply reply_spec. exact (qok_users _ Hq _ _ Hu).
  - intros id' u Hn Hu. apply S. by apply Hne.
Qed.

Lemma handle_spec linux q e :
  qos_ok q →
  ∃ q', handle order linux q e = Some q' ∧ qos_ok q' ∧
    match e with
    | ConnectionClose _ _ | UserNetworkDelay _ _ _ | UpdateDisplayData _ _ _ => capped q'
    | UserDelayResponseElapsed id elapsed _ =>
        2000 < elapsed → is_Some (users q !! id) → capped q'
    | _ => True
    end.
Proof.
  intros Hq. destruct e; cbn [handle].
  - eexists. split; [done|]. split; [|done]. destruct Hq. split; try done. cbn.
    apply map_Forall_insert_2; [|done]. split; try done. apply delay_default_ok.
  - eexists. split; [done|]. unfold on_connection_close. case_bool_decide as E.
    + split; [apply qos_default_ok|apply map_Forall_empty].
    + apply adjust_fps_ok. destruct Hq. split; try done. cbn. by apply map_Forall_delete.
  - eexists. split; [done|]. split; [|done]. unfold user_custom_fps.
    case_match eqn:E; [done|]. apply with_user_ok; [done|]. intros u []. split; try done. cbn.
    intros ? [= <-]. unfold rate_ok. lia.
  - eexists. split; [done|]. split; [|done]. unfold user_auto_adjust_fps.
    case_match eqn:E; [done|]. apply with_user_ok; [done|]. intros u []. split; try done. cbn.
    intros ? [= <-]. unfold rate_ok. lia.
  - unfold user_image_quality. destruct (convert_quality_total image_quality) as (ql & -> & Hql).
    cbn [mbind option_bind]. destruct (users q !! id); [|by exists q].
    eexists. split; [done|]. split; [|done].
    assert (qos_ok (with_user q id (λ u, u <| quality := Some (time, ql) |>))) as Hq'.
    { apply with_user_ok; [done|]. intros v []. split; try done. cbn. by intros ?? [= <- <-]. }
    pose proof (quality_ratio_ok _ (latest_quality_ok order order_values _ Hq')) as [Hr _].
    by destruct Hq'.
  - eexists. split; [done|]. split; [|done]. apply with_user_ok; [done|]. by intros u [].
  - destruct (user_network_delay_spec q id delay0 now Hq) as (q' & ? & ? & ? & _). by exists q'.
  - eexists. split; [done|]. unfold user_delay_response_elapsed.
    destruct (users q !! id) as [u|] eqn:E; [|split; [done|by intros _ []]].
    destruct (Z.leb_spec elapsed 2000); [split; [done|lia]|].
    destruct (adjust_fps_ok (q <| users := <[id := stalled u elapsed]> (users q) |>) now) as [??]; [|done].
    apply insert_user_ok; [done|]. apply stalled_ok. exact (qok_users _ Hq _ _ E).
  - eexists. split; [done|]. split; [|done]. by destruct Hq.
  - eexists. split; [done|]. split; [|done]. by destruct Hq.
  - unfold update_display_data. set (q1 := with_display _ _ _).
    assert (qos_ok q1) as Hq1 by (by destruct Hq). clearbody q1.
    destruct (adjust_fps_ok q1 now Hq1) as [Hq2 Hcap]. cbv zeta.
    destruct (in_vbr_state (adjust_fps q1 now)); [case_match|].
    + destruct (adjust_ratio_spec (adjust_fps q1 now) now (existsb (λ d : DisplayData,
        ADJUST_RATIO_INTERVAL * DYNAMIC_SCREEN_THRESHOLD <=? send_counter d)
          (values (displays (adjust_fps q1 now)))) Hq2) as (q3 & E3 & Hq3 & F3 & B3 & _).
      exists q3. split_and!; [done|done|]. intros id u Hu. destruct (B3 _ _ Hu) as (v & Hv & -> & _).
      rewrite F3. by eapply Hcap.
    + by eexists.
    + eexists. split; [done|]. split; [|done].
      pose proof (quality_ratio_ok _ (latest_quality_ok order order_values _ Hq2)) as [Hr _].
      by destruct Hq2.
  - eexists. split; [done|]. split; [|done]. by destruct Hq.
  - eexists. split; [done|]. split; [|done]. by destruct Hq.
  - eexists. split; [done|]. split; [|done]. unfold ratio. cbn [snd]. case_match; [|done].
    destruct Hq. split; try done.
Qed.

Lemma qos_run_ok linux q es : qos_ok q → ∃ q', run order linux q es = Some q' ∧ qos_ok q'.
Proof.
  revert q. induction es as [|e es IH]; intros q Hq; cbn [run]; [by exists q|].
  destruct (handle_spec linux q e Hq) as (q1 & -> & Hq1 & _). by apply IH.
Qed.
End Events.

(** ** Properties *)

(** The calls after which the frame rate follows the viewers' limits. *)
Definition adjusts (q : VideoQoS) (e : Event) : Prop :=
  match e with
  | ConnectionClose _ _ | UserNetworkDelay _ _ _ | UpdateDisplayData _ _ _ => True
  | UserDelayResponseElapsed id elapsed _ => 2000 < elapsed ∧ is_Some (users q !! id)
  | _ => False
  end.


(** What one reply of a viewer does to the frame rates.  With [e] its
    delay above the baseline: below 150 ms the viewer's target is not lowered;
    from 150 ms on it is not raised, and it is lowered only when the reply does
    not belong to a stall that was already braked, and either [e] reaches a second
    (or 600 ms soon after a restore), then by at most a half, or it is the third
    bad reply since the last reduction (and the second since the bitrate was
    reduced, while that is possible), then by at most a fifth.  The target stays
    within the viewer's limit, and no other viewer's target or limit changes. *)
Theorem reply_reaction order linux now es q id x t u :
  (∀ m, order m ≡ₚ values m) →
  run order linux (qos_default linux now) es = Some q → users q !! id = Some u →
  let bitrate_first := can_reduce_bitrate order q in
  let r := (reply (fps_levels (quality_ratio (latest_quality order q))) bitrate_first u x).1.1 in
  let e := reply_excess r x in
  let old := Z.min (target u) (fps_cap u) in
  ∃ q' u', user_network_delay order q id x t = Some q' ∧ users q' !! id = Some u' ∧
    target u' ≤ fps_cap u ∧ fps_cap u' = fps_cap u ∧
    (e < DELAY_THRESHOLD_150MS → old ≤ target u') ∧
    (DELAY_THRESHOLD_150MS ≤ e → target u' ≤ old) ∧
    (target u' < old → stall_reference_fps (delay u) = None ∧
       (((1000 ≤ e ∨ (600 ≤ e ∧ restored_before (delay u))) ∧
         target u - Z.max (target u / 2) 1 ≤ target u') ∨
        (2 ≤ fps_bad_samples (delay u) ∧ target u - Z.max (target u / 5) 1 ≤ target u' ∧
         (bitrate_first = true →
          ∃ n, replies_after_bitrate_reduction (delay u) = Some n ∧ 1 ≤ n)))) ∧
    (∀ id' v, id' ≠ id → users q !! id' = Some v →
       ∃ v', users q' !! id' = Some v' ∧ target v' = target v ∧ fps_cap v' = fps_cap v).
Proof.
  intros Ho Hrun Hu. cbv zeta.
  destruct (qos_run_ok order Ho linux _ es (qos_default_ok linux now)) as (q0 & Hr & Hq).
  rewrite Hrun in Hr. injection Hr as <-.
  destruct (user_network_delay_spec order Ho q id x t Hq) as (q' & E & _ & _ & Hid & Hne).
  destruct (Hid u Hu) as (u' & [Hok Hcap _ Hc _ Hg Hn Hd] & Hu' & (C' & T' & _)).
  rewrite <- T' in Hc, Hg, Hn, Hd. exists q', u'. split_and!; try done; [by rewrite C'|].
  intros id' v Hn' Hv. destruct (Hne id' v Hn' Hv) as (v' & ? & ? & ? & _). by exists v'.
Qed.

(** A reply with the frame-rate levels and the bitrate state it meets. *)
Definition viewer_reply (u : UserData) (p : Z * Z * bool * Z) : UserData :=
  (reply p.1.1 p.1.2 u p.2).1.1.

(** No reply of the sequence is severe and no three in a row are bad; [k] were
    bad just before. *)
Fixpoint jitter (k : Z) (u : UserData) (l : list (Z * Z * bool * Z)) : Prop :=
  match l with
  | [] => True
  | p :: l =>
      let u' := viewer_reply u p in
      let e := reply_excess u' p.2 in
      if e <? DELAY_THRESHOLD_150MS then jitter 0 u' l
      else e < 600 ∧ k < 2 ∧ jitter (k + 1) u' l
  end.

Lemma jitter_target u l k :
  user_ok u → 0 ≤ k → fps_bad_samples (delay u) ≤ k → target u ≤ fps_cap u → jitter k u l →
  target u ≤ target (foldl viewer_reply u l).
Proof.
  revert u k. induction l as [|p l IH]; intros u k Hu Hk0 Hb Hc Hj; cbn [foldl]; [done|].
  cbn [jitter] in Hj. cbv zeta in Hj. set (u' := viewer_reply u p) in *.
  assert (reply_result u u' p.2 p.1.2) as [Hok Hcap _ Hc' Hb' Hg _ Hd] by (by apply reply_spec).
  rewrite <- Hcap in Hc'.
  destruct (Z.ltb_spec (reply_excess u' p.2) DELAY_THRESHOLD_150MS) as [He|He].
  - etrans; [|eapply (IH u' 0); [done|done|lia|done|done]]. specialize (Hg He). lia.
  - destruct Hj as (H6 & Hk & Hj). etrans; [|eapply (IH u' (k + 1)); [done|lia|lia|done|done]].
    destruct (Z.lt_ge_cases (target u') (Z.min (target u) (fps_cap u))) as [Hlt|]; [|lia].
    destruct (Hd Hlt) as [_ [[[?|[? _]] _]|[? _]]]; lia.
Qed.

(** Spikes do not add up: however many replies of a viewer are late, as
    long as none is 600 ms above the baseline and no three in a row are 150 ms
    above it, the viewer's target never falls. *)
Theorem jitter_never_lowers u l :
  user_ok u → fps_bad_samples (delay u) = 0 → target u ≤ fps_cap u → jitter 0 u l →
  target u ≤ target (foldl viewer_reply u l).
Proof. intros Hu Hb. apply jitter_target; [done|done|lia]. Qed.

(** ** Witnesses *)
Definition map_order (m : gmap Z UserData) : list UserData := values m.

(** Two viewers on one display; the first has just sent two late replies. *)
Definition two_viewers : list Event :=
  [NewDisplay "video0"; ConnectionOpen 1 0 false; ConnectionOpen 2 0 false;
   UserNetworkDelay 1 10 2000000000; UserNetworkDelay 2 10 2000000000;
   UserNetworkDelay 1 10 2000000000; UserNetworkDelay 1 10 2000000000;
   UserNetworkDelay 1 400 2000000000; UserNetworkDelay 1 400 2000000000].
Definition start : VideoQoS := qos_default true 0.
Definition late : VideoQoS := default start (run map_order true start two_viewers).
Definition late_viewer : UserData := default user_default (users late !! 1).


(** The third late reply lowers the first viewer's target from 30 to 24. *)
Lemma reply_reaction_witness :
  target late_viewer = 30 ∧
  ∃ q' u', user_network_delay map_order late 1 400 2000000000 = Some q' ∧
    users q' !! 1 = Some u' ∧ target u' ≤ 30.
Proof.
  split; [by vm_compute|].
  destruct (reply_reaction map_order true 0 two_viewers late 1 400 2000000000 late_viewer)
    as (q' & u' & H1 & H2 & H3 & _); [by intros m|by vm_compute|by vm_compute|].
  exists q', u'. split; [exact H1|]. split; [exact H2|]. exact H3.
Defined.

(** Two late replies between good ones, over and over. *)
Definition spikes : list (Z * Z * bool * Z) :=
  (λ x, (10, 20, false, x)) <$> [20; 500; 500; 30; 500; 20; 500; 500; 20].

Lemma jitter_never_lowers_witness : 15 ≤ target (foldl viewer_reply user_default spikes).
Proof.
  apply (jitter_never_lowers user_default spikes);
    [apply user_default_ok|reflexivity|vm_compute; discriminate|].
  vm_compute. repeat split.
Defined.
End VideoQosProofs.
