(* ===== verification/FileSystem.v ===== *)
(** * The file system below the transfer of files

    What [std::path] and [std::fs] do on Unix, as far as the transfer of files uses
    them: paths and their components, a tree of directories, regular files and
    symbolic links, hard links, open files, and the calls on them.  A path is
    text, a location is the list of names from the root.  Any call may fail for
    a reason outside the model; [faults] says which do. *)
From S2P Require Import Prelude RustStd RecordUpdate.
From Stdlib Require Import Ascii.

Module FileSystem.

(** ** Paths *)
Inductive Component : Type := RootDir | CurDir | ParentDir | Normal (name : string).
#[export] Instance component_eq_dec : EqDecision Component.
Proof. solve_decision. Defined.

Definition ends_with_slash (p : string) : bool :=
  match rsplit_once "/" p with Some (_, t) => is_empty t | None => false end.

(** [Path::join]: an absolute argument replaces the path. *)
Definition path_join (p name : string) : string :=
  if starts_with "/" name then name
  else if is_empty p || ends_with_slash p then p +:+ name
  else p +:+ String "/" name.

(** The components the segments between slashes stand for. *)
Fixpoint seg_components (segs : list string) : list Component :=
  match segs with
  | [] => []
  | s :: segs =>
      if (s ==s "") || (s ==s ".") then seg_components segs
      else (if s ==s ".." then ParentDir else Normal s) :: seg_components segs
  end.

(** [Path::components]: empty and [.] segments are dropped, a leading [.] kept. *)
Definition components (p : string) : list Component :=
  let segs := split "/" p in
  if starts_with "/" p then RootDir :: seg_components segs
  else match segs with
       | "." :: segs => CurDir :: seg_components segs
       | _ => seg_components segs
       end.

Definition component_string (c : Component) : string :=
  match c with RootDir => "" | CurDir => "." | ParentDir => ".." | Normal s => s end.

(** The path made of components. *)
Definition path_string (cs : list Component) : string :=
  match cs with
  | [RootDir] => "/"
  | _ => RustStd.join "/" (component_string <$> cs)
  end.

Definition path_parent (p : string) : option string :=
  match last (components p) with
  | None | Some RootDir => None
  | Some _ => Some (path_string (removelast (components p)))
  end.

Definition path_file_name (p : string) : option string :=
  match last (components p) with Some (Normal s) => Some s | _ => None end.

(** A path that ends in a slash or in [/.] names a directory. *)
Definition trailing (p : string) : bool :=
  match last (split "/" p) with Some s => (s ==s "") || (s ==s ".") | None => false end.

(** ** The file system *)
Inductive ErrorKind : Type :=
  NotFound | NotADirectory | IsADirectory | AlreadyExists | FilesystemLoop | OtherError.
Inductive Error : Type := Io (k : ErrorKind) | Bail (why : string).

Abbreviation Loc := (list string).

Inductive Node : Type := Dir | File (ino : nat) | Link (target : string).
#[export] Instance node_eq_dec : EqDecision Node.
Proof. solve_decision. Defined.

Record Inode : Type := mkInode { content : list byte; mtime : Z }.

Record Fs : Type := mkFs {
  nodes : gmap (list string) Node;
  inodes : gmap nat Inode;
  next_ino : nat;
  cwd : Loc;
  clock : Z;
  (** For each coming call: [None], it works; [Some n], it fails, a write after [n] bytes. *)
  faults : list (option nat);
}.
#[export] Instance eta_fs : Eta Fs := λ f,
  mkFs (nodes f) (inodes f) (next_ino f) (cwd f) (clock f) (faults f).

(** ** Computations with a state and errors *)
Definition M (S A : Type) : Type := S → result A Error * S.
#[export] Instance m_ret {S} : MRet (M S) := λ A a s, (Ok a, s).
#[export] Instance m_bind {S} : MBind (M S) := λ A B k m s,
  match m s with (Ok a, s) => k a s | (Err e, s) => (Err e, s) end.

Definition fail {S A} (e : Error) : M S A := λ s, (Err e, s).
Definition bail {S A} (why : string) : M S A := fail (Bail why).
Definition get {S} : M S S := λ s, (Ok s, s).
(** [m.ok()], [if let Ok(x) = m] and the like: the result as a value. *)
Definition try {S A} (m : M S A) : M S (result A Error) := λ s, let (r, s) := m s in (Ok r, s).
(** [result?] *)
Definition of_result {S A} (r : result A Error) : M S A := λ s, (r, s).
Definition unwrap {S A} (why : string) (o : option A) : M S A :=
  match o with Some a => mret a | None => bail why end.

(** ** Resolution of paths *)

(** At most this many symbolic links are followed. *)
Definition MAX_LINKS : nat := 40.

Definition segments (p : string) : list Component :=
  components p ++ if trailing p then [CurDir] else [].

(** The location of [cs] from [cur]; the last one may not exist, and is followed
    if it is a link only when [follow] is set. *)
Fixpoint walk (m : gmap (list string) Node) (links : nat) : Loc → list Component → bool → result Loc ErrorKind :=
  fix go (cur : Loc) (cs : list Component) (follow : bool) {struct cs} : result Loc ErrorKind :=
    match cs with
    | [] => Ok cur
    | c :: cs =>
        match m !! cur with
        | None => Err NotFound
        | Some (File _) | Some (Link _) => Err NotADirectory
        | Some Dir =>
            match c with
            | RootDir => go [] cs follow
            | CurDir => go cur cs follow
            | ParentDir => go (removelast cur) cs follow
            | Normal s =>
                match m !! (cur ++ [s]) with
                | Some (Link t) =>
                    if bool_decide (cs = []) && negb follow then Ok (cur ++ [s])
                    else match links with
                         | O => Err FilesystemLoop
                         | S links => walk m links cur (segments t ++ cs) follow
                         end
                | _ => go (cur ++ [s]) cs follow
                end
            end
        end
    end.

Definition resolve (fs : Fs) (p : string) (follow : bool) : result Loc ErrorKind :=
  if is_empty p then Err NotFound
  else walk (nodes fs) MAX_LINKS (if starts_with "/" p then [] else cwd fs) (segments p) follow.

(** ** Calls *)
Definition syscall {A} (f : Fs → result (A * Fs) ErrorKind) : M Fs A := λ fs,
  match faults fs with
  | Some _ :: r => (Err (Io OtherError), fs <| faults := r |>)
  | _ =>
      let fs := fs <| faults := tail (faults fs) |> in
      match f fs with Ok (a, fs') => (Ok a, fs') | Err k => (Err (Io k), fs) end
  end.

Record Metadata : Type := mkMeta {
  md_kind : Node;
  md_len : Z;
  md_mtime : Z;
  md_nlink : nat;
}.

Definition links_to (m : gmap (list string) Node) (i : nat) : nat :=
  size (filter (λ p, p.2 = File i) m).

Definition inode (fs : Fs) (i : nat) : Inode := default (mkInode [] 0) (inodes fs !! i).

Definition file_metadata (fs : Fs) (i : nat) : Metadata :=
  mkMeta (File i) (len (content (inode fs i))) (mtime (inode fs i)) (links_to (nodes fs) i).

Definition node_metadata (fs : Fs) (l : Loc) : result Metadata ErrorKind :=
  match nodes fs !! l with
  | Some (File i) => Ok (file_metadata fs i)
  | Some n => Ok (mkMeta n 0 0 1)
  | None => Err NotFound
  end.

Definition stat (p : string) (follow : bool) : M Fs Metadata :=
  syscall (λ fs, result_bind (resolve fs p follow) (λ l,
                 result_bind (node_metadata fs l) (λ md, Ok (md, fs)))).
Definition metadata (p : string) : M Fs Metadata := stat p true.
Definition symlink_metadata (p : string) : M Fs Metadata := stat p false.

Definition is_file (md : Metadata) : bool := match md_kind md with File _ => true | _ => false end.
Definition is_dir (md : Metadata) : bool := match md_kind md with Dir => true | _ => false end.
Definition is_symlink (md : Metadata) : bool := match md_kind md with Link _ => true | _ => false end.

(** [Path::try_exists] and [Path::exists] *)
Definition try_exists (p : string) : M Fs bool := λ fs,
  match metadata p fs with
  | (Ok _, fs) => (Ok true, fs)
  | (Err (Io NotFound), fs) => (Ok false, fs)
  | (Err e, fs) => (Err e, fs)
  end.
Definition exists_ (p : string) : M Fs bool := r ← try (metadata p); mret (is_ok r).

Definition create_dir (p : string) : M Fs () :=
  syscall (λ fs, result_bind (resolve fs p false) (λ l,
    match nodes fs !! l with
    | Some _ => Err AlreadyExists
    | None => if bool_decide (nodes fs !! removelast l = Some Dir)
              then Ok (tt, fs <| nodes := <[l := Dir]> (nodes fs) |>) else Err NotFound
    end)).

(** [DirBuilder::create_dir_all], [fuel] above the number of components. *)
Fixpoint create_dir_all_go (fuel : nat) (p : string) : M Fs () :=
  match fuel with
  | O => fail (Io OtherError)
  | S fuel =>
      if is_empty p then mret tt
      else
        r ← try (create_dir p);
        match r with
        | Ok _ => mret tt
        | Err (Io NotFound) =>
            match path_parent p with
            | Some q =>
                create_dir_all_go fuel q;;
                r ← try (create_dir p);
                match r with
                | Ok _ => mret tt
                | Err e => md ← try (metadata p);
                           match md with
                           | Ok md => if is_dir md then mret tt else fail e
                           | Err _ => fail e
                           end
                end
            | None => fail (Io OtherError)
            end
        | Err e =>
            md ← try (metadata p);
            match md with
            | Ok md => if is_dir md then mret tt else fail e
            | Err _ => fail e
            end
        end
  end.
Definition create_dir_all (p : string) : M Fs () :=
  create_dir_all_go (S (length (components p))) p.

(** [std::fs::remove_file] *)
Definition remove_file (p : string) : M Fs () :=
  syscall (λ fs, result_bind (resolve fs p false) (λ l,
    match nodes fs !! l with
    | Some Dir => Err IsADirectory
    | Some _ => Ok (tt, fs <| nodes := delete l (nodes fs) |>)
    | None => Err NotFound
    end)).

(** [std::fs::rename] of something that is not a directory; the source of a
    directory is not needed. *)
Definition rename (p q : string) : M Fs () :=
  syscall (λ fs, result_bind (resolve fs p false) (λ l,
                 result_bind (resolve fs q false) (λ k,
    match nodes fs !! l, nodes fs !! k with
    | None, _ => Err NotFound
    | Some Dir, _ => Err OtherError
    | Some _, Some Dir => Err IsADirectory
    | Some n, Some n' =>
        match n, n' with
        | File i, File j =>
            if bool_decide (i = j) then Ok (tt, fs)
            else Ok (tt, fs <| nodes := <[k := n]> (delete l (nodes fs)) |>)
        | _, _ => Ok (tt, fs <| nodes := <[k := n]> (delete l (nodes fs)) |>)
        end
    | Some n, None =>
        if bool_decide (nodes fs !! removelast k = Some Dir)
        then Ok (tt, fs <| nodes := <[k := n]> (delete l (nodes fs)) |>) else Err NotFound
    end))).

(** An open file: its inode and the offset of the next byte. *)
Record Handle : Type := mkHandle { h_ino : nat; h_offset : nat }.

(** A new empty file at [l]. *)
Definition new_file (fs : Fs) (l : Loc) : result (Handle * Fs) ErrorKind :=
  if bool_decide (nodes fs !! removelast l = Some Dir) then
    let i := next_ino fs in
    Ok (mkHandle i 0, fs <| nodes := <[l := File i]> (nodes fs) |>
                         <| inodes := <[i := mkInode [] (clock fs)]> (inodes fs) |>
                         <| next_ino := S i |>)
  else Err NotFound.

(** [OpenOptions::new().write(true).create_new(true).open(p)] *)
Definition open_create_new (p : string) : M Fs Handle :=
  syscall (λ fs, result_bind (resolve fs p false) (λ l,
    match nodes fs !! l with Some _ => Err AlreadyExists | None => new_file fs l end)).

(** [OpenOptions::new().write(true).create(create).truncate(truncate).open(p)];
    [File::create] sets both. *)
Definition open_write (create truncate : bool) (p : string) : M Fs Handle :=
  syscall (λ fs, result_bind (resolve fs p true) (λ l,
    match nodes fs !! l with
    | Some (File i) =>
        Ok (mkHandle i 0,
            if truncate then fs <| inodes := <[i := mkInode [] (clock fs)]> (inodes fs) |> else fs)
    | Some Dir => Err IsADirectory
    | Some (Link _) => Err FilesystemLoop
    | None => if create then new_file fs l else Err NotFound
    end)).
Definition file_create (p : string) : M Fs Handle := open_write true true p.

(** [File::open]; a directory opens too, but cannot be read. *)
Definition open_read (p : string) : M Fs (option Handle) :=
  syscall (λ fs, result_bind (resolve fs p true) (λ l,
    match nodes fs !! l with
    | Some (File i) => Ok (Some (mkHandle i 0), fs)
    | Some Dir => Ok (None, fs)
    | Some (Link _) => Err FilesystemLoop
    | None => Err NotFound
    end)).

(** Bytes [d] written at [off]; a gap is filled with zeros. *)
Definition splice (c d : list byte) (off : nat) : list byte :=
  take off (c ++ replicate (off - length c) Byte.x00) ++ d ++ drop (off + length d) c.

Definition put (fs : Fs) (i : nat) (d : list byte) (off : nat) : Fs :=
  fs <| inodes := <[i := mkInode (splice (content (inode fs i)) d off) (clock fs)]> (inodes fs) |>.

(** [write_all]: the handle afterwards and whether it failed, perhaps with a
    part written. *)
Definition write_some (h : Handle) (d : list byte) : M Fs (Handle * result () Error) := λ fs,
  let '(d, r) := match faults fs with
                 | Some n :: _ => (take n d, Err (Io OtherError))
                 | _ => (d, Ok tt)
                 end in
  (Ok (mkHandle (h_ino h) (h_offset h + length d), r),
   put (fs <| faults := tail (faults fs) |>) (h_ino h) d (h_offset h)).

Definition write_all (h : Handle) (d : list byte) : M Fs () :=
  r ← write_some h d; of_result r.2.

Definition read_at (fs : Fs) (h : Handle) (n : nat) : list byte :=
  take n (drop (h_offset h) (content (inode fs (h_ino h)))).

Definition handle_metadata (h : Handle) : M Fs Metadata :=
  syscall (λ fs, Ok (file_metadata fs (h_ino h), fs)).

Definition seek (h : Handle) (off : Z) : M Fs Handle :=
  syscall (λ fs, Ok (mkHandle (h_ino h) (Z.to_nat off), fs)).

(** A flush or sync: it only can fail. *)
Definition flush : M Fs () := syscall (λ fs, Ok (tt, fs)).

Definition set_file_mtime (p : string) (t : Z) : M Fs () :=
  syscall (λ fs, result_bind (resolve fs p true) (λ l,
    match nodes fs !! l with
    | Some (File i) => Ok (tt, fs <| inodes := <[i := mkInode (content (inode fs i)) t]> (inodes fs) |>)
    | Some _ => Ok (tt, fs)
    | None => Err NotFound
    end)).

Definition read_to_end (p : string) : M Fs (list byte) :=
  syscall (λ fs, result_bind (resolve fs p true) (λ l,
    match nodes fs !! l with
    | Some (File i) => Ok (content (inode fs i), fs)
    | Some _ => Err IsADirectory
    | None => Err NotFound
    end)).

(** [std::fs::write] *)
Definition fs_write (p : string) (d : list byte) : M Fs () :=
  h ← file_create p; write_all h d.

End FileSystem.
