(* ===== verification/FileTransfer.v ===== *)
(** * File transfer jobs

    [client/libs/base/src/fs.rs] and [fs/download.rs]: the checks on names that a
    peer sent, the receiving jobs (files a controller downloads, with staging
    files and confirmed overwrites, and files a controlled side accepts), the
    sending jobs, and the loop that serves them.  A method on [&mut self] is a
    computation on the job and the file system.  The Unix build is modelled;
    compression and JSON are parameters. *)
From S2P Require Import Prelude RustStd RecordUpdate FileSystem.
From Stdlib Require Import Ascii.
Import FileSystem.

Module FileTransfer.

(** ** Data *)
Inductive JobType : Type := Generic | Printer.
Inductive FileType : Type := TDir | TDirLink | TDirDrive | TFile | TFileLink.

#[export] Instance job_type_eq_dec : EqDecision JobType.
Proof. solve_decision. Defined.
#[export] Instance file_type_eq_dec : EqDecision FileType.
Proof. solve_decision. Defined.

Record FileEntry : Type := mkEntry {
  name : string;
  entry_type : FileType;
  size : Z;
  modified_time : Z;
}.

#[export] Instance entry_eq_dec : EqDecision FileEntry.
Proof. solve_decision. Defined.

Inductive DataSource : Type := FilePath (p : string) | MemoryCursor (data : list byte).

(** An open file, as what it was opened, or a buffer and its position. *)
Inductive Mode : Type := Reading | Writing | Directory.
Inductive DataStream : Type :=
| FileStream (h : Handle) (m : Mode)
| BufStream (buf : list byte) (pos : nat).

Record FileDigest : Type := mkDigest { d_size : Z; d_modified : Z }.

Record TransferJob : Type := mkJob {
  id : Z;
  type : JobType;
  data_source : DataSource;
  is_remote : bool;
  is_last_job : bool;
  is_resume : bool;
  file_num : Z;
  files : list FileEntry;
  data_stream : option DataStream;
  total_size : Z;
  finished_size : Z;
  transferred : Z;
  enable_overwrite_detection : bool;
  file_confirmed : bool;
  file_skipped : bool;
  file_is_waiting : bool;
  default_overwrite_strategy : option bool;
  digest : FileDigest;
  (** [DownloadState]: the confirmed file and offset. *)
  download : option (option (Z * Z));
}.
#[export] Instance eta_job : Eta TransferJob := λ j,
  mkJob (id j) (type j) (data_source j) (is_remote j) (is_last_job j) (is_resume j) (file_num j)
    (files j) (data_stream j) (total_size j) (finished_size j) (transferred j)
    (enable_overwrite_detection j) (file_confirmed j) (file_skipped j) (file_is_waiting j)
    (default_overwrite_strategy j) (digest j) (download j).

(** ** Names that come from a peer *)
Definition NUL : ascii := "000"%char.

Definition validate_file_name_no_traversal (name : string) : result () Error :=
  if contains NUL name then Err (Bail "file name contains null bytes")
  else if existsb (λ s, s ==s "..") (split "/" name)
  then Err (Bail "path traversal detected in file name")
  else if starts_with "/" name then Err (Bail "absolute path detected in file name")
  else Ok tt.

Definition result_unit_iter {A} (f : A → result () Error) : list A → result () Error :=
  fix go l := match l with [] => Ok tt | x :: l => result_bind (f x) (λ _, go l) end.

Definition validate_transfer_file_names (fs : list FileEntry) : result () Error :=
  match fs with
  | [f] => if is_empty (name f) then Ok tt else validate_file_name_no_traversal (name f)
  | _ => result_unit_iter (λ f, if is_empty (name f) then Err (Bail "empty file name in multi-file transfer")
                                else validate_file_name_no_traversal (name f)) fs
  end.

Definition validate_fs_path_argument (path arg_name : string) : result () Error :=
  if is_empty path then Err (Bail (arg_name +:+ " cannot be empty"))
  else if contains NUL path then Err (Bail (arg_name +:+ " contains null bytes"))
  else Ok tt.

(** The loop of [validate_no_symlink_components] from [current]. *)
Fixpoint no_symlink_from (current : string) (cs : list Component) : M Fs () :=
  match cs with
  | [] => mret tt
  | Normal seg :: cs =>
      let current := path_join current seg in
      r ← try (symlink_metadata current);
      match r with
      | Ok md => if is_symlink md then bail "symlink path component is not allowed"
                 else no_symlink_from current cs
      | Err (Io NotFound) => no_symlink_from current cs
      | Err _ => bail "failed to validate path component"
      end
  | CurDir :: cs => no_symlink_from current cs
  | _ :: _ => bail "invalid file name component"
  end.

Definition validate_no_symlink_components (base name : string) : M Fs () :=
  if is_empty name then mret tt else no_symlink_from base (components name).

(** [TransferJob::join] *)
Definition join (p name : string) : string := if is_empty name then p else path_join p name.

Definition join_validated_path (base name : string) : M Fs string :=
  of_result (validate_file_name_no_traversal name);;
  validate_no_symlink_components base name;;
  mret (join base name).

Definition validate_component (name : string) : result () Error :=
  result_bind (validate_file_name_no_traversal name) (λ _,
    if is_empty name || (name ==s ".") || contains "/" name
    then Err (Bail "invalid download file name") else Ok tt).

Definition is_ascii_alphabetic (c : ascii) : bool :=
  let n := N_of_ascii c in ((65 <=? n) && (n <=? 90) || (97 <=? n) && (n <=? 122))%N.

(** [matches!(name.as_bytes(), [drive, b':', ..])], and with nothing after. *)
Definition drive_prefix (name : string) : bool :=
  match name with String d (String ":" _) => is_ascii_alphabetic d | _ => false end.
Definition drive_name (name : string) : bool :=
  match name with String d (String ":" EmptyString) => is_ascii_alphabetic d | _ => false end.

Definition invalid_listing_name (name : string) (peer_windows : bool) : bool :=
  is_empty name || (name ==s ".") || (name ==s "..") || contains NUL name || contains "/" name
  || (peer_windows && (contains "\" name || drive_prefix name)).

Definition validate_listing (entries : list FileEntry) (peer_windows : bool) : result () Error :=
  result_unit_iter (λ e,
    if match entry_type e with TDirDrive => drive_name (name e) | _ => false end then Ok tt
    else if invalid_listing_name (name e) peer_windows
    then Err (Bail "invalid file name in remote directory listing") else Ok tt) entries.

(** [trim_end_matches] and [rsplit(..).next()] for a set of separators. *)
Fixpoint drop_while (f : ascii → bool) (s : string) : string :=
  match s with String a s' => if f a then drop_while f s' else s | EmptyString => "" end.
Fixpoint take_until (f : ascii → bool) (s : string) : string :=
  match s with String a s' => if f a then "" else String a (take_until f s') | EmptyString => "" end.

Definition is_separator (peer_windows : bool) (c : ascii) : bool :=
  bool_decide (c = "/"%char) || (peer_windows && bool_decide (c = "\"%char)).

Definition validate_download_name (path : string) (peer_windows : bool) : result () Error :=
  let sep := is_separator peer_windows in
  validate_component (str_rev (take_until sep (drop_while sep (str_rev path)))).

(** ** Compression *)
Fixpoint get_ext_of (s : string) : option string :=
  match s with
  | EmptyString => None
  | String a s' =>
      match get_ext_of s' with
      | Some e => Some e
      | None => if bool_decide (a = "."%char) then Some s' else None
      end
  end.
Definition get_ext (name : string) : string := default "" (get_ext_of name).

Definition is_compressed_file (name : string) : bool :=
  existsb (λ e, e ==s get_ext name) ["xz"; "gz"; "zip"; "7z"; "rar"; "bz2"; "tgz"; "png"; "jpg"].

(** ** Messages *)
Record FileTransferBlock : Type := mkBlock {
  b_id : Z;
  b_file_num : Z;
  b_data : list byte;
  b_compressed : bool;
}.

Inductive ConfirmUnion : Type := Skip (s : bool) | OffsetBlk (offset : Z).
Record SendConfirmRequest : Type := mkConfirm { c_id : Z; c_file_num : Z; c_union : option ConfirmUnion }.

Record FileTransferDigest : Type := mkFileDigest {
  f_id : Z;
  f_file_num : Z;
  f_last_modified : Z;
  f_file_size : Z;
  f_is_identical : bool;
  f_transferred_size : Z;
  f_is_resume : bool;
}.

Inductive DigestCheckResult : Type := IsSame | NeedConfirm (d : FileTransferDigest) | NoSuchFile.

Inductive Message : Type :=
| MsgError (id : Z) (e : Error) (file_num : Z)
| MsgSkipped (id file_num : Z)
| MsgBlock (b : FileTransferBlock)
| MsgDigest (d : FileTransferDigest)
| MsgDone (id file_num : Z).

(** ** Jobs *)
Definition J : Type → Type := M (TransferJob * Fs).
Definition fs_do {A} (m : M Fs A) : J A := λ '(j, fs), let (r, fs) := m fs in (r, (j, fs)).
Definition self : J TransferJob := λ '(j, fs), (Ok j, (j, fs)).
Definition modify (f : TransferJob → TransferJob) : J () := λ '(j, fs), (Ok tt, (f j, fs)).
(** [if let Err(..) = m] and [m.ok()] *)
Definition ignore {A} (m : M Fs A) : M Fs () := try m;; mret tt.

Definition job_default : TransferJob :=
  mkJob 0 Generic (FilePath "") false false false 0 [] None 0 0 0 false false false false None
        (mkDigest 0 0) None.

Definition new_write (id : Z) (t : JobType) (src : DataSource) (file_num : Z)
    (is_remote detection : bool) : TransferJob :=
  job_default <| FileTransfer.id := id |> <| type := t |> <| data_source := src |>
    <| FileTransfer.file_num := file_num |> <| FileTransfer.is_remote := is_remote |>
    <| enable_overwrite_detection := detection |>
    <| download := if is_remote && bool_decide (t = Generic) then Some None else None |>.

Definition is_download (j : TransferJob) : bool := bool_decide (is_Some (download j)).

(** [files.get(n as usize)] of an [i32]; a negative one is out of range. *)
Definition entry_at (fs : list FileEntry) (n : Z) : option FileEntry :=
  if n <? 0 then None else fs !! Z.to_nat n.

Definition sum_sizes (fs : list FileEntry) : Z := foldr (λ f s, as_u64 (size f + s)) 0 fs.

Fixpoint iter_m {A S} (f : A → M S ()) (l : list A) : M S () :=
  match l with [] => mret tt | x :: l => f x;; iter_m f l end.

Definition set_files (fs : list FileEntry) : J () :=
  j ← self;
  if is_download j && negb (bool_decide (files j = []))
  then bail "cannot replace an accepted download file list"
  else
    of_result (validate_transfer_file_names fs);;
    match data_source j with
    | FilePath base => fs_do (iter_m (λ f, validate_no_symlink_components base (name f)) fs)
    | MemoryCursor _ => mret tt
    end;;
    modify (λ j, j <| total_size := sum_sizes fs |> <| files := fs |>).

Definition set_digest (size modified : Z) (j : TransferJob) : TransferJob :=
  j <| digest := mkDigest size modified |>.

Definition set_finished_size_on_resume (j : TransferJob) : TransferJob :=
  if is_resume j && (0 <? file_num j)
  then j <| finished_size := sum_sizes (take (Z.to_nat (file_num j)) (files j)) |> else j.

Definition suffixed (path suffix : string) : string := path +:+ String "." suffix.

Definition validated_target (base name : string) : M Fs string :=
  parent ← unwrap "download destination has no parent" (path_parent base);
  leaf ← unwrap "invalid download destination" (path_file_name base);
  of_result (validate_component leaf);;
  validate_no_symlink_components parent leaf;;
  target ← join_validated_path base name;
  parent ← unwrap "download file has no parent" (path_parent target);
  leaf ← unwrap "invalid download file name" (path_file_name target);
  validate_no_symlink_components parent (suffixed leaf "download");;
  validate_no_symlink_components parent (suffixed leaf "digest");;
  mret target.

Definition download_target (j : TransferJob) (n : Z) : M Fs string :=
  e ← unwrap "Wrong file number" (entry_at (files j) n);
  match data_source j with
  | FilePath base => validated_target base (name e)
  | MemoryCursor _ => bail "download destination is not a file path"
  end.

Definition resolve_entry_path (j : TransferJob) (base name : string) : M Fs (option string) :=
  match type j with
  | Generic => r ← try (if is_download j then validated_target base name
                        else join_validated_path base name);
               mret (ok r)
  | Printer => mret (Some (join base name))
  end.

Definition download_confirmation_offset (j : TransferJob) (n : Z) : option Z :=
  d ← download j; c ← d; if c.1 =? n then Some c.2 else None.

Definition remove_if_exists (p : string) : M Fs () := λ fs,
  match remove_file p fs with
  | (Err (Io NotFound), fs) => (Ok tt, fs)
  | r => r
  end.

(** The part of [finish_download] for a download job. *)
Definition finish_download_ (j : TransferJob) : M Fs () :=
  if bool_decide (data_stream j = None) then mret tt
  else
    target ← download_target j (file_num j);
    e ← try_exists target;
    if (e : bool) && negb (bool_decide (download_confirmation_offset j (file_num j) = Some 0))
    then bail "download overwrite requires confirmation"
    else
      rename (suffixed target "download") target;;
      remove_if_exists (suffixed target "digest");;
      entry ← unwrap "Wrong file number" (entry_at (files j) (file_num j));
      set_file_mtime target (modified_time entry).

Definition modify_time (j : TransferJob) : M Fs () :=
  if is_download j then ignore (finish_download_ j)
  else match type j, data_source j with
       | Generic, FilePath p =>
           match entry_at (files j) (file_num j) with
           | Some entry =>
               path ← resolve_entry_path j p (name entry);
               match path with
               | Some path =>
                   ignore (remove_file (suffixed path "digest"));;
                   ignore (rename (suffixed path "download") path);;
                   ignore (set_file_mtime path (modified_time entry))
               | None => mret tt
               end
           | None => mret tt
           end
       | _, _ => mret tt
       end.

Definition finish_download (j : TransferJob) : M Fs () :=
  if is_download j then finish_download_ j else modify_time j.

Definition remove_download_file (j : TransferJob) : M Fs () :=
  if is_download j && bool_decide (data_stream j = None) then mret tt
  else match type j, data_source j with
       | Generic, FilePath p =>
           match entry_at (files j) (file_num j) with
           | Some entry =>
               path ← resolve_entry_path j p (name entry);
               match path with
               | Some path =>
                   ignore (remove_file (suffixed path "download"));;
                   ignore (remove_file (suffixed path "digest"))
               | None => mret tt
               end
           | None => mret tt
           end
       | _, _ => mret tt
       end.

(** Finishing the current file and forgetting its stream. *)
Definition finish_and_take : J () :=
  j ← self;
  r ← fs_do (try (finish_download j));
  modify (λ j, j <| data_stream := None |>);;
  of_result r.

Section Libraries.
(** zstd: one shot of compression, and the decoding of a whole stream. *)
Context (zstd_compress zstd_decompress : list byte → option (list byte)).
(** serde_json of a [FileDigest]. *)
Context (digest_to_json : FileDigest → list byte) (digest_of_json : list byte → option FileDigest).

Definition MAX_DECOMPRESSED_SIZE : Z := 256 * 1024 * 1024.

(** A failure of the compressor gives no bytes. *)
Definition compress (data : list byte) : list byte := default [] (zstd_compress data).

Definition decompress_with_limit (data : list byte) (limit : Z) : option (list byte) :=
  out ← zstd_decompress data; if limit <? len out then None else Some out.
Definition decompress (data : list byte) : list byte :=
  default [] (decompress_with_limit data MAX_DECOMPRESSED_SIZE).

(** *** Receiving *)
Definition validate_resume_file (h : Handle) : M Fs () :=
  md ← handle_metadata h;
  if negb (is_file md) then bail "download resume staging path is not a regular file"
  else if negb (bool_decide (md_nlink md = 1%nat))
  then bail "hard-linked download resume staging file is not allowed" else mret tt.

Definition resume_download (n offset : Z) : J () :=
  j ← self;
  h ← fs_do (
    target ← download_target j n;
    e ← try_exists target;
    if (e : bool) then bail "download overwrite requires confirmation"
    else
      md ← metadata (suffixed target "digest");
      if negb (is_file md) then bail "download resume metadata is not a regular file"
      else
        h ← open_write false false (suffixed target "download");
        validate_resume_file h;;
        md ← handle_metadata h;
        if negb (md_len md =? offset)
        then bail "download resume offset does not match staging file size"
        else seek h offset);
  modify (λ j, j <| file_num := n |> <| data_stream := Some (FileStream h Writing) |>
                 <| transferred := as_u64 (transferred j + offset) |>
                 <| finished_size := as_u64 (finished_size j + offset) |>).

(** [create_new], then the digest of the job, at a path that was just cleared. *)
Definition write_new (p : string) (d : list byte) : M Fs () :=
  h ← open_create_new p; write_all h d;; flush.

(** The part of [start_download_file] that starts anew. *)
Definition start_anew (target : string) (n : Z) : J () :=
  match path_parent target with
  | Some parent => fs_do (create_dir_all parent)
  | None => mret tt
  end;;
  fs_do (remove_if_exists (suffixed target "download"));;
  h ← fs_do (open_create_new (suffixed target "download"));
  modify (λ j, j <| file_num := n |> <| data_stream := Some (FileStream h Writing) |>);;
  fs_do (remove_if_exists (suffixed target "digest"));;
  j ← self;
  fs_do (write_new (suffixed target "digest") (digest_to_json (digest j))).

(** Whether the target or one of its side files exists. *)
Definition any_exists (target : string) : M Fs bool :=
  e ← try_exists target;
  if (e : bool) then mret true
  else
    e ← try_exists (suffixed target "download");
    if (e : bool) then mret true else try_exists (suffixed target "digest").

Definition start_download_file (n : Z) : J () :=
  finish_and_take;;
  j ← self;
  target ← fs_do (download_target j n);
  let confirmation := download_confirmation_offset j n in
  e ← fs_do (any_exists target);
  if (e : bool) && bool_decide (confirmation = None)
  then bail "download overwrite requires confirmation"
  else
    match confirmation with
    | Some (Zpos _ as offset) => resume_download n offset
    | _ => start_anew target n
    end.

(** [DataStream::write_all] *)
Definition stream_write (d : list byte) : J () :=
  j ← self;
  match data_stream j with
  | Some (FileStream h Writing) =>
      r ← fs_do (write_some h d);
      modify (λ j, j <| data_stream := Some (FileStream r.1 Writing) |>);;
      of_result r.2
  | Some (FileStream _ _) => fail (Io OtherError)
  | Some (BufStream buf pos) =>
      modify (λ j, j <| data_stream := Some (BufStream (splice buf d pos) (pos + length d)) |>)
  | None => bail "file is None"
  end.

Definition block_data (b : FileTransferBlock) : list byte :=
  if b_compressed b then decompress (b_data b) else b_data b.

Definition account (d : list byte) (b : FileTransferBlock) : J () :=
  modify (λ j, j <| finished_size := as_u64 (finished_size j + len d) |>
                 <| transferred := as_u64 (transferred j + len (b_data b)) |>).

Definition write_download (b : FileTransferBlock) : J () :=
  j ← self;
  if negb (b_id b =? id j) then bail "Wrong id"
  else if bool_decide (entry_at (files j) (b_file_num b) = None) then bail "Wrong file number"
  else
    (if negb (b_file_num b =? file_num j) || bool_decide (data_stream j = None)
     then start_download_file (b_file_num b) else mret tt);;
    j ← self;
    match data_stream j with
    | Some (FileStream _ _) =>
        stream_write (block_data b);;
        fs_do flush;;
        account (block_data b) b
    | _ => bail "download file stream is missing"
    end.

(** The branch of [write] that opens the file of a block. *)
Definition open_for_block (p : string) (b : FileTransferBlock) (entry : FileEntry) : J () :=
  j ← self;
  fs_do (modify_time j);;
  match data_stream j with Some (FileStream _ _) => fs_do flush | _ => mret tt end;;
  modify (λ j, j <| file_num := b_file_num b |>);;
  paths ← match type j with
          | Printer => mret (p, None)
          | Generic =>
              path ← fs_do (join_validated_path p (name entry));
              match path_parent path with
              | Some pp => fs_do (ignore (create_dir_all pp))
              | None => mret tt
              end;;
              mret (suffixed path "download", Some (suffixed path "digest"))
          end;
  let '(path, digest_path) := paths : string * option string in
  match digest_path with
  | Some dp => e ← fs_do (exists_ dp); if (e : bool) then fs_do (remove_file dp) else mret tt
  | None => mret tt
  end;;
  h ← fs_do (file_create path);
  modify (λ j, j <| data_stream := Some (FileStream h Writing) |>);;
  match digest_path with
  | Some dp => fs_do (ignore (fs_write dp (digest_to_json (digest j))))
  | None => mret tt
  end.

Definition write (b : FileTransferBlock) : J () :=
  j ← self;
  if is_download j then write_download b
  else if negb (b_id b =? id j) then bail "Wrong id"
  else
    match data_source j with
    | FilePath p =>
        match entry_at (files j) (b_file_num b) with
        | None => bail "Wrong file number"
        | Some entry =>
            if negb (b_file_num b =? file_num j) || bool_decide (data_stream j = None)
            then open_for_block p b entry else mret tt
        end
    | MemoryCursor c =>
        if bool_decide (data_stream j = None)
        then modify (λ j, j <| data_stream := Some (BufStream c 0) |>) else mret tt
    end;;
    stream_write (block_data b);;
    account (block_data b) b.

(** *** Sending *)

(** [open_data_stream]: whether the job is done. *)
Definition open_data_stream : J bool :=
  j ← self;
  match data_source j with
  | FilePath p =>
      match entry_at (files j) (file_num j) with
      | None => modify (λ j, j <| data_stream := None |>);; mret true
      | Some e =>
          match data_stream j with
          | Some _ => mret false
          | None =>
              r ← fs_do (try (open_read (join p (name e))));
              match r with
              | Ok h =>
                  modify (λ j, j <| data_stream := Some match h with
                                                        | Some h => FileStream h Reading
                                                        | None => FileStream (mkHandle 0 0) Directory
                                                        end |>
                                 <| file_confirmed := false |> <| file_is_waiting := false |>);;
                  mret false
              | Err err =>
                  modify (λ j, j <| file_num := file_num j + 1 |>
                                 <| file_confirmed := false |> <| file_is_waiting := false |>);;
                  fail err
              end
          end
      end
  | MemoryCursor c =>
      match data_stream j with
      | Some _ => mret false
      | None => modify (λ j, j <| data_source := MemoryCursor [] |>
                               <| data_stream := Some (BufStream c 0) |>);; mret false
      end
  end.

(** [modified()?.duration_since(UNIX_EPOCH)?] *)
Definition since_epoch (md : Metadata) : M Fs Z :=
  if md_mtime md <? 0 then bail "second time provided was later than self" else mret (md_mtime md).

Definition get_current_digest : J (Z * Z) :=
  j ← self;
  match data_stream j with
  | Some (FileStream h Directory) => fs_do (syscall (λ fs, Ok ((0, 0), fs)))
  | Some (FileStream h _) => md ← fs_do (handle_metadata h); s ← fs_do (since_epoch md); mret (s, md_len md)
  | Some (BufStream _ _) => bail "No digest for buf stream"
  | None => bail "file is None"
  end.

(** The digest to be sent, if one is; the two callers differ in how they send it. *)
Definition init_data_stream : J (option FileTransferDigest) :=
  done ← open_data_stream;
  if (done : bool) then mret None
  else
    j ← self;
    if bool_decide (type j = Generic) && enable_overwrite_detection j
       && negb (file_confirmed j) && negb (file_is_waiting j)
    then d ← get_current_digest;
         modify (λ j, j <| file_is_waiting := true |>);;
         mret (Some (mkFileDigest (id j) (file_num j) d.1 d.2 false 0 (is_resume j)))
    else mret None.

Definition BUF_SIZE : nat := Z.to_nat (128 * 1024).

(** The loop of [read]: it stops at a full buffer or at the end, so short reads
    do not show. *)
Definition stream_read : J (list byte) :=
  j ← self;
  match data_stream j with
  | Some (FileStream h Reading) =>
      d ← fs_do (syscall (λ fs, Ok (read_at fs h BUF_SIZE, fs)));
      modify (λ j, j <| data_stream := Some (FileStream
                          (mkHandle (h_ino h) (h_offset h + length d)) Reading) |>);;
      mret d
  | Some (FileStream _ _) => fail (Io OtherError)
  | Some (BufStream buf pos) =>
      let d := take BUF_SIZE (drop pos buf) in
      modify (λ j, j <| data_stream := Some (BufStream buf (pos + length d)) |>);; mret d
  | None => bail "data stream is None"
  end.

Definition next_file (j : TransferJob) : TransferJob :=
  j <| file_num := file_num j + 1 |> <| data_stream := None |>
    <| file_confirmed := false |> <| file_is_waiting := false |>.

(** What of the bytes [d] travels, and whether it is compressed. *)
Definition encode_block (j : TransferJob) (nm : string) (d : list byte) : list byte * bool :=
  match data_source j with
  | FilePath _ =>
      if is_compressed_file nm then (d, false)
      else let tmp := compress d in if len tmp <? len d then (tmp, true) else (d, false)
  | MemoryCursor _ => (d, false)
  end.

Definition block_name (j : TransferJob) (p : string) (e : FileEntry) : string :=
  if bool_decide (length (files j) = 1%nat) && is_empty (name e)
  then default "" (path_file_name p) else name e.

Definition read : J (option FileTransferBlock) :=
  j ← self;
  if bool_decide (type j = Generic) && enable_overwrite_detection j && negb (file_confirmed j)
  then mret None
  else
    let nm := match data_source j with
              | FilePath p => block_name j p <$> entry_at (files j) (file_num j)
              | MemoryCursor _ => Some ""
              end in
    match nm with
    | None => modify (λ j, j <| data_stream := None |>);; mret None
    | Some nm =>
        r ← try stream_read;
        match r with
        | Err e =>
            (* a missing stream is reported before the file number moves *)
            match data_stream j with None => mret () | Some _ => modify next_file end;;
            fail e
        | Ok [] =>
            match data_source j with
            | MemoryCursor _ => modify (λ j, j <| data_stream := None |>);; mret None
            | FilePath _ => modify next_file;;
                            mret (Some (mkBlock (id j) (file_num j) [] false))
            end
        | Ok d =>
            let '(data, compressed) := encode_block j nm d in
            modify (λ j, j <| finished_size := as_u64 (finished_size j + len d) |>
                           <| transferred := as_u64 (transferred j + len data) |>);;
            mret (Some (mkBlock (id j) (file_num j) data compressed))
        end
    end.

(** *** Confirmations *)
Definition set_file_confirmed (b : bool) (j : TransferJob) : TransferJob :=
  j <| file_confirmed := b |> <| file_skipped := false |>.

Definition set_file_skipped (j : TransferJob) : TransferJob :=
  let j := j <| data_stream := None |> in
  let j := set_file_confirmed false j in
  j <| file_is_waiting := false |> <| file_num := file_num j + 1 |> <| file_skipped := true |>.

Definition job_skipped (j : TransferJob) : bool :=
  file_skipped j && bool_decide (length (files j) = 1%nat).
Definition job_completed (j : TransferJob) : bool :=
  negb (enable_overwrite_detection j) || (negb (file_confirmed j) && negb (file_is_waiting j)).

Definition set_stream_offset (n offset : Z) : J () :=
  j ← self;
  match entry_at (files j) n, data_source j with
  | Some entry, FilePath p =>
      path ← fs_do (resolve_entry_path j p (name entry));
      match path with
      | None => mret tt
      | Some path =>
          e1 ← fs_do (exists_ (suffixed path "download"));
          e2 ← (if (e1 : bool) then fs_do (exists_ (suffixed path "digest")) else mret false);
          s ← (if (e2 : bool) then
                 r ← fs_do (try (open_write true false (suffixed path "download")));
                 mret ((λ h, FileStream h Writing) <$> ok r)
               else
                 e3 ← fs_do (exists_ path);
                 if (e3 : bool) then
                   r ← fs_do (try (open_read path));
                   mret (match r with
                         | Ok (Some h) => Some (FileStream h Reading)
                         | Ok None => Some (FileStream (mkHandle 0 0) Directory)
                         | Err _ => None
                         end)
                 else mret None);
          match s with
          | Some (FileStream h m) =>
              r ← fs_do (try (seek h offset));
              match r with
              | Ok h => modify (λ j, j <| data_stream := Some (FileStream h m) |>
                                       <| transferred := as_u64 (transferred j + offset) |>
                                       <| finished_size := as_u64 (finished_size j + offset) |>)
              | Err _ => mret tt
              end
          | _ => mret tt
          end
      end
  | _, _ => mret tt
  end.

Definition confirm_download (r : SendConfirmRequest) (j : TransferJob) : TransferJob :=
  if negb (c_id r =? id j) then j
  else match download j with
       | None => j
       | Some _ =>
           j <| download := Some (
             entry_at (files j) (c_file_num r) ≫= λ _,
             match c_union r with
             | Some (OffsetBlk offset) => Some (c_file_num r, offset)
             | Some (Skip false) => Some (c_file_num r, 0)
             | _ => None
             end) |>
       end.

Definition confirm (r : SendConfirmRequest) : J () :=
  j ← self;
  (if is_download j then modify (confirm_download r) else mret tt);;
  if is_download j && match c_union r with Some (OffsetBlk offset) => 0 <? offset | _ => false end
  then mret tt
  else if negb (file_num j =? c_file_num r) then mret tt
  else match c_union r with
       | Some (Skip true) => modify set_file_skipped
       | Some (Skip false) => modify (set_file_confirmed true)
       | Some (OffsetBlk offset) =>
           modify (set_file_confirmed true);;
           if 0 <? offset then set_stream_offset (c_file_num r) offset else mret tt
       | None => mret tt
       end.

(** *** What is there already *)
Definition digest_reply (d : FileTransferDigest) (last_modified file_size : Z) (is_identical : bool)
    (transferred_size : Z) : DigestCheckResult :=
  NeedConfirm (mkFileDigest (f_id d) (f_file_num d) last_modified file_size is_identical
                            transferred_size false).

(** The first half: a staging file with a matching digest file. *)
Definition resume_reply (file_path : string) (d : FileTransferDigest) : M Fs (option DigestCheckResult) :=
  e1 ← exists_ (suffixed file_path "digest");
  e2 ← (if (e1 : bool) then exists_ (suffixed file_path "download") else mret false);
  if (e2 : bool) then
    r ← try (read_to_end (suffixed file_path "digest"));
    match ok r ≫= digest_of_json with
    | Some local =>
        if (d_modified local =? f_last_modified d) && (d_size local =? f_file_size d) then
          md ← try (metadata (suffixed file_path "download"));
          mret (match md with
                | Ok md => if 0 <? md_len md
                           then Some (digest_reply d (f_last_modified d) (f_file_size d) true (md_len md))
                           else None
                | Err _ => None
                end)
        else mret None
    | None => mret None
    end
  else mret None.

Definition is_write_need_confirmation (is_resume : bool) (file_path : string) (d : FileTransferDigest)
    : M Fs DigestCheckResult :=
  r ← (if is_resume then resume_reply file_path d else mret None);
  match r with
  | Some r => mret r
  | None =>
      e ← exists_ file_path;
      f ← (if (e : bool) then md ← try (metadata file_path);
                              mret (match md with Ok md => is_file md | Err _ => false end)
           else mret false);
      if (f : bool) then
        md ← metadata file_path;
        t ← since_epoch md;
        mret (digest_reply d t (md_len md) ((f_last_modified d =? t) && (f_file_size d =? md_len md)) 0)
      else mret NoSuchFile
  end.

Definition download_digest (can_resume : bool) (d : FileTransferDigest) : J DigestCheckResult :=
  j ← self;
  (if negb (file_num j =? f_file_num d) && negb (bool_decide (data_stream j = None))
   then finish_and_take else mret tt);;
  target ← fs_do (download_target j (f_file_num d));
  resume ← (if can_resume && is_resume j then e ← fs_do (try_exists target); mret (negb e)
            else mret false);
  r ← fs_do (is_write_need_confirmation resume target d);
  match r with
  | NoSuchFile =>
      e1 ← fs_do (try_exists (suffixed target "download"));
      e2 ← (if (e1 : bool) then mret true else fs_do (try_exists (suffixed target "digest")));
      mret (if (e2 : bool) then NeedConfirm (mkFileDigest (f_id d) (f_file_num d) 0 0 false 0 false)
            else NoSuchFile)
  | r => mret r
  end.

(** *** The loop that serves the sending jobs *)
Definition run_job {A} (m : J A) (j : TransferJob) (fs : Fs) : result A Error * TransferJob * Fs :=
  let '(r, (j, fs)) := m (j, fs) in (r, j, fs).

Definition init_job (j : TransferJob) (fs : Fs) : TransferJob * Fs * list Message :=
  if is_last_job j then (j, fs, [])
  else match run_job init_data_stream j fs with
       | (Ok (Some d), j, fs) => (j, fs, [MsgDigest d])
       | (Ok None, j, fs) => (j, fs, [])
       | (Err e, j, fs) => (j, fs, [MsgError (id j) e (file_num j)])
       end.

Fixpoint init_jobs (jobs : list TransferJob) (fs : Fs) : list TransferJob * Fs * list Message :=
  match jobs with
  | [] => ([], fs, [])
  | j :: jobs =>
      let '(j, fs, ms) := init_job j fs in
      let '(jobs, fs, ms') := init_jobs jobs fs in
      (j :: jobs, fs, ms ++ ms')
  end.

(** The first job that is not a saved one is served; a finished one is removed. *)
Fixpoint serve_jobs (jobs : list TransferJob) (fs : Fs) : list TransferJob * Fs * list Message * option Z :=
  match jobs with
  | [] => ([], fs, [], None)
  | j :: jobs =>
      if is_last_job j then
        let '(jobs, fs, ms, fin) := serve_jobs jobs fs in (j :: jobs, fs, ms, fin)
      else
        match run_job read j fs with
        | (Err e, j, fs) => (j :: jobs, fs, [MsgError (id j) e (file_num j)], None)
        | (Ok (Some b), j, fs) => (j :: jobs, fs, [MsgBlock b], None)
        | (Ok None, j, fs) =>
            if job_completed j
            then (j :: jobs, fs, [if job_skipped j then MsgSkipped (id j) (file_num j)
                                  else MsgDone (id j) (file_num j)], Some (id j))
            else (j :: jobs, fs, [], None)
        end
  end.

Fixpoint remove_job (i : Z) (jobs : list TransferJob) : list TransferJob :=
  match jobs with
  | [] => []
  | j :: jobs => if id j =? i then jobs else j :: remove_job i jobs
  end.

Definition handle_read_jobs (jobs : list TransferJob) (fs : Fs)
    : list TransferJob * Fs * list Message :=
  let '(jobs, fs, ms) := init_jobs jobs fs in
  let '(jobs, fs, ms', fin) := serve_jobs jobs fs in
  (match fin with Some i => remove_job i jobs | None => jobs end, fs, ms ++ ms').

End Libraries.

(** ** Operations the peer asks for by path *)
Definition remove_file_ (file : string) : M Fs () :=
  of_result (validate_fs_path_argument file "file path");; remove_file file.

Definition create_dir_ (dir : string) : M Fs () :=
  of_result (validate_fs_path_argument dir "directory path");; create_dir_all dir.

Definition rename_file (path new_name : string) : M Fs () :=
  of_result (validate_fs_path_argument path "path");;
  if is_empty new_name then bail "new file name cannot be empty"
  else
    of_result (validate_file_name_no_traversal new_name);;
    e ← exists_ path;
    if (e : bool) then
      dir ← unwrap "Parent directory does not exist" (path_parent path);
      rename path (path_join dir new_name)
    else bail "path does not exist".

End FileTransfer.
