(* ===== verification/FileSystemProofs.v ===== *)
(** * Facts on paths and their resolution

    How the components of a path change when a name is joined or a suffix is
    appended, and where a path leads when no symbolic link is in the way. *)
From S2P Require Import Prelude RustStd RecordUpdate FileSystem.
From Stdlib Require Import Ascii.
Import FileSystem.

Module FileSystemProofs.

(** ** Splitting *)
Lemma str_append_nil (s : string) : s +:+ "" = s.
Proof. induction s as [|a s IH]; [done|]. change (String a (s +:+ "") = String a s). by rewrite IH. Qed.

Lemma split_ne c s : split c s ≠ [].
Proof. destruct s as [|a s]; simpl; [done|]. case_bool_decide; [done|]. by destruct (split c s). Qed.

Lemma split_no_slash c s t : t ∈ split c s → contains c t = false.
Proof.
  revert t. induction s as [|a s IH]; intros t; cbn [split].
  - by intros ->%list_elem_of_singleton.
  - case_bool_decide as E.
    + intros [-> |H]%elem_of_cons; [done|auto].
    + destruct (split c s) as [|x xs] eqn:Es; [by apply split_ne in Es|].
      intros [-> |H]%elem_of_cons.
      * cbn [contains]. rewrite bool_decide_eq_false_2 by done. apply IH. by left.
      * apply IH. by right.
Qed.

(** Appending joins the last segment with the first. *)
Lemma split_append c p n l t h r :
  split c p = l ++ [t] → split c n = h :: r → split c (p +:+ n) = l ++ (t +:+ h) :: r.
Proof.
  revert l t. induction p as [|a p IH]; intros l t Hp Hn; cbn [split] in Hp.
  - destruct l as [|? [|]]; [|done..]. injection Hp as <-. exact Hn.
  - change (String a p +:+ n) with (String a (p +:+ n)). cbn [split].
    case_bool_decide as E.
    + destruct l as [|x l]; cbn [app] in Hp; injection Hp as Hx Hp; [by apply split_ne in Hp|].
      rewrite (IH l t Hp Hn). by subst.
    + destruct (split c p) as [|x xs] eqn:Es; [by apply split_ne in Es|].
      destruct l as [|y l]; cbn [app] in Hp; injection Hp as Hx Hp.
      * subst. by rewrite (IH [] x eq_refl Hn).
      * subst. by rewrite (IH (x :: l) t eq_refl Hn).
Qed.

Lemma split_append_sep c p n : split c (p +:+ String c n) = split c p ++ split c n.
Proof.
  destruct (exists_last (split_ne c p)) as (l & t & Hp).
  rewrite (split_append c p (String c n) l t "" (split c n)); [|done|].
  - by rewrite str_append_nil, Hp, <- app_assoc.
  - cbn [split]. by rewrite bool_decide_eq_true_2.
Qed.

Lemma seg_components_app l k : seg_components (l ++ k) = seg_components l ++ seg_components k.
Proof. induction l as [|s l IH]; cbn [seg_components app]; [done|]. case_match; by rewrite IH. Qed.

Lemma ends_with_slash_split p : ends_with_slash p = true → ∃ l, l ≠ [] ∧ split "/" p = l ++ [""].
Proof.
  unfold ends_with_slash. intros H. destruct (rsplit_once "/" p) as [[h t]|] eqn:E; [|done].
  apply is_empty_true in H as ->. exists (split "/" h). split; [apply split_ne|].
  revert h E. induction p as [|a p IH]; intros h E; cbn [rsplit_once] in E; [done|].
  destruct (rsplit_once "/" p) as [[h' t']|] eqn:E'; simplify_eq.
  - cbn [split]. rewrite (IH h') by done. case_bool_decide; [done|].
    by destruct (split "/" h') eqn:Es; [by apply split_ne in Es|].
  - case_bool_decide; simplify_eq. done.
Qed.

(** ** Absolute paths *)
Definition absolute (p : string) : bool := starts_with "/" p.

Lemma absolute_cons p : absolute p = true → ∃ q, p = String "/" q.
Proof.
  unfold absolute, starts_with. intros [t Ht]%bool_decide_eq_true.
  destruct p as [|a p]; [done|]. cbn in Ht. case_bool_decide; [|done]. subst. by eexists.
Qed.

(** The components below the root. *)
Definition segc (p : string) : list Component := seg_components (split "/" p).

Lemma components_absolute p : absolute p = true → components p = RootDir :: segc p.
Proof. unfold components, absolute. by intros ->. Qed.

Lemma absolute_append p s : absolute p = true → absolute (p +:+ s) = true.
Proof. by intros [q ->]%absolute_cons. Qed.

Lemma path_join_cases p n :
  absolute p = true → absolute n = false →
  (∃ l, l ≠ [] ∧ split "/" p = l ++ [""] ∧ path_join p n = p +:+ n) ∨
  path_join p n = p +:+ String "/" n.
Proof.
  intros Hp Hn. unfold path_join. unfold absolute in Hn. rewrite Hn.
  destruct (is_empty p) eqn:E; [apply is_empty_true in E as ->; done|].
  destruct (ends_with_slash p) eqn:E'; [|by right].
  left. destruct (ends_with_slash_split p E') as (l & ? & ?). by exists l.
Qed.

Lemma path_join_absolute p n :
  absolute p = true → absolute n = false → absolute (path_join p n) = true.
Proof.
  intros Hp Hn. destruct (path_join_cases p n Hp Hn) as [(l & _ & _ & ->)| ->];
    by apply absolute_append.
Qed.

Lemma split_path_join p n :
  absolute p = true → absolute n = false →
  ∃ l, split "/" (path_join p n) = l ++ split "/" n ∧ seg_components l = segc p.
Proof.
  intros Hp Hn. destruct (path_join_cases p n Hp Hn) as [(l & Hl & Hs & ->)| ->].
  - exists l. destruct (split "/" n) as [|h r] eqn:E; [by apply split_ne in E|].
    split; [by apply (split_append "/" p n l "")|].
    unfold segc. by rewrite Hs, seg_components_app, app_nil_r.
  - exists (split "/" p). split; [apply split_append_sep|done].
Qed.

Lemma segc_path_join p n :
  absolute p = true → absolute n = false → segc (path_join p n) = segc p ++ segc n.
Proof.
  intros Hp Hn. destruct (split_path_join p n Hp Hn) as (l & Hs & Hl). unfold segc at 1.
  by rewrite Hs, seg_components_app, Hl.
Qed.

Lemma last_split_app c (l : list string) n : last (l ++ split c n) = last (split c n).
Proof. rewrite last_app. by destruct (last (split c n)) eqn:E; [|apply last_None, split_ne in E]. Qed.

Lemma trailing_path_join p n :
  absolute p = true → absolute n = false → trailing (path_join p n) = trailing n.
Proof.
  intros Hp Hn. destruct (split_path_join p n Hp Hn) as (l & Hs & _).
  unfold trailing. by rewrite Hs, last_split_app.
Qed.

(** ** Suffixes *)
Lemma append_suffix_ne t s : s ≠ "" → t +:+ s ≠ "".
Proof. by destruct t, s. Qed.

Lemma append_length a b : String.length (a +:+ b) = (String.length a + String.length b)%nat.
Proof.
  induction a as [|x a IH]; [done|]. change (String x a +:+ b) with (String x (a +:+ b)).
  cbn [String.length]. by rewrite IH.
Qed.

(** A path that names a file changes its last name. *)
Lemma segc_suffix p s :
  contains "/" s = false → (2 < String.length s)%nat → trailing p = false →
  ∃ cs t, segc p = cs ++ [if t ==s ".." then ParentDir else Normal t] ∧ contains "/" t = false ∧
          segc (p +:+ s) = cs ++ [Normal (t +:+ s)] ∧ trailing (p +:+ s) = false ∧ t ≠ "" ∧ t ≠ ".".
Proof.
  intros Hs Hl Ht. destruct (exists_last (split_ne "/" p)) as (l & t & Hp).
  assert (split "/" (p +:+ s) = l ++ [t +:+ s]) as Hps
    by (by apply (split_append "/" p s l t s []); [|apply split_no_sep]).
  unfold trailing in *. rewrite Hp, last_snoc in Ht. apply orb_false_iff in Ht as [H1 H2].
  unfold eqb_str in H1, H2. apply bool_decide_eq_false in H1, H2.
  assert (∀ u, (String.length u ≤ 2)%nat → (t +:+ s ==s u) = false) as Hne.
  { intros u Hu. apply bool_decide_eq_false. intros <-. rewrite append_length in Hu. lia. }
  exists (seg_components l), t. unfold segc. rewrite Hp, Hps, !seg_components_app. cbn [seg_components].
  rewrite last_snoc, !(Hne _) by (cbn; lia). unfold eqb_str. rewrite !(bool_decide_eq_false_2 (t = _)) by done.
  cbn [orb]. split_and!; try done. apply (split_no_slash "/" p). rewrite Hp. set_solver.
Qed.

(** A path that names a directory gets a name below it. *)
Lemma segc_suffix_trailing p s :
  contains "/" s = false → (2 < String.length s)%nat → trailing p = true →
  ∃ t, segc (p +:+ s) = segc p ++ [Normal (t +:+ s)] ∧ trailing (p +:+ s) = false ∧ (t = "" ∨ t = ".").
Proof.
  intros Hs Hl Ht. destruct (exists_last (split_ne "/" p)) as (l & t & Hp).
  assert (split "/" (p +:+ s) = l ++ [t +:+ s]) as Hps
    by (by apply (split_append "/" p s l t s []); [|apply split_no_sep]).
  unfold trailing in *. rewrite Hp, last_snoc in Ht.
  assert (∀ u, (String.length u ≤ 2)%nat → (t +:+ s ==s u) = false) as Hne.
  { intros u Hu. apply bool_decide_eq_false. intros <-. rewrite append_length in Hu. lia. }
  exists t. unfold segc. rewrite Hp, Hps, !seg_components_app. cbn [seg_components].
  rewrite last_snoc, !(Hne _) by (cbn; lia). rewrite Ht. cbn [orb]. rewrite app_nil_r.
  split_and!; try done. apply orb_true_iff in Ht as [Ht|Ht]; apply eqb_str_true in Ht; auto.
Qed.

Lemma components_relative n :
  absolute n = false → components n = segc n ∨ components n = CurDir :: segc n.
Proof.
  unfold components, absolute, segc. intros ->. destruct (split "/" n) as [|x xs]; [by left|].
  destruct (decide (x = ".")) as [-> |Hx]; [by right|left].
  by repeat (case_match; try done).
Qed.

(** ** Parents and names *)
Definition name_ok (s : string) : Prop := s ≠ "" ∧ s ≠ "." ∧ s ≠ ".." ∧ contains "/" s = false.
Definition comp_ok (c : Component) : Prop :=
  match c with Normal s => name_ok s | ParentDir => True | _ => False end.

Lemma seg_components_ok l : Forall (λ s, contains "/" s = false) l → Forall comp_ok (seg_components l).
Proof.
  induction 1 as [|s l Hs Hl IH]; cbn [seg_components]; [constructor|].
  case_match eqn:E; [done|]. constructor; [|done].
  apply orb_false_iff in E as [E1 E2]. unfold eqb_str in *. apply bool_decide_eq_false in E1, E2.
  case_bool_decide; [done|]. by repeat split.
Qed.

Lemma segc_ok p : Forall comp_ok (segc p).
Proof. apply seg_components_ok, Forall_forall. intros s. apply split_no_slash. Qed.

Lemma seg_components_strings cs :
  Forall comp_ok cs → seg_components (component_string <$> cs) = cs.
Proof.
  induction 1 as [|c cs Hc Hcs IH]; [done|]. cbn [fmap list_fmap seg_components].
  assert ((component_string c ==s "") || (component_string c ==s ".") = false) as ->.
  { apply orb_false_iff. unfold eqb_str. split; apply bool_decide_eq_false; destruct c as [| | |s]; try done; by destruct Hc as (?&?&?&?). }
  rewrite IH. f_equal. unfold eqb_str. destruct c; try done. destruct Hc as (?&?&?&?).
  by rewrite bool_decide_eq_false_2.
Qed.

Lemma split_path_string cs :
  cs ≠ [] → Forall comp_ok cs →
  split "/" (path_string (RootDir :: cs)) = "" :: (component_string <$> cs).
Proof.
  intros Hne Hcs. change (path_string (RootDir :: cs)) with
    (match cs with [] => "/" | _ => RustStd.join "/" ("" :: (component_string <$> cs)) end).
  destruct cs as [|c cs]; [done|]. apply split_join; [done|].
  constructor; [done|]. apply Forall_fmap. eapply Forall_impl; [exact Hcs|].
  intros [| | |s] Hc; try done. by destruct Hc as (?&?&?&?).
Qed.

Lemma path_string_absolute cs : absolute (path_string (RootDir :: cs)) = true.
Proof. by destruct cs as [|c cs]. Qed.

Lemma segc_path_string cs : Forall comp_ok cs → segc (path_string (RootDir :: cs)) = cs.
Proof.
  intros Hcs. destruct cs as [|c cs]; [done|]. unfold segc.
  rewrite split_path_string by done. exact (seg_components_strings (c :: cs) Hcs).
Qed.

Lemma trailing_path_string cs :
  cs ≠ [] → Forall comp_ok cs → trailing (path_string (RootDir :: cs)) = false.
Proof.
  intros Hne Hcs. unfold trailing. rewrite split_path_string by done.
  destruct (exists_last Hne) as (l & c & ->). rewrite fmap_app, app_comm_cons. cbn [fmap list_fmap].
  rewrite last_snoc. apply Forall_app in Hcs as [_ [Hc _]%Forall_cons].
  apply orb_false_iff. unfold eqb_str. split; apply bool_decide_eq_false;
    destruct c as [| | |s]; try done; by destruct Hc as (?&?&?&?).
Qed.

Lemma path_parent_absolute p cs c :
  absolute p = true → segc p = cs ++ [c] → path_parent p = Some (path_string (RootDir :: cs)).
Proof.
  intros Hp Hs. unfold path_parent. rewrite (components_absolute p Hp), Hs, app_comm_cons, last_snoc.
  pose proof (segc_ok p) as Hok. rewrite Hs in Hok. apply Forall_app in Hok as [_ [Hc _]%Forall_cons].
  rewrite removelast_last. by destruct c.
Qed.

Lemma path_file_name_absolute p cs c :
  absolute p = true → segc p = cs ++ [c] →
  path_file_name p = match c with Normal s => Some s | _ => None end.
Proof.
  intros Hp Hs. unfold path_file_name. by rewrite (components_absolute p Hp), Hs, app_comm_cons, last_snoc.
Qed.

(** ** Resolution *)
Abbreviation nmap := (gmap (list string) Node).

(** Every node is in a directory. *)
Definition tree (m : nmap) : Prop := ∀ l s, is_Some (m !! (l ++ [s])) → m !! l = Some Dir.

Definition is_link (n : option Node) : Prop := ∃ t, n = Some (Link t).

Lemma walk_unfold m n cur c cs f :
  walk m n cur (c :: cs) f =
    match m !! cur with
    | None => Err NotFound
    | Some (File _) | Some (Link _) => Err NotADirectory
    | Some Dir =>
        match c with
        | RootDir => walk m n [] cs f
        | CurDir => walk m n cur cs f
        | ParentDir => walk m n (removelast cur) cs f
        | Normal s =>
            match m !! (cur ++ [s]) with
            | Some (Link t) =>
                if bool_decide (cs = []) && negb f then Ok (cur ++ [s])
                else match n with
                     | O => Err FilesystemLoop
                     | S n => walk m n cur (segments t ++ cs) f
                     end
            | _ => walk m n (cur ++ [s]) cs f
            end
        end
    end.
Proof. by destruct n. Qed.

Lemma walk_nil m n cur f : walk m n cur [] f = Ok cur.
Proof. by destruct n. Qed.

(** What a smaller map resolves to something that exists, a larger one does. *)
Lemma walk_mono m1 m2 n cur cs f l :
  m1 ⊆ m2 → walk m1 n cur cs f = Ok l → is_Some (m1 !! l) → walk m2 n cur cs f = Ok l.
Proof.
  intros Hsub. revert cur cs. induction n as [n IHn] using lt_wf_ind. intros cur cs. revert cur.
  induction cs as [|c cs IH]; intros cur; [by rewrite !walk_nil|].
  rewrite !walk_unfold. intros Hw Hl.
  destruct (m1 !! cur) as [[| |]|] eqn:Ec; try done. rewrite (lookup_weaken m1 m2 cur Dir Ec Hsub).
  destruct c as [| | |s]; [auto|auto|auto|].
  destruct (m1 !! (cur ++ [s])) as [[|i|t]|] eqn:Es;
    try rewrite (lookup_weaken m1 m2 _ _ Es Hsub); auto.
  - case_match; [done|]. destruct n as [|n]; [done|]. apply IHn; [lia|done|done].
  - exfalso. destruct cs as [|c cs].
    + rewrite walk_nil in Hw. injection Hw as Hw. rewrite Hw in Es. rewrite Es in Hl. by destruct Hl.
    + by rewrite walk_unfold, Es in Hw.
Qed.

(** A path can be resolved in two parts, the first up to a directory. *)
Lemma walk_app m n cur cs ds f l :
  ds ≠ [] → walk m n cur cs true = Ok l →
  ∃ n', walk m n cur (cs ++ ds) f = walk m n' l ds f.
Proof.
  intros Hds. revert cur cs. induction n as [n IHn] using lt_wf_ind. intros cur cs. revert cur.
  induction cs as [|c cs IH]; intros cur; [rewrite walk_nil; intros [= <-]; by eexists|].
  cbn [app]. rewrite !walk_unfold. intros Hw.
  destruct (m !! cur) as [[| |]|] eqn:Ec; try done. destruct c as [| | |s]; [auto|auto|auto|].
  destruct (m !! (cur ++ [s])) as [[|i|t]|] eqn:Es; auto.
  rewrite andb_false_r in Hw. rewrite (bool_decide_eq_false_2 (cs ++ ds = [])) by (by destruct cs).
  cbn [andb]. destruct n as [|n]; [done|]. rewrite app_assoc. apply IHn; [lia|done].
Qed.

(** Not following a last link leads to something that exists as well. *)
Lemma walk_nofollow_exists m n cur cs l :
  walk m n cur cs true = Ok l → is_Some (m !! l) →
  ∃ l', walk m n cur cs false = Ok l' ∧ is_Some (m !! l').
Proof.
  revert cur cs. induction n as [n IHn] using lt_wf_ind. intros cur cs. revert cur.
  induction cs as [|c cs IH]; intros cur; [rewrite !walk_nil; intros [= ->]; by eexists|].
  rewrite !walk_unfold. intros Hw Hl. destruct (m !! cur) as [[| |]|] eqn:Ec; try done.
  destruct c as [| | |s]; [eauto|eauto|eauto|].
  destruct (m !! (cur ++ [s])) as [[|i|t]|] eqn:Es; eauto.
  rewrite andb_false_r in Hw. destruct (bool_decide (cs = [])) eqn:E; cbn [andb negb].
  - eexists. split; [done|]. by rewrite Es.
  - destruct n as [|n]; [done|]. eapply IHn; [|done..]. lia.
Qed.

(** Below a directory, where no link is in the way, a path leads to its names;
    with [d] it ends in a slash. *)
Lemma walk_names m n l ns f d :
  tree m →
  (∀ k s, k ++ [s] `prefix_of` ns → (f = true ∨ d = true ∨ k ++ [s] ≠ ns) → ¬ is_link (m !! (l ++ k ++ [s]))) →
  let w := walk m n l ((Normal <$> ns) ++ if d : bool then [CurDir] else []) f in
  w = Ok (l ++ ns) ∧ (d = true → m !! (l ++ ns) = Some Dir) ∨
  ∃ e, w = Err e ∧ (e = NotFound → m !! (l ++ ns) = None).
Proof.
  intros Ht. cbv zeta. revert l. induction ns as [|s ns IH]; intros l Hn.
  { cbn [fmap list_fmap app]. rewrite app_nil_r. destruct d; [|left; by rewrite walk_nil].
    rewrite walk_unfold. destruct (m !! l) as [[]|] eqn:E; [left; by rewrite walk_nil|right; by eexists..]. }
  cbn [fmap list_fmap app]. rewrite walk_unfold.
  assert (∀ k, m !! l ≠ Some Dir → is_Some (m !! (l ++ s :: k)) → False) as Hup.
  { intros k Hl. induction k as [|x k IHk] using rev_ind; intros Hs; [by apply Hl, (Ht l s)|].
    apply IHk. rewrite app_comm_cons, app_assoc in Hs. by rewrite (Ht _ _ Hs). }
  destruct (m !! l) as [[|i|t]|] eqn:El; [|right; by eexists..|].
  2: { right. eexists. split; [done|]. intros _. apply eq_None_not_Some. intros Hs. by eapply (Hup ns). }
  specialize (IH (l ++ [s])). rewrite <- app_assoc in IH. cbn [app] in IH.
  assert (∀ k x, k ++ [x] `prefix_of` ns → f = true ∨ d = true ∨ k ++ [x] ≠ ns →
                 ¬ is_link (m !! ((l ++ [s]) ++ k ++ [x]))) as Hrec.
  { intros k x Hk Hc. rewrite <- app_assoc. cbn [app].
    apply (Hn (s :: k) x); [by apply prefix_cons|]. destruct Hc as [?|[?|Hc]]; [by left|by right; left|].
    right. right. intros [=]. done. }
  specialize (IH Hrec). destruct (m !! (l ++ [s])) as [[|i|t]|] eqn:Es; try done.
  destruct (decide ((Normal <$> ns) ++ (if d then [CurDir] else []) = [] ∧ f = false)) as [[Hnil ->]|Hx].
  - rewrite Hnil. left. destruct ns; [by destruct d|done].
  - exfalso. apply (Hn [] s); [by apply prefix_cons, prefix_nil| |cbn; rewrite Es; by eexists].
    destruct f; [by left|right]. destruct d; [by left|right]. cbn. intros [= <-]. by apply Hx.
Qed.
End FileSystemProofs.
