(* ===== verification/FileTransferProofs.v ===== *)
(** * File transfer: what a download can touch

    The checks of a download job confine every change to the destination the user
    chose, whatever the peer sends; nothing that was there is replaced without a
    confirmation. *)
From S2P Require Import Prelude RustStd RecordUpdate FileSystem FileSystemProofs FileTransfer.
From Stdlib Require Import Ascii.
Import FileSystem FileSystemProofs FileTransfer.

Module FileTransferProofs.

(** ** Calls that change nothing *)
Record same (fs fs' : Fs) : Prop := mkSame {
  same_nodes : nodes fs' = nodes fs;
  same_inodes : inodes fs' = inodes fs;
  same_ino : next_ino fs' = next_ino fs;
  same_cwd : cwd fs' = cwd fs;
  same_clock : clock fs' = clock fs;
}.
Lemma same_refl fs : same fs fs.
Proof. by split. Qed.
Lemma same_trans a b c : same a b → same b c → same a c.
Proof. intros [] []. split; congruence. Qed.

Definition reads {A} (m : M Fs A) : Prop := ∀ fs, same fs (m fs).2.

Lemma reads_ret {A} (a : A) : reads (mret a).
Proof. intros fs. apply same_refl. Qed.
Lemma reads_fail {A} e : reads (@fail Fs A e).
Proof. intros fs. apply same_refl. Qed.
Lemma reads_of_result {A} (r : result A Error) : reads (of_result r).
Proof. intros fs. apply same_refl. Qed.
Lemma reads_unwrap {A} w (o : option A) : reads (unwrap w o).
Proof. destruct o; [apply reads_ret|apply reads_fail]. Qed.

Lemma reads_bind {A B} (m : M Fs A) (k : A → M Fs B) :
  reads m → (∀ a, reads (k a)) → reads (m ≫= k).
Proof.
  intros Hm Hk fs. unfold mbind, m_bind. specialize (Hm fs).
  destruct (m fs) as [[a|e] fs1]; [|done]. eapply same_trans; [exact Hm|apply Hk].
Qed.

Lemma reads_try {A} (m : M Fs A) : reads m → reads (try m).
Proof. intros Hm fs. specialize (Hm fs). unfold try. by destruct (m fs). Qed.

Lemma reads_syscall {A} (f : Fs → result (A * Fs) ErrorKind) :
  (∀ fs a fs', f fs = Ok (a, fs') → fs' = fs) → reads (syscall f).
Proof.
  intros Hf fs. unfold syscall.
  destruct (faults fs) as [|[|] ?] eqn:E; [|done|];
    (destruct (f _) as [[a fs']|e] eqn:Ef; [apply Hf in Ef as ->|]; by split).
Qed.

Create HintDb reads discriminated.
#[local] Hint Resolve reads_ret reads_fail reads_of_result reads_unwrap reads_bind reads_try : reads.

Lemma reads_stat p f : reads (stat p f).
Proof. apply reads_syscall. intros fs a fs' H. by inv_result; simplify_eq. Qed.
Lemma reads_metadata p : reads (metadata p).
Proof. apply reads_stat. Qed.
Lemma reads_symlink_metadata p : reads (symlink_metadata p).
Proof. apply reads_stat. Qed.
Lemma reads_handle_metadata h : reads (handle_metadata h).
Proof. apply reads_syscall. intros fs a fs' H. by inv_result; simplify_eq. Qed.
Lemma reads_seek h o : reads (seek h o).
Proof. apply reads_syscall. intros fs a fs' H. by inv_result; simplify_eq. Qed.
Lemma reads_flush : reads flush.
Proof. apply reads_syscall. intros fs a fs' H. by inv_result; simplify_eq. Qed.
Lemma reads_read_to_end p : reads (read_to_end p).
Proof. apply reads_syscall. intros fs a fs' H. inv_result. repeat case_match; by simplify_eq. Qed.
Lemma reads_try_exists p : reads (try_exists p).
Proof.
  intros fs. unfold try_exists. pose proof (reads_metadata p fs) as H.
  by destruct (metadata p fs) as [[|[[]|]] ?].
Qed.
Lemma reads_open_write p : reads (open_write false false p).
Proof.
  apply reads_syscall. intros fs a fs' H. apply result_bind_ok in H as (l & _ & H).
  repeat case_match; by simplify_eq.
Qed.
#[local] Hint Resolve reads_open_write reads_metadata reads_symlink_metadata reads_handle_metadata reads_seek
  reads_flush reads_read_to_end reads_try_exists : reads.

Lemma reads_exists p : reads (exists_ p).
Proof. unfold exists_. auto with reads. Qed.
#[local] Hint Resolve reads_exists : reads.

(** Case analysis down to calls the database knows. *)
Ltac reads_tac :=
  repeat first
    [ progress auto with reads
    | apply reads_bind; [|intros ?]
    | match goal with |- reads (match ?x with _ => _ end) => destruct x end
    | match goal with |- reads (if ?b then _ else _) => destruct b end ].

Lemma reads_no_symlink_from c cs : reads (no_symlink_from c cs).
Proof.
  revert c. induction cs as [|[| | |s] cs IH]; intros c; cbn [no_symlink_from];
    unfold bail; auto with reads. reads_tac.
Qed.

Lemma reads_validate_no_symlink_components b n : reads (validate_no_symlink_components b n).
Proof. unfold validate_no_symlink_components. case_match; auto using reads_no_symlink_from with reads. Qed.
#[local] Hint Resolve reads_validate_no_symlink_components : reads.

Lemma reads_join_validated_path b n : reads (join_validated_path b n).
Proof. unfold join_validated_path. reads_tac. Qed.
#[local] Hint Resolve reads_join_validated_path : reads.

Lemma reads_validated_target b n : reads (validated_target b n).
Proof. unfold validated_target. reads_tac. Qed.
#[local] Hint Resolve reads_validated_target : reads.

Lemma reads_download_target j n : reads (download_target j n).
Proof. unfold download_target, bail. reads_tac. Qed.
#[local] Hint Resolve reads_download_target : reads.

Lemma reads_is_write_need_confirmation dj r p d : reads (is_write_need_confirmation dj r p d).
Proof. unfold is_write_need_confirmation, resume_reply, since_epoch, bail. reads_tac. Qed.
#[local] Hint Resolve reads_is_write_need_confirmation : reads.

(** A computation that returned: each of its steps did. *)
Lemma bind_ok {S A B} (m : M S A) (k : A → M S B) s b s' :
  (m ≫= k) s = (Ok b, s') → ∃ a s1, m s = (Ok a, s1) ∧ k a s1 = (Ok b, s').
Proof. unfold mbind, m_bind. destruct (m s) as [[a|e] s1]; [|done]. intros H. by exists a, s1. Qed.

Lemma reads_ok {A} (m : M Fs A) fs a fs' : reads m → m fs = (Ok a, fs') → same fs fs'.
Proof. intros Hm H. specialize (Hm fs). by rewrite H in Hm. Qed.

(** What a successful call found, and what a missing file means. *)
Lemma syscall_ok {A} (f : Fs → result (A * Fs) ErrorKind) fs a fs' :
  syscall f fs = (Ok a, fs') → ∃ fs1, same fs fs1 ∧ f fs1 = Ok (a, fs').
Proof.
  unfold syscall. intros H. destruct (faults fs) as [|[|] ?] eqn:E; [|done|];
    (destruct (f _) as [[x y]|] eqn:Ef; simplify_eq; eexists; split; [|exact Ef]; by split).
Qed.

Lemma syscall_err {A} (f : Fs → result (A * Fs) ErrorKind) fs e fs' :
  syscall f fs = (Err e, fs') →
  same fs fs' ∧ (e = Io OtherError ∨ ∃ k, e = Io k ∧ f fs' = Err k).
Proof.
  unfold syscall. intros H.
  destruct (faults fs) as [|[|] ?] eqn:E; [|simplify_eq; split; [by split|by left]|];
    (destruct (f _) as [[x y]|k] eqn:Ef; simplify_eq; split; [by split|right; by exists k]).
Qed.

Lemma resolve_same fs fs' p f : same fs fs' → resolve fs' p f = resolve fs p f.
Proof. intros []. unfold resolve. by rewrite same_nodes0, same_cwd0. Qed.

Lemma symlink_metadata_ok p fs md fs' :
  symlink_metadata p fs = (Ok md, fs') →
  ∃ l, resolve fs p false = Ok l ∧ ∃ n, nodes fs !! l = Some n ∧ (is_symlink md = false → ¬ is_link (Some n)).
Proof.
  intros (fs1 & Hs & H)%syscall_ok. apply result_bind_ok in H as (l & Hl & H).
  apply result_bind_ok in H as (md' & Hm & H). simplify_eq.
  exists l. rewrite <- Hl, <- (resolve_same fs fs') by done. split; [done|].
  unfold node_metadata in Hm. rewrite (same_nodes _ _ Hs) in Hm.
  destruct (nodes fs !! l) as [[|i|t]|]; simplify_eq; eexists; (split; [done|]); intros Hf [t' ?]; by simplify_eq.
Qed.

Lemma stat_not_found p f fs fs' :
  stat p f fs = (Err (Io NotFound), fs') →
  resolve fs p f = Err NotFound ∨ ∃ l, resolve fs p f = Ok l ∧ nodes fs !! l = None.
Proof.
  intros [Hs [?|(k & [= <-] & H)]]%syscall_err; [done|].
  rewrite (resolve_same fs fs') in H by done.
  apply result_bind_err in H as [H|(l & Hl & H)]; [by left|right]. exists l. split; [done|].
  apply result_bind_err in H as [H|(md & _ & ?)]; [|done].
  unfold node_metadata in H. rewrite (same_nodes _ _ Hs) in H. by destruct (nodes fs !! l) as [[]|].
Qed.

Lemma try_exists_false p fs fs' :
  try_exists p fs = (Ok false, fs') →
  resolve fs p true = Err NotFound ∨ ∃ l, resolve fs p true = Ok l ∧ nodes fs !! l = None.
Proof.
  unfold try_exists. destruct (metadata p fs) as [[?|[[]|]] ?] eqn:E; intros [= <-].
  by eapply stat_not_found.
Qed.

(** ** Below a destination

    The user saves to [leaf] in a folder: the path [base], with the components
    [cs0] below the root before the last, leads to [leaf] in the directory [PL]. *)
Section Destination.
Context (base : string) (cs0 : list Component) (leaf : string) (PL : Loc).
Context (base_absolute : absolute base = true) (base_components : segc base = cs0 ++ [Normal leaf]).

Definition folder : string := path_string (RootDir :: cs0).

Lemma base_parts_ok : Forall comp_ok cs0 ∧ name_ok leaf.
Proof.
  pose proof (segc_ok base) as H. rewrite base_components in H.
  apply Forall_app in H as [H1 [H2 _]%Forall_cons]. done.
Qed.

Lemma base_parent : path_parent base = Some folder.
Proof. by apply (path_parent_absolute base cs0 (Normal leaf)). Qed.
Lemma base_file_name : path_file_name base = Some leaf.
Proof. by rewrite (path_file_name_absolute base cs0 (Normal leaf)). Qed.
Lemma folder_absolute : absolute folder = true.
Proof. apply path_string_absolute. Qed.
Lemma folder_components : segc folder = cs0.
Proof. apply segc_path_string, base_parts_ok. Qed.

(** Where a download may put things: the destination, what is below it, and its
    staging and digest files. *)
Definition area (l : Loc) : Prop :=
  (PL ++ [leaf]) `prefix_of` l ∨ l = PL ++ [suffixed leaf "download"] ∨ l = PL ++ [suffixed leaf "digest"].
#[local] Instance area_dec l : Decision (area l).
Proof. unfold area. apply _. Defined.

Lemma area_below ns : area (PL ++ leaf :: ns).
Proof. left. exists ns. by rewrite <- app_assoc. Qed.

Lemma area_not_PL l : area l → ¬ l `prefix_of` PL.
Proof.
  intros Ha Hp. apply prefix_length in Hp.
  destruct Ha as [Ha%prefix_length|[-> | ->]]; rewrite !length_app in *; cbn in *; lia.
Qed.

(** The nodes outside of it. *)
Definition outside (m : nmap) : nmap := filter (λ p, ¬ area p.1) m.

(** What is to stay: some locations and the contents of some inodes. *)
Context (PLoc : Loc → Prop) (PIno : nat → Prop) (n0 : nat).
Context (PIno_old : ∀ i, PIno i → (i < n0)%nat).
(** Without confirmations, anything may be protected; with them, what is outside. *)
Context (confirming : bool) (PLoc_outside : confirming = true → ∀ l, area l → ¬ PLoc l).

Record good (fs : Fs) : Prop := mkGood {
  good_tree : tree (nodes fs);
  good_ino : ∀ l i, nodes fs !! l = Some (File i) → (i < next_ino fs)%nat;
  good_new : (n0 ≤ next_ino fs)%nat;
  good_folder : walk (outside (nodes fs)) MAX_LINKS [] (RootDir :: cs0) true = Ok PL;
  good_dir : nodes fs !! PL = Some Dir;
  good_kept : ∀ l, area l → PLoc l → is_Some (nodes fs !! l) ∧ ¬ is_link (nodes fs !! l);
  good_named : confirming = true → ∀ i, PIno i → ∃ l, ¬ area l ∧ nodes fs !! l = Some (File i);
}.

Record conf (fs fs' : Fs) : Prop := mkConf {
  conf_nodes : ∀ l, PLoc l → nodes fs' !! l = nodes fs !! l;
  conf_outside : ∀ l, ¬ area l → nodes fs' !! l = nodes fs !! l;
  conf_data : ∀ i, PIno i → content (inode fs' i) = content (inode fs i);
}.

Lemma conf_refl fs : conf fs fs.
Proof. split; auto. Qed.
Lemma conf_trans a b c : conf a b → conf b c → conf a c.
Proof. intros [H1 H2 H3] [K1 K2 K3]. split; intros; [rewrite K1, H1|rewrite K2, H2|rewrite K3, H3]; done. Qed.

Lemma same_conf fs fs' : same fs fs' → conf fs fs'.
Proof. intros []. split; intros; [by rewrite same_nodes0..|]. unfold inode. by rewrite same_inodes0. Qed.

Lemma same_good fs fs' : same fs fs' → good fs → good fs'.
Proof. intros [] []. split; by rewrite ?same_nodes0, ?same_ino0. Qed.

Lemma outside_eq m m' : (∀ l, ¬ area l → m' !! l = m !! l) → outside m' = outside m.
Proof.
  intros H. apply map_eq. intros l. unfold outside. rewrite !map_lookup_filter.
  destruct (decide (area l)) as [Ha|Ha].
  - destruct (m !! l), (m' !! l); cbn; rewrite ?option_guard_False; auto.
  - by rewrite H.
Qed.

(** Changes of nodes in the area keep a state well formed. *)
Lemma good_update fs fs' :
  good fs → tree (nodes fs') → (∀ l, ¬ area l ∨ PLoc l → nodes fs' !! l = nodes fs !! l) →
  (next_ino fs ≤ next_ino fs')%nat →
  (∀ l i, nodes fs' !! l = Some (File i) → (i < next_ino fs')%nat) → good fs'.
Proof.
  intros [] Ht Ho Hn Hi. split; try done.
  - lia.
  - rewrite (outside_eq (nodes fs)); [done|]. intros l Hl. apply Ho. by left.
  - rewrite Ho; [done|]. left. intros Ha. by apply (area_not_PL _ Ha).
  - intros l Ha Hl. rewrite Ho; [auto|by right].
  - intros Hc i Hpi. destruct (good_named0 Hc i Hpi) as (l & Hl & Hx). exists l. split; [done|].
    rewrite Ho; [done|by left].
Qed.

Lemma tree_delete m l : tree m → m !! l ≠ Some Dir → tree (delete l m).
Proof.
  intros Ht Hl k s Hk. assert (m !! k = Some Dir) as Hd.
  { apply (Ht k s). destruct (decide (l = k ++ [s])) as [-> |]; [by rewrite lookup_delete_eq in Hk; destruct Hk|].
    by rewrite lookup_delete_ne in Hk. }
  rewrite lookup_delete_ne; [done|]. by intros ->.
Qed.

Lemma tree_insert m l n :
  tree m → m !! removelast l = Some Dir → l ≠ [] → (m !! l ≠ Some Dir ∨ n = Dir) → tree (<[l := n]> m).
Proof.
  intros Ht Hp Hne Hl k s Hk.
  assert (m !! k = Some Dir) as Hd.
  { destruct (decide (l = k ++ [s])) as [-> |].
    - by rewrite removelast_last in Hp.
    - rewrite lookup_insert_ne in Hk by done. by apply (Ht k s). }
  destruct (decide (l = k)) as [<-|]; [|by rewrite lookup_insert_ne].
  rewrite lookup_insert_eq. destruct Hl as [? | ->]; [congruence|done].
Qed.

(** ** Where paths in the folder lead *)
Definition links_free (m : nmap) (ns : list string) : Prop :=
  ∀ k s, k ++ [s] `prefix_of` ns → ¬ is_link (m !! (PL ++ k ++ [s])).

Lemma links_free_nil m : links_free m [].
Proof. intros k s [t H]. by destruct k. Qed.

Lemma links_free_snoc m ns s :
  links_free m (ns ++ [s]) ↔ links_free m ns ∧ ¬ is_link (m !! (PL ++ ns ++ [s])).
Proof.
  split.
  - intros H. split; [|by apply H]. intros k x Hk. apply H. etrans; [exact Hk|]. by eexists.
  - intros [H1 H2] k x [t Ht]. destruct t as [|y t _] using rev_ind.
    + rewrite app_nil_r in Ht. by rewrite <- Ht.
    + rewrite app_assoc in Ht. simplify_list_eq. apply H1. exists t. by rewrite <- app_assoc.
Qed.

Lemma links_free_prefix m k ns : k `prefix_of` ns → links_free m ns → links_free m k.
Proof. intros Hk H x s Hx. apply H. by etrans. Qed.

Lemma links_free_mono m m' ns :
  (∀ l, is_link (m' !! l) → is_link (m !! l)) → links_free m ns → links_free m' ns.
Proof. intros Hl H k s Hk Hx. by eapply H, Hl. Qed.

(** A path below the folder. *)
Definition below (q : string) (ns : list string) : Prop :=
  absolute q = true ∧ segc q = cs0 ++ (Normal <$> ns).

Lemma resolve_below_segments fs q ns f :
  good fs → below q ns → ns ≠ [] →
  ∃ n, resolve fs q f =
       walk (nodes fs) n PL ((Normal <$> ns) ++ if trailing q then [CurDir] else []) f.
Proof.
  intros Hg [Hq Hs] Hne. unfold resolve, segments. change (starts_with "/" q) with (absolute q).
  rewrite Hq, (components_absolute q Hq), Hs.
  destruct (is_empty q) eqn:E; [apply is_empty_true in E as ->; done|].
  rewrite app_comm_cons, <- !app_assoc.
  apply walk_app; [by destruct ns|]. destruct Hg.
  apply (walk_mono (outside (nodes fs)) (nodes fs)); [apply map_filter_subseteq|done|].
  exists Dir. apply map_lookup_filter_Some. split; [done|]. intros Ha. by apply (area_not_PL _ Ha).
Qed.

(** If no link is below the folder, a path leads where it says; a last link does
    not matter to a call that does not follow it. *)
Lemma resolve_below fs q ns f :
  good fs → below q ns → ns ≠ [] →
  links_free (nodes fs) ns ∨ (f = false ∧ trailing q = false ∧ links_free (nodes fs) (removelast ns)) →
  resolve fs q f = Ok (PL ++ ns) ∧ (trailing q = true → nodes fs !! (PL ++ ns) = Some Dir) ∨
  ∃ e, resolve fs q f = Err e ∧ (e = NotFound → nodes fs !! (PL ++ ns) = None).
Proof.
  intros Hg Hb Hne Hl. destruct (resolve_below_segments fs q ns f Hg Hb Hne) as [n ->].
  apply walk_names; [apply Hg|]. intros k s Hk Hc.
  destruct Hl as [Hl|(-> & Ht & Hl)]; [by apply Hl|].
  rewrite Ht in Hc. destruct Hc as [?|[?|Hc]]; [done..|]. apply Hl.
  destruct Hk as [t Ht']. destruct t as [|x t _] using rev_ind.
  - by rewrite app_nil_r in Ht'.
  - rewrite app_assoc in Ht'. subst ns. rewrite removelast_last. by eexists.
Qed.

Lemma below_join q ns s :
  below q ns → name_ok s → below (path_join q s) (ns ++ [s]) ∧ trailing (path_join q s) = false.
Proof.
  intros [Hq Hs] (H1 & H2 & H3 & H4).
  assert (split "/" s = [s]) as Hsp by (by apply split_no_sep).
  assert (absolute s = false) as Ha.
  { destruct s as [|a s]; [done|]. cbn [contains] in H4. apply orb_false_iff in H4 as [H4 _].
    apply bool_decide_eq_false in H4. apply bool_decide_eq_false. intros [t Ht]. cbn in Ht. by case_bool_decide. }
  assert (segc s = [Normal s]) as Hss.
  { unfold segc. rewrite Hsp. cbn. unfold eqb_str. by rewrite !bool_decide_eq_false_2. }
  split; [split|].
  - by apply path_join_absolute.
  - by rewrite segc_path_join, Hs, Hss, fmap_app, app_assoc.
  - rewrite trailing_path_join by done. unfold trailing. rewrite Hsp. cbn. unfold eqb_str.
    by rewrite !bool_decide_eq_false_2.
Qed.

Lemma below_folder : below folder [].
Proof. split; [apply folder_absolute|]. by rewrite folder_components, app_nil_r. Qed.

Lemma below_base : below base [leaf].
Proof. by split. Qed.

(** The names among some components. *)
Definition names (cs : list Component) : list string :=
  omap (λ c, match c with Normal s => Some s | _ => None end) cs.

(** The check that no component is a link did its work. *)
Lemma no_symlink_from_spec current cs fs fs' ns :
  good fs → below current ns → Forall (λ c, match c with Normal s => name_ok s | _ => True end) cs →
  links_free (nodes fs) ns → no_symlink_from current cs fs = (Ok tt, fs') →
  links_free (nodes fs) (ns ++ names cs) ∧ Forall (λ c, c = CurDir ∨ ∃ s, c = Normal s) cs.
Proof.
  intros Hg Hb Hok. revert current fs ns Hg Hb.
  induction Hok as [|c cs Hc Hcs IH]; intros current fs ns Hg Hb Hl Hr.
  { by rewrite app_nil_r. }
  destruct c as [| | |s]; cbn [no_symlink_from] in Hr; try done.
  - destruct (IH _ _ _ Hg Hb Hl Hr) as [H1 H2]. split; [done|]. constructor; [by left|done].
  - apply bind_ok in Hr as (r & fs1 & Ht & Hr).
    assert (same fs fs1) as Hs by (eapply reads_ok; [|exact Ht]; auto with reads).
    destruct (below_join _ _ _ Hb Hc) as [Hb' Htr].
    assert (¬ is_link (nodes fs !! (PL ++ ns ++ [s])) →
            no_symlink_from (path_join current s) cs fs1 = (Ok tt, fs') →
            links_free (nodes fs) (ns ++ names (Normal s :: cs)) ∧
            Forall (λ c, c = CurDir ∨ ∃ s, c = Normal s) (Normal s :: cs)) as Hnext.
    { intros Hn Hr'. destruct (IH _ fs1 (ns ++ [s]) (same_good _ _ Hs Hg) Hb') as [H1 H2]; [|done|].
      - rewrite (same_nodes _ _ Hs). by apply links_free_snoc.
      - rewrite (same_nodes _ _ Hs), <- app_assoc in H1. split; [done|]. constructor; [right; by eexists|done]. }
    unfold try in Ht. destruct (symlink_metadata (path_join current s) fs) as [[md|e] fs2] eqn:Em; simplify_eq.
    + destruct (is_symlink md) eqn:El; [done|]. apply Hnext; [|done].
      apply symlink_metadata_ok in Em as (l & Hres & n & Hn & Hnl).
      destruct (resolve_below fs _ _ false Hg Hb') as [[Hw _]|(e & Hw & _)];
        [by destruct ns|by right; rewrite removelast_last| |congruence].
      rewrite Hres in Hw. injection Hw as ->. rewrite Hn. by apply Hnl.
    + destruct e as [[]|]; try done. apply Hnext; [|done].
      apply stat_not_found in Em as Hnf.
      assert (nodes fs !! (PL ++ ns ++ [s]) = None) as ->; [|by intros [? ?]].
      destruct (resolve_below fs _ _ false Hg Hb') as [[Hw _]|(e & Hw & He)];
        [by destruct ns|by right; rewrite removelast_last| |].
      * destruct Hnf as [Hnf|(l & Hl' & Hnf)]; [congruence|]. by rewrite Hw in Hl'; simplify_eq.
      * destruct Hnf as [Hnf|(l & Hl' & Hnf)]; [|congruence]. apply He. congruence.
Qed.

(** A checked target: its names below the folder, none of them a link, and
    neither are its staging and digest files. *)
Record checked (m : nmap) (target : string) (ns : list string) : Prop := mkChecked {
  ck_below : below target (leaf :: ns);
  ck_links : links_free m (leaf :: ns);
  ck_side : trailing target = false → ∀ k s x, leaf :: ns = k ++ [s] →
            x = suffixed s "download" ∨ x = suffixed s "digest" → ¬ is_link (m !! (PL ++ k ++ [x]));
}.

Lemma suffixed_ok s x : name_ok s → contains "/" x = false → (2 < String.length x)%nat → name_ok (suffixed s x).
Proof.
  intros (H1 & H2 & H3 & H4) Hx Hl. unfold suffixed.
  assert (∀ u, (String.length u ≤ 2)%nat → s +:+ String "." x ≠ u) as Hne.
  { intros u Hu <-. rewrite append_length in Hu. cbn [String.length] in Hu. lia. }
  split_and!; [apply Hne; cbn; lia..|].
  clear -H4 Hx. induction s as [|a s IH]; [exact Hx|].
  change (String a s +:+ String "." x) with (String a (s +:+ String "." x)). cbn [contains] in *.
  apply orb_false_iff in H4 as [-> H4]. by apply IH.
Qed.

Lemma components_name s : name_ok s → components s = [Normal s].
Proof.
  intros (H1 & H2 & H3 & H4). destruct (components_relative s) as [H|H].
  - destruct s as [|a s]; [done|]. cbn [contains] in H4. apply orb_false_iff in H4 as [H4 _].
    apply bool_decide_eq_false in H4. apply bool_decide_eq_false. intros [t Ht]. cbn in Ht. by case_bool_decide.
  - rewrite H. unfold segc. rewrite split_no_sep by done. cbn. unfold eqb_str. by rewrite !bool_decide_eq_false_2.
  - exfalso. unfold components in H. rewrite split_no_sep in H by done. case_match; [done|].
    destruct (decide (s = ".")); [done|].
    assert (seg_components [s] = [Normal s]) as Hs by (cbn; unfold eqb_str; by rewrite !bool_decide_eq_false_2).
    repeat case_match; simplify_eq; congruence.
Qed.

Lemma names_normal cs : Forall (λ c, ∃ s, c = Normal s) cs → Normal <$> names cs = cs.
Proof. induction 1 as [|c cs [s ->] _ IH]; [done|]. cbn. by f_equal. Qed.

Lemma validate_name_spec n :
  validate_file_name_no_traversal n = Ok tt → absolute n = false ∧ ".." ∉ split "/" n.
Proof.
  unfold validate_file_name_no_traversal. case_match; [done|]. case_match eqn:E; [done|].
  case_match; [done|]. intros _. split; [done|]. intros Hin.
  assert (existsb (λ s, s ==s "..") (split "/" n) = true) as Hc; [|congruence].
  apply existsb_exists. exists "..". split; [by apply list_elem_of_In|done].
Qed.

Lemma segc_normal n :
  ".." ∉ split "/" n → Forall (λ c, ∃ s, c = Normal s ∧ name_ok s) (segc n).
Proof.
  intros Hn. pose proof (segc_ok n) as Hok. apply Forall_forall. intros c Hc.
  rewrite Forall_forall in Hok. specialize (Hok c Hc). destruct c as [| | |s]; try done; [|by exists s].
  exfalso. apply Hn. revert Hc. unfold segc. induction (split "/" n) as [|x xs IH]; [by intros ?%not_elem_of_nil|].
  cbn [seg_components]. intros Hin. case_match; [right; by apply IH; [set_solver|]|].
  apply elem_of_cons in Hin as [Hin|Hin]; [|right; apply IH; [set_solver|done]].
  case_match eqn:E; [|done]. apply eqb_str_true in E as ->. by left.
Qed.

Lemma validate_no_symlink_spec b n fs fs' ns :
  good fs → below b ns → Forall (λ c, match c with Normal s => name_ok s | _ => True end) (components n) →
  n ≠ "" → links_free (nodes fs) ns → validate_no_symlink_components b n fs = (Ok tt, fs') →
  links_free (nodes fs) (ns ++ names (components n)).
Proof.
  intros Hg Hb Hok Hn Hl. unfold validate_no_symlink_components.
  rewrite (proj2 (is_empty_false n)) by done. intros H. by eapply no_symlink_from_spec.
Qed.

(** Joining a checked name. *)
Lemma join_checked nm fs fs' target :
  good fs → links_free (nodes fs) [leaf] → join_validated_path base nm fs = (Ok target, fs') →
  target = join base nm ∧
  ∃ ns, below target (leaf :: ns) ∧ links_free (nodes fs) (leaf :: ns) ∧ Forall name_ok (leaf :: ns).
Proof.
  intros Hg Hl H. destruct base_parts_ok as [_ Hleaf]. unfold join_validated_path in H.
  apply bind_ok in H as ([] & fs1 & H1 & H). injection H1 as Hv <-.
  apply bind_ok in H as ([] & fs2 & H2 & H). injection H as <- <-. split; [done|].
  apply validate_name_spec in Hv as [Ha Hdd]. pose proof (segc_normal nm Hdd) as Hnm.
  unfold join. destruct (is_empty nm) eqn:E.
  - exists []. split_and!; [apply below_base|done|by constructor].
  - apply is_empty_false in E.
    assert (Forall (λ c, ∃ s, c = Normal s) (segc nm)) as Hnm' by (eapply Forall_impl; [exact Hnm|naive_solver]).
    assert (names (components nm) = names (segc nm)) as Hnames.
    { by destruct (components_relative nm Ha) as [-> | ->]. }
    apply (validate_no_symlink_spec base nm fs fs2 [leaf] Hg below_base) in H2; [|..|done|done].
    + exists (names (segc nm)). rewrite Hnames in H2. split_and!; [|done|].
      * destruct below_base as [Hb Hs]. split; [by apply path_join_absolute|].
        rewrite segc_path_join by done. rewrite Hs, <- app_assoc. f_equal. cbn. f_equal. by rewrite names_normal.
      * constructor; [done|]. apply Forall_forall. intros s (c & Hc & Hs)%list_elem_of_omap.
        rewrite Forall_forall in Hnm. destruct (Hnm c Hc) as (s' & -> & Hok). by simplify_eq.
    + destruct (components_relative nm Ha) as [-> | ->]; [|constructor; [done|]];
        (eapply Forall_impl; [exact Hnm|]; by intros c (s & -> & ?)).
Qed.

Lemma validated_target_spec nm fs fs' target :
  good fs → validated_target base nm fs = (Ok target, fs') →
  target = join base nm ∧ ∃ ns, checked (nodes fs) target ns.
Proof.
  intros Hg H. destruct base_parts_ok as [_ Hleaf]. unfold validated_target in H.
  rewrite base_parent, base_file_name in H. cbn [unwrap] in H.
  apply bind_ok in H as (? & ? & [= <- <-] & H). apply bind_ok in H as (? & ? & [= <- <-] & H).
  apply bind_ok in H as ([] & ? & [= _ <-] & H).
  apply bind_ok in H as ([] & fs1 & H1 & H). pose proof (reads_ok _ _ _ _ (reads_validate_no_symlink_components _ _) H1) as S1.
  apply bind_ok in H as (t & fs2 & H2 & H). pose proof (reads_ok _ _ _ _ (reads_join_validated_path _ _) H2) as S2.
  assert (links_free (nodes fs) [leaf]) as Hl0.
  { apply (validate_no_symlink_spec folder leaf fs fs1 [] Hg below_folder) in H1;
      [|by rewrite components_name; [repeat constructor; apply Hleaf|]|apply Hleaf|apply links_free_nil].
    by rewrite components_name in H1. }
  apply join_checked in H2 as (-> & ns & Hb & Hl & Hok);
    [|by eapply same_good|by rewrite (same_nodes _ _ S1)].
  rewrite (same_nodes _ _ S1) in Hl. pose proof (same_trans _ _ _ S1 S2) as S. clear S1 S2 H1.
  destruct (exists_last (l := leaf :: ns) ltac:(done)) as (k & s & Hks). pose proof Hb as [Hta Hts].
  rewrite Hks, fmap_app, app_assoc in Hts. cbn in Hts.
  rewrite (path_parent_absolute _ _ _ Hta Hts), (path_file_name_absolute _ _ _ Hta Hts) in H.
  cbn [unwrap] in H. apply bind_ok in H as (? & ? & [= <- <-] & H). apply bind_ok in H as (? & ? & [= <- <-] & H).
  apply bind_ok in H as ([] & fs3 & H3 & H). pose proof (reads_ok _ _ _ _ (reads_validate_no_symlink_components _ _) H3) as S3.
  apply bind_ok in H as ([] & fs4 & H4 & H). injection H as <- <-. split; [done|]. exists ns.
  rewrite Hks in Hok. pose proof Hok as [Hok1 [Hs _]%Forall_cons]%Forall_app.
  assert (∀ x fsa fsb, same fs fsa → name_ok x →
    validate_no_symlink_components (path_string (RootDir :: cs0 ++ (Normal <$> k))) x fsa = (Ok tt, fsb) →
    ¬ is_link (nodes fs !! (PL ++ k ++ [x]))) as Hside.
  { intros x fsa fsb Sa Hx Hv.
    apply (validate_no_symlink_spec _ x fsa fsb k) in Hv;
      [|by eapply same_good| |by rewrite components_name; [repeat constructor; apply Hx|]|apply Hx|].
    - rewrite components_name, (same_nodes _ _ Sa) in Hv by done. apply links_free_snoc in Hv. apply Hv.
    - split; [apply path_string_absolute|]. apply segc_path_string.
      pose proof (segc_ok (join base nm)) as Hc. rewrite Hts in Hc. by apply Forall_app in Hc as [? _].
    - rewrite (same_nodes _ _ Sa). eapply links_free_prefix; [|exact Hl]. rewrite Hks. by eexists. }
  split; [done|done|]. intros _ k' s' x Hk' Hx. rewrite Hk' in Hks. apply app_inj_tail in Hks as [-> ->].
  destruct Hx as [-> | ->];
    [refine (Hside _ _ _ S _ H3)|refine (Hside _ _ _ (same_trans _ _ _ S S3) _ H4)];
    (apply suffixed_ok; [done|done|cbn; lia]).
Qed.


(** ** Staging and digest files *)
Definition side (x : string) : Prop := x = "download" ∨ x = "digest".

(** The names [ks] of their directory and the name [t] they extend, which the
    text of the target decides. *)
Definition side_of (target : string) (ks : list string) (t : string) : Prop :=
  last (split "/" target) = Some t ∧
  segc target = cs0 ++ (Normal <$> if trailing target then ks else ks ++ [t]).

(** They are next to the target or, for a target written with a slash at its
    end, inside it; in the area in any case. *)
Lemma suffix_below m target ns :
  checked m target ns →
  ∃ ks t, side_of target ks t ∧ links_free m ks ∧
    (if trailing target then ks = leaf :: ns else leaf :: ns = ks ++ [t]) ∧
    ∀ x, side x →
      below (suffixed target x) (ks ++ [suffixed t x]) ∧ trailing (suffixed target x) = false ∧
      area (PL ++ ks ++ [suffixed t x]) ∧
      (trailing target = false → ¬ is_link (m !! (PL ++ ks ++ [suffixed t x]))).
Proof.
  intros [[Ha Hs] Hl Hside]. destruct (trailing target) eqn:Ht.
  - assert (∃ t, last (split "/" target) = Some t ∧
               ∀ x, side x → segc (suffixed target x) = segc target ++ [Normal (suffixed t x)] ∧
                             trailing (suffixed target x) = false) as (t & Hlt & Hx).
    { destruct (exists_last (split_ne "/" target)) as (l & t & Hp).
      exists t. split; [by rewrite Hp, last_snoc|]. intros x Hx.
      assert (contains "/" (String "." x) = false ∧ (2 < String.length (String "." x))%nat) as [H1 H2]
        by (destruct Hx as [-> | ->]; split; [done|cbn; lia|done|cbn; lia]).
      destruct (segc_suffix_trailing target (String "." x) H1 H2 Ht) as (t' & H3 & H4 & Ht').
      unfold suffixed. split; [|done]. rewrite H3. do 3 f_equal.
      assert (split "/" (target +:+ String "." x) = l ++ [t +:+ String "." x]) as Hps
        by (by apply (split_append "/" target _ l t (String "." x) []); [|apply split_no_sep]).
      unfold segc in H3. rewrite Hps, Hp, !seg_components_app in H3. cbn [seg_components] in H3.
      assert (∀ u, (String.length u ≤ 2)%nat → (t +:+ String "." x ==s u) = false) as Hne.
      { intros u Hu. apply bool_decide_eq_false. intros <-. rewrite append_length in Hu. lia. }
      rewrite !(Hne _) in H3 by (cbn; lia). cbn [orb] in H3.
      unfold trailing in Ht. rewrite Hp, last_snoc in Ht. rewrite Ht, app_nil_r in H3.
      apply app_inj_2 in H3 as [_ [= H3]]; [|done]. by rewrite H3. }
    exists (leaf :: ns), t. split; [split; [done|by rewrite Ht]|]. split_and!; [done|done|]. intros x Hside'. destruct (Hx x Hside') as [H1 H2].
    split_and!; [|done| |done].
    + split; [by apply absolute_append|]. by rewrite H1, Hs, fmap_app, app_assoc.
    + rewrite <- app_comm_cons. apply area_below.
  - assert (∀ x, side x → contains "/" (String "." x) = false ∧ (2 < String.length (String "." x))%nat) as Hx
      by (intros x [-> | ->]; split; [done|cbn; lia|done|cbn; lia]).
    destruct (exists_last (l := leaf :: ns) ltac:(done)) as (k & s & Hks).
    exists k, s. split.
    { split; [|by rewrite Ht, <- Hks].
      destruct (exists_last (split_ne "/" target)) as (l & u & Hp). rewrite Hp, last_snoc.
      unfold segc in Hs. rewrite Hp, seg_components_app, Hks, fmap_app, app_assoc in Hs.
      unfold trailing in Ht. rewrite Hp, last_snoc in Ht. cbn [seg_components] in Hs. rewrite Ht in Hs.
      cbn [fmap list_fmap] in Hs. apply app_inj_2 in Hs as [_ Hs]; [|done].
      destruct (u ==s ".."); congruence. }
    split_and!; [eapply links_free_prefix; [|exact Hl]; rewrite Hks; by eexists|done|].
    intros x Hxs. destruct (Hx x Hxs) as [H1 H2].
    destruct (segc_suffix target (String "." x) H1 H2 Ht) as (cs & t & Hc & _ & Hsx & Htx & _).
    rewrite Hc, Hks, fmap_app, app_assoc in Hs. cbn in Hs. apply app_inj_2 in Hs as [-> Hs]; [|done].
    case_match; simplify_eq. unfold suffixed. split_and!; [|done| |].
    + split; [by apply absolute_append|]. by rewrite Hsx, fmap_app, <- app_assoc.
    + destruct k as [|y k]; cbn [app] in Hks; injection Hks as <- _; [|apply area_below].
      right. destruct Hxs as [-> | ->]; [by left|by right].
    + intros _. eapply (Hside eq_refl k); [exact Hks|]. destruct Hxs as [-> | ->]; [by left|by right].
Qed.

(** ** Runs that stay within bounds *)

(** No symbolic link appears. *)
Definition safe (fs fs' : Fs) : Prop :=
  conf fs fs' ∧ ∀ l, is_link (nodes fs' !! l) → is_link (nodes fs !! l).

Lemma safe_trans a b c : safe a b → safe b c → safe a c.
Proof. intros [H1 H2] [H3 H4]. split; [by eapply conf_trans|auto]. Qed.
Lemma same_safe fs fs' : same fs fs' → safe fs fs'.
Proof. intros H. split; [by apply same_conf|]. by rewrite (same_nodes _ _ H). Qed.

(** From [fs] the computation ends in a good state within the bounds [R], with
    [Q] if it returns. *)
Definition ends {A} (R : Fs → Fs → Prop) (fs : Fs) (p : result A Error * Fs) (Q : A → Fs → Prop) : Prop :=
  good p.2 ∧ R fs p.2 ∧ ∀ a, p.1 = Ok a → Q a p.2.

Lemma ends_bind {A B} (R : Fs → Fs → Prop) fs (m : M Fs A) (k : A → M Fs B) Q1 Q2 :
  (∀ a b c, R a b → R b c → R a c) → ends R fs (m fs) Q1 →
  (∀ a fs1, good fs1 → R fs fs1 → Q1 a fs1 → ends R fs1 (k a fs1) Q2) →
  ends R fs ((m ≫= k) fs) Q2.
Proof.
  intros HR (Hg & Hr & Hq) Hk. unfold mbind, m_bind.
  destruct (m fs) as [[a|e] fs1]; cbn in *; [|by split_and!].
  destruct (Hk a fs1 Hg Hr (Hq _ eq_refl)) as (H1 & H2 & H3). split_and!; eauto.
Qed.

Lemma ends_weaken {A} (R R' : Fs → Fs → Prop) fs (p : result A Error * Fs) (Q Q' : A → Fs → Prop) :
  (R fs p.2 → R' fs p.2) → (∀ a fs', p = (Ok a, fs') → good fs' → R fs fs' → Q a fs' → Q' a fs') →
  ends R fs p Q → ends R' fs p Q'.
Proof.
  intros HR HQ (H1 & H2 & H3). split_and!; [done|by apply HR|].
  destruct p as [r fs']. cbn in *. intros a ->. apply HQ; auto.
Qed.

Lemma ends_reads {A} fs (m : M Fs A) :
  good fs → reads m → ends safe fs (m fs) (λ a fs', same fs fs' ∧ m fs = (Ok a, fs')).
Proof.
  intros Hg Hm. specialize (Hm fs). split_and!; [by eapply same_good|by apply same_safe|].
  destruct (m fs) as [r fs']. cbn in *. by intros a ->.
Qed.

Lemma ends_try {A} R fs (m : M Fs A) Q :
  ends R fs (m fs) Q → ends R fs (try m fs) (λ r fs', R fs fs' ∧ ∀ a, r = Ok a → Q a fs').
Proof.
  intros (H1 & H2 & H3). unfold try. destruct (m fs) as [r fs']. split_and!; [done|done|].
  cbn. intros a [= <-]. done.
Qed.

(** One call: what it does to a state that has lost at most a pending fault. *)
Lemma ends_syscall {A} (f : Fs → result (A * Fs) ErrorKind) fs (Q : A → Fs → Prop) :
  good fs →
  (∀ fs1 a fs', same fs fs1 → good fs1 → f fs1 = Ok (a, fs') → good fs' ∧ safe fs1 fs' ∧ Q a fs') →
  ends safe fs (syscall f fs) Q.
Proof.
  intros Hg Hf. destruct (syscall f fs) as [[a|e] fs'] eqn:E.
  - apply syscall_ok in E as (fs1 & Hs & E).
    destruct (Hf fs1 a fs' Hs (same_good _ _ Hs Hg) E) as (H1 & H2 & H3). split_and!; [done| |].
    + eapply safe_trans; [by apply same_safe|done].
    + by intros ? [= <-].
  - apply syscall_err in E as [Hs _]. split_and!; [by eapply same_good|by apply same_safe|done].
Qed.

(** Where a call that does not follow a last link acts. *)
Lemma resolve_below_ok fs q ns l :
  good fs → below q ns → ns ≠ [] → trailing q = false → links_free (nodes fs) (removelast ns) →
  resolve fs q false = Ok l → l = PL ++ ns.
Proof.
  intros Hg Hb Hne Ht Hl Hr.
  destruct (resolve_below fs q ns false Hg Hb Hne) as [[Hw _]|(e & Hw & _)]; [right; done|congruence..].
Qed.

Lemma removelast_area l : area (PL ++ l) → removelast (PL ++ l) = PL ++ removelast l ∧ PL ++ l ≠ [].
Proof.
  intros Ha. assert (l ≠ []) as Hl.
  { intros ->. rewrite app_nil_r in Ha. by apply (area_not_PL _ Ha). }
  split; [by apply removelast_app|]. by destruct PL, l.
Qed.

(** Removing and adding a node in the area. *)
Lemma delete_in_area fs l :
  good fs → area l → ¬ PLoc l → nodes fs !! l ≠ Some Dir →
  let fs' := fs <| nodes := delete l (nodes fs) |> in good fs' ∧ safe fs fs'.
Proof.
  intros Hg Ha Hp Hd. cbv zeta. split.
  - apply (good_update fs); [done|by apply tree_delete; [apply Hg|]| |done|].
    + intros k Hk. cbn. rewrite lookup_delete_ne; [done|]. intros ->. by destruct Hk.
    + intros k i. cbn. intros Hk. apply (good_ino fs Hg k). by apply lookup_delete_Some in Hk as [_ ?].
  - split; [split; cbn|].
    + intros k Hk. rewrite lookup_delete_ne; [done|]. by intros ->.
    + intros k Hk. rewrite lookup_delete_ne; [done|]. by intros ->.
    + done.
    + intros k [t Hk]. cbn in Hk. apply lookup_delete_Some in Hk as [_ ?]. by exists t.
Qed.

Lemma insert_in_area fs l n :
  good fs → area l → nodes fs !! removelast l = Some Dir → nodes fs !! l = None →
  (∀ i, n = File i → (i < next_ino fs)%nat) → (∀ t, n ≠ Link t) →
  let fs' := fs <| nodes := <[l := n]> (nodes fs) |> in good fs' ∧ safe fs fs'.
Proof.
  intros Hg Ha Hd Hn Hi Ht. cbv zeta.
  assert (¬ PLoc l) as Hp by (intros Hp; destruct (good_kept fs Hg l Ha Hp) as [[? ?] _]; congruence).
  assert (l ≠ []) as Hne by (intros ->; cbn in Hd; congruence).
  split.
  - apply (good_update fs); [done| | |done|].
    + apply tree_insert; [apply Hg|done|done|]. left. by rewrite Hn.
    + intros k Hk. cbn. rewrite lookup_insert_ne; [done|]. intros ->. by destruct Hk.
    + intros k i. cbn. intros [[<- ?]|[_ Hk]]%lookup_insert_Some; [auto|by apply (good_ino fs Hg k)].
  - split; [split; cbn|].
    + intros k Hk. rewrite lookup_insert_ne; [done|]. by intros ->.
    + intros k Hk. rewrite lookup_insert_ne; [done|]. by intros ->.
    + done.
    + intros k [t Hk]. cbn in Hk. apply lookup_insert_Some in Hk as [[_ ->]|[_ ?]]; [by destruct (Ht t)|by exists t].
Qed.

Lemma new_file_in_area fs l h fs' :
  good fs → area l → nodes fs !! l = None → new_file fs l = Ok (h, fs') →
  good fs' ∧ safe fs fs' ∧ ¬ PIno (h_ino h) ∧ nodes fs' = <[l := File (h_ino h)]> (nodes fs) ∧
  h = mkHandle (next_ino fs) 0.
Proof.
  intros Hg Ha Hn.
  assert (¬ PLoc l) as Hp by (intros Hp; destruct (good_kept fs Hg l Ha Hp) as [[? ?] _]; congruence).
  unfold new_file. case_bool_decide as Hd; [|done]. intros [= <- <-].
  assert (l ≠ []) as Hne by (intros ->; cbn in Hd; congruence).
  assert (¬ PIno (next_ino fs)) as Hi.
  { intros Hi%PIno_old. pose proof (good_new _ Hg). lia. }
  split_and!; [| |done|done|done].
  - apply (good_update fs); [done| | |cbn; lia|].
    + cbn. apply tree_insert; [apply Hg|done|done|]. left. by rewrite Hn.
    + intros k Hk. cbn. rewrite lookup_insert_ne; [done|]. intros ->. by destruct Hk.
    + intros k i. cbn. intros [[<- [= <-]]|[_ Hk]]%lookup_insert_Some; [lia|].
      pose proof (good_ino fs Hg k i Hk). lia.
  - split; [split; cbn|].
    + intros k Hk. rewrite lookup_insert_ne; [done|]. by intros ->.
    + intros k Hk. rewrite lookup_insert_ne; [done|]. by intros ->.
    + intros i Hpi. unfold inode. cbn. rewrite lookup_insert_ne; [done|]. by intros <-.
    + intros k [t Hk]. cbn in Hk. apply lookup_insert_Some in Hk as [[_ ?]|[_ ?]]; [done|by exists t].
Qed.

(** *** The calls on paths in the area *)
Definition at_area (fs : Fs) (q : string) (ns : list string) : Prop :=
  below q ns ∧ trailing q = false ∧ area (PL ++ ns) ∧ links_free (nodes fs) (removelast ns).

Lemma at_area_resolve fs q ns l :
  good fs → at_area fs q ns → resolve fs q false = Ok l → l = PL ++ ns.
Proof.
  intros Hg (Hb & Ht & Ha & Hl). apply resolve_below_ok; try done. intros ->.
  rewrite app_nil_r in Ha. by apply (area_not_PL _ Ha).
Qed.

Lemma at_area_safe fs fs' q ns : at_area fs q ns → safe fs fs' → at_area fs' q ns.
Proof. intros (?&?&?&?) [_ ?]. split_and!; try done. by eapply links_free_mono. Qed.

Lemma at_area_same fs fs' q ns : same fs fs' → at_area fs q ns → at_area fs' q ns.
Proof. intros H ?. by eapply at_area_safe, same_safe. Qed.

Lemma ends_remove_file fs q ns :
  good fs → at_area fs q ns → ¬ PLoc (PL ++ ns) →
  ends safe fs (remove_file q fs) (λ _ fs', nodes fs' = delete (PL ++ ns) (nodes fs)).
Proof.
  intros Hg Hq Hp. apply ends_syscall; [done|]. intros fs1 a fs' Hs Hg1 H.
  apply result_bind_ok in H as (l & Hl & H).
  apply (at_area_resolve _ _ ns) in Hl as ->; [|done|by eapply at_area_same].
  destruct (nodes fs1 !! (PL ++ ns)) as [[| |]|] eqn:E; simplify_eq;
    (destruct (delete_in_area fs1 (PL ++ ns)) as [H1 H2]; [done|apply Hq|done|by rewrite E|];
     split_and!; [done|done|]; cbn; by rewrite (same_nodes _ _ Hs)).
Qed.

Lemma remove_if_exists_cases fs q :
  (∃ fs', remove_if_exists q fs = (Ok tt, fs') ∧ remove_file q fs = (Err (Io NotFound), fs')) ∨
  remove_if_exists q fs = remove_file q fs.
Proof.
  unfold remove_if_exists. destruct (remove_file q fs) as [[[]|[[]|]] fs']; auto.
  left. by exists fs'.
Qed.

Lemma remove_file_not_found fs q ns fs' :
  good fs → at_area fs q ns → remove_file q fs = (Err (Io NotFound), fs') →
  same fs fs' ∧ nodes fs !! (PL ++ ns) = None.
Proof.
  intros Hg Hq [Hs [?|(k & [= <-] & H)]]%syscall_err; [done|]. split; [done|].
  assert (nodes fs' !! (PL ++ ns) = None) as Hn; [|by rewrite <- (same_nodes _ _ Hs)].
  assert (at_area fs' q ns) as Hq' by (by eapply at_area_same).
  assert (good fs') as Hg' by (by eapply same_good).
  apply result_bind_err in H as [H|(l & Hl & H)].
  - destruct Hq' as (Hb & Ht & Ha & Hl).
    assert (ns ≠ []) as Hne by (intros ->; rewrite app_nil_r in Ha; by apply (area_not_PL _ Ha)).
    destruct (resolve_below fs' q ns false Hg' Hb Hne) as [[Hw _]|(e & Hw & He)];
      [by right|congruence|apply He; congruence].
  - rewrite (at_area_resolve _ _ ns _ Hg' Hq' Hl) in H. by destruct (nodes fs' !! (PL ++ ns)) as [[]|].
Qed.

Lemma ends_remove_if_exists fs q ns :
  good fs → at_area fs q ns → (is_Some (nodes fs !! (PL ++ ns)) → ¬ PLoc (PL ++ ns)) →
  ends safe fs (remove_if_exists q fs) (λ _ fs', nodes fs' = delete (PL ++ ns) (nodes fs)).
Proof.
  intros Hg Hq Hp. destruct (remove_if_exists_cases fs q) as [(fs' & -> & H)| ->].
  - apply (remove_file_not_found _ _ ns) in H as [Hs Hn]; [|done..].
    split_and!; [by eapply same_good|by apply same_safe|]. cbn. intros _ _.
    by rewrite (same_nodes _ _ Hs), delete_id.
  - destruct (decide (is_Some (nodes fs !! (PL ++ ns)))) as [Hn|Hn%eq_None_not_Some].
    + by apply ends_remove_file; [| |apply Hp].
    + apply ends_syscall; [done|]. intros fs1 a fs' Hs Hg1 H.
      apply result_bind_ok in H as (l & Hl & H).
      apply (at_area_resolve _ _ ns) in Hl as ->; [|done|by eapply at_area_same].
      by rewrite (same_nodes _ _ Hs), Hn in H.
Qed.

Lemma ends_open_create_new fs q ns :
  good fs → at_area fs q ns →
  ends safe fs (open_create_new q fs) (λ h fs',
    ¬ PIno (h_ino h) ∧ nodes fs' = <[PL ++ ns := File (h_ino h)]> (nodes fs) ∧
    nodes fs !! (PL ++ ns) = None ∧ h = mkHandle (next_ino fs) 0).
Proof.
  intros Hg Hq. apply ends_syscall; [done|]. intros fs1 h fs' Hs Hg1 H.
  apply result_bind_ok in H as (l & Hl & H).
  apply (at_area_resolve _ _ ns) in Hl as ->; [|done|by eapply at_area_same].
  destruct (nodes fs1 !! (PL ++ ns)) eqn:E; [done|].
  apply new_file_in_area in H as (H1 & H2 & H3 & H4 & H5); [|done|apply Hq|done].
  rewrite <- (same_nodes _ _ Hs), <- (same_ino _ _ Hs). by split_and!.
Qed.

Lemma put_safe fs i d off : good fs → ¬ PIno i → good (put fs i d off) ∧ safe fs (put fs i d off).
Proof.
  intros Hg Hi. split; [by destruct Hg|]. split; [|done]. split; [done|done|].
  intros k Hk. unfold inode, put. cbn. rewrite lookup_insert_ne; [done|]. by intros ->.
Qed.

Lemma ends_write_some fs h d :
  good fs → ¬ PIno (h_ino h) →
  ends safe fs (write_some h d fs) (λ r fs', nodes fs' = nodes fs ∧ h_ino r.1 = h_ino h).
Proof.
  intros Hg Hi. unfold write_some. case_match. cbn.
  assert (same fs (fs <| faults := tail (faults fs) |>)) as Hs by (by split).
  destruct (put_safe _ (h_ino h) l (h_offset h) (same_good _ _ Hs Hg) Hi) as [H1 H2].
  split_and!; [done| |by intros ? [= <-]]. eapply safe_trans; [by apply same_safe|exact H2].
Qed.

Lemma ends_ret {A} fs (a : A) (Q : A → Fs → Prop) : good fs → Q a fs → ends safe fs ((mret a : M Fs A) fs) Q.
Proof. intros. split_and!; [done|by apply same_safe|by intros ? [= <-]]. Qed.

Lemma ends_fail {A} R fs e (Q : A → Fs → Prop) : good fs → R fs fs → ends R fs (fail e fs) Q.
Proof. intros. by split_and!. Qed.

Lemma ends_write_new fs q ns d :
  good fs → at_area fs q ns →
  ends safe fs (write_new q d fs) (λ _ fs',
    ∃ i, nodes fs' = <[PL ++ ns := File i]> (nodes fs) ∧ nodes fs !! (PL ++ ns) = None).
Proof.
  intros Hg Hq. eapply ends_bind; [apply safe_trans|by apply (ends_open_create_new _ _ ns)|].
  intros h fs1 Hg1 Hs1 (Hi & Hn & Hnone & _).
  assert (∀ fs', nodes fs' = nodes fs1 → ∃ i, nodes fs' = <[PL ++ ns := File i]> (nodes fs) ∧
                                              nodes fs !! (PL ++ ns) = None) as Hpost.
  { intros fs' ->. by exists (h_ino h). }
  eapply ends_bind; [apply safe_trans|eapply (ends_bind _ _ _ _ _ (λ _ fs', nodes fs' = nodes fs1));
    [apply safe_trans|by apply ends_write_some|]|].
  - intros r fs2 Hg2 Hs2 [Hn2 _]. eapply ends_weaken; [done| |by apply ends_reads; [|apply reads_of_result]].
    intros [] fs3 _ _ _ [H _]. by rewrite (same_nodes _ _ H).
  - intros [] fs2 Hg2 Hs2 Hn2. eapply ends_weaken; [done| |by apply ends_reads; [|apply reads_flush]].
    intros [] fs3 _ _ _ [H _]. apply Hpost. by rewrite (same_nodes _ _ H).
Qed.

(** *** Directories *)
Lemma below_comp_ok q ns : below q ns → Forall comp_ok (cs0 ++ (Normal <$> ns)).
Proof. intros [_ <-]. apply segc_ok. Qed.

(** A directory of the path to a target: the folder, or in the area. *)
Definition dir_path (fs : Fs) (q : string) (ns : list string) : Prop :=
  below q ns ∧ (ns ≠ [] → trailing q = false) ∧ (ns = [] ∨ ∃ tl, ns = leaf :: tl) ∧ links_free (nodes fs) ns.

Lemma dir_path_safe fs fs' q ns : dir_path fs q ns → safe fs fs' → dir_path fs' q ns.
Proof. intros (?&?&?&?) [_ ?]. split_and!; try done. by eapply links_free_mono. Qed.

Lemma dir_path_at_area fs q ns : dir_path fs q ns → ns ≠ [] → at_area fs q ns.
Proof.
  intros (Hb & Ht & [-> |[tl ->]] & Hl) Hne; [done|]. split_and!; [done|auto|apply area_below|].
  eapply links_free_prefix; [|exact Hl].
  destruct (exists_last Hne) as (k & s & ->). rewrite removelast_last. by eexists.
Qed.

(** The folder exists, however it is looked up. *)
Lemma resolve_folder fs q :
  good fs → below q [] → resolve fs q true = Ok PL ∧ ∃ l, resolve fs q false = Ok l ∧ is_Some (nodes fs !! l).
Proof.
  intros Hg [Hq Hs]. pose proof Hg as []. rewrite app_nil_r in Hs.
  unfold resolve, segments. change (starts_with "/" q) with (absolute q).
  rewrite Hq, (components_absolute q Hq), Hs.
  destruct (is_empty q) eqn:E; [apply is_empty_true in E as ->; done|].
  assert (walk (nodes fs) MAX_LINKS [] (RootDir :: cs0) true = Ok PL) as Hw.
  { apply (walk_mono (outside (nodes fs)) (nodes fs)); [apply map_filter_subseteq|done|].
    exists Dir. apply map_lookup_filter_Some. split; [done|]. intros Ha. by apply (area_not_PL _ Ha). }
  destruct (trailing q).
  - assert (∀ f, walk (nodes fs) MAX_LINKS [] ((RootDir :: cs0) ++ [CurDir]) f = Ok PL) as H.
    { intros f. destruct (walk_app (nodes fs) MAX_LINKS [] (RootDir :: cs0) [CurDir] f PL) as [n ->]; [done|done|].
      by rewrite walk_unfold, good_dir0, walk_nil. }
    split; [apply H|]. exists PL. by rewrite H.
  - rewrite app_nil_r. split; [done|]. apply (walk_nofollow_exists _ _ _ _ PL); [done|by eexists].
Qed.

Lemma ends_create_dir fs q ns :
  good fs → dir_path fs q ns → ends safe fs (create_dir q fs) (λ _ _, ns ≠ []).
Proof.
  intros Hg Hq. apply ends_syscall; [done|]. intros fs1 a fs' Hs Hg1 H.
  apply result_bind_ok in H as (l & Hl & H).
  assert (dir_path fs1 q ns) as Hq1 by (by eapply dir_path_safe, same_safe).
  destruct (decide (ns = [])) as [-> |Hne].
  - exfalso. destruct (resolve_folder fs1 q Hg1) as (_ & l' & Hl' & n & Hn); [apply Hq1|].
    rewrite Hl in Hl'. injection Hl' as <-. by rewrite Hn in H.
  - apply (at_area_resolve _ _ ns) in Hl as ->; [|done|by apply dir_path_at_area].
    destruct (nodes fs1 !! (PL ++ ns)) eqn:E; [done|]. case_bool_decide as Hd; simplify_eq.
    destruct (insert_in_area fs1 (PL ++ ns) Dir) as [H1 H2]; try done.
    by apply (dir_path_at_area _ _ _ Hq1 Hne).
Qed.

Lemma dir_path_parent fs q ns s :
  dir_path fs q (ns ++ [s]) → ∃ p, path_parent q = Some p ∧ dir_path fs p ns.
Proof.
  intros ([Ha Hs] & Ht & Hns & Hl). pose proof Hs as Hs'.
  rewrite fmap_app, app_assoc in Hs'. cbn in Hs'.
  exists (path_string (RootDir :: cs0 ++ (Normal <$> ns))). split; [by apply path_parent_absolute in Hs'|].
  assert (Forall comp_ok (cs0 ++ (Normal <$> ns))) as Hok.
  { pose proof (segc_ok q) as Hok. rewrite Hs' in Hok. by apply Forall_app in Hok as [? _]. }
  split_and!.
  - split; [apply path_string_absolute|]. by apply segc_path_string.
  - intros Hne. apply trailing_path_string; [|done]. destruct ns; [done|]. by destruct cs0.
  - destruct Hns as [Hns|[tl Hns]]; [by destruct ns|]. destruct ns as [|x ns]; [by left|right].
    injection Hns as -> _. by eexists.
  - eapply links_free_prefix; [|exact Hl]. by eexists.
Qed.

Lemma path_parent_folder_not_found fs q fs' :
  good fs → below q [] → create_dir q fs ≠ (Err (Io NotFound), fs').
Proof.
  intros Hg Hb [Hs [?|(k & [= <-] & H)]]%syscall_err; [done|].
  assert (good fs') as Hg' by (by eapply same_good).
  destruct (resolve_folder fs' q Hg' Hb) as (_ & l & Hl & n & Hn).
  rewrite Hl in H. cbn in H. by rewrite Hn in H.
Qed.

Lemma ends_is_dir fs q (e : Error) :
  good fs →
  ends safe fs ((md ← try (metadata q);
                 match md with
                 | Ok md => if is_dir md then mret tt else fail e
                 | Err _ => fail e
                 end) fs) (λ _ _, True).
Proof.
  intros Hg. eapply ends_weaken; [done| |apply ends_reads; [done|reads_tac]]. done.
Qed.

Lemma ends_try_create fs q ns :
  good fs → dir_path fs q ns →
  ends safe fs (try (create_dir q) fs) (λ r _, ns = [] → r ≠ Err (Io NotFound)).
Proof.
  intros Hg Hq. destruct (ends_create_dir fs q ns Hg Hq) as (H1 & H2 & H3).
  unfold try. destruct (create_dir q fs) as [r fs'] eqn:E. split_and!; [done|done|].
  cbn. intros a [= <-] -> ->. by apply (path_parent_folder_not_found fs q fs' Hg) in E; [|apply Hq].
Qed.

Lemma ends_create_dir_all_go fuel fs q ns :
  good fs → dir_path fs q ns → ends safe fs (create_dir_all_go fuel q fs) (λ _ _, True).
Proof.
  revert fs q ns. induction fuel as [|fuel IH]; intros fs q ns Hg Hq; cbn [create_dir_all_go];
    [apply ends_fail; [done|by apply same_safe]|].
  case_match; [by apply ends_ret|].
  assert (∀ fs' e, good fs' → ends safe fs' ((md ← try (metadata q);
    match md with Ok md => if is_dir md then mret tt else fail e | Err _ => fail e end) fs') (λ _ _, True)) as Hdir.
  { intros fs' e Hg'. by apply ends_is_dir. }
  eapply ends_bind; [apply safe_trans|apply (ends_try_create _ _ ns Hg Hq)|].
  intros r fs1 Hg1 Hs1 Hr. assert (dir_path fs1 q ns) as Hq1 by (by eapply dir_path_safe).
  destruct r as [[]|e]; [by apply ends_ret|].
  assert (ends safe fs1 (match path_parent q with
      | Some p => create_dir_all_go fuel p;;
          r ← try (create_dir q);
          match r with
          | Ok _ => mret tt
          | Err e => md ← try (metadata q);
              match md with Ok md => if is_dir md then mret tt else fail e | Err _ => fail e end
          end
      | None => fail (Io OtherError)
      end fs1) (λ _ _, True) ∨ ns = []) as [Hrec| ->].
  { destruct ns as [|s ns _] using rev_ind; [by right|left].
    destruct (dir_path_parent _ _ _ _ Hq1) as (p & -> & Hp).
    eapply ends_bind; [apply safe_trans|by eapply IH|]. intros [] fs2 Hg2 Hs2 _.
    assert (dir_path fs2 q (ns ++ [s])) as Hq2 by (by eapply dir_path_safe).
    eapply ends_bind; [apply safe_trans|apply ends_try; by eapply ends_create_dir|].
    intros r fs3 Hg3 Hs3 _. destruct r as [[]|e']; [by apply ends_ret|]. by apply Hdir. }
  - destruct e as [[]|]; try done; by apply Hdir.
  - destruct e as [[]|]; try by apply Hdir. by destruct (Hr eq_refl).
Qed.

(** *** Moving a file into place *)
Lemma rename_in_area fs l k n :
  good fs → area l → area k → nodes fs !! l = Some n → n ≠ Dir → nodes fs !! k ≠ Some Dir →
  nodes fs !! removelast k = Some Dir → k ≠ [] → ¬ PLoc l → ¬ PLoc k →
  let fs' := fs <| nodes := <[k := n]> (delete l (nodes fs)) |> in good fs' ∧ conf fs fs'.
Proof.
  intros Hg Hal Hak Hn Hnd Hkd Hpd Hne Hpl Hpk. cbv zeta.
  assert (∀ x, ¬ area x ∨ PLoc x → <[k := n]> (delete l (nodes fs)) !! x = nodes fs !! x) as Hout.
  { intros x Hx. rewrite lookup_insert_ne by (intros <-; by destruct Hx).
    rewrite lookup_delete_ne; [done|]. intros <-. by destruct Hx. }
  split.
  - apply (good_update fs); [done| |exact Hout|done|].
    + cbn. apply tree_insert; [apply tree_delete; [apply Hg|congruence]| |done|].
      * rewrite lookup_delete_ne; [done|]. intros ->. congruence.
      * left. destruct (decide (l = k)) as [-> |]; [by rewrite lookup_delete_eq|by rewrite lookup_delete_ne].
    + intros x i. cbn. intros [[<- ->]|[_ Hx]]%lookup_insert_Some; [by apply (good_ino fs Hg l)|].
      apply lookup_delete_Some in Hx as [_ Hx]. by apply (good_ino fs Hg x).
  - split; cbn; [auto..|done].
Qed.

Lemma good_parent_dir fs l : good fs → area l → is_Some (nodes fs !! l) → nodes fs !! removelast l = Some Dir ∧ l ≠ [].
Proof.
  intros Hg Ha Hl. assert (l ≠ []) as Hne.
  { intros ->. apply (area_not_PL _ Ha), prefix_nil. }
  split; [|done]. destruct (exists_last Hne) as (k & s & ->). rewrite removelast_last. by apply (good_tree fs Hg k s).
Qed.

(** What a rename between two locations did. *)
Lemma rename_ok fs p q fs' :
  rename p q fs = (Ok tt, fs') →
  ∃ fs1 l k, same fs fs1 ∧ resolve fs1 p false = Ok l ∧ resolve fs1 q false = Ok k ∧
    nodes fs1 !! k ≠ Some Dir ∧
    (fs' = fs1 ∨ ∃ n, nodes fs1 !! l = Some n ∧ n ≠ Dir ∧
       (nodes fs1 !! k = None → nodes fs1 !! removelast k = Some Dir) ∧
       fs' = fs1 <| nodes := <[k := n]> (delete l (nodes fs1)) |>).
Proof.
  intros (fs1 & Hs & H)%syscall_ok.
  apply result_bind_ok in H as (l & Hl & H). apply result_bind_ok in H as (k & Hk & H).
  exists fs1, l, k. split; [done|]. split; [done|]. split; [done|].
  destruct (nodes fs1 !! l) as [n|] eqn:En; [|done].
  destruct (nodes fs1 !! k) as [n'|] eqn:En'.
  - assert (n ≠ Dir ∧ n' ≠ Dir) as [Hn Hn'] by (by destruct n, n'). split; [congruence|].
    assert (fs' = fs1 ∨ fs' = fs1 <| nodes := <[k := n]> (delete l (nodes fs1)) |>) as [-> | ->];
      [|by left|right; by exists n].
    destruct n as [|i|], n' as [|j|]; try done; try case_bool_decide; simplify_eq; auto.
  - assert (n ≠ Dir) as Hn by (by destruct n). split; [done|]. right. exists n.
    destruct n; try done; (case_bool_decide; [|done]); simplify_eq; by split_and!.
Qed.

Lemma ends_rename fs p q ks ns :
  good fs → at_area fs p ks → below q (leaf :: ns) → links_free (nodes fs) (leaf :: ns) →
  (is_Some (nodes fs !! (PL ++ ks)) → ¬ PLoc (PL ++ ks)) → ¬ PLoc (PL ++ leaf :: ns) →
  (trailing q = false → ¬ is_link (nodes fs !! (PL ++ ks))) →
  ends safe fs (rename p q fs) (λ _ fs', trailing q = false ∧
    (nodes fs' = nodes fs ∨ ∃ n, nodes fs !! (PL ++ ks) = Some n ∧
      nodes fs' = <[PL ++ leaf :: ns := n]> (delete (PL ++ ks) (nodes fs)))).
Proof.
  intros Hg Hp Hq Hl Hpk Hpn Hnl.
  destruct (rename p q fs) as [[[]|e] fs'] eqn:E;
    [|apply syscall_err in E as [Hs _]; split_and!; [by eapply same_good|by apply same_safe|done]].
  apply rename_ok in E as (fs1 & l & k & Hs & Hl1 & Hk1 & Hkd & H).
  pose proof (same_good _ _ Hs Hg) as Hg1.
  apply (at_area_resolve _ _ ks) in Hl1 as ->; [|done|by eapply at_area_same].
  destruct (resolve_below fs1 q (leaf :: ns) false Hg1 Hq) as [[Hw Htr]|(e & Hw & _)];
    [done|left; by rewrite (same_nodes _ _ Hs)| |congruence].
  rewrite Hk1 in Hw. injection Hw as ->.
  assert (trailing q = false) as Ht by (destruct (trailing q); [by rewrite Htr in Hkd|done]).
  destruct H as [-> |(n & Hn & Hnd & Hpar & ->)].
  { split_and!; [done|by apply same_safe|]. intros ? _. split; [done|left; by apply same_nodes]. }
  assert (nodes fs1 !! removelast (PL ++ leaf :: ns) = Some Dir ∧ PL ++ leaf :: ns ≠ []) as [Hd Hne].
  { destruct (nodes fs1 !! (PL ++ leaf :: ns)) eqn:E.
    - apply good_parent_dir; [done|apply area_below|by rewrite E].
    - split; [auto|]. by destruct PL. }
  rewrite (same_nodes _ _ Hs) in Hn.
  destruct (rename_in_area fs1 (PL ++ ks) (PL ++ leaf :: ns) n) as [H1 H2]; try done;
    [apply Hp|apply area_below|by rewrite (same_nodes _ _ Hs)|apply Hpk; by rewrite Hn|].
  split_and!; [done| |].
  - eapply safe_trans; [by apply same_safe|]. split; [done|]. intros x [t Hx]. cbn in Hx.
    apply lookup_insert_Some in Hx as [[_ ->]|[_ Hx]]; [by destruct (Hnl Ht); rewrite Hn; eexists|].
    apply lookup_delete_Some in Hx as [_ Hx]. by exists t.
  - intros _ _. split; [done|right]. exists n. split; [done|]. cbn. by rewrite (same_nodes _ _ Hs).
Qed.

Lemma ends_set_file_mtime fs q t :
  good fs → ends safe fs (set_file_mtime q t fs) (λ _ fs', nodes fs' = nodes fs).
Proof.
  intros Hg. apply ends_syscall; [done|]. intros fs1 a fs' Hs Hg1 H.
  apply result_bind_ok in H as (l & Hl & H). rewrite <- (same_nodes _ _ Hs).
  destruct (nodes fs1 !! l) as [[| |]|]; simplify_eq; (split_and!; [by destruct Hg1| |done]);
    (split; [split|]; [done..| |done]); intros i Hi; [done| |done].
  unfold inode. cbn. destruct (decide (ino = i)) as [-> |]; [by rewrite lookup_insert_eq|by rewrite lookup_insert_ne].
Qed.

(** ** The steps of a download *)

(** The staging and digest files of [target] are free to change. *)
Definition sides_free (target : string) : Prop :=
  ∀ ks t x, side_of target ks t → side x → area (PL ++ ks ++ [suffixed t x]) →
            ¬ PLoc (PL ++ ks ++ [suffixed t x]).

Lemma suffix_at_area fs target ns :
  checked (nodes fs) target ns →
  ∃ ks t, side_of target ks t ∧
    (if trailing target then ks = leaf :: ns else leaf :: ns = ks ++ [t]) ∧
    ∀ x, side x → at_area fs (suffixed target x) (ks ++ [suffixed t x]) ∧
      (trailing target = false → ¬ is_link (nodes fs !! (PL ++ ks ++ [suffixed t x]))).
Proof.
  intros Hc. destruct (suffix_below _ _ _ Hc) as (ks & t & Hof & Hl & Hks & H).
  exists ks, t. split; [done|]. split; [done|]. intros x Hx. destruct (H x Hx) as (H1 & H2 & H3 & H4).
  split; [|done]. split_and!; [done|done|done|]. by rewrite removelast_last.
Qed.

Lemma checked_safe fs fs' target ns : checked (nodes fs) target ns → safe fs fs' → checked (nodes fs') target ns.
Proof.
  intros [H1 H2 H3] [_ Hs]. split; [done|by eapply links_free_mono|].
  intros Ht k s x Hk Hx Hl. by apply (H3 Ht k s x Hk Hx), Hs.
Qed.

(** Nothing is at a target that does not exist. *)
Lemma target_missing fs target ns fs' :
  good fs → checked (nodes fs) target ns → try_exists target fs = (Ok false, fs') →
  nodes fs !! (PL ++ leaf :: ns) = None.
Proof.
  intros Hg [Hb Hl _] H%try_exists_false.
  destruct (resolve_below fs target (leaf :: ns) true Hg Hb) as [[Hw _]|(e & Hw & He)]; [done|by left| |].
  - destruct H as [H|(l & H & Hn)]; [congruence|]. by rewrite Hw in H; simplify_eq.
  - destruct H as [H|(l & H & Hn)]; [apply He|]; congruence.
Qed.

Definition job_target (j : TransferJob) (n : Z) (target : string) : Prop :=
  ∃ e, entry_at (files j) n = Some e ∧ target = join base (name e).

Lemma download_target_spec fs j n target fs' :
  good fs → data_source j = FilePath base → download_target j n fs = (Ok target, fs') →
  same fs fs' ∧ job_target j n target ∧ ∃ ns, checked (nodes fs) target ns.
Proof.
  intros Hg Hj H. split; [by eapply reads_ok; [|exact H]; auto with reads|].
  unfold download_target in H. apply bind_ok in H as (e & fs1 & H1 & H). rewrite Hj in H.
  destruct (entry_at (files j) n) as [e'|] eqn:E; [|done]. injection H1 as <- <-.
  apply validated_target_spec in H as [-> H]; [|done]. split; [by exists e'|done].
Qed.

Lemma ends_download_target fs j n :
  good fs → data_source j = FilePath base →
  ends safe fs (download_target j n fs) (λ target fs',
    same fs fs' ∧ job_target j n target ∧ ∃ ns, checked (nodes fs) target ns).
Proof.
  intros Hg Hj. eapply ends_weaken; [done| |apply ends_reads; [done|auto with reads]].
  intros target fs' H _ _ _. by apply download_target_spec in H.
Qed.

(** Finishing a file, if an existing target may be replaced once it was confirmed. *)
Lemma ends_finish_download fs j :
  good fs → data_source j = FilePath base →
  (∀ target, job_target j (file_num j) target → data_stream j ≠ None → sides_free target) →
  (download_confirmation_offset j (file_num j) = Some 0 → ∀ l, area l → ¬ PLoc l) →
  ends safe fs (finish_download_ j fs) (λ _ _, True).
Proof.
  intros Hg Hj Hside Hover. unfold finish_download_. case_bool_decide as Hst; [by apply ends_ret|].
  eapply ends_bind; [apply safe_trans|by apply ends_download_target|].
  intros target fs1 Hg1 _ (Hs1 & Htg & ns & Hck). rewrite <- (same_nodes _ _ Hs1) in Hck.
  eapply ends_bind; [apply safe_trans|apply ends_reads; [done|auto with reads]|].
  intros ex fs2 Hg2 Hs2 [Hs2' Hex]. 
  destruct (ex && _) eqn:Ec; [by apply ends_fail; [|apply same_safe]|].
  assert (¬ PLoc (PL ++ leaf :: ns)) as Hpt.
  { destruct ex; cbn [andb] in Ec.
    - apply negb_false_iff, bool_decide_eq_true in Ec. by apply Hover, area_below.
    - intros Hp. destruct (good_kept fs1 Hg1 _ (area_below ns) Hp) as [[x Hx] _].
      rewrite (target_missing _ _ _ _ Hg1 Hck Hex) in Hx. done. }
  apply (checked_safe _ fs2) in Hck; [|done]. clear Hg1.
  destruct (suffix_at_area _ _ _ Hck) as (ks & t & Hof & _ & Hx).
  destruct (Hx "download" (or_introl eq_refl)) as [Hst' Hnl].
  eapply ends_bind; [apply safe_trans| |].
  { apply (ends_rename _ _ _ (ks ++ [suffixed t "download"]) ns); [done|done|apply Hck|apply Hck| |done|done].
    intros _. by apply (Hside target Htg Hst ks t "download"); [|left|apply Hst']. }
  intros [] fs3 Hg3 Hs3 _.
  eapply ends_bind; [apply safe_trans| |].
  { destruct (Hx "digest" (or_intror eq_refl)) as [Hdg _].
    eapply ends_remove_if_exists; [done|eapply at_area_safe; [exact Hdg|exact Hs3]|].
    intros _. by apply (Hside target Htg Hst ks t "digest"); [|right|apply Hdg]. }
  intros [] fs4 Hg4 Hs4 _.
  eapply ends_bind; [apply safe_trans|apply ends_reads; [done|auto with reads]|].
  intros en fs5 Hg5 Hs5 _. eapply ends_weaken; [done| |by apply ends_set_file_mtime]. done.
Qed.

(** *** Resuming *)
Lemma links_to_unique (m : nmap) l k i :
  links_to m i = 1%nat → m !! l = Some (File i) → m !! k = Some (File i) → l = k.
Proof.
  unfold links_to. intros Hs Hl Hk. destruct (decide (l = k)) as [|Hne]; [done|exfalso].
  set (f := filter _ m) in Hs.
  assert (({[l := File i; k := File i]} : nmap) ⊆ f) as Hsub.
  { apply map_subseteq_spec. intros x n.
    intros [[<- <-]|[_ [<- <-]%lookup_singleton_Some]]%lookup_insert_Some; by apply map_lookup_filter_Some. }
  apply map_subseteq_size in Hsub.
  rewrite map_size_insert_None, map_size_singleton in Hsub by (by rewrite lookup_singleton_ne). lia.
Qed.

(** A side file of a checked target that is missing or not a link is opened where
    its path says. *)
Lemma open_write_spec fs target ns x h fs' :
  good fs → checked (nodes fs) target ns → side x →
  (trailing target = true → nodes fs !! (PL ++ leaf :: ns) = None) →
  open_write false false (suffixed target x) fs = (Ok h, fs') →
  same fs fs' ∧ ∃ l, area l ∧ nodes fs !! l = Some (File (h_ino h)).
Proof.
  intros Hg Hck Hx Htr H.
  destruct (suffix_at_area fs target ns Hck) as (ks & t & _ & Hks & Hs).
  destruct (Hs x Hx) as [(Hb & Ht & Ha & Hl) Hnl]. rewrite removelast_last in Hl.
  apply syscall_ok in H as (fs1 & Hs1 & H). apply result_bind_ok in H as (l & Hl1 & H).
  assert (¬ is_link (nodes fs !! (PL ++ ks ++ [suffixed t x]))) as Hnl'.
  { destruct (trailing target) eqn:E; [|auto]. subst ks. intros [u Hu].
    assert (nodes fs !! (PL ++ leaf :: ns) = Some Dir) as Hd; [|rewrite Htr in Hd; done].
    apply (good_tree fs Hg _ (suffixed t x)). rewrite <- app_assoc. by rewrite Hu. }
  assert (l = PL ++ ks ++ [suffixed t x]) as ->.
  { destruct (resolve_below fs1 _ _ true (same_good _ _ Hs1 Hg) Hb) as [[Hw _]|(e & Hw & _)];
      [by destruct ks| |congruence..].
    left. rewrite (same_nodes _ _ Hs1). by apply links_free_snoc. }
  destruct (nodes fs1 !! _) as [[| |]|] eqn:E; simplify_eq. split; [done|].
  eexists. split; [exact Ha|]. by rewrite <- (same_nodes _ _ Hs1).
Qed.

Record job_inv (j : TransferJob) : Prop := mkJobInv {
  ji_source : data_source j = FilePath base;
  ji_download : is_download j = true;
  ji_confirm : confirming = false → download j = Some None;
  ji_stream : ∀ s, data_stream j = Some s → ∃ h, s = FileStream h Writing ∧ ¬ PIno (h_ino h);
  ji_entry : data_stream j ≠ None → is_Some (entry_at (files j) (file_num j));
  ji_sides : data_stream j ≠ None → ∀ target, job_target j (file_num j) target → sides_free target;
}.

(** A method of the job: it keeps the job's invariant and stays within bounds. *)
Definition keeps {A} (m : J A) : Prop :=
  ∀ j fs, good fs → job_inv j → good (m (j, fs)).2.2 ∧ safe fs (m (j, fs)).2.2 ∧ job_inv (m (j, fs)).2.1.

Lemma keeps_bind {A B} (m : J A) (k : A → J B) : keeps m → (∀ a, keeps (k a)) → keeps (m ≫= k).
Proof.
  intros Hm Hk j fs Hg Hj. destruct (Hm j fs Hg Hj) as (H1 & H2 & H3).
  unfold mbind, m_bind. destruct (m (j, fs)) as [[a|e] [j1 fs1]]; [|done]. cbn in *.
  destruct (Hk a j1 fs1 H1 H3) as (H4 & H5 & H6). split_and!; [done|by eapply safe_trans|done].
Qed.
Lemma keeps_ret {A} (a : A) : keeps (mret a).
Proof. intros j fs Hg Hj. split_and!; [done|by apply same_safe|done]. Qed.
Lemma keeps_of_result {A} (r : result A Error) : keeps (of_result r).
Proof. intros j fs Hg Hj. split_and!; [done|by apply same_safe|done]. Qed.
Lemma keeps_fail {A} e : keeps (@fail _ A e).
Proof. intros j fs Hg Hj. split_and!; [done|by apply same_safe|done]. Qed.
Lemma keeps_reads {A} (m : M Fs A) : reads m → keeps (fs_do m).
Proof.
  intros Hm j fs Hg Hj. specialize (Hm fs). unfold fs_do. destruct (m fs) as [r fs']. cbn in *.
  split_and!; [by eapply same_good|by apply same_safe|done].
Qed.
Lemma keeps_modify f : (∀ j, job_inv j → job_inv (f j)) → keeps (modify f).
Proof. intros Hf j fs Hg Hj. split_and!; [done|by apply same_safe|by apply Hf]. Qed.
Lemma keeps_self {A} (k : TransferJob → J A) :
  (∀ j fs, good fs → job_inv j → good (k j (j, fs)).2.2 ∧ safe fs (k j (j, fs)).2.2 ∧ job_inv (k j (j, fs)).2.1) →
  keeps (j ← self; k j).
Proof. intros Hk j fs Hg Hj. by apply Hk. Qed.

Lemma job_inv_confirmed j n o :
  job_inv j → download_confirmation_offset j n = Some o → confirming = true.
Proof.
  intros Hj Ho. destruct confirming eqn:E; [done|]. unfold download_confirmation_offset in Ho.
  by rewrite (ji_confirm j Hj E) in Ho.
Qed.

Lemma job_finish j fs : good fs → job_inv j → ends safe fs (finish_download j fs) (λ _ _, True).
Proof.
  intros Hg Hj. unfold finish_download. rewrite (ji_download j Hj).
  apply ends_finish_download; [done|apply Hj| |].
  - intros target Ht Hs. by apply (ji_sides j Hj).
  - intros Ho. by apply PLoc_outside, (job_inv_confirmed j _ _ Hj Ho).
Qed.

Lemma keeps_ends {A} (m : TransferJob → M Fs A) :
  (∀ j fs, good fs → job_inv j → ends safe fs (m j fs) (λ _ _, True)) → keeps (j ← self; fs_do (m j)).
Proof.
  intros Hm j fs Hg Hj. destruct (Hm j fs Hg Hj) as (H1 & H2 & _).
  unfold mbind, m_bind, self, fs_do. destruct (m j fs) as [r fs']. cbn in *. by split_and!.
Qed.

Lemma job_inv_no_stream j : job_inv j → job_inv (j <| data_stream := None |>).
Proof. intros []. by split. Qed.

Lemma finish_and_take_spec j fs :
  good fs → job_inv j →
  let p := finish_and_take (j, fs) in
  good p.2.2 ∧ safe fs p.2.2 ∧ p.2.1 = j <| data_stream := None |>.
Proof.
  intros Hg Hj. destruct (job_finish j fs Hg Hj) as (H1 & H2 & _).
  unfold finish_and_take, mbind, m_bind, self, fs_do, try, modify, of_result.
  destruct (finish_download j fs) as [[[]|e] fs']; cbn in *; by split_and!.
Qed.

(** A job whose stream is a file of its own. *)
Lemma job_inv_stream j n h off tr fin :
  job_inv j → is_Some (entry_at (files j) n) → ¬ PIno (h_ino h) →
  (∀ target, job_target j n target → sides_free target) →
  job_inv (j <| file_num := n |> <| data_stream := Some (FileStream (mkHandle (h_ino h) off) Writing) |>
             <| transferred := tr |> <| finished_size := fin |>).
Proof.
  intros [] He Hh Hs. split; try done.
  intros s [= <-]. eexists. split; [done|]. done.
Qed.

(** A computation on the files, then a change of the job. *)
Lemma run_self_fs_modify {A} (m : TransferJob → M Fs A) (f : A → TransferJob → TransferJob) j fs :
  (j ← self; h ← fs_do (m j); modify (f h)) (j, fs) =
  match m j fs with
  | (Ok h, fs') => (Ok tt, (f h j, fs'))
  | (Err e, fs') => (Err e, (j, fs'))
  end.
Proof. unfold mbind, m_bind, self, fs_do, modify. by destruct (m j fs) as [[]]. Qed.

Lemma resume_keeps j fs n o :
  good fs → job_inv j → confirming = true →
  let p := resume_download n o (j, fs) in good p.2.2 ∧ safe fs p.2.2 ∧ job_inv p.2.1.
Proof.
  intros Hg Hj Hc. unfold resume_download. rewrite run_self_fs_modify.
  set (m := (target ← download_target j n; _) : M Fs Handle).
  assert (∀ h fs', m fs = (Ok h, fs') → ¬ PIno (h_ino h) ∧ is_Some (entry_at (files j) n)) as Hok.
  { intros h fs' H. subst m. apply bind_ok in H as (target & fs1 & H1 & H).
    apply download_target_spec in H1 as (Hs1 & (en & Hen & Ht) & ns & Hck); [|done|apply Hj].
    split; [|by eexists]. apply bind_ok in H as (ex & fs2 & H2 & H). destruct ex; [done|].
    assert (good fs1) as Hg1 by (by eapply same_good).
    rewrite <- (same_nodes _ _ Hs1) in Hck.
    pose proof (target_missing _ _ _ _ Hg1 Hck H2) as Hmiss.
    pose proof (reads_ok _ _ _ _ (reads_try_exists _) H2) as Hs2.
    apply bind_ok in H as (md & fs3 & H3 & H). pose proof (reads_ok _ _ _ _ (reads_metadata _) H3) as Hs3.
    destruct (negb (is_file md)); [done|]. apply bind_ok in H as (h1 & fs4 & H4 & H).
    assert (good fs3) as Hg3 by (by eapply same_good; [|eapply same_good]).
    assert (nodes fs3 = nodes fs1) as N3 by (by rewrite (same_nodes _ _ Hs3), (same_nodes _ _ Hs2)).
    apply (open_write_spec fs3 target ns) in H4 as (Hs4 & l & Hal & Hn);
      [|done|by rewrite N3|by left|by rewrite N3].
    apply bind_ok in H as ([] & fs5 & H5 & H).
    assert (h_ino h = h_ino h1) as ->.
    { apply bind_ok in H as (md' & fs6 & _ & H). destruct (negb _); [done|].
      apply syscall_ok in H as (fs7 & _ & H). by injection H as <-. }
    intros Hpi. destruct (good_named fs3 Hg3 Hc _ Hpi) as (l' & Hl' & Hn').
    unfold validate_resume_file in H5. apply bind_ok in H5 as (md5 & fs6 & H5 & H6).
    destruct (negb (is_file md5)); [done|]. destruct (negb _) eqn:Elinks; [done|].
    apply negb_false_iff, bool_decide_eq_true in Elinks.
    apply syscall_ok in H5 as (fs7 & Hs7 & H5). injection H5 as <- <-. cbn in Elinks.
    rewrite (same_nodes _ _ Hs7), (same_nodes _ _ Hs4) in Elinks.
    apply Hl'. by rewrite <- (links_to_unique _ l l' (h_ino h1) Elinks Hn Hn'). }
  assert (same fs (m fs).2) as Hsame.
  { apply reads_bind; [auto with reads|]. intros target. unfold validate_resume_file, bail. reads_tac. }
  destruct (m fs) as [[h|e] fs'] eqn:E; cbn [fst snd] in *.
  - destruct (Hok h fs' eq_refl) as [Hi He].
    cbn. split_and!; [by eapply same_good|by apply same_safe|].
    destruct h as [i off]. refine (job_inv_stream j n (mkHandle i off) off _ _ Hj He Hi _).
    intros target _ ks t x Hof Hx. by apply PLoc_outside.
  - cbn. split_and!; [by eapply same_good|by apply same_safe|done].
Qed.

(** *** Starting *)
Lemma side_missing fs target ns ks t x fs' :
  good fs → checked (nodes fs) target ns → side_of target ks t → side x →
  area (PL ++ ks ++ [suffixed t x]) →
  try_exists (suffixed target x) fs = (Ok false, fs') → ¬ PLoc (PL ++ ks ++ [suffixed t x]).
Proof.
  intros Hg Hck Hof Hx Ha H%try_exists_false Hp.
  destruct (good_kept fs Hg _ Ha Hp) as [[n Hn] Hnl].
  destruct (suffix_at_area fs target ns Hck) as (ks' & t' & Hof' & _ & Hs).
  assert (ks' = ks ∧ t' = t) as [-> ->].
  { destruct Hof as [H1 H2], Hof' as [H3 H4]. rewrite H1 in H3. injection H3 as ->. split; [|done].
    rewrite H2 in H4. apply app_inv_head in H4.
    assert (Inj (=) (=) Normal) by (by intros ?? [=]).
    destruct (trailing target); apply (inj (fmap Normal)) in H4; [done|]. by apply app_inj_tail in H4 as [-> _]. }
  destruct (Hs x Hx) as [(Hb & Ht & _ & Hl) _]. rewrite removelast_last in Hl.
  destruct (resolve_below fs _ _ true Hg Hb) as [[Hw _]|(e & Hw & He)]; [by destruct ks| | |].
  - left. by apply links_free_snoc.
  - destruct H as [H|(l & H & Hnone)]; [congruence|]. rewrite Hw in H. injection H as <-. congruence.
  - destruct H as [H|(l & H & _)]; [|congruence]. rewrite He in Hn; congruence.
Qed.

Lemma any_exists_false fs target fs' :
  any_exists target fs = (Ok false, fs') →
  ∃ fs1 fs2, try_exists target fs = (Ok false, fs1) ∧
    try_exists (suffixed target "download") fs1 = (Ok false, fs2) ∧
    try_exists (suffixed target "digest") fs2 = (Ok false, fs') ∧ same fs fs1 ∧ same fs fs2.
Proof.
  unfold any_exists. intros H. apply bind_ok in H as ([] & fs1 & H1 & H); [done|].
  apply bind_ok in H as ([] & fs2 & H2 & H); [done|]. exists fs1, fs2.
  pose proof (reads_ok _ _ _ _ (reads_try_exists _) H1) as S1.
  pose proof (reads_ok _ _ _ _ (reads_try_exists _) H2) as S2.
  split_and!; try done. by eapply same_trans.
Qed.

Lemma reads_any_exists target : reads (any_exists target).
Proof. unfold any_exists. reads_tac. Qed.

(** What is not confirmed does not exist, so its side files are free. *)
Lemma start_sides_free fs target ns e fs' :
  good fs → checked (nodes fs) target ns → any_exists target fs = (Ok e, fs') →
  confirming = true ∨ e = false → sides_free target.
Proof.
  intros Hg Hck He [Hc| ->] ks t x Hof Hx Ha; [by apply PLoc_outside|].
  apply any_exists_false in He as (fs1 & fs2 & _ & H2 & H3 & S1 & S2).
  destruct Hx as [-> | ->].
  - eapply (side_missing fs1); [by eapply same_good| |done|by left|done|exact H2].
    by rewrite (same_nodes _ _ S1).
  - eapply (side_missing fs2); [by eapply same_good| |done|by right|done|exact H3].
    by rewrite (same_nodes _ _ S2).
Qed.

Definition jends {A} (fs : Fs) (p : result A Error * (TransferJob * Fs))
    (Q : A → TransferJob → Fs → Prop) : Prop :=
  good p.2.2 ∧ safe fs p.2.2 ∧ job_inv p.2.1 ∧ ∀ a, p.1 = Ok a → Q a p.2.1 p.2.2.

Lemma jends_bind {A B} j fs (m : J A) (k : A → J B) Q1 Q2 :
  jends fs (m (j, fs)) Q1 →
  (∀ a j1 fs1, good fs1 → safe fs fs1 → job_inv j1 → Q1 a j1 fs1 → jends fs1 (k a (j1, fs1)) Q2) →
  jends fs ((m ≫= k) (j, fs)) Q2.
Proof.
  intros (H1 & H2 & H3 & H4) Hk. unfold mbind, m_bind.
  destruct (m (j, fs)) as [[a|e] [j1 fs1]]; cbn in *; [|by split_and!].
  destruct (Hk a j1 fs1 H1 H2 H3 (H4 _ eq_refl)) as (K1 & K2 & K3 & K4).
  split_and!; [done|by eapply safe_trans|done|done].
Qed.

Lemma jends_fs {A} j fs (m : M Fs A) Q :
  job_inv j → ends safe fs (m fs) Q → jends fs (fs_do m (j, fs)) (λ a j' fs', j' = j ∧ Q a fs').
Proof.
  intros Hj (H1 & H2 & H3). unfold fs_do. destruct (m fs) as [r fs']. cbn in *. split_and!; auto.
Qed.

Lemma jends_self {A} j fs (k : TransferJob → J A) Q : jends fs (k j (j, fs)) Q → jends fs ((j ← self; k j) (j, fs)) Q.
Proof. done. Qed.

Lemma jends_ret {A} j fs (a : A) (Q : A → TransferJob → Fs → Prop) :
  good fs → job_inv j → Q a j fs → jends fs ((mret a : J A) (j, fs)) Q.
Proof. intros. split_and!; [done|by apply same_safe|done|by intros ? [= <-]]. Qed.

Lemma jends_fail {A} j fs e (Q : A → TransferJob → Fs → Prop) :
  good fs → job_inv j → jends fs (fail e (j, fs)) Q.
Proof. intros. split_and!; [done|by apply same_safe|done|done]. Qed.

Lemma jends_modify j fs f (Q : () → TransferJob → Fs → Prop) :
  good fs → job_inv (f j) → Q tt (f j) fs → jends fs (modify f (j, fs)) Q.
Proof. intros. split_and!; [done|by apply same_safe|done|by intros ? [= <-]]. Qed.

Lemma jends_keeps {A} j fs (m : J A) : jends fs (m (j, fs)) (λ _ _ _, True) →
  good (m (j, fs)).2.2 ∧ safe fs (m (j, fs)).2.2 ∧ job_inv (m (j, fs)).2.1.
Proof. intros (?&?&?&_). by split_and!. Qed.

Lemma checked_parent m target ns fs :
  nodes fs = m → checked m target ns → ∃ p ds, path_parent target = Some p ∧ dir_path fs p ds.
Proof.
  intros <- [[Ha Hs] Hl _]. destruct (exists_last (l := leaf :: ns) ltac:(done)) as (k & s & Hks).
  rewrite Hks, fmap_app, app_assoc in Hs. exists (path_string (RootDir :: cs0 ++ (Normal <$> k))), k.
  split; [by apply path_parent_absolute in Hs|].
  assert (Forall comp_ok (cs0 ++ (Normal <$> k))) as Hok.
  { pose proof (segc_ok target) as Hok. rewrite Hs in Hok. by apply Forall_app in Hok as [? _]. }
  split_and!.
  - split; [apply path_string_absolute|by apply segc_path_string].
  - intros Hne. apply trailing_path_string; [|done]. destruct k; [done|]. by destruct cs0.
  - destruct k as [|x k]; [by left|right]. injection Hks as <- _. by eexists.
  - eapply links_free_prefix; [|exact Hl]. rewrite Hks. by eexists.
Qed.

Section Start.
Context (digest_to_json : FileDigest → list byte).

Lemma start_anew_keeps j fs target ns n :
  good fs → job_inv j → data_stream j = None → job_target j n target → checked (nodes fs) target ns →
  sides_free target → jends fs (start_anew digest_to_json target n (j, fs)) (λ _ _ _, True).
Proof.
  intros Hg Hj Hst Htg Hck Hfree. unfold start_anew.
  destruct (checked_parent _ target ns fs eq_refl Hck) as (p & ds & -> & Hp).
  eapply jends_bind; [apply jends_fs; [done|by eapply ends_create_dir_all_go]|].
  intros [] j1 fs1 Hg1 Hs1 Hj1 [-> _]. apply (checked_safe _ fs1) in Hck; [|done].
  destruct (suffix_at_area _ _ _ Hck) as (ks & t & Hof & _ & Hx).
  destruct (Hx "download" (or_introl eq_refl)) as [Hd _]. destruct (Hx "digest" (or_intror eq_refl)) as [Hg' _].
  eapply jends_bind; [apply jends_fs; [done|]|].
  { eapply ends_remove_if_exists; [done|exact Hd|]. intros _. by apply (Hfree ks t); [|left|apply Hd]. }
  intros [] j2 fs2 Hg2 Hs2 Hj2 [-> _].
  eapply jends_bind; [apply jends_fs; [done|eapply ends_open_create_new; [done|by eapply at_area_safe]]|].
  intros h j3 fs3 Hg3 Hs3 Hj3 (-> & Hh & _ & _).
  assert (job_inv (j <| file_num := n |> <| data_stream := Some (FileStream h Writing) |>)) as Hj4.
  { destruct Hj. split; try done.
    - intros s [= <-]. eexists. by split.
    - intros _. destruct Htg as (en & Hen & _). by exists en.
    - intros _ target' (en & Hen & ->). destruct Htg as (en' & Hen' & Ht'). 
      assert (en = en') as -> by (cbn in Hen; congruence). by rewrite <- Ht'. }
  eapply jends_bind; [by apply (jends_modify _ _ _ (λ _ j' fs', j' =
    j <| file_num := n |> <| data_stream := Some (FileStream h Writing) |> ∧ fs' = fs3))|].
  intros [] j4 fs4 Hg4 Hs4 _ [-> ->].
  eapply jends_bind; [apply jends_fs; [done|]|].
  { eapply ends_remove_if_exists; [done|eapply at_area_safe; [exact Hg'|by eapply safe_trans]|].
    intros _. by apply (Hfree ks t); [|right|apply Hg']. }
  intros [] j5 fs5 Hg5 Hs5 Hj5 [-> _]. apply jends_self.
  assert (at_area fs5 (suffixed target "digest") (ks ++ [suffixed t "digest"])) as Hat.
  { eapply at_area_safe; [exact Hg'|]. eapply safe_trans; [exact Hs2|]. by eapply safe_trans. }
  destruct (jends_fs _ fs5 _ _ Hj5 (ends_write_new fs5 _ _
    (digest_to_json (digest (j <| file_num := n |> <| data_stream := Some (FileStream h Writing) |>))) Hg5 Hat))
    as (K1 & K2 & K3 & _). by split_and!.
Qed.

Lemma jends_finish_and_take j fs :
  good fs → job_inv j →
  jends fs (finish_and_take (j, fs)) (λ _ j' _, j' = j <| data_stream := None |>).
Proof.
  intros Hg Hj. destruct (finish_and_take_spec j fs Hg Hj) as (H1 & H2 & H3).
  split_and!; [done|done| |done]. rewrite H3. by apply job_inv_no_stream.
Qed.

Lemma start_keeps j fs n :
  good fs → job_inv j → jends fs (start_download_file digest_to_json n (j, fs)) (λ _ _ _, True).
Proof.
  intros Hg Hj. unfold start_download_file.
  eapply jends_bind; [by apply jends_finish_and_take|].
  intros [] j1 fs1 Hg1 Hs1 Hj1 ->. apply jends_self.
  eapply jends_bind; [apply jends_fs; [done|apply ends_download_target; [done|apply Hj1]]|].
  intros target j2 fs2 Hg2 Hs2 Hj2 (-> & Hsm2 & Htg & ns & Hck). rewrite <- (same_nodes _ _ Hsm2) in Hck.
  eapply jends_bind; [apply jends_fs; [done|apply ends_reads; [done|apply reads_any_exists]]|].
  intros e j3 fs3 Hg3 Hs3 Hj3 (-> & Hsm3 & He).
  destruct (e && _) eqn:Ec; [by apply jends_fail|].
  set (cf := download_confirmation_offset _ n) in *.
  assert (jends fs3 (start_anew digest_to_json target n (j <| data_stream := None |>, fs3)) (λ _ _ _, True)) as Hanew.
  { eapply (start_anew_keeps _ _ _ ns); [done|done|done|done|by rewrite (same_nodes _ _ Hsm3)|].
    eapply (start_sides_free fs2); [done|done|done|]. destruct cf as [o|] eqn:Ecf.
    - left. by apply (job_inv_confirmed _ n o Hj2).
    - right. by rewrite bool_decide_eq_true_2, andb_true_r in Ec. }
  destruct cf as [[|o|o]|] eqn:Ecf; [exact Hanew| |exact Hanew|exact Hanew].
  destruct (resume_keeps _ fs3 n (Zpos o) Hg3 Hj3) as (K1 & K2 & K3); [|by split_and!].
  by apply (job_inv_confirmed _ n (Zpos o) Hj3).
Qed.

Context (zstd_decompress : list byte → option (list byte)).

Lemma stream_write_keeps j fs d :
  good fs → job_inv j → jends fs (stream_write d (j, fs)) (λ _ _ _, True).
Proof.
  intros Hg Hj. unfold stream_write. apply jends_self.
  destruct (data_stream j) as [s|] eqn:E; [|by apply jends_fail].
  destruct (ji_stream j Hj s E) as (h & -> & Hi).
  eapply jends_bind; [apply jends_fs; [done|by apply ends_write_some]|].
  intros r j1 fs1 Hg1 Hs1 Hj1 (-> & Hn & Hino).
  assert (job_inv (j <| data_stream := Some (FileStream r.1 Writing) |>)) as Hj2.
  { destruct Hj. split; try done.
    - intros s [= <-]. eexists. split; [done|]. by rewrite Hino.
    - intros _. apply ji_entry0. by rewrite E.
    - intros _. apply ji_sides0. by rewrite E. }
  eapply jends_bind; [by apply (jends_modify _ _ _ (λ _ _ _, True))|].
  intros [] j2 fs2 Hg2 Hs2 Hj3 _. split_and!; [done|by apply same_safe|done|done].
Qed.

Lemma account_keeps j fs d b :
  good fs → job_inv j → jends fs (account d b (j, fs)) (λ _ _ _, True).
Proof. intros Hg Hj. apply jends_modify; [done| |done]. by destruct Hj. Qed.

Lemma write_download_keeps j fs b :
  good fs → job_inv j →
  jends fs (write_download zstd_decompress digest_to_json b (j, fs)) (λ _ _ _, True).
Proof.
  intros Hg Hj. unfold write_download. apply jends_self.
  destruct (negb _); [by apply jends_fail|]. case_bool_decide; [by apply jends_fail|].
  eapply jends_bind with (Q1 := λ _ _ _, True).
  { case_match; [by apply start_keeps|by apply jends_ret]. }
  intros [] j1 fs1 Hg1 Hs1 Hj1 _. apply jends_self.
  destruct (data_stream j1) as [[h m|]|] eqn:E; [|by apply jends_fail..].
  eapply jends_bind; [by apply stream_write_keeps|]. intros [] j2 fs2 Hg2 Hs2 Hj2 _.
  eapply jends_bind; [apply jends_fs; [done|apply ends_reads; [done|auto with reads]]|].
  intros [] j3 fs3 Hg3 Hs3 Hj3 _. by apply account_keeps.
Qed.

(** *** Whatever happens to a download job *)
Inductive Event : Type :=
| SetFiles (l : list FileEntry)
| SetDigest (size modified : Z)
| Write (b : FileTransferBlock)
| Confirm (r : SendConfirmRequest)
| Digest (can_resume : bool) (d : FileTransferDigest)
| Finish
| RemoveDownloadFile.

Context (digest_of_json : list byte → option FileDigest).

(** The state after an event, whether it succeeded or not. *)
Definition event (e : Event) : J () :=
  match e with
  | SetFiles l => set_files l
  | SetDigest s m => modify (set_digest s m)
  | Write b => write zstd_decompress digest_to_json b
  | Confirm r => confirm r
  | Digest c d => download_digest digest_of_json c d;; mret tt
  | Finish => j ← self; fs_do (finish_download j)
  | RemoveDownloadFile => j ← self; fs_do (remove_download_file j)
  end.

Definition run_events (es : list Event) (s : TransferJob * Fs) : TransferJob * Fs :=
  foldl (λ s e, (event e s).2) s es.

(** Only a refusal is sent when nothing is confirmed. *)
Definition allowed (e : Event) : Prop :=
  match e with
  | Confirm r => confirming = true ∨ c_union r = Some (Skip true) ∨ c_union r = None
  | _ => True
  end.

Lemma confirm_keeps j fs r :
  good fs → job_inv j → allowed (Confirm r) → jends fs (confirm r (j, fs)) (λ _ _ _, True).
Proof.
  intros Hg Hj Ha. unfold confirm. apply jends_self. rewrite (ji_download j Hj).
  assert (job_inv (confirm_download r j)) as Hj1.
  { unfold confirm_download. case_match; [done|]. destruct (download j) eqn:Ed; [|done].
    destruct Hj. split; try done. cbn. intros Hc.
    destruct Ha as [Ha|[Ha|Ha]]; [congruence| |];
      destruct (entry_at (files j) (c_file_num r)); cbn; by rewrite ?Ha. }
  eapply jends_bind; [by apply (jends_modify _ _ _ (λ _ j' _, j' = confirm_download r j))|].
  intros [] j1 fs1 Hg1 Hs1 _ ->. cbn [andb].
  destruct (match c_union r with Some (OffsetBlk _) => _ | _ => false end) eqn:Eo; [by apply jends_ret|].
  destruct (negb (file_num j =? c_file_num r)); [by apply jends_ret|].
  destruct (c_union r) as [[[]|o]|]; [..|by apply jends_ret].
  - apply jends_modify; [done| |done]. destruct Hj1. by split.
  - apply jends_modify; [done| |done]. by destruct Hj1.
  - rewrite Eo. eapply jends_bind; [apply (jends_modify _ _ _ (λ _ _ _, True)); [done|by destruct Hj1|done]|].
    intros [] j2 fs2 Hg2 Hs2 Hj2 _. by apply jends_ret.
Qed.

Lemma set_files_keeps j fs l :
  good fs → job_inv j → jends fs (set_files l (j, fs)) (λ _ _ _, True).
Proof.
  intros Hg Hj. unfold set_files. apply jends_self. rewrite (ji_download j Hj), (ji_source j Hj).
  case_bool_decide as Hf; cbn [negb andb]; [|by apply jends_fail].
  eapply jends_bind with (Q1 := λ _ j' _, j' = j).
  { split_and!; [done|by apply same_safe|done|by intros]. }
  intros [] j1 fs1 Hg1 Hs1 _ ->.
  eapply jends_bind; [apply jends_fs; [done|apply ends_reads; [done|]]|].
  { induction l as [|f l IH]; cbn [iter_m]; reads_tac. }
  intros [] j2 fs2 Hg2 Hs2 _ [-> _]. apply jends_modify; [done| |done].
  assert (data_stream j = None) as Hn.
  { destruct (data_stream j) eqn:E; [|done]. destruct (ji_entry j Hj) as [en Hen]; [by rewrite E|].
    rewrite Hf in Hen. unfold entry_at in Hen. by case_match. }
  destruct Hj. by split.
Qed.

Lemma jends_of_keeps {A} (m : J A) j fs :
  keeps m → good fs → job_inv j → jends fs (m (j, fs)) (λ _ _ _, True).
Proof. intros Hm Hg Hj. destruct (Hm j fs Hg Hj) as (?&?&?). by split_and!. Qed.

Ltac keeps_tac :=
  repeat first
    [ apply keeps_ret | apply keeps_of_result | apply keeps_fail
    | apply keeps_reads; solve [auto with reads]
    | apply keeps_bind; [|intros ?]
    | match goal with |- keeps (match ?x with _ => _ end) => destruct x end
    | match goal with |- keeps (if ?b then _ else _) => destruct b end ].

Lemma download_digest_keeps c d j fs :
  good fs → job_inv j → jends fs (download_digest digest_of_json c d (j, fs)) (λ _ _ _, True).
Proof.
  intros Hg Hj. unfold download_digest. apply jends_self.
  eapply jends_bind with (Q1 := λ _ _ _, True).
  { case_match; [|by apply jends_ret].
    destruct (finish_and_take_spec j fs Hg Hj) as (H1 & H2 & H3).
    split_and!; [done|done|rewrite H3; by apply job_inv_no_stream|done]. }
  intros [] j1 fs1 Hg1 Hs1 Hj1 _. apply jends_of_keeps; [|done|done]. keeps_tac.
Qed.

Lemma ends_ignore_remove fs q ns :
  good fs → at_area fs q ns → ¬ PLoc (PL ++ ns) → ends safe fs (ignore (remove_file q) fs) (λ _ _, True).
Proof.
  intros Hg Hq Hp. unfold ignore. eapply ends_bind; [apply safe_trans|apply ends_try; by apply (ends_remove_file _ _ ns)|].
  intros r fs1 Hg1 _ _. by apply ends_ret.
Qed.

Lemma remove_download_file_ends j fs :
  good fs → job_inv j → ends safe fs (remove_download_file j fs) (λ _ _, True).
Proof.
  intros Hg Hj. unfold remove_download_file. rewrite (ji_download j Hj), (ji_source j Hj). cbn [andb].
  case_bool_decide as Hst; [by apply ends_ret|].
  destruct (type j) eqn:Ety; [|by apply ends_ret].
  destruct (entry_at (files j) (file_num j)) as [en|] eqn:Een; [|by apply ends_ret].
  unfold resolve_entry_path. rewrite Ety, (ji_download j Hj).
  eapply (ends_bind _ _ _ _ (λ path fs1, same fs fs1 ∧ ∀ target, path = Some target →
    target = join base (name en) ∧ ∃ ns, checked (nodes fs1) target ns)); [apply safe_trans| |].
  - eapply ends_bind; [apply safe_trans|apply ends_reads; [done|auto with reads]|].
    intros r fs1 Hg1 Hs1 [Hsm Hr]. apply ends_ret; [done|]. split; [done|]. intros target Ht.
    unfold try in Hr. destruct (validated_target base (name en) fs) as [[t|e] fs2] eqn:Ev; simplify_eq/=.
    apply validated_target_spec in Ev as [-> H]; [|done]. split; [done|]. by rewrite (same_nodes _ _ Hsm).
  - intros [target|] fs1 Hg1 Hs1 [Hsm Hp]; [|by apply ends_ret].
    destruct (Hp target eq_refl) as [Ht (ns & Hck)].
    destruct (suffix_at_area _ _ _ Hck) as (ks & t & Hof & _ & Hx).
    destruct (Hx "download" (or_introl eq_refl)) as [Hd _]. destruct (Hx "digest" (or_intror eq_refl)) as [Hg' _].
    assert (sides_free target) as Hfree by (apply (ji_sides j Hj Hst); by exists en).
    eapply ends_bind; [apply safe_trans|eapply ends_ignore_remove; [done|exact Hd|]|].
    { apply (Hfree ks t); [done|by left|apply Hd]. }
    intros [] fs2 Hg2 Hs2 _. eapply ends_ignore_remove; [done|by eapply at_area_safe|].
    apply (Hfree ks t); [done|by right|apply Hg'].
Qed.

Lemma event_keeps j fs e :
  good fs → job_inv j → allowed e → jends fs (event e (j, fs)) (λ _ _ _, True).
Proof.
  intros Hg Hj Ha. destruct e; cbn [event].
  - by apply set_files_keeps.
  - apply jends_modify; [done| |done]. by destruct Hj.
  - unfold write. apply jends_self. rewrite (ji_download j Hj). by apply write_download_keeps.
  - by apply confirm_keeps.
  - eapply jends_bind; [by apply download_digest_keeps|]. intros r j1 fs1 Hg1 Hs1 Hj1 _. by apply jends_ret.
  - apply jends_self. destruct (job_finish j fs Hg Hj) as (H1 & H2 & _).
    unfold fs_do. destruct (finish_download j fs). by split_and!.
  - apply jends_self. destruct (remove_download_file_ends j fs Hg Hj) as (H1 & H2 & _).
    unfold fs_do. destruct (remove_download_file j fs). by split_and!.
Qed.

Lemma run_events_keeps es j fs :
  good fs → job_inv j → Forall allowed es →
  good (run_events es (j, fs)).2 ∧ safe fs (run_events es (j, fs)).2.
Proof.
  intros Hg Hj Ha. revert j fs Hg Hj. induction Ha as [|e es He Hes IH]; intros j fs Hg Hj.
  - split; [done|by apply same_safe].
  - destruct (event_keeps j fs e Hg Hj He) as (H1 & H2 & H3 & _).
    unfold run_events. cbn [foldl]. destruct (event e (j, fs)).2 as [j1 fs1]. cbn [fst snd] in *.
    destruct (IH j1 fs1 H1 H3) as [H4 H5]. split; [done|by eapply safe_trans].
Qed.
End Start.
End Destination.

(** ** Properties *)

(** Every node is in a directory and every file has its inode. *)
Definition well_formed (fs : Fs) : Prop :=
  tree (nodes fs) ∧ ∀ l i, nodes fs !! l = Some (File i) → (i < next_ino fs)%nat.

(** The user saves to the last name, [leaf], of the path [base]; its folder leads
    to the directory [PL], by a way that is not itself part of the download. *)
Record destination (fs : Fs) (base leaf : string) (cs0 : list Component) (PL : Loc) : Prop := mkDestination {
  dst_absolute : absolute base = true;
  dst_components : components base = RootDir :: cs0 ++ [Normal leaf];
  dst_folder : walk (outside leaf PL (nodes fs)) MAX_LINKS [] (RootDir :: cs0) true = Ok PL;
  dst_dir : nodes fs !! PL = Some Dir;
}.

Lemma destination_segc fs base leaf cs0 PL : destination fs base leaf cs0 PL → segc base = cs0 ++ [Normal leaf].
Proof. intros [Ha Hc _ _]. rewrite components_absolute in Hc by done. by injection Hc. Qed.

Lemma new_download_inv base leaf cs0 PL PLoc PIno confirming i n d :
  job_inv base cs0 leaf PL PLoc PIno confirming (new_write i Generic (FilePath base) n true d).
Proof. by split. Qed.

Section Properties.
Context (zstd_decompress : list byte → option (list byte)).
Context (digest_to_json : FileDigest → list byte) (digest_of_json : list byte → option FileDigest).

(** (C11) A download stays where the user put it.  Whatever files a peer
    announces, whatever blocks and digests it sends, in any order and number, with
    any answers of the user and any failures of the file system in between, every
    name outside of the destination, its staging file and its digest file is as
    it was, and so are the contents of every file that has such a name: no path
    traversal, no symbolic link and no hard link leads the download outside. *)
Theorem download_confined fs base leaf cs0 PL es i n d :
  well_formed fs → destination fs base leaf cs0 PL →
  let job := new_write i Generic (FilePath base) n true d in
  let fs' := (run_events digest_to_json zstd_decompress digest_of_json es (job, fs)).2 in
  ∀ l, ¬ area leaf PL l →
    nodes fs' !! l = nodes fs !! l ∧
    ∀ k, nodes fs !! l = Some (File k) → content (inode fs' k) = content (inode fs k).
Proof.
  intros [Ht Hi] Hd. pose proof (destination_segc _ _ _ _ _ Hd) as Hs. destruct Hd as [Ha _ Hf Hp]. cbv zeta.
  set (PLoc := λ l, ¬ area leaf PL l).
  set (PIno := λ k, ∃ l, ¬ area leaf PL l ∧ nodes fs !! l = Some (File k)).
  destruct (run_events_keeps base cs0 leaf PL Ha Hs PLoc PIno (next_ino fs)) with
    (confirming := true) (digest_to_json := digest_to_json) (zstd_decompress := zstd_decompress)
    (digest_of_json := digest_of_json) (es := es) (j := new_write i Generic (FilePath base) n true d) (fs := fs)
    as [_ [[_ Hn Hc] _]].
  - intros k (l & _ & Hl). by apply (Hi l).
  - by intros _ l Hl Hn.
  - by split.
  - apply new_download_inv.
  - apply Forall_forall. intros [] _; cbn; auto.
  - intros l Hl. split; [by apply Hn|]. intros k Hk. apply Hc. by exists l.
Qed.

(** Nothing is overwritten without the user's consent.  As long as no
    confirmation allows a file (refusals do not), every directory and every file
    that was there, in the destination too, is still there under its name with
    the same contents, whatever a peer sends and whatever fails in between. *)
Theorem unconfirmed_keeps_files fs base leaf cs0 PL es i n d :
  well_formed fs → destination fs base leaf cs0 PL →
  Forall (λ e, match e with
               | Confirm r => c_union r = Some (Skip true) ∨ c_union r = None
               | _ => True
               end) es →
  let job := new_write i Generic (FilePath base) n true d in
  let fs' := (run_events digest_to_json zstd_decompress digest_of_json es (job, fs)).2 in
  (∀ l, nodes fs !! l = Some Dir → nodes fs' !! l = Some Dir) ∧
  (∀ l k, nodes fs !! l = Some (File k) →
     nodes fs' !! l = Some (File k) ∧ content (inode fs' k) = content (inode fs k)).
Proof.
  intros [Ht Hi] Hd He. pose proof (destination_segc _ _ _ _ _ Hd) as Hs. destruct Hd as [Ha _ Hf Hp]. cbv zeta.
  set (PLoc := λ l, is_Some (nodes fs !! l) ∧ ¬ is_link (nodes fs !! l)).
  set (PIno := λ k, ∃ l, nodes fs !! l = Some (File k)).
  destruct (run_events_keeps base cs0 leaf PL Ha Hs PLoc PIno (next_ino fs)) with
    (confirming := false) (digest_to_json := digest_to_json) (zstd_decompress := zstd_decompress)
    (digest_of_json := digest_of_json) (es := es) (j := new_write i Generic (FilePath base) n true d) (fs := fs)
    as [_ [[Hn _ Hc] _]].
  - intros k (l & Hl). by apply (Hi l).
  - done.
  - by split.
  - apply new_download_inv.
  - eapply Forall_impl; [exact He|]. intros []; cbn; auto.
  - split.
    + intros l Hl. rewrite Hn; [done|]. split; rewrite Hl; [by eexists|by intros [? ?]].
    + intros l k Hl. split; [rewrite Hn; [done|]; split; rewrite Hl; [by eexists|by intros [? ?]]|].
      apply Hc. by exists l.
Qed.
End Properties.

(** *** A concrete download

    The user saves to [/home/u/dl]; a secret file is next to it, and the peer
    announces a file that climbs out, then one with a block, ends it, and the
    user refuses the next. *)
Definition example_fs : Fs :=
  mkFs (<[["home"; "u"; "secret"] := File 0]> (<[["home"; "u"] := Dir]> (<[["home"] := Dir]> {[[] := Dir]})))
    {[0%nat := mkInode [x01; x02] 5]} 1 ["home"] 7 [].

Definition example_events : list Event :=
  [ SetFiles [mkEntry "../secret" TFile 1 0]; SetFiles [mkEntry "a/b" TFile 2 9];
    Write (mkBlock 3 0 [x07; x08] false);
    Finish; Confirm (mkConfirm 3 0 (Some (Skip true))) ].

Lemma tree_by_parents (m : nmap) :
  map_Forall (λ l _, l = [] ∨ m !! removelast l = Some Dir) m → tree m.
Proof.
  intros Hm l s [n Hn]. destruct (Hm _ _ Hn) as [H|H]; [by destruct l|]. by rewrite removelast_last in H.
Qed.

Lemma example_well_formed : well_formed example_fs.
Proof.
  split.
  - apply tree_by_parents. apply (bool_decide_unpack _). vm_compute. exact I.
  - assert (map_Forall (λ _ n, match n with File i => (i < 1)%nat | _ => True end) (nodes example_fs)) as Hm.
    { apply map_Forall_insert_2; [apply Nat.lt_0_1|]. repeat (apply map_Forall_insert_2; [exact I|]).
      apply map_Forall_empty. }
    intros l i Hl. exact (Hm _ _ Hl).
Qed.

Lemma example_destination : destination example_fs "/home/u/dl" "dl" [Normal "home"; Normal "u"] ["home"; "u"].
Proof. split; vm_compute; reflexivity. Qed.

Lemma download_confined_witness :
  let fs' := (run_events (λ _, []) Some (λ _, None) example_events
                (new_write 3 Generic (FilePath "/home/u/dl") 0 true true, example_fs)).2 in
  nodes fs' !! ["home"; "u"; "secret"] = Some (File 0) ∧ content (inode fs' 0) = [x01; x02].
Proof.
  intros fs'.
  destruct (download_confined Some (λ _, []) (λ _, None) example_fs "/home/u/dl" "dl" [Normal "home"; Normal "u"] ["home"; "u"]
              example_events 3 0 true example_well_formed example_destination ["home"; "u"; "secret"]) as [H1 H2].
  { intros [H|[H|H]]; [apply (bool_decide_pack _) in H; vm_compute in H; exact H|discriminate H|discriminate H]. }
  split; [exact H1|]. exact (H2 0%nat eq_refl).
Defined.

Lemma unconfirmed_keeps_files_witness :
  let fs' := (run_events (λ _, []) Some (λ _, None) example_events
                (new_write 3 Generic (FilePath "/home/u/dl") 0 true true, example_fs)).2 in
  nodes fs' !! ["home"; "u"; "secret"] = Some (File 0) ∧ content (inode fs' 0) = [x01; x02].
Proof.
  intros fs'.
  destruct (unconfirmed_keeps_files Some (λ _, []) (λ _, None) example_fs "/home/u/dl" "dl" [Normal "home"; Normal "u"] ["home"; "u"]
              example_events 3 0 true example_well_formed example_destination) as [_ H].
  { repeat constructor. }
  exact (H ["home"; "u"; "secret"] 0%nat eq_refl).
Defined.

(** The same run, evaluated: the file is delivered, the climbing name refused. *)
Definition example_result : TransferJob * Fs :=
  run_events (λ _, []) Some (λ _, None) example_events
    (new_write 3 Generic (FilePath "/home/u/dl") 0 true true, example_fs).

Example example_delivered :
  content (inode example_result.2 1) = [x07; x08] ∧ mtime (inode example_result.2 1) = 9 ∧
  nodes example_result.2 !! ["home"; "u"; "dl"; "a"; "b"] = Some (File 1).
Proof. vm_compute. auto. Qed.
End FileTransferProofs.
