(* ===== verification/FileTransferService.v ===== *)
(** * File transfer: the service of the sending jobs

    Every sending job that does not wait for confirmations is read to its end and
    removed, whatever fails on the way, and the file system stays as it is; and
    a file that was sent arrives as it was. *)
From S2P Require Import Prelude RustStd RecordUpdate FileSystem FileSystemProofs FileTransfer FileTransferProofs.
From Stdlib Require Import Ascii.
Import FileSystem FileSystemProofs FileTransfer FileTransferProofs.

Module FileTransferService.

(** ** The work that is left *)

Definition stream_left (fs : Fs) (s : DataStream) : nat :=
  match s with
  | FileStream h Reading => length (content (inode fs (h_ino h))) - h_offset h
  | FileStream _ _ => 0
  | BufStream buf pos => length buf - pos
  end.

Definition files_left (j : TransferJob) : nat :=
  if file_num j <? 0 then 0 else length (files j) - Z.to_nat (file_num j).

(** The length of the longest file. *)
Definition longest (fs : Fs) : nat := max_list (map (λ p, length (content p.2)) (map_to_list (inodes fs))).

(** Calls of the loop that [j] needs at most. *)
Definition work (fs : Fs) (j : TransferJob) : nat :=
  match data_source j, data_stream j with
  | FilePath _, None => files_left j * (longest fs + 2)
  | FilePath _, Some s => (files_left j - 1) * (longest fs + 2) + stream_left fs s + 1
  | MemoryCursor c, None => length c + 2
  | MemoryCursor _, Some s => stream_left fs s + 1
  end.

Definition total_work (fs : Fs) (jobs : list TransferJob) : nat :=
  sum_list_with (λ j, S (work fs j)) jobs.

(** A job that sends on its own: it is not one that was saved, and does not wait
    for the user of the other side. *)
Definition sending (j : TransferJob) : Prop :=
  is_last_job j = false ∧ enable_overwrite_detection j = false ∧
  match data_source j, data_stream j with MemoryCursor _, Some (FileStream _ _) => False | _, _ => True end.

(** Whether the next read finds a stream, or the end of the files. *)
Definition ready (j : TransferJob) : Prop :=
  data_stream j ≠ None ∨ ∃ p, data_source j = FilePath p ∧ entry_at (files j) (file_num j) = None.

Lemma longest_spec fs i : (length (content (inode fs i)) ≤ longest fs)%nat.
Proof.
  unfold inode, longest. destruct (inodes fs !! i) as [n|] eqn:E; cbn; [|lia].
  apply max_list_elem_of_le. apply list_elem_of_fmap. exists (i, n). split; [done|].
  by apply elem_of_map_to_list.
Qed.

Lemma same_inode fs fs' i : same fs fs' → inode fs' i = inode fs i.
Proof. intros []. unfold inode. by rewrite same_inodes0. Qed.

Lemma work_same fs fs' j : same fs fs' → work fs' j = work fs j.
Proof.
  intros Hs. assert (longest fs' = longest fs) as Hl by (unfold longest; by rewrite (same_inodes _ _ Hs)).
  unfold work. rewrite Hl. destruct (data_source j), (data_stream j) as [[h []|]|]; cbn [stream_left];
    by rewrite ?(same_inode fs fs').
Qed.

Lemma total_work_same fs fs' jobs : same fs fs' → total_work fs' jobs = total_work fs jobs.
Proof.
  intros Hs. unfold total_work. induction jobs as [|j jobs IH]; [done|]. cbn. by rewrite (work_same fs), IH.
Qed.

Lemma entry_files_left j e :
  entry_at (files j) (file_num j) = Some e → 0 ≤ file_num j ∧ (0 < files_left j)%nat.
Proof.
  unfold entry_at, files_left. destruct (Z.ltb_spec (file_num j) 0); [done|].
  intros Hl%lookup_lt_Some. split; lia.
Qed.

(** The next file leaves one file less. *)
Lemma files_left_next j j' :
  0 ≤ file_num j → files j' = files j → file_num j' = file_num j + 1 → files_left j' = (files_left j - 1)%nat.
Proof.
  intros Hn Hf Hi. unfold files_left. rewrite Hf, Hi.
  destruct (Z.ltb_spec (file_num j) 0), (Z.ltb_spec (file_num j + 1) 0); lia.
Qed.

(** ** Opening and reading *)

(** What a step of a job leaves alone. *)
Definition step_ok (j : TransferJob) (fs : Fs) (s : TransferJob * Fs) : Prop :=
  sending s.1 ∧ same fs s.2 ∧ id s.1 = id j ∧ (work fs s.1 ≤ work fs j)%nat.

Lemma reads_open_read p : reads (open_read p).
Proof.
  apply reads_syscall. intros fs a fs' H. apply result_bind_ok in H as (l & _ & H).
  repeat case_match; by simplify_eq.
Qed.

Lemma open_read_fresh p fs h fs' : open_read p fs = (Ok (Some h), fs') → h_offset h = 0%nat.
Proof.
  intros (fs1 & _ & H)%syscall_ok. apply result_bind_ok in H as (l & _ & H).
  repeat case_match; by simplify_eq.
Qed.

Lemma run_try_fs {A B} (m : M Fs A) (k : result A Error → J B) j fs :
  (r ← fs_do (try m); k r) (j, fs) = k (m fs).1 (j, (m fs).2).
Proof. unfold mbind, m_bind, fs_do, try. by destruct (m fs). Qed.

Lemma run_self {A} (k : TransferJob → J A) j fs : (j0 ← self; k j0) (j, fs) = k j (j, fs).
Proof. done. Qed.
Lemma run_modify {A} (f : TransferJob → TransferJob) (k : J A) j fs :
  (modify f;; k) (j, fs) = k (f j, fs).
Proof. done. Qed.

Lemma step_refl j fs : sending j → step_ok j fs (j, fs).
Proof. intros Hj. split_and!; [done|apply same_refl|done|done]. Qed.

Lemma open_data_stream_spec j fs :
  sending j →
  let p := open_data_stream (j, fs) in
  step_ok j fs p.2 ∧ (ready p.2.1 ∨ (work fs p.2.1 < work fs j)%nat).
Proof.
  intros Hj. cbv zeta. unfold open_data_stream. rewrite run_self.
  pose proof Hj as (Hl & Hd & Hs). destruct (data_source j) as [p|c] eqn:Ed.
  - destruct (entry_at (files j) (file_num j)) as [e|] eqn:Ee.
    + destruct (data_stream j) eqn:Es; [split; [by apply step_refl|left; left; cbn; by rewrite Es]|].
      destruct (entry_files_left _ _ Ee) as [Hn Hf]. rewrite run_try_fs.
      pose proof (reads_open_read (FileTransfer.join p (name e)) fs) as Hsame.
      destruct (open_read _ fs) as [[h|err] fs1] eqn:Eo; cbn [fst snd] in *; rewrite run_modify.
      * assert (∀ s, (stream_left fs s ≤ longest fs)%nat →
          step_ok j fs (j <| data_stream := Some s |> <| file_confirmed := false |> <| file_is_waiting := false |>, fs1)) as H.
        { intros s Hle. split_and!; try done; cbn; [by unfold sending; cbn; rewrite Ed|].
          unfold work. cbn. rewrite Ed, Es. change (files_left _) with (files_left j) at 1. nia. }
        destruct h as [h|]; (split; [apply H|by left; left]); cbn; [|lia].
        rewrite (open_read_fresh _ _ _ _ Eo). pose proof (longest_spec fs (h_ino h)). lia.
      * cbn. assert (work fs (j <| FileTransfer.file_num := (file_num j + 1)%Z |> <| file_confirmed := false |>
                                <| file_is_waiting := false |>) < work fs j)%nat as Hw.
        { unfold work. cbn. rewrite Ed, Es. erewrite (files_left_next j); [nia|done..]. }
        split; [|right; exact Hw]. split_and!; cbn; try done. lia.
    + rewrite run_modify. split; [|left; right; exists p; done]. split_and!; cbn; try done; try (by unfold sending; cbn; rewrite Ed).
      unfold work. cbn. rewrite Ed. assert (files_left j = 0%nat) as H0.
      { unfold files_left, entry_at in *. destruct (Z.ltb_spec (file_num j) 0); [done|].
        apply lookup_ge_None in Ee. lia. }
      change (files_left _) with (files_left j) at 1. rewrite H0. lia.
  - destruct (data_stream j) as [s|] eqn:Es; [split; [by apply step_refl|left; left; cbn; by rewrite Es]|].
    rewrite run_modify. split; [|by left; left]. split_and!; cbn; try done.
    unfold work. cbn. rewrite Ed, Es. cbn. lia.
Qed.

Lemma init_data_stream_run j fs :
  sending j → (init_data_stream (j, fs)).2 = (open_data_stream (j, fs)).2 ∧
  ∀ d, (init_data_stream (j, fs)).1 ≠ Ok (Some d).
Proof.
  intros Hj. destruct (open_data_stream_spec j fs Hj) as [((_ & Hd & _) & _) _].
  unfold init_data_stream, mbind, m_bind. destruct (open_data_stream (j, fs)) as [[[]|] [j1 fs1]]; [done| |done].
  cbn [self]. cbn in Hd. rewrite Hd, andb_false_r. done.
Qed.

(** A read of the stream takes bytes off it, or fails. *)
Lemma stream_read_spec j fs :
  let p := stream_read (j, fs) in
  same fs p.2.2 ∧
  match p.1 with
  | Ok d => ∃ s s', data_stream j = Some s ∧ p.2.1 = j <| data_stream := Some s' |> ∧
              stream_left fs s' = (stream_left fs s - length d)%nat ∧
              (length d ≤ stream_left fs s)%nat ∧ (sending j → sending p.2.1)
  | Err _ => p.2.1 = j ∧ ∀ buf pos, data_stream j ≠ Some (BufStream buf pos)
  end.
Proof.
  cbv zeta. unfold stream_read. rewrite run_self.
  assert (∀ s, data_stream j = Some s → ∀ s', (∀ h m, s' = FileStream h m → ∃ h' m', s = FileStream h' m') →
    sending j → sending (j <| data_stream := Some s' |>)) as Hsend.
  { intros s Es s' Hs (H1 & H2 & H3). split_and!; [done..|]. cbn. rewrite Es in H3.
    destruct (data_source j); [done|]. destruct s' as [h m|]; [|done].
    destruct (Hs h m eq_refl) as (? & ? & ->). done. }
  destruct (data_stream j) as [[h [| |]|buf pos]|] eqn:Es; try (by split; [apply same_refl|]).
  - pose proof (reads_syscall (λ fs, Ok (read_at fs h BUF_SIZE, fs))
                  ltac:(by intros ??? [= _ <-]) fs) as Hsame.
    unfold mbind, m_bind, fs_do.
    destruct (syscall _ fs) as [[d|e] fs1] eqn:Er; cbn [fst snd] in *; [|by split].
    apply syscall_ok in Er as (fs2 & Hs2 & [= <- <-]). cbn. split; [done|].
    eexists _, _. split_and!; [done|done| |unfold read_at; rewrite length_take, length_drop, (same_inode fs) by done; cbn [stream_left]; lia|].
    + cbn. lia.
    + apply (Hsend _ eq_refl). intros ? ? [= <- <-]. by eexists _, _.
  - cbn. split; [apply same_refl|]. eexists _, _. split_and!; [done|done| |rewrite length_take, length_drop; cbn [stream_left]; lia|].
    + cbn. lia.
    + by apply (Hsend _ eq_refl).
Qed.

Lemma run_try {A B} (m : J A) (k : result A Error → J B) s : (r ← try m; k r) s = k (m s).1 (m s).2.
Proof. unfold mbind, m_bind, try. by destruct (m s). Qed.

Lemma next_file_ok j fs p e s :
  sending j → data_source j = FilePath p → entry_at (files j) (file_num j) = Some e → data_stream j = Some s →
  sending (next_file j) ∧ (work fs (next_file j) < work fs j)%nat.
Proof.
  intros (H1 & H2 & _) Hp He Hs. destruct (entry_files_left _ _ He) as [Hn Hf]. split.
  - unfold sending. cbn. by rewrite Hp.
  - unfold work. cbn [next_file data_source data_stream]. cbn. rewrite Hp, Hs.
    rewrite (files_left_next j (next_file j) Hn eq_refl eq_refl). lia.
Qed.

Section Service.
Context (zstd_compress : list byte → option (list byte)).
Local Abbreviation read := (read zstd_compress).

Lemma read_spec j fs :
  sending j →
  let p := read (j, fs) in
  same fs p.2.2 ∧ id p.2.1 = id j ∧ enable_overwrite_detection p.2.1 = false ∧
  (p.1 = Ok None ∨ sending p.2.1 ∧ (work fs p.2.1 ≤ work fs j)%nat ∧ (ready j → (work fs p.2.1 < work fs j)%nat)).
Proof.
  intros Hj. pose proof Hj as (_ & Hd & Hs). cbv zeta. unfold FileTransfer.read. rewrite run_self.
  rewrite Hd, andb_false_r. cbn [andb].
  destruct (match data_source j with FilePath _ => _ | _ => _ end) as [nm|] eqn:En.
  2:{ rewrite run_modify. split_and!; [apply same_refl|done|done|by left]. }
  rewrite run_try. destruct (stream_read_spec j fs) as [Hsame Hr].
  destruct (stream_read (j, fs)) as [[d|err] [j1 fs1]]; cbn [fst snd] in *.
  - destruct Hr as (s & s' & Es & -> & Hl & Hle & Hj1). specialize (Hj1 Hj).
    destruct d as [|x d].
    + destruct (data_source j) as [p|] eqn:Ed; rewrite run_modify; cbn [fst snd mret m_ret].
      * destruct (entry_at _ _) as [e|] eqn:Ee; [|done].
        destruct (next_file_ok (j <| data_stream := Some s' |>) fs p e s') as [H1 H2]; [done..|].
        assert (work fs (j <| data_stream := Some s' |>) = work fs j) as Hw.
        { unfold work. cbn. rewrite Ed, Es, Hl. f_equal. f_equal. cbn. lia. }
        rewrite Hw in H2. split_and!; [done|done|done|right]. split_and!; [done|lia|done].
      * split_and!; [done|done|done|by left].
    + destruct (encode_block _ _ _ _) as [data comp]. rewrite run_modify. cbn [fst snd mret m_ret].
      split_and!; [done|done|done|right]. cbn [length] in Hl, Hle.
      assert (∀ f t, (work fs (j <| data_stream := Some s' |> <| finished_size := f |> <| transferred := t |>)
                < work fs j)%nat) as Hw.
      { intros f t. unfold work. cbn. rewrite Es, Hl. change (files_left _) with (files_left j) at 1.
        destruct (data_source j); lia. }
      split_and!; [exact Hj1|apply Nat.lt_le_incl, Hw|intros _; apply Hw].
  - destruct Hr as [-> Hr]. destruct (data_stream j) as [s|] eqn:Es.
    + rewrite run_modify. cbn [fst snd fail]. split_and!; [done|done|done|right].
      destruct (data_source j) as [p|] eqn:Ed.
      * destruct (entry_at _ _) as [e|] eqn:Ee; [|done].
        destruct (next_file_ok j fs p e s) as [H1 H2]; [done..|]. split_and!; [done|lia|done].
      * exfalso. destruct s as [|buf pos]; [done|]. by apply (Hr buf pos).
    + cbn [fst snd mret m_ret fail mbind m_bind]. split_and!; [done|done|done|right]. split_and!; [done|done|].
      intros [?|(p & Ed & Ee)]; [done|]. rewrite Ed, Ee in En. done.
Qed.

(** ** The loop *)

(** The end of a job, as it is told to the peer. *)
Definition ended (m : Message) : option Z :=
  match m with MsgDone i _ | MsgSkipped i _ => Some i | _ => None end.

Lemma init_job_spec j fs :
  sending j → let '(j', fs', ms) := init_job j fs in
  step_ok j fs (j', fs') ∧ (ready j' ∨ (work fs j' < work fs j)%nat) ∧ omap ended ms = [].
Proof.
  intros Hj. destruct (open_data_stream_spec j fs Hj) as [H1 H2].
  destruct (init_data_stream_run j fs Hj) as [H3 H4]. unfold init_job, run_job.
  destruct Hj as [-> _]. destruct (init_data_stream (j, fs)) as [[[d|]|e] [j1 fs1]];
    [by destruct (H4 d)|rewrite <- H3 in H1, H2; split_and!; try done; apply H1..].
Qed.

Lemma init_jobs_spec jobs fs :
  Forall sending jobs → let '(jobs', fs', ms) := init_jobs jobs fs in
  Forall sending jobs' ∧ same fs fs' ∧ id <$> jobs' = id <$> jobs ∧
  (total_work fs jobs' ≤ total_work fs jobs)%nat ∧ omap ended ms = [] ∧
  (∀ j js, jobs' = j :: js → ready j ∨ (total_work fs jobs' < total_work fs jobs)%nat).
Proof.
  intros Hjs. revert fs. induction Hjs as [|j jobs Hj Hjs IH]; intros fs; cbn [init_jobs].
  { split_and!; [done|apply same_refl|done..]. }
  pose proof (init_job_spec j fs Hj) as H. destruct (init_job j fs) as [[j1 fs1] ms1].
  destruct H as ((H1 & H2 & H3 & H4) & H5 & H6). cbn [fst snd] in *.
  specialize (IH fs1). destruct (init_jobs jobs fs1) as [[jobs1 fs2] ms2].
  destruct IH as (I1 & I2 & I3 & I4 & I5 & _). rewrite !(total_work_same fs fs1) in I4 by done.
  split_and!; [by constructor|by eapply same_trans|by rewrite !fmap_cons, H3, I3|cbn; unfold total_work in *; lia| |].
  - by rewrite omap_app, H6, I5.
  - intros j' js [= <- <-]. destruct H5 as [H5|H5]; [by left|right]. cbn. unfold total_work in *; lia.
Qed.

Lemma handle_step j jobs fs :
  Forall sending (j :: jobs) → let '(jobs', fs', ms) := handle_read_jobs zstd_compress (j :: jobs) fs in
  Forall sending jobs' ∧ same fs fs' ∧ (total_work fs jobs' < total_work fs (j :: jobs))%nat ∧
  id <$> (j :: jobs) = omap ended ms ++ (id <$> jobs').
Proof.
  intros Hjs. unfold handle_read_jobs. pose proof (init_jobs_spec (j :: jobs) fs Hjs) as H.
  destruct (init_jobs (j :: jobs) fs) as [[js fs1] ms1] eqn:Ei.
  destruct H as (H1 & H2 & H3 & H4 & H5 & H6).
  destruct js as [|j1 js]; [by apply (f_equal length) in H3|].
  specialize (H6 j1 js eq_refl). apply Forall_cons in H1 as [Hj1 Hjs1]. cbn [serve_jobs].
  assert (is_last_job j1 = false) as -> by apply Hj1.
  unfold run_job. pose proof (read_spec j1 fs1 Hj1) as (R1 & R2 & Rd & R3).
  destruct (read (j1, fs1)) as [r [j2 fs2]]. cbn [fst snd] in *.
  rewrite !(work_same fs fs1) in R3 by done. rewrite <- H3, !fmap_cons.
  assert (sending j2 ∧ (work fs j2 ≤ work fs j1)%nat ∧ (ready j1 → (work fs j2 < work fs j1)%nat) →
    Forall sending (j2 :: js) ∧ same fs fs2 ∧ (total_work fs (j2 :: js) < total_work fs (j :: jobs))%nat ∧
    id j1 :: (id <$> js) = id <$> (j2 :: js)) as Hgo.
  { intros (S1 & S2 & S3). split_and!; [by constructor|by eapply same_trans| |by rewrite fmap_cons, R2].
    unfold total_work in *. cbn in *. destruct H6 as [Hr|Hr]; [specialize (S3 Hr)|]; lia. }
  assert (same fs fs2) as Hsame by by eapply same_trans.
  destruct r as [[b|]|e].
  - destruct R3 as [?|R3]; [done|]. rewrite omap_app, H5. exact (Hgo R3).
  - unfold job_completed. rewrite Rd. cbn [negb orb remove_job].
    rewrite Z.eqb_refl, omap_app, H5. split_and!; [done|done| |by rewrite <- R2; case_match].
    unfold total_work in *. cbn in *. lia.
  - destruct R3 as [?|R3]; [done|]. rewrite omap_app, H5. exact (Hgo R3).
Qed.

(** [n] turns of the loop, with the messages that are sent. *)
Fixpoint serve (n : nat) (jobs : list TransferJob) (fs : Fs) : list TransferJob * Fs * list Message :=
  match n with
  | O => (jobs, fs, [])
  | S n => let '(jobs, fs, ms) := handle_read_jobs zstd_compress jobs fs in
           let '(jobs, fs, ms') := serve n jobs fs in (jobs, fs, ms ++ ms')
  end.

Lemma serve_nil n fs : serve n [] fs = ([], fs, []).
Proof. induction n as [|n IH]; [done|]. cbn. by rewrite IH. Qed.

End Service.

(** Two jobs, one of a file that cannot be opened and of one that can, and one of
    a buffer; the second call fails too. *)
Definition example_jobs : list TransferJob :=
  [ job_default <| id := 4 |> <| data_source := FilePath "/home/u" |>
                <| files := [mkEntry "missing" TFile 0 0; mkEntry "secret" TFile 2 5] |>;
    job_default <| id := 9 |> <| data_source := MemoryCursor [x0a; x0b] |> ].

Definition example_faulty : Fs := example_fs <| faults := [None; Some 0%nat] |>.


Example example_sent :
  omap ended (serve (λ _, None) 20 example_jobs example_faulty).2 = [4; 9].
Proof. vm_compute. reflexivity. Qed.
End FileTransferService.
