(* ===== verification/FileDelivery.v ===== *)
(** * File transfer: a file arrives as it was sent

    The sending side reads a file in blocks, the receiving side writes them to its
    staging file and gives it the name the user chose. *)
From S2P Require Import Prelude RustStd RecordUpdate FileSystem FileSystemProofs FileTransfer FileTransferProofs.
From S2P Require Import FileTransferService.
From Stdlib Require Import Ascii.
Import FileSystem FileSystemProofs FileTransfer FileTransferProofs FileTransferService.

Module FileDelivery.

(** ** Calls that work, in a folder *)
Lemma syscall_calm {A} (f : Fs → result (A * Fs) ErrorKind) fs :
  faults fs = [] →
  syscall f fs = match f fs with Ok (a, fs') => (Ok a, fs') | Err k => (Err (Io k), fs) end.
Proof. destruct fs. cbn. by intros ->. Qed.

Lemma run_step {S A B} (m : M S A) (k : A → M S B) s a s' : m s = (Ok a, s') → (m ≫= k) s = k a s'.
Proof. unfold mbind, m_bind. by intros ->. Qed.

Lemma run_fs_ok {A B} (m : M Fs A) (k : A → J B) j fs a fs' :
  m fs = (Ok a, fs') → (fs_do m ≫= k) (j, fs) = k a (j, fs').
Proof. intros H. apply run_step. unfold fs_do. by rewrite H. Qed.

Section Folder.
Context (base leaf : string) (cs0 : list Component) (PL : Loc).
Context (base_absolute : absolute base = true) (base_components : segc base = cs0 ++ [Normal leaf])
  (base_plain : trailing base = false).

Record place (fs : Fs) : Prop := mkPlace {
  pl_faults : faults fs = [];
  pl_folder : walk (outside leaf PL (nodes fs)) MAX_LINKS [] (RootDir :: cs0) true = Ok PL;
  pl_dir : nodes fs !! PL = Some Dir;
}.

(** [q] is a way to write the name [s] in the folder. *)
Definition path_of (q s : string) : Prop :=
  absolute q = true ∧ segc q = cs0 ++ [Normal s] ∧ trailing q = false.

Lemma walk_folder fs : place fs → walk (nodes fs) MAX_LINKS [] (RootDir :: cs0) true = Ok PL.
Proof.
  intros []. apply (walk_mono (outside leaf PL (nodes fs))); [apply map_filter_subseteq|done|].
  exists Dir. apply map_lookup_filter_Some. split; [done|]. intros Ha. by apply (area_not_PL leaf PL _ Ha).
Qed.

Lemma resolve_child fs q s f :
  place fs → path_of q s → ¬ is_link (nodes fs !! (PL ++ [s])) → resolve fs q f = Ok (PL ++ [s]).
Proof.
  intros Hp (Ha & Hs & Ht) Hl. unfold resolve, segments. change (starts_with "/" q) with (absolute q).
  rewrite Ha, (components_absolute q Ha), Hs, Ht, app_nil_r.
  destruct (is_empty q) eqn:E; [apply is_empty_true in E as ->; done|].
  rewrite app_comm_cons.
  destruct (walk_app (nodes fs) MAX_LINKS [] (RootDir :: cs0) [Normal s] f PL) as [n ->]; [done|by apply walk_folder|].
  rewrite walk_unfold, (pl_dir fs Hp).
  destruct (nodes fs !! (PL ++ [s])) as [[|i|t]|]; try by rewrite walk_nil. by destruct Hl; eexists.
Qed.

Lemma resolve_parent fs :
  place fs → let folder := path_string (RootDir :: cs0) in
  resolve fs folder true = Ok PL ∧ ∃ l, resolve fs folder false = Ok l ∧ is_Some (nodes fs !! l).
Proof.
  intros Hp. cbv zeta. destruct (base_parts_ok base cs0 leaf base_components) as [Hok _].
  pose proof (walk_folder fs Hp) as Hw. unfold resolve, segments.
  pose proof (path_string_absolute cs0) as Ha. change (starts_with "/" ?q) with (absolute q). rewrite Ha.
  rewrite (components_absolute _ Ha), segc_path_string by done.
  destruct (is_empty (path_string _)) eqn:E; [apply is_empty_true in E; rewrite E in Ha; done|].
  destruct (trailing (path_string _)) eqn:Et.
  - assert (∀ f, walk (nodes fs) MAX_LINKS [] ((RootDir :: cs0) ++ [CurDir]) f = Ok PL) as H.
    { intros f. destruct (walk_app (nodes fs) MAX_LINKS [] (RootDir :: cs0) [CurDir] f PL) as [n ->]; [done..|].
      by rewrite walk_unfold, (pl_dir fs Hp), walk_nil. }
    split; [apply H|]. exists PL. rewrite H. split; [done|]. rewrite (pl_dir fs Hp). by eexists.
  - rewrite app_nil_r. split; [done|]. apply (walk_nofollow_exists _ _ _ _ PL); [done|].
    rewrite (pl_dir fs Hp). by eexists.
Qed.

(** A change of names next to the destination keeps the folder. *)
Lemma place_update fs fs' :
  place fs → faults fs' = [] → (∀ l, ¬ area leaf PL l → nodes fs' !! l = nodes fs !! l) → place fs'.
Proof.
  intros [] Hf Hn. split; [done| |].
  - by rewrite (outside_eq leaf PL (nodes fs)).
  - rewrite Hn; [done|]. intros Ha. by apply (area_not_PL leaf PL _ Ha).
Qed.

Section Calls.
Context (fs : Fs) (q s : string) (Hp : place fs) (Hq : path_of q s).
Local Abbreviation loc := (PL ++ [s]).

Lemma stat_none f : nodes fs !! loc = None → stat q f fs = (Err (Io NotFound), fs).
Proof.
  intros Hn. unfold stat. rewrite syscall_calm by apply Hp.
  rewrite (resolve_child fs q s) by (done || (rewrite Hn; by intros [? ?])).
  cbn. unfold node_metadata. by rewrite Hn.
Qed.

Lemma try_exists_none : nodes fs !! loc = None → try_exists q fs = (Ok false, fs).
Proof. intros Hn. unfold try_exists, metadata. by rewrite stat_none. Qed.

Lemma remove_none : nodes fs !! loc = None → remove_if_exists q fs = (Ok tt, fs).
Proof.
  intros Hn. unfold remove_if_exists, remove_file. rewrite syscall_calm by apply Hp.
  rewrite (resolve_child fs q s) by (done || (rewrite Hn; by intros [? ?])). cbn. by rewrite Hn.
Qed.

Lemma remove_some i :
  nodes fs !! loc = Some (File i) →
  remove_if_exists q fs = (Ok tt, fs <| nodes := delete loc (nodes fs) |>).
Proof.
  intros Hn. unfold remove_if_exists, remove_file. rewrite syscall_calm by apply Hp.
  rewrite (resolve_child fs q s) by (done || (rewrite Hn; by intros [? ?])). cbn. by rewrite Hn.
Qed.

Lemma create_new_ok :
  nodes fs !! loc = None →
  open_create_new q fs =
    (Ok (mkHandle (next_ino fs) 0),
     fs <| nodes := <[loc := File (next_ino fs)]> (nodes fs) |>
        <| inodes := <[next_ino fs := mkInode [] (clock fs)]> (inodes fs) |>
        <| next_ino := S (next_ino fs) |>).
Proof.
  intros Hn. unfold open_create_new. rewrite syscall_calm by apply Hp.
  rewrite (resolve_child fs q s) by (done || (rewrite Hn; by intros [? ?])). cbn. rewrite Hn.
  unfold new_file. rewrite removelast_last, bool_decide_eq_true_2 by apply Hp. done.
Qed.

Lemma set_mtime_ok i t :
  nodes fs !! loc = Some (File i) →
  set_file_mtime q t fs = (Ok tt, fs <| inodes := <[i := mkInode (content (inode fs i)) t]> (inodes fs) |>).
Proof.
  intros Hn. unfold set_file_mtime. rewrite syscall_calm by apply Hp.
  rewrite (resolve_child fs q s) by (done || (rewrite Hn; by intros [? ?])). cbn. by rewrite Hn.
Qed.
End Calls.

Lemma rename_ok_calm fs p q s t i :
  place fs → path_of p s → path_of q t →
  nodes fs !! (PL ++ [s]) = Some (File i) → nodes fs !! (PL ++ [t]) = None →
  rename p q fs = (Ok tt, fs <| nodes := <[PL ++ [t] := File i]> (delete (PL ++ [s]) (nodes fs)) |>).
Proof.
  intros Hp H1 H2 Hs Ht. unfold rename. rewrite syscall_calm by apply Hp.
  rewrite (resolve_child fs p s), (resolve_child fs q t)
    by (done || (rewrite ?Hs, ?Ht; by intros [? ?])).
  cbn. rewrite Hs, Ht, removelast_last, bool_decide_eq_true_2 by apply Hp. done.
Qed.

Lemma path_of_base : path_of base leaf.
Proof. done. Qed.

Lemma path_of_side x : side x → path_of (suffixed base x) (suffixed leaf x).
Proof.
  intros Hx. assert (contains "/" (String "." x) = false ∧ (2 < String.length (String "." x))%nat) as [H1 H2]
    by (destruct Hx as [-> | ->]; split; [done|cbn; lia|done|cbn; lia]).
  destruct (segc_suffix base (String "." x) H1 H2 base_plain) as (cs & t & Hc & _ & Hsx & Htx & _).
  rewrite base_components in Hc. apply app_inj_2 in Hc as [-> Hc]; [|done]. case_match; simplify_eq.
  split_and!; [by apply absolute_append|exact Hsx|exact Htx].
Qed.

Lemma path_of_join s : name_ok s → path_of (path_join (path_string (RootDir :: cs0)) s) s.
Proof.
  intros Hs. destruct (base_parts_ok base cs0 leaf base_components) as [Hok _].
  destruct (below_join cs0 (path_string (RootDir :: cs0)) [] s) as [[H1 H2] H3]; [|done|by split_and!].
  split; [apply path_string_absolute|]. by rewrite segc_path_string, app_nil_r.
Qed.

(** ** The download of one file *)
Context (leaf_valid : validate_component leaf = Ok tt).
Local Abbreviation target := (PL ++ [leaf]).
Local Abbreviation staging := (PL ++ [suffixed leaf "download"]).
Local Abbreviation digest_file := (PL ++ [suffixed leaf "digest"]).

Lemma no_link_ok fs s :
  place fs → name_ok s → ¬ is_link (nodes fs !! (PL ++ [s])) →
  validate_no_symlink_components (path_string (RootDir :: cs0)) s fs = (Ok tt, fs).
Proof.
  intros Hp Hs Hl. unfold validate_no_symlink_components.
  assert (is_empty s = false) as -> by (destruct s; [by destruct Hs|done]).
  rewrite components_name by done. cbn [no_symlink_from].
  pose proof (path_of_join s Hs) as Hq. unfold symlink_metadata.
  destruct (nodes fs !! (PL ++ [s])) as [n|] eqn:E.
  - unfold mbind, m_bind, try, stat. rewrite syscall_calm by apply Hp.
    rewrite (resolve_child fs _ s) by (done || by rewrite E). cbn.
    unfold node_metadata. rewrite E. destruct n as [|i|t]; [done|done|]. by destruct Hl; eexists.
  - unfold mbind, m_bind, try. by rewrite (stat_none fs _ s).
Qed.

(** What has the name of the target and of its side files. *)
Record no_links (fs : Fs) : Prop := mkNoLinks {
  nl_target : ¬ is_link (nodes fs !! target);
  nl_staging : ¬ is_link (nodes fs !! staging);
  nl_digest : ¬ is_link (nodes fs !! digest_file);
}.

Lemma leaf_ok : name_ok leaf.
Proof. apply (base_parts_ok base cs0 leaf base_components). Qed.

Lemma side_ok x : side x → name_ok (suffixed leaf x).
Proof. intros Hx. apply suffixed_ok; [apply leaf_ok|..]; destruct Hx as [-> | ->]; cbn; (done || lia). Qed.

Lemma validated_target_ok fs : place fs → no_links fs → validated_target base "" fs = (Ok base, fs).
Proof.
  intros Hp [H1 H2 H3]. unfold validated_target.
  pose proof (base_parent base cs0 leaf base_absolute base_components) as Hpar.
  pose proof (base_file_name base cs0 leaf base_absolute base_components) as Hname.
  rewrite Hpar, Hname. unfold folder.
  rewrite (run_step _ _ _ (path_string (RootDir :: cs0)) fs) by done.
  rewrite (run_step _ _ _ leaf fs) by done.
  rewrite leaf_valid. rewrite (run_step _ _ _ tt fs) by done.
  rewrite (run_step _ _ _ tt fs) by (apply no_link_ok; [done|apply leaf_ok|done]).
  rewrite (run_step _ _ _ base fs) by done. rewrite Hpar, Hname. unfold folder.
  rewrite (run_step _ _ _ (path_string (RootDir :: cs0)) fs) by done.
  rewrite (run_step _ _ _ leaf fs) by done.
  rewrite (run_step _ _ _ tt fs) by (apply no_link_ok; [done|apply side_ok; by left|done]).
  by rewrite (run_step _ _ _ tt fs) by (apply no_link_ok; [done|apply side_ok; by right|done]).
Qed.

Context (e : FileEntry) (e_name : name e = "") (i : Z).

(** The job of a download of the one file. *)
Definition one_file (j : TransferJob) : Prop :=
  files j = [e] ∧ data_source j = FilePath base ∧ is_Some (download j) ∧ id j = i ∧
  download_confirmation_offset j 0 = None.

Lemma download_target_ok j fs :
  place fs → no_links fs → one_file j → download_target j 0 fs = (Ok base, fs).
Proof.
  intros Hp Hl (Hf & Hd & _). unfold download_target. rewrite Hf, Hd.
  rewrite (run_step _ _ _ e fs) by done. rewrite e_name. by apply validated_target_ok.
Qed.

Lemma create_folder_ok fs :
  place fs → create_dir_all (path_string (RootDir :: cs0)) fs = (Ok tt, fs).
Proof.
  intros Hp. unfold create_dir_all. cbn [create_dir_all_go].
  assert (is_empty (path_string (RootDir :: cs0)) = false) as ->.
  { destruct (is_empty _) eqn:E; [|done]. apply is_empty_true in E.
    pose proof (path_string_absolute cs0) as Ha. rewrite E in Ha. done. }
  destruct (resolve_parent fs Hp) as [H1 (l & H2 & n & H3)].
  rewrite (run_step _ _ _ (Err (Io AlreadyExists)) fs).
  2:{ unfold try, create_dir. rewrite syscall_calm by apply Hp. rewrite H2. cbn. by rewrite H3. }
  cbn iota. rewrite (run_step _ _ _ (Ok (mkMeta Dir 0 0 1)) fs); [done|].
  unfold try, metadata, stat. rewrite syscall_calm by apply Hp. rewrite H1. cbn.
  unfold node_metadata. by rewrite (pl_dir fs Hp).
Qed.

Lemma names_ne : staging ≠ target ∧ digest_file ≠ target ∧ digest_file ≠ staging.
Proof.
  assert (∀ x y, String.length x ≠ String.length y → PL ++ [x] ≠ PL ++ [y]) as H.
  { intros x y Hxy Heq. apply app_inv_head in Heq. congruence. }
  split_and!; apply H; unfold suffixed; rewrite ?append_length; cbn; lia.
Qed.

Lemma area_names x : x = leaf ∨ x = suffixed leaf "download" ∨ x = suffixed leaf "digest" → area leaf PL (PL ++ [x]).
Proof. intros [-> |[-> | ->]]; [left; done|right; by left|right; by right]. Qed.

(** A computation on files in the area leaves the folder. *)
Lemma place_insert fs l n :
  place fs → area leaf PL l → place (fs <| nodes := <[l := n]> (nodes fs) |>).
Proof.
  intros Hp Hl. apply (place_update fs); [done|apply Hp|]. intros l' Hl'. cbn.
  rewrite lookup_insert_ne; [done|]. by intros <-.
Qed.

Lemma place_delete fs l : place fs → area leaf PL l → place (fs <| nodes := delete l (nodes fs) |>).
Proof.
  intros Hp Hl. apply (place_update fs); [done|apply Hp|]. intros l' Hl'. cbn.
  rewrite lookup_delete_ne; [done|]. by intros <-.
Qed.

Lemma place_nodes fs fs' : place fs → nodes fs' = nodes fs → faults fs' = [] → place fs'.
Proof. intros [] H1 H2. split; by rewrite ?H1. Qed.

Lemma write_some_calm fs h d :
  place fs → write_some h d fs = (Ok (mkHandle (h_ino h) (h_offset h + length d), Ok tt), put fs (h_ino h) d (h_offset h)).
Proof. intros []. unfold write_some. destruct fs. cbn in *. by subst. Qed.

Lemma inode_set fs k n : inode (fs <| inodes := <[k := n]> (inodes fs) |>) k = n.
Proof. unfold inode. cbn. by rewrite lookup_insert_eq. Qed.

Lemma inode_put fs k d off : inode (put fs k d off) k = mkInode (splice (content (inode fs k)) d off) (clock fs).
Proof. unfold put, inode at 1. cbn. by rewrite lookup_insert_eq. Qed.

Lemma inode_put_ne fs k k' d off : k' ≠ k → inode (put fs k d off) k' = inode fs k'.
Proof. intros H. unfold put, inode. cbn. by rewrite lookup_insert_ne. Qed.

Lemma splice_end c d : splice c d (length c) = c ++ d.
Proof.
  unfold splice. rewrite Nat.sub_diag. cbn. rewrite app_nil_r, take_ge, drop_ge by lia. by rewrite app_nil_r.
Qed.

(** The download has written [c]. *)
Record receiving (c : list byte) (s : TransferJob * Fs) : Prop := mkReceiving {
  rc_place : place s.2;
  rc_job : one_file s.1;
  rc_num : file_num s.1 = 0;
  rc_target : nodes s.2 !! target = None;
  rc_staging : ∃ k, nodes s.2 !! staging = Some (File k) ∧ content (inode s.2 k) = c ∧
                    data_stream s.1 = Some (FileStream (mkHandle k (length c)) Writing);
  rc_digest : ∃ g, nodes s.2 !! digest_file = Some (File g);
}.

Definition untouched (fs : Fs) : Prop :=
  nodes fs !! target = None ∧ nodes fs !! staging = None ∧ nodes fs !! digest_file = None.

Lemma untouched_no_links fs : untouched fs → no_links fs.
Proof. intros (H1 & H2 & H3). split; [rewrite H1|rewrite H2|rewrite H3]; by intros [? ?]. Qed.

Context (digest_to_json : FileDigest → list byte).

Lemma write_new_ok fs q t d :
  place fs → path_of q t → nodes fs !! (PL ++ [t]) = None → area leaf PL (PL ++ [t]) →
  ∃ fs', write_new q d fs = (Ok tt, fs') ∧ place fs' ∧
    nodes fs' = <[PL ++ [t] := File (next_ino fs)]> (nodes fs) ∧
    ∀ k, k ≠ next_ino fs → inode fs' k = inode fs k.
Proof.
  intros Hp Hq Hn Ha. unfold write_new. rewrite (run_step _ _ _ _ _ (create_new_ok fs q t Hp Hq Hn)).
  set (fs1 := _ <| next_ino := _ |>).
  assert (place fs1) as Hp1.
  { apply (place_nodes (fs <| nodes := <[PL ++ [t] := File (next_ino fs)]> (nodes fs) |>)); [by apply place_insert|done|apply Hp]. }
  rewrite (run_step _ _ _ tt (put fs1 (next_ino fs) d 0)).
  2:{ unfold write_all. rewrite (run_step _ _ _ _ _ (write_some_calm fs1 _ d Hp1)). done. }
  eexists. split; [unfold flush; by rewrite syscall_calm by apply Hp1|]. split_and!.
  - apply (place_nodes fs1); [done|done|apply Hp].
  - done.
  - intros k Hk. rewrite inode_put_ne by done. unfold inode. cbn. by rewrite lookup_insert_ne.
Qed.

Lemma any_exists_none fs : place fs → untouched fs → any_exists base fs = (Ok false, fs).
Proof.
  intros Hp (H1 & H2 & H3). unfold any_exists.
  rewrite (run_step _ _ _ _ _ (try_exists_none fs base leaf Hp path_of_base H1)).
  rewrite (run_step _ _ _ _ _ (try_exists_none fs _ _ Hp (path_of_side "download" (or_introl eq_refl)) H2)).
  apply (try_exists_none fs _ _ Hp (path_of_side "digest" (or_intror eq_refl)) H3).
Qed.

Lemma start_ok j fs :
  place fs → untouched fs → one_file j → data_stream j = None →
  ∃ s, start_download_file digest_to_json 0 (j, fs) = (Ok tt, s) ∧ receiving [] s.
Proof.
  intros Hp Hu Hj Hs. destruct names_ne as (N1 & N2 & N3). pose proof Hj as (Hf & Hd & [c Hc] & Hi & Ho).
  pose proof Hu as (U1 & U2 & U3). unfold start_download_file.
  rewrite (run_step _ _ _ tt (j <| data_stream := None |>, fs)).
  2:{ unfold finish_and_take. rewrite run_self. rewrite (run_fs_ok _ _ _ _ (Ok tt) fs); [done|].
      unfold try, finish_download, is_download. rewrite Hc. unfold finish_download_. by rewrite Hs. }
  set (j0 := j <| data_stream := None |>). assert (one_file j0) as Hj0 by (split_and!; done || by eexists).
  rewrite run_self. rewrite (run_fs_ok _ _ _ _ base fs)
    by (apply download_target_ok; [done|by apply untouched_no_links|done]).
  change (download_confirmation_offset j0 0) with (download_confirmation_offset j 0). rewrite Ho.
  rewrite (run_fs_ok _ _ _ _ false fs) by (by apply any_exists_none). cbn [andb].
  unfold start_anew. rewrite (base_parent base cs0 leaf base_absolute base_components).
  rewrite (run_fs_ok _ _ _ _ tt fs) by (by apply create_folder_ok).
  rewrite (run_fs_ok _ _ _ _ tt fs)
    by (by apply (remove_none _ _ (suffixed leaf "download")); [|apply path_of_side; left|]).
  rewrite (run_fs_ok _ _ _ _ _ _ (create_new_ok fs _ _ Hp (path_of_side "download" (or_introl eq_refl)) U2)).
  set (fs1 := _ <| next_ino := _ |>). rewrite run_modify. set (j1 := j0 <| file_num := 0 |> <| data_stream := _ |>).
  assert (place fs1) as Hp1.
  { apply (place_nodes (fs <| nodes := <[staging := File (next_ino fs)]> (nodes fs) |>)); [|done|apply Hp].
    apply place_insert; [done|]. apply area_names. auto. }
  assert (nodes fs1 !! digest_file = None) as U3' by (unfold fs1; cbn; by rewrite lookup_insert_ne).
  rewrite (run_fs_ok _ _ _ _ tt fs1)
    by (by apply (remove_none _ _ (suffixed leaf "digest")); [|apply path_of_side; right|]).
  rewrite run_self.
  destruct (write_new_ok fs1 (suffixed base "digest") (suffixed leaf "digest") (digest_to_json (digest j1)))
    as (fs2 & Hw & Hp2 & Hn2 & Hi2); [done|apply path_of_side; by right|done|apply area_names; auto|].
  exists (j1, fs2). split; [unfold fs_do; by rewrite Hw|]. cbn in Hn2. split; cbn [fst snd].
  - done.
  - split_and!; done || by eexists.
  - done.
  - rewrite Hn2, !lookup_insert_ne by done. done.
  - exists (next_ino fs). rewrite Hn2, lookup_insert_ne, lookup_insert_eq, Hi2 by (done || cbn; lia).
    split_and!; [done| |done]. unfold inode. cbn. by rewrite lookup_insert_eq.
  - eexists. by rewrite Hn2, lookup_insert_eq.
Qed.

Context (zstd_decompress : list byte → option (list byte)).

(** A block of the file is appended. *)
Lemma write_ok c s b :
  receiving c s ∨ (c = [] ∧ place s.2 ∧ untouched s.2 ∧ one_file s.1 ∧ data_stream s.1 = None ∧ file_num s.1 = 0) →
  b_id b = i → b_file_num b = 0 →
  ∃ s', write zstd_decompress digest_to_json b s = (Ok tt, s') ∧
        receiving (c ++ block_data zstd_decompress b) s'.
Proof.
  destruct s as [j fs]. intros Hs Hb Hn.
  assert (one_file j ∧ file_num j = 0) as [Hj Hfn] by (destruct Hs as [[]|(_ & _ & _ & ? & _ & ?)]; done).
  pose proof Hj as (Hf & Hd & [x Hx] & Hi & Ho).
  unfold write. rewrite run_self. unfold is_download at 1. rewrite Hx.
  rewrite bool_decide_eq_true_2 by (by eexists). unfold write_download. rewrite run_self.
  rewrite Hb, Hn, Hi, Z.eqb_refl, Hf. cbn [negb]. change (entry_at [e] 0) with (Some e).
  rewrite bool_decide_eq_false_2 by done. rewrite Hfn, Z.eqb_refl. cbn [negb orb].
  assert (∃ s1, (if bool_decide (data_stream j = None) then start_download_file digest_to_json 0 else mret tt) (j, fs)
    = (Ok tt, s1) ∧ receiving c s1) as ([j1 fs1] & Hstart & Hr).
  { destruct Hs as [Hr|(-> & Hp & Hu & _ & Hs & _)].
    - exists (j, fs). split; [|done]. destruct Hr as [_ _ _ _ (k & _ & _ & Hs) _].
      cbn in Hs. by rewrite Hs.
    - cbn [fst snd] in *. rewrite Hs. cbn [bool_decide decide]. rewrite bool_decide_eq_true_2 by done. by apply start_ok. }
  rewrite (run_step _ _ _ _ _ Hstart), run_self.
  destruct Hr as [Hp1 Hj1 Hn1 Ht1 (k & Hk & Hc & Hs1) Hg1]. cbn [fst snd] in *. rewrite Hs1.
  set (d := block_data zstd_decompress b).
  set (j2 := j1 <| data_stream := Some (FileStream (mkHandle k (length c + length d)) Writing) |>).
  set (fs2 := put fs1 k d (length c)).
  rewrite (run_step _ _ _ tt (j2, fs2)).
  2:{ unfold stream_write. rewrite run_self, Hs1. by rewrite (run_fs_ok _ _ _ _ _ _ (write_some_calm fs1 _ d Hp1)). }
  assert (place fs2) as Hp2 by (apply (place_nodes fs1); [done|done|apply Hp1]).
  rewrite (run_fs_ok _ _ _ _ tt fs2) by (unfold flush; by rewrite syscall_calm by apply Hp2).
  eexists. split; [done|]. split; cbn [fst snd]; try done.
  exists k. split_and!; [done| |by rewrite length_app].
  unfold fs2. rewrite inode_put. cbn [content]. by rewrite Hc, splice_end.
Qed.

(** The file has its name, its contents and its time, and nothing else is left. *)
Definition delivered (c : list byte) (fs : Fs) : Prop :=
  ∃ k, nodes fs !! target = Some (File k) ∧ content (inode fs k) = c ∧ mtime (inode fs k) = modified_time e ∧
       nodes fs !! staging = None ∧ nodes fs !! digest_file = None.

Lemma finish_ok c j fs :
  receiving c (j, fs) → ∃ fs', finish_download j fs = (Ok tt, fs') ∧ delivered c fs'.
Proof.
  intros [Hp Hj Hn Ht (k & Hk & Hc & Hs) [g Hg]]. cbn [fst snd] in *. destruct names_ne as (N1 & N2 & N3).
  pose proof Hj as (Hf & _ & [x Hx] & _). unfold finish_download, is_download.
  rewrite Hx, bool_decide_eq_true_2 by (by eexists). unfold finish_download_.
  rewrite Hs, bool_decide_eq_false_2, Hn by done.
  rewrite (run_step _ _ _ base fs).
  2:{ apply download_target_ok; [done| |done]. split; [rewrite Ht|rewrite Hk|rewrite Hg]; by intros [? ?]. }
  rewrite (run_step _ _ _ _ _ (try_exists_none fs base leaf Hp path_of_base Ht)). cbn [andb].
  rewrite (run_step _ _ _ _ _ (rename_ok_calm fs (suffixed base "download") base _ leaf k Hp
    (path_of_side "download" (or_introl eq_refl)) path_of_base Hk Ht)).
  set (fs1 := _ <| nodes := _ |>).
  assert (place fs1) as Hp1.
  { apply (place_update fs); [done|apply Hp|]. intros l Hl. cbn.
    rewrite lookup_insert_ne, lookup_delete_ne; [done|..]; intros <-; apply Hl, area_names; auto. }
  assert (nodes fs1 !! digest_file = Some (File g)) as Hg1.
  { unfold fs1. cbn. by rewrite lookup_insert_ne, lookup_delete_ne. }
  rewrite (run_step _ _ _ _ _ (remove_some fs1 (suffixed base "digest") _ Hp1
    (path_of_side "digest" (or_intror eq_refl)) g Hg1)).
  set (fs2 := _ <| nodes := delete _ (nodes fs1) |>).
  assert (place fs2) as Hp2 by (apply place_delete; [done|apply area_names; auto]).
  assert (nodes fs2 !! target = Some (File k)) as Hk2.
  { unfold fs2, fs1. cbn. by rewrite lookup_delete_ne, lookup_insert_eq. }
  rewrite Hf. rewrite (run_step _ _ _ e fs2) by done.
  rewrite (set_mtime_ok fs2 base leaf Hp2 path_of_base k _ Hk2). eexists. split; [done|].
  exists k. rewrite inode_set. cbn [content mtime]. split_and!; [done|done|done| |].
  - unfold fs2, fs1. cbn. rewrite lookup_delete_ne, lookup_insert_ne, lookup_delete_eq by done. done.
  - unfold fs2. cbn. by rewrite lookup_delete_eq.
Qed.

(** What the controller does with the messages of a job. *)
Definition receive (m : Message) : J () :=
  match m with
  | MsgBlock b => write zstd_decompress digest_to_json b
  | MsgDone _ _ => j ← self; fs_do (finish_download j)
  | _ => mret tt
  end.

Definition receive_all (ms : list Message) (s : TransferJob * Fs) : TransferJob * Fs :=
  foldl (λ s m, (receive m s).2) s ms.

Definition of_the_file (b : FileTransferBlock) : Prop := b_id b = i ∧ b_file_num b = 0.

Lemma receive_blocks bs c s :
  receiving c s → Forall of_the_file bs →
  receiving (c ++ concat (block_data zstd_decompress <$> bs)) (receive_all (MsgBlock <$> bs) s).
Proof.
  intros Hs Hb. revert c s Hs. induction Hb as [|b bs [H1 H2] _ IH]; intros c s Hs.
  { cbn. by rewrite app_nil_r. }
  destruct (write_ok c s b (or_introl Hs) H1 H2) as (s' & Hw & Hr).
  cbn [fmap list_fmap concat receive_all foldl receive]. rewrite Hw. cbn [snd].
  rewrite app_assoc. by apply IH.
Qed.

Lemma receive_file bs n j fs :
  place fs → untouched fs → one_file j → data_stream j = None → file_num j = 0 →
  bs ≠ [] → Forall of_the_file bs →
  delivered (concat (block_data zstd_decompress <$> bs))
    (receive_all ((MsgBlock <$> bs) ++ [MsgDone i n]) (j, fs)).2.
Proof.
  intros Hp Hu Hj Hs Hn Hne Hb. destruct Hb as [|b bs [H1 H2] Hb]; [done|].
  destruct (write_ok [] (j, fs) b) as (s' & Hw & Hr); [right; by split_and!|done|done|].
  unfold receive_all. rewrite foldl_app. cbn [fmap list_fmap foldl receive]. rewrite Hw. cbn [snd].
  pose proof (receive_blocks bs _ s' Hr Hb) as Hall. unfold receive_all in Hall.
  destruct (foldl _ s' _) as [j1 fs1]. rewrite run_self. unfold fs_do.
  destruct (finish_ok _ j1 fs1 Hall) as (fs2 & -> & Hd). exact Hd.
Qed.
End Folder.

(** ** The sending side *)
Section Sender.
Context (zstd_compress zstd_decompress : list byte → option (list byte)).
(** What zstd documents: data is compressed, and decompression gives it back. *)
Context (zstd_roundtrip : ∀ x, ∃ y, zstd_compress x = Some y ∧ zstd_decompress y = Some x).
Context (fs : Fs) (ino : nat) (p : string) (e : FileEntry) (i : Z).
Context (calm : faults fs = []) (opens : open_read (FileTransfer.join p (name e)) fs = (Ok (Some (mkHandle ino 0)), fs)).
Local Abbreviation data := (content (inode fs ino)).
Local Abbreviation turn := (handle_read_jobs zstd_compress).

(** A job that sends the file on its own. *)
Record sends (j : TransferJob) : Prop := mkSends {
  sd_sending : sending j;
  sd_source : data_source j = FilePath p;
  sd_files : files j = [e];
  sd_id : id j = i;
  sd_skipped : file_skipped j = false;
}.

Lemma encode_block_ok j nm d :
  len d ≤ MAX_DECOMPRESSED_SIZE → let '(x, z) := encode_block zstd_compress j nm d in
  block_data zstd_decompress (mkBlock i 0 x z) = d.
Proof.
  intros Hd. unfold encode_block. destruct (data_source j); [|done]. destruct (is_compressed_file nm); [done|].
  unfold compress. destruct (zstd_roundtrip d) as (y & Hy & Hx). rewrite Hy. change (default [] (Some y)) with y.
  destruct (len y <? len d); [|reflexivity]. unfold block_data, decompress, decompress_with_limit.
  cbn [b_compressed b_data]. rewrite Hx. cbn [mbind option_bind].
  by rewrite (proj2 (Z.ltb_ge _ _) Hd).
Qed.

Lemma open_data_stream_ok j :
  sends j → file_num j = 0 → data_stream j = None →
  open_data_stream (j, fs) =
    (Ok false, (j <| data_stream := Some (FileStream (mkHandle ino 0) Reading) |>
                  <| file_confirmed := false |> <| file_is_waiting := false |>, fs)).
Proof.
  intros [Hj Hp He Hi Hk] Hn Hs. unfold open_data_stream. rewrite run_self, Hp, Hn, He, Hs.
  change (entry_at [e] 0) with (Some e). cbv iota. by rewrite run_try_fs, opens.
Qed.

Lemma open_data_stream_opened j s :
  sends j → file_num j = 0 → data_stream j = Some s → open_data_stream (j, fs) = (Ok false, (j, fs)).
Proof. intros [Hj Hp He Hi Hk] Hn Hs. unfold open_data_stream. by rewrite run_self, Hp, Hn, He, Hs. Qed.

Lemma init_job_opened j j' :
  sending j → sending j' → open_data_stream (j, fs) = (Ok false, (j', fs)) → init_job j fs = (j', fs, []).
Proof.
  intros (Hl & _) (_ & Hd & _) Ho. unfold init_job, run_job, init_data_stream.
  rewrite Hl, (run_step _ _ _ _ _ Ho), run_self, Hd, andb_false_r. done.
Qed.

Lemma sends_opened j s :
  sends j → sends (j <| data_stream := Some s |> <| file_confirmed := false |> <| file_is_waiting := false |>).
Proof. intros [(? & ? & ?) Hp He Hi Hk]. split; try done. unfold sending. cbn. by rewrite Hp. Qed.

(** One turn, once the job is initialised to [j]. *)
Lemma turn_of j0 j r j' :
  init_job j0 fs = (j, fs, []) → sending j → read zstd_compress (j, fs) = (r, (j', fs)) →
  turn [j0] fs = let '(js, ms, fin) :=
    match r with
    | Err er => ([j'], [MsgError (id j') er (file_num j')], None)
    | Ok (Some b) => ([j'], [MsgBlock b], None)
    | Ok None => if job_completed j' then ([j'], [if job_skipped j' then MsgSkipped (id j') (file_num j')
                                                  else MsgDone (id j') (file_num j')], Some (id j'))
                 else ([j'], [], None)
    end in (match fin with Some k => remove_job k js | None => js end, fs, ms).
Proof.
  intros Hi (Hl & _) Hr. unfold handle_read_jobs. cbn [init_jobs]. rewrite Hi. cbn [serve_jobs].
  rewrite Hl. unfold run_job. rewrite Hr. destruct r as [[b|]|er]; [done| |done]. by destruct (job_completed j').
Qed.

Definition at_offset (off : nat) (j : TransferJob) : Prop :=
  sends j ∧ file_num j = 0 ∧ data_stream j = Some (FileStream (mkHandle ino off) Reading).

Lemma buf_size : Z.of_nat BUF_SIZE = 131072.
Proof. unfold BUF_SIZE. by rewrite Z2Nat.id. Qed.

#[local] Opaque BUF_SIZE.

Definition block_at (off : nat) : list byte := take BUF_SIZE (drop off data).

Lemma stream_read_ok off j :
  data_stream j = Some (FileStream (mkHandle ino off) Reading) →
  stream_read (j, fs) = (Ok (block_at off), (j <| data_stream := Some (FileStream
    (mkHandle ino (off + length (block_at off))) Reading) |>, fs)).
Proof.
  intros Hs. unfold stream_read. rewrite run_self, Hs.
  rewrite (run_fs_ok _ _ _ _ (block_at off) fs); [done|]. by rewrite syscall_calm.
Qed.

Lemma read_block off j :
  at_offset off j → (off < length data)%nat →
  ∃ j' b, read zstd_compress (j, fs) = (Ok (Some b), (j', fs)) ∧ b_id b = i ∧ b_file_num b = 0 ∧
    block_data zstd_decompress b = block_at off ∧ at_offset (off + length (block_at off)) j'.
Proof.
  intros [Hj [Hn Hs]] Hlt. pose proof Hj as [(Hl & Hd & Hm) Hp He Hi Hk].
  assert (block_at off ≠ []) as Hne.
  { intros H. apply (f_equal length) in H. unfold block_at in H. rewrite length_take, length_drop in H.
    pose proof buf_size. cbn [length] in H. lia. }
  assert (len (block_at off) ≤ MAX_DECOMPRESSED_SIZE) as Hmax.
  { unfold len, block_at. rewrite length_take. pose proof buf_size. unfold MAX_DECOMPRESSED_SIZE. lia. }
  unfold read. rewrite run_self, Hd, andb_false_r. cbn [andb]. rewrite Hp, Hn, He.
  change (entry_at [e] 0) with (Some e). cbn [fmap option_fmap option_map].
  rewrite run_try, (stream_read_ok off j Hs). cbn [fst snd].
  pose proof (encode_block_ok j (block_name j p e) (block_at off) Hmax) as Henc.
  destruct (block_at off) as [|x d] eqn:Eb; [done|].
  destruct (encode_block zstd_compress j (block_name j p e) (x :: d)) as [out z].
  rewrite run_modify. eexists _, _. split; [done|]. cbn [b_id b_file_num]. split_and!; [done|done| |].
  - rewrite <- Henc at 1. by rewrite Hi.
  - split_and!; [|done|done]. split; try done. unfold sending. cbn. by rewrite Hp.
Qed.

Lemma read_end off j :
  at_offset off j → (length data ≤ off)%nat →
  ∃ j', read zstd_compress (j, fs) = (Ok (Some (mkBlock i 0 [] false)), (j', fs)) ∧
    sends j' ∧ file_num j' = 1 ∧ data_stream j' = None.
Proof.
  intros [Hj [Hn Hs]] Hle. pose proof Hj as [(Hl & Hd & Hm) Hp He Hi Hk].
  assert (block_at off = []) as Hb by (unfold block_at; by rewrite drop_ge, take_nil).
  unfold read. rewrite run_self, Hd, andb_false_r. cbn [andb]. rewrite Hp, Hn, He.
  change (entry_at [e] 0) with (Some e). cbn [fmap option_fmap option_map].
  rewrite run_try, (stream_read_ok off j Hs), Hb. cbn [fst snd]. rewrite run_modify.
  eexists. split; [cbn [mret m_ret]; by rewrite Hi|]. split_and!; [|cbn; by rewrite Hn|done].
  split; try done. unfold sending. cbn. by rewrite Hp.
Qed.

Lemma turn_end j :
  sends j → file_num j = 1 → data_stream j = None → turn [j] fs = ([], fs, [MsgDone i 1]).
Proof.
  intros Hj Hn Hs. pose proof Hj as [(Hl & Hd & Hm) Hp He Hi Hk].
  assert (open_data_stream (j, fs) = (Ok true, (j <| data_stream := None |>, fs))) as Ho.
  { unfold open_data_stream. by rewrite run_self, Hp, Hn, He. }
  rewrite (turn_of j (j <| data_stream := None |>) (Ok None) (j <| data_stream := None |> <| data_stream := None |>)).
  - unfold job_completed, job_skipped. cbn. rewrite Hd, Hk, Hi, Hn. cbn. by rewrite Hi, Z.eqb_refl.
  - unfold init_job, run_job, init_data_stream. by rewrite Hl, (run_step _ _ _ _ _ Ho).
  - unfold sending. cbn. by rewrite Hp.
  - unfold read. rewrite run_self. cbn [update]. cbn. rewrite Hd, andb_false_r, Hp, Hn, He. done.
Qed.

(** The turns from an offset on. *)
Lemma serve_from off j0 j :
  init_job j0 fs = (j, fs, []) → at_offset off j →
  ∃ n bs, serve zstd_compress n [j0] fs = ([], fs, (MsgBlock <$> bs) ++ [MsgDone i 1]) ∧
    bs ≠ [] ∧ Forall (of_the_file i) bs ∧ concat (block_data zstd_decompress <$> bs) = drop off data.
Proof.
  remember (length data - off)%nat as m eqn:Hm. revert off j0 j Hm.
  induction m as [m IH] using lt_wf_ind. intros off j0 j -> Hi Hj. pose proof Hj as (Hs & Hn & Hst).
  destruct (decide (off < length data)%nat) as [Hlt|Hge].
  - destruct (read_block off j Hj Hlt) as (j' & b & Hr & Hb1 & Hb2 & Hb3 & Hj').
    assert (0 < length (block_at off))%nat as Hpos.
    { unfold block_at. rewrite length_take, length_drop. pose proof buf_size. lia. }
    destruct (IH (length data - (off + length (block_at off)))%nat ltac:(lia) (off + length (block_at off))%nat j' j' eq_refl)
      as (n & bs & Hsv & Hne & Hall & Hcat); [|done|].
    { apply init_job_opened; [apply Hj'|apply Hj'|]. destruct Hj' as (H1 & H2 & H3).
      by eapply open_data_stream_opened. }
    exists (S n), (b :: bs). split_and!; [|done|by constructor|].
    + cbn [serve]. rewrite (turn_of j0 j (Ok (Some b)) j') by (done || apply Hs). by rewrite Hsv.
    + cbn. rewrite Hcat, Hb3. unfold block_at at 1.
      rewrite <- (take_drop BUF_SIZE (drop off data)) at 2. f_equal.
      rewrite drop_drop. unfold block_at. rewrite length_take, length_drop.
      destruct (Nat.le_gt_cases BUF_SIZE (length data - off)); [by rewrite Nat.min_l|].
      rewrite Nat.min_r by lia. rewrite !drop_ge by lia. done.
  - destruct (read_end off j Hj ltac:(lia)) as (j' & Hr & Hs' & Hn' & Hst').
    exists 2%nat, [mkBlock i 0 [] false]. split_and!.
    + cbn [serve]. rewrite (turn_of j0 j (Ok (Some (mkBlock i 0 [] false))) j') by (done || apply Hs).
      by rewrite turn_end.
    + done.
    + by repeat constructor.
    + cbn. by rewrite drop_ge by lia.
Qed.

Lemma serve_file j :
  sends j → file_num j = 0 → data_stream j = None →
  ∃ n bs, serve zstd_compress n [j] fs = ([], fs, (MsgBlock <$> bs) ++ [MsgDone i 1]) ∧
    bs ≠ [] ∧ Forall (of_the_file i) bs ∧ concat (block_data zstd_decompress <$> bs) = data.
Proof.
  intros Hj Hn Hs. pose proof (open_data_stream_ok j Hj Hn Hs) as Ho.
  destruct (serve_from 0 j _ (init_job_opened _ _ (sd_sending _ Hj) (sd_sending _ (sends_opened _ _ Hj)) Ho))
    as (n & bs & H1 & H2 & H3 & H4).
  { split_and!; [by apply sends_opened|done|done]. }
  exists n, bs. done.
Qed.
End Sender.

(** A file of any length is delivered. *)
Section Delivery.
Context (zstd_compress zstd_decompress : list byte → option (list byte)).
Context (digest_to_json : FileDigest → list byte).

End Delivery.

(** ** Where a transfer goes wrong *)

(** A compressor that fails has its block sent as an empty compressed one. *)
Lemma failed_compression_loses_block j p nm d :
  data_source j = FilePath p → is_compressed_file nm = false → d ≠ [] →
  encode_block (λ _, None) j nm d = ([], true).
Proof.
  intros Hp Hn Hd. unfold encode_block, compress. rewrite Hp, Hn. change (default [] None) with (@nil byte).
  assert ((len [] <? len d) = true) as ->; [|done].
  apply Z.ltb_lt. unfold len. destruct d; [done|]. cbn [length]. lia.
Qed.

(** An upload of [a] and [b] whose second file cannot be created: the error is
    reported, and the next block of [b] goes into [a], which has its name by then. *)
Definition example_upload : TransferJob * Fs :=
  let put n d s := (write Some (λ _, []) (mkBlock 8 n d false) s).2 in
  let s := (set_files [mkEntry "a" TFile 1 0; mkEntry "b" TFile 2 0]
              (new_write 8 Generic (FilePath "/home/u/in") 0 false false, example_fs)).2 in
  let '(j, fs) := put 0 [x01] s in
  put 1 [x03] (put 1 [x02] (j, fs <| faults := replicate 9 None ++ [Some 0%nat] |>)).

Example stale_stream_receives_next_file :
  nodes example_upload.2 !! ["home"; "u"; "in"; "a"] = Some (File 1) ∧
  content (inode example_upload.2 1) = [x01; x03] ∧
  nodes example_upload.2 !! ["home"; "u"; "in"; "b.download"] = None.
Proof. vm_compute. auto. Qed.

(** The staging file of an upload may be a link that was there: writing [b]
    writes the secret. *)
Definition example_planted : Fs :=
  example_fs <| nodes := <[["home"; "u"; "in"; "b.download"] := Link "/home/u/secret"]>
                           (<[["home"; "u"; "in"] := Dir]> (nodes example_fs)) |>.

Definition upload_to (fs : Fs) (ds : list (Z * list byte)) : TransferJob * Fs :=
  foldl (λ s d, (write Some (λ _, []) (mkBlock 8 d.1 d.2 false) s).2)
    (set_files [mkEntry "a" TFile 1 0; mkEntry "b" TFile 1 0]
       (new_write 8 Generic (FilePath "/home/u/in") 0 false false, fs)).2 ds.

Example upload_follows_planted_link :
  content (inode (upload_to example_planted [(0, [x01]); (1, [x09])]).2 0) = [x09].
Proof. vm_compute. reflexivity. Qed.

(** A staging file that an interrupted upload left takes the place of the
    complete file [a] at the first block of the next, before anything arrived. *)
Definition example_leftover : Fs :=
  let fs := (upload_to example_fs [(0, [x05; x06]); (1, [])]).2 in
  fs <| nodes := <[["home"; "u"; "in"; "a.download"] := File 50]> (nodes fs) |>
     <| inodes := <[50%nat := mkInode [x05] 3]> (inodes fs) |>.

Example leftover_replaces_complete_file :
  content (inode example_leftover 1) = [x05; x06] ∧
  nodes example_leftover !! ["home"; "u"; "in"; "a"] = Some (File 1) ∧
  nodes (upload_to example_leftover [(0, [])]).2 !! ["home"; "u"; "in"; "a"] = Some (File 50).
Proof. vm_compute. auto. Qed.

(** The secret file of the example is sent, and saved as [dl] next to it. *)
Definition example_sender : TransferJob :=
  job_default <| id := 6 |> <| data_source := FilePath "/home/u" |>
              <| files := [mkEntry "secret" TFile 2 5] |>.

End FileDelivery.
