(* ===== verification/Secrets.v ===== *)
(** * Secrets at rest: encrypted settings and the permanent password

    [password_security.rs] and [config/permanent_password.rs] of hbb_common, with
    the part of [config.rs] they call: the machine's key, its key pair and the
    configuration file.  A secret is stored as the version "00" followed by the
    base64 of a sealed box; the permanent password as "01" and the sealed text of
    its salted hash.  The boxes are sealed under the machine id, or under the
    public key when the machine id cannot be read.

    The cryptography and base64 are libraries: class [Crypto] names their
    functions and [CryptoLaws] the documented behaviour the theorems rely on.
    Random draws come from [Entropy], indexed by how many were made. *)
From S2P Require Import Prelude RustStd RecordUpdate.
From S2P Require TransportConfig.
From Stdlib Require Import Ascii.

Module Secrets.

Abbreviation bytes := (list byte).

(** ** Libraries *)

(** [sodiumoxide::base64] (the [Original] variant), [crypto::secretbox] and
    SHA-256.  [seal message nonce key], [open_box box nonce key]. *)
Class Crypto : Type := {
  b64_encode : bytes → string;
  b64_decode : bytes → option bytes;
  seal : bytes → bytes → bytes → bytes;
  open_box : bytes → bytes → bytes → option bytes;
  sha256 : bytes → bytes;
}.

Definition MACBYTES : Z := 16.
Definition NONCEBYTES : Z := 24.
Definition KEYBYTES : Z := 32.

Class CryptoLaws `{!Crypto} : Prop := {
  b64_round_trip v : b64_decode (as_bytes (b64_encode v)) = Some v;
  b64_ascii v : Forall (λ b, b2z b < 128) (as_bytes (b64_encode v));
  b64_nonempty v : v ≠ [] → b64_encode v ≠ "";
  b64_length v : str_len (b64_encode v) ≤ 2 * len v + 4;
  open_seal m n k : open_box (seal m n k) n k = Some m;
  len_seal m n k : len (seal m n k) = len m + MACBYTES;
  len_sha256 m : len (sha256 m) = 32;
}.

(** [secretbox::gen_nonce()], [rng.gen::<usize>()], [rng.gen_range(lo..hi)] and
    [sign::gen_keypair()], the last as (public key, secret key). *)
Class Entropy : Type := {
  gen_nonce : nat → bytes;
  gen_usize : nat → Z;
  gen_range : Z → Z → nat → Z;
  gen_keypair : nat → bytes * bytes;
  len_gen_nonce n : len (gen_nonce n) = NONCEBYTES;
  gen_range_in lo hi n : lo < hi → lo ≤ gen_range lo hi n < hi;
}.

(** ** Files *)

(** What [confy::load_path] finds. *)
Inductive Stored (T : Type) : Type :=
| Loaded (v : T)
| NotFound
| BadTomlData
| InvalidData
| ReadError.
Arguments Loaded {T} v.
Arguments NotFound {T}.
Arguments BadTomlData {T}.
Arguments InvalidData {T}.
Arguments ReadError {T}.

Definition try_load_path {T} (d : T) (f : Stored T) : option T :=
  match f with
  | Loaded v => Some v
  | NotFound => Some d
  | BadTomlData | InvalidData | ReadError => None
  end.

Definition try_load_path_for_store {T} (d : T) (f : Stored T) : option T :=
  match f with
  | Loaded v => Some v
  | BadTomlData | InvalidData => Some d
  | NotFound => Some d
  | ReadError => None
  end.

Definition load_path {T} (d : T) (f : Stored T) : T :=
  match f with Loaded v => v | _ => d end.

(** ** State *)
Abbreviation KeyPair := (bytes * bytes)%type.   (* sk, pk *)

Record Config : Type := mkConfig {
  id : string;
  enc_id : string;
  password : string;
  salt : string;
  key_pair : KeyPair;
  key_confirmed : bool;
  keys_confirmed : gmap string bool;
}.
#[export] Instance eta_config : Eta Config := λ c, mkConfig (id c) (enc_id c) (password c)
  (salt c) (key_pair c) (key_confirmed c) (keys_confirmed c).
#[export] Instance config_eq_dec : EqDecision Config.
Proof. solve_decision. Defined.

Definition default_config : Config := mkConfig "" "" "" "" ([], []) false ∅.

(** A [toml::Value]; only strings are looked into. *)
Inductive TomlValue : Type := TomlString (s : string) | TomlOther.
#[export] Instance toml_eq_dec : EqDecision TomlValue.
Proof. solve_decision. Defined.

(** [Config2], with the fields of TransportConfig.v as [net]. *)
Record Config2 : Type := mkConfig2 {
  rendezvous_server : string;
  nat_type : Z;
  serial : Z;
  unlock_pin : string;
  trusted_devices : string;
  trusted_devices_v2_field : option TomlValue;
  net : TransportConfig.TransportConfig.Config2;
}.
#[export] Instance eta_config2 : Eta Config2 := λ c, mkConfig2 (rendezvous_server c)
  (nat_type c) (serial c) (unlock_pin c) (trusted_devices c) (trusted_devices_v2_field c) (net c).
#[export] Instance config2_eq_dec : EqDecision Config2.
Proof. solve_decision. Defined.

Definition default_config2 : Config2 :=
  mkConfig2 "" 0 0 "" "" None TransportConfig.TransportConfig.default_config2.

(** The statics of the process, the threads [get_key_pair] has started and not
    run, and what is outside of it: the configuration files, the answer of
    [machine_uid::get], whether files can be written, and the random draws so
    far. *)
Record Host : Type := mkHost {
  CONFIG : Config;
  KEY_PAIR : option KeyPair;
  CACHED_MACHINE_UID : option bytes;
  TEMPORARY_PASSWORD : string;
  CONFIG2 : Config2;
  spawned : list KeyPair;
  file : Stored Config;
  file2 : Stored Config2;
  machine_uid : option bytes;
  can_write : bool;
  drawn : nat;
}.
#[export] Instance eta_host : Eta Host := λ h, mkHost (CONFIG h) (KEY_PAIR h)
  (CACHED_MACHINE_UID h) (TEMPORARY_PASSWORD h) (CONFIG2 h) (spawned h) (file h) (file2 h)
  (machine_uid h) (can_write h) (drawn h).

(** Code that reads and changes the host. *)
Definition HostM (A : Type) : Type := Host → A * Host.
#[export] Instance host_ret : MRet HostM := λ A a h, (a, h).
#[export] Instance host_bind : MBind HostM := λ A B k m h, let '(a, h) := m h in k a h.

Definition gets {A} (f : Host → A) : HostM A := λ h, (f h, h).
Definition modify (f : Host → Host) : HostM unit := λ h, (tt, f h).
(** One random draw. *)
Definition draw {A} (f : nat → A) : HostM A := λ h, (f (drawn h), h <| drawn := S (drawn h) |>).

Section Model.
Context `{!Crypto, !Entropy}.

(** ** The key of the machine *)

(** [Config::load_], the raw file. *)
Definition load_ : HostM Config := gets (λ h, load_path default_config (file h)).

(** [Config::store_]; a failure is only logged. *)
Definition store_ (c : Config) : HostM unit :=
  modify (λ h, if can_write h then h <| file := Loaded c |> else h).

Definition get_key_pair : HostM KeyPair :=
  cached ← gets KEY_PAIR;
  match cached with
  | Some p => mret p
  | None =>
      config ← load_;
      pair ← (if bool_decide ((key_pair config).1 = []) then
                '(pk, sk) ← draw gen_keypair;
                modify (λ h, h <| spawned := spawned h ++ [(sk, pk)] |>);;
                mret (sk, pk)
              else mret (key_pair config));
      modify (λ h, h <| KEY_PAIR := Some pair |>);;
      mret pair
  end.

Definition get_cached_pk (h : Host) : option bytes := snd <$> KEY_PAIR h.

Definition get_existing_key_pair : HostM (option KeyPair) :=
  cached ← gets KEY_PAIR;
  match cached with
  | Some p => mret (Some p)
  | None =>
      config ← load_;
      if bool_decide ((key_pair config).1 = []) then mret None
      else modify (λ h, h <| KEY_PAIR := Some (key_pair config) |>);;
           mret (Some (key_pair config))
  end.

Definition get_uuid : HostM bytes :=
  cached ← gets CACHED_MACHINE_UID;
  match cached with
  | Some uid => mret uid
  | None =>
      answer ← gets machine_uid;
      match answer with
      | Some uid => modify (λ h, h <| CACHED_MACHINE_UID := Some uid |>);; mret uid
      | None => pair ← get_key_pair; mret pair.2
      end
  end.

(** [keybuf.resize(KEYBYTES, 0)] *)
Definition key_of (keybuf : bytes) : bytes := resize (Z.to_nat KEYBYTES) Byte.x00 keybuf.

(** ** Sealed boxes *)
Definition FORMAT_V1 : byte := Byte.x01.
Definition VERSION_LEN : nat := 2.
Definition PASSWORD_ENC_VERSION : string := "00".
Definition ENCRYPT_MAX_LEN : Z := 128.

Definition legacy_nonce : bytes := replicate (Z.to_nat NONCEBYTES) Byte.x00.

Definition open_secretbox_payload (data key : bytes) : option bytes :=
  let legacy := open_box data legacy_nonce key in
  if bool_decide (head data = Some FORMAT_V1) && (1 + NONCEBYTES + MACBYTES <=? len data) then
    let nonce := take (Z.to_nat NONCEBYTES) (drop 1 data) in
    match open_box (drop (1 + Z.to_nat NONCEBYTES) data) nonce key with
    | Some decrypted => Some decrypted
    | None => legacy
    end
  else legacy.

(** [symmetric_crypt(data, encrypt)], on a desktop. *)
Definition symmetric_crypt (data : bytes) (encrypt : bool) : HostM (option bytes) :=
  uuid ← get_uuid;
  let key := key_of uuid in
  if encrypt then
    nonce ← draw gen_nonce;
    mret (Some (FORMAT_V1 :: nonce ++ seal data nonce key))
  else
    match open_secretbox_payload data key with
    | Some v => mret (Some v)
    | None =>
        pair ← get_existing_key_pair;
        match pair with
        | Some (_, pk) =>
            if bool_decide (pk = uuid) then mret None
            else mret (open_secretbox_payload data (key_of pk))
        | None => mret None
        end
    end.

Definition encrypt (v : bytes) : HostM (option string) :=
  if bool_decide (v = []) then mret None
  else r ← symmetric_crypt v true; mret (b64_encode <$> r).

Definition decrypt (v : bytes) : HostM (option bytes) :=
  if bool_decide (v = []) then mret None
  else match b64_decode v with
       | None => mret None
       | Some v => symmetric_crypt v false
       end.

(** [v.starts_with(b"00")] *)
Definition has_version (v : bytes) : bool :=
  bool_decide (take VERSION_LEN v = as_bytes PASSWORD_ENC_VERSION).

Definition is_encrypted (v : bytes) : bool :=
  if bool_decide (length v ≤ VERSION_LEN)%nat || negb (has_version v) then false
  else match b64_decode (drop VERSION_LEN v) with
       | Some decoded => MACBYTES <=? len decoded
       | None => false
       end.

(** Both forms of [encrypt_..._or_original]: of a vector, whose size is its bytes,
    and of a string, whose size is its characters. *)
Definition encrypt_vec_or_original (v : bytes) (version : string) (max_len : Z) : HostM bytes :=
  if is_encrypted v then mret v
  else if max_len <? len v then mret []
  else
    s ← (if version ==s "00" then encrypt v else mret None);
    mret (match s with Some s => as_bytes (version +:+ s) | None => v end).

Definition encrypt_str_or_original (s version : string) (max_len : Z) : HostM string :=
  if is_encrypted (as_bytes s) then mret s
  else if max_len <? chars_count s then mret ""
  else
    r ← (if version ==s "00" then encrypt (as_bytes s) else mret None);
    mret (match r with Some r => version +:+ r | None => s end).

(** The plain value, whether it was decrypted, and whether the stored value
    should be written again. *)
Definition decrypt_vec_or_original (v : bytes) (current_version : string) :
    HostM (bytes * bool * bool) :=
  r ← (if bool_decide (VERSION_LEN < length v)%nat
          && (from_utf8_lossy (take VERSION_LEN v) ==s "00")
       then decrypt (drop VERSION_LEN v) else mret None);
  mret (match r with
        | Some plain => (plain, true, negb ("00" ==s current_version))
        | None => (v, false, negb (bool_decide (v = [])) && negb (is_encrypted v))
        end).

Definition decrypt_str_or_original (s current_version : string) :
    HostM (string * bool * bool) :=
  r ← (if bool_decide (VERSION_LEN < String.length s)%nat && starts_with "00" s
       then decrypt (drop VERSION_LEN (as_bytes s)) else mret None);
  mret (match r with
        | Some plain => (from_utf8_lossy plain, true, negb ("00" ==s current_version))
        | None => (s, false, negb (is_empty s) && negb (is_encrypted (as_bytes s)))
        end).

(** ** The permanent password *)
Definition PERMANENT_PASSWORD_ENC_VERSION : string := "01".
Definition PERMANENT_PASSWORD_HASH_PREFIX : string := "00".
Definition HBBS_PRESET_PASSWORD_HASH_PREFIX : string := "00".
Definition PERMANENT_PASSWORD_H1_LEN : Z := 32.
Definition DEFAULT_SALT_LEN : nat := 32.

Definition compute_permanent_password_h1 (password salt : string) : bytes :=
  sha256 (as_bytes password ++ as_bytes salt).

Definition encode_permanent_password_storage_from_h1 (h1 : bytes) : string :=
  PERMANENT_PASSWORD_HASH_PREFIX +:+ b64_encode h1.

Definition decode_password_h1_after_prefix (storage prefix : string) : option bytes :=
  encoded ← strip_prefix prefix storage;
  v ← b64_decode (as_bytes encoded);
  if len v =? PERMANENT_PASSWORD_H1_LEN then Some v else None.

Definition decode_permanent_password_h1_from_hashed_storage (storage : string) : option bytes :=
  decode_password_h1_after_prefix storage PERMANENT_PASSWORD_HASH_PREFIX.

Definition decode_preset_password_h1_from_storage (storage : string) : option bytes :=
  decode_password_h1_after_prefix storage HBBS_PRESET_PASSWORD_HASH_PREFIX.

Definition encrypt_permanent_password_storage (storage : string) : HostM (option string) :=
  if ENCRYPT_MAX_LEN <? chars_count storage then mret None
  else
    r ← symmetric_crypt (as_bytes storage) true;
    mret ((λ e, PERMANENT_PASSWORD_ENC_VERSION +:+ b64_encode e) <$> r).

Definition encode_permanent_password_encrypted_storage_from_h1 (h1 : bytes) :
    HostM (option string) :=
  encrypt_permanent_password_storage (encode_permanent_password_storage_from_h1 h1).

Definition decrypt_permanent_password_str_or_original (storage : string) :
    HostM (string * bool * bool) :=
  r ← (if bool_decide (VERSION_LEN < String.length storage)%nat
          && starts_with PERMANENT_PASSWORD_ENC_VERSION storage
       then match b64_decode (drop VERSION_LEN (as_bytes storage)) with
            | Some decoded => symmetric_crypt decoded false
            | None => mret None
            end
       else mret None);
  mret (match r with
        | Some v => (from_utf8_lossy v, true, false)
        | None => (storage, false, negb (is_empty storage))
        end).

Definition decode_permanent_password_h1_from_storage (storage : string) : HostM (option bytes) :=
  if starts_with PERMANENT_PASSWORD_ENC_VERSION storage then
    '(hashed_storage, decrypted, _) ← decrypt_permanent_password_str_or_original storage;
    mret (if decrypted : bool
          then decode_permanent_password_h1_from_hashed_storage hashed_storage else None)
  else mret None.

Definition local_permanent_password_storage_is_usable_for_auth (storage salt : string) :
    HostM bool :=
  if is_empty storage then mret false
  else
    h1 ← decode_permanent_password_h1_from_storage storage;
    match h1 with
    | Some _ => mret (negb (is_empty salt))
    | None =>
        current ← (if starts_with PERMANENT_PASSWORD_ENC_VERSION storage then
                     '(_, decrypted, _) ← decrypt_permanent_password_str_or_original storage;
                     mret decrypted
                   else mret false);
        if current : bool then mret false
        else
          '(_, decrypted, looks_like_plaintext) ←
            decrypt_str_or_original storage PASSWORD_ENC_VERSION;
          mret (negb (starts_with PASSWORD_ENC_VERSION storage
                      && negb decrypted && negb looks_like_plaintext))
    end.

Definition preset_permanent_password_storage_is_usable_for_auth (storage salt : string) : bool :=
  if is_empty storage then false
  else if is_empty salt then true
  else bool_decide (is_Some (decode_preset_password_h1_from_storage storage)).

Definition preset_permanent_password_storage_matches_plain (storage salt input : string) : bool :=
  if is_empty storage || is_empty input then false
  else if is_empty salt then storage ==s input
  else match decode_preset_password_h1_from_storage storage with
       | None => false
       | Some stored_h1 => bool_decide (compute_permanent_password_h1 input salt = stored_h1)
       end.

(** Whether the salt may change under the stored password. *)
Definition password_is_empty_or_not_hashed (storage : string) : HostM bool :=
  if is_empty storage then mret true
  else
    h1 ← decode_permanent_password_h1_from_storage storage;
    match h1 with
    | Some _ => mret false
    | None =>
        if starts_with PERMANENT_PASSWORD_ENC_VERSION storage then mret false
        else
          '(_, decrypted, looks_like_plaintext) ←
            decrypt_str_or_original storage PASSWORD_ENC_VERSION;
          mret (decrypted || looks_like_plaintext)
    end.

Definition keep_encrypted_storage_if_plaintext_unchanged (plain stored : string) : HostM string :=
  '(stored_plain, encrypted, _) ← decrypt_str_or_original stored PASSWORD_ENC_VERSION;
  if encrypted && (stored_plain ==s plain) then mret stored
  else encrypt_str_or_original plain PASSWORD_ENC_VERSION ENCRYPT_MAX_LEN.

End Model.
End Secrets.
