(* ===== verification/SecretsProofs.v ===== *)
(** * Sealing and opening secrets

    Under a machine whose id and key pair do not change, the stateful operations
    of Secrets.v are pure functions of that identity ([plain_str], [current_h1],
    ...), and what is sealed is opened again.  [runs] says what an operation that
    only reads the configuration returns.  [Toy] instantiates the libraries with
    concrete functions for the examples. *)
From S2P Require Import Prelude RustStd RecordUpdate Secrets.
From Stdlib Require Import Ascii.
Export Secrets.

(** ** Text lemmas *)
Lemma as_bytes_app a b : as_bytes (a +:+ b) = as_bytes a ++ as_bytes b.
Proof. induction a as [|c a IH]; [done|]. cbn. apply (f_equal (cons _)), IH. Qed.

Lemma strip_prefix_app p s : strip_prefix p (p +:+ s) = Some s.
Proof.
  induction p as [|c p IH]; [done|].
  change ((if bool_decide (c = c) then strip_prefix p (p +:+ s) else None) = Some s).
  by rewrite bool_decide_true.
Qed.

Lemma starts_with_app p s : starts_with p (p +:+ s) = true.
Proof. unfold starts_with. rewrite strip_prefix_app. by apply bool_decide_eq_true. Qed.

Lemma starts_with_inv p s : starts_with p s = true → ∃ t, s = p +:+ t.
Proof.
  intros [t Ht]%bool_decide_eq_true. exists t. revert s Ht.
  induction p as [|c p IH]; intros s; cbn; [by intros [= ->]|].
  destruct s as [|d s]; [done|]. case_bool_decide; [|done]. subst d. by intros ->%IH.
Qed.

Lemma ascii_is_utf8 fuel l : (length l ≤ fuel)%nat → Forall (λ b, b2z b < 128) l → is_utf8_go fuel l = true.
Proof.
  revert l. induction fuel as [|fuel IH]; intros [|b l] Hl HF; try done; cbn in Hl; [lia|].
  apply Forall_cons in HF as [Hb HF]. cbn [is_utf8_go].
  assert (utf8_step (b :: l) = (1%nat, true)) as ->; [|apply IH; [change (drop 1 (b :: l)) with l; lia|done]].
  unfold utf8_step. cbn -[Z.ltb]. by destruct (Z.ltb_spec (b2z b) 128) as [_|]; [|lia].
Qed.

Lemma ascii_string_is_utf8 s : Forall (λ b, b2z b < 128) (as_bytes s) → is_utf8 s = true.
Proof. intros HF. apply ascii_is_utf8; [by rewrite length_as_bytes|done]. Qed.

Lemma chars_count_le s : chars_count s ≤ str_len s.
Proof.
  unfold chars_count. rewrite <- str_len_as_bytes. unfold len.
  pose proof (length_filter (λ b, Z.land (b2z b) 192 ≠ 128) (as_bytes s)). lia.
Qed.

Lemma str_len_app a b : str_len (a +:+ b) = str_len a + str_len b.
Proof. rewrite <- !str_len_as_bytes, as_bytes_app. apply len_app. Qed.

(** ** Reading code *)
Section Proofs.
Context `{!Crypto, !CryptoLaws, !Entropy}.

Definition pair_of (c : Config) : option KeyPair :=
  if bool_decide ((key_pair c).1 = []) then None else Some (key_pair c).

(** The machine answers [uid] and its key pair, if it has one, is [okp]: in the
    cache, in the configuration and in its file. *)
Record ready (uid : bytes) (okp : option KeyPair) (h : Host) : Prop := {
  rd_uid : machine_uid h = Some uid;
  rd_cache : CACHED_MACHINE_UID h = None ∨ CACHED_MACHINE_UID h = Some uid;
  rd_pair : KEY_PAIR h = None ∨ KEY_PAIR h = okp;
  rd_file : pair_of (load_path default_config (file h)) = okp;
  rd_config : pair_of (CONFIG h) = okp;
}.

(** Nothing but caches and the random source differs. *)
Record same (h h' : Host) : Prop := {
  same_config : CONFIG h' = CONFIG h;
  same_config2 : CONFIG2 h' = CONFIG2 h;
  same_temporary : TEMPORARY_PASSWORD h' = TEMPORARY_PASSWORD h;
  same_spawned : spawned h' = spawned h;
  same_file : file h' = file h;
  same_file2 : file2 h' = file2 h;
  same_uid : machine_uid h' = machine_uid h;
  same_write : can_write h' = can_write h;
}.
#[export] Instance same_preorder : PreOrder same.
Proof.
  split; [by constructor|]. intros h1 h2 h3 [] []. constructor; congruence.
Qed.

Variables (uid : bytes) (okp : option KeyPair).

(** [m] only reads and returns a result in [Q]. *)
Definition runs {A} (m : HostM A) (Q : A → Prop) : Prop :=
  ∀ h, ready uid okp h → ∃ a h', m h = (a, h') ∧ Q a ∧ same h h' ∧ ready uid okp h'.

Lemma runs_ret {A} (a : A) (Q : A → Prop) : Q a → runs (mret a) Q.
Proof. intros Ha h Hr. exists a, h. split_and!; [done|done|reflexivity|done]. Qed.

Lemma runs_bind {A B} (m : HostM A) (k : A → HostM B) (P : A → Prop) (Q : B → Prop) :
  runs m P → (∀ a, P a → runs (k a) Q) → runs (m ≫= k) Q.
Proof.
  intros Hm Hk h Hr. destruct (Hm h Hr) as (a & h1 & E & Ha & Hs & Hr1).
  destruct (Hk a Ha h1 Hr1) as (b & h2 & E2 & Hb & Hs2 & Hr2).
  exists b, h2. unfold mbind, host_bind. rewrite E. split_and!; [done..|by etrans|done].
Qed.

Lemma runs_mono {A} (m : HostM A) (P Q : A → Prop) : (∀ a, P a → Q a) → runs m P → runs m Q.
Proof. intros HPQ Hm h Hr. destruct (Hm h Hr) as (a & h' & E & Ha & ?). exists a, h'. naive_solver. Qed.

(** A bind whose first part has a known result. *)
Lemma runs_step {A B} (m : HostM A) (k : A → HostM B) a (Q : B → Prop) :
  runs m (eq a) → runs (k a) Q → runs (m ≫= k) Q.
Proof. intros Hm Hk. eapply runs_bind; [done|]. by intros ? <-. Qed.

Lemma runs_gets {A} (f : Host → A) (Q : A → Prop) :
  (∀ h, ready uid okp h → Q (f h)) → runs (gets f) Q.
Proof. intros Hf h Hr. exists (f h), h. split_and!; [done|by apply Hf|reflexivity|done]. Qed.

Lemma runs_draw {A} (f : nat → A) (Q : A → Prop) : (∀ n, Q (f n)) → runs (draw f) Q.
Proof.
  intros Hf h [????]. eexists _, _. split_and!; [done|apply Hf|by constructor|by constructor].
Qed.

Lemma runs_get_uuid : runs get_uuid (eq uid).
Proof.
  intros h Hr. unfold get_uuid, gets, mbind, host_bind.
  destruct Hr as [Hu [Hc|Hc] Hp Hf Hg]; rewrite Hc; cbn.
  - rewrite Hu. eexists _, _. split_and!; [done|done|by constructor|constructor; cbn; auto].
  - eexists _, _. split_and!; [done|done|reflexivity|constructor; cbn; auto].
Qed.

Lemma runs_get_existing_key_pair : runs get_existing_key_pair (eq okp).
Proof.
  intros h Hr. unfold get_existing_key_pair, load_, gets, mbind, host_bind.
  destruct (KEY_PAIR h) as [p|] eqn:Hk.
  - destruct (rd_pair _ _ _ Hr) as [|Hp]; [congruence|].
    eexists _, _. split_and!; [done|congruence|reflexivity|done].
  - pose proof (rd_file _ _ _ Hr) as Hf. unfold pair_of in Hf. cbn. case_bool_decide.
    + eexists _, _. split_and!; [done|done|reflexivity|done].
    + destruct Hr. eexists _, _. split_and!; [done|done|by constructor|].
      constructor; cbn; auto.
Qed.

(** ** Sealing and opening as functions of the identity *)
Definition pure_open (data : bytes) : option bytes :=
  match open_secretbox_payload data (key_of uid) with
  | Some v => Some v
  | None =>
      match okp with
      | Some (_, pk) => if bool_decide (pk = uid) then None
                        else open_secretbox_payload data (key_of pk)
      | None => None
      end
  end.

Lemma runs_open data : runs (symmetric_crypt data false) (eq (pure_open data)).
Proof.
  eapply runs_step; [apply runs_get_uuid|]. unfold pure_open.
  destruct (open_secretbox_payload data (key_of uid)); [by apply runs_ret|].
  eapply runs_step; [apply runs_get_existing_key_pair|].
  destruct okp as [[sk pk]|]; [|by apply runs_ret]. case_bool_decide; by apply runs_ret.
Qed.

(** [data] is a current box with [d] in it, under the machine id. *)
Definition seals (d data : bytes) : Prop :=
  ∃ nonce, len nonce = NONCEBYTES ∧ data = FORMAT_V1 :: nonce ++ seal d nonce (key_of uid).

Lemma runs_seal d : runs (symmetric_crypt d true) (λ r, ∃ data, r = Some data ∧ seals d data).
Proof.
  eapply runs_step; [apply runs_get_uuid|].
  eapply runs_bind; [apply (runs_draw gen_nonce (λ n, len n = NONCEBYTES)), len_gen_nonce|].
  intros nonce Hn. apply runs_ret. eexists; split; [done|]. by exists nonce.
Qed.

Lemma seals_open d data : seals d data → pure_open data = Some d.
Proof.
  intros (nonce & Hn & ->). unfold pure_open, open_secretbox_payload.
  assert (length nonce = Z.to_nat NONCEBYTES) as Hl by (unfold len, NONCEBYTES in *; lia).
  assert ((1 + NONCEBYTES + MACBYTES <=? len (FORMAT_V1 :: nonce ++ seal d nonce (key_of uid))) = true) as ->.
  { apply Z.leb_le. rewrite len_cons, len_app, len_seal, Hn. pose proof (len_nonneg d). lia. }
  cbn [head]. rewrite bool_decide_true by done. cbn [andb].
  change (drop (1 + Z.to_nat NONCEBYTES) (FORMAT_V1 :: nonce ++ seal d nonce (key_of uid)))
    with (drop (Z.to_nat NONCEBYTES) (nonce ++ seal d nonce (key_of uid))).
  change (drop 1 (FORMAT_V1 :: nonce ++ seal d nonce (key_of uid)))
    with (nonce ++ seal d nonce (key_of uid)).
  by rewrite <- Hl, take_app_length, drop_app_length, open_seal.
Qed.

Lemma seals_long d data : seals d data → MACBYTES ≤ len data.
Proof.
  intros (nonce & Hn & ->). rewrite len_cons, len_app, len_seal, Hn.
  unfold NONCEBYTES, MACBYTES. pose proof (len_nonneg d). lia.
Qed.

Definition pure_decrypt (v : bytes) : option bytes :=
  if bool_decide (v = []) then None else b64_decode v ≫= pure_open.

Lemma runs_decrypt v : runs (decrypt v) (eq (pure_decrypt v)).
Proof.
  unfold decrypt, pure_decrypt. case_bool_decide; [by apply runs_ret|].
  destruct (b64_decode v); [apply runs_open|by apply runs_ret].
Qed.

(** [t] is the text of a box with [d] in it. *)
Definition text_seals (d : bytes) (t : string) : Prop := ∃ data, seals d data ∧ t = b64_encode data.

Lemma runs_encrypt d : d ≠ [] →
  runs (encrypt d) (λ r, ∃ t, r = Some t ∧ text_seals d t).
Proof.
  intros Hd. unfold encrypt. rewrite bool_decide_false by done.
  eapply runs_bind; [apply runs_seal|]. intros ? (data & -> & Hs). apply runs_ret.
  eexists; split; [done|]. by exists data.
Qed.

Lemma runs_encrypt_nil : runs (encrypt []) (eq None).
Proof. by apply runs_ret. Qed.

Lemma text_seals_nonempty d t : text_seals d t → as_bytes t ≠ [].
Proof.
  intros (data & (nonce & _ & ->) & ->) E.
  pose proof (b64_nonempty (FORMAT_V1 :: nonce ++ seal d nonce (key_of uid))) as Hne.
  apply Hne; [done|]. rewrite <- (of_as_bytes (b64_encode _)), E. done.
Qed.

Lemma text_seals_open d t : text_seals d t → pure_decrypt (as_bytes t) = Some d.
Proof.
  intros Hs. unfold pure_decrypt. rewrite bool_decide_false by by eapply text_seals_nonempty.
  destruct Hs as (data & Hs & ->). rewrite b64_round_trip. cbn. by apply seals_open.
Qed.

Lemma text_seals_utf8 d t : text_seals d t → Forall (λ b, b2z b < 128) (as_bytes t).
Proof. intros (data & _ & ->). apply b64_ascii. Qed.

Lemma versioned_long a b t : as_bytes t ≠ [] →
  (VERSION_LEN < length (as_bytes (String a (String b "") +:+ t)))%nat.
Proof. intros Hne. rewrite as_bytes_app, length_app. destruct (as_bytes t); [done|]. unfold VERSION_LEN. cbn. lia. Qed.

Lemma text_seals_is_encrypted d t : text_seals d t → is_encrypted (as_bytes ("00" +:+ t)) = true.
Proof.
  intros Hs. unfold is_encrypted.
  pose proof (versioned_long "0" "0" t (text_seals_nonempty d t Hs)).
  rewrite bool_decide_false by lia.
  assert (has_version (as_bytes ("00" +:+ t)) = true) as ->.
  { unfold has_version. apply bool_decide_eq_true. by rewrite as_bytes_app. }
  change (drop VERSION_LEN (as_bytes ("00" +:+ t))) with (as_bytes t). cbn.
  destruct Hs as (data & Hs & ->). rewrite b64_round_trip. apply Z.leb_le.
  by eapply seals_long.
Qed.

Definition plain_str (s : string) : string * bool * bool :=
  match (if bool_decide (VERSION_LEN < String.length s)%nat && starts_with "00" s
         then pure_decrypt (drop VERSION_LEN (as_bytes s)) else None) with
  | Some plain => (from_utf8_lossy plain, true, false)
  | None => (s, false, negb (is_empty s) && negb (is_encrypted (as_bytes s)))
  end.

Lemma runs_decrypt_str s :
  runs (decrypt_str_or_original s PASSWORD_ENC_VERSION) (eq (plain_str s)).
Proof.
  unfold decrypt_str_or_original, plain_str.
  destruct (bool_decide _ && _).
  - eapply runs_step; [apply runs_decrypt|]. by apply runs_ret.
  - eapply runs_step; [by apply runs_ret|]. by apply runs_ret.
Qed.

Definition plain_vec (v : bytes) : bytes * bool * bool :=
  match (if bool_decide (VERSION_LEN < length v)%nat
            && (from_utf8_lossy (take VERSION_LEN v) ==s "00")
         then pure_decrypt (drop VERSION_LEN v) else None) with
  | Some plain => (plain, true, false)
  | None => (v, false, negb (bool_decide (v = [])) && negb (is_encrypted v))
  end.

Lemma runs_decrypt_vec v :
  runs (decrypt_vec_or_original v PASSWORD_ENC_VERSION) (eq (plain_vec v)).
Proof.
  unfold decrypt_vec_or_original, plain_vec.
  destruct (bool_decide _ && _).
  - eapply runs_step; [apply runs_decrypt|]. by apply runs_ret.
  - eapply runs_step; [by apply runs_ret|]. by apply runs_ret.
Qed.

(** A text [encrypt_str_or_original] keeps whole. *)
Definition storable (s : string) : Prop :=
  is_utf8 s = true ∧ is_encrypted (as_bytes s) = false ∧ chars_count s ≤ ENCRYPT_MAX_LEN.

(** [e] is how [s] is stored. *)
Definition stores (s e : string) : Prop := (plain_str e).1.1 = s ∧ ((plain_str e).1.2 = true ∨ s = "" ∧ e = "").

Lemma text_seals_plain s t : is_utf8 s = true → text_seals (as_bytes s) t →
  plain_str ("00" +:+ t) = (s, true, false).
Proof.
  intros Hu Hs. unfold plain_str.
  pose proof (versioned_long "0" "0" t (text_seals_nonempty _ t Hs)) as Hl.
  rewrite length_as_bytes in Hl. rewrite bool_decide_true by done.
  rewrite starts_with_app. cbn [andb].
  change (drop VERSION_LEN (as_bytes ("00" +:+ t))) with (as_bytes t).
  by rewrite (text_seals_open _ _ Hs), from_utf8_lossy_valid.
Qed.

Lemma plain_empty : plain_str "" = ("", false, false).
Proof. done. Qed.

Lemma runs_encrypt_str s : storable s →
  runs (encrypt_str_or_original s PASSWORD_ENC_VERSION ENCRYPT_MAX_LEN)
    (λ e, if is_empty s then e = "" else ∃ t, e = "00" +:+ t ∧ text_seals (as_bytes s) t).
Proof.
  intros (Hu & He & Hc). unfold encrypt_str_or_original. rewrite He.
  destruct (Z.ltb_spec ENCRYPT_MAX_LEN (chars_count s)); [lia|].
  change (PASSWORD_ENC_VERSION ==s "00") with true. cbv iota.
  destruct (is_empty s) eqn:Hs.
  - apply is_empty_true in Hs as ->. by apply runs_ret.
  - apply is_empty_false in Hs.
    eapply runs_bind; [apply runs_encrypt|].
    { intros E. apply Hs. by rewrite <- (of_as_bytes s), E. }
    intros ? (t & -> & Ht). apply runs_ret. by exists t.
Qed.

Lemma runs_encrypt_stores s : storable s →
  runs (encrypt_str_or_original s PASSWORD_ENC_VERSION ENCRYPT_MAX_LEN) (stores s).
Proof.
  intros Hst. eapply runs_mono; [|by apply runs_encrypt_str].
  intros e. destruct Hst as (Hu & _ & _). cbn. unfold stores.
  destruct (is_empty s) eqn:Hs.
  - apply is_empty_true in Hs as ->. intros ->. rewrite plain_empty. auto.
  - intros (t & -> & Ht). rewrite (text_seals_plain s t) by done. auto.
Qed.

Lemma runs_keep plain stored : storable plain →
  runs (keep_encrypted_storage_if_plaintext_unchanged plain stored) (stores plain).
Proof.
  intros Hst. eapply runs_step; [apply runs_decrypt_str|].
  destruct (plain_str stored) as [[sp enc] again] eqn:E.
  destruct (enc && (sp ==s plain)) eqn:Hk; [|by apply runs_encrypt_stores].
  apply andb_true_iff in Hk as [-> ->%eqb_str_true]. apply runs_ret.
  unfold stores. rewrite E. auto.
Qed.

Lemma stores_plain s e : stores s e → ∃ enc again, plain_str e = (s, enc, again) ∧ again = false.
Proof.
  unfold stores. intros [Hp [Hc|[-> ->]]]; [|by eexists _, _].
  revert Hp Hc. unfold plain_str. destruct (if _ && _ then _ else None); cbn; intros <- ?; [by eexists _, _|done].
Qed.

(** ** The permanent password *)
Definition plain_permanent (s : string) : string * bool * bool :=
  match (if bool_decide (VERSION_LEN < String.length s)%nat
            && starts_with PERMANENT_PASSWORD_ENC_VERSION s
         then b64_decode (drop VERSION_LEN (as_bytes s)) ≫= pure_open else None) with
  | Some v => (from_utf8_lossy v, true, false)
  | None => (s, false, negb (is_empty s))
  end.

Lemma runs_decrypt_permanent s :
  runs (decrypt_permanent_password_str_or_original s) (eq (plain_permanent s)).
Proof.
  unfold decrypt_permanent_password_str_or_original, plain_permanent.
  destruct (bool_decide _ && _); [destruct (b64_decode _)|].
  - eapply runs_step; [apply runs_open|]. by apply runs_ret.
  - eapply runs_step; [by apply runs_ret|]. by apply runs_ret.
  - eapply runs_step; [by apply runs_ret|]. by apply runs_ret.
Qed.

(** The salted hash in a current storage. *)
Definition current_h1 (storage : string) : option bytes :=
  if starts_with PERMANENT_PASSWORD_ENC_VERSION storage then
    let '(hashed_storage, decrypted, _) := plain_permanent storage in
    if decrypted then decode_permanent_password_h1_from_hashed_storage hashed_storage else None
  else None.

Lemma runs_decode_h1 storage :
  runs (decode_permanent_password_h1_from_storage storage) (eq (current_h1 storage)).
Proof.
  unfold decode_permanent_password_h1_from_storage, current_h1.
  destruct (starts_with _ storage); [|by apply runs_ret].
  eapply runs_step; [apply runs_decrypt_permanent|].
  destruct (plain_permanent storage) as [[??]?]. by apply runs_ret.
Qed.

(** What may be used to log in: a hash with its salt, or a text that is not one of
    the sealed forms this machine cannot open. *)
Definition usable (storage salt : string) : bool :=
  if is_empty storage then false
  else match current_h1 storage with
       | Some _ => negb (is_empty salt)
       | None =>
           negb (starts_with PERMANENT_PASSWORD_ENC_VERSION storage && (plain_permanent storage).1.2)
           && negb (starts_with PASSWORD_ENC_VERSION storage
                    && negb (plain_str storage).1.2 && negb (plain_str storage).2)
       end.

Lemma runs_usable storage s :
  runs (local_permanent_password_storage_is_usable_for_auth storage s) (eq (usable storage s)).
Proof.
  unfold local_permanent_password_storage_is_usable_for_auth, usable.
  destruct (is_empty storage); [by apply runs_ret|].
  eapply runs_step; [apply runs_decode_h1|].
  destruct (current_h1 storage); [by apply runs_ret|].
  eapply (runs_step _ _
    (starts_with PERMANENT_PASSWORD_ENC_VERSION storage && (plain_permanent storage).1.2)).
  - destruct (starts_with _ storage); [|by apply runs_ret].
    eapply runs_step; [apply runs_decrypt_permanent|].
    destruct (plain_permanent storage) as [[??]?]. by apply runs_ret.
  - destruct (_ && _); [by apply runs_ret|].
    eapply runs_step; [apply runs_decrypt_str|].
    destruct (plain_str storage) as [[??]?]. by apply runs_ret.
Qed.

Lemma utf8_ascii_app a b : is_utf8_go (length a) a = true → Forall (λ b, b2z b < 128) a →
  Forall (λ b, b2z b < 128) b → is_utf8_go (length (a ++ b)) (a ++ b) = true.
Proof. intros _ Ha Hb. apply ascii_is_utf8; [done|by apply Forall_app]. Qed.

Lemma hashed_text_ascii h1 :
  Forall (λ b, b2z b < 128) (as_bytes (encode_permanent_password_storage_from_h1 h1)).
Proof.
  unfold encode_permanent_password_storage_from_h1. rewrite as_bytes_app. apply Forall_app.
  split; [|apply b64_ascii]. by repeat constructor.
Qed.

Lemma hashed_decode h1 : len h1 = PERMANENT_PASSWORD_H1_LEN →
  decode_permanent_password_h1_from_hashed_storage (encode_permanent_password_storage_from_h1 h1)
  = Some h1.
Proof.
  intros Hl. unfold decode_permanent_password_h1_from_hashed_storage,
    decode_password_h1_after_prefix, encode_permanent_password_storage_from_h1.
  rewrite strip_prefix_app. cbn. rewrite b64_round_trip. cbn. by rewrite Hl.
Qed.

Lemma runs_encode_current h1 : len h1 = PERMANENT_PASSWORD_H1_LEN →
  runs (encode_permanent_password_encrypted_storage_from_h1 h1)
    (λ r, ∃ storage, r = Some storage ∧ storage ≠ "" ∧ current_h1 storage = Some h1 ∧
                     (plain_permanent storage).1 = (encode_permanent_password_storage_from_h1 h1, true) ∧
                     starts_with PASSWORD_ENC_VERSION storage = false).
Proof.
  intros Hl. unfold encode_permanent_password_encrypted_storage_from_h1, encrypt_permanent_password_storage.
  set (text := encode_permanent_password_storage_from_h1 h1).
  destruct (Z.ltb_spec ENCRYPT_MAX_LEN (chars_count text)) as [Hlong|_].
  { exfalso. pose proof (chars_count_le text) as Hc. pose proof (b64_length h1) as Hb.
    unfold text, encode_permanent_password_storage_from_h1 in *. rewrite str_len_app in Hc.
    change (str_len PERMANENT_PASSWORD_HASH_PREFIX) with 2 in Hc.
    unfold ENCRYPT_MAX_LEN, PERMANENT_PASSWORD_H1_LEN in *. lia. }
  eapply runs_bind; [apply runs_seal|]. intros ? (data & -> & Hs). apply runs_ret.
  assert (plain_permanent (PERMANENT_PASSWORD_ENC_VERSION +:+ b64_encode data) = (text, true, false)) as E.
  { unfold plain_permanent.
    pose proof (versioned_long "0" "1" (b64_encode data)
      (text_seals_nonempty _ _ (ex_intro _ data (conj Hs eq_refl)))) as Hln.
    rewrite length_as_bytes in Hln. rewrite bool_decide_true by done. rewrite starts_with_app. cbn [andb].
    change (drop VERSION_LEN (as_bytes (PERMANENT_PASSWORD_ENC_VERSION +:+ b64_encode data)))
      with (as_bytes (b64_encode data)).
    rewrite b64_round_trip. cbn [mbind option_bind]. rewrite (seals_open _ _ Hs).
    by rewrite from_utf8_lossy_valid by apply ascii_string_is_utf8, hashed_text_ascii. }
  eexists. split_and!; [done|done| |by rewrite E|done].
  unfold current_h1. rewrite starts_with_app, E. by apply hashed_decode.
Qed.

End Proofs.

(** ** Code that leaves the settings alone *)

(** Code that leaves the second file and its copy in memory alone, on any host. *)
Definition quiet {A} (m : HostM A) : Prop :=
  ∀ h, file2 (m h).2 = file2 h ∧ CONFIG2 (m h).2 = CONFIG2 h.

Lemma quiet_ret {A} (a : A) : quiet (mret a).
Proof. by intros h. Qed.
Lemma quiet_gets {A} (f : Host → A) : quiet (gets f).
Proof. by intros h. Qed.
Lemma quiet_draw {A} (f : nat → A) : quiet (draw f).
Proof. by intros h. Qed.
Lemma quiet_modify f : (∀ h, file2 (f h) = file2 h ∧ CONFIG2 (f h) = CONFIG2 h) → quiet (modify f).
Proof. intros Hf h. apply Hf. Qed.
Lemma quiet_bind {A B} (m : HostM A) (k : A → HostM B) :
  quiet m → (∀ a, quiet (k a)) → quiet (m ≫= k).
Proof.
  intros Hm Hk h. unfold mbind, host_bind. destruct (Hm h) as [Hf Hc].
  destruct (m h) as [a h1]. cbn in *. destruct (Hk a h1). split; congruence.
Qed.

Ltac quiet_step :=
  match goal with
  | |- quiet (mret _) => apply quiet_ret
  | |- quiet (gets _) => apply quiet_gets
  | |- quiet (draw _) => apply quiet_draw
  | |- quiet (modify _) => by apply quiet_modify
  | |- quiet (_ ≫= _) => apply quiet_bind; [|intros ?]
  | |- quiet (match ?x with _ => _ end) => destruct x
  end.
(** The operations known to be quiet. *)
Create HintDb quiet discriminated.
#[export] Hint Constants Opaque : quiet.
Ltac quiet := repeat (quiet_step || solve [auto 2 with quiet nocore]).


(** ** A concrete instance of the libraries

    Text is two characters per byte; a box carries sixteen bytes of its key. *)
Module Toy.
Definition nibble (d : Z) : byte := z2b (48 + d).
Definition hex2 (b : byte) : bytes := [nibble (b2z b / 16); nibble (b2z b mod 16)].
Definition encode (v : bytes) : string := of_bytes (mjoin (hex2 <$> v)).

Fixpoint decode (v : bytes) : option bytes :=
  match v with
  | [] => Some []
  | [_] => None
  | a :: b :: v =>
      let x := b2z a - 48 in
      let y := b2z b - 48 in
      if (0 <=? x) && (x <? 16) && (0 <=? y) && (y <? 16)
      then cons (z2b (16 * x + y)) <$> decode v else None
  end.

Definition tag (key : bytes) : bytes := resize 16 Byte.x00 key.

#[export] Instance toy_crypto : Crypto := {|
  b64_encode := encode;
  b64_decode := decode;
  seal m _ k := tag k ++ m;
  open_box c _ k := if bool_decide (take 16 c = tag k) then Some (drop 16 c) else None;
  sha256 m := resize 32 Byte.x00 m;
|}.

Lemma b2z_nibble d : 0 ≤ d < 16 → b2z (nibble d) = 48 + d.
Proof. intros ?. apply b2z_z2b_small. lia. Qed.

Lemma decode_encode v : decode (mjoin (hex2 <$> v)) = Some v.
Proof.
  induction v as [|b v IH]; [done|]. pose proof (b2z_range b).
  change (mjoin (hex2 <$> b :: v)) with
    (nibble (b2z b / 16) :: nibble (b2z b mod 16) :: mjoin (hex2 <$> v)).
  cbn [decode]. rewrite !b2z_nibble by (Z.div_mod_to_equations; lia).
  replace (48 + b2z b / 16 - 48) with (b2z b / 16) by lia.
  replace (48 + b2z b mod 16 - 48) with (b2z b mod 16) by lia.
  assert (((0 <=? b2z b / 16) && (b2z b / 16 <? 16) && (0 <=? b2z b mod 16) && (b2z b mod 16 <? 16)) = true) as ->.
  { rewrite !andb_true_iff, !Z.leb_le, !Z.ltb_lt. Z.div_mod_to_equations. lia. }
  rewrite IH, <- Z_div_mod_eq_full. cbn. by rewrite z2b_b2z.
Qed.

Lemma length_encoded v : length (mjoin (hex2 <$> v)) = (2 * length v)%nat.
Proof.
  induction v as [|b v IH]; [done|].
  change (mjoin (hex2 <$> b :: v)) with (hex2 b ++ mjoin (hex2 <$> v)).
  rewrite length_app, IH. cbn. lia.
Qed.

#[export] Instance toy_laws : CryptoLaws.
Proof.
  split; cbn [b64_encode b64_decode seal open_box sha256 toy_crypto].
  - intros v. unfold encode. rewrite as_of_bytes. apply decode_encode.
  - intros v. unfold encode. rewrite as_of_bytes. induction v as [|b v IH]; [constructor|].
    pose proof (b2z_range b).
    change (mjoin (hex2 <$> b :: v)) with (hex2 b ++ mjoin (hex2 <$> v)).
    apply Forall_app. split; [|done].
    repeat constructor; rewrite b2z_nibble; Z.div_mod_to_equations; lia.
  - intros v Hv E. apply Hv. apply length_zero_iff_nil.
    apply (f_equal as_bytes) in E. unfold encode in E. rewrite as_of_bytes in E.
    apply (f_equal length) in E. rewrite length_encoded in E. cbn in E. lia.
  - intros v. unfold encode. rewrite <- str_len_as_bytes, as_of_bytes. unfold len.
    rewrite length_encoded. lia.
  - intros m n k.
    assert (length (tag k) = 16%nat) as Hl by (unfold tag; by rewrite length_resize).
    rewrite <- Hl, take_app_length, drop_app_length. by rewrite bool_decide_true.
  - intros m n k. rewrite len_app. unfold len, tag, MACBYTES. rewrite length_resize. lia.
  - intros m. unfold len. by rewrite length_resize.
Qed.

#[export] Instance toy_entropy : Entropy.
Proof.
  refine {|
    gen_nonce n := resize (Z.to_nat NONCEBYTES) Byte.x00 (to_le_bytes 8 (Z.of_nat n));
    gen_usize n := Z.of_nat n;
    gen_range lo hi n := lo;
    gen_keypair n := ([Byte.x02], [Byte.x03]);
  |}.
  - intros n. unfold len, NONCEBYTES. rewrite length_resize. lia.
  - lia.
Defined.
End Toy.
