(* ===== verification/ConfigStore.v ===== *)
(** * The configuration files and the passwords in them

    [config.rs] of hbb_common: loading and storing [Config] with its secrets
    sealed, the identity, the salt and the permanent password; and the password
    settings of [password_security.rs].  The state is the [Host] of Secrets.v.  Each
    operation runs under its lock, so it is one step. *)
From S2P Require Import Prelude RustStd RecordUpdate Secrets.
From S2P Require TransportConfig.
From Stdlib Require Import Ascii.

Module ConfigStore.
Export Secrets.

Section Model.
Context `{!Crypto, !Entropy}.
Context (OVERWRITE_SETTINGS DEFAULT_SETTINGS BUILTIN_SETTINGS HARD_SETTINGS : gmap string string).
(** What [mac_address::get_mac_address] and [whoami::fallible::hostname] answer. *)
Context (mac_address : option (list Z)) (hostname : option string).

(** ** Options *)
Definition get_option (k : string) (h : Host) : string :=
  TransportConfig.TransportConfig.get_option OVERWRITE_SETTINGS DEFAULT_SETTINGS
    (TransportConfig.TransportConfig.mkGlobal (net (CONFIG2 h)) (net (CONFIG2 h))) k.
Definition option2bool := TransportConfig.TransportConfig.option2bool.
Definition get_bool_option (k : string) (h : Host) : bool := option2bool k (get_option k h).

Definition builtin_is_Y (k : string) : bool :=
  default false ((λ v, v ==s "Y") <$> BUILTIN_SETTINGS !! k).
Definition is_disable_change_permanent_password : bool :=
  builtin_is_Y "disable-change-permanent-password".
Definition is_disable_change_id : bool := builtin_is_Y "disable-change-id".
Definition is_disable_unlock_pin : bool := builtin_is_Y "disable-unlock-pin".

(** ** Random text *)
Definition NUM_CHARS : list ascii := String.list_ascii_of_string "0123456789".
Definition CHARS : list ascii := String.list_ascii_of_string "23456789abcdefghijkmnpqrstuvwxyz".

Fixpoint get_auto_password_with_chars (length : nat) (chars : list ascii) : HostM string :=
  match length with
  | O => mret ""
  | S length =>
      r ← draw gen_usize;
      rest ← get_auto_password_with_chars length chars;
      mret (String (default "0"%char (chars !! Z.to_nat (r mod len chars))) rest)
  end.
Definition get_auto_password (length : nat) : HostM string :=
  get_auto_password_with_chars length CHARS.
Definition get_auto_numeric_password (length : nat) : HostM string :=
  get_auto_password_with_chars length NUM_CHARS.

(** ** The configuration file *)
Definition ensure_permanent_password_hash_salt (config : Config) : bool :=
  negb (is_empty (salt config)).

(** The configuration, and whether the result is [Ok]. *)
Definition validate_or_decrypt_permanent_password_storage (config : Config) :
    HostM (Config * bool) :=
  if is_empty (password config) then mret (config, true)
  else if starts_with PASSWORD_ENC_VERSION (password config) then
    '(plain, decrypted, should_store) ←
      decrypt_str_or_original (password config) PASSWORD_ENC_VERSION;
    mret (if decrypted : bool then (config <| password := plain |>, true)
          else (config, should_store))
  else
    '(decrypted_storage, decrypted, _) ←
      decrypt_permanent_password_str_or_original (password config);
    mret (if decrypted : bool then
            (config, ensure_permanent_password_hash_salt config &&
              bool_decide (is_Some
                (decode_permanent_password_h1_from_hashed_storage decrypted_storage)))
          else (config, true)).

Definition ensure_permanent_password_salt (config : Config) : HostM Config :=
  if is_empty (salt config) then
    s ← get_auto_password DEFAULT_SALT_LEN;
    mret (config <| salt := s |>)
  else mret config.

Definition prepare_config_for_store (config : Config) : HostM Config :=
  '(config, valid) ← validate_or_decrypt_permanent_password_storage config;
  mret (if valid : bool then config else config <| password := "" |> <| salt := "" |>).

(** The password as it is written: a current hash as it is, any other one sealed. *)
Definition seal_password (config : Config) : HostM Config :=
  if is_empty (password config) then mret config
  else
    h1 ← decode_permanent_password_h1_from_storage (password config);
    match h1 with
    | Some _ => mret config
    | None =>
        stored ← load_;
        p ← keep_encrypted_storage_if_plaintext_unchanged (password config) (password stored);
        mret (config <| password := p |>)
    end.

Definition seal_id (config : Config) : HostM Config :=
  '(stored_id, encrypted, _) ← decrypt_str_or_original (enc_id config) PASSWORD_ENC_VERSION;
  if negb encrypted || negb (stored_id ==s id config) then
    e ← encrypt_str_or_original (id config) PASSWORD_ENC_VERSION ENCRYPT_MAX_LEN;
    mret (config <| enc_id := e |>)
  else mret config.

(** [Config::store(&self)] *)
Definition store (self : Config) : HostM unit :=
  config ← prepare_config_for_store self;
  config ← seal_password config;
  config ← seal_id config;
  store_ (config <| id := "" |>).

(** [id = (id << 8) | (x as u32)] *)
Definition get_auto_id : option string :=
  match mac_address with
  | Some bytes =>
      let n := foldl (λ n x, Z.lor (as_u32 (Z.shiftl n 8)) x) 0 (drop 2 bytes) in
      Some (uint_to_string (Z.land n 0x1FFFFFFF))
  | None => None
  end.

Fixpoint replace_char (a b : ascii) (s : string) : string :=
  match s with
  | EmptyString => EmptyString
  | String c s => String (if bool_decide (c = a) then b else c) (replace_char a b s)
  end.

Definition gen_id : option string :=
  let hostname_as_id :=
    default false (option2bool "allow-hostname-as-id" <$> BUILTIN_SETTINGS !! "allow-hostname-as-id") in
  if hostname_as_id then
    match hostname with
    | Some h => Some (replace_char " "%char "-"%char h)
    | None => get_auto_id
    end
  else get_auto_id.

(** [Config::load()] *)
Definition load : HostM Config :=
  config ← load_;
  '(config, _) ← validate_or_decrypt_permanent_password_storage config;
  '(dec_id, encrypted, store2) ← decrypt_str_or_original (enc_id config) PASSWORD_ENC_VERSION;
  '(config, id_valid, must_store) ←
    (if encrypted : bool then mret (config <| id := dec_id |>, true, store2)
     else if negb (is_empty (id config)) && is_empty (enc_id config) then
       '(_, sealed, _) ← decrypt_str_or_original (id config) PASSWORD_ENC_VERSION;
       mret (config, negb sealed, negb sealed)
     else mret (config, false, false));
  let '(config, must_store) :=
    if id_valid : bool then (config, must_store)
    else match gen_id with
         | Some i => (config <| id := i |>, true)
         | None => (config, must_store)
         end in
  (if must_store : bool then store config else mret tt);;
  mret config.

(** A new process: the statics are empty and [CONFIG] is loaded at first use. *)
Definition restart : HostM unit :=
  modify (λ h, h <| KEY_PAIR := None |> <| CACHED_MACHINE_UID := None |> <| spawned := [] |>);;
  config ← load;
  modify (λ h, h <| CONFIG := config |>).

(** A thread started by [get_key_pair]. *)
Definition run_spawned (pair : KeyPair) : HostM unit :=
  modify (λ h, h <| CONFIG := (CONFIG h) <| key_pair := pair |> |>);;
  config ← gets CONFIG;
  store config.

(** [CONFIG.write()], a change, and [config.store()]. *)
Definition update_config (f : Config → Config) : HostM unit :=
  modify (λ h, h <| CONFIG := f (CONFIG h) |>);;
  config ← gets CONFIG;
  store config.

Definition set (cfg : Config) : HostM bool :=
  config ← gets CONFIG;
  if bool_decide (config = cfg) then mret false
  else update_config (λ _, cfg);; mret true.

Definition set_id (i : string) : HostM unit :=
  config ← gets CONFIG;
  if i ==s id config then mret tt else update_config (λ c, c <| id := i |>).

Definition get_id : HostM string :=
  config ← gets CONFIG;
  if is_empty (id config) then
    match gen_id with
    | Some tmp => set_id tmp;; mret tmp
    | None => mret ""
    end
  else mret (id config).

Definition update_id : HostM unit :=
  _ ← get_id;
  new_id ← draw (gen_range 1000000000 2000000000);
  set_id (uint_to_string new_id).

Definition set_key_confirmed (v : bool) : HostM unit :=
  config ← gets CONFIG;
  if bool_decide (key_confirmed config = v) then mret tt
  else update_config (λ c, (if v then c else c <| keys_confirmed := ∅ |>) <| key_confirmed := v |>).

Definition get_host_key_confirmed (host : string) (h : Host) : bool :=
  bool_decide (keys_confirmed (CONFIG h) !! host = Some true).

Definition set_host_key_confirmed (host : string) (v : bool) : HostM unit :=
  confirmed ← gets (get_host_key_confirmed host);
  if bool_decide (confirmed = v) then mret tt
  else update_config (λ c, c <| keys_confirmed := <[host := v]> (keys_confirmed c) |>).

(** ** The salt *)
Definition set_salt (s : string) : HostM unit :=
  config ← gets CONFIG;
  if s ==s salt config then mret tt
  else
    free ← password_is_empty_or_not_hashed (password config);
    if negb free && negb (is_empty (salt config)) then mret tt
    else update_config (λ c, c <| salt := s |>).

Definition get_salt : HostM string :=
  config ← gets CONFIG;
  if is_empty (salt config) then
    s ← get_auto_password DEFAULT_SALT_LEN;
    set_salt s;;
    mret s
  else mret (salt config).

(** ** The permanent password *)
Definition get_preset_password_storage_and_salt : string * string :=
  (default "" (HARD_SETTINGS !! "password"), default "" (HARD_SETTINGS !! "salt")).

Definition get_local_permanent_password_storage_and_salt (h : Host) : string * string :=
  (password (CONFIG h), salt (CONFIG h)).

Definition compute_permanent_password_storage_for_update (password : string) :
    HostM (option string) :=
  config ← gets CONFIG;
  config ← ensure_permanent_password_salt config;
  modify (λ h, h <| CONFIG := config |>);;
  encode_permanent_password_encrypted_storage_from_h1
    (compute_permanent_password_h1 password (salt config)).

Definition set_permanent_password (pw : string) : HostM bool :=
  if is_disable_change_permanent_password then mret false
  else
    let '(preset_storage, preset_salt) := get_preset_password_storage_and_salt in
    config ← gets CONFIG;
    if preset_permanent_password_storage_matches_plain preset_storage preset_salt pw
       && is_empty (password config)
    then mret true
    else
      stored ← (if is_empty pw then mret (Some "")
                else compute_permanent_password_storage_for_update pw);
      match stored with
      | None => mret false
      | Some stored =>
          config ← gets CONFIG;
          if stored ==s password config then mret true
          else update_config (λ c, c <| password := stored |>);; mret true
      end.

(** The new configuration and [Ok(changed)], or [Err]. *)
Definition apply_permanent_password_storage_for_sync (config : Config) (storage s : string) :
    HostM (option (Config * bool)) :=
  if is_empty storage then
    mret (Some (
      if is_empty (password config) && (is_empty s || (salt config ==s s)) then (config, false)
      else
        let config := config <| password := "" |> in
        ((if is_empty s then config else config <| salt := s |>), true)))
  else if is_empty s then mret None
  else
    h1 ← decode_permanent_password_h1_from_storage storage;
    mret (match h1 with
          | None => None
          | Some _ =>
              Some (if (password config ==s storage) && (salt config ==s s) then (config, false)
                    else (config <| password := storage |> <| salt := s |>, true))
          end).

Definition set_permanent_password_storage_for_sync (storage s : string) : HostM (option bool) :=
  config ← gets CONFIG;
  r ← apply_permanent_password_storage_for_sync config storage s;
  match r with
  | None => mret None
  | Some (_, false) => mret (Some false)
  | Some (config, true) => update_config (λ _, config);; mret (Some true)
  end.

Definition has_usable_preset_password : bool :=
  let '(preset_storage, preset_salt) := get_preset_password_storage_and_salt in
  preset_permanent_password_storage_is_usable_for_auth preset_storage preset_salt.

Definition has_local_permanent_password : HostM bool :=
  '(local_storage, local_salt) ← gets get_local_permanent_password_storage_and_salt;
  local_permanent_password_storage_is_usable_for_auth local_storage local_salt.

Definition has_permanent_password : HostM bool :=
  '(local_storage, local_salt) ← gets get_local_permanent_password_storage_and_salt;
  if negb (is_empty local_storage) then
    local_permanent_password_storage_is_usable_for_auth local_storage local_salt
  else mret has_usable_preset_password.

Definition is_using_preset_password (h : Host) : bool :=
  is_empty (password (CONFIG h)) && has_usable_preset_password.

Definition get_effective_permanent_password_salt : HostM string :=
  '(local_storage, local_salt) ← gets get_local_permanent_password_storage_and_salt;
  if negb (is_empty local_storage) then
    usable ← local_permanent_password_storage_is_usable_for_auth local_storage local_salt;
    if usable : bool then get_salt else mret ""
  else
    let '(preset_storage, preset_salt) := get_preset_password_storage_and_salt in
    if negb (is_empty preset_salt) then
      mret (if preset_permanent_password_storage_is_usable_for_auth preset_storage preset_salt
            then preset_salt else "")
    else get_salt.

(** ** Password settings

    [password_security.rs]. *)
Inductive VerificationMethod : Type :=
  OnlyUseTemporaryPassword | OnlyUsePermanentPassword | UseBothPasswords.
Inductive ApproveMode : Type := Both | Password | Click.

Definition verification_method (h : Host) : VerificationMethod :=
  let method := get_option "verification-method" h in
  if method ==s "use-temporary-password" then OnlyUseTemporaryPassword
  else if method ==s "use-permanent-password" then OnlyUsePermanentPassword
  else UseBothPasswords.

Definition temporary_password_length (h : Host) : nat :=
  let length := get_option "temporary-password-length" h in
  if length ==s "8" then 8%nat else if length ==s "10" then 10%nat else 6%nat.

Definition temporary_enabled (h : Host) : bool :=
  match verification_method h with OnlyUsePermanentPassword => false | _ => true end.
Definition permanent_enabled (h : Host) : bool :=
  match verification_method h with OnlyUseTemporaryPassword => false | _ => true end.

(** [password_security::get_auto_password] *)
Definition new_temporary_password : HostM string :=
  n ← gets temporary_password_length;
  numeric ← gets (get_bool_option "allow-numeric-one-time-password");
  if numeric : bool then get_auto_numeric_password n else get_auto_password n.

Definition update_temporary_password : HostM unit :=
  p ← new_temporary_password;
  modify (λ h, h <| TEMPORARY_PASSWORD := p |>).

Definition has_valid_password : HostM bool :=
  enabled ← gets (λ h, temporary_enabled h && negb (is_empty (TEMPORARY_PASSWORD h)));
  if enabled : bool then mret true
  else
    permanent ← gets permanent_enabled;
    if permanent : bool then has_permanent_password else mret false.

Definition approve_mode (h : Host) : ApproveMode :=
  let mode := get_option "approve-mode" h in
  if mode ==s "password" then Password
  else if mode ==s "click" then Click
  else Both.

Definition hide_cm (h : Host) : bool :=
  match approve_mode h, verification_method h with
  | Password, OnlyUsePermanentPassword =>
      option2bool "allow-hide-cm" (get_option "allow-hide-cm" h)
  | _, _ => false
  end.

End Model.

End ConfigStore.
