(* ===== verification/Config2Store.v ===== *)
(** * The second configuration file

    [Config2] of config.rs of hbb_common: loading and storing it with the unlock pin
    and the proxy password sealed, and the store of trusted-device grants that
    ordinary settings neither change nor bring back. *)
From S2P Require Import Prelude RustStd RecordUpdate Secrets ConfigStore.
From S2P Require TransportConfig.

Module Config2.
Import ConfigStore.

Section Model.
Context `{!Crypto, !Entropy}.
Context (BUILTIN_SETTINGS : gmap string string).

(** [config.trusted_devices_v2()]: [None] is the error. *)
Definition trusted_devices_v2 (c : Config2) : option string :=
  match trusted_devices_v2_field c with
  | None => Some ""
  | Some (TomlString value) => Some value
  | Some TomlOther => None
  end.

(** The password of the proxy settings, if there are any, replaced by [f]; [d] is
    the second result without one. *)
Definition map_socks_password {A} (d : A) (f : string → HostM (string * A)) (c : Config2) :
    HostM (Config2 * A) :=
  match TransportConfig.TransportConfig.socks (net c) with
  | None => mret (c, d)
  | Some s =>
      '(p, a) ← f (TransportConfig.TransportConfig.socks_password s);
      mret (c <| net := TransportConfig.TransportConfig.with_socks (net c)
              (Some (TransportConfig.TransportConfig.mkSocks
                (TransportConfig.TransportConfig.proxy s)
                (TransportConfig.TransportConfig.socks_username s) p)) |>, a)
  end.

Definition stored_socks_password (c : Config2) : string :=
  from_option TransportConfig.TransportConfig.socks_password ""
    (TransportConfig.TransportConfig.socks (net c)).

(** [store_path] of the second file; whether it succeeded. *)
Definition store_path (c : Config2) : HostM bool := λ h,
  if can_write h then (true, h <| file2 := Loaded c |>) else (false, h).

(** [Config2::store(&self)] *)
Definition store (self : Config2) : HostM unit :=
  found ← gets (λ h, try_load_path_for_store default_config2 (file2 h));
  match found with
  | None => mret tt
  | Some stored =>
      let v2 := match trusted_devices_v2 stored with
                | Some _ => trusted_devices_v2_field stored
                | None => None
                end in
      let config := self <| trusted_devices_v2_field := v2 |>
                         <| trusted_devices := trusted_devices stored |> in
      '(config, _) ← map_socks_password tt
        (λ p, p ← keep_encrypted_storage_if_plaintext_unchanged p (stored_socks_password stored);
              mret (p, tt)) config;
      pin ← keep_encrypted_storage_if_plaintext_unchanged (unlock_pin config) (unlock_pin stored);
      _ ← store_path (config <| unlock_pin := pin |>);
      mret tt
  end.

Definition load : HostM Config2 :=
  config ← gets (λ h, load_path default_config2 (file2 h));
  '(config, store1) ← map_socks_password false
    (λ p, '(plain, _, store2) ← decrypt_str_or_original p PASSWORD_ENC_VERSION;
          mret (plain, store2)) config;
  '(pin, _, store2) ← decrypt_str_or_original (unlock_pin config) PASSWORD_ENC_VERSION;
  let config := config <| unlock_pin := pin |> in
  (if store1 || store2 then store config else mret tt);;
  mret config.

Definition update (f : Config2 → Config2) : HostM unit :=
  modify (λ h, h <| CONFIG2 := f (CONFIG2 h) |>);;
  config ← gets CONFIG2;
  store config.

Definition set (cfg : Config2) : HostM bool :=
  config ← gets CONFIG2;
  if bool_decide (config = cfg) then mret false else update (λ _, cfg);; mret true.

Definition set_nat_type (v : Z) : HostM unit :=
  config ← gets CONFIG2;
  if nat_type config =? v then mret tt else update (λ c, c <| nat_type := v |>).

Definition set_serial (v : Z) : HostM unit :=
  config ← gets CONFIG2;
  if serial config =? v then mret tt else update (λ c, c <| serial := v |>).

Definition get_unlock_pin (h : Host) : string :=
  if is_disable_unlock_pin BUILTIN_SETTINGS then "" else unlock_pin (CONFIG2 h).

Definition set_unlock_pin (pin : string) : HostM unit :=
  if is_disable_unlock_pin BUILTIN_SETTINGS then mret tt
  else
    config ← gets CONFIG2;
    if pin ==s unlock_pin config then mret tt else update (λ c, c <| unlock_pin := pin |>).

(** The two stores of trusted devices, current and legacy; [None] is an error. *)
Definition get_trusted_device_stores (h : Host) : option (string * string) :=
  config ← try_load_path default_config2 (file2 h);
  current ← trusted_devices_v2 config;
  Some (current, trusted_devices config).

Definition get_trusted_devices_v2 (h : Host) : option string :=
  fst <$> get_trusted_device_stores h.

Definition has_trusted_devices_v2 (h : Host) : option bool :=
  config ← try_load_path default_config2 (file2 h);
  Some (match trusted_devices_v2_field config with
        | Some value => negb (bool_decide (value = TomlString ""))
        | None => false
        end).

Definition sync_trusted_devices (self : Config2) : HostM bool :=
  match trusted_devices_v2 self with
  | None => mret false
  | Some _ =>
      found ← gets (λ h, try_load_path default_config2 (file2 h));
      match found with
      | None => mret false
      | Some stored =>
          let new := stored <| trusted_devices := trusted_devices self |>
                            <| trusted_devices_v2_field := trusted_devices_v2_field self |> in
          written ← (if bool_decide (new = stored) then mret true else store_path new);
          if written : bool then
            modify (λ h, h <| CONFIG2 := (CONFIG2 h)
              <| trusted_devices := trusted_devices new |>
              <| trusted_devices_v2_field := trusted_devices_v2_field new |> |>);;
            mret true
          else mret false
      end
  end.

Definition set_trusted_devices_v2 (value : string) : HostM bool :=
  sync_trusted_devices (default_config2
    <| trusted_devices_v2_field := if is_empty value then None else Some (TomlString value) |>).

(** What another process is sent: the settings in memory, the grants on disk. *)
Definition get_for_sync (h : Host) : option Config2 :=
  stored ← try_load_path default_config2 (file2 h);
  Some ((CONFIG2 h) <| trusted_devices := trusted_devices stored |>
                    <| trusted_devices_v2_field := trusted_devices_v2_field stored |>).

End Model.
End Config2.
