(* ===== verification/PeerStore.v ===== *)
(** * The file of a peer

    [PeerConfig] of config.rs of hbb_common: loading and storing the secrets kept for
    one peer.  The file is passed along. *)
From S2P Require Import Prelude RustStd RecordUpdate Secrets ConfigStore.

Module PeerConfig.
Import ConfigStore.

(** The settings of a session with the peer, as far as client.rs reads them. *)
Record Settings : Type := mkSettings {
  view_style : string;
  scroll_style : string;
  edge_scroll_edge_thickness : Z;
  image_quality : string;
  custom_image_quality : list Z;
  show_remote_cursor : bool;
  lock_after_session_end : bool;
  terminal_persistent : bool;
  privacy_mode : bool;
  allow_swap_key : bool;
  direct_failures : Z;
  disable_audio : bool;
  disable_clipboard : bool;
  enable_file_copy_paste : bool;
  show_quality_monitor : bool;
  follow_remote_cursor : bool;
  follow_remote_window : bool;
  keyboard_mode : string;
  view_only : bool;
  show_my_cursor : bool;
  reverse_mouse_wheel : string;
  displays_as_individual_windows : string;
  use_all_my_displays_for_the_remote_session : string;
  trackpad_speed : Z;
  custom_resolutions : gmap string (Z * Z);
  ui_flutter : gmap string string;
}.
#[export] Instance eta_settings : Eta Settings := λ s, mkSettings (view_style s) (scroll_style s)
  (edge_scroll_edge_thickness s) (image_quality s) (custom_image_quality s) (show_remote_cursor s)
  (lock_after_session_end s) (terminal_persistent s) (privacy_mode s) (allow_swap_key s)
  (direct_failures s) (disable_audio s) (disable_clipboard s) (enable_file_copy_paste s)
  (show_quality_monitor s) (follow_remote_cursor s) (follow_remote_window s) (keyboard_mode s)
  (view_only s) (show_my_cursor s) (reverse_mouse_wheel s) (displays_as_individual_windows s)
  (use_all_my_displays_for_the_remote_session s) (trackpad_speed s) (custom_resolutions s)
  (ui_flutter s).
#[export] Instance settings_eq_dec : EqDecision Settings.
Proof. solve_decision. Defined.

Section Model.
Context `{!Crypto, !Entropy}.
(** [PeerConfig::default_options()] and the defaults of the other settings, read
    from the user's defaults. *)
Context (default_options : gmap string string) (default_settings : Settings).

(** The fields that hold secrets, the description of the peer (username, host name
    and platform) and the settings of a session. *)
Record PeerConfig : Type := mkPeer {
  password : bytes;
  trusted_device_v2 : string;
  options : gmap string string;
  info : string * string * string;
  settings : Settings;
}.
#[export] Instance eta_peer : Eta PeerConfig := λ c, mkPeer (password c) (trusted_device_v2 c)
  (options c) (info c) (settings c).

Definition default_peer : PeerConfig := mkPeer [] "" default_options ("", "", "") default_settings.

(** The file of one peer, and whether it is in [NEW_STORED_PEER_CONFIG]. *)
Record PeerFile : Type := mkPeerFile { peer_file : Stored PeerConfig; newly_stored : bool }.

Definition SECRET_OPTIONS : list string := ["rdp_password"; "os-username"; "os-password"].

Fixpoint seal_options (opts : list string) (o : gmap string string) : HostM (gmap string string) :=
  match opts with
  | [] => mret o
  | opt :: opts =>
      o ← (match o !! opt with
           | Some v =>
               e ← encrypt_str_or_original v PASSWORD_ENC_VERSION ENCRYPT_MAX_LEN;
               mret (<[opt := e]> o)
           | None => mret o
           end);
      seal_options opts o
  end.

Fixpoint unseal_options (opts : list string) (o : gmap string string) (store : bool) :
    HostM (gmap string string * bool) :=
  match opts with
  | [] => mret (o, store)
  | opt :: opts =>
      '(o, store) ← (match o !! opt with
                     | Some v =>
                         '(plain, _, store2) ← decrypt_str_or_original v PASSWORD_ENC_VERSION;
                         mret (<[opt := plain]> o, store || store2)
                     | None => mret (o, store)
                     end);
      unseal_options opts o store
  end.

(** [store_(&self, id)] *)
Definition store_ (self : PeerConfig) (p : PeerFile) : HostM PeerFile :=
  pw ← encrypt_vec_or_original (password self) PASSWORD_ENC_VERSION ENCRYPT_MAX_LEN;
  o ← seal_options SECRET_OPTIONS (options self);
  match try_load_path_for_store default_peer (peer_file p) with
  | None => mret p
  | Some stored =>
      let config := mkPeer pw (trusted_device_v2 stored) o (info self) (settings self) in
      writes ← gets can_write;
      mret (mkPeerFile (if writes : bool then Loaded config else peer_file p) true)
  end.

Definition load (p : PeerFile) : HostM (PeerConfig * PeerFile) :=
  match peer_file p with
  | Loaded config =>
      '(pw, _, store1) ← decrypt_vec_or_original (password config) PASSWORD_ENC_VERSION;
      '(o, must_store) ← unseal_options SECRET_OPTIONS (options config) store1;
      let config := mkPeer pw (trusted_device_v2 config) o (info config) (settings config) in
      p ← (if must_store : bool then store_ config p else mret p);
      mret (config <| trusted_device_v2 := "" |>, p)
  | _ => mret (default_peer, p)
  end.

Definition get_trusted_device_v2 (p : PeerFile) : option string :=
  trusted_device_v2 <$> try_load_path default_peer (peer_file p).

Definition set_trusted_device_v2 (value : string) (i : string * string * string) (p : PeerFile) :
    HostM (bool * PeerFile) :=
  match try_load_path default_peer (peer_file p) with
  | None => mret (false, p)
  | Some config =>
      writes ← gets can_write;
      mret (if writes : bool then
              (true, mkPeerFile (Loaded (config <| trusted_device_v2 := value |> <| info := i |>))
                       (newly_stored p))
            else (false, p))
  end.

End Model.
End PeerConfig.
