(* ===== verification/ConfigStoreProofs.v ===== *)
(** * What the configuration files keep

    The salt stays with the hash it belongs to ([salt_bound_to_password]), a
    permanent password and the settings' secrets are found again after a restart
    ([permanent_password_survives_restart], [settings_survive_restart]), and
    ordinary settings never bring back or drop trusted-device grants
    ([grants_survive_settings]). *)
From S2P Require Import Prelude RustStd RecordUpdate Secrets SecretsProofs ConfigStore Config2Store.
From S2P Require TransportConfig.
From Stdlib Require Import Ascii.
Import ConfigStore.

Section Proofs.
Context `{!Crypto, !CryptoLaws, !Entropy}.
Context (OVERWRITE_SETTINGS DEFAULT_SETTINGS BUILTIN_SETTINGS HARD_SETTINGS : gmap string string).
Context (mac_address : option (list Z)) (hostname : option string).
Variables (uid : bytes) (okp : option KeyPair).

#[local] Abbreviation ready := (ready uid okp).
#[local] Abbreviation runs := (runs uid okp).
#[local] Abbreviation current_h1 := (current_h1 uid okp).
#[local] Abbreviation plain_str := (plain_str uid okp).
#[local] Abbreviation plain_permanent := (plain_permanent uid okp).

(** ** Current storage *)

(** The configuration has no password, or a hash that opens together with its salt. *)
Definition bound (c : Config) : Prop :=
  password c = "" ∨ (∃ d, current_h1 (password c) = Some d) ∧ salt c ≠ "".

Lemma current_prefix storage d : current_h1 storage = Some d →
  storage ≠ "" ∧ starts_with PASSWORD_ENC_VERSION storage = false ∧
  ∃ text, (plain_permanent storage).1 = (text, true) ∧
          decode_permanent_password_h1_from_hashed_storage text = Some d.
Proof.
  unfold SecretsProofs.current_h1.
  destruct (starts_with PERMANENT_PASSWORD_ENC_VERSION storage) eqn:Hp; [|done].
  destruct (plain_permanent storage) as [[text dec] again] eqn:E. destruct dec; [|done].
  intros Hd. apply starts_with_inv in Hp as [t ->]. split_and!; [done|done|by exists text].
Qed.

Lemma runs_validate c : bound c →
  runs (validate_or_decrypt_permanent_password_storage c) (eq (c, true)).
Proof.
  unfold validate_or_decrypt_permanent_password_storage.
  intros [Hp|[[d Hd] Hs]]; [rewrite Hp; by apply runs_ret|].
  destruct (current_prefix _ _ Hd) as (Hne & Hv & text & Ht & Hh).
  apply is_empty_false in Hne. rewrite Hne, Hv.
  eapply runs_step; [apply runs_decrypt_permanent|].
  destruct (plain_permanent (password c)) as [[t dec] again] eqn:E. cbn in Ht. simplify_eq.
  apply runs_ret. cbv beta iota. unfold ensure_permanent_password_hash_salt. rewrite Hh.
  apply is_empty_false in Hs. by rewrite Hs.
Qed.

Lemma runs_prepare c : bound c → runs (prepare_config_for_store c) (eq c).
Proof. intros Hb. eapply runs_step; [by apply runs_validate|]. by apply runs_ret. Qed.

Lemma runs_seal_password c : bound c → runs (seal_password c) (eq c).
Proof.
  unfold seal_password. intros [Hp|[[d Hd] Hs]]; [rewrite Hp; by apply runs_ret|].
  destruct (current_prefix _ _ Hd) as (Hne & _). apply is_empty_false in Hne. rewrite Hne.
  eapply runs_step; [apply runs_decode_h1|]. rewrite Hd. by apply runs_ret.
Qed.

(** Apart from the id, the configuration is written as it is. *)
Definition same_but_id (c c' : Config) : Prop :=
  password c' = password c ∧ salt c' = salt c ∧ key_pair c' = key_pair c ∧
  key_confirmed c' = key_confirmed c ∧ keys_confirmed c' = keys_confirmed c.

Lemma same_but_id_bound c c' : same_but_id c c' → bound c → bound c'.
Proof. intros (Hp & Hs & _). unfold bound. by rewrite Hp, Hs. Qed.

Lemma runs_encrypt_any s : runs (encrypt_str_or_original s PASSWORD_ENC_VERSION ENCRYPT_MAX_LEN) (λ _, True).
Proof.
  unfold encrypt_str_or_original. destruct (is_encrypted _); [by apply runs_ret|].
  destruct (_ <? _); [by apply runs_ret|]. change (PASSWORD_ENC_VERSION ==s "00") with true. cbv iota.
  destruct (decide (as_bytes s = [])) as [E|E].
  - rewrite E. eapply runs_step; [apply runs_encrypt_nil|]. by apply runs_ret.
  - eapply runs_bind; [by apply runs_encrypt|]. intros. by apply runs_ret.
Qed.

Lemma runs_seal_id c : runs (seal_id c) (same_but_id c).
Proof.
  eapply runs_step; [apply runs_decrypt_str|].
  destruct (plain_str (enc_id c)) as [[i enc] again]. destruct (_ || _).
  - eapply runs_bind; [apply runs_encrypt_any|]. intros e _. by apply runs_ret.
  - by apply runs_ret.
Qed.

(** [store] writes the configuration, or nothing if files cannot be written. *)
Lemma store_bound c h : ready h → bound c → pair_of c = okp →
  ∃ h', store c h = (tt, h') ∧ ready h' ∧ CONFIG h' = CONFIG h ∧ CONFIG2 h' = CONFIG2 h ∧
        can_write h' = can_write h ∧
        if can_write h then ∃ c', file h' = Loaded c' ∧ same_but_id c c'
        else file h' = file h.
Proof.
  intros Hr Hb Hp.
  assert (runs (c1 ← prepare_config_for_store c; c2 ← seal_password c1; seal_id c2) (same_but_id c)) as Hrun.
  { eapply runs_step; [by apply runs_prepare|]. eapply runs_step; [by apply runs_seal_password|].
    apply runs_seal_id. }
  destruct (Hrun h Hr) as (c' & h1 & E & Hs & Hsame & Hr1).
  assert (store c h = store_ (c' <| id := "" |>) h1) as ->.
  { unfold store. revert E. unfold mbind, host_bind.
    destruct (prepare_config_for_store c h) as [c1 g1].
    destruct (seal_password c1 g1) as [c2 g2]. by intros ->. }
  unfold store_, modify. rewrite (same_write _ _ Hsame).
  destruct (can_write h) eqn:Hw.
  - eexists. split; [done|]. destruct Hr1. destruct Hsame.
    split_and!; try done; [|cbn; congruence|by eexists].
    constructor; cbn; try done. destruct Hs as (_ & _ & Hk & _).
    unfold pair_of in *. cbn. by rewrite Hk.
  - eexists. split; [done|]. destruct Hsame. split_and!; try done; congruence.
Qed.

(** ** Random text *)
Lemma draw_loop_nonempty n chars h : n ≠ 0%nat →
  ∃ s k, get_auto_password_with_chars n chars h = (s, h <| drawn := k |>) ∧ s ≠ "".
Proof.
  intros Hn. assert (∀ n h, ∃ s k, get_auto_password_with_chars n chars h = (s, h <| drawn := k |>)
    ∧ (n ≠ 0%nat → s ≠ "")) as Hall.
  { clear n h Hn. induction n as [|n IH]; intros h.
    - exists "", (drawn h). split; [by destruct h|done].
    - cbn [get_auto_password_with_chars]. unfold mbind, host_bind, draw.
      destruct (IH (h <| drawn := S (drawn h) |>)) as (s & k & -> & _).
      by eexists _, _. }
  destruct (Hall n h) as (s & k & E & Hs). exists s, k. auto.
Qed.

Lemma ready_drawn h k : ready h → ready (h <| drawn := k |>).
Proof. intros []. by constructor. Qed.

Lemma ready_config h c : ready h → pair_of c = okp → ready (h <| CONFIG := c |>).
Proof. intros [] ?. by constructor. Qed.

(** ** The salt and its hash *)

(** A configuration whose password, if any, was introduced with its salt. *)
Definition from_pairs (O : list (string * string)) (c : Config) : Prop :=
  bound c ∧ (password c = "" ∨ (password c, salt c) ∈ O).

(** The configuration in memory and the one on disk. *)
Record good (O : list (string * string)) (h : Host) : Prop := {
  good_ready : ready h;
  good_config : from_pairs O (CONFIG h);
  good_file : from_pairs O (load_path default_config (file h));
}.

Lemma from_pairs_mono O O' c : O ⊆ O' → from_pairs O c → from_pairs O' c.
Proof. intros Hsub [? [?|?]]; split; auto. Qed.

Lemma good_mono O O' h : O ⊆ O' → good O h → good O' h.
Proof. intros ? []. split; [done|by eapply from_pairs_mono..]. Qed.

Lemma same_but_id_from O c c' : same_but_id c c' → from_pairs O c → from_pairs O c'.
Proof.
  intros Hs [Hb Hp]. split; [by eapply same_but_id_bound|].
  destruct Hs as (-> & -> & _). done.
Qed.

Lemma good_same O h h' : same h h' → ready h' → good O h → good O h'.
Proof. intros [] ? []. split; [done|congruence..]. Qed.

Lemma good_drawn O h k : good O h → good O (h <| drawn := k |>).
Proof. intros []. split; [by apply ready_drawn|done..]. Qed.

(** The operation keeps the invariant. *)
Definition keeps (O O' : list (string * string)) {A} (m : HostM A) : Prop :=
  ∀ h, good O h → good O' (m h).2.

Lemma keeps_runs O {A} (m : HostM A) (Q : A → Prop) : runs m Q → keeps O O m.
Proof.
  intros Hm h Hg. destruct (Hm h (good_ready _ _ Hg)) as (a & h' & -> & _ & Hs & Hr).
  by eapply good_same.
Qed.

Lemma host_keeps_ret O {A} (a : A) : keeps O O (mret a).
Proof. by intros h. Qed.

Lemma host_keeps_bind O O1 O2 {A B} (m : HostM A) (k : A → HostM B) :
  keeps O O1 m → (∀ a, keeps O1 O2 (k a)) → keeps O O2 (m ≫= k).
Proof.
  intros Hm Hk h Hg. unfold mbind, host_bind. specialize (Hm h Hg).
  destruct (m h) as [a h1]. by apply Hk.
Qed.

(** Reading the state: the continuation may use what was read. *)
Lemma keeps_gets O O' {A B} (f : Host → A) (k : A → HostM B) :
  (∀ h, good O h → good O' (k (f h) h).2) → keeps O O' (gets f ≫= k).
Proof. intros Hk h Hg. by apply Hk. Qed.

Lemma host_keeps_modify O (f : Host → Host) : (∀ h, good O h → good O (f h)) → keeps O O (modify f).
Proof. intros Hf h Hg. by apply Hf. Qed.

Lemma good_update_config O O' f h : O ⊆ O' → good O h → from_pairs O' (f (CONFIG h)) →
  key_pair (f (CONFIG h)) = key_pair (CONFIG h) → good O' (update_config f h).2.
Proof.
  intros Hsub [Hr Hc Hf] Hfc Hk. unfold update_config, modify, gets, mbind, host_bind. cbn.
  assert (pair_of (f (CONFIG h)) = okp) as Hp.
  { unfold pair_of. rewrite Hk. apply (rd_config _ _ _ Hr). }
  destruct (store_bound (f (CONFIG h)) (h <| CONFIG := f (CONFIG h) |>))
    as (h' & E & Hr' & Hc' & _ & _ & Hw); [by apply ready_config|apply Hfc|done|].
  rewrite E. cbn. split; [done|by rewrite Hc'|].
  cbn in Hw. destruct (can_write h).
  - destruct Hw as (c' & -> & Hs). cbn. by eapply same_but_id_from.
  - rewrite Hw. by eapply from_pairs_mono.
Qed.

(** Updates that touch neither password, salt nor key pair. *)
Lemma keeps_update_other O f :
  (∀ c, password (f c) = password c ∧ salt (f c) = salt c ∧ key_pair (f c) = key_pair c) →
  keeps O O (update_config f).
Proof.
  intros Hf h Hg. destruct (Hf (CONFIG h)) as (Hp & Hs & Hk). apply (good_update_config O); [done|done| |done].
  destruct Hg as [_ [Hb Ho] _]. unfold from_pairs, bound. by rewrite Hp, Hs.
Qed.

Lemma keeps_set_id O i : keeps O O (set_id i).
Proof.
  apply keeps_gets. intros h Hg. destruct (_ ==s _); [done|]. by apply keeps_update_other.
Qed.

Lemma keeps_get_id O : keeps O O (get_id BUILTIN_SETTINGS mac_address hostname).
Proof.
  apply keeps_gets. intros h Hg. destruct (is_empty _); [|done].
  destruct (gen_id _ _ _); [|done]. revert h Hg. change (keeps O O (set_id s;; mret s)).
  eapply host_keeps_bind; [apply keeps_set_id|]. intros. apply host_keeps_ret.
Qed.

Lemma keeps_draw O {A} (f : nat → A) : keeps O O (draw f).
Proof. intros h Hg. by apply good_drawn. Qed.

Lemma keeps_auto O n chars : keeps O O (get_auto_password_with_chars n chars).
Proof.
  induction n as [|n IH]; [apply host_keeps_ret|]. cbn.
  eapply host_keeps_bind; [apply keeps_draw|]. intros. eapply host_keeps_bind; [apply IH|]. intros. apply host_keeps_ret.
Qed.

(** A salt that differs is only written when no hash depends on the old one. *)
Lemma keeps_set_salt O s : keeps O O (set_salt s).
Proof.
  apply keeps_gets. intros h Hg. destruct (s ==s salt (CONFIG h)); [done|].
  assert (runs (password_is_empty_or_not_hashed (password (CONFIG h)))
    (λ free, free = true → password (CONFIG h) = "")) as Hfree.
  { unfold password_is_empty_or_not_hashed. destruct Hg as [_ [[Hp|[[d Hd] _]] _] _].
    - rewrite Hp. by apply runs_ret.
    - destruct (current_prefix _ _ Hd) as (Hne & _). apply is_empty_false in Hne. rewrite Hne.
      eapply runs_step; [apply runs_decode_h1|]. rewrite Hd. by apply runs_ret. }
  destruct (Hfree h (good_ready _ _ Hg)) as (free & h1 & E & Hf & Hs & Hr).
  unfold mbind, host_bind. rewrite E.
  assert (good O h1) as Hg1 by by eapply good_same.
  destruct (negb free && negb (is_empty (salt (CONFIG h)))) eqn:Hbr; [done|].
  assert (password (CONFIG h) = "") as Hpw.
  { apply andb_false_iff in Hbr as [Hbr|Hbr].
    - apply Hf. by destruct free.
    - apply negb_false_iff, is_empty_true in Hbr.
      destruct (good_config _ _ Hg) as [[?|[_ ?]] _]; [done|congruence]. }
  apply (good_update_config O); [done|done| |done].
  rewrite <- (same_config _ _ Hs) in Hpw. split; left; done.
Qed.

Lemma keeps_get_salt O : keeps O O get_salt.
Proof.
  apply keeps_gets. intros h Hg. destruct (is_empty _); [|done]. revert h Hg.
  change (keeps O O (s ← get_auto_password DEFAULT_SALT_LEN; set_salt s;; mret s)).
  eapply host_keeps_bind; [apply keeps_auto|]. intros s.
  eapply host_keeps_bind; [apply keeps_set_salt|]. intros. apply host_keeps_ret.
Qed.

Lemma keeps_effective_salt O : keeps O O (get_effective_permanent_password_salt HARD_SETTINGS).
Proof.
  apply keeps_gets. intros h Hg. unfold get_local_permanent_password_storage_and_salt.
  destruct (is_empty _); cbn [negb].
  - destruct (get_preset_password_storage_and_salt HARD_SETTINGS) as [ps pt].
    destruct (negb _); [done|by apply keeps_get_salt].
  - revert Hg. generalize (salt (CONFIG h)), (password (CONFIG h)). intros sa pw Hg. revert h Hg.
    eapply host_keeps_bind; [eapply keeps_runs, runs_usable|]. intros []; [apply keeps_get_salt|apply host_keeps_ret].
Qed.

Lemma same_but_id_trans c1 c2 c3 : same_but_id c1 c2 → same_but_id c2 c3 → same_but_id c1 c3.
Proof. unfold same_but_id. intros. naive_solver congruence. Qed.

(** What [load] returns and leaves on disk differs from the file in the id only. *)
Lemma load_bound h : ready h → bound (load_path default_config (file h)) →
  ∃ c h', load BUILTIN_SETTINGS mac_address hostname h = (c, h') ∧ ready h' ∧
          CONFIG2 h' = CONFIG2 h ∧ can_write h' = can_write h ∧
          same_but_id (load_path default_config (file h)) c ∧
          same_but_id (load_path default_config (file h)) (load_path default_config (file h')).
Proof.
  intros Hr Hb. set (c0 := load_path default_config (file h)) in *.
  assert (pair_of c0 = okp) as Hp0 by apply (rd_file _ _ _ Hr).
  unfold load. unfold load_, gets. unfold mbind, host_bind. fold c0.
  destruct (runs_validate c0 Hb h Hr) as (r & h1 & -> & <- & Hs1 & Hr1). cbn.
  destruct (runs_decrypt_str uid okp (enc_id c0) h1 Hr1) as (r & h2 & -> & <- & Hs2 & Hr2).
  destruct (plain_str (enc_id c0)) as [[dec_id encrypted] store2].
  match goal with |- context [let '(_, _) := ?m h2 in _] =>
    assert (runs m (λ r, same_but_id c0 r.1.1)) as Hid; [|set (idm := m) in *] end.
  { destruct encrypted; [by apply runs_ret|]. destruct (_ && _); [|by apply runs_ret].
    eapply runs_step; [apply runs_decrypt_str|].
    destruct (plain_str (id c0)) as [[??]?]. by apply runs_ret. }
  destruct (Hid h2 Hr2) as ([[c1 valid] must] & h3 & E3 & Hc1 & Hs3 & Hr3).
  unfold mbind, host_bind in *. rewrite E3. clear Hid E3 idm. cbn in Hc1.
  match goal with |- context [let '(_, _) := ?x in _] =>
    assert (same_but_id c0 x.1) as Hc2; [|destruct x as [c2 must2]; cbn in Hc2] end.
  { destruct valid; [done|]. destruct (gen_id _ _ _); [|done]. by eapply same_but_id_trans. }
  clear Hc1. destruct Hs1, Hs2, Hs3. destruct must2.
  - destruct (store_bound c2 h3) as (h4 & -> & Hr4 & Hc4 & Hc24 & Hw4 & Hf4);
      [done|by eapply same_but_id_bound| |].
    { destruct Hc2 as (_ & _ & Hk & _). unfold pair_of in *. by rewrite Hk. }
    exists c2, h4. split_and!; [done|done|congruence|congruence|done|].
    destruct (can_write h3).
    + destruct Hf4 as (c' & -> & Hs'). cbn. by eapply same_but_id_trans.
    + replace (file h4) with (file h) by congruence. done.
  - exists c2, h3. split_and!; [done|done|congruence|congruence|done|].
    by replace (file h3) with (file h) by congruence.
Qed.

Lemma restart_bound h : ready h → bound (load_path default_config (file h)) →
  ∃ c h', restart BUILTIN_SETTINGS mac_address hostname h = (tt, h') ∧ ready h' ∧
          CONFIG h' = c ∧ CONFIG2 h' = CONFIG2 h ∧ can_write h' = can_write h ∧
          same_but_id (load_path default_config (file h)) c ∧
          same_but_id (load_path default_config (file h)) (load_path default_config (file h')).
Proof.
  intros Hr Hb. unfold restart, modify. unfold mbind, host_bind.
  match goal with |- context [load _ _ _ ?g] => set (h0 := g) end.
  assert (ready h0) as Hr0 by (destruct Hr; by constructor; cbn; auto).
  destruct (load_bound h0 Hr0 Hb) as (c & h1 & -> & Hr1 & Hc2 & Hw & Hc & Hf).
  eexists c, _. split; [done|].
  split_and!; try done. apply ready_config; [done|].
  destruct Hc as (_ & _ & Hk & _). unfold pair_of. rewrite Hk. apply (rd_file _ _ _ Hr).
Qed.

Lemma keeps_restart O : keeps O O (restart BUILTIN_SETTINGS mac_address hostname).
Proof.
  intros h [Hr Hc Hf].
  destruct (restart_bound h Hr (proj1 Hf)) as (c & h' & -> & Hr' & Hcc & _ & _ & Hsc & Hsf).
  cbn. split; [done|rewrite Hcc|]; by eapply same_but_id_from.
Qed.

(** The salt is there before the hash is computed. *)
Lemma ensure_salt_good O h : good O h →
  ∃ c k, ensure_permanent_password_salt (CONFIG h) h = (c, h <| drawn := k |>) ∧ salt c ≠ "" ∧
         from_pairs O c ∧ password c = password (CONFIG h) ∧ key_pair c = key_pair (CONFIG h).
Proof.
  intros Hg. unfold ensure_permanent_password_salt. destruct (is_empty (salt (CONFIG h))) eqn:Hs.
  - apply is_empty_true in Hs. unfold mbind, host_bind, get_auto_password.
    destruct (draw_loop_nonempty DEFAULT_SALT_LEN CHARS h) as (s & k & -> & Hne); [done|].
    eexists _, k. split_and!; [done|done| |done|done].
    destruct (good_config _ _ Hg) as [[Hp|[_ ?]] _]; [|congruence].
    by split; left.
  - apply is_empty_false in Hs. exists (CONFIG h), (drawn h). destruct Hg.
    split_and!; [by destruct h|done|done|done|done].
Qed.

Lemma compute_storage O pw h : good O h →
  ∃ storage h', compute_permanent_password_storage_for_update pw h = (Some storage, h') ∧
    good O h' ∧ salt (CONFIG h') ≠ "" ∧ storage ≠ "" ∧
    current_h1 storage = Some (compute_permanent_password_h1 pw (salt (CONFIG h'))) ∧
    password (CONFIG h') = password (CONFIG h) ∧ can_write h' = can_write h.
Proof.
  intros Hg. unfold compute_permanent_password_storage_for_update, gets, modify.
  unfold mbind, host_bind.
  destruct (ensure_salt_good O h Hg) as (c & k & -> & Hs & Hc & Hpw & Hk).
  set (h1 := h <| drawn := k |> <| CONFIG := c |>).
  assert (good O h1) as Hg1.
  { destruct Hg as [Hr _ Hf]. split; [|done|done]. apply ready_config; [by apply ready_drawn|].
    unfold pair_of. rewrite Hk. apply (rd_config _ _ _ Hr). }
  destruct (runs_encode_current uid okp (compute_permanent_password_h1 pw (salt c))) with (h := h1)
    as (r & h2 & -> & (storage & -> & Hne & Hcur & _) & Hsame & Hr2); [apply len_sha256|by apply good_ready in Hg1|].
  exists storage, h2. rewrite (same_config _ _ Hsame), (same_write _ _ Hsame).
  split_and!; [done|by eapply good_same|done..].
Qed.

(** The pair an operation puts in. *)
Definition pair_in (h : Host) : string * string := (password (CONFIG h), salt (CONFIG h)).

Lemma set_password_good O pw h : good O h →
  let h' := (set_permanent_password BUILTIN_SETTINGS HARD_SETTINGS pw h).2 in
  good (pair_in h' :: O) h'.
Proof.
  intros Hg. unfold set_permanent_password.
  assert (∀ h, good O h → good (pair_in h :: O) h) as Hmono.
  { intros g. apply good_mono. set_solver. }
  destruct (is_disable_change_permanent_password _); [by apply Hmono|].
  destruct (get_preset_password_storage_and_salt _) as [ps pt].
  unfold gets. unfold mbind, host_bind. cbv beta iota.
  destruct (_ && _); [by apply Hmono|].
  assert (∀ storage h1, good O h1 →
    (storage = "" ∨ ∃ d, current_h1 storage = Some d ∧ salt (CONFIG h1) ≠ "") →
    let h' := (update_config (λ c, c <| password := storage |>) h1).2 in
    good (pair_in h' :: O) h') as Hput.
  { intros storage h1 Hg1 Hst h'.
    assert (pair_in h' = (storage, salt (CONFIG h1))) as Hin.
    { unfold h', update_config, modify, gets. unfold mbind, host_bind. cbn.
      destruct (store_bound ((CONFIG h1) <| password := storage |>)
        (h1 <| CONFIG := (CONFIG h1) <| password := storage |> |>))
        as (h2 & -> & _ & Hc & _).
      - apply ready_config; apply Hg1.
      - destruct Hst as [->|(d & Hd & Hs)]; [by left|right; split; [by exists d|done]].
      - apply (good_ready _ _ Hg1).
      - unfold pair_in. cbn. by rewrite Hc. }
    apply (good_update_config O); [set_solver|done| |done]. rewrite Hin. split; cbn.
    - destruct Hst as [->|(d & Hd & Hs)]; [by left|right; split; [by exists d|done]].
    - right. set_solver. }
  destruct (is_empty pw) eqn:Hpw.
  - unfold mret, host_ret. cbv beta iota. destruct (_ ==s _); [by apply Hmono|].
    specialize (Hput "" h Hg (or_introl eq_refl)). revert Hput.
    by destruct (update_config _ h) as [[] h'].
  - destruct (compute_storage O pw h Hg) as (storage & h1 & -> & Hg1 & Hs & _ & Hcur & _).
    cbv beta iota. destruct (_ ==s _); [by apply Hmono|].
    specialize (Hput storage h1 Hg1 (or_intror (ex_intro _ _ (conj Hcur Hs)))). revert Hput.
    by destruct (update_config _ h1) as [[] h'].
Qed.

Lemma sync_good O storage s : keeps O ((storage, s) :: O) (set_permanent_password_storage_for_sync storage s).
Proof.
  apply keeps_gets. intros h Hg.
  assert (good ((storage, s) :: O) h) as Hg' by (eapply good_mono; [|done]; set_solver).
  assert (runs (apply_permanent_password_storage_for_sync (CONFIG h) storage s)
    (λ r, match r with
          | Some (c, true) => from_pairs ((storage, s) :: O) c ∧ key_pair c = key_pair (CONFIG h)
          | _ => True
          end)) as Happly.
  { unfold apply_permanent_password_storage_for_sync.
    destruct (is_empty storage) eqn:Hst.
    - apply runs_ret. destruct (_ && _); [done|]. split; [|by destruct (is_empty s)].
      split; left; by destruct (is_empty s).
    - destruct (is_empty s) eqn:Hs; [by apply runs_ret|].
      eapply runs_step; [apply runs_decode_h1|]. apply runs_ret.
      destruct (current_h1 storage) as [d|] eqn:Hd; [|done]. destruct (_ && _); [done|].
      split; [|done]. apply is_empty_false in Hs. split; [|right; cbn; set_solver].
      right. split; [by exists d|done]. }
  unfold mbind, host_bind.
  destruct (Happly h (good_ready _ _ Hg)) as (r & h1 & -> & Hr & Hsame & Hr1).
  assert (good ((storage, s) :: O) h1) as Hg1 by by eapply good_same.
  destruct r as [[c []]|]; [|done|done]. destruct Hr as [Hfrom Hk].
  assert (good ((storage, s) :: O) (update_config (λ _, c) h1).2) as Hu.
  { apply (good_update_config ((storage, s) :: O)); [done|done|done|].
    by rewrite (same_config _ _ Hsame). }
  revert Hu. by destruct (update_config _ h1) as [[] ?].
Qed.

(** ** Any sequence of operations *)
Inductive Op : Type :=
| SetPassword (pw : string)
| SyncPassword (storage salt : string)
| SetSalt (s : string)
| GetSalt
| EffectiveSalt
| HasPassword
| SetId (i : string)
| GetId
| UpdateId
| SetKeyConfirmed (v : bool)
| SetHostKeyConfirmed (host : string) (v : bool)
| NewTemporaryPassword
| Restart.

Definition run_op (op : Op) (h : Host) : Host :=
  match op with
  | SetPassword pw => (set_permanent_password BUILTIN_SETTINGS HARD_SETTINGS pw h).2
  | SyncPassword storage s => (set_permanent_password_storage_for_sync storage s h).2
  | SetSalt s => (set_salt s h).2
  | GetSalt => (get_salt h).2
  | EffectiveSalt => (get_effective_permanent_password_salt HARD_SETTINGS h).2
  | HasPassword => (has_permanent_password HARD_SETTINGS h).2
  | SetId i => (set_id i h).2
  | GetId => (get_id BUILTIN_SETTINGS mac_address hostname h).2
  | UpdateId => (update_id BUILTIN_SETTINGS mac_address hostname h).2
  | SetKeyConfirmed v => (set_key_confirmed v h).2
  | SetHostKeyConfirmed host v => (set_host_key_confirmed host v h).2
  | NewTemporaryPassword => (update_temporary_password OVERWRITE_SETTINGS DEFAULT_SETTINGS h).2
  | Restart => (restart BUILTIN_SETTINGS mac_address hostname h).2
  end.

(** The password and salt pairs that were introduced together. *)
Definition introduced (op : Op) (h' : Host) : list (string * string) :=
  match op with
  | SetPassword _ => [pair_in h']
  | SyncPassword storage s => [(storage, s)]
  | _ => []
  end.

Fixpoint run_ops (ops : list Op) (O : list (string * string)) (h : Host) :
    list (string * string) * Host :=
  match ops with
  | [] => (O, h)
  | op :: ops => let h' := run_op op h in run_ops ops (introduced op h' ++ O) h'
  end.

Lemma keeps_has_password O : keeps O O (has_permanent_password HARD_SETTINGS).
Proof.
  apply keeps_gets. intros h Hg. unfold get_local_permanent_password_storage_and_salt.
  destruct (negb _); [|done]. revert Hg. generalize (salt (CONFIG h)), (password (CONFIG h)).
  intros sa pw Hg. by apply (keeps_runs O _ _ (runs_usable _ _ _ _)).
Qed.

Lemma run_op_good O op h : good O h → good (introduced op (run_op op h) ++ O) (run_op op h).
Proof.
  intros Hg. destruct op; cbn [introduced run_op app].
  - by apply set_password_good.
  - by apply sync_good.
  - by apply keeps_set_salt.
  - by apply keeps_get_salt.
  - by apply keeps_effective_salt.
  - by apply keeps_has_password.
  - by apply keeps_set_id.
  - by apply keeps_get_id.
  - revert h Hg. change (keeps O O (update_id BUILTIN_SETTINGS mac_address hostname)).
    eapply host_keeps_bind; [apply keeps_get_id|]. intros _.
    eapply host_keeps_bind; [apply keeps_draw|]. intros. apply keeps_set_id.
  - revert h Hg. apply keeps_gets. intros h Hg. case_bool_decide; [done|].
    apply keeps_update_other; [|done]. by destruct v.
  - revert h Hg. apply keeps_gets. intros h Hg. case_bool_decide; [done|].
    by apply keeps_update_other.
  - revert h Hg. change (keeps O O (update_temporary_password OVERWRITE_SETTINGS DEFAULT_SETTINGS)).
    eapply host_keeps_bind.
    + apply keeps_gets. intros h Hg. revert h Hg. intros h.
      generalize (temporary_password_length OVERWRITE_SETTINGS DEFAULT_SETTINGS h). intros n. revert h.
      apply keeps_gets. intros h Hg. destruct (get_bool_option _ _ _ _); by apply keeps_auto.
    + intros p. apply host_keeps_modify. intros h [[] ? ?]. by constructor.
  - by apply keeps_restart.
Qed.

(** (C16) The salt stays with the password hash it was made for: whatever sequence of
    password changes, synchronisations, salt updates, id changes and restarts runs,
    the password in memory and the one in the file is either empty or a hash that
    opens, with a non-empty salt, and the two were introduced together by one
    password change or synchronisation. *)
Theorem salt_bound_to_password ops O h :
  good O h → good (run_ops ops O h).1 (run_ops ops O h).2.
Proof.
  revert O h. induction ops as [|op ops IH]; intros O h Hg; [done|].
  cbn [run_ops]. apply IH. by apply run_op_good.
Qed.

Lemma update_config_file f h : ready h → bound (f (CONFIG h)) →
  key_pair (f (CONFIG h)) = key_pair (CONFIG h) →
  ∃ h', update_config f h = (tt, h') ∧ CONFIG h' = f (CONFIG h) ∧
    (can_write h = true → ∃ c', file h' = Loaded c' ∧ same_but_id (f (CONFIG h)) c').
Proof.
  intros Hr Hb Hk. unfold update_config, modify, gets. unfold mbind, host_bind. cbn.
  assert (pair_of (f (CONFIG h)) = okp) as Hp.
  { unfold pair_of. rewrite Hk. apply (rd_config _ _ _ Hr). }
  destruct (store_bound (f (CONFIG h)) (h <| CONFIG := f (CONFIG h) |>))
    as (h' & -> & _ & Hc & _ & _ & Hf); [by apply ready_config|done|done|].
  exists h'. split_and!; [done|by rewrite Hc|]. cbn in Hf. intros Hw. by rewrite Hw in Hf.
Qed.

(** An accepted password that changed the storage is in memory and in the file. *)
Lemma set_password_writes O pw h h' :
  good O h → can_write h = true → pw ≠ "" →
  set_permanent_password BUILTIN_SETTINGS HARD_SETTINGS pw h = (true, h') →
  password (CONFIG h') ≠ password (CONFIG h) →
  password (CONFIG h') ≠ "" ∧ salt (CONFIG h') ≠ "" ∧
  current_h1 (password (CONFIG h')) = Some (compute_permanent_password_h1 pw (salt (CONFIG h'))) ∧
  (password (load_path default_config (file h')) = password (CONFIG h') ∧
   salt (load_path default_config (file h')) = salt (CONFIG h')) ∧
  good (pair_in h' :: O) h'.
Proof.
  intros Hg Hw Hpw Hset Hch. pose proof (set_password_good O pw h Hg) as Hgood.
  rewrite Hset in Hgood. cbn in Hgood. revert Hset. unfold set_permanent_password.
  destruct (is_disable_change_permanent_password _); [by intros [= <-]|].
  destruct (get_preset_password_storage_and_salt _) as [ps pt].
  unfold gets. unfold mbind, host_bind. cbv beta iota.
  destruct (_ && _); [by intros [= <-]|].
  apply is_empty_false in Hpw as Hpe. rewrite Hpe.
  destruct (compute_storage O pw h Hg) as (storage & h1 & -> & Hg1 & Hs & Hne & Hcur & Hsame & Hw1).
  cbv beta iota. destruct (storage ==s password (CONFIG h1)) eqn:Heq.
  { intros [= <-]. by rewrite Hsame in Hch. }
  destruct (update_config_file (λ c, c <| password := storage |>) h1) as (h2 & -> & Hc2 & Hf2);
    [apply Hg1|right; split; [by eexists|done]|done|].
  intros [= <-]. rewrite Hc2. cbn.
  destruct Hf2 as (c' & -> & Hp' & Hs' & _); [congruence|]. done.
Qed.

(** A permanent password that was accepted and changed the storage is found again
    after a restart, if the files can be written: the same storage and salt, which
    may be used to log in and hold the hash of that password under that salt, and
    the salt sent to a controller is that salt. *)
Theorem permanent_password_survives_restart O pw h h' :
  good O h → can_write h = true → pw ≠ "" →
  set_permanent_password BUILTIN_SETTINGS HARD_SETTINGS pw h = (true, h') →
  password (CONFIG h') ≠ password (CONFIG h) →
  let hr := (restart BUILTIN_SETTINGS mac_address hostname h').2 in
  let storage := password (CONFIG hr) in
  pair_in hr = pair_in h' ∧
  (local_permanent_password_storage_is_usable_for_auth storage (salt (CONFIG hr)) hr).1 = true ∧
  (decode_permanent_password_h1_from_storage storage hr).1
    = Some (compute_permanent_password_h1 pw (salt (CONFIG hr))) ∧
  (get_effective_permanent_password_salt HARD_SETTINGS hr).1 = salt (CONFIG hr).
Proof.
  intros Hg Hw Hpw Hset Hch hr storage.
  destruct (set_password_writes O pw h h') as (Hne & Hs & Hcur & Hfile & Hg'); [done..|].
  destruct (restart_bound h') as (c & g & E & Hr & Hc & _ & _ & Hsc & _).
  { apply Hg'. }
  { apply Hg'. }
  subst storage hr. rewrite E. cbn [snd]. rewrite Hc. destruct Hfile as (Hfp & Hfs).
  destruct Hsc as (Hcp & Hcs & _).
  assert (password c = password (CONFIG h')) as Ep by congruence.
  assert (salt c = salt (CONFIG h')) as Es by congruence.
  unfold pair_in. rewrite Hc, Ep, Es.
  assert (usable uid okp (password (CONFIG h')) (salt (CONFIG h')) = true) as Hus.
  { unfold usable. rewrite Hcur. apply is_empty_false in Hne, Hs. by rewrite Hne, Hs. }
  split_and!; [done| | |].
  - destruct (runs_usable uid okp (password (CONFIG h')) (salt (CONFIG h')) g Hr) as (r & g' & -> & <- & _). done.
  - destruct (runs_decode_h1 uid okp (password (CONFIG h')) g Hr) as (r & g' & -> & <- & _). by rewrite Hcur.
  - unfold get_effective_permanent_password_salt, get_local_permanent_password_storage_and_salt, gets.
    unfold mbind, host_bind. rewrite Hc, Ep, Es. apply is_empty_false in Hne. rewrite Hne. cbn [negb].
    destruct (runs_usable uid okp (password (CONFIG h')) (salt (CONFIG h')) g Hr) as (r & g' & -> & <- & Hsame & _).
    rewrite Hus. cbv iota. unfold get_salt, gets. unfold mbind, host_bind.
    rewrite (same_config _ _ Hsame), Hc, Es. apply is_empty_false in Hs. by rewrite Hs.
Qed.

(** ** The settings' own secrets *)
Lemma runs_map_socks {A} (d : A) f c (P : string → string * A → Prop) :
  (∀ p, runs (f p) (P p)) →
  runs (Config2.map_socks_password d f c) (λ r,
    match TransportConfig.TransportConfig.socks (net c) with
    | None => r = (c, d)
    | Some s =>
        ∃ q, P (TransportConfig.TransportConfig.socks_password s) (q, r.2) ∧
          r.1 = c <| net := TransportConfig.TransportConfig.with_socks (net c)
              (Some (TransportConfig.TransportConfig.mkSocks
                (TransportConfig.TransportConfig.proxy s)
                (TransportConfig.TransportConfig.socks_username s) q)) |>
    end).
Proof.
  intros Hf. unfold Config2.map_socks_password.
  destruct (TransportConfig.TransportConfig.socks (net c)) as [s|]; [|by apply runs_ret].
  eapply runs_bind; [apply Hf|]. intros [q a] Hq. apply runs_ret. by exists q.
Qed.

(** The secrets of the settings can be stored whole. *)
Definition storable_settings (c : Config2) : Prop :=
  storable (unlock_pin c) ∧
  match TransportConfig.TransportConfig.socks (net c) with
  | Some s => storable (TransportConfig.TransportConfig.socks_password s)
  | None => True
  end.

(** [e] is how the settings [c] are stored. *)
Definition stores_settings (c e : Config2) : Prop :=
  stores uid okp (unlock_pin c) (unlock_pin e) ∧
  ∃ so, e = c <| unlock_pin := unlock_pin e |>
              <| net := TransportConfig.TransportConfig.with_socks (net c) so |> ∧
  match TransportConfig.TransportConfig.socks (net c), so with
  | None, None => True
  | Some s, Some s' =>
      TransportConfig.TransportConfig.proxy s' = TransportConfig.TransportConfig.proxy s ∧
      TransportConfig.TransportConfig.socks_username s' = TransportConfig.TransportConfig.socks_username s ∧
      stores uid okp (TransportConfig.TransportConfig.socks_password s)
        (TransportConfig.TransportConfig.socks_password s')
  | _, _ => False
  end.

Lemma with_socks_same n o : TransportConfig.TransportConfig.socks n = o →
  TransportConfig.TransportConfig.with_socks n o = n.
Proof. intros <-. by destruct n. Qed.

Lemma ready_file2 h f : ready h → ready (h <| file2 := f |>).
Proof. intros []. by constructor. Qed.

Lemma store_settings c stored h :
  ready h → can_write h = true → storable_settings c →
  try_load_path_for_store default_config2 (file2 h) = Some stored →
  ∃ e h', Config2.store c h = (tt, h') ∧ ready h' ∧ file2 h' = Loaded e ∧
    stores_settings (c <| trusted_devices_v2_field :=
        match Config2.trusted_devices_v2 stored with
        | Some _ => trusted_devices_v2_field stored
        | None => None
        end |> <| trusted_devices := trusted_devices stored |>) e.
Proof.
  intros Hr Hw [Hpin Hsocks] Hst. unfold Config2.store, gets. unfold mbind, host_bind.
  rewrite Hst. cbv zeta.
  set (v2 := match Config2.trusted_devices_v2 stored with Some _ => _ | None => None end).
  set (c1 := c <| trusted_devices_v2_field := v2 |> <| trusted_devices := trusted_devices stored |>).
  destruct (runs_map_socks tt
    (λ p, p ← keep_encrypted_storage_if_plaintext_unchanged p (Config2.stored_socks_password stored);
          mret (p, tt)) c1 (λ p r, storable p → stores uid okp p r.1)) with (h := h)
    as ([c2 []] & h1 & E & Hc2 & Hs1 & Hr1); [|done|].
  { intros p. destruct (decide (is_utf8 p = true ∧ is_encrypted (as_bytes p) = false ∧ chars_count p ≤ ENCRYPT_MAX_LEN)) as [Hp|Hp].
    - eapply runs_bind; [by apply runs_keep|]. intros q Hq. by apply runs_ret.
    - intros g Hg. unfold mbind, host_bind.
      assert (runs (keep_encrypted_storage_if_plaintext_unchanged p (Config2.stored_socks_password stored)) (λ _, True)) as Hany.
      { eapply runs_step; [apply runs_decrypt_str|]. destruct (plain_str _) as [[??]?].
        destruct (_ && _); [by apply runs_ret|apply runs_encrypt_any]. }
      destruct (Hany g Hg) as (q & g' & -> & _ & ? & ?). eexists _, _. split_and!; done. }
  unfold mbind, host_bind in E. rewrite E. clear E.
  destruct (runs_keep uid okp (unlock_pin c2) (unlock_pin stored)) with (h := h1)
    as (pin & h2 & -> & Hpin2 & Hs2 & Hr2).
  { cbn in Hc2. destruct (TransportConfig.TransportConfig.socks (net c)) as [so|]; [destruct Hc2 as (q & _ & ->)|apply (f_equal fst) in Hc2; cbn in Hc2; subst c2]; done. }
  { done. }
  unfold Config2.store_path. rewrite (same_write _ _ Hs2), (same_write _ _ Hs1), Hw. cbv beta iota.
  eexists _, _. split_and!; [done|by apply ready_file2|done|].
  cbn in Hc2. unfold stores_settings. subst c1. cbn. cbn in Hsocks.
  destruct (TransportConfig.TransportConfig.socks (net c)) as [so|] eqn:Hso.
  - destruct Hc2 as (q & Hq & ->). split; [exact Hpin2|]. eexists. split; [done|]. cbn. split_and!; auto.
  - apply (f_equal fst) in Hc2. cbn in Hc2. subst c2. split; [exact Hpin2|]. exists None. split; [|done]. cbn.
    rewrite with_socks_same by done. by destruct c.
Qed.

(** Settings are read back as they were written: when files can be written, the
    PIN and the proxy password are texts of at most 128 characters that do not look
    sealed, and the old file could be read or is discarded as damaged, then loading
    gives the same settings, with the trusted-device grants that were on disk. *)
Theorem settings_survive_restart c stored h h' hr :
  ready h → can_write h = true → storable_settings c →
  try_load_path_for_store default_config2 (file2 h) = Some stored →
  Config2.store c h = (tt, h') → ready hr → file2 hr = file2 h' →
  (Config2.load hr).1 = c
    <| trusted_devices_v2_field :=
         match Config2.trusted_devices_v2 stored with
         | Some _ => trusted_devices_v2_field stored
         | None => None
         end |>
    <| trusted_devices := trusted_devices stored |>.
Proof.
  intros Hr Hw Hsc Hst Hstore Hrr Hf.
  destruct (store_settings c stored h Hr Hw Hsc Hst) as (e & h1 & E & _ & Hfe & Hse).
  rewrite E in Hstore. injection Hstore as <-. rewrite Hfe in Hf. clear E Hsc Hst Hw Hr.
  set (c1 := c <| trusted_devices_v2_field := _ |> <| trusted_devices := _ |>) in *.
  destruct Hse as (Hpin & so & He & Hso).
  unfold Config2.load, gets. unfold mbind, host_bind. rewrite Hf. cbn [load_path].
  destruct (runs_map_socks false
    (λ p, '(plain, _, store2) ← decrypt_str_or_original p PASSWORD_ENC_VERSION; mret (plain, store2))
    e (λ p r, r = ((plain_str p).1.1, (plain_str p).2))) with (h := hr)
    as ([c2 st1] & h2 & E & Hc2 & Hs & Hr2); [|done|].
  { intros p. eapply runs_step; [apply runs_decrypt_str|]. destruct (plain_str p) as [[??]?].
    by apply runs_ret. }
  unfold mbind, host_bind in E. rewrite E. clear E.
  clearbody c1. destruct c1 as [rv nt sr pin tds tv [s1 vl ss op]], e as [rve nte sre pine tdse tve nete].
  cbn in He, Hpin, Hso. injection He as -> -> -> -> -> ->. cbn in Hc2.
  assert (st1 = false ∧ c2 = mkConfig2 rv nt sr pine tds tv (TransportConfig.TransportConfig.mkConfig2 s1 vl ss op)) as [-> ->].
  { destruct s1 as [s1|], so as [s2|]; try done.
    - destruct Hc2 as (q & Hq & ->), Hso as (Hpx & Hun & Hst2).
      destruct (stores_plain _ _ _ _ Hst2) as (en & ag & Epl & ->). rewrite Epl in Hq.
      injection Hq as -> ->. split; [done|]. cbn. rewrite Hpx, Hun. by destruct s1.
    - by injection Hc2 as -> ->. }
  destruct (runs_decrypt_str uid okp pine h2 Hr2) as (r & h3 & Ed & <- & _ & _).
  cbn [unlock_pin]. rewrite Ed.
  destruct (stores_plain _ _ _ _ Hpin) as (en & ag & -> & ->). done.
Qed.

(** ** Grants and ordinary settings *)

Lemma quiet_crypt data b : quiet (symmetric_crypt data b).
Proof. unfold symmetric_crypt, get_uuid, get_key_pair, get_existing_key_pair, load_. quiet. Qed.
#[local] Hint Resolve quiet_crypt : quiet.

Lemma quiet_decrypt_str s v : quiet (decrypt_str_or_original s v).
Proof.
  unfold decrypt_str_or_original, decrypt.
  quiet.
Qed.
#[local] Hint Resolve quiet_decrypt_str : quiet.

Lemma quiet_keep plain stored : quiet (keep_encrypted_storage_if_plaintext_unchanged plain stored).
Proof.
  unfold keep_encrypted_storage_if_plaintext_unchanged, encrypt_str_or_original, encrypt.
  quiet.
Qed.

Lemma quiet_map_socks {A} (d : A) f c : (∀ p, quiet (f p)) → quiet (Config2.map_socks_password d f c).
Proof. intros Hf. unfold Config2.map_socks_password. repeat (quiet_step || apply Hf). Qed.

Definition grants_of (c : Config2) : string * option TomlValue :=
  (trusted_devices c, trusted_devices_v2_field c).

Lemma map_socks_grants {A} (d : A) f c h :
  grants_of (Config2.map_socks_password d f c h).1.1 = grants_of c.
Proof.
  unfold Config2.map_socks_password. destruct (TransportConfig.TransportConfig.socks (net c)); [|done].
  unfold mbind, host_bind. by destruct (f _ h) as [[q a] h'].
Qed.

Lemma store_keeps_grants c g h :
  Config2.get_trusted_device_stores h = Some g →
  Config2.get_trusted_device_stores (Config2.store c h).2 = Some g.
Proof.
  unfold Config2.get_trusted_device_stores at 1. intros Hg.
  destruct (try_load_path default_config2 (file2 h)) as [stored|] eqn:Hl; [|done].
  cbn in Hg. destruct (Config2.trusted_devices_v2 stored) as [cur|] eqn:Hv; [|done].
  cbn in Hg. injection Hg as <-.
  unfold Config2.store, gets. unfold mbind, host_bind.
  assert (try_load_path_for_store default_config2 (file2 h) = Some stored) as ->.
  { by destruct (file2 h). }
  cbv zeta. rewrite Hv.
  set (c1 := c <| trusted_devices_v2_field := _ |> <| trusted_devices := _ |>).
  match goal with |- context [Config2.map_socks_password tt ?f c1 h] =>
    pose proof (quiet_map_socks tt f c1) as Hq; pose proof (map_socks_grants tt f c1 h) as Hgr end.
  cbv beta in Hq, Hgr. specialize (Hq ltac:(intros; apply quiet_bind; [apply quiet_keep|intros; apply quiet_ret]) h) as [Hf1 _].
  destruct (Config2.map_socks_password _ _ c1 h) as [[c2 []] h1]. cbn in Hf1, Hgr.
  pose proof (quiet_keep (unlock_pin c2) (unlock_pin stored) h1) as [Hf2 _].
  destruct (keep_encrypted_storage_if_plaintext_unchanged _ _ h1) as [pin h2]. cbn in Hf2.
  unfold Config2.store_path. destruct (can_write h2); cbn.
  - unfold Config2.get_trusted_device_stores. cbn.
    injection Hgr as Ht Hv2. unfold Config2.trusted_devices_v2 in *. cbn. rewrite Hv2. cbn.
    rewrite Hv. cbn. by rewrite Ht.
  - unfold Config2.get_trusted_device_stores. rewrite Hf2, Hf1, Hl. cbn. by rewrite Hv.
Qed.

Lemma grants_congr h h' : file2 h' = file2 h →
  Config2.get_trusted_device_stores h' = Config2.get_trusted_device_stores h.
Proof. unfold Config2.get_trusted_device_stores. by intros ->. Qed.

(** The operations on ordinary settings: a change of any fields in memory, the whole
    settings sent by another process, and a new process. *)
Inductive SettingsOp : Type :=
| Change (f : Config2 → Config2)
| SetAll (c : Config2)
| Reload.

Definition run_settings (op : SettingsOp) (h : Host) : Host :=
  match op with
  | Change f => (Config2.update f h).2
  | SetAll c => (Config2.set c h).2
  | Reload =>
      let '(c, h) := Config2.load h in h <| CONFIG2 := c |>
  end.

Lemma update_keeps_grants f g h :
  Config2.get_trusted_device_stores h = Some g →
  Config2.get_trusted_device_stores (Config2.update f h).2 = Some g.
Proof. intros Hg. apply store_keeps_grants. by rewrite (grants_congr h). Qed.

Lemma run_settings_grants op g h :
  Config2.get_trusted_device_stores h = Some g →
  Config2.get_trusted_device_stores (run_settings op h) = Some g.
Proof.
  intros Hg. destruct op as [f|c|]; cbn [run_settings].
  - by apply update_keeps_grants.
  - unfold Config2.set, gets. unfold mbind, host_bind. case_bool_decide; [done|].
    pose proof (update_keeps_grants (λ _, c) g h Hg) as Hu. by destruct (Config2.update _ h) as [[] h'].
  - assert (Config2.get_trusted_device_stores (Config2.load h).2 = Some g) as Hl.
    { unfold Config2.load, gets. unfold mbind, host_bind.
      match goal with |- context [Config2.map_socks_password false ?f ?c h] =>
        pose proof (quiet_map_socks false f c) as Hq end.
      specialize (Hq ltac:(intros; apply quiet_bind; [apply quiet_decrypt_str|intros [[??]?]; apply quiet_ret]) h) as [Hf1 _].
      unfold mbind, host_bind in Hf1.
      destruct (Config2.map_socks_password _ _ _ h) as [[c2 st1] h1]. cbn in Hf1.
      pose proof (quiet_decrypt_str (unlock_pin c2) PASSWORD_ENC_VERSION h1) as [Hf2 _].
      destruct (decrypt_str_or_original _ _ h1) as [[[pin d] st2] h2]. cbn in Hf2.
      assert (Config2.get_trusted_device_stores h2 = Some g) as Hg2 by (rewrite (grants_congr h); [done|congruence]).
      destruct (_ || _); [|done].
      match goal with |- context [Config2.store ?c h2] =>
        pose proof (store_keeps_grants c g h2 Hg2) as Hst; by destruct (Config2.store c h2) as [[] h3] end. }
    destruct (Config2.load h) as [c h1]. cbn in Hl. by rewrite <- Hl.
Qed.

Lemma set_grants_stores value h h' :
  Config2.set_trusted_devices_v2 value h = (true, h') →
  Config2.get_trusted_device_stores h' = Some (value, "").
Proof.
  unfold Config2.set_trusted_devices_v2, Config2.sync_trusted_devices.
  set (field := if is_empty value then None else Some (TomlString value)).
  assert (∀ c, trusted_devices_v2_field c = field → Config2.trusted_devices_v2 c = Some value) as Hf.
  { intros c Hc. unfold Config2.trusted_devices_v2. rewrite Hc. subst field.
    destruct (is_empty value) eqn:Hv; [|done]. by apply is_empty_true in Hv as ->. }
  rewrite (Hf (default_config2 <| trusted_devices_v2_field := field |>)) by done.
  unfold gets, modify. unfold mbind, host_bind.
  destruct (try_load_path default_config2 (file2 h)) as [stored|] eqn:Hl; [|done].
  case_bool_decide as Hsame.
  - intros [= <-]. unfold Config2.get_trusted_device_stores. cbn. rewrite Hl. cbn.
    rewrite (Hf stored) by by rewrite <- Hsame. cbn. by rewrite <- Hsame.
  - unfold Config2.store_path. destruct (can_write h); [|done]. intros [= <-].
    unfold Config2.get_trusted_device_stores. cbn. by rewrite Hf.
Qed.

(** Trusted-device grants are only changed on purpose: once grants were written -
    an empty text revokes all - no later change of settings, not even one from a stale
    copy in another process, nor a restart, alters what is stored; and the legacy
    store stays empty. *)
Theorem grants_survive_settings value h h' ops :
  Config2.set_trusted_devices_v2 value h = (true, h') →
  Config2.get_trusted_device_stores (foldl (λ h op, run_settings op h) h' ops) = Some (value, "").
Proof.
  intros Hg%set_grants_stores. revert h' Hg. induction ops as [|op ops IH]; intros h' Hg; [done|].
  cbn. apply IH. by apply run_settings_grants.
Qed.

End Proofs.

(** ** Examples *)
Module Examples.
Import Toy.

Definition machine : bytes := as_bytes "machine-id".
Definition fresh_host : Host :=
  mkHost default_config None None "" default_config2 [] NotFound NotFound (Some machine) true 0.

Lemma fresh_good : good machine None [] fresh_host.
Proof. split; [split; cbn; auto|by split; left..]. Qed.

Definition ops : list Op :=
  [GetSalt; SetPassword "secret"; SetSalt "other"; Restart; SetId "1"; SetPassword "next"; Restart].

Lemma salt_bound_to_password_witness :
  good machine None [] fresh_host ∧
  good machine None (run_ops ∅ ∅ ∅ ∅ None None ops [] fresh_host).1
    (run_ops ∅ ∅ ∅ ∅ None None ops [] fresh_host).2 ∧
  length (run_ops ∅ ∅ ∅ ∅ None None ops [] fresh_host).1 = 2%nat.
Proof.
  split; [exact fresh_good|]. split; [apply (salt_bound_to_password ∅ ∅ ∅ ∅ None None machine None ops [] fresh_host); exact fresh_good|].
  reflexivity.
Defined.

Definition with_password : Host := (set_permanent_password ∅ ∅ "secret" fresh_host).2.

Lemma permanent_password_survives_restart_witness :
  let hr := (restart ∅ None None with_password).2 in
  pair_in hr = pair_in with_password ∧
  (local_permanent_password_storage_is_usable_for_auth (password (CONFIG hr)) (salt (CONFIG hr)) hr).1 = true ∧
  (decode_permanent_password_h1_from_storage (password (CONFIG hr)) hr).1
    = Some (compute_permanent_password_h1 "secret" (salt (CONFIG hr))) ∧
  (get_effective_permanent_password_salt ∅ hr).1 = salt (CONFIG hr).
Proof.
  apply (permanent_password_survives_restart ∅ ∅ None None machine None [] "secret" fresh_host with_password).
  - exact fresh_good.
  - reflexivity.
  - discriminate.
  - vm_compute. reflexivity.
  - vm_compute. discriminate.
Defined.

Definition some_settings : Config2 := default_config2
  <| unlock_pin := "1234" |>
  <| net := TransportConfig.TransportConfig.with_socks (net default_config2)
      (Some (TransportConfig.TransportConfig.mkSocks "proxy" "user" "pass")) |>.

Lemma settings_survive_restart_witness :
  let h' := (Config2.store some_settings fresh_host).2 in
  (Config2.load (fresh_host <| file2 := file2 h' |>)).1 = some_settings.
Proof.
  apply (settings_survive_restart machine None some_settings default_config2 fresh_host
    (Config2.store some_settings fresh_host).2).
  - apply fresh_good.
  - reflexivity.
  - split; (split; [reflexivity|split; [reflexivity|vm_compute; discriminate]]).
  - reflexivity.
  - vm_compute. reflexivity.
  - destruct fresh_good as [[] _ _]. by constructor.
  - reflexivity.
Defined.

Lemma grants_survive_settings_witness :
  Config2.get_trusted_device_stores
    (foldl (λ h op, run_settings op h)
      (Config2.set_trusted_devices_v2 "" fresh_host).2
      [SetAll (default_config2 <| trusted_devices_v2_field := Some (TomlString "old grants") |>); Reload])
  = Some ("", "").
Proof. apply (grants_survive_settings "" fresh_host). reflexivity. Defined.

(** A hash sealed by another machine - or by this one before its id changed - is
    taken for a plain password: the stored text itself may be used to log in. *)
Definition elsewhere : Host := fresh_host <| machine_uid := Some (as_bytes "another-machine") |>.
Example foreign_hash_is_usable :
  let '(storage, s) := pair_in with_password in
  (decode_permanent_password_h1_from_storage storage elsewhere).1 = None ∧
  (local_permanent_password_storage_is_usable_for_auth storage s elsewhere).1 = true ∧
  starts_with PERMANENT_PASSWORD_ENC_VERSION storage = true.
Proof. vm_compute. auto. Qed.

(** A PIN of more than 128 characters is stored as no PIN at all. *)
Example long_pin_is_lost :
  let pin := of_bytes (replicate 129 "x"%byte) in
  let h' := (Config2.store (default_config2 <| unlock_pin := pin |>) fresh_host).2 in
  unlock_pin (Config2.load h').1 = "".
Proof. vm_compute. reflexivity. Qed.
End Examples.
