(* ===== verification/TrustedDevices.v ===== *)
(** * Trusted devices: skipping the second factor with a token

    [client/src/trusted_devices/] (policy, storage, config, legacy, authority,
    management, host and mod) and [TOTPInfo] of [auth_2fa.rs].  A device that passed
    the second factor may be given a token; the host keeps its hash in sealed
    grants, bound to a digest of the password, salt and 2FA settings (the scope) and
    to a generation that every revocation replaces.

    The state is the [Host] of Secrets.v.  An operation holds the grants' lock from
    start to end, so it is one step; its clock readings are one [now].  The lock is
    never poisoned here.  JSON and TOTP are libraries ([Json], [TotpLib]); a [Result]
    carries the message, or [Unavailable] where the code wraps it so. *)
From S2P Require Import Prelude RustStd RecordUpdate Secrets ConfigStore Config2Store.
From S2P Require TransportConfig.
From Stdlib Require Import Ascii.

Module TrustedDevices.
Export ConfigStore.

Definition TOKEN_BYTES : Z := 32.
Definition MAX_RECORDS : nat := 128.

Record DeviceInfo : Type := mkInfo {
  time : Z;
  expires_at : option Z;
  device_id : string;
  device_name : string;
  platform : string;
}.
#[export] Instance eta_info : Eta DeviceInfo := λ i, mkInfo (time i) (expires_at i)
  (device_id i) (device_name i) (platform i).
#[export] Instance info_eq_dec : EqDecision DeviceInfo.
Proof. solve_decision. Defined.

(** [Record] of the source. *)
Record Grant : Type := mkGrant {
  verifier : bytes;
  info : DeviceInfo;
  legacy : bool;
  origin : option bytes;
}.
#[export] Instance eta_grant : Eta Grant := λ r, mkGrant (verifier r) (info r) (legacy r) (origin r).
#[export] Instance grant_eq_dec : EqDecision Grant.
Proof. solve_decision. Defined.

Record Grants : Type := mkGrants {
  scope : option bytes;
  generation : bytes;
  records : list Grant;
}.
#[export] Instance eta_grants : Eta Grants := λ g, mkGrants (scope g) (generation g) (records g).

Record Ticket : Type := mkTicket { ticket_scope : bytes; ticket_generation : bytes }.

Definition default_generation : bytes := replicate 32 Byte.x00.
Definition default_grants : Grants := mkGrants None default_generation [].

Inductive Credential : Type := Token (v : bytes) | Legacy (v : bytes).

(** [anyhow::Error], with what [error.is::<Unavailable>()] tests. *)
Inductive Error : Type := Unavailable (why : string) | Other (why : string).
Definition why (e : Error) : string := match e with Unavailable w | Other w => w end.
Definition is_unavailable (e : Error) : bool :=
  match e with Unavailable _ => true | Other _ => false end.

(** ** Libraries *)
Record TOTPInfo : Type := mkTOTP {
  totp_name : string;
  totp_secret : bytes;
  totp_digits : Z;
  totp_created_at : Z;
}.

Class Json : Type := {
  grants_to_json : Grants → bytes;
  grants_from_json : bytes → option Grants;
  scope_to_json : option bytes * string * string * bool → bytes;
  legacy_key_to_json : bytes * string * string * string → bytes;
  legacy_devices_from_json : string → option (list (bytes * DeviceInfo));
  totp_from_json : string → option TOTPInfo;
}.
Class JsonLaws `{!Json} : Prop := {
  grants_json_round_trip g : grants_from_json (grants_to_json g) = Some g;
}.

(** [TOTP::new] of the digits, secret and name; [check_current] of a code. *)
Class TotpLib : Type := {
  TOTP : Type;
  totp_new : Z → bytes → string → option TOTP;
  check_current : TOTP → string → Z → option bool;
}.

(** [randombytes_into] of a token. *)
Class Tokens : Type := {
  random_bytes : nat → bytes;
  len_random_bytes n : len (random_bytes n) = TOKEN_BYTES;
}.

(** ** Code that can fail *)
Definition TD (A : Type) : Type := Host → result A Error * Host.
#[export] Instance td_ret : MRet TD := λ A a h, (Ok a, h).
#[export] Instance td_bind : MBind TD := λ A B k m h,
  match m h with (Ok a, h) => k a h | (Err e, h) => (Err e, h) end.

Definition fail {A} (e : Error) : TD A := λ h, (Err e, h).
Definition bail {A} (w : string) : TD A := fail (Other w).
Definition lift {A} (m : HostM A) : TD A := λ h, let '(a, h) := m h in (Ok a, h).
Definition of_option {A} (w : string) (o : option A) : TD A :=
  match o with Some a => mret a | None => bail w end.
(** [m.map_err(Unavailable)] *)
Definition unavailable {A} (m : TD A) : TD A := λ h,
  match m h with (Ok a, h) => (Ok a, h) | (Err e, h) => (Err (Unavailable (why e)), h) end.
(** The result as a value. *)
Definition attempt {A} (m : TD A) : TD (result A Error) := λ h, let '(r, h) := m h in (Ok r, h).

(** ** Grants *)
Section Grants.
Context `{!Crypto}.

(** [Record::id] *)
Definition grant_id (r : Grant) : bytes := sha256 (default (verifier r) (origin r)).

Definition current (now : Z) (r : Grant) : bool :=
  (time (info r) <=? now) &&
  match expires_at (info r) with
  | Some expiry => (expiry =? 0) || (now <? expiry)
  | None => false
  end.

Definition matches_scope (g : Grants) (s : bytes) : bool := bool_decide (scope g = Some s).

Definition begin_ticket (g : Grants) (s : bytes) : option Ticket :=
  if matches_scope g s then Some (mkTicket s (generation g)) else None.

Definition check_ticket (g : Grants) (t : Ticket) : bool :=
  matches_scope g (ticket_scope t) && bool_decide (generation g = ticket_generation t).

(** [None] is the error of [check_ticket]. *)
Definition verify_digest (g : Grants) (t : Ticket) (v : option bytes) (now : Z) : option bool :=
  if negb (check_ticket g t) then None
  else Some (match v with
             | None => false
             | Some v => existsb (λ r, negb (legacy r) && current now r
                                         && bool_decide (verifier r = v)) (records g)
             end).

(** [sort_by_key(time)], which is stable. *)
Fixpoint insert_by_time (r : Grant) (l : list Grant) : list Grant :=
  match l with
  | [] => [r]
  | x :: l => if time (info r) <=? time (info x) then r :: x :: l else x :: insert_by_time r l
  end.
Definition sort_by_time (l : list Grant) : list Grant := foldr insert_by_time [] l.

(** Dropping the first [excess] records that are not legacy. *)
Fixpoint evict (excess : nat) (l : list Grant) : list Grant :=
  match l, excess with
  | [], _ => []
  | r :: l, S n => if legacy r then r :: evict excess l else evict n l
  | l, O => l
  end.

Definition modern (l : list Grant) : list Grant := filter (λ r, legacy r = false) l.

(** The cleaned grants, and whether any record went. *)
Definition cleanup (now : Z) (g : Grants) : Grants * bool :=
  let l := sort_by_time (filter (λ r, current now r = true) (records g)) in
  let l := evict (length (modern l) - MAX_RECORDS) l in
  (g <| records := l |>, negb (bool_decide (length (records g) = length l))).

Definition enroll_digest (g : Grants) (t : Ticket) (v : bytes) (i : DeviceInfo) : option Grants :=
  if negb (check_ticket g t) then None
  else
    let l := if is_empty (device_id i) then records g
             else filter (λ r, device_id (info r) ≠ device_id i) (records g) in
    Some (cleanup (time i) (g <| records := l ++ [mkGrant v i false None] |>)).1.

(** ** Legacy records *)
Definition verify_legacy (g : Grants) (t : Ticket) (v : option bytes) (now : Z) : option bool :=
  if negb (check_ticket g t) then None
  else Some (match v with
             | None => false
             | Some v => existsb (λ r, legacy r && current now r && bool_decide (verifier r = v))
                           (records g)
             end).

Definition migration_source (g : Grants) (t : Ticket) (v : bytes) (now : Z) : option (option Grant) :=
  if negb (check_ticket g t) then None
  else Some (find (λ r, current now r &&
    ((legacy r && bool_decide (verifier r = v)) || bool_decide (origin r = Some v))) (records g)).

(** [grants.migrate(ticket, (legacy, verifier))]; [None] is either error. *)
Definition migrate (g : Grants) (t : Ticket) (lv v : bytes) (now : Z) : option Grants :=
  source ← migration_source g t lv now;
  r ← source;
  Some (cleanup now (g <| records := records g ++
    [mkGrant v ((info r) <| time := now |>) false (Some lv)] |>)).1.

(** The grants without the legacy record [v] was migrated from, and whether it went. *)
Definition confirm_migration (g : Grants) (v : bytes) : Grants * bool :=
  match (r ← find (λ r, negb (legacy r) && bool_decide (verifier r = v)) (records g); origin r) with
  | None => (g, false)
  | Some o =>
      let l := filter (λ r, legacy r = false ∨ verifier r ≠ o) (records g) in
      (g <| records := l |>, negb (bool_decide (length (records g) = length l)))
  end.

(** ** Expiry *)
Definition DEFAULT_DAYS : Z := 90.
Definition NEVER_EXPIRE : Z := 0.
Definition DAY_MILLIS : Z := 24 * 60 * 60 * 1000.
Definition LEGACY_DAYS : Z := 90.

Definition days (options : gmap string string) : Z :=
  match options !! "trusted-device-expiration-days" with
  | None => DEFAULT_DAYS
  | Some v =>
      if (v ==s "") || (v ==s "90") then DEFAULT_DAYS
      else if v ==s "1" then 1
      else if v ==s "7" then 7
      else if v ==s "30" then 30
      else if v ==s "0" then NEVER_EXPIRE
      else DEFAULT_DAYS
  end.

Definition expires_after (time days : Z) : Z :=
  if days =? NEVER_EXPIRE then 0 else saturating_add i64_max time (days * DAY_MILLIS).

Definition lower_expiry (expiry : Z) (r : Grant) : Grant :=
  match expires_at (info r) with
  | None => r
  | Some previous =>
      let next := if (expiry =? 0) || (previous =? 0) then expiry else Z.min previous expiry in
      r <| info := (info r) <| expires_at := Some next |> |>
  end.

Definition update_expiration (days now : Z) (g : Grants) : Grants * bool :=
  let '(g, changed) := cleanup now g in
  let l := lower_expiry (expires_after now days) <$> records g in
  (g <| records := l |>, changed || negb (bool_decide (l = records g))).

End Grants.

(** ** The host *)
Record Snapshot : Type := mkSnapshot {
  snap_scope : bytes;
  snap_h1 : option bytes;
  snap_salt : string;
  snap_totp : string;
  enabled : bool;
  validity_days : Z;
}.

Record LoginProof : Type := mkProof {
  proof_password : bytes;
  proof_challenge : string;
  proof_salt : string;
  proof_token : bytes;
  proof_legacy : option bytes;
  supports_v2 : bool;
}.

Record Attempt : Type := mkAttempt {
  ticket : Ticket;
  credential : option Credential;
  enroll : bool;
}.

Section Host.
Context `{!Crypto, !Entropy, !Json, !TotpLib, !Tokens}.
Context (OVERWRITE_SETTINGS DEFAULT_SETTINGS BUILTIN_SETTINGS HARD_SETTINGS : gmap string string).
(** [get_time()] *)
Variable now : Z.

#[local] Abbreviation options_of c := (TransportConfig.TransportConfig.options (net c)).

Definition AUTH_OPTIONS : list string := ["2fa"; "enable-trusted-devices"].

Definition effective_options (o : gmap string string) : gmap string string :=
  OVERWRITE_SETTINGS ∪ (o ∪ DEFAULT_SETTINGS).
(** [Config::get_options()] *)
Definition get_options (h : Host) : gmap string string := effective_options (options_of (CONFIG2 h)).

Definition authentication_changed (old new : gmap string string) : bool :=
  existsb (λ key, negb (bool_decide (old !! key = new !! key))) AUTH_OPTIONS.

Definition changes_authentication (o : gmap string string) (h : Host) : bool :=
  let old := get_options h in
  let new := effective_options o in
  authentication_changed old new || negb (days old =? days new).

(** *** The settings the grants depend on *)

(** [read(path)]: a missing file is the default, any other failure an error. *)
Definition read_settings {T} (d : T) (f : Stored T) : TD T :=
  match f with
  | Loaded v => mret v
  | NotFound => mret d
  | BadTomlData => bail "Read trusted-device authentication settings"
  | InvalidData | ReadError => bail "Open trusted-device authentication settings"
  end.

Definition normalize (pw s : string) (on_disk : bool) : HostM (option bytes * string) :=
  pw ← (if on_disk && starts_with "00" pw then
          '(plain, decrypted, _) ← decrypt_str_or_original pw "00";
          mret (if decrypted : bool then plain else pw)
        else mret pw);
  if negb (is_empty pw) then
    usable ← local_permanent_password_storage_is_usable_for_auth pw s;
    if negb usable then mret (None, s)
    else
      h1 ← decode_permanent_password_h1_from_storage pw;
      mret (Some (default (compute_permanent_password_h1 pw s) h1), s)
  else
    let '(preset, preset_salt) := get_preset_password_storage_and_salt HARD_SETTINGS in
    mret (if negb (preset_permanent_password_storage_is_usable_for_auth preset preset_salt)
          then (None, s)
          else if is_empty preset_salt then (Some (compute_permanent_password_h1 preset s), s)
          else (decode_preset_password_h1_from_storage preset, preset_salt)).

Definition build (pw s : string) (o : gmap string string) (on_disk : bool) : HostM Snapshot :=
  '(h1, s) ← normalize pw s on_disk;
  let totp := default "" (o !! "2fa") in
  let on := option2bool "enable-trusted-devices" (default "" (o !! "enable-trusted-devices")) in
  mret (mkSnapshot (sha256 (scope_to_json (h1, s, totp, on))) h1 s totp on (days o)).

(** The settings in memory, if those on disk agree with them. *)
Definition snapshot : TD Snapshot :=
  h ← lift (gets (λ h, h));
  cur ← lift (build (password (CONFIG h)) (salt (CONFIG h)) (get_options h) false);
  o ← read_settings ∅ (match file2 h with
                       | Loaded c => Loaded (options_of c)
                       | NotFound => NotFound | BadTomlData => BadTomlData
                       | InvalidData => InvalidData | ReadError => ReadError
                       end);
  c ← read_settings default_config (file h);
  stored ← lift (build (password c) (salt c) (effective_options o) true);
  if bool_decide (snap_scope cur = snap_scope stored)
     && (validity_days cur =? validity_days stored)
  then mret cur
  else bail "Trusted-device authentication settings are out of sync; reconnect after configuration sync".

(** *** Storage of the grants *)
Definition random_token : TD bytes := lift (draw random_bytes).

Definition revoke (s : option bytes) : TD Grants :=
  g ← random_token; mret (mkGrants s g []).

Definition decode_grants (value : string) : HostM (option Grants) :=
  if is_empty value then mret (Some default_grants)
  else match (c ← strip_prefix "00" value; b64_decode (as_bytes c)) with
       | None => mret None
       | Some c => plain ← symmetric_crypt c false; mret (plain ≫= grants_from_json)
       end.

Definition set_trusted_devices_v2 (value : string) : TD unit :=
  written ← lift (Config2.set_trusted_devices_v2 value);
  if written : bool then mret tt else bail "Could not store trusted-device grants".

Definition storage_write (g : Grants) : TD unit :=
  c ← lift (symmetric_crypt (grants_to_json g) true);
  c ← of_option "Could not encrypt trusted-device grants" c;
  set_trusted_devices_v2 ("00" +:+ b64_encode c).

Definition get_trusted_device_stores : TD (string * string) :=
  stores ← lift (gets Config2.get_trusted_device_stores);
  of_option "Invalid configuration file" stores.

Definition storage_exists : TD bool :=
  has ← lift (gets Config2.has_trusted_devices_v2);
  has ← of_option "Invalid configuration file" has;
  if has : bool then mret true
  else '(_, legacy) ← get_trusted_device_stores; mret (negb (is_empty legacy)).

(** [legacy::verifier] *)
Definition legacy_verifier (hwid : bytes) (i : DeviceInfo) : option bytes :=
  if bool_decide (hwid = []) then None
  else Some (sha256 (legacy_key_to_json (hwid, device_id i, device_name i, platform i))).

Definition import_device (l : list Grant) (d : bytes * DeviceInfo) : list Grant :=
  match legacy_verifier d.1 d.2 with
  | None => l
  | Some v =>
      let i := d.2 <| expires_at :=
        Some (default (expires_after (time d.2) LEGACY_DAYS) (expires_at d.2)) |> in
      let r := mkGrant v i true None in
      if current now r && negb (existsb (λ old, bool_decide (grant_id old = grant_id r)) l)
      then l ++ [r] else l
  end.

(** [legacy::import] *)
Definition import (g : Grants) (value : string) (first_store : bool) : TD Grants :=
  settings ← snapshot;
  g ← (if first_store then revoke (Some (snap_scope settings)) else mret g);
  if negb (matches_scope g (snap_scope settings)) then mret g
  else
    '(plaintext, decrypted, _) ← lift (decrypt_str_or_original value "00");
    if negb decrypted then bail "Could not decrypt legacy trusted devices"
    else
      devices ← of_option "Invalid legacy trusted devices" (legacy_devices_from_json plaintext);
      let g := g <| records := foldl import_device (records g) devices |> in
      mret (update_expiration (validity_days settings) now g).1.

Definition storage_read : TD Grants :=
  '(value, legacy) ← get_trusted_device_stores;
  decoded ← lift (decode_grants value);
  match decoded with
  | None => set_trusted_devices_v2 "";; mret default_grants
  | Some g =>
      if is_empty legacy then mret g
      else
        g ← import g legacy (is_empty value);
        storage_write g;;
        mret g
  end.

Definition load_grants (s : bytes) : TD Grants :=
  g ← unavailable storage_read;
  exists_ ← unavailable storage_exists;
  g ← (if negb exists_ then
         g ← revoke (Some s);
         unavailable (storage_write g);;
         mret g
       else if negb (matches_scope g s) then
         fail (Unavailable "Trusted-device grants are out of sync; restart the host to synchronize")
       else mret g);
  let '(g, changed) := cleanup now g in
  (if changed then unavailable (storage_write g) else mret tt);;
  mret g.

(** [clear()] *)
Definition clear : TD unit :=
  has ← storage_exists;
  if negb has then mret tt
  else
    settings ← attempt snapshot;
    g ← revoke (match settings with Ok s => Some (snap_scope s) | Err _ => None end);
    storage_write g.

Definition initialize : TD unit :=
  f ← lift (gets file2);
  match f with
  | NotFound => mret tt
  | _ =>
      has ← storage_exists;
      if negb has then mret tt
      else
        g ← storage_read;
        cur ← snapshot;
        let scope_changed := negb (matches_scope g (snap_scope cur)) in
        g ← (if scope_changed then revoke (Some (snap_scope cur)) else mret g);
        let '(g, changed) := update_expiration (validity_days cur) now g in
        if changed || scope_changed then storage_write g else mret tt
  end.

(** *** Changing what the grants depend on *)

(** [config::change(affected, apply)] *)
Definition change {T} (affected : bool) (apply : TD T) : TD T :=
  if negb affected then apply
  else
    has ← storage_exists;
    if negb has then apply
    else
      g ← revoke None;
      storage_write g;;
      result ← apply;
      settings ← snapshot;
      g ← revoke (Some (snap_scope settings));
      storage_write g;;
      mret result.

Definition change_options {T} (o : gmap string string) (apply : TD T) : TD T :=
  old ← lift (gets get_options);
  if authentication_changed old o then change true apply
  else if days old =? days o then apply
  else
    has ← storage_exists;
    if negb has then apply
    else
      settings ← snapshot;
      g ← storage_read;
      if negb (matches_scope g (snap_scope settings)) then apply
      else
        storage_write (update_expiration (days o) now g).1;;
        apply.

(** [Config::set_options] *)
Definition config_set_options (o : gmap string string) : HostM unit :=
  let o := TransportConfig.TransportConfig.purify_options OVERWRITE_SETTINGS DEFAULT_SETTINGS o in
  c ← gets CONFIG2;
  if bool_decide (options_of c = o) then mret tt
  else Config2.update (λ c, c <| net := TransportConfig.TransportConfig.with_options (net c) o |>).

Definition set_options (o : gmap string string) : TD unit :=
  change_options (effective_options o) (lift (config_set_options o)).

Definition update_auth {T} (affected : bool) (apply : TD T) : TD T :=
  (if affected then
     has ← storage_exists;
     if has : bool then snapshot;; mret tt else mret tt
   else mret tt);;
  apply.

Definition update_options (o : gmap string string) : TD unit :=
  old ← lift (gets get_options);
  update_auth (authentication_changed old (effective_options o)) (set_options o).

Definition changes_password (value : string) : HostM bool :=
  if is_disable_change_permanent_password BUILTIN_SETTINGS then mret false
  else
    '(pw, s) ← gets get_local_permanent_password_storage_and_salt;
    if negb (is_empty pw) then mret true
    else if is_empty value then mret false
    else
      '(h1, s) ← normalize pw s false;
      mret (match h1 with
            | Some h1 => negb (bool_decide (h1 = compute_permanent_password_h1 value s))
            | None => true
            end).

Definition set_password (value : string) : TD bool :=
  affected ← lift (changes_password value);
  change affected (lift (set_permanent_password BUILTIN_SETTINGS HARD_SETTINGS value)).

Definition set_salt_ (s : string) : TD unit :=
  h ← lift (gets (λ h, h));
  change (negb (salt (CONFIG h) ==s s)) (lift (ConfigStore.set_salt s)).

Definition set_config (value : Config) : TD bool :=
  h ← lift (gets (λ h, h));
  old ← lift (normalize (password (CONFIG h)) (salt (CONFIG h)) false);
  new ← lift (normalize (password value) (salt value) false);
  change (negb (bool_decide (old = new))) (lift (ConfigStore.set value)).

Definition set_config2 (value : Config2) : TD bool :=
  change_options (effective_options (options_of value)) (lift (Config2.set value)).

Definition sync_config (value : Config) (o : Config2) : TD unit :=
  lift (ConfigStore.set value);;
  lift (Config2.set o);;
  snapshot;;
  written ← lift (Config2.sync_trusted_devices o);
  if written : bool then mret tt else bail "Could not store trusted-device grants".

(** *** Management *)

(** The identifiers and descriptions that are listed. *)
Fixpoint list_once (seen : list bytes) (l : list Grant) : list (bytes * DeviceInfo) :=
  match l with
  | [] => []
  | r :: l =>
      if current now r && negb (bool_decide (grant_id r ∈ seen))
      then (grant_id r, info r) :: list_once (grant_id r :: seen) l
      else list_once seen l
  end.

Definition devices : TD (list (bytes * DeviceInfo)) :=
  has ← storage_exists;
  if negb has then mret []
  else
    cur ← snapshot;
    g ← load_grants (snap_scope cur);
    mret (list_once [] (records g)).

Definition remove (ids : list bytes) : TD unit :=
  g ← storage_read;
  let l := filter (λ r, grant_id r ∉ ids) (records g) in
  if bool_decide (length l = length (records g)) then mret tt
  else storage_write (g <| records := l |>).

Definition renew (ids : list bytes) : TD unit :=
  if bool_decide (ids = []) then bail "Select at least one trusted device"
  else
    settings ← snapshot;
    if negb (enabled settings) || is_empty (snap_totp settings) then
      bail "Trusted devices require two-factor authentication to be enabled"
    else if validity_days settings =? NEVER_EXPIRE then
      bail "Trusted devices are configured to never expire"
    else
      g ← load_grants (snap_scope settings);
      if negb (forallb (λ i, existsb (λ r, bool_decide (grant_id r = i) && current now r) (records g)) ids)
      then bail "Trusted device expired or was revoked; refresh the list"
      else
        let e := expires_after now (validity_days settings) in
        storage_write (g <| records :=
          (λ r, if bool_decide (grant_id r ∈ ids)
                then r <| info := (info r) <| expires_at := Some e |> |> else r) <$> records g |>).

(** *** Logging in *)

(** [authority::authorize(scope, apply)]; [apply] says whether the grants changed. *)
Definition authorize {T} (s : bytes) (apply : Grants → Z → TD (T * option Grants)) : TD T :=
  settings ← snapshot;
  if negb (enabled settings) || is_empty (snap_totp settings) then
    bail "Trusted devices require two-factor authentication to be enabled"
  else if negb (bool_decide (s = snap_scope settings)) then
    bail "Trusted-device authentication settings changed; reconnect and authenticate again"
  else
    g ← load_grants (snap_scope settings);
    '(result, changed) ← apply g (validity_days settings);
    (match changed with Some g => unavailable (storage_write g) | None => mret tt end);;
    mret result.

Definition revoked : string :=
  "Trusted-device authorization was revoked; reconnect and authenticate again".

Definition authority_begin (s : bytes) (v lv : option bytes) : TD (Ticket * option Credential) :=
  authorize s (λ g _,
    t ← of_option "Trusted-device authentication settings changed; reconnect and authenticate again"
          (begin_ticket g s);
    by_token ← of_option revoked (verify_digest g t v now);
    if by_token : bool then
      let '(g', changed) := match v with
                            | Some v => confirm_migration g v
                            | None => (g, false)
                            end in
      mret ((t, Token <$> v), if changed : bool then Some g' else None)
    else
      by_legacy ← of_option revoked (verify_legacy g t lv now);
      mret ((t, if by_legacy : bool then Legacy <$> lv else None), None)).

Definition token_verifier (token : bytes) : option bytes :=
  if len token =? TOKEN_BYTES then Some (sha256 token) else None.

Definition verify_password (settings : Snapshot) (p : LoginProof) : TD unit :=
  h1 ← of_option "Permanent password is unavailable for trusted devices" (snap_h1 settings);
  if negb (snap_salt settings ==s proof_salt p)
     || negb (bool_decide (sha256 (h1 ++ as_bytes (proof_challenge p)) = proof_password p))
  then bail "Trusted-device password configuration changed; reconnect and authenticate again"
  else mret tt.

(** [TOTPInfo::from_str] *)
Definition totp_from_str (data : string) : TD TOTP :=
  i ← of_option "Invalid 2fa settings" (totp_from_json data);
  '(secret, success, _) ← lift (decrypt_vec_or_original (totp_secret i) "00");
  if negb success then bail "decrypt_vec_or_original 2fa secret failed"
  else of_option "Invalid 2fa secret" (totp_new (totp_digits i) secret (totp_name i)).

(** The first task of [host::begin]. *)
Definition begin_settings (p : LoginProof) : TD (option (bytes * TOTP)) :=
  settings ← snapshot;
  if negb (enabled settings) || is_empty (snap_totp settings) then mret None
  else
    verify_password settings p;;
    totp ← totp_from_str (snap_totp settings);
    mret (Some (snap_scope settings, totp)).

(** [host::begin]: the attempt, whether the second factor is waived, and the TOTP. *)
Definition host_begin (p : LoginProof) : TD (option (option Attempt * bool * TOTP)) :=
  settings ← begin_settings p;
  match settings with
  | None => mret None
  | Some (s, totp) =>
      r ← attempt (authority_begin s (token_verifier (proof_token p)) (proof_legacy p));
      match r with
      | Err (Unavailable _) => mret (Some (None, false, totp))
      | Err e => fail e
      | Ok (t, c) =>
          let valid := bool_decide (is_Some c) in
          if negb valid && negb (supports_v2 p) then mret (Some (None, false, totp))
          else
            let e := supports_v2 p && match c with Some (Legacy _) => true | _ => false end in
            mret (Some (Some (mkAttempt t c e), valid, totp))
      end
  end.

(** [Attempt::check] *)
Definition check (a : Attempt) : TD unit :=
  authorize (ticket_scope (ticket a)) (λ g _,
    valid ← of_option revoked
      (match credential a with
       | Some (Legacy v) =>
           (λ r, bool_decide (is_Some r)) <$> migration_source g (ticket a) v now
       | Some (Token v) => verify_digest g (ticket a) (Some v) now
       | None => verify_digest g (ticket a) None now
       end);
    if bool_decide (is_Some (credential a)) && negb valid then
      bail "Trusted-device credential expired or was revoked; reconnect and authenticate again"
    else mret (tt, None)).

(** [Attempt::finish]: the token given to the device, empty when none is. *)
Definition finish (a : Attempt) (i : DeviceInfo) : TD bytes :=
  if negb (enroll a) then mret []
  else
    authorize (ticket_scope (ticket a)) (λ g d,
      token ← random_token;
      let v := sha256 token in
      g' ← (match credential a with
            | Some (Legacy lv) =>
                of_option "Legacy trusted device expired or was revoked" (migrate g (ticket a) lv v now)
            | _ =>
                of_option revoked (enroll_digest g (ticket a) v
                  (i <| time := now |> <| expires_at := Some (expires_after now d) |>))
            end);
      mret (token, Some g')).

End Host.
End TrustedDevices.
