(* ===== verification/TrustedDevicesProofs.v ===== *)
(** * Trusted devices: lemmas

    Grants as data: the cap of 128 and its eviction order ([cleanup_cap]).  On the
    host: Hoare triples ([triple]) for every operation, over the invariant that the
    grants hold only given verifiers ([inv]), and what an operation does when the
    grants are known ([holds]). *)
From S2P Require Import Prelude RustStd RecordUpdate Secrets SecretsProofs ConfigStore Config2Store ConfigStoreProofs.
From S2P Require Import TrustedDevices.
From S2P Require TransportConfig.
From Stdlib Require Import Ascii Sorting.Sorted.
Import TrustedDevices.
#[local] Open Scope Z_scope.

(** ** Grants as data *)
Lemma insert_by_time_perm r l : insert_by_time r l ≡ₚ r :: l.
Proof.
  induction l as [|x l IH]; [done|]. cbn. case_match; [done|].
  rewrite IH. apply Permutation_swap.
Qed.

Lemma sort_by_time_perm l : sort_by_time l ≡ₚ l.
Proof. induction l as [|r l IH]; [done|]. cbn. by rewrite insert_by_time_perm, IH. Qed.

Definition older (r x : Grant) : Prop := time (info r) ≤ time (info x).

Lemma insert_by_time_sorted r l : StronglySorted older l → StronglySorted older (insert_by_time r l).
Proof.
  induction 1 as [|x l Hs IH Hx]; cbn; [by repeat constructor|].
  destruct (Z.leb_spec (time (info r)) (time (info x))) as [Hle|Hlt].
  - constructor; [by constructor|]. constructor; [done|].
    eapply Forall_impl; [done|]. unfold older. intros y. lia.
  - constructor; [done|]. rewrite insert_by_time_perm. constructor; [unfold older; lia|done].
Qed.

Lemma sort_by_time_sorted l : StronglySorted older (sort_by_time l).
Proof. induction l as [|r l IH]; [constructor|]. by apply insert_by_time_sorted. Qed.

Lemma evict_sublist n l : evict n l `sublist_of` l.
Proof.
  revert n. induction l as [|r l IH]; intros [|n]; cbn; [done..|].
  destruct (legacy r); [by apply sublist_skip|by apply sublist_cons].
Qed.

Lemma evict_legacy n l r : r ∈ l → legacy r = true → r ∈ evict n l.
Proof.
  revert n. induction l as [|x l IH]; intros [|n] Hr Hl; cbn; try done.
  apply elem_of_cons in Hr as [->|Hr].
  - rewrite Hl. by left.
  - destruct (legacy x); [right|]; by apply IH.
Qed.

Lemma evict_modern n l : length (modern (evict n l)) = (length (modern l) - n)%nat.
Proof.
  revert n. induction l as [|x l IH]; intros [|n]; try done; [cbn [evict]; lia|].
  cbn [evict]. unfold modern in *. rewrite (filter_cons _ x l).
  destruct (legacy x) eqn:Hx; [|rewrite decide_True by done; rewrite IH; cbn; lia].
  rewrite decide_False by congruence. rewrite filter_cons, decide_False by congruence. apply IH.
Qed.

Lemma length_modern_filter P `{∀ r : Grant, Decision (P r)} l :
  (length (modern (filter P l)) ≤ length (modern l))%nat.
Proof.
  unfold modern. induction l as [|x l IH]; [done|]. rewrite (filter_cons P), (filter_cons _ x l).
  repeat case_decide; rewrite ?filter_cons; repeat case_decide; cbn; try done; lia.
Qed.

(** What is evicted is no younger than what is kept. *)
Lemma evict_oldest n l r x : StronglySorted older l →
  r ∈ l → r ∉ evict n l → x ∈ evict n l → legacy x = false → older r x.
Proof.
  revert n. induction l as [|y l IH]; intros [|n] Hs Hr Hne Hx Hl; cbn in *; [set_solver..|].
  apply StronglySorted_inv in Hs as [Hs Hy]. rewrite Forall_forall in Hy.
  destruct (legacy y) eqn:Hly.
  - apply elem_of_cons in Hx as [->|Hx]; [congruence|].
    apply elem_of_cons in Hr as [->|Hr]; [set_solver|]. apply (IH (S n)); set_solver.
  - apply elem_of_cons in Hr as [->|Hr].
    + apply Hy. eapply elem_of_sublist; [exact Hx|apply evict_sublist].
    + by apply (IH n).
Qed.

Section Grants.
Context `{!Crypto}.

Definition sorted_current (now : Z) (g : Grants) : list Grant :=
  sort_by_time (filter (λ r, current now r = true) (records g)).

Lemma elem_of_sorted_current now g r :
  r ∈ sorted_current now g ↔ current now r = true ∧ r ∈ records g.
Proof. unfold sorted_current. by rewrite sort_by_time_perm, list_elem_of_filter. Qed.

(** Cleaning the grants leaves only current ones, at most 128 of them besides the
    legacy ones; a legacy one is never dropped while it is current, and one that
    is dropped for the cap leaves 128 behind that are no older. *)
Theorem cleanup_cap now g :
  let l := records (cleanup now g).1 in
  (∀ r, r ∈ l → r ∈ records g ∧ current now r = true) ∧
  (length (modern l) ≤ MAX_RECORDS)%nat ∧
  (∀ r, r ∈ records g → current now r = true → legacy r = true → r ∈ l) ∧
  (∀ r, r ∈ records g → current now r = true → r ∉ l →
    length (modern l) = MAX_RECORDS ∧ ∀ x, x ∈ l → legacy x = false → older r x).
Proof.
  cbn. change (sort_by_time (filter (λ r, current now r = true) (records g)))
    with (sorted_current now g).
  set (s := sorted_current now g). set (n := (length (modern s) - MAX_RECORDS)%nat).
  split_and!.
  - intros r Hr. apply and_comm, elem_of_sorted_current.
    eapply elem_of_sublist; [done|apply evict_sublist].
  - rewrite evict_modern. lia.
  - intros r Hr Hc Hl. apply evict_legacy; [|done]. by apply elem_of_sorted_current.
  - intros r Hr Hc Hne. assert (r ∈ s) as Hrs by by apply elem_of_sorted_current.
    split.
    + rewrite evict_modern. destruct n as [|k] eqn:Hn; [|lia].
      by destruct s.
    + intros x Hx Hl. eapply evict_oldest; [apply sort_by_time_sorted|done..].
Qed.

(** With at most 128 modern records nothing is evicted. *)
Lemma cleanup_under_cap now g : (length (modern (records g)) ≤ MAX_RECORDS)%nat →
  records (cleanup now g).1 = sorted_current now g.
Proof.
  intros Hn. cbn. change (sort_by_time (filter (λ r, current now r = true) (records g)))
    with (sorted_current now g).
  assert (length (modern (sorted_current now g)) ≤ length (modern (records g)))%nat as Hle.
  { unfold modern, sorted_current. rewrite sort_by_time_perm. apply length_modern_filter. }
  replace (_ - MAX_RECORDS)%nat with 0%nat by lia. by destruct (sorted_current now g).
Qed.

(** A newly added record that is as young as any is kept. *)
Lemma insert_before_last x l r : older x r → insert_by_time x (l ++ [r]) = insert_by_time x l ++ [r].
Proof.
  unfold older. intros Hx. induction l as [|y l IH]; cbn.
  - by destruct (Z.leb_spec (time (info x)) (time (info r))); [|lia].
  - case_match; [done|]. by rewrite IH.
Qed.

Lemma sort_last l r : Forall (λ x, older x r) l → sort_by_time (l ++ [r]) = sort_by_time l ++ [r].
Proof.
  induction 1 as [|x l Hx Hl IH]; [done|]. unfold sort_by_time in *. cbn. rewrite IH.
  by apply insert_before_last.
Qed.

Lemma evict_last n l r : (n ≤ length (modern l))%nat → legacy r = false → r ∈ evict n (l ++ [r]).
Proof.
  intros Hn Hr. revert n Hn. induction l as [|x l IH]; intros n Hn.
  - cbn in Hn. replace n with 0%nat by lia. by left.
  - destruct n as [|n]; [cbn; set_solver|]. cbn [app evict]. unfold modern in Hn.
    rewrite filter_cons in Hn. destruct (legacy x) eqn:Hx.
    + rewrite decide_False in Hn by congruence. right. by apply IH.
    + rewrite decide_True in Hn by done. cbn in Hn. apply IH. unfold modern. lia.
Qed.

Lemma cleanup_keeps_new t g r :
  legacy r = false → current t r = true → time (info r) = t →
  r ∈ records (cleanup t (g <| records := records g ++ [r] |>)).1.
Proof.
  intros Hl Hc Ht. change (r ∈
    let s := sort_by_time (filter (λ r, current t r = true) (records g ++ [r])) in
    evict (length (modern s) - MAX_RECORDS) s). cbv zeta. rewrite filter_app, (filter_cons_True _ r []), filter_nil by done.
  assert (Forall (λ x, older x r) (filter (λ r, current t r = true) (records g))) as Hold.
  { apply Forall_forall. intros x Hx. apply list_elem_of_filter in Hx as [Hx _].
    unfold current in Hx. apply andb_true_iff in Hx as [Hx%Z.leb_le _]. unfold older. lia. }
  rewrite (sort_last _ _ Hold). apply evict_last; [|done].
  unfold modern. rewrite filter_app, length_app, filter_cons_True, filter_nil by done.
  unfold MAX_RECORDS. cbn [length]. lia.
Qed.

Lemma cleanup_modern t g : (length (modern (records (cleanup t g).1)) ≤ MAX_RECORDS)%nat.
Proof. cbn. rewrite evict_modern. lia. Qed.

Lemma enroll_keeps_new g t v i e g' :
  enroll_digest g t v (i <| expires_at := Some e |>) = Some g' → e = 0 ∨ time i < e →
  check_ticket g t = true ∧ scope g' = scope g ∧
  mkGrant v (i <| expires_at := Some e |>) false None ∈ records g' ∧
  (length (modern (records g')) ≤ MAX_RECORDS)%nat.
Proof.
  unfold enroll_digest. destruct (check_ticket g t); [|done]. cbn [negb]. intros [= <-] He.
  set (r := mkGrant v (i <| expires_at := Some e |>) false None).
  set (l := if is_empty _ then _ else _).
  assert (current (time i) r = true) as Hc.
  { unfold current. cbn. rewrite Z.leb_refl. cbn. apply orb_true_iff. rewrite Z.eqb_eq, Z.ltb_lt. lia. }
  split_and!; [done|done| |apply cleanup_modern].
  exact (cleanup_keeps_new (time i) (g <| records := l |>) r eq_refl Hc eq_refl).
Qed.

End Grants.

(** ** Triples *)

(** From a state in [P], [m] ends in [Q] with a result, or in [E] with an error. *)
Definition triple {A} (P : Host → Prop) (m : TD A) (Q : A → Host → Prop) (E : Host → Prop) : Prop :=
  ∀ h, P h → match m h with (Ok a, h') => Q a h' | (Err _, h') => E h' end.

Lemma td_bind_ok {A B} (m : TD A) (k : A → TD B) h a h1 :
  m h = (Ok a, h1) → (m ≫= k) h = k a h1.
Proof. unfold mbind, td_bind. by intros ->. Qed.
Lemma td_bind_err {A B} (m : TD A) (k : A → TD B) h e h1 :
  m h = (Err e, h1) → (m ≫= k) h = (Err e, h1).
Proof. unfold mbind, td_bind. by intros ->. Qed.

Section Triples.
Context {A B : Type}.
Implicit Types (P E : Host → Prop).

Lemma triple_ret P E (a : A) (Q : A → Host → Prop) : (∀ h, P h → Q a h) → triple P (mret a) Q E.
Proof. intros HQ h Hh. by apply HQ. Qed.

Lemma triple_fail P E e (Q : A → Host → Prop) : (∀ h, P h → E h) → triple P (fail e) Q E.
Proof. intros HE h Hh. by apply HE. Qed.

Lemma triple_bind P E (m : TD A) (k : A → TD B) R Q :
  triple P m R E → (∀ a, triple (R a) (k a) Q E) → triple P (m ≫= k) Q E.
Proof.
  intros Hm Hk h Hh. unfold mbind, td_bind. specialize (Hm h Hh).
  destruct (m h) as [[a|e] h1]; [|done]. by apply Hk.
Qed.

Lemma triple_conseq P P' E E' (m : TD A) (Q Q' : A → Host → Prop) :
  triple P' m Q' E' → (∀ h, P h → P' h) → (∀ a h, Q' a h → Q a h) → (∀ h, E' h → E h) →
  triple P m Q E.
Proof.
  intros Hm HP HQ HE h Hh. specialize (Hm h (HP h Hh)). destruct (m h) as [[a|e] h1]; auto.
Qed.

Lemma triple_pre P P' E (m : TD A) (Q : A → Host → Prop) :
  (∀ h, P h → P' h) → triple P' m Q E → triple P m Q E.
Proof. intros HP Hm h Hh. by apply Hm, HP. Qed.

Lemma triple_of_option P E w (o : option A) (Q : A → Host → Prop) :
  (∀ a h, o = Some a → P h → Q a h) → (∀ h, P h → E h) → triple P (of_option w o) Q E.
Proof. intros HQ HE. destruct o; [by apply triple_ret; intros; apply HQ|by apply triple_fail]. Qed.

Lemma triple_unavailable P E (m : TD A) Q : triple P m Q E → triple P (unavailable m) Q E.
Proof.
  intros Hm h Hh. specialize (Hm h Hh). unfold unavailable. by destruct (m h) as [[a|e] h1].
Qed.

Lemma triple_attempt P E (m : TD A) Q (Q' : result A Error → Host → Prop) :
  triple P m Q E → (∀ a h, Q a h → Q' (Ok a) h) → (∀ e h, E h → Q' (Err e) h) →
  triple P (attempt m) Q' E.
Proof.
  intros Hm HQ HE h Hh. specialize (Hm h Hh). unfold attempt. destruct (m h) as [[a|e] h1]; auto.
Qed.

Lemma triple_lift P E (m : HostM A) (Q : A → Host → Prop) :
  (∀ h, P h → Q (m h).1 (m h).2) → triple P (lift m) Q E.
Proof. intros Hm h Hh. specialize (Hm h Hh). unfold lift. by destruct (m h). Qed.

End Triples.

(** ** The host *)
Section Host.
Context `{!Crypto, !CryptoLaws, !Entropy, !Json, !JsonLaws, !TotpLib, !Tokens}.
Context (OVERWRITE_SETTINGS DEFAULT_SETTINGS BUILTIN_SETTINGS HARD_SETTINGS : gmap string string).
Context (mac_address : option (list Z)) (hostname : option string).
Variables (uid : bytes) (okp : option KeyPair) (now : Z).

#[local] Abbreviation ready := (ready uid okp).
#[local] Abbreviation runs := (runs uid okp).
#[local] Abbreviation good := (good uid okp).
#[local] Abbreviation snapshot := (snapshot OVERWRITE_SETTINGS DEFAULT_SETTINGS HARD_SETTINGS).

(** *** Grants on disk *)

(** What [decode_grants] reads on this machine. *)
Definition pure_grants (value : string) : option Grants :=
  if is_empty value then Some default_grants
  else match (c ← strip_prefix "00" value; b64_decode (as_bytes c)) with
       | None => None
       | Some c => pure_open uid okp c ≫= grants_from_json
       end.

Lemma runs_decode_grants value : runs (decode_grants value) (eq (pure_grants value)).
Proof.
  unfold decode_grants, pure_grants. destruct (is_empty value); [by apply runs_ret|].
  destruct (_ ≫= _) as [c|]; [|by apply runs_ret].
  eapply runs_step; [apply runs_open|]. by apply runs_ret.
Qed.

Lemma sealed_grants g data : seals uid (grants_to_json g) data →
  pure_grants ("00" +:+ b64_encode data) = Some g.
Proof.
  intros Hs. unfold pure_grants. rewrite strip_prefix_app.
  cbn [mbind option_bind is_empty]. rewrite b64_round_trip. cbn.
  rewrite (seals_open _ _ _ _ Hs). apply grants_json_round_trip.
Qed.

(** The records of [g] hold verifiers in [V], and none is legacy. *)
Definition within (V : list bytes) (g : Grants) : Prop :=
  ∀ r, r ∈ records g → legacy r = false ∧ verifier r ∈ V.

Lemma within_default V : within V default_grants.
Proof. intros r Hr. cbn in Hr. set_solver. Qed.

Lemma within_sub V V' g g' : within V g → V ⊆ V' → (∀ r, r ∈ records g' → r ∈ records g) → within V' g'.
Proof. intros Hw Hsub Hr r Hin. destruct (Hw r (Hr r Hin)). auto. Qed.

(** The machine is in order, its grants can be read or replaced, there is no
    legacy store, and every verifier in the grants is in [V]. *)
Record inv (V : list bytes) (h : Host) : Prop := {
  inv_good : ∃ O, good O h;
  inv_grants : ∃ v, Config2.get_trusted_device_stores h = Some (v, "") ∧
               ∀ g, pure_grants v = Some g → within V g;
}.

Lemma inv_ready V h : inv V h → ready h.
Proof. intros [[O []] _]. done. Qed.

Lemma inv_mono V V' h : V ⊆ V' → inv V h → inv V' h.
Proof.
  intros Hsub [Hg (v & Hv & Hw)]. split; [done|]. exists v. split; [done|].
  intros g Hp. eapply within_sub; [by apply Hw|done|done].
Qed.

Lemma inv_same V h h' : same h h' → ready h' → inv V h → inv V h'.
Proof.
  intros Hs Hr [[O Hg] (v & Hv & Hw)]. split; [exists O; by eapply good_same|].
  exists v. split; [|done]. by rewrite (grants_congr h) by apply Hs.
Qed.

Lemma triple_runs {A} V (m : HostM A) (Q : A → Prop) (E : Host → Prop) :
  runs m Q → triple (inv V) (lift m) (λ a h, inv V h ∧ Q a) E.
Proof.
  intros Hm. apply triple_lift. intros h Hh.
  destruct (Hm h (inv_ready _ _ Hh)) as (a & h' & -> & Ha & Hs & Hr). cbn.
  split; [by eapply inv_same|done].
Qed.

(** Configuration code that leaves the second file alone. *)
Lemma triple_config {A} V (m : HostM A) (E : Host → Prop) :
  quiet m → (∀ O h, good O h → ∃ O', good O' (m h).2) → triple (inv V) (lift m) (λ _ h, inv V h) E.
Proof.
  intros Hq Hk. apply triple_lift. intros h [[O Hg] (v & Hv & Hw)].
  split; [by eapply Hk|].
  exists v. split; [|done]. rewrite (grants_congr h); [done|apply Hq].
Qed.

(** A failed write changes nothing; a successful one only the second file and the
    grants in memory. *)
Lemma set_grants_frame value h :
  let '(written, h') := Config2.set_trusted_devices_v2 value h in
  if written then ∃ c f, h' = h <| file2 := f |> <| CONFIG2 := c |> else h' = h.
Proof.
  unfold Config2.set_trusted_devices_v2, Config2.sync_trusted_devices, gets, modify.
  destruct (Config2.trusted_devices_v2 _); [|done]. unfold mbind, host_bind.
  destruct (try_load_path default_config2 (file2 h)) as [stored|]; [|done].
  case_bool_decide; [|unfold Config2.store_path; destruct (can_write h)]; try done.
  - eexists _, (file2 h). by destruct h.
  - eexists _, _. reflexivity.
Qed.

Lemma set_grants_inv V V' value h :
  inv V h → (∀ g, pure_grants value = Some g → within V' g) →
  let '(written, h') := Config2.set_trusted_devices_v2 value h in
  if written then inv V' h' else inv V h'.
Proof.
  intros Hi Hval. pose proof (set_grants_frame value h) as Hf.
  destruct (Config2.set_trusted_devices_v2 value h) as [[] h'] eqn:E; [|by subst].
  apply set_grants_stores in E. destruct Hf as (c & f & ->). destruct Hi as [[O Hg] _].
  split; [|by exists value]. exists O. destruct Hg as [[] ? ?]. split; [by constructor|done..].
Qed.

Lemma triple_set_grants V V' value :
  (∀ g, pure_grants value = Some g → within V' g) →
  triple (inv V) (set_trusted_devices_v2 value) (λ _ h, inv V' h) (inv V).
Proof.
  intros Hval h Hi. unfold set_trusted_devices_v2, lift. unfold mbind, td_bind.
  pose proof (set_grants_inv V V' value h Hi Hval) as Hs.
  by destruct (Config2.set_trusted_devices_v2 value h) as [[] h'].
Qed.

Lemma triple_write V V' g : within V' g →
  triple (inv V) (storage_write g) (λ _ h, inv V' h) (inv V).
Proof.
  intros Hw. eapply triple_bind; [apply triple_runs, runs_seal|]. intros r. cbn.
  intros h [Hi (data & -> & Hs)]. revert h Hi. change (triple (inv V)
    (set_trusted_devices_v2 ("00" +:+ b64_encode data)) (λ _ h, inv V' h) (inv V)).
  apply triple_set_grants. intros g'. rewrite (sealed_grants _ _ Hs). by intros [= <-].
Qed.

Lemma triple_token V : triple (inv V) random_token (λ t h, inv V h) (inv V).
Proof.
  eapply triple_conseq; [apply (triple_runs V _ (λ _, True))|done|by intros ? ? []|done].
  by apply runs_draw.
Qed.

Lemma triple_revoke V s :
  triple (inv V) (revoke s) (λ g h, inv V h ∧ scope g = s ∧ records g = []) (inv V).
Proof.
  eapply triple_bind; [apply triple_token|]. intros t. by apply triple_ret.
Qed.

(** *** The settings *)
Definition pure_normalize (pw s : string) (on_disk : bool) : option bytes * string :=
  let pw := if on_disk && starts_with "00" pw && (plain_str uid okp pw).1.2
            then (plain_str uid okp pw).1.1 else pw in
  if negb (is_empty pw) then
    if negb (usable uid okp pw s) then (None, s)
    else (Some (default (compute_permanent_password_h1 pw s) (current_h1 uid okp pw)), s)
  else
    let '(preset, preset_salt) := get_preset_password_storage_and_salt HARD_SETTINGS in
    if negb (preset_permanent_password_storage_is_usable_for_auth preset preset_salt)
    then (None, s)
    else if is_empty preset_salt then (Some (compute_permanent_password_h1 preset s), s)
    else (decode_preset_password_h1_from_storage preset, preset_salt).

Lemma runs_normalize pw s on_disk :
  runs (normalize HARD_SETTINGS pw s on_disk) (eq (pure_normalize pw s on_disk)).
Proof.
  unfold normalize, pure_normalize.
  eapply (runs_step _ _ _ _
    (if on_disk && starts_with "00" pw && (plain_str uid okp pw).1.2
     then (plain_str uid okp pw).1.1 else pw)).
  { destruct (on_disk && starts_with "00" pw); [|by apply runs_ret].
    eapply runs_step; [apply runs_decrypt_str|].
    destruct (plain_str uid okp pw) as [[p d] ?]. by apply runs_ret. }
  cbv zeta. destruct (negb (is_empty _)).
  - eapply runs_step; [apply runs_usable|]. destruct (negb (usable _ _ _ _)); [by apply runs_ret|].
    eapply runs_step; [apply runs_decode_h1|]. by apply runs_ret.
  - destruct (get_preset_password_storage_and_salt _) as [ps pt]. by apply runs_ret.
Qed.

Definition pure_build (pw s : string) (o : gmap string string) (on_disk : bool) : Snapshot :=
  let '(h1, s) := pure_normalize pw s on_disk in
  let totp := default "" (o !! "2fa") in
  let on := option2bool "enable-trusted-devices" (default "" (o !! "enable-trusted-devices")) in
  mkSnapshot (sha256 (scope_to_json (h1, s, totp, on))) h1 s totp on (days o).

Lemma runs_build pw s o on_disk :
  runs (build HARD_SETTINGS pw s o on_disk) (eq (pure_build pw s o on_disk)).
Proof.
  unfold build, pure_build. eapply runs_step; [apply runs_normalize|].
  destruct (pure_normalize pw s on_disk). by apply runs_ret.
Qed.

Lemma triple_snapshot V : triple (inv V) snapshot (λ _ h, inv V h) (inv V).
Proof.
  eapply triple_bind; [apply (triple_lift _ _ _ (λ _ h, inv V h)); done|]. intros h0.
  eapply triple_bind; [apply triple_runs, runs_build|]. intros cur.
  eapply (triple_bind _ _ _ _ (λ _ h, inv V h)).
  { intros h [Hi _]. destruct (file2 h0); done. }
  intros o. eapply (triple_bind _ _ _ _ (λ _ h, inv V h)).
  { intros h Hi. destruct (file h0); done. }
  intros c. eapply triple_bind; [apply triple_runs, runs_build|]. intros stored h [Hi _].
  destruct (_ && _); done.
Qed.

(** *** Reading the grants *)
Lemma triple_stores V :
  triple (inv V) get_trusted_device_stores
    (λ r h, inv V h ∧ r.2 = "" ∧ ∀ g, pure_grants r.1 = Some g → within V g) (inv V).
Proof.
  intros h Hi. unfold get_trusted_device_stores, lift, gets. unfold mbind, td_bind.
  destruct (inv_grants _ _ Hi) as (v & Hv & Hw). rewrite Hv. cbn. auto.
Qed.

Lemma triple_exists V :
  triple (inv V) storage_exists (λ b h, inv V h ∧ (b = false → inv [] h)) (inv V).
Proof.
  intros h Hi. unfold storage_exists, get_trusted_device_stores, lift, gets. unfold mbind, td_bind.
  destruct (inv_grants _ _ Hi) as (v & Hv & Hw).
  unfold Config2.has_trusted_devices_v2.
  pose proof Hv as Hst. unfold Config2.get_trusted_device_stores in Hst.
  destruct (try_load_path default_config2 (file2 h)) as [c|] eqn:Hl; [|done]. cbn in Hst |- *.
  destruct (trusted_devices_v2_field c) as [f|] eqn:Hf.
  - destruct (negb (bool_decide (f = TomlString ""))) eqn:Hn; [done|]. rewrite Hv. cbn.
    split; [done|]. intros _. apply negb_false_iff, bool_decide_eq_true in Hn. subst f.
    unfold Config2.trusted_devices_v2 in Hst. rewrite Hf in Hst. cbn in Hst.
    split; [apply Hi|]. exists "". split; [congruence|]. intros g [= <-]. apply within_default.
  - rewrite Hv. cbn. split; [done|]. intros _.
    unfold Config2.trusted_devices_v2 in Hst. rewrite Hf in Hst. cbn in Hst.
    split; [apply Hi|]. exists "". split; [congruence|]. intros g [= <-]. apply within_default.
Qed.

Lemma triple_read V :
  triple (inv V) (storage_read OVERWRITE_SETTINGS DEFAULT_SETTINGS HARD_SETTINGS now)
    (λ g h, inv V h ∧ within V g) (inv V).
Proof.
  eapply triple_bind; [apply triple_stores|]. intros [value legacy].
  intros h (Hi & Hl & Hw). cbn in Hl, Hw. subst legacy. revert h Hi.
  eapply triple_bind; [apply triple_runs, runs_decode_grants|]. intros r h [Hi <-].
  revert h Hi. destruct (pure_grants value) as [g|] eqn:Hg.
  - apply triple_ret. intros h Hi. auto.
  - eapply triple_bind; [apply (triple_set_grants V V)|].
    { intros g [= <-]. apply within_default. }
    intros []. apply triple_ret. intros h Hi. split; [done|apply within_default].
Qed.

(** *** Grants after an operation *)
Lemma within_cleanup V t g : within V g → within V (cleanup t g).1.
Proof.
  intros Hw. eapply within_sub; [done|done|]. intros r Hr.
  apply elem_of_sublist with (l2 := sorted_current t g) in Hr; [|apply evict_sublist].
  by apply elem_of_sorted_current in Hr as [_ ?].
Qed.

Lemma within_expiration V d t g : within V g → within V (update_expiration d t g).1.
Proof.
  intros Hw r Hr. unfold update_expiration in Hr.
  pose proof (within_cleanup V t g Hw) as Hc. destruct (cleanup t g) as [g' changed]. cbn in Hr, Hc.
  apply list_elem_of_fmap in Hr as (x & -> & Hx). destruct (Hc x Hx) as [Hl Hv].
  unfold lower_expiry. by destruct (expires_at (info x)).
Qed.

Lemma within_add V g r t : within V g → legacy r = false →
  within (verifier r :: V) (cleanup t (g <| records := records g ++ [r] |>)).1.
Proof.
  intros Hw Hl. apply within_cleanup. intros x Hx. cbn in Hx.
  apply elem_of_app in Hx as [Hx|Hx].
  - destruct (Hw x Hx). split; [done|by right].
  - apply list_elem_of_singleton in Hx as ->. split; [done|by left].
Qed.

Lemma within_filter V g (P : Grant → Prop) `{∀ r, Decision (P r)} :
  within V g → within V (g <| records := filter P (records g) |>).
Proof.
  intros Hw. eapply within_sub; [done|done|]. intros r Hr. by apply list_elem_of_filter in Hr as [_ ?].
Qed.

Lemma within_enroll V g t v i g' :
  within V g → enroll_digest g t v i = Some g' → within (v :: V) g'.
Proof.
  unfold enroll_digest. intros Hw. destruct (negb _); [done|]. intros [= <-].
  destruct (is_empty (device_id i)).
  - exact (within_add V g (mkGrant v i false None) _ Hw eq_refl).
  - exact (within_add V (g <| records := filter (λ r, device_id (info r) ≠ device_id i) (records g) |>)
      (mkGrant v i false None) _ (within_filter V g _ Hw) eq_refl).
Qed.

Lemma within_migrate V g t lv v m g' :
  within V g → migrate g t lv v m = Some g' → within (v :: V) g'.
Proof.
  unfold migrate. intros Hw. destruct (migration_source g t lv m) as [[r|]|]; [|done..].
  intros [= <-]. exact (within_add V g (mkGrant v _ false (Some lv)) _ Hw eq_refl).
Qed.

Lemma within_confirm V g v : within V g → within V (confirm_migration g v).1.
Proof.
  unfold confirm_migration. intros Hw. destruct (_ ≫= _); [|done]. by apply within_filter.
Qed.

Lemma within_records V g l : within V g → (∀ r, r ∈ l → ∃ x, x ∈ records g ∧ legacy r = legacy x ∧ verifier r = verifier x) →
  within V (g <| records := l |>).
Proof.
  intros Hw Hl r Hr. destruct (Hl r Hr) as (x & Hx & -> & ->). by apply Hw.
Qed.

Lemma within_verify V g t v : within V g → verify_digest g t (Some v) now = Some true → v ∈ V.
Proof.
  unfold verify_digest. intros Hw. destruct (negb _); [done|]. intros [= He].
  apply existsb_exists in He as (r & Hr & Hb). apply list_elem_of_In in Hr.
  apply andb_true_iff in Hb as [_ <-%bool_decide_eq_true]. by apply Hw.
Qed.

Lemma within_no_legacy V g t lv : within V g → verify_legacy g t lv now ≠ Some true.
Proof.
  unfold verify_legacy. intros Hw. destruct (negb _); [done|]. destruct lv as [v|]; [|done].
  intros [= He]. apply existsb_exists in He as (r & Hr & Hb). apply list_elem_of_In in Hr.
  destruct (Hw r Hr) as [Hl _]. by rewrite Hl in Hb.
Qed.

(** *** Handlers *)
Lemma triple_pure {A} (P : Host → Prop) (φ : Prop) (m : TD A) Q E :
  (φ → triple P m Q E) → triple (λ h, P h ∧ φ) m Q E.
Proof. intros Hm h [Hh Hφ]. by apply Hm. Qed.

Lemma triple_load V s :
  triple (inv V) (load_grants OVERWRITE_SETTINGS DEFAULT_SETTINGS HARD_SETTINGS now s)
    (λ g h, inv V h ∧ within V g) (inv V).
Proof.
  eapply triple_bind; [apply triple_unavailable, triple_read|]. intros g.
  apply triple_pure. intros Hw.
  eapply triple_bind; [apply triple_unavailable, triple_exists|]. intros b.
  eapply (triple_pre _ (inv V)); [by intros h [? _]|].
  eapply (triple_bind _ _ _ _ (λ g h, inv V h ∧ within V g)).
  - destruct b; cbn [negb].
    + destruct (negb _); [by apply triple_fail|]. apply triple_ret; auto.
    + eapply triple_bind; [apply triple_revoke|]. intros g'. apply triple_pure. intros [_ Hnil].
      assert (within V g') as Hw' by (intros r Hr; rewrite Hnil in Hr; set_solver).
      eapply triple_bind; [by apply triple_unavailable, (triple_write V V)|].
      intros []. apply triple_ret; auto.
  - intros g'. apply triple_pure. intros Hw'.
    pose proof (within_cleanup V now g' Hw') as Hc. destruct (cleanup now g') as [g2 changed].
    eapply triple_bind.
    + destruct changed; [by apply triple_unavailable, (triple_write V V)|apply triple_ret; auto].
    + intros []. apply triple_ret; auto.
Qed.

(** [authorize] with a change of the grants that depends on the result. *)
Lemma triple_authorize {T} V s (apply : Grants → Z → TD (T * option Grants)) (W : T → list bytes) (φ : T → Prop) :
  (∀ g d, within V g → triple (inv V) (apply g d)
    (λ r h, inv V h ∧ φ r.1 ∧ match r.2 with Some g' => within (W r.1) g' | None => V ⊆ W r.1 end) (inv V)) →
  triple (inv V) (authorize OVERWRITE_SETTINGS DEFAULT_SETTINGS HARD_SETTINGS now s apply)
    (λ x h, inv (W x) h ∧ φ x) (inv V).
Proof.
  intros Happly. eapply triple_bind; [apply triple_snapshot|]. intros settings.
  destruct (_ || _); [by apply triple_fail|]. destruct (negb _); [by apply triple_fail|].
  eapply triple_bind; [apply triple_load|]. intros g. apply triple_pure. intros Hw.
  eapply triple_bind; [by apply Happly|]. intros [x ch]. cbn. apply triple_pure. intros [Hφ Hch].
  eapply (triple_bind _ _ _ _ (λ _ h, inv (W x) h)).
  - destruct ch as [g'|]; [by apply triple_unavailable, triple_write|].
    apply triple_ret. intros h. by apply inv_mono.
  - intros []. apply triple_ret; auto.
Qed.

Lemma triple_clear V :
  triple (inv V) (clear OVERWRITE_SETTINGS DEFAULT_SETTINGS HARD_SETTINGS) (λ _ h, inv [] h) (inv V).
Proof.
  eapply triple_bind; [apply triple_exists|]. intros b.
  destruct b; cbn [negb]; [|apply triple_ret; intros h [_ Hn]; by apply Hn].
  eapply (triple_pre _ (inv V)); [by intros h [? _]|].
  eapply triple_bind; [eapply (triple_attempt _ _ _ _ (λ _ h, inv V h)); [apply triple_snapshot|done|done]|].
  intros settings. eapply triple_bind; [apply triple_revoke|]. intros g. apply triple_pure. intros [_ Hnil].
  apply triple_write. intros r Hr. rewrite Hnil in Hr. set_solver.
Qed.

Lemma inv_nil V h : inv [] h → inv V h.
Proof. apply inv_mono. set_solver. Qed.

(** An authentication change revokes everything. *)
Lemma triple_change {T} V (apply : TD T) :
  (∀ V, triple (inv V) apply (λ _ h, inv V h) (inv V)) →
  triple (inv V) (change OVERWRITE_SETTINGS DEFAULT_SETTINGS HARD_SETTINGS true apply)
    (λ _ h, inv [] h) (inv V).
Proof.
  intros Ha. unfold change. cbn [negb]. eapply triple_bind; [apply triple_exists|]. intros b.
  destruct b; cbn [negb].
  - eapply (triple_pre _ (inv V)); [by intros h [? _]|].
    eapply triple_bind; [apply triple_revoke|]. intros g. apply triple_pure. intros [_ Hnil].
    eapply (triple_bind _ _ _ _ (λ _ h, inv [] h)).
    { apply triple_write. intros r Hr. rewrite Hnil in Hr. set_solver. }
    intros []. eapply (triple_conseq (inv []) (inv []) _ (inv []) _ _ (λ _ h, inv [] h)); [|done|done|apply inv_nil].
    eapply triple_bind; [apply Ha|]. intros x.
    eapply triple_bind; [apply triple_snapshot|]. intros settings.
    eapply triple_bind; [apply triple_revoke|]. intros g'. apply triple_pure. intros [_ Hnil'].
    eapply (triple_bind _ _ _ _ (λ _ h, inv [] h)).
    { apply triple_write. intros r Hr. rewrite Hnil' in Hr. set_solver. }
    intros []. apply triple_ret; auto.
  - eapply (triple_pre _ (inv [])); [intros h [_ Hn]; by apply Hn|].
    eapply (triple_conseq (inv []) (inv []) _ (inv [])); [apply Ha|done|done|apply inv_nil].
Qed.

Lemma triple_change_none {T} V (apply : TD T) b :
  (∀ V, triple (inv V) apply (λ _ h, inv V h) (inv V)) →
  triple (inv V) (change OVERWRITE_SETTINGS DEFAULT_SETTINGS HARD_SETTINGS b apply)
    (λ _ h, inv V h ∧ (b = true → inv [] h)) (inv V).
Proof.
  intros Ha. destruct b.
  - eapply triple_conseq; [by apply triple_change|done| |done]. intros a h Hn. split; [by apply inv_nil|done].
  - eapply triple_conseq; [apply Ha|done| |done]. by intros a h ?.
Qed.

Lemma triple_initialize V :
  triple (inv V) (initialize OVERWRITE_SETTINGS DEFAULT_SETTINGS HARD_SETTINGS now) (λ _ h, inv V h) (inv V).
Proof.
  eapply triple_bind; [by apply (triple_lift _ _ _ (λ _ h, inv V h))|]. intros f.
  assert (triple (inv V)
    (has ← storage_exists;
     if negb has then mret tt
     else
      g ← storage_read OVERWRITE_SETTINGS DEFAULT_SETTINGS HARD_SETTINGS now;
      cur ← snapshot;
      let scope_changed := negb (matches_scope g (snap_scope cur)) in
      g ← (if scope_changed then revoke (Some (snap_scope cur)) else mret g);
      let '(g, changed) := update_expiration (validity_days cur) now g in
      if changed || scope_changed then storage_write g else mret tt)
    (λ _ h, inv V h) (inv V)) as Hmain; [|destruct f; [exact Hmain|by apply triple_ret|exact Hmain..]].
  eapply triple_bind; [apply triple_exists|]. intros b.
  eapply (triple_pre _ (inv V)); [by intros h [? _]|].
  destruct b; cbn [negb]; [|apply triple_ret; auto].
  eapply triple_bind; [apply triple_read|]. intros g. apply triple_pure. intros Hw.
  eapply triple_bind; [apply triple_snapshot|]. intros cur. cbv zeta.
  eapply (triple_bind _ _ _ _ (λ g h, inv V h ∧ within V g)).
  - destruct (negb _); [|apply triple_ret; auto].
    eapply triple_conseq; [apply triple_revoke|done| |done]. intros g' h (Hi & _ & Hnil).
    split; [done|]. intros r Hr. rewrite Hnil in Hr. set_solver.
  - intros g'. apply triple_pure. intros Hw'.
    pose proof (within_expiration V (validity_days cur) now g' Hw') as He.
    destruct (update_expiration _ now g') as [g2 changed].
    destruct (_ || _); [by apply triple_write|apply triple_ret; auto].
Qed.

Lemma triple_remove V ids :
  triple (inv V) (remove OVERWRITE_SETTINGS DEFAULT_SETTINGS HARD_SETTINGS now ids) (λ _ h, inv V h) (inv V).
Proof.
  eapply triple_bind; [apply triple_read|]. intros g. apply triple_pure. intros Hw. cbv zeta.
  case_bool_decide; [by apply triple_ret|]. apply triple_write. by apply within_filter.
Qed.

Lemma triple_renew V ids :
  triple (inv V) (renew OVERWRITE_SETTINGS DEFAULT_SETTINGS HARD_SETTINGS now ids) (λ _ h, inv V h) (inv V).
Proof.
  unfold renew. case_bool_decide; [by apply triple_fail|].
  eapply triple_bind; [apply triple_snapshot|]. intros settings.
  destruct (_ || _); [by apply triple_fail|]. destruct (_ =? _); [by apply triple_fail|].
  eapply triple_bind; [apply triple_load|]. intros g. apply triple_pure. intros Hw.
  destruct (negb _); [by apply triple_fail|]. cbv zeta. apply triple_write.
  apply within_records; [done|]. intros r Hr. apply list_elem_of_fmap in Hr as (x & -> & Hx).
  exists x. by case_bool_decide.
Qed.

Lemma triple_devices V :
  triple (inv V) (devices OVERWRITE_SETTINGS DEFAULT_SETTINGS HARD_SETTINGS now) (λ _ h, inv V h) (inv V).
Proof.
  eapply triple_bind; [apply triple_exists|]. intros b.
  eapply (triple_pre _ (inv V)); [by intros h [? _]|].
  destruct b; cbn [negb]; [|by apply triple_ret].
  eapply triple_bind; [apply triple_snapshot|]. intros cur.
  eapply triple_bind; [apply triple_load|]. intros g. apply triple_ret. by intros h [? _].
Qed.

(** What a credential that was accepted says. *)
Definition accepted (V : list bytes) (v : option bytes) (c : option Credential) : Prop :=
  match c with
  | None => True
  | Some (Token w) => v = Some w ∧ w ∈ V
  | Some (Legacy _) => False
  end.

Lemma triple_authority_begin V s v lv :
  triple (inv V) (authority_begin OVERWRITE_SETTINGS DEFAULT_SETTINGS HARD_SETTINGS now s v lv)
    (λ r h, inv V h ∧ accepted V v r.2) (inv V).
Proof.
  eapply (triple_authorize V s _ (λ _, V) (λ r, accepted V v r.2)). intros g d Hw.
  eapply (triple_bind _ _ _ _ (λ _ h, inv V h)); [by apply triple_of_option|]. intros t.
  eapply (triple_bind _ _ _ _ (λ b h, inv V h ∧ verify_digest g t v now = Some b)).
  { apply triple_of_option; auto. }
  intros b. apply triple_pure. intros Hb. destruct b.
  - destruct v as [v|]; [|by unfold verify_digest in Hb; destruct (negb _)].
    pose proof (within_confirm V g v Hw) as Hc. destruct (confirm_migration g v) as [g' changed].
    apply triple_ret. intros h Hi. split; [done|]. split.
    + cbn. split; [done|]. by eapply (within_verify V g t v).
    + destruct changed; [exact Hc|set_solver].
  - eapply (triple_bind _ _ _ _ (λ b h, inv V h ∧ verify_legacy g t lv now = Some b)).
    { apply triple_of_option; auto. }
    intros b. apply triple_pure. intros Hl. destruct b; [by apply (within_no_legacy V) in Hl|].
    apply triple_ret. intros h Hi. cbn. set_solver.
Qed.

Lemma triple_totp V data : triple (inv V) (totp_from_str data) (λ _ h, inv V h) (inv V).
Proof.
  eapply (triple_bind _ _ _ _ (λ _ h, inv V h)); [by apply triple_of_option|]. intros i.
  eapply triple_bind; [apply triple_runs, runs_decrypt_vec|]. intros [[secret success] again].
  eapply (triple_pre _ (inv V)); [by intros h [? _]|].
  destruct (negb success); [by apply triple_fail|by apply triple_of_option].
Qed.

Lemma triple_host_begin V p :
  triple (inv V) (host_begin OVERWRITE_SETTINGS DEFAULT_SETTINGS HARD_SETTINGS now p)
    (λ r h, inv V h ∧ match r with
                      | Some (a, true, _) =>
                          len (proof_token p) = TOKEN_BYTES ∧ sha256 (proof_token p) ∈ V
                      | _ => True
                      end) (inv V).
Proof.
  eapply (triple_bind _ _ _ _ (λ _ h, inv V h)).
  - eapply triple_bind; [apply triple_snapshot|]. intros settings.
    destruct (_ || _); [by apply triple_ret|].
    eapply (triple_bind _ _ _ _ (λ _ h, inv V h)).
    { unfold verify_password. eapply (triple_bind _ _ _ _ (λ _ h, inv V h)); [by apply triple_of_option|].
      intros h1. destruct (_ || _); [by apply triple_fail|by apply triple_ret]. }
    intros []. eapply triple_bind; [apply triple_totp|]. intros totp. by apply triple_ret.
  - intros [[s totp]|]; [|by apply triple_ret].
    eapply (triple_bind _ _ _ _ (λ r h, inv V h ∧
      match r with Ok (_, c) => accepted V (token_verifier (proof_token p)) c | Err _ => True end)).
    { eapply (triple_attempt _ _ _ _ _ (triple_authority_begin V s _ _)); [by intros [t c] h ?|done]. }
    intros [[t c]|[]]; [|by apply triple_ret; intros h [? _]|by apply triple_fail; intros h [? _]].
    apply triple_pure. intros Hc. cbv zeta.
    destruct (negb (bool_decide (is_Some c)) && negb (supports_v2 p)); [by apply triple_ret|].
    apply triple_ret. intros h Hi. split; [done|]. case_bool_decide as Hs; [|done].
    destruct c as [[w|w]|]; [|done|by destruct Hs]. destruct Hc as [Hv Hw].
    unfold token_verifier in Hv. destruct (Z.eqb_spec (len (proof_token p)) TOKEN_BYTES); [|done].
    by simplify_eq.
Qed.

Lemma triple_check V a :
  triple (inv V) (check OVERWRITE_SETTINGS DEFAULT_SETTINGS HARD_SETTINGS now a) (λ _ h, inv V h) (inv V).
Proof.
  eapply triple_conseq; [eapply (triple_authorize V _ _ (λ _, V) (λ _, True))|done|by intros [] h [? _]|done].
  intros g d Hw. eapply (triple_bind _ _ _ _ (λ _ h, inv V h)); [by apply triple_of_option|].
  intros valid. destruct (_ && _); [by apply triple_fail|].
  apply triple_ret. intros h Hi. cbn. set_solver.
Qed.

(** The verifiers after a token was given out. *)
Definition issued (V : list bytes) (token : bytes) : list bytes :=
  if bool_decide (token = []) then V else sha256 token :: V.

Lemma triple_finish V a i :
  triple (inv V) (finish OVERWRITE_SETTINGS DEFAULT_SETTINGS HARD_SETTINGS now a i)
    (λ token h, inv (issued V token) h) (inv V).
Proof.
  unfold finish. destruct (negb (enroll a)); [by apply triple_ret|].
  eapply triple_conseq; [eapply (triple_authorize V _ _ (issued V) (λ _, True))|done|by intros t h [? _]|done].
  intros g d Hw.
  eapply (triple_bind _ _ _ _ (λ t h, inv V h ∧ len t = TOKEN_BYTES)).
  { eapply triple_conseq; [apply (triple_runs V _ (λ t, len t = TOKEN_BYTES))|done|done|done].
    apply runs_draw, len_random_bytes. }
  intros t. apply triple_pure. intros Hlen.
  assert (issued V t = sha256 t :: V) as Hiss.
  { unfold issued. rewrite bool_decide_false; [done|]. by intros ->. }
  eapply (triple_bind _ _ _ _ (λ g' h, inv V h ∧ within (sha256 t :: V) g')).
  - destruct (credential a) as [[w|w]|]; (apply triple_of_option; [|done]); intros g' h Hg' Hi;
      (split; [done|]); [by eapply within_enroll|by eapply within_migrate|by eapply within_enroll].
  - intros g'. apply triple_pure. intros Hw'. apply triple_ret. intros h Hi. cbn. by rewrite Hiss.
Qed.

(** *** Changes of the configuration *)
#[local] Hint Resolve quiet_crypt quiet_decrypt_str quiet_keep : quiet.

Lemma quiet_auto n chars : quiet (get_auto_password_with_chars n chars).
Proof. induction n as [|n IH]; cbn; quiet. Qed.
#[local] Hint Resolve quiet_auto : quiet.

Lemma quiet_decode_h1 storage : quiet (decode_permanent_password_h1_from_storage storage).
Proof.
  unfold decode_permanent_password_h1_from_storage, decrypt_permanent_password_str_or_original.
  quiet.
Qed.
#[local] Hint Resolve quiet_decode_h1 : quiet.

Lemma quiet_usable storage s : quiet (local_permanent_password_storage_is_usable_for_auth storage s).
Proof.
  unfold local_permanent_password_storage_is_usable_for_auth, decrypt_permanent_password_str_or_original.
  quiet.
Qed.
#[local] Hint Resolve quiet_usable : quiet.

Lemma quiet_encrypt_str s : quiet (encrypt_str_or_original s PASSWORD_ENC_VERSION ENCRYPT_MAX_LEN).
Proof. unfold encrypt_str_or_original, encrypt. quiet. Qed.
#[local] Hint Resolve quiet_encrypt_str : quiet.

Lemma quiet_store c : quiet (store c).
Proof.
  unfold store, prepare_config_for_store, validate_or_decrypt_permanent_password_storage,
    decrypt_permanent_password_str_or_original, seal_password, seal_id, load_, store_.
  quiet.
  apply quiet_modify. intros h. by destruct (can_write h).
Qed.
#[local] Hint Resolve quiet_store : quiet.

Lemma quiet_update f : quiet (update_config f).
Proof. unfold update_config. quiet. Qed.
#[local] Hint Resolve quiet_update : quiet.

Lemma quiet_set_password pw : quiet (set_permanent_password BUILTIN_SETTINGS HARD_SETTINGS pw).
Proof.
  unfold set_permanent_password, compute_permanent_password_storage_for_update,
    ensure_permanent_password_salt, get_auto_password,
    encode_permanent_password_encrypted_storage_from_h1, encrypt_permanent_password_storage.
  quiet.
Qed.

Lemma config2_store_good O c h : good O h → good O (Config2.store c h).2.
Proof.
  intros Hg. unfold Config2.store, gets. unfold mbind, host_bind.
  destruct (try_load_path_for_store default_config2 (file2 h)) as [stored|]; [|done]. cbv zeta.
  match goal with |- context [Config2.map_socks_password tt ?f ?c1 h] =>
    pose proof (runs_map_socks uid okp tt f c1 (λ _ _, True)) as Hms end.
  assert (∀ a b, runs (keep_encrypted_storage_if_plaintext_unchanged a b) (λ _, True)) as Hkeep.
  { intros a b. eapply runs_step; [apply runs_decrypt_str|]. destruct (plain_str _ _ b) as [[??]?].
    destruct (_ && _); [by apply runs_ret|apply runs_encrypt_any]. }
  destruct (Hms ltac:(intros; eapply runs_bind; [apply Hkeep|intros; by apply runs_ret]) h (good_ready _ _ _ _ Hg))
    as ([c2 []] & h1 & E & _ & Hs1 & Hr1).
  unfold mbind, host_bind in E. rewrite E. clear E Hms.
  destruct (Hkeep (unlock_pin c2) (unlock_pin stored) h1 Hr1) as (pin & h2 & -> & _ & Hs2 & Hr2).
  assert (good O h2) as Hg2.
  { eapply good_same; [etrans; [exact Hs1|exact Hs2]|exact Hr2|exact Hg]. }
  unfold Config2.store_path. destruct (can_write h2); [|done].
  destruct Hg2 as [[] ? ?]. split; [by constructor|done..].
Qed.

Lemma triple_settings V f (E : Host → Prop) : triple (inv V) (lift (Config2.update f)) (λ _ h, inv V h) E.
Proof.
  apply triple_lift. intros h [[O Hg] (v & Hv & Hw)]. split.
  - exists O. unfold Config2.update, modify, gets. unfold mbind, host_bind. apply config2_store_good.
    destruct Hg as [[] ? ?]. split; [by constructor|done..].
  - exists v. split; [|done]. by apply update_keeps_grants.
Qed.

Lemma triple_set_settings V o (E : Host → Prop) :
  triple (inv V) (lift (config_set_options OVERWRITE_SETTINGS DEFAULT_SETTINGS o)) (λ _ h, inv V h) E.
Proof.
  intros h Hi. unfold lift, config_set_options, gets. unfold mbind, host_bind.
  case_bool_decide; [done|]. by apply (triple_settings V _ E).
Qed.

Lemma changes_password_inv V pw h :
  inv V h → inv V (changes_password BUILTIN_SETTINGS HARD_SETTINGS pw h).2.
Proof.
  intros Hi. unfold changes_password, gets.
  destruct (is_disable_change_permanent_password _); [done|]. unfold mbind, host_bind.
  destruct (get_local_permanent_password_storage_and_salt h) as [p s].
  destruct (negb _); [done|]. destruct (is_empty pw); [done|].
  destruct (runs_normalize p s false h (inv_ready _ _ Hi)) as ([h1 s1] & h' & -> & _ & Hs & Hr).
  by eapply inv_same.
Qed.

Lemma changes_password_config V pw h :
  inv V h → CONFIG (changes_password BUILTIN_SETTINGS HARD_SETTINGS pw h).2 = CONFIG h.
Proof.
  intros Hi. unfold changes_password, gets.
  destruct (is_disable_change_permanent_password _); [done|]. unfold mbind, host_bind.
  destruct (get_local_permanent_password_storage_and_salt h) as [p s].
  destruct (negb _); [done|]. destruct (is_empty pw); [done|].
  destruct (runs_normalize p s false h (inv_ready _ _ Hi)) as ([h1 s1] & h' & -> & _ & Hs & Hr).
  apply (same_config _ _ Hs).
Qed.

Lemma triple_set_password V pw :
  triple (inv V) (set_password OVERWRITE_SETTINGS DEFAULT_SETTINGS BUILTIN_SETTINGS HARD_SETTINGS pw)
    (λ _ h, inv V h) (inv V).
Proof.
  eapply (triple_bind _ _ _ _ (λ _ h, inv V h)).
  - apply triple_lift. intros h. apply changes_password_inv.
  - intros b. eapply triple_conseq; [apply triple_change_none|done|by intros ? h [? _]|done].
    intros V'. apply triple_config; [apply quiet_set_password|].
    intros O h Hg. eexists. by apply set_password_good.
Qed.

Lemma triple_password_change V pw :
  triple (inv V) (change OVERWRITE_SETTINGS DEFAULT_SETTINGS HARD_SETTINGS true
      (lift (set_permanent_password BUILTIN_SETTINGS HARD_SETTINGS pw)))
    (λ _ h, inv [] h) (inv V).
Proof.
  apply triple_change. intros V'. apply triple_config; [apply quiet_set_password|].
  intros O h Hg. eexists. by apply set_password_good.
Qed.

Lemma triple_change_options V o :
  triple (inv V) (set_options OVERWRITE_SETTINGS DEFAULT_SETTINGS HARD_SETTINGS now o) (λ _ h, inv V h) (inv V).
Proof.
  unfold set_options, change_options.
  eapply (triple_bind _ _ _ _ (λ _ h, inv V h)); [by apply triple_lift|]. intros old.
  destruct (authentication_changed _ _).
  { eapply triple_conseq; [apply triple_change; intros V'; apply triple_set_settings|done| |done].
    intros [] h. apply inv_nil. }
  destruct (_ =? _); [apply triple_set_settings|].
  eapply triple_bind; [apply triple_exists|]. intros b. eapply (triple_pre _ (inv V)); [by intros h [? _]|].
  destruct (negb b); [apply triple_set_settings|].
  eapply triple_bind; [apply triple_snapshot|]. intros settings.
  eapply triple_bind; [apply triple_read|]. intros g. apply triple_pure. intros Hw.
  destruct (negb _); [apply triple_set_settings|].
  eapply triple_bind; [by apply triple_write, within_expiration|]. intros []. apply triple_set_settings.
Qed.

Lemma grants_write_config g h : ready h → CONFIG (storage_write g h).2 = CONFIG h.
Proof.
  intros Hr. unfold storage_write, set_trusted_devices_v2, lift. unfold mbind, td_bind.
  destruct (runs_seal uid okp (grants_to_json g) h Hr) as (r & h2 & -> & (data & -> & _) & Hs2 & _).
  cbn [of_option]. unfold mret, td_ret.
  pose proof (set_grants_frame ("00" +:+ b64_encode data) h2) as Hf.
  destruct (Config2.set_trusted_devices_v2 _ h2) as [[] h3].
  - destruct Hf as (c & f & ->). apply (same_config _ _ Hs2).
  - subst h3. apply (same_config _ _ Hs2).
Qed.

(** Whatever [apply] does and wherever the change fails: either the configuration is
    as it was, or everything is revoked. *)
Lemma change_fails_closed {T} V (apply : TD T) h :
  (∀ V, triple (inv V) apply (λ _ h, inv V h) (inv V)) → inv V h →
  let h' := (change OVERWRITE_SETTINGS DEFAULT_SETTINGS HARD_SETTINGS true apply h).2 in
  CONFIG h' = CONFIG h ∨ inv [] h'.
Proof.
  intros Ha Hi. unfold change. cbn [negb].
  pose proof (triple_exists V h Hi) as Hex.
  assert (storage_exists h = ((storage_exists h).1, h)) as Eex.
  { unfold storage_exists, get_trusted_device_stores, lift, gets, of_option. unfold mbind, td_bind.
    destruct (Config2.has_trusted_devices_v2 h) as [[]|]; [done| |done].
    cbn. by destruct (Config2.get_trusted_device_stores h) as [[]|]. }
  rewrite Eex in Hex. destruct (storage_exists h).1 as [[]|e];
    [rewrite (td_bind_ok _ _ _ _ _ Eex)..|left; by rewrite (td_bind_err _ _ _ _ _ Eex)]; cbn [negb].
  - destruct (runs_draw uid okp random_bytes (λ _, True) (λ _, I) h (inv_ready _ _ Hi)) as (t & h1 & Ed & _ & Hs & Hr).
    assert (revoke None h = (Ok (mkGrants None t []), h1)) as Erev.
    { unfold revoke, random_token, lift. unfold mbind, td_bind. by rewrite Ed. }
    rewrite (td_bind_ok _ _ _ _ _ Erev).
    assert (inv V h1) as Hi1 by by eapply inv_same.
    assert (within [] (mkGrants None t [])) as Hw by (intros r Hr'; cbn in Hr'; set_solver).
    pose proof (triple_write V [] _ Hw h1 Hi1) as Hwr.
    pose proof (grants_write_config (mkGrants None t []) h1 Hr) as Hcw.
    destruct (storage_write (mkGrants None t []) h1) as [[[]|e] h2] eqn:Ew.
    + right. rewrite (td_bind_ok _ _ _ _ _ Ew).
      assert (triple (inv []) (result ← apply; settings ← snapshot; g ← revoke (Some (snap_scope settings));
        storage_write g;; mret result) (λ _ h, inv [] h) (inv [])) as Hrest.
      { eapply triple_bind; [apply Ha|]. intros x.
        eapply triple_bind; [apply triple_snapshot|]. intros settings.
        eapply triple_bind; [apply triple_revoke|]. intros g'. apply triple_pure. intros [_ Hnil'].
        eapply (triple_bind _ _ _ _ (λ _ h, inv [] h)).
        { apply triple_write. intros r Hr'. rewrite Hnil' in Hr'. set_solver. }
        intros []. by apply triple_ret. }
      specialize (Hrest h2 Hwr). by destruct ((result ← apply; _) h2) as [[]].
    + left. rewrite (td_bind_err _ _ _ _ _ Ew). cbn in Hcw |- *. rewrite Hcw. apply (same_config _ _ Hs).
  - right. destruct Hex as [_ Hn]. specialize (Ha [] h (Hn eq_refl)). by destruct (apply h) as [[]].
Qed.

(** *** A token just given out *)

Definition read_result {T} (d : T) (f : Stored T) : result T Error :=
  match f with
  | Loaded v => Ok v
  | NotFound => Ok d
  | BadTomlData => Err (Other "Read trusted-device authentication settings")
  | InvalidData | ReadError => Err (Other "Open trusted-device authentication settings")
  end.

Lemma read_settings_result {T} (d : T) f h : read_settings d f h = (read_result d f, h).
Proof. by destruct f. Qed.

Definition stored_options (f : Stored Config2) : Stored (gmap string string) :=
  match f with
  | Loaded c => Loaded (TransportConfig.TransportConfig.options (net c))
  | NotFound => NotFound
  | BadTomlData => BadTomlData
  | InvalidData => InvalidData
  | ReadError => ReadError
  end.

(** [snapshot] as a function of the configuration, in memory and on disk. *)
Definition pure_snapshot (h : Host) : result Snapshot Error :=
  let cur := pure_build (password (CONFIG h)) (salt (CONFIG h))
    (get_options OVERWRITE_SETTINGS DEFAULT_SETTINGS h) false in
  let? o := read_result ∅ (stored_options (file2 h)) in
  let? c := read_result default_config (file h) in
  let stored := pure_build (password c) (salt c)
    (effective_options OVERWRITE_SETTINGS DEFAULT_SETTINGS o) true in
  if bool_decide (snap_scope cur = snap_scope stored)
     && (validity_days cur =? validity_days stored)
  then Ok cur
  else Err (Other "Trusted-device authentication settings are out of sync; reconnect after configuration sync").

Lemma snapshot_spec h : ready h →
  ∃ h1, snapshot h = (pure_snapshot h, h1) ∧ same h h1 ∧ ready h1.
Proof.
  intros Hr. unfold TrustedDevices.snapshot, lift, gets, pure_snapshot. unfold mbind, td_bind.
  destruct (runs_build (password (CONFIG h)) (salt (CONFIG h))
    (get_options OVERWRITE_SETTINGS DEFAULT_SETTINGS h) false h Hr) as (b & h1 & -> & <- & Hs1 & Hr1).
  change (match file2 h with Loaded _ => _ | _ => _ end) with (stored_options (file2 h)).
  rewrite read_settings_result. destruct (read_result ∅ _) as [o|e]; cbn [result_bind]; [|by exists h1].
  rewrite read_settings_result. destruct (read_result default_config _) as [c|e]; cbn [result_bind]; [|by exists h1].
  destruct (runs_build (password c) (salt c)
    (effective_options OVERWRITE_SETTINGS DEFAULT_SETTINGS o) true h1 Hr1) as (b & h2 & -> & <- & Hs2 & Hr2).
  exists h2. destruct (_ && _); (split_and!; [done|by etrans|done]).
Qed.

Lemma snapshot_same h h' : same h h' → pure_snapshot h' = pure_snapshot h.
Proof.
  intros Hs. unfold pure_snapshot, get_options.
  by rewrite (same_config _ _ Hs), (same_config2 _ _ Hs), (same_file _ _ Hs), (same_file2 _ _ Hs).
Qed.

(** Under a machine in order, with grants [g] on disk and no legacy store. *)
Record holds (g : Grants) (h : Host) : Prop := {
  holds_ready : ready h;
  holds_value : ∃ v, Config2.get_trusted_device_stores h = Some (v, "") ∧ v ≠ "" ∧
                pure_grants v = Some g;
}.

Lemma holds_same g h h' : same h h' → ready h' → holds g h → holds g h'.
Proof.
  intros Hs Hr [_ Hv]. split; [done|]. by rewrite (grants_congr h) by apply Hs.
Qed.

Lemma holds_exists g h : holds g h → storage_exists h = (Ok true, h).
Proof.
  intros [_ (v & Hv & Hne & _)]. unfold storage_exists, lift, gets. unfold mbind, td_bind.
  unfold Config2.has_trusted_devices_v2. unfold Config2.get_trusted_device_stores in Hv.
  destruct (try_load_path default_config2 (file2 h)) as [c|]; [|done]. cbn in Hv |- *.
  unfold Config2.trusted_devices_v2 in Hv.
  destruct (trusted_devices_v2_field c) as [[w|]|]; cbn in Hv; simplify_eq.
  rewrite bool_decide_false; [done|]. by intros [= ->].
Qed.

Lemma holds_read g h : holds g h →
  ∃ h', storage_read OVERWRITE_SETTINGS DEFAULT_SETTINGS HARD_SETTINGS now h = (Ok g, h') ∧
        same h h' ∧ ready h'.
Proof.
  intros [Hr (v & Hv & Hne & Hg)]. unfold storage_read, get_trusted_device_stores, lift, gets.
  unfold mbind, td_bind. rewrite Hv. cbn [of_option mret td_ret].
  destruct (runs_decode_grants v h Hr) as (r & h1 & E & <- & Hs & Hr1). rewrite Hg in E.
  exists h1. unfold mret, td_ret. by rewrite E.
Qed.

(** Writing works when files can be written. *)
Lemma grants_write_spec g h v : ready h → can_write h = true →
  Config2.get_trusted_device_stores h = Some v →
  ∃ h', storage_write g h = (Ok tt, h') ∧ holds g h' ∧ can_write h' = true.
Proof.
  intros Hr Hw Hv. unfold storage_write, set_trusted_devices_v2, lift. unfold mbind, td_bind.
  destruct (runs_seal uid okp (grants_to_json g) h Hr) as (r & h1 & -> & (data & -> & Hs) & Hs1 & Hr1).
  cbn [of_option]. unfold mret, td_ret.
  pose proof (set_grants_frame ("00" +:+ b64_encode data) h1) as Hf.
  destruct (Config2.set_trusted_devices_v2 ("00" +:+ b64_encode data) h1) as [b h2] eqn:E.
  assert (b = true) as ->.
  { revert E. unfold Config2.set_trusted_devices_v2, Config2.sync_trusted_devices, gets, modify.
    unfold mbind, host_bind.
    unfold Config2.get_trusted_device_stores in Hv. rewrite <- (same_file2 _ _ Hs1) in Hv.
    assert (is_Some (try_load_path default_config2 (file2 h1))) as [stored Hl].
    { by destruct (try_load_path default_config2 (file2 h1)). }
    change (Config2.trusted_devices_v2 _) with (Some ("00" +:+ b64_encode data)). cbv beta iota.
    rewrite Hl.
    case_bool_decide; [by intros [= <- _]|]. unfold Config2.store_path.
    rewrite (same_write _ _ Hs1), Hw. by intros [= <- _]. }
  destruct Hf as (c & f & ->). apply set_grants_stores in E. eexists. split; [done|].
  split; [split|].
  - destruct Hr1. by constructor.
  - exists ("00" +:+ b64_encode data). split; [done|]. split; [done|by apply sealed_grants].
  - cbn. by rewrite (same_write _ _ Hs1).
Qed.

Lemma grants_write_ok g h h' : ready h → storage_write g h = (Ok tt, h') → holds g h'.
Proof.
  intros Hr. unfold storage_write, set_trusted_devices_v2, lift. unfold mbind, td_bind.
  destruct (runs_seal uid okp (grants_to_json g) h Hr) as (r & h1 & -> & (data & -> & Hs) & Hs1 & Hr1).
  cbn [of_option]. unfold mret, td_ret.
  pose proof (set_grants_frame ("00" +:+ b64_encode data) h1) as Hf.
  destruct (Config2.set_trusted_devices_v2 ("00" +:+ b64_encode data) h1) as [[] h2] eqn:E; [|done].
  intros [= <-]. apply set_grants_stores in E. destruct Hf as (c & f & ->). split.
  - destruct Hr1. by constructor.
  - exists ("00" +:+ b64_encode data). split; [done|]. split; [done|by apply sealed_grants].
Qed.

Lemma load_holds g s h :
  holds g h → matches_scope g s = true → can_write h = true →
  ∃ h', load_grants OVERWRITE_SETTINGS DEFAULT_SETTINGS HARD_SETTINGS now s h
          = (Ok (cleanup now g).1, h') ∧
        can_write h' = true ∧ ∃ g', holds g' h'.
Proof.
  intros Hh Hm Hw. unfold load_grants, unavailable. unfold mbind, td_bind.
  destruct (holds_read g h Hh) as (h1 & -> & Hs1 & Hr1).
  assert (holds g h1) as Hh1 by by eapply holds_same.
  rewrite (holds_exists g h1 Hh1). cbn [negb]. rewrite Hm. cbn [negb]. unfold mret, td_ret.
  assert (can_write h1 = true) as Hw1 by by rewrite (same_write _ _ Hs1).
  destruct (cleanup now g) as [g2 changed]. destruct changed.
  - destruct Hh1 as [Hr (v & Hv & _)].
    destruct (grants_write_spec g2 h1 (v, "") Hr Hw1 Hv) as (h2 & -> & Hh2 & Hw2).
    exists h2. split; [done|]. split; [done|by exists g2].
  - exists h1. split; [done|]. split; [done|by exists g].
Qed.

Lemma begin_settings_spec p h s totp h2 :
  ready h →
  begin_settings OVERWRITE_SETTINGS DEFAULT_SETTINGS HARD_SETTINGS p h = (Ok (Some (s, totp)), h2) →
  same h h2 ∧ ready h2 ∧ ∃ settings, pure_snapshot h = Ok settings ∧ snap_scope settings = s ∧
    negb (enabled settings) || is_empty (snap_totp settings) = false.
Proof.
  intros Hr. unfold begin_settings. unfold mbind, td_bind.
  destruct (snapshot_spec h Hr) as (h1 & -> & Hs1 & Hr1).
  destruct (pure_snapshot h) as [settings|e]; [|done].
  destruct (_ || _) eqn:Hen; [done|].
  unfold verify_password. unfold mbind, td_bind.
  destruct (snap_h1 settings) as [w|]; cbn [of_option]; [|done]. unfold mret, td_ret.
  destruct (negb (snap_salt settings ==s proof_salt p) || negb (bool_decide _)); [done|]. unfold mret, td_ret.
  unfold totp_from_str, lift. unfold mbind, td_bind.
  destruct (totp_from_json (snap_totp settings)) as [i|]; cbn [of_option]; [|done].
  unfold mret, td_ret.
  change (decrypt_vec_or_original (totp_secret i) "00" h1)
    with (decrypt_vec_or_original (totp_secret i) PASSWORD_ENC_VERSION h1).
  destruct (runs_decrypt_vec uid okp (totp_secret i) h1 Hr1) as (r & h3 & -> & _ & Hs3 & Hr3).
  destruct r as [[secret success] again]. destruct (negb success); [done|].
  destruct (totp_new _ _ _) as [t|]; cbn [of_option]; [|done]. unfold mret, td_ret.
  intros [= <- <- <-]. split; [by etrans|]. split; [done|]. by exists settings.
Qed.

(** [authorize] once the grants on disk match the scope. *)
Lemma authorize_holds {T} g h settings (apply : Grants → Z → TD (T * option Grants)) :
  holds g h → can_write h = true → pure_snapshot h = Ok settings →
  negb (enabled settings) || is_empty (snap_totp settings) = false →
  matches_scope g (snap_scope settings) = true →
  ∃ h1 g', holds g' h1 ∧ can_write h1 = true ∧
    authorize OVERWRITE_SETTINGS DEFAULT_SETTINGS HARD_SETTINGS now (snap_scope settings) apply h
    = ('(result, changed) ← apply (cleanup now g).1 (validity_days settings);
       (match changed with Some g => unavailable (storage_write g) | None => mret tt end);;
       mret result) h1.
Proof.
  intros Hh Hw Hsnap Hen Hm. unfold authorize at 1. unfold mbind, td_bind.
  destruct (snapshot_spec h (holds_ready _ _ Hh)) as (h1 & -> & Hs1 & Hr1). rewrite Hsnap, Hen.
  rewrite bool_decide_true by done. cbn [negb].
  destruct (load_holds g (snap_scope settings) h1) as (h2 & -> & Hw2 & g' & Hh2).
  - by eapply holds_same.
  - done.
  - by rewrite (same_write _ _ Hs1).
  - by exists h2, g'.
Qed.

(** What is on disk after a token was given out. *)
Lemma finish_spec V a i h token h' :
  inv V h → finish OVERWRITE_SETTINGS DEFAULT_SETTINGS HARD_SETTINGS now a i h = (Ok token, h') →
  token ≠ [] → match credential a with Some (Legacy _) => False | _ => True end →
  ∃ settings g, pure_snapshot h = Ok settings ∧ holds g h' ∧
    scope g = Some (ticket_scope (ticket a)) ∧ len token = TOKEN_BYTES ∧
    let e := expires_after now (validity_days settings) in
    (e = 0 ∨ now < e →
      mkGrant (sha256 token) (i <| time := now |> <| expires_at := Some e |>) false None ∈ records g ∧
      (length (modern (records g)) ≤ MAX_RECORDS)%nat).
Proof.
  intros Hi Hfin Hne Hcred. revert Hfin. unfold finish.
  destruct (negb (enroll a)); [by intros [= <- _]|].
  unfold authorize. unfold mbind, td_bind.
  destruct (snapshot_spec h (inv_ready _ _ Hi)) as (h1 & -> & Hs1 & Hr1).
  destruct (pure_snapshot h) as [settings|]; [|done].
  destruct (negb (enabled settings) || _); [done|].
  destruct (negb (bool_decide (ticket_scope (ticket a) = snap_scope settings))) eqn:Hsc; [done|].
  apply negb_false_iff, bool_decide_eq_true in Hsc.
  assert (inv V h1) as Hi1 by by eapply inv_same.
  pose proof (triple_load V (snap_scope settings) h1 Hi1) as Hload.
  destruct (load_grants _ _ _ now (snap_scope settings) h1) as [[g|e] h2]; [|done]. destruct Hload as [Hi2 _].
  unfold random_token, lift.
  destruct (runs_draw uid okp random_bytes (λ t, len t = TOKEN_BYTES) len_random_bytes h2 (inv_ready _ _ Hi2))
    as (t & h3 & -> & Hlen & Hs3 & Hr3).
  set (e := expires_after now (validity_days settings)).
  assert ((match credential a with
           | Some (Legacy lv) =>
               of_option "Legacy trusted device expired or was revoked" (migrate g (ticket a) lv (sha256 t) now)
           | _ => of_option revoked (enroll_digest g (ticket a) (sha256 t)
                    (i <| time := now |> <| expires_at := Some e |>))
           end) = of_option revoked (enroll_digest g (ticket a) (sha256 t)
                    (i <| time := now |> <| expires_at := Some e |>))) as ->.
  { by destruct (credential a) as [[]|]. }
  destruct (enroll_digest g (ticket a) (sha256 t) (i <| time := now |> <| expires_at := Some e |>)) as [g'|] eqn:Hen;
    cbn [of_option]; [|done]. unfold mret, td_ret, unavailable.
  destruct (storage_write g' h3) as [[[]|e'] h4] eqn:Hwr; [|done]. intros [= -> ->].
  exists settings, g'. split; [done|]. split; [by apply (grants_write_ok g' h3)|].
  split; [|split; [done|]].
  - revert Hen. unfold enroll_digest. destruct (check_ticket g (ticket a)) eqn:Hck; [|done].
    unfold check_ticket in Hck. apply andb_true_iff in Hck as [Hm _].
    intros [= <-]. cbn. unfold matches_scope in Hm. by apply bool_decide_eq_true in Hm.
  - cbv zeta. intros He.
    by destruct (enroll_keeps_new g (ticket a) (sha256 token) (i <| time := now |>) e g' Hen He) as (_ & _ & ? & ?).
Qed.

(** A current record in the grants of the present scope is accepted. *)
Lemma token_accepted_spec g h settings r lv :
  holds g h → can_write h = true → pure_snapshot h = Ok settings →
  negb (enabled settings) || is_empty (snap_totp settings) = false →
  scope g = Some (snap_scope settings) → r ∈ records g → legacy r = false →
  current now r = true → (length (modern (records g)) ≤ MAX_RECORDS)%nat →
  ∃ t h', authority_begin OVERWRITE_SETTINGS DEFAULT_SETTINGS HARD_SETTINGS now (snap_scope settings)
            (Some (verifier r)) lv h = (Ok (t, Some (Token (verifier r))), h').
Proof.
  intros Hh Hw Hsnap Hen Hsc Hr Hl Hc Hcap. unfold authority_begin.
  assert (matches_scope g (snap_scope settings) = true) as Hm by by apply bool_decide_eq_true.
  match goal with |- context [authorize _ _ _ _ _ ?f _] =>
    destruct (authorize_holds g h settings f Hh Hw Hsnap Hen Hm) as (h1 & g1 & Hh1 & Hw1 & ->) end.
  unfold mbind, td_bind.
  assert (records (cleanup now g).1 = sorted_current now g) as Hrec by by apply cleanup_under_cap.
  assert (scope (cleanup now g).1 = scope g) as Hsc2 by done.
  destruct (cleanup now g) as [g2 changed]. cbn [fst] in Hrec, Hsc2 |- *.
  assert (matches_scope g2 (snap_scope settings) = true) as Hm2.
  { apply bool_decide_eq_true. congruence. }
  unfold begin_ticket. rewrite Hm2. cbn [of_option]. unfold mret, td_ret.
  set (t := mkTicket (snap_scope settings) (generation g2)).
  assert (verify_digest g2 t (Some (verifier r)) now = Some true) as ->.
  { unfold verify_digest, check_ticket. cbn [ticket_scope ticket_generation t].
    rewrite Hm2, bool_decide_true by done. cbn [andb negb]. f_equal. apply existsb_exists.
    exists r. rewrite <- list_elem_of_In, Hrec. split; [by apply elem_of_sorted_current|].
    by rewrite Hl, Hc, bool_decide_true. }
  cbn [of_option]. unfold mret, td_ret.
  destruct (confirm_migration g2 (verifier r)) as [g3 ch]. cbn [fmap option_fmap option_map].
  destruct ch.
  - destruct (holds_value _ _ Hh1) as (v & Hv & _).
    destruct (grants_write_spec g3 h1 (v, "") (holds_ready _ _ Hh1) Hw1 Hv) as (h2 & E & _ & _).
    exists t, h2. unfold unavailable. by rewrite E.
  - by exists t, h1.
Qed.

End Host.
