(* ===== verification/TrustedTokens.v ===== *)
(** * What a trusted-device token is worth

    A token waives the second factor only if this host issued it and nothing revoked
    it since ([token_was_issued]); one just issued is accepted until it expires
    ([issued_token_accepted]); and a change of the password that touches the
    configuration revokes everything, even if it then fails
    ([password_change_revokes]). *)
From S2P Require Import Prelude RustStd RecordUpdate Secrets SecretsProofs ConfigStore Config2Store ConfigStoreProofs.
From S2P Require Import TrustedDevices TrustedDevicesProofs.
From S2P Require TransportConfig.
From Stdlib Require Import Ascii.
Import TrustedDevices.
#[local] Open Scope Z_scope.

(** ** Any sequence of requests *)
Section Events.
Context `{!Crypto, !CryptoLaws, !Entropy, !Json, !JsonLaws, !TotpLib, !Tokens}.
Context (OVERWRITE_SETTINGS DEFAULT_SETTINGS BUILTIN_SETTINGS HARD_SETTINGS : gmap string string).
Context (mac_address : option (list Z)) (hostname : option string).
Variables (uid : bytes) (okp : option KeyPair).

#[local] Abbreviation inv := (inv uid okp).

Inductive Event : Type :=
| Begin (p : LoginProof)
| Check (a : Attempt)
| Finish (a : Attempt) (i : DeviceInfo)
| Devices
| Remove (ids : list bytes)
| Renew (ids : list bytes)
| Clear
| Initialize
| ChangePassword (pw : string)
| ChangeOptions (o : gmap string string)
| ChangeSetting (f : Config2 → Config2)
| Writable (b : bool).

(** The state after an event at the time [now], with the verifiers of the tokens given
    out since everything was last revoked: by [clear], or by a change of the
    password or of the 2FA options that went through. *)
Definition step (now : Z) (e : Event) (V : list bytes) (h : Host) : list bytes * Host :=
  match e with
  | Begin p => (V, (host_begin OVERWRITE_SETTINGS DEFAULT_SETTINGS HARD_SETTINGS now p h).2)
  | Check a => (V, (check OVERWRITE_SETTINGS DEFAULT_SETTINGS HARD_SETTINGS now a h).2)
  | Finish a i =>
      match finish OVERWRITE_SETTINGS DEFAULT_SETTINGS HARD_SETTINGS now a i h with
      | (Ok token, h') => (issued V token, h')
      | (Err _, h') => (V, h')
      end
  | Devices => (V, (devices OVERWRITE_SETTINGS DEFAULT_SETTINGS HARD_SETTINGS now h).2)
  | Remove ids => (V, (remove OVERWRITE_SETTINGS DEFAULT_SETTINGS HARD_SETTINGS now ids h).2)
  | Renew ids => (V, (renew OVERWRITE_SETTINGS DEFAULT_SETTINGS HARD_SETTINGS now ids h).2)
  | Clear =>
      match clear OVERWRITE_SETTINGS DEFAULT_SETTINGS HARD_SETTINGS h with
      | (Ok _, h') => ([], h')
      | (Err _, h') => (V, h')
      end
  | Initialize => (V, (initialize OVERWRITE_SETTINGS DEFAULT_SETTINGS HARD_SETTINGS now h).2)
  | ChangePassword pw =>
      let affected := (changes_password BUILTIN_SETTINGS HARD_SETTINGS pw h).1 in
      match set_password OVERWRITE_SETTINGS DEFAULT_SETTINGS BUILTIN_SETTINGS HARD_SETTINGS pw h with
      | (Ok _, h') => (if affected then [] else V, h')
      | (Err _, h') => (V, h')
      end
  | ChangeOptions o =>
      let affected := authentication_changed (get_options OVERWRITE_SETTINGS DEFAULT_SETTINGS h)
        (effective_options OVERWRITE_SETTINGS DEFAULT_SETTINGS o) in
      match set_options OVERWRITE_SETTINGS DEFAULT_SETTINGS HARD_SETTINGS now o h with
      | (Ok _, h') => (if affected then [] else V, h')
      | (Err _, h') => (V, h')
      end
  | ChangeSetting f => (V, (Config2.update f h).2)
  | Writable b => (V, h <| can_write := b |>)
  end.

Fixpoint steps (l : list (Z * Event)) (V : list bytes) (h : Host) : list bytes * Host :=
  match l with
  | [] => (V, h)
  | (now, e) :: l => let '(V, h) := step now e V h in steps l V h
  end.

(** A triple as a statement about the state after. *)
Lemma triple_state {A} V (m : TD A) h :
  triple (inv V) m (λ _ h, inv V h) (inv V) → inv V h → inv V (m h).2.
Proof. intros Hm Hi. specialize (Hm h Hi). by destruct (m h) as [[]]. Qed.

Lemma event_inv now e V h : inv V h → let '(V', h') := step now e V h in inv V' h'.
Proof.
  intros Hi. destruct e as [p|a|a i| |ids|ids| | |pw|o|f|b]; cbn [step].
  - apply triple_state; [|done].
    eapply triple_conseq; [apply triple_host_begin|done|by intros a h' [? _]|done].
  - apply triple_state; [apply triple_check|done].
  - pose proof (triple_finish OVERWRITE_SETTINGS DEFAULT_SETTINGS HARD_SETTINGS uid okp now V a i h Hi) as Hf.
    by destruct (finish _ _ _ now a i h) as [[]].
  - apply triple_state; [apply triple_devices|done].
  - apply triple_state; [apply triple_remove|done].
  - apply triple_state; [apply triple_renew|done].
  - pose proof (triple_clear OVERWRITE_SETTINGS DEFAULT_SETTINGS HARD_SETTINGS uid okp V h Hi) as Hc.
    by destruct (clear _ _ _ h) as [[]].
  - apply triple_state; [apply triple_initialize|done].
  - pose proof (triple_set_password OVERWRITE_SETTINGS DEFAULT_SETTINGS BUILTIN_SETTINGS HARD_SETTINGS uid okp V pw h Hi) as Hs.
    destruct (set_password _ _ _ _ pw h) as [[b|e] h'] eqn:E; [|done].
    destruct (changes_password BUILTIN_SETTINGS HARD_SETTINGS pw h).1 eqn:Ha; [|done].
    unfold set_password, lift in E. unfold mbind, td_bind in E.
    assert (inv V (changes_password BUILTIN_SETTINGS HARD_SETTINGS pw h).2) as Hi1.
    { by apply changes_password_inv. }
    destruct (changes_password BUILTIN_SETTINGS HARD_SETTINGS pw h) as [a h1]. cbn in Ha, Hi1. subst a.
    pose proof (triple_password_change OVERWRITE_SETTINGS DEFAULT_SETTINGS BUILTIN_SETTINGS HARD_SETTINGS uid okp V pw h1 Hi1) as Hp.
    unfold lift in Hp. by rewrite E in Hp.
  - pose proof (triple_change_options OVERWRITE_SETTINGS DEFAULT_SETTINGS HARD_SETTINGS uid okp now V o h Hi) as Hs.
    destruct (set_options _ _ _ now o h) as [[[]|e] h'] eqn:E; [|done].
    destruct (authentication_changed _ _) eqn:Ha; [|done].
    assert (set_options OVERWRITE_SETTINGS DEFAULT_SETTINGS HARD_SETTINGS now o h =
      change OVERWRITE_SETTINGS DEFAULT_SETTINGS HARD_SETTINGS true
        (lift (config_set_options OVERWRITE_SETTINGS DEFAULT_SETTINGS o)) h) as Hch.
    { unfold set_options, change_options, gets. unfold mbind, td_bind. unfold lift at 1.
      cbv beta iota. by rewrite Ha. }
    rewrite Hch in E.
    pose proof (triple_change OVERWRITE_SETTINGS DEFAULT_SETTINGS HARD_SETTINGS uid okp V
      (lift (config_set_options OVERWRITE_SETTINGS DEFAULT_SETTINGS o))) as Hc.
    specialize (Hc ltac:(intros; apply triple_set_settings) h Hi). by rewrite E in Hc.
  - pose proof (triple_settings uid okp V f (λ _, True) h Hi) as Hs. unfold lift in Hs.
    by destruct (Config2.update f h).
  - destruct Hi as [[O [[] ? ?]] ?]. split; [|done]. exists O. split; [by constructor|done..].
Qed.

Lemma steps_inv l V h : inv V h → let '(V', h') := steps l V h in inv V' h'.
Proof.
  revert V h. induction l as [|[now e] l IH]; intros V h Hi; [done|]. cbn.
  pose proof (event_inv now e V h Hi) as Hs. destruct (step now e V h) as [V' h']. by apply IH.
Qed.


(** A token that was given out waives the second factor: at any later time before
    it expires (or ever, when devices never expire), as long as nothing happened to the
    host in between, the right password with that token needs no code. *)
Theorem issued_token_accepted V h now a i token now' p totp :
  inv V h →
  (finish OVERWRITE_SETTINGS DEFAULT_SETTINGS HARD_SETTINGS now a i h).1 = Ok token →
  let h' := (finish OVERWRITE_SETTINGS DEFAULT_SETTINGS HARD_SETTINGS now a i h).2 in
  token ≠ [] → match credential a with Some (Legacy _) => False | _ => True end →
  can_write h' = true → now ≤ now' →
  (∀ settings, pure_snapshot OVERWRITE_SETTINGS DEFAULT_SETTINGS HARD_SETTINGS uid okp h = Ok settings →
    let e := expires_after now (validity_days settings) in e = 0 ∨ now' < e) →
  proof_token p = token →
  (begin_settings OVERWRITE_SETTINGS DEFAULT_SETTINGS HARD_SETTINGS p h').1
    = Ok (Some (ticket_scope (ticket a), totp)) →
  ∃ att, (host_begin OVERWRITE_SETTINGS DEFAULT_SETTINGS HARD_SETTINGS now' p h').1
    = Ok (Some (Some att, true, totp)).
Proof.
  intros Hi Hfin h' Hne Hcred Hw Hle Hexp Htok Hb1.
  destruct (begin_settings OVERWRITE_SETTINGS DEFAULT_SETTINGS HARD_SETTINGS p h') as [r h2] eqn:Hb.
  cbn in Hb1. subst r.
  assert (finish OVERWRITE_SETTINGS DEFAULT_SETTINGS HARD_SETTINGS now a i h = (Ok token, h')) as Hf.
  { subst h'. destruct (finish _ _ _ now a i h). cbn in *. by subst. }
  clear Hfin. rename Hf into Hfin. clearbody h'.
  destruct (finish_spec OVERWRITE_SETTINGS DEFAULT_SETTINGS HARD_SETTINGS uid okp now V a i h token h' Hi Hfin Hne Hcred)
    as (settings & g & Hsnap & Hh & Hsc & Hlen & Hrec).
  specialize (Hexp settings Hsnap). cbv zeta in Hexp, Hrec.
  set (e := expires_after now (validity_days settings)) in *.
  destruct Hrec as [Hin Hcap]; [lia|].
  destruct (begin_settings_spec OVERWRITE_SETTINGS DEFAULT_SETTINGS HARD_SETTINGS uid okp p h' _ _ _
    (holds_ready _ _ _ _ Hh) Hb) as (Hs2 & Hr2 & settings' & Hsnap' & Hsc' & Hen).
  assert (holds uid okp g h2) as Hh2 by by eapply holds_same.
  destruct (token_accepted_spec OVERWRITE_SETTINGS DEFAULT_SETTINGS HARD_SETTINGS uid okp now' g h2 settings'
    (mkGrant (sha256 token) (i <| time := now |> <| expires_at := Some e |>) false None) (proof_legacy p))
    as (t & h3 & E); try done.
  - by rewrite (same_write _ _ Hs2).
  - by rewrite (snapshot_same _ _ _ _ _ h').
  - congruence.
  - unfold current. cbn. apply andb_true_iff. rewrite Z.leb_le, orb_true_iff, Z.eqb_eq, Z.ltb_lt. lia.
  - cbn [verifier] in E. unfold host_begin. unfold mbind, td_bind. rewrite Hb.
    unfold attempt. unfold token_verifier. rewrite Htok.
    rewrite (proj2 (Z.eqb_eq _ _) Hlen). rewrite Hsc' in E. rewrite E.
    eexists. reflexivity.
Qed.

(** Changing the permanent password fails closed: if the change touched the
    configuration at all - even when a later step of it failed and an error is
    reported - no token that was given out before is accepted any more. *)
Theorem password_change_revokes V pw h now p a totp :
  inv V h → (changes_password BUILTIN_SETTINGS HARD_SETTINGS pw h).1 = true →
  let h' := (set_password OVERWRITE_SETTINGS DEFAULT_SETTINGS BUILTIN_SETTINGS HARD_SETTINGS pw h).2 in
  CONFIG h' ≠ CONFIG h →
  (host_begin OVERWRITE_SETTINGS DEFAULT_SETTINGS HARD_SETTINGS now p h').1
    ≠ Ok (Some (a, true, totp)).
Proof.
  intros Hi Ha h' Hne Hb.
  destruct (set_password OVERWRITE_SETTINGS DEFAULT_SETTINGS BUILTIN_SETTINGS HARD_SETTINGS pw h)
    as [r h0] eqn:Hset. cbn in h'. subst h'.
  rename h0 into h'.
  assert (inv [] h') as Hn.
  { pose proof (changes_password_inv BUILTIN_SETTINGS HARD_SETTINGS uid okp V pw h Hi) as Hi1.
    pose proof (changes_password_config BUILTIN_SETTINGS HARD_SETTINGS uid okp V pw h Hi) as Hc1.
    destruct (changes_password BUILTIN_SETTINGS HARD_SETTINGS pw h) as [b h1] eqn:Ec. cbn in Ha, Hi1, Hc1. subst b.
    revert Hset. unfold set_password.
    rewrite (td_bind_ok (lift (changes_password BUILTIN_SETTINGS HARD_SETTINGS pw)) _ h true h1) by (unfold lift; by rewrite Ec).
    intros Hset.
    pose proof (change_fails_closed OVERWRITE_SETTINGS DEFAULT_SETTINGS HARD_SETTINGS uid okp V
      (lift (set_permanent_password BUILTIN_SETTINGS HARD_SETTINGS pw)) h1) as Hf.
    cbv zeta in Hf. rewrite Hset in Hf. destruct Hf as [Hf|Hf]; [|done|by cbn in Hf; congruence|done].
    intros V'. apply triple_config; [apply quiet_set_password|].
    intros O g Hg. eexists. by apply set_password_good. }
  pose proof (triple_host_begin OVERWRITE_SETTINGS DEFAULT_SETTINGS HARD_SETTINGS uid okp now [] p h' Hn) as Ht.
  destruct (host_begin _ _ _ now p h') as [r2 h2]. cbn in Hb. subst r2.
  destruct Ht as (_ & _ & Hin). set_solver.
Qed.

End Events.

(** ** Examples *)
Module Examples.
Import SecretsProofs.Toy.

#[local] Instance info_countable : Countable DeviceInfo.
Proof.
  apply (inj_countable' (λ i, (time i, expires_at i, device_id i, device_name i, platform i))
    (λ '(t, e, a, b, c), mkInfo t e a b c)). by intros [].
Defined.
#[local] Instance grant_countable : Countable Grant.
Proof.
  apply (inj_countable' (λ r, (verifier r, info r, legacy r, origin r))
    (λ '(v, i, l, o), mkGrant v i l o)). by intros [].
Defined.
#[local] Instance grants_eq_dec : EqDecision Grants.
Proof. solve_decision. Defined.
#[local] Instance grants_countable : Countable Grants.
Proof.
  apply (inj_countable' (λ g, (scope g, generation g, records g)) (λ '(s, g, r), mkGrants s g r)).
  by intros [].
Defined.

Fixpoint pos_bytes (p : positive) : bytes :=
  match p with
  | xH => []
  | xO p => Byte.x00 :: pos_bytes p
  | xI p => Byte.x01 :: pos_bytes p
  end.
Fixpoint bytes_pos (l : bytes) : positive :=
  match l with
  | [] => xH
  | b :: l => if bool_decide (b = Byte.x00) then xO (bytes_pos l) else xI (bytes_pos l)
  end.
Lemma bytes_pos_bytes p : bytes_pos (pos_bytes p) = p.
Proof. induction p as [p IH|p IH|]; cbn; by rewrite ?IH. Qed.

Definition sealed_secret : bytes :=
  as_bytes ("00" +:+ encode (FORMAT_V1 :: gen_nonce 0 ++ tag (as_bytes "machine-id") ++ as_bytes "totp-secret")).

#[local] Instance toy_json : Json := {|
  grants_to_json g := pos_bytes (countable.encode g);
  grants_from_json l := countable.decode (bytes_pos l);
  scope_to_json x := pos_bytes (countable.encode x);
  legacy_key_to_json x := pos_bytes (countable.encode x);
  legacy_devices_from_json _ := None;
  totp_from_json s := if s ==s "totp" then Some (mkTOTP "name" sealed_secret 6 0) else None;
|}.
#[local] Instance toy_json_laws : JsonLaws.
Proof. split. intros g. cbn. rewrite bytes_pos_bytes. apply countable.decode_encode. Qed.
#[local] Instance toy_totp : TotpLib := {|
  TOTP := unit;
  totp_new _ _ _ := Some tt;
  check_current _ code _ := Some (code ==s "123456");
|}.
#[local] Instance toy_tokens : Tokens.
Proof.
  refine {| random_bytes n := resize 32 Byte.x07 (to_le_bytes 2 (Z.of_nat n)) |}.
  intros n. unfold len, TOKEN_BYTES. rewrite length_resize. lia.
Defined.

Definition uid : bytes := as_bytes "machine-id".
Definition fresh : Host := ConfigStoreProofs.Examples.fresh_host.

Lemma fresh_inv V : inv uid None V fresh.
Proof.
  split; [exists []; apply ConfigStoreProofs.Examples.fresh_good|].
  exists "". split; [done|]. intros g [= <-]. apply within_default.
Qed.

Definition with_2fa (c : Config2) : Config2 :=
  c <| net := TransportConfig.TransportConfig.with_options (net c) {["2fa" := "totp"]} |>.
Definition setup : list (Z * Event) := [(5, ChangePassword "secret"); (6, ChangeSetting with_2fa)].
Definition ready_host : Host := (steps ∅ ∅ ∅ ∅ setup [] fresh).2.

(** The right password, with a token. *)
Definition proof_of (h : Host) (token : bytes) : LoginProof :=
  mkProof (sha256 (compute_permanent_password_h1 "secret" (salt (CONFIG h)) ++ as_bytes "challenge"))
    "challenge" (salt (CONFIG h)) token None true.
Definition first_login : result (option (option Attempt * bool * TOTP)) Error * Host :=
  host_begin ∅ ∅ ∅ 10 (proof_of ready_host []) ready_host.
(** The device passes the second factor and asks to be remembered. *)
Definition first_attempt : Attempt :=
  match first_login.1 with
  | Ok (Some (Some a, _, _)) => mkAttempt (ticket a) (credential a) true
  | _ => mkAttempt (mkTicket [] []) None true
  end.
Definition laptop : DeviceInfo := mkInfo 0 None "1" "laptop" "linux".
Definition enrolled : result bytes Error * Host :=
  finish ∅ ∅ ∅ 11 first_attempt laptop first_login.2.
Definition token : bytes := match enrolled.1 with Ok t => t | Err _ => [] end.

Definition login_trace : list (Z * Event) :=
  setup ++ [(10, Begin (proof_of ready_host [])); (11, Finish first_attempt laptop)].

(** The login succeeds without a code, and after a password change it does not. *)
Definition waived (r : result (option (option Attempt * bool * TOTP)) Error) : option bool :=
  match r with Ok (Some (_, b, _)) => Some b | _ => None end.
Example login_story :
  waived first_login.1 = Some false ∧
  len token = 32 ∧
  waived (host_begin ∅ ∅ ∅ 20 (proof_of ready_host token) enrolled.2).1 = Some true ∧
  waived (host_begin ∅ ∅ ∅ 7776000011 (proof_of ready_host token) enrolled.2).1 = Some false ∧
  waived (host_begin ∅ ∅ ∅ 20 (proof_of ready_host token)
    (clear ∅ ∅ ∅ enrolled.2).2).1 = Some false.
Proof. vm_compute. repeat split. Qed.

Lemma setup_inv l : inv uid None (steps ∅ ∅ ∅ ∅ l [] fresh).1 (steps ∅ ∅ ∅ ∅ l [] fresh).2.
Proof.
  pose proof (steps_inv ∅ ∅ ∅ ∅ uid None l [] fresh (fresh_inv [])) as Hs.
  by destruct (steps ∅ ∅ ∅ ∅ l [] fresh).
Qed.

Definition second_login := host_begin ∅ ∅ ∅ 20 (proof_of ready_host token) (steps ∅ ∅ ∅ ∅ login_trace [] fresh).2.
Definition second_attempt : option Attempt :=
  match second_login.1 with Ok (Some (a, _, _)) => a | _ => None end.


Definition begin_trace : list (Z * Event) := setup ++ [(10, Begin (proof_of ready_host []))].
Definition begun : Host := (steps ∅ ∅ ∅ ∅ begin_trace [] fresh).2.
Definition given : Host := (finish ∅ ∅ ∅ 11 first_attempt laptop begun).2.

Lemma issued_token_accepted_witness :
  ∃ att, (host_begin ∅ ∅ ∅ 20 (proof_of ready_host token) given).1 = Ok (Some (Some att, true, tt)).
Proof.
  apply (issued_token_accepted ∅ ∅ ∅ uid None (steps ∅ ∅ ∅ ∅ begin_trace [] fresh).1
    begun 11 first_attempt laptop token 20 (proof_of ready_host token) (tt : @TOTP toy_totp)).
  - exact (setup_inv begin_trace).
  - vm_compute. reflexivity.
  - vm_compute. discriminate.
  - vm_compute. exact I.
  - vm_compute. reflexivity.
  - lia.
  - intros settings Hs. right.
    assert (match pure_snapshot ∅ ∅ ∅ uid None begun with Ok s => validity_days s | Err _ => 0 end = 90)
      as Hd by (vm_compute; reflexivity).
    rewrite Hs in Hd. cbv zeta. rewrite Hd. vm_compute. reflexivity.
  - reflexivity.
  - vm_compute. reflexivity.
Defined.

Lemma password_change_revokes_witness :
  (host_begin ∅ ∅ ∅ 20 (proof_of ready_host token)
    (set_password ∅ ∅ ∅ ∅ "other" (steps ∅ ∅ ∅ ∅ login_trace [] fresh).2).2).1 ≠ Ok (Some (second_attempt, true, tt)).
Proof.
  apply (password_change_revokes ∅ ∅ ∅ ∅ uid None (steps ∅ ∅ ∅ ∅ login_trace [] fresh).1 "other"
    (steps ∅ ∅ ∅ ∅ login_trace [] fresh).2 20 (proof_of ready_host token) second_attempt (tt : @TOTP toy_totp)).
  - exact (setup_inv login_trace).
  - vm_compute. reflexivity.
  - vm_compute. discriminate.
Defined.

End Examples.
