(* ===== verification/Unauthorized.v ===== *)
(** * Places for connections that have not logged in

    [admit_unauthorized], [UnauthorizedID] and [login_deadline] of
    client/src/server/connection.rs.  The state is the static [UNAUTHORIZED_CONNS],
    oldest first; each function holds its lock, so it is one step. *)
From S2P Require Import Prelude Net.

Module Unauthorized.

Definition LOGIN_GRACE : Z := 180.  (* seconds *)
Definition MAX_UNAUTHORIZED_CONNS : nat := 64.
Definition MAX_UNAUTHORIZED_CONNS_PER_ADDR : nat := 16.

(** One entry of the list: the connection, its address, and the flag it shares with
    its [UnauthorizedID]. *)
Record Place : Type := mkPlace { id : Z; ip : IpAddr; evicted : bool }.

Definition of_addr (a : IpAddr) (conns : list Place) : list Place :=
  filter (λ p, ip p = a) conns.

(** [oldest.evicted.swap(true)] and its notification. *)
Definition evict_oldest (conns : list Place) : list Place :=
  match conns with
  | [] => []
  | p :: conns => mkPlace (id p) (ip p) true :: conns
  end.

(** Whether the connection is let in, and the places after. *)
Definition admit_unauthorized (i : Z) (a : IpAddr) (conns : list Place) : bool * list Place :=
  if (MAX_UNAUTHORIZED_CONNS_PER_ADDR <=? length (of_addr a conns))%nat then (false, conns)
  else if (MAX_UNAUTHORIZED_CONNS <=? length conns)%nat then (false, evict_oldest conns)
  else (true, conns ++ [mkPlace i a false]).

(** [Drop for UnauthorizedID] *)
Definition release (i : Z) (conns : list Place) : list Place := filter (λ p, id p ≠ i) conns.

(** [is_evicted], and so when [evicted] resolves. *)
Definition is_evicted (i : Z) (conns : list Place) : bool :=
  existsb (λ p, bool_decide (id p = i) && evicted p) conns.

(** Whether [login_deadline] has resolved at the time [now]. *)
Definition login_deadline (authorized : bool) (started now : Z) : bool :=
  negb authorized && (started + LOGIN_GRACE <=? now).

(** ** Events

    An arrival takes the identifier of a new connection; a connection gives its place
    back when it is authorised or ends. *)
Inductive Event : Type := Arrive (i : Z) (a : IpAddr) | Leave (i : Z).

Definition step (e : Event) (conns : list Place) : list Place :=
  match e with
  | Arrive i a => (admit_unauthorized i a conns).2
  | Leave i => release i conns
  end.

Definition run (l : list Event) (conns : list Place) : list Place := foldl (λ c e, step e c) conns l.

(** Only the oldest may be on its way out. *)
Definition bounded (conns : list Place) : Prop :=
  (length conns ≤ MAX_UNAUTHORIZED_CONNS)%nat ∧
  (∀ a, (length (of_addr a conns) ≤ MAX_UNAUTHORIZED_CONNS_PER_ADDR)%nat) ∧
  Forall (λ p, evicted p = false) (tail conns).

Lemma of_addr_release a i conns :
  (length (of_addr a (release i conns)) ≤ length (of_addr a conns))%nat.
Proof.
  unfold of_addr, release. induction conns as [|p conns IH]; [done|].
  rewrite (filter_cons (λ p, id p ≠ i)), (filter_cons (λ p, ip p = a)).
  repeat case_decide; rewrite ?filter_cons; repeat case_decide; cbn; (done || lia).
Qed.

Lemma tail_release i conns :
  Forall (λ p, evicted p = false) (tail conns) →
  Forall (λ p, evicted p = false) (tail (release i conns)).
Proof.
  destruct conns as [|p conns]; [done|]. intros H. cbn [tail] in H. unfold release. rewrite filter_cons.
  assert (Forall (λ p, evicted p = false) (filter (λ p, id p ≠ i) conns)) as Hf.
  { rewrite Forall_forall in *. intros x Hx. apply H. by apply list_elem_of_filter in Hx as [_ ?]. }
  case_decide; [done|]. by destruct (filter _ conns); [|apply Forall_cons in Hf as [_ ?]].
Qed.

Lemma of_addr_evict a conns : length (of_addr a (evict_oldest conns)) = length (of_addr a conns).
Proof.
  destruct conns as [|p conns]; [done|]. unfold of_addr. cbn [evict_oldest].
  rewrite !filter_cons. cbn. by case_decide.
Qed.

Lemma bounded_step e conns : bounded conns → bounded (step e conns).
Proof.
  intros (Hl & Ha & He). destruct e as [i a|i]; cbn [step].
  - unfold admit_unauthorized. destruct (_ <=? _)%nat eqn:H1; [done|].
    apply Nat.leb_gt in H1. destruct (MAX_UNAUTHORIZED_CONNS <=? _)%nat eqn:H2; cbn [snd].
    + repeat split.
      * destruct conns; done.
      * intros b. by rewrite of_addr_evict.
      * by destruct conns.
    + apply Nat.leb_gt in H2. repeat split.
      * rewrite length_app. cbn. lia.
      * intros b. unfold of_addr in *. rewrite filter_app, length_app.
        destruct (decide (b = a)) as [->|Hne].
        { pose proof (length_filter (λ p, ip p = a) [mkPlace i a false]). cbn in *. lia. }
        rewrite (filter_cons_False (λ p, ip p = b)) by (cbn; congruence). cbn.
        specialize (Ha b). lia.
      * destruct conns as [|p conns]; [done|]. cbn in *. apply Forall_app; split; [done|by constructor].
  - repeat split.
    + unfold release. pose proof (length_filter (λ p, id p ≠ i) conns). lia.
    + intros a. specialize (Ha a). pose proof (of_addr_release a i conns). lia.
    + by apply tail_release.
Qed.

Lemma bounded_run l conns : bounded conns → bounded (run l conns).
Proof.
  revert conns. induction l as [|e l IH]; intros conns Hb; [done|]. by apply IH, bounded_step.
Qed.

(** Connections that have not logged in are bounded: after any arrivals and
    departures at most 64 of them are open, at most 16 from one address, and at most
    one - the oldest - has been told to go; and an arrival is refused only if its
    address holds its share or if, with all 64 places taken, the oldest connection has
    now been told to go. *)
Theorem unauthorized_bounded l i a :
  let conns := run l [] in
  (length conns ≤ 64)%nat ∧ (∀ b, (length (of_addr b conns) ≤ 16)%nat) ∧
  (length (filter (λ p, evicted p = true) conns) ≤ 1)%nat ∧
  match admit_unauthorized i a conns with
  | (true, conns') => conns' = conns ++ [mkPlace i a false]
  | (false, conns') =>
      (conns' = conns ∧ length (of_addr a conns) = 16)%nat ∨
      (length conns' = 64 ∧ ∃ p rest, conns' = p :: rest ∧ evicted p = true)%nat
  end.
Proof.
  cbn zeta. assert (bounded (run l [])) as (Hl & Ha & He).
  { apply bounded_run. split_and!; [apply Nat.le_0_l|intros b; apply Nat.le_0_l|by constructor]. }
  set (conns := run l []) in *. split; [done|]. split; [done|]. split.
  - destruct conns as [|p conns]; [cbn; lia|]. cbn in He. rewrite filter_cons.
    assert (filter (λ p, evicted p = true) conns = []) as ->.
    { clear -He. induction He as [|q l Hq _ IH]; [done|]. rewrite filter_cons. case_decide; [congruence|done]. }
    case_decide; cbn; lia.
  - unfold admit_unauthorized. specialize (Ha a).
    destruct (_ <=? _)%nat eqn:H1.
    { apply Nat.leb_le in H1. left. unfold MAX_UNAUTHORIZED_CONNS_PER_ADDR in *. split; [done|lia]. }
    destruct (MAX_UNAUTHORIZED_CONNS <=? _)%nat eqn:H2; [|done].
    apply Nat.leb_le in H2. right. unfold MAX_UNAUTHORIZED_CONNS in *.
    destruct conns as [|p rest]; [cbn in H2; lia|]. cbn in *. split; [lia|]. by eexists _, _.
Qed.

End Unauthorized.
