(* ===== verification/HostNames.v ===== *)
(** * Names that are addresses, and version numbers

    [is_ipv4_str], [is_ipv6_str], [is_ip_str], [is_domain_port_str] and
    [get_version_number] of client/libs/hbb_common/src/lib.rs, and
    [is_direct_ip_access] of client/src/common.rs.  The patterns are regular
    expressions over characters, matched by derivatives; [matches_spec] says that the
    matcher decides their language.  The two Unicode tables that the patterns depend
    on are parameters. *)
From S2P Require Import Prelude RustStd.
From Stdlib Require Import Ascii.

Module HostNames.

(** ** Regular expressions *)
Inductive re : Type :=
| Nul
| Eps
| Cls (p : Z → bool)
| Cat (a b : re)
| Alt (a b : re)
| Star (a : re).

Inductive Matches : re → list Z → Prop :=
| MEps : Matches Eps []
| MCls p c : p c = true → Matches (Cls p) [c]
| MCat a b u v : Matches a u → Matches b v → Matches (Cat a b) (u ++ v)
| MAltL a b u : Matches a u → Matches (Alt a b) u
| MAltR a b u : Matches b u → Matches (Alt a b) u
| MStar0 a : Matches (Star a) []
| MStar1 a c u v : Matches a (c :: u) → Matches (Star a) v → Matches (Star a) (c :: u ++ v).

Fixpoint nullable (r : re) : bool :=
  match r with
  | Nul | Cls _ => false
  | Eps | Star _ => true
  | Cat a b => nullable a && nullable b
  | Alt a b => nullable a || nullable b
  end.

(** The constructors with the trivial cases removed. *)
Definition cat (a b : re) : re :=
  match a, b with Nul, _ | _, Nul => Nul | Eps, _ => b | _, _ => Cat a b end.
Definition alt (a b : re) : re :=
  match a, b with Nul, _ => b | _, Nul => a | _, _ => Alt a b end.

Fixpoint deriv (c : Z) (r : re) : re :=
  match r with
  | Nul | Eps => Nul
  | Cls p => if p c then Eps else Nul
  | Cat a b => let d := cat (deriv c a) b in if nullable a then alt d (deriv c b) else d
  | Alt a b => alt (deriv c a) (deriv c b)
  | Star a => cat (deriv c a) (Star a)
  end.

(** [Regex::is_match] of [^r$]. *)
Definition matches (r : re) (s : list Z) : bool := nullable (foldl (λ r c, deriv c r) r s).

Ltac inv_matches :=
  repeat match goal with
  | H : Matches ?r _ |- _ =>
      lazymatch r with
      | Nul => inversion H
      | Eps => inversion H; subst; clear H
      | Cls _ => inversion H; subst; clear H
      | Cat _ _ => inversion H; subst; clear H
      | Alt _ _ => inversion H; subst; clear H
      end
  end.

Lemma cat_spec a b s : Matches (cat a b) s ↔ Matches (Cat a b) s.
Proof.
  assert (∀ b s, Matches b s ↔ Matches (Cat Eps b) s) as He.
  { clear. intros b s. split; intros H.
    - by apply (MCat Eps b [] s); [constructor|].
    - by inv_matches. }
  assert (∀ a s, Matches Nul s ↔ Matches (Cat a Nul) s) as Hr by (clear; split; intros H; inv_matches).
  assert (∀ b s, Matches Nul s ↔ Matches (Cat Nul b) s) as Hl by (clear; split; intros H; inv_matches).
  destruct a, b; cbn; first [done|apply Hl|apply Hr|apply He].
Qed.

Lemma alt_spec a b s : Matches (alt a b) s ↔ Matches a s ∨ Matches b s.
Proof.
  assert (∀ s, Matches Nul s ↔ False) as HN by (clear; split; intros H; inv_matches; done).
  assert (∀ a b s, Matches (Alt a b) s ↔ Matches a s ∨ Matches b s) as HA.
  { clear. split; [intros H; inv_matches; auto|intros [?|?]; [by apply MAltL|by apply MAltR]]. }
  destruct a, b; cbn [alt]; rewrite ?HA, ?HN; tauto.
Qed.

Lemma nullable_spec r : nullable r = true ↔ Matches r [].
Proof.
  split.
  - induction r; cbn; intros H; try done; try by constructor.
    + apply andb_true_iff in H as [? ?]. apply (MCat _ _ [] []); auto.
    + apply orb_true_iff in H as [?|?]; [apply MAltL|apply MAltR]; auto.
  - induction r; cbn; intros H; try done; inversion H; subst; clear H.
    + match goal with E : _ ++ _ = [] |- _ => apply app_eq_nil in E as [-> ->] end.
      by rewrite IHr1, IHr2.
    + by rewrite IHr1.
    + rewrite IHr2 by done. by rewrite orb_true_r.
Qed.

Lemma deriv_spec c r s : Matches (deriv c r) s ↔ Matches r (c :: s).
Proof.
  revert s. induction r as [| |p|a IHa b IHb|a IHa b IHb|a IHa]; intros s; cbn [deriv].
  - split; intros H; inversion H.
  - split; intros H; inversion H.
  - destruct (p c) eqn:E; split; intros H; inversion H; subst; try by constructor. congruence.
  - assert (Matches (cat (deriv c a) b) s ↔ ∃ u v, s = u ++ v ∧ Matches a (c :: u) ∧ Matches b v) as Hd.
    { rewrite cat_spec. split.
      - intros H. inversion H; subst. eexists _, _. split; [done|]. by rewrite <-IHa.
      - intros (u & v & -> & Hu & Hv). constructor; [by apply IHa|done]. }
    assert (Matches (Cat a b) (c :: s) ↔
      (∃ u v, s = u ++ v ∧ Matches a (c :: u) ∧ Matches b v) ∨ (nullable a = true ∧ Matches b (c :: s))) as ->.
    { split.
      - intros H. inversion H as [| |? ? u v Hu Hv E1 E2| | | |]; subst. destruct u as [|x u].
        + right. cbn in E2. subst v. by rewrite nullable_spec.
        + left. cbn in E2. injection E2 as -> <-. by eexists _, _.
      - intros [(u & v & -> & Hu & Hv)|[Hn Hb]].
        + by apply (MCat _ _ (c :: u) v).
        + apply nullable_spec in Hn. by apply (MCat _ _ [] (c :: s)). }
    destruct (nullable a); [rewrite alt_spec, IHb|]; rewrite Hd; naive_solver.
  - rewrite alt_spec, IHa, IHb. split.
    + intros [H|H]; [by apply MAltL|by apply MAltR].
    + intros H. inversion H; subst; auto.
  - rewrite cat_spec. split.
    + intros H. inversion H; subst. constructor; [by apply IHa|done].
    + intros H. inversion H; subst. constructor; [by apply IHa|done].
Qed.

(** The matcher decides the language of the expression. *)
Lemma matches_spec r s : matches r s = true ↔ Matches r s.
Proof.
  unfold matches. revert r. induction s as [|c s IH]; intros r; cbn [foldl].
  - apply nullable_spec.
  - by rewrite IH, deriv_spec.
Qed.

(** ** The notation of the patterns *)
Definition opt (r : re) : re := Alt Eps r.
Definition plus (r : re) : re := Cat r (Star r).
(** [r{lo,hi}] *)
Fixpoint upto (n : nat) (r : re) : re := match n with O => Eps | S n => opt (Cat r (upto n r)) end.
Fixpoint times (lo extra : nat) (r : re) : re :=
  match lo with O => upto extra r | S lo => Cat r (times lo extra r) end.
Definition chr (c : ascii) : re := Cls (Z.eqb (Z.of_N (N_of_ascii c))).
Definition range (a b : ascii) (c : Z) : bool :=
  (Z.of_N (N_of_ascii a) <=? c) && (c <=? Z.of_N (N_of_ascii b)).
Definition rng (a b : ascii) : re := Cls (range a b).

(** The characters of a Rust string. *)
Fixpoint chars_go (fuel : nat) (l : list byte) : list Z :=
  match fuel, l with
  | S fuel, b :: _ =>
      let n := (utf8_step l).1 in
      let first := match n with
                   | 1%nat => b2z b
                   | 2%nat => Z.land (b2z b) 31
                   | 3%nat => Z.land (b2z b) 15
                   | _ => Z.land (b2z b) 7
                   end in
      foldl (λ c b, Z.shiftl c 6 + Z.land (b2z b) 63) first (tail (take n l))
      :: chars_go fuel (drop n l)
  | _, _ => []
  end.
Definition chars (s : string) : list Z := chars_go (String.length s) (as_bytes s).

Section Patterns.
(** [\d], and the characters that only differ from [a-z] in case. *)
Context (unicode_digit : Z → bool) (folds_to_letter : Z → bool).

Definition digit : re := Cls unicode_digit.

(** [25[0-5]|2[0-4][0-9]|[01]?[0-9][0-9]?] *)
Definition octet_re : re :=
  Alt (Cat (chr "2") (Cat (chr "5") (rng "0" "5")))
  (Alt (Cat (chr "2") (Cat (rng "0" "4") (rng "0" "9")))
       (Cat (opt (rng "0" "1")) (Cat (rng "0" "9") (opt (rng "0" "9"))))).

Definition ipv4_re : re :=
  Cat octet_re (Cat (chr ".") (Cat octet_re (Cat (chr ".") (Cat octet_re (Cat (chr ".")
    (Cat octet_re (opt (Cat (chr ":") (plus digit))))))))).
Definition is_ipv4_str (id : string) : bool := matches ipv4_re (chars id).

(** [([a-fA-F0-9]{1,4}:{1,2})+[a-fA-F0-9]{1,4}] *)
Definition hex_group : re :=
  times 1 3 (Cls (λ c, range "a" "f" c || range "A" "F" c || range "0" "9" c)).
Definition hex_groups : re := Cat (plus (Cat hex_group (times 1 1 (chr ":")))) hex_group.

Definition ipv6_re : re :=
  Alt hex_groups (Cat (chr "[") (Cat hex_groups (Cat (chr "]") (Cat (chr ":") (plus digit))))).
Definition is_ipv6_str (id : string) : bool := matches ipv6_re (chars id).

Definition is_ip_str (id : string) : bool := is_ipv4_str id || is_ipv6_str id.

(** [(?i)[a-z]] *)
Definition letter (c : Z) : bool := range "a" "z" c || range "A" "Z" c || folds_to_letter c.
Definition letter_digit (c : Z) : bool := letter c || range "0" "9" c.
Definition dash (c : Z) : bool := c =? 45.

Definition domain_port_re : re :=
  Cat (plus (Cat (Cat (Cls letter_digit)
                      (opt (Cat (times 0 61 (Cls (λ c, letter_digit c || dash c))) (Cls letter_digit))))
                 (chr ".")))
  (Cat (Cls letter)
  (Cat (times 0 61 (Cls (λ c, letter c || dash c)))
  (Cat (Cls letter)
  (Cat (chr ":") (times 1 4 digit))))).
Definition is_domain_port_str (id : string) : bool := matches domain_port_re (chars id).

(** [is_direct_ip_access] of common.rs *)
Definition is_direct_ip_access (peer : string) : bool := is_ip_str peer || is_domain_port_str peer.

(** ** Identifiers *)

(** Every text of the language has a character of [p]. *)
Fixpoint needs (p : Z → bool) (r : re) : Prop :=
  match r with
  | Nul => True
  | Eps | Star _ => False
  | Cls q => ∀ c, q c = true → p c = true
  | Cat a b => needs p a ∨ needs p b
  | Alt a b => needs p a ∧ needs p b
  end.

Lemma needs_spec p r s : needs p r → Matches r s → existsb p s = true.
Proof.
  intros Hn Hm. induction Hm as [|q c Hq|a b u v _ IHu _ IHv|a b u _ IH|a b u _ IH| |]; cbn in Hn; try done.
  - cbn. by rewrite Hn.
  - rewrite existsb_app. destruct Hn; [rewrite IHu by done|rewrite IHv, orb_true_r by done]; done.
  - apply IH, Hn.
  - apply IH, Hn.
Qed.

(** The pattern takes an identifier without a dot and a colon for no address: the
    numeric identifiers given out by [get_auto_id] and [update_id] always name a
    peer of the rendezvous server. *)
Lemma no_separator_no_address id :
  existsb (λ c, (c =? 46) || (c =? 58)) (chars id) = false → is_direct_ip_access id = false.
Proof.
  set (sep := λ c, (c =? 46) || (c =? 58)). intros Hs.
  assert (∀ r, needs sep r → matches r (chars id) = false) as H.
  { intros r Hr. apply not_true_iff_false. rewrite matches_spec. intros Hm.
    apply (needs_spec sep) in Hm; [congruence|done]. }
  assert (needs sep (chr ".")) as Hdot by (intros c Hc; apply Z.eqb_eq in Hc; by subst).
  assert (needs sep (chr ":")) as Hcolon by (intros c Hc; apply Z.eqb_eq in Hc; by subst).
  unfold is_direct_ip_access, is_ip_str, is_ipv4_str, is_ipv6_str, is_domain_port_str.
  rewrite !H; [done| | |]; cbn; tauto.
Qed.

End Patterns.

(** ** Version numbers *)

(** The number of a dotted version, on wrapping 64-bit integers. *)
Definition as_i64 (z : Z) : Z := (z + 2 ^ 63) mod 2 ^ 64 - 2 ^ 63.

Definition get_version_number (v : string) : Z :=
  let versions := split "-" v in
  let n := match versions with
           | first :: _ =>
               let '(n, last) := foldl (λ '(n, _) x,
                 let last := default 0 (parse_i64 x) in (as_i64 (n * 1000 + last), last))
                 (0, 0) (split "." first) in
               as_i64 (n - last + last * 10)
           | [] => 0
           end in
  match versions with
  | _ :: patch :: _ => as_i64 (n + default 0 (parse_i64 patch))
  | _ => n
  end.

Example version_numbers :
  get_version_number <$> ["1.1.10"; "1.2.3"; "1.2.3-1"; "1.2.0"; ""]
  = [1001100; 1002030; 1002031; 1002000; 0].
Proof. vm_compute. reflexivity. Qed.

Example direct_ip_access :
  is_direct_ip_access (λ c, range "0" "9" c) (λ _, false) <$>
    ["192.168.1.1"; "10.0.0.256"; "1.2.3.4:21118"; "::1"; "fe80::1"; "[fe80::1]:8080";
     "host.example.com:21118"; "host.example.com"; "123456789"]
  = [true; false; true; false; true; true; true; false; false].
Proof. vm_compute. reflexivity. Qed.

End HostNames.
