(* ===== verification/Messages.v ===== *)
(** * Messages between controller and controlled side

    The protobuf messages of client/libs/base/protos/message.proto that
    client/src/server/connection.rs decides on, as inductive types with the fields it
    reads.  The wire form is generated code.  An enum field is an [EnumOrUnknown]: the
    number that was sent. *)
From S2P Require Import Prelude RustStd RecordUpdate.

Module Messages.
#[local] Abbreviation bytes := (list byte).

(** [OptionMessage.BoolOption] *)
Inductive BoolOption : Type := NotSet | No | Yes.
#[export] Instance bool_option_eq_dec : EqDecision BoolOption.
Proof. solve_decision. Defined.
(** [enum_value()]; [None] is the error. *)
Definition bool_option (z : Z) : option BoolOption :=
  if z =? 0 then Some NotSet else if z =? 1 then Some No else if z =? 2 then Some Yes else None.
Definition of_bool_option (b : BoolOption) : Z := match b with NotSet => 0 | No => 1 | Yes => 2 end.

Inductive ImageQuality : Type := QNotSet | Low | Balanced | Best.
#[export] Instance image_quality_eq_dec : EqDecision ImageQuality.
Proof. solve_decision. Defined.
Definition image_quality_value (z : Z) : option ImageQuality :=
  if z =? 0 then Some QNotSet else if z =? 2 then Some Low
  else if z =? 3 then Some Balanced else if z =? 4 then Some Best else None.

Record OptionMessage : Type := mkOption {
  image_quality : Z;
  lock_after_session_end : Z;
  show_remote_cursor : Z;
  privacy_mode : Z;
  block_input : Z;
  custom_image_quality : Z;
  disable_audio : Z;
  disable_clipboard : Z;
  enable_file_transfer : Z;
  supported_decoding : option bytes;  (* as it was sent *)
  custom_fps : Z;
  disable_keyboard : Z;
  follow_remote_cursor : Z;
  follow_remote_window : Z;
  disable_camera : Z;
  terminal_persistent : Z;
  show_my_cursor : Z;
}.
#[export] Instance eta_option : Eta OptionMessage := λ o, mkOption (image_quality o)
  (lock_after_session_end o) (show_remote_cursor o) (privacy_mode o) (block_input o)
  (custom_image_quality o) (disable_audio o) (disable_clipboard o) (enable_file_transfer o)
  (supported_decoding o) (custom_fps o) (disable_keyboard o) (follow_remote_cursor o)
  (follow_remote_window o) (disable_camera o) (terminal_persistent o) (show_my_cursor o).
#[export] Instance option_message_eq_dec : EqDecision OptionMessage.
Proof. solve_decision. Defined.
(** [OptionMessage::new()] *)
Definition new_option : OptionMessage := mkOption 0 0 0 0 0 0 0 0 0 None 0 0 0 0 0 0 0.

(** [LoginRequest.union]; [Unknown] is a variant of a later version. *)
Inductive LoginUnion : Type :=
| FileTransfer (dir : string) (show_hidden clipboard_fast : bool)
| PortForward (host : string) (port : Z) (multiplex : bool)
| ViewCamera
| Terminal (service_id : string).
#[export] Instance login_union_eq_dec : EqDecision LoginUnion.
Proof. solve_decision. Defined.

Record LoginRequest : Type := mkLogin {
  username : string;
  lr_password : bytes;
  my_id : string;
  my_name : string;
  option_of : option OptionMessage;
  union : option LoginUnion;
  video_ack_required : bool;
  session_id : Z;
  version : string;
  os_username : string;
  my_platform : string;
  hwid : bytes;
  avatar : string;
  trusted_device_v2_token : bytes;
  trusted_device_v2_supported : bool;
}.
#[export] Instance eta_login : Eta LoginRequest := λ l, mkLogin (username l) (lr_password l) (my_id l)
  (my_name l) (option_of l) (union l) (video_ack_required l) (session_id l) (version l)
  (os_username l) (my_platform l) (hwid l) (avatar l) (trusted_device_v2_token l)
  (trusted_device_v2_supported l).
#[export] Instance login_eq_dec : EqDecision LoginRequest.
Proof. solve_decision. Defined.
Definition default_login : LoginRequest :=
  mkLogin "" [] "" "" None None false 0 "" "" "" [] "" [] false.

(** [Cliprdr.union] *)
Inductive Cliprdr : Type :=
| Ready | FormatList | FormatListResponse | FormatDataRequest | FormatDataResponse
| FileContentsRequest | FileContentsResponse | TryEmpty | Files.

(** [Misc.union] *)
Inductive Misc : Type :=
| ChatMessage | SwitchDisplay | PermissionInfo | OptionMisc (o : OptionMessage) | AudioFormat
| CloseReason (reason : string) | RefreshVideo (all : bool) | VideoReceived | BackNotification
| RestartRemoteDevice | Uac | ForegroundWindowElevated | StopService | ElevationRequest
| ElevationResponse | PortableServiceRunning | SwitchSidesRequest (uuid : bytes) | SwitchBack
| ChangeResolution | PluginRequest | PluginFailure | FullSpeedFps | AutoAdjustFps (fps : Z)
| ClientRecordStatus (status : bool) | CaptureDisplays | RefreshVideoDisplay (display : Z)
| ToggleVirtualDisplay | TogglePrivacyMode (on : bool) | SupportedEncoding | SelectedSid
| ChangeDisplayResolution | MessageQuery | FollowCurrentDisplay | RequestCursorData (id : Z).

(** [FileAction.union], with the job it is about. *)
Inductive FileAction : Type :=
| ReadEmptyDirs | ReadDir | AllFiles (id : Z) | SendFile (id : Z) (printer : bool) (path : string)
| Receive (id : Z) | RemoveDir (id : Z) | RemoveFile (id : Z) | CreateDir (id : Z) | Rename (id : Z)
| Cancel (id : Z) | SendConfirm (id : Z).

(** [FileResponse.union] *)
Inductive FileResponseUnion : Type := DirResponse | Block | Done | Digest | ErrorResponse | EmptyDirs.

(** [Message.union] *)
Inductive MessageUnion : Type :=
| SignedId | PublicKey | TestDelay (from_client : bool) | VideoFrame
| LoginRequestMsg (lr : LoginRequest) | LoginResponseMsg | HashMsg | MouseEvent | AudioFrame
| CursorData | CursorPosition | CursorId | KeyEvent | Clipboard | FileActionMsg (a : option FileAction)
| FileResponse (r : option FileResponseUnion) | MiscMsg (m : option Misc) | CliprdrMsg (c : option Cliprdr) | MessageBox
| SwitchSidesResponse (uuid : bytes) (lr : option LoginRequest) | VoiceCallRequest (connect : bool)
| VoiceCallResponse | PeerInfo | PointerDeviceEvent | Auth2fa (code : string) (trust_this_device : bool)
| MultiClipboards | ScreenshotRequest | ScreenshotResponse | TerminalAction | TerminalResponse
| PortForwardChannel | OsLogin.

Definition Message : Type := option MessageUnion.

End Messages.
