(* ===== verification/SessionScope.v ===== *)
(** * What a session may send

    The permission checks of client/src/server/connection.rs and
    [get_control_permission] of client/src/common.rs, and the scope of an authorised
    session: which messages and which options each kind of session may send.  All of
    it is pure; the settings and the kind of the session are arguments. *)
From S2P Require Import Prelude RustStd RecordUpdate Messages.
From S2P Require TransportConfig.

Module SessionScope.
Export Messages.

Inductive AuthConnType : Type := RemoteConn | FileTransferConn | PortForwardConn | ViewCameraConn | TerminalConn.
#[export] Instance conn_type_eq_dec : EqDecision AuthConnType.
Proof. solve_decision. Defined.

(** ** Permissions *)

(** [control_permissions::Permission] of rendezvous.proto, by its number. *)
Definition Permission : Type := Z.

(** [get_control_permission]: two bits for each permission. *)
Definition get_control_permission (permissions : Z) (index : Permission) : option bool :=
  if (0 <=? index) && (index <? 32) then
    let value := Z.land (Z.shiftr permissions (index * 2)) 3 in
    if value =? 1 then Some false else if value =? 2 then Some true else None
  else None.

(** The permission of an option of the form [enable-...]. *)
Definition permission_of (enable_option : string) : option Permission :=
  if enable_option ==s "enable-keyboard" then Some 0
  else if enable_option ==s "enable-remote-printer" then Some 1
  else if enable_option ==s "enable-clipboard" then Some 2
  else if enable_option ==s "enable-file-transfer" then Some 3
  else if enable_option ==s "enable-audio" then Some 4
  else if enable_option ==s "enable-camera" then Some 5
  else if enable_option ==s "enable-terminal" then Some 6
  else if enable_option ==s "enable-tunnel" then Some 7
  else if enable_option ==s "enable-remote-restart" then Some 8
  else if enable_option ==s "enable-record-session" then Some 9
  else if enable_option ==s "enable-block-input" then Some 10
  else if enable_option ==s "enable-privacy-mode" then Some 12
  else None.

(** [is_permission_enabled_locally] of the desktop build; [get_option] reads the
    settings. *)
Definition is_permission_enabled_locally (get_option : string → string) (enable_option : string) : bool :=
  let access_mode := get_option "access-mode" in
  if access_mode ==s "full" then true
  else if access_mode ==s "view" then false
  else TransportConfig.TransportConfig.option2bool enable_option (get_option enable_option).

Definition permission (get_option : string → string) (enable_option : string) (control : option Z) : bool :=
  match control ≫= λ permissions, permission_of enable_option ≫= get_control_permission permissions with
  | Some enabled => enabled
  | None => is_permission_enabled_locally get_option enable_option
  end.

(** ** Options *)
Definition is_bool_option_not_set (z : Z) : bool := bool_decide (bool_option z = Some NotSet).

Definition option_has_non_terminal_login_field (o : OptionMessage) : bool :=
  negb (bool_decide (image_quality_value (image_quality o) = Some QNotSet))
  || negb (custom_image_quality o =? 0) || negb (custom_fps o =? 0)
  || bool_decide (is_Some (supported_decoding o))
  || negb (is_bool_option_not_set (lock_after_session_end o))
  || negb (is_bool_option_not_set (show_remote_cursor o))
  || negb (is_bool_option_not_set (privacy_mode o))
  || negb (is_bool_option_not_set (block_input o))
  || negb (is_bool_option_not_set (disable_audio o))
  || negb (is_bool_option_not_set (disable_clipboard o))
  || negb (is_bool_option_not_set (enable_file_transfer o))
  || negb (is_bool_option_not_set (disable_keyboard o))
  || negb (is_bool_option_not_set (follow_remote_cursor o))
  || negb (is_bool_option_not_set (follow_remote_window o))
  || negb (is_bool_option_not_set (disable_camera o))
  || negb (is_bool_option_not_set (show_my_cursor o)).

Definition option_has_any_field (o : OptionMessage) : bool :=
  option_has_non_terminal_login_field o || negb (is_bool_option_not_set (terminal_persistent o)).

Definition option_has_non_view_camera_login_field (o : OptionMessage) : bool :=
  negb (is_bool_option_not_set (lock_after_session_end o)
    && is_bool_option_not_set (show_remote_cursor o)
    && is_bool_option_not_set (privacy_mode o)
    && is_bool_option_not_set (block_input o)
    && is_bool_option_not_set (disable_clipboard o)
    && is_bool_option_not_set (enable_file_transfer o)
    && is_bool_option_not_set (disable_keyboard o)
    && is_bool_option_not_set (follow_remote_cursor o)
    && is_bool_option_not_set (follow_remote_window o)
    && is_bool_option_not_set (disable_camera o)
    && is_bool_option_not_set (terminal_persistent o)
    && is_bool_option_not_set (show_my_cursor o)).

(** [option_has_any_field(&scoped).then_some(scoped)] *)
Definition then_some (o : OptionMessage) : option OptionMessage :=
  if option_has_any_field o then Some o else None.
Definition violation_of (b : bool) : option string := if b then Some "login.option" else None.

Definition scoped_view_camera_option (o : OptionMessage) : option OptionMessage * option string :=
  let scoped := new_option in
  let scoped := if bool_decide (is_Some (image_quality_value (image_quality o)))
                then scoped <| image_quality := image_quality o |> else scoped in
  let scoped := if 0 <=? custom_image_quality o
                then scoped <| custom_image_quality := custom_image_quality o |> else scoped in
  let scoped := if 0 <=? custom_fps o then scoped <| custom_fps := custom_fps o |> else scoped in
  let scoped := scoped <| supported_decoding := supported_decoding o |> in
  let scoped := match bool_option (disable_audio o) with
                | Some value => scoped <| disable_audio := of_bool_option value |>
                | None => scoped
                end in
  (then_some scoped, violation_of (option_has_non_view_camera_login_field o)).

Definition scoped_terminal_login_option (o : OptionMessage) : option OptionMessage * option string :=
  let '(scoped, violation) :=
    match bool_option (terminal_persistent o) with
    | Some value => (new_option <| terminal_persistent := of_bool_option value |>, false)
    | None => (new_option, true)
    end in
  (then_some scoped, violation_of (violation || option_has_non_terminal_login_field o)).

Definition scoped_login_option (t : AuthConnType) (o : OptionMessage) :
    option OptionMessage * option string :=
  match t with
  | RemoteConn => (Some o, None)
  | ViewCameraConn => scoped_view_camera_option o
  | TerminalConn => scoped_terminal_login_option o
  | FileTransferConn | PortForwardConn => (None, violation_of (option_has_any_field o))
  end.

(** What [update_options] is called with for an option of an authorised session. *)
Definition scoped_update_option_message (t : option AuthConnType) (o : OptionMessage) :
    option OptionMessage :=
  match t with
  | Some ViewCameraConn => (scoped_view_camera_option o).1
  | Some TerminalConn => (scoped_terminal_login_option o).1
  | _ => None
  end.

Definition is_terminal_scoped_option (o : OptionMessage) : bool :=
  bool_decide ((scoped_terminal_login_option o).2 = None).
Definition is_view_camera_scoped_option (o : OptionMessage) : bool :=
  bool_decide ((scoped_view_camera_option o).2 = None).

Definition is_supported_decoding_only_option (o : OptionMessage) : bool :=
  bool_decide (is_Some (supported_decoding o))
  && bool_decide (image_quality_value (image_quality o) = Some QNotSet)
  && (custom_image_quality o =? 0) && (custom_fps o =? 0)
  && is_bool_option_not_set (lock_after_session_end o)
  && is_bool_option_not_set (show_remote_cursor o)
  && is_bool_option_not_set (privacy_mode o)
  && is_bool_option_not_set (block_input o)
  && is_bool_option_not_set (disable_audio o)
  && is_bool_option_not_set (disable_clipboard o)
  && is_bool_option_not_set (enable_file_transfer o)
  && is_bool_option_not_set (disable_keyboard o)
  && is_bool_option_not_set (follow_remote_cursor o)
  && is_bool_option_not_set (follow_remote_window o)
  && is_bool_option_not_set (disable_camera o)
  && is_bool_option_not_set (terminal_persistent o)
  && is_bool_option_not_set (show_my_cursor o).

(** ** Messages *)
Definition is_render_broadcast_noop_compat_message (msg : Message) : bool :=
  match msg with
  | Some (MiscMsg (Some (RefreshVideo _ | RefreshVideoDisplay _))) => true
  | Some (MiscMsg (Some (OptionMisc o))) => is_supported_decoding_only_option o
  | _ => false
  end.

Definition is_text_clipboard_noop_compat_message (msg : Message) : bool :=
  match msg with Some (Clipboard | MultiClipboards) => true | _ => false end.

Definition is_connection_housekeeping_message (msg : Message) : bool :=
  match msg with
  | Some (LoginRequestMsg _ | TestDelay _ | MiscMsg (Some (CloseReason _))) => true
  | _ => false
  end.

(** Built for a system other than Windows, where no further message is allowed. *)
Definition is_file_transfer_scoped_misc (m : option Misc) : bool := false.
Definition is_file_transfer_scoped_message (msg : Message) : bool :=
  match msg with
  | Some (FileActionMsg _ | FileResponse _) => true
  | Some (MiscMsg m) => is_file_transfer_scoped_misc m
  | _ => false
  end.

Definition is_clipboard_fast_scoped_message (msg : Message) : bool :=
  match msg with
  | Some (CliprdrMsg (Some (FileContentsRequest | FileContentsResponse))) => true
  | _ => false
  end.

Definition is_port_forward_scoped_message (msg : Message) : bool :=
  match msg with Some PortForwardChannel => true | _ => false end.

Definition is_terminal_scoped_misc (m : option Misc) : bool :=
  match m with
  | Some ChatMessage => true
  | Some (OptionMisc o) => is_terminal_scoped_option o
  | _ => false
  end.
Definition is_terminal_scoped_message (msg : Message) : bool :=
  match msg with
  | Some TerminalAction => true
  | Some (MiscMsg m) => is_terminal_scoped_misc m
  | _ => false
  end.

Definition is_view_camera_scoped_misc (m : option Misc) : bool :=
  match m with
  | Some (SwitchDisplay | CaptureDisplays | RefreshVideo _ | RefreshVideoDisplay _ | VideoReceived
         | ChatMessage | AudioFormat | ClientRecordStatus _ | MessageQuery | TogglePrivacyMode _
         | ToggleVirtualDisplay | ChangeResolution | ChangeDisplayResolution) => true
  | Some (OptionMisc o) => is_view_camera_scoped_option o
  | _ => false
  end.
Definition is_view_camera_scoped_message (msg : Message) : bool :=
  match msg with
  | Some ScreenshotRequest => true
  | Some (MiscMsg m) => is_view_camera_scoped_misc m
  | Some (MouseEvent | PointerDeviceEvent | KeyEvent) => true
  | Some (AudioFrame | VoiceCallRequest _ | VoiceCallResponse) => true
  | _ => false
  end.

Definition misc_message_family (m : option Misc) : string :=
  match m with
  | Some ChatMessage => "misc.chat_message"
  | Some SwitchDisplay => "misc.switch_display"
  | Some (OptionMisc _) => "misc.option"
  | Some AudioFormat => "misc.audio_format"
  | Some CaptureDisplays => "misc.capture_displays"
  | Some (ClientRecordStatus _) => "misc.client_record_status"
  | Some (TogglePrivacyMode _) => "misc.toggle_privacy_mode"
  | Some ToggleVirtualDisplay => "misc.toggle_virtual_display"
  | Some SelectedSid => "misc.selected_sid"
  | Some ChangeResolution => "misc.change_resolution"
  | Some ChangeDisplayResolution => "misc.change_display_resolution"
  | Some MessageQuery => "misc.message_query"
  | Some FollowCurrentDisplay => "misc.follow_current_display"
  | Some (SwitchSidesRequest _) => "misc.switch_sides_request"
  | Some _ => "misc.other"
  | None => "misc.empty"
  end.

Definition message_family (msg : Message) : string :=
  match msg with
  | Some MouseEvent => "mouse_event"
  | Some AudioFrame => "audio_frame"
  | Some PointerDeviceEvent => "pointer_device_event"
  | Some KeyEvent => "key_event"
  | Some Clipboard => "clipboard"
  | Some (FileActionMsg _) => "file_action"
  | Some (FileResponse _) => "file_response"
  | Some (VoiceCallRequest _) => "voice_call_request"
  | Some VoiceCallResponse => "voice_call_response"
  | Some MultiClipboards => "multi_clipboards"
  | Some ScreenshotRequest => "screenshot_request"
  | Some ScreenshotResponse => "screenshot_response"
  | Some TerminalAction => "terminal_action"
  | Some TerminalResponse => "terminal_response"
  | Some PortForwardChannel => "port_forward_channel"
  | Some OsLogin => "os_login"
  | Some (MiscMsg m) => misc_message_family m
  | Some _ => "message.other"
  | None => "empty"
  end.

(** What the session has done wrong, if anything. *)
Definition authorized_message_scope_violation (t : AuthConnType) (msg : Message) (clipboard_fast : bool) :
    option string :=
  if is_connection_housekeeping_message msg then None
  else
    let noop_compat :=
      match t with
      | FileTransferConn =>
          if clipboard_fast then false
          else is_render_broadcast_noop_compat_message msg || is_text_clipboard_noop_compat_message msg
      | TerminalConn =>
          is_render_broadcast_noop_compat_message msg || is_text_clipboard_noop_compat_message msg
      | PortForwardConn => is_render_broadcast_noop_compat_message msg
      | ViewCameraConn => is_text_clipboard_noop_compat_message msg
      | RemoteConn => false
      end in
    if noop_compat then None
    else
      let allowed :=
        match t with
        | RemoteConn => true
        | FileTransferConn => if clipboard_fast then is_clipboard_fast_scoped_message msg
                              else is_file_transfer_scoped_message msg
        | PortForwardConn => is_port_forward_scoped_message msg
        | ViewCameraConn => is_view_camera_scoped_message msg
        | TerminalConn => is_terminal_scoped_message msg
        end in
      if allowed then None else Some (message_family msg).

Definition authorized_scope_violation (t : option AuthConnType) (msg : Message) (clipboard_fast : bool) :
    option string :=
  match t with
  | None => if is_connection_housekeeping_message msg then None else Some "session.auth_type"
  | Some t => authorized_message_scope_violation t msg clipboard_fast
  end.

End SessionScope.
