(* ===== verification/Session.v ===== *)
(** * A connection of the controlled side: its state and its effects

    The structures of client/src/server/connection.rs, the permissions of a session,
    the sessions that are remembered between connections, and [update_options].

    The build is the desktop one with the Flutter interface on a Unix system, without
    file clipboard.  The state [World] is the connection, the statics it shares with
    other connections, and the [Host] of Secrets.v.  What a handler does outside of
    this state - sending to the peer, to the connection manager, to the services - is
    appended to [effects] in order; posts of audit records and logs are left out.  An
    event reads its environment ([Env]): the clocks and the answers of the system. *)
From S2P Require Import Prelude RustStd RecordUpdate Secrets ConfigStore Config2Store TrustedDevices.
From S2P Require Import SessionScope LoginGuard HostNames.
From Stdlib Require Import Ascii.

Module Session.
Export TrustedDevices SessionScope.

(** ** What does not change while the program runs *)
Class Site : Type := {
  OVERWRITE_SETTINGS : gmap string string;
  DEFAULT_SETTINGS : gmap string string;
  BUILTIN_SETTINGS : gmap string string;
  HARD_SETTINGS : gmap string string;
  mac_address : option (list Z);
  hostname : option string;
  lower_chars : string → list Z;
  unicode_digit : Z → bool;
  folds_to_letter : Z → bool;
  cidr_contains : string → string → bool;  (* a network, or nothing, and an address *)
}.

(** ** The environment of one event *)

(** [privacy_mode::turn_on_privacy]: it is on, perhaps with an error of the check after;
    it is not; it failed and is perhaps on still; there is none. *)
Inductive PrivacyResult : Type :=
  TurnedOn (check_error : bool) | NotTurnedOn | TurnFailed (still_on : bool) | NoImplementation.

Record Env : Type := mkEnv {
  now : Z;                        (* get_time(), in milliseconds *)
  instant : Z;                    (* Instant::now(), in milliseconds *)
  is_logon : bool;                (* is_prelogin() || is_locked() *)
  in_privacy_mode : bool;         (* privacy_mode::is_in_privacy_mode() *)
  privacy_supported : bool;
  privacy_replaced : bool;        (* another implementation is on *)
  privacy_on_result : PrivacyResult;
  privacy_off_succeeds : bool;    (* privacy_mode::turn_off_privacy *)
  connect_target : bool;          (* TcpStream::connect within three seconds *)
  display_error : string;         (* a reason that the screen cannot be shared, or empty *)
  displays_error : option string; (* of update_get_sync_displays_on_login *)
  service_user : string → option bool;  (* is_service_specified_user *)
  whiteboard_supported : bool;
  inited_msg : bool;              (* display_service::is_inited_msg() *)
  rdp_input : bool;               (* input_service::wayland_use_rdp_input() *)
  new_service_id : string;        (* terminal_service::generate_service_id() *)
  has_read_job : Z → bool;        (* fs::get_job(id, read_jobs) *)
  resolution_known : bool;        (* the display whose resolution is to change exists *)
  display_msg : bool;             (* make_display_changed_msg *)
  cursor_known : Z → bool;        (* cursor_data_message *)
  terminal_answers : bool;        (* handle_action has a response or an error *)
  privacy_conn_id : option Z;     (* get_privacy_mode_conn_id() *)
  main_window_open : bool;        (* check_process, asked by the server process *)
}.

(** ** Shared state *)
Record SessionKey : Type := mkKey { peer_id : string; peer_name : string; key_session_id : Z }.
#[export] Instance session_key_eq_dec : EqDecision SessionKey.
Proof. solve_decision. Defined.
#[export] Instance session_key_countable : Countable SessionKey.
Proof.
  refine (inj_countable' (λ k, (peer_id k, peer_name k, key_session_id k))
    (λ '(a, b, c), mkKey a b c) _). by intros [].
Defined.

(** [last_recv_time] is a cell of [times], shared with the connections of the session. *)
Record SessionEntry : Type := mkSession { last_recv_time : nat; random_password : string; tfa : bool }.
#[export] Instance eta_session : Eta SessionEntry := λ s, mkSession (last_recv_time s)
  (random_password s) (tfa s).

Record AuthedConn : Type := mkAuthed {
  authed_id : Z;
  authed_type : AuthConnType;
  authed_key : SessionKey;
  authed_clipboard_fast : bool;
}.

Inductive ConnAuditPrimaryAuth : Type :=
  NoAuth | ClickAuth | TemporaryPasswordAuth | PermanentPasswordAuth | SwitchSidesAuth.
#[export] Instance primary_eq_dec : EqDecision ConnAuditPrimaryAuth.
Proof. solve_decision. Defined.
Inductive ConnAuditTwoFactor : Type := NoFactor | TotpFactor | TrustedDeviceFactor.
#[export] Instance two_factor_eq_dec : EqDecision ConnAuditTwoFactor.
Proof. solve_decision. Defined.

(** ** The connection *)
Section Types.
Context `{!TotpLib}.

Record Connection : Type := mkConn {
  id : Z;
  ip : string;
  secured : bool;                       (* stream.is_secured() *)
  hash_salt : string;
  hash_challenge : string;
  file_transfer : option (string * bool);
  clipboard_fast : bool;
  view_camera : bool;
  terminal : bool;
  port_forward_socket : bool;
  port_forward_mux : bool;
  port_forward_address : string;
  authorized : bool;
  unauthorized_id : bool;
  require_2fa : option TOTP;
  awaiting_2fa : bool;
  trusted_device : option Attempt;
  keyboard : bool;
  clipboard : bool;
  audio : bool;
  file_perm : bool;
  restart : bool;
  recording : bool;
  c_block_input : bool;
  c_privacy_mode : bool;
  control_permissions : option Z;
  last_test_delay : option Z;
  network_delay : Z;
  c_lock_after_session_end : bool;
  c_show_remote_cursor : bool;
  c_disable_keyboard : bool;
  c_show_my_cursor : bool;
  c_disable_clipboard : bool;
  c_disable_audio : bool;
  audio_sender : bool;
  c_video_ack_required : bool;
  lr : LoginRequest;
  login_scope : option bytes;
  session_last_recv_time : option nat;
  chat_unanswered : bool;
  file_transferred : bool;
  from_switch : bool;
  voice_call_request_timestamp : bool;
  voice_calling : bool;
  options_in_login : option OptionMessage;
  closed : bool;
  start_cm_ipc_para : bool;
  auto_disconnect_timer : option (Z * Z);
  authed_conn_id : option AuthConnType;
  services_subed : bool;
  c_follow_remote_cursor : bool;
  c_follow_remote_window : bool;
  primary_auth : ConnAuditPrimaryAuth;
  two_factor : ConnAuditTwoFactor;
  terminal_service_id : string;
  c_terminal_persistent : bool;
  scope_violation_messages : list string;
  terminal_user_token : bool;
  terminal_generic_service : bool;
  send_timeout : Z;
  max_packet_length : Z;
}.
#[export] Instance eta_conn : Eta Connection := λ c, mkConn (id c) (ip c) (secured c) (hash_salt c)
  (hash_challenge c) (file_transfer c) (clipboard_fast c) (view_camera c) (terminal c)
  (port_forward_socket c) (port_forward_mux c) (port_forward_address c) (authorized c)
  (unauthorized_id c) (require_2fa c) (awaiting_2fa c) (trusted_device c) (keyboard c) (clipboard c)
  (audio c) (file_perm c) (restart c) (recording c) (c_block_input c) (c_privacy_mode c)
  (control_permissions c) (last_test_delay c) (network_delay c) (c_lock_after_session_end c)
  (c_show_remote_cursor c) (c_disable_keyboard c) (c_show_my_cursor c) (c_disable_clipboard c)
  (c_disable_audio c) (audio_sender c) (c_video_ack_required c) (lr c) (login_scope c)
  (session_last_recv_time c) (chat_unanswered c) (file_transferred c) (from_switch c)
  (voice_call_request_timestamp c) (voice_calling c) (options_in_login c) (closed c)
  (start_cm_ipc_para c) (auto_disconnect_timer c) (authed_conn_id c) (services_subed c)
  (c_follow_remote_cursor c) (c_follow_remote_window c) (primary_auth c) (two_factor c)
  (terminal_service_id c) (c_terminal_persistent c) (scope_violation_messages c)
  (terminal_user_token c) (terminal_generic_service c) (send_timeout c) (max_packet_length c).

(** ** Effects *)
Inductive Service : Type := CursorService | PosService | WindowFocusService | ClipboardService | AudioService.
#[export] Instance service_eq_dec : EqDecision Service.
Proof. solve_decision. Defined.

(** Messages to the peer. *)
Inductive Sent : Type :=
| HashSent (salt challenge : string)
| LoginErrorSent (error : string) (trusted_device_v2_supported : bool)
| LoginOkSent (mux : bool) (trusted_device_v2_supported : bool) (token : bytes)
| PermissionSent (name : string) (enabled : bool)
| CloseReasonSent (reason : string)
| TestDelaySent
| PrivacyModeSent (state : string)
| BlockInputErrorSent (on : bool)
| FileErrorSent (job : Z)
| MessageBoxSent
| ChatSent
| VoiceCallSent (accepted : bool)
| DisplayChangedSent
| CursorDataSent
| TerminalResponseSent
| SwitchBackSent
| InitedSent.

(** Messages to the connection manager. *)
Inductive CmData : Type :=
| CmLogin (authorized : bool)
| CmChat
| CmFs (a : string)
| CmFileLog (a : string)
| CmVoiceCallIncoming
| CmStartVoiceCall
| CmCloseVoiceCall
| CmSwitchPermission (name : string) (enabled : bool)
| CmClose
| CmDisconnected.

Inductive Effect : Type :=
| SendPeer (m : Sent)
| ToCm (d : CmData)
| StartCmIpc
| Subscribe (s : Service) (on : bool)
| AddMonitorConnection (without : list Service)
| AddCameraConnection
| QosImageQuality (q : Z) | QosCustomFps (fps : Z) | QosAutoAdjustFps (fps : Z) | QosRecord (on : bool)
| QosDelay (ms : Z) | FrameFetched
| EncoderUpdate
| PrivacyOn | PrivacyOff | CloseOtherRemotes
| BlockInput (on : bool)
| InputMouse (simulate show_cursor : bool) | InputPointer | InputKey
| SetClipboard
| ReadFiles (a : string)
| TerminalDo | TerminalPersist (on : bool) | StartTerminalService
| ForwardChannel
| Reboot
| SwitchDisplays | RefreshVideoFor | ChangeResolutionTo | TakeScreenshot
| StartAudio | PlayAudio | VoiceCallDevice
| RunConnect
| Whiteboard (on : bool)
| LockScreen
| RemoveWallpaper | SetupRdpInput
| CloseSocket.

Record World : Type := mkWorld {
  host : Host;
  SESSIONS : gmap SessionKey SessionEntry;
  times : list Z;
  TEMPORARY_PASSWORD_FAILURES : string * Z;
  LOGIN_FAILURES : nat → LoginGuard.Failures;
  AUTHED_CONNS : list AuthedConn;
  SWITCH_SIDES_UUID : gmap string (Z * bytes);
  PENDING_SWITCH_SIDES_UUID : gmap string (Z * bytes * bool);
  conn : Connection;
  effects : list Effect;
}.
#[export] Instance eta_world : Eta World := λ w, mkWorld (host w) (SESSIONS w) (times w)
  (TEMPORARY_PASSWORD_FAILURES w) (LOGIN_FAILURES w) (AUTHED_CONNS w) (SWITCH_SIDES_UUID w)
  (PENDING_SWITCH_SIDES_UUID w) (conn w) (effects w).

Definition Conn (A : Type) : Type := World → A * World.
#[export] Instance conn_ret : MRet Conn := λ A a w, (a, w).
#[export] Instance conn_bind : MBind Conn := λ A B k m w, let '(a, w) := m w in k a w.

Definition get {A} (f : World → A) : Conn A := λ w, (f w, w).
Definition change_world (f : World → World) : Conn unit := λ w, (tt, f w).
Definition self {A} (f : Connection → A) : Conn A := λ w, (f (conn w), w).
Definition set (f : Connection → Connection) : Conn unit := λ w, (tt, w <| conn := f (conn w) |>).
Definition emit (e : Effect) : Conn unit := λ w, (tt, w <| effects := effects w ++ [e] |>).
Definition send (m : Sent) : Conn unit := emit (SendPeer m).
Definition to_cm (d : CmData) : Conn unit := emit (ToCm d).
Definition on_host {A} (m : HostM A) : Conn A := λ w, let '(a, h) := m (host w) in (a, w <| host := h |>).
Definition trying {A} (m : TD A) : Conn (result A Error) := λ w, let '(a, h) := m (host w) in (a, w <| host := h |>).

End Types.

Section Model.
Context `{!Crypto, !Entropy, !Json, !TotpLib, !Tokens, !Site}.
Variable E : Env.

(** ** Settings *)
Definition option_value (k : string) : Conn string :=
  get (λ w, get_option OVERWRITE_SETTINGS DEFAULT_SETTINGS k (host w)).
Definition bool_option_value (k : string) : Conn bool :=
  get (λ w, get_bool_option OVERWRITE_SETTINGS DEFAULT_SETTINGS k (host w)).
Definition get_builtin_option (k : string) : string := default "" (BUILTIN_SETTINGS !! k).

Definition permitted (enable_option : string) : Conn bool :=
  get (λ w, permission (λ k, get_option OVERWRITE_SETTINGS DEFAULT_SETTINGS k (host w)) enable_option
              (control_permissions (conn w))).

(** ** What the session may do *)
Definition is_port_forward (c : Connection) : bool := port_forward_socket c || port_forward_mux c.
Definition is_remote (c : Connection) : bool :=
  bool_decide (file_transfer c = None) && negb (is_port_forward c) && negb (view_camera c)
  && negb (terminal c).
Definition is_authed_remote_conn (c : Connection) : bool :=
  bool_decide (authed_conn_id c = Some RemoteConn).
Definition is_authed_view_camera_conn (c : Connection) : bool :=
  bool_decide (authed_conn_id c = Some ViewCameraConn).
Definition should_handle_render_broadcast_message (c : Connection) : bool :=
  is_authed_remote_conn c || is_authed_view_camera_conn c.
Definition should_handle_text_clipboard_message (c : Connection) : bool := is_authed_remote_conn c.

Definition peer_keyboard_enabled (c : Connection) : bool := keyboard c && negb (c_disable_keyboard c).
Definition clipboard_enabled (c : Connection) : bool := clipboard c && negb (c_disable_clipboard c).
Definition can_sub_clipboard_service (c : Connection) : bool :=
  clipboard_enabled c && peer_keyboard_enabled c
  && negb (get_builtin_option "one-way-clipboard-redirection" ==s "Y").
Definition audio_enabled (c : Connection) : bool := audio c && negb (c_disable_audio c).

Definition session_key (c : Connection) : SessionKey :=
  mkKey (my_id (lr c)) (my_name (lr c)) (session_id (lr c)).

(** ** Answers *)
Definition send_login_error (err : string) : Conn unit :=
  c ← self (λ c, c);
  send (LoginErrorSent err
    (trusted_device_v2_supported (lr c) && bool_decide (is_Some (trusted_device c)))).

Definition try_start_cm (authorized : bool) : Conn unit :=
  fast ← self clipboard_fast;
  if fast : bool then mret tt else to_cm (CmLogin authorized).

(** The channel to the connection manager is started once. *)
Definition try_start_cm_ipc : Conn unit :=
  p ← self start_cm_ipc_para;
  if p : bool then set (λ c, c <| start_cm_ipc_para := false |>);; emit StartCmIpc else mret tt.

Definition send_permission (name : string) (enabled : bool) : Conn unit := send (PermissionSent name enabled).

(** ** Sessions that are remembered *)
Definition new_time : Conn nat := λ w, (length (times w), w <| times := times w ++ [instant E] |>).

Definition update_or_insert_session (key : SessionKey) (password : option string) (tf : option bool) :
    Conn unit :=
  s ← get (λ w, SESSIONS w !! key);
  match s with
  | Some s =>
      let s := match password with Some p => s <| random_password := p |> | None => s end in
      let s := match tf with Some t => s <| tfa := t |> | None => s end in
      change_world (λ w, w <| SESSIONS := <[key := s]> (SESSIONS w) |>)
  | None =>
      t ← new_time;
      change_world (λ w, w <| SESSIONS :=
        <[key := mkSession t (default "" password) (default false tf)]> (SESSIONS w) |>)
  end.

Definition set_session_2fa (key : SessionKey) : Conn unit :=
  s ← get (λ w, SESSIONS w !! key);
  match s with
  | Some s => change_world (λ w, w <| SESSIONS := <[key := s <| tfa := true |>]> (SESSIONS w) |>)
  | None =>
      t ← new_time;
      change_world (λ w, w <| SESSIONS := <[key := mkSession t "" true]> (SESSIONS w) |>)
  end.

Definition SESSION_TIMEOUT : Z := 30000.
Definition retain_recent (w : World) : World :=
  w <| SESSIONS := filter (λ '(_, s), instant E - default 0 (times w !! last_recv_time s) < SESSION_TIMEOUT)
                     (SESSIONS w) |>.

Definition check_remove_session (key : SessionKey) : Conn unit :=
  c ← self id;
  found ← get (λ w, SESSIONS w !! key);
  match found with
  | None => mret tt
  | Some _ =>
      conns ← get AUTHED_CONNS;
      let is_remote := existsb (λ a, bool_decide (authed_id a = c) && bool_decide (authed_type a = RemoteConn)) conns in
      let another_remote := existsb (λ a, negb (bool_decide (authed_id a = c)) && bool_decide (authed_key a = key)
                                          && bool_decide (authed_type a = RemoteConn)) conns in
      if is_remote || negb another_remote
      then change_world (λ w, w <| SESSIONS := delete key (SESSIONS w) |>)
      else mret tt
  end.

(** [raii::AuthedConnID]: [new], [Drop], and the questions about the list. *)
Definition has_remote_session (key : SessionKey) (conns : list AuthedConn) : bool :=
  existsb (λ a, bool_decide (authed_type a = RemoteConn) && bool_decide (authed_key a = key)) conns.
Definition has_clipboard_fast_session (key : SessionKey) (conns : list AuthedConn) : bool :=
  existsb (λ a, authed_clipboard_fast a && bool_decide (authed_key a = key)) conns.
Definition session_reconnected (i : Z) (key : SessionKey) (conns : list AuthedConn) : bool :=
  existsb (λ a, (i <? authed_id a) && bool_decide (authed_type a = RemoteConn)
                && bool_decide (authed_key a = key)) conns.
Definition new_authed (i : Z) (t : AuthConnType) (key : SessionKey) : Conn unit :=
  change_world (λ w, w <| AUTHED_CONNS := AUTHED_CONNS w ++ [mkAuthed i t key false] |>).
Definition drop_authed (i : Z) : Conn unit :=
  change_world (λ w, w <| AUTHED_CONNS := filter (λ a, authed_id a ≠ i) (AUTHED_CONNS w) |>).

(** ** Privacy mode *)
Definition turn_on_privacy : Conn unit :=
  c ← self (λ c, c);
  if negb (is_authed_remote_conn c) || negb (c_privacy_mode c) then send (PrivacyModeSent "PrvOnFailedDenied")
  else if negb (privacy_supported E) then send (PrivacyModeSent "PrvNotSupported")
  else
    (if privacy_replaced E then send (PrivacyModeSent "PrvOffSucceeded") else mret tt);;
    emit PrivacyOn;;
    match privacy_on_result E with
    | TurnedOn false => emit CloseOtherRemotes;; send (PrivacyModeSent "PrvOnSucceeded")
    | TurnedOn true => emit PrivacyOff;; send (PrivacyModeSent "PrvOnFailed")
    | NotTurnedOn => send (PrivacyModeSent "PrvOnFailed")
    | TurnFailed still_on =>
        (if still_on then emit PrivacyOff else mret tt);; send (PrivacyModeSent "PrvOnFailed")
    | NoImplementation => send (PrivacyModeSent "PrvOffFailed")
    end.

Definition turn_off_privacy : Conn unit :=
  if negb (privacy_supported E) then send (PrivacyModeSent "PrvNotSupported")
  else
    emit PrivacyOff;;
    send (PrivacyModeSent (if privacy_off_succeeds E then "PrvOffSucceeded" else "PrvOffFailed")).

Definition toggle_privacy_mode (on : bool) : Conn unit := if on then turn_on_privacy else turn_off_privacy.

(** ** Options of the peer *)

(** An option that is set: [Some] of whether it is [Yes]. *)
Definition chosen (z : Z) : option bool :=
  match bool_option z with Some Yes => Some true | Some No => Some false | _ => None end.
Definition when {A} (o : option A) (f : A → Conn unit) : Conn unit :=
  match o with Some a => f a | None => mret tt end.

Definition subscribe_clipboard : Conn unit :=
  c ← self (λ c, c); emit (Subscribe ClipboardService (can_sub_clipboard_service c)).
Definition subscribe_cursor : Conn unit :=
  c ← self (λ c, c); emit (Subscribe CursorService (peer_keyboard_enabled c || c_show_remote_cursor c)).
(** A camera session hears the audio service only during a voice call. *)
Definition subscribe_audio : Conn unit :=
  c ← self (λ c, c);
  if is_authed_view_camera_conn c then
    if voice_calling c || negb (audio_enabled c) then emit (Subscribe AudioService (audio_enabled c)) else mret tt
  else emit (Subscribe AudioService (audio_enabled c)).

Definition update_options (o : OptionMessage) : Conn unit :=
  when (image_quality_value (image_quality o)) (λ q,
    let quality := match q with
                   | QNotSet => if 0 <? custom_image_quality o then custom_image_quality o else -1
                   | _ => image_quality o
                   end in
    if 0 <? quality then emit (QosImageQuality quality) else mret tt);;
  (if 0 <? custom_fps o then emit (QosCustomFps (custom_fps o)) else mret tt);;
  when (supported_decoding o) (λ _, emit EncoderUpdate);;
  when (chosen (lock_after_session_end o)) (λ q, set (λ c, c <| c_lock_after_session_end := q |>));;
  when (chosen (show_remote_cursor o)) (λ q,
    set (λ c, c <| c_show_remote_cursor := q |>);;
    subscribe_cursor;;
    emit (Subscribe PosService q));;
  when (chosen (follow_remote_cursor o)) (λ q, set (λ c, c <| c_follow_remote_cursor := q |>));;
  when (chosen (follow_remote_window o)) (λ q,
    set (λ c, c <| c_follow_remote_window := q |>);;
    emit (Subscribe WindowFocusService q));;
  when (chosen (disable_audio o)) (λ q,
    set (λ c, c <| c_disable_audio := q |>);;
    subscribe_audio);;
  when (chosen (disable_clipboard o)) (λ q,
    set (λ c, c <| c_disable_clipboard := q |>);;
    subscribe_clipboard);;
  when (chosen (disable_keyboard o)) (λ q,
    set (λ c, c <| c_disable_keyboard := q |>);;
    subscribe_clipboard;;
    subscribe_cursor);;
  (c ← self (λ c, c);
   if HostNames.get_version_number (version (lr c)) <? HostNames.get_version_number "1.2.4" then
     when (chosen (privacy_mode o)) (λ q,
       if keyboard c then toggle_privacy_mode q else mret tt)
   else mret tt);;
  when (chosen (block_input o)) (λ q,
    c ← self (λ c, c);
    if keyboard c && c_block_input c then emit (BlockInput q) else send (BlockInputErrorSent q));;
  when (chosen (terminal_persistent o)) (λ q,
    set (λ c, c <| c_terminal_persistent := q |>);;
    emit (TerminalPersist q));;
  when (chosen (show_my_cursor o)) (λ q,
    set (λ c, c <| c_show_my_cursor := q |>);;
    if whiteboard_supported E then emit (Whiteboard q)
    else if q : bool then send MessageBoxSent else mret tt).

Definition update_scoped_login_options : Conn unit :=
  o ← self options_in_login;
  match o with
  | None => mret tt
  | Some o =>
      set (λ c, c <| options_in_login := None |>);;
      t ← self authed_conn_id;
      match t with
      | None => mret tt
      | Some t => when (scoped_login_option t o).1 update_options
      end
  end.

(** ** Inactivity *)
Definition get_auto_disconenct_timer : Conn (option (Z * Z)) :=
  allow ← option_value "allow-auto-disconnect";
  if allow ==s "Y" then
    t ← option_value "auto-disconnect-timeout";
    let minute := default 10 (parse_u64 t) in
    mret (Some (instant E, if minute =? 0 then 10 else minute))
  else mret None.

Definition update_auto_disconnect_timer : Conn unit :=
  set (λ c, c <| auto_disconnect_timer := (λ t, (instant E, t.2)) <$> auto_disconnect_timer c |>).

(** ** Services *)
Definition try_sub_camera_displays : Conn unit := emit AddCameraConnection.

Definition try_sub_monitor_services : Conn unit :=
  c ← self (λ c, c);
  if is_remote c && negb (services_subed c) then
    set (λ c, c <| services_subed := true |>);;
    let noperms :=
      (if negb (peer_keyboard_enabled c) && negb (c_show_remote_cursor c) then [CursorService] else [])
      ++ (if negb (c_show_remote_cursor c) then [PosService] else [])
      ++ (if negb (c_follow_remote_window c) then [WindowFocusService] else [])
      ++ (if negb (can_sub_clipboard_service c) then [ClipboardService] else [])
      ++ (if negb (audio_enabled c) then [AudioService] else []) in
    t ← get_auto_disconenct_timer;
    set (λ c, c <| auto_disconnect_timer := t |>);;
    emit (AddMonitorConnection noperms)
  else mret tt.

(** ** Voice calls *)
Definition handle_voice_call (accepted : bool) : Conn unit :=
  ts ← self voice_call_request_timestamp;
  if ts : bool then
    set (λ c, c <| voice_call_request_timestamp := false |>);;
    (if accepted then emit VoiceCallDevice;; to_cm CmStartVoiceCall else to_cm CmCloseVoiceCall);;
    send (VoiceCallSent accepted);;
    set (λ c, c <| voice_calling := accepted |>);;
    c ← self (λ c, c);
    if is_authed_view_camera_conn c then emit (Subscribe AudioService (audio_enabled c && accepted)) else mret tt
  else mret tt.

Definition close_voice_call : Conn unit :=
  emit VoiceCallDevice;;
  to_cm CmCloseVoiceCall;;
  set (λ c, c <| voice_calling := false |>);;
  c ← self (λ c, c);
  if is_authed_view_camera_conn c then emit (Subscribe AudioService false) else mret tt.

(** ** Closing *)
Definition on_close (lock : bool) : Conn unit :=
  c ← self (λ c, c);
  if closed c then mret tt
  else
    set (λ c, c <| closed := true |>);;
    emit VoiceCallDevice;;
    conns ← get AUTHED_CONNS;
    (if lock && c_lock_after_session_end c && keyboard c
        && negb (session_reconnected (id c) (session_key c) conns)
     then emit LockScreen else mret tt);;
    to_cm (if chat_unanswered c || file_transferred c then CmDisconnected else CmClose);;
    set (λ c, c <| port_forward_socket := false |> <| port_forward_mux := false |>);;
    (if is_port_forward c then emit CloseSocket else mret tt).

Definition send_close_reason_no_retry (reason : string) : Conn unit :=
  send (CloseReasonSent (if is_empty reason then "Closed manually by the peer" else reason));;
  key ← self session_key;
  check_remove_session key.

End Model.
End Session.
