(* ===== verification/Login.v ===== *)
(** * Logging in

    The part of client/src/server/connection.rs that decides whether a connection is
    authorised - passwords, recent sessions, two-factor codes, acceptance by the user
    and switched sides - with server/connection/trusted_devices.rs.  It works on the
    [World] of Session.v; an early [return] of the source is the value that says whether
    the connection is kept. *)
From S2P Require Import Prelude RustStd RecordUpdate Secrets ConfigStore Config2Store TrustedDevices.
From S2P Require Import SessionScope LoginGuard HostNames Session.
From S2P Require TransportConfig PortForwardFlow PortForwardMux.
From Stdlib Require Import Ascii.

Module Login.
Export Session.

Definition LOGIN_MSG_PASSWORD_WRONG : string := "Wrong Password".
Definition LOGIN_MSG_2FA_WRONG : string := "Wrong 2FA Code".
Definition REQUIRE_2FA : string := "2FA Required".
Definition LOGIN_MSG_NO_PASSWORD_ACCESS : string := "No Password Access".
Definition LOGIN_MSG_OFFLINE : string := "Offline".
Definition SEND_TIMEOUT_VIDEO : Z := 12000.
Definition SEND_TIMEOUT_OTHER : Z := SEND_TIMEOUT_VIDEO * 10.
Definition SWITCH_SIDES_UUID_TTL : Z := 10000.
Definition FAILURE_IDX_ID_WHITELIST : nat := 2.

(** ** Comparing secrets *)
Definition constant_time_eq (a b : bytes) : bool :=
  if negb (len a =? len b) then false
  else foldl (λ x '(p, q), Z.lor x (Z.lxor (b2z p) (b2z q))) 0 (zip a b) =? 0.

Section Model.
Context `{!Crypto, !Entropy, !Json, !TotpLib, !Tokens, !Site}.
Variable E : Env.

(** ** Passwords *)
Definition verify_h1 (c : Connection) (h1 : bytes) : bool :=
  constant_time_eq (sha256 (h1 ++ as_bytes (hash_challenge c))) (lr_password (lr c)).

Definition validate_password_plain (c : Connection) (password : string) : bool :=
  if is_empty password then false
  else verify_h1 c (sha256 (as_bytes password ++ as_bytes (hash_salt c))).

Definition validate_password_storage (c : Connection) (storage : string) : HostM bool :=
  if is_empty storage then mret false
  else
    h1 ← decode_permanent_password_h1_from_storage storage;
    mret (match h1 with
          | Some h1 => verify_h1 c h1
          | None => validate_password_plain c storage
          end).

Definition validate_preset_password_storage (c : Connection) (storage salt : string) : bool :=
  if is_empty salt then validate_password_plain c storage
  else match decode_preset_password_h1_from_storage storage with
       | Some h1 => verify_h1 c h1
       | None => false
       end.

Definition MAX_CONSECUTIVE_FAILURES : Z := 10.

Definition check_update_temporary_password (success : bool) : Conn unit :=
  enabled ← get (λ w, temporary_enabled OVERWRITE_SETTINGS DEFAULT_SETTINGS (host w));
  if negb enabled then mret tt
  else
    current_password ← get (λ w, TEMPORARY_PASSWORD (host w));
    if is_empty current_password then mret tt
    else
      '(password, failures) ← get TEMPORARY_PASSWORD_FAILURES;
      let failures := if password ==s current_password then failures else 0 in
      let store f p := change_world (λ w, w <| TEMPORARY_PASSWORD_FAILURES := (p, f) |>) in
      if success then store 0 current_password
      else
        let failures := failures + 1 in
        if failures <? MAX_CONSECUTIVE_FAILURES then store failures current_password
        else
          on_host (update_temporary_password OVERWRITE_SETTINGS DEFAULT_SETTINGS);;
          new_password ← get (λ w, TEMPORARY_PASSWORD (host w));
          store 0 new_password.

Definition set_primary (m : ConnAuditPrimaryAuth) : Conn unit := set (λ c, c <| primary_auth := m |>).
Definition set_two_factor (m : ConnAuditTwoFactor) : Conn unit := set (λ c, c <| two_factor := m |>).

(** The branch of a temporary password. *)
Definition validate_temporary_password : Conn bool :=
  enabled ← get (λ w, temporary_enabled OVERWRITE_SETTINGS DEFAULT_SETTINGS (host w));
  if negb enabled then mret false
  else
    password ← get (λ w, TEMPORARY_PASSWORD (host w));
    c ← self (λ c, c);
    if negb (validate_password_plain c password) then mret false
    else
      set_primary TemporaryPasswordAuth;;
      update_or_insert_session E (session_key c) (Some password) (Some false);;
      check_update_temporary_password true;;
      mret true.

(** The branch of a permanent password, stored or preset. *)
Definition validate_permanent_password : Conn bool :=
  '(local_storage, local_salt) ← get (λ w, get_local_permanent_password_storage_and_salt (host w));
  c ← self (λ c, c);
  matched ← (if negb (is_empty local_storage) then
               usable ← on_host (local_permanent_password_storage_is_usable_for_auth local_storage local_salt);
               if usable : bool then on_host (validate_password_storage c local_storage) else mret false
             else
               let '(hard, salt) := get_preset_password_storage_and_salt HARD_SETTINGS in
               mret (preset_permanent_password_storage_is_usable_for_auth hard salt
                     && validate_preset_password_storage c hard salt));
  if matched : bool then
    update_or_insert_session E (session_key c) None (Some false);;
    set_primary PermanentPasswordAuth;;
    mret true
  else mret false.

Definition validate_password (allow_permanent_password : bool) : Conn bool :=
  by_temporary ← validate_temporary_password;
  if by_temporary : bool then mret true
  else
    permanent ← get (λ w, permanent_enabled OVERWRITE_SETTINGS DEFAULT_SETTINGS (host w));
    if permanent || allow_permanent_password then validate_permanent_password else mret false.

Definition is_recent_session (tf : bool) : Conn bool :=
  change_world (retain_recent E);;
  c ← self (λ c, c);
  session ← get (λ w, SESSIONS w !! session_key c);
  match session with
  | None => mret false
  | Some session =>
      if negb (bool_decide (lr_password (lr c) = []))
         && ((tf && tfa session) || (negb tf && validate_password_plain c (random_password session)))
      then (if tf then set_two_factor TotpFactor else set_primary TemporaryPasswordAuth);; mret true
      else mret false
  end.

(** ** Limits *)
Definition alarm_message (a : LoginGuard.Alarm) : string :=
  match a with
  | LoginGuard.ExceedIPv6PrefixAttempts n =>
      "Too many wrong attempts for IPv6 prefix /" +:+ uint_to_string n
  | LoginGuard.ExceedThirtyAttempts => "Too many wrong attempts"
  | LoginGuard.SixAttemptsWithinOneMinute => "Please try 1 minute later"
  end.

(** [check_failure]: the entry for [update_failure], and whether to go on. *)
Definition check_failure (i : nat) : Conn (LoginGuard.Entry * Z * bool) :=
  c ← self (λ c, c);
  f ← get (λ w, LOGIN_FAILURES w i);
  let '(seen, alarm) := LoginGuard.check_failure f (ip c) (now E) in
  match alarm with
  | Some a => send_login_error (alarm_message a);; mret (seen, false)
  | None => mret (seen, true)
  end.

Definition with_failures (i : nat) (f : LoginGuard.Failures → LoginGuard.Failures) : Conn unit :=
  change_world (λ w, w <| LOGIN_FAILURES := λ j, if (j =? i)%nat then f (LOGIN_FAILURES w i) else LOGIN_FAILURES w j |>).

Definition update_failure (seen : LoginGuard.Entry * Z) (remove : bool) (i : nat) : Conn unit :=
  c ← self (λ c, c);
  with_failures i (λ f, LoginGuard.update_failure f (ip c) seen.1 seen.2 remove).

Definition clear_id_whitelist_failures : Conn unit :=
  c ← self (λ c, c);
  with_failures FAILURE_IDX_ID_WHITELIST (λ f, LoginGuard.clear_failures f (LoginGuard.failure_keys (ip c))).

Definition check_id_whitelist : Conn bool :=
  option ← option_value "id-whitelist";
  let id_whitelist := LoginGuard.parse_id_whitelist option in
  if bool_decide (id_whitelist = []) then mret true
  else
    c ← self (λ c, c);
    with_failures FAILURE_IDX_ID_WHITELIST (λ f,
      LoginGuard.decay_stale_failures f (LoginGuard.failure_keys (ip c)) (LoginGuard.minutes (now E))
        LoginGuard.ID_WHITELIST_FAILURE_DECAY_MINUTES);;
    '(failure, res) ← check_failure FAILURE_IDX_ID_WHITELIST;
    if negb res then mret false
    else if LoginGuard.id_whitelist_allows lower_chars id_whitelist (my_id (lr c)) then mret true
    else
      update_failure failure false FAILURE_IDX_ID_WHITELIST;;
      send_login_error "Your ID is blocked by the peer";;
      mret false.

(** ** The scope of the login *)
Definition reset_session_scope_for_login : Conn unit :=
  set (λ c, c <| file_transfer := None |> <| clipboard_fast := false |> <| view_camera := false |>
              <| terminal := false |> <| port_forward_address := "" |> <| c_terminal_persistent := false |>).

Definition push (l : bytes) : bytes := to_le_bytes 8 (len l) ++ l.
Definition bool_byte (b : bool) : bytes := [if b then Byte.x01 else Byte.x00].

(** What [login_scope_digest] hashes. *)
Definition login_scope_bytes (l : LoginRequest) : bytes :=
  push (as_bytes (my_id l)) ++
  match union l with
  | Some (FileTransfer dir show_hidden clipboard_fast) =>
      push (as_bytes "file_transfer") ++ push (as_bytes dir) ++ push (bool_byte show_hidden)
      ++ push (bool_byte clipboard_fast)
  | Some ViewCamera => push (as_bytes "view_camera")
  | Some (Terminal service_id) => push (as_bytes "terminal") ++ push (as_bytes service_id)
  | Some (PortForward host port multiplex) =>
      push (as_bytes "port_forward") ++ push (as_bytes host) ++ push (to_le_bytes 4 (as_u32 port))
      ++ push (bool_byte multiplex)
  | None => push (as_bytes "remote")
  end.
Definition login_scope_digest (l : LoginRequest) : bytes := sha256 (login_scope_bytes l).

Definition check_login_scope (l : LoginRequest) : Conn bool :=
  let requested := login_scope_digest l in
  scope ← self login_scope;
  match scope with
  | Some initial =>
      if bool_decide (initial = requested) then mret true
      else send_login_error "Connection not allowed";; mret false
  | None => set (λ c, c <| login_scope := Some requested |>);; mret true
  end.

Definition handle_login_request_without_validation (l : LoginRequest) : Conn unit :=
  set (λ c, c <| lr := l |>
              <| options_in_login := match option_of l with Some o => Some o | None => options_in_login c end |>
              <| c_video_ack_required := video_ack_required l |>).

(** ** Trusted devices: server/connection/trusted_devices.rs *)

(** [LoginProof::from_login] takes the token out of the request. *)
Definition from_login : Conn LoginProof :=
  c ← self (λ c, c);
  let l := lr c in
  set (λ c, c <| lr := (lr c) <| trusted_device_v2_token := [] |> |>);;
  mret (mkProof (lr_password l) (hash_challenge c) (hash_salt c) (trusted_device_v2_token l)
    (legacy_verifier (hwid l) (mkInfo 0 None (my_id l) (my_name l) (my_platform l)))
    (trusted_device_v2_supported l)).

Definition begin_trusted_device : Conn bool :=
  c ← self (λ c, c);
  on ← bool_option_value "enable-trusted-devices";
  if negb (bool_decide (primary_auth c = PermanentPasswordAuth)) || negb (secured c)
     || negb (bool_decide (is_Some (require_2fa c))) || from_switch c || negb on
     || (negb (trusted_device_v2_supported (lr c)) && bool_decide (hwid (lr c) = []))
  then set (λ c, c <| lr := (lr c) <| trusted_device_v2_token := [] |> |>);; mret true
  else
    proof ← from_login;
    result ← trying (host_begin OVERWRITE_SETTINGS DEFAULT_SETTINGS HARD_SETTINGS (now E) proof);
    match result with
    | Ok (Some (attempt, valid, totp)) =>
        set (λ c, c <| trusted_device := attempt |> <| require_2fa := Some totp |>);;
        (if valid : bool then
           set (λ c, c <| require_2fa := None |>);; set_two_factor TrustedDeviceFactor
         else mret tt);;
        mret true
    | Ok None => mret true
    | Err e => send_login_error (why e);; mret false
    end.

Definition check_trusted_device : Conn bool :=
  c ← self (λ c, c);
  match trusted_device c with
  | None => mret true
  | Some attempt =>
      checked ← trying (check OVERWRITE_SETTINGS DEFAULT_SETTINGS HARD_SETTINGS (now E) attempt);
      match checked with
      | Ok _ => mret true
      | Err e =>
          if bool_decide (two_factor c = TotpFactor) && is_unavailable e then
            set (λ c, c <| trusted_device := Some (mkAttempt (ticket attempt) (credential attempt) false) |>);;
            mret true
          else
            set (λ c, c <| trusted_device := None |>);;
            send_login_error (why e);;
            on_close false;;
            mret false
      end
  end.

(** The fields for the response, if it is to be sent. *)
Definition enroll_trusted_device (has_peer_info : bool) : Conn (option (bool * bytes)) :=
  c ← self (λ c, c);
  set (λ c, c <| trusted_device := None |>);;
  match trusted_device c with
  | None => mret (Some (false, []))
  | Some attempt =>
      if negb has_peer_info || negb (bool_decide (primary_auth c = PermanentPasswordAuth))
      then mret (Some (false, []))
      else
        finished ← trying (finish OVERWRITE_SETTINGS DEFAULT_SETTINGS HARD_SETTINGS (now E) attempt
                             (mkInfo 0 None (my_id (lr c)) (my_name (lr c)) (my_platform (lr c))));
        match finished with
        | Ok token => mret (Some (trusted_device_v2_supported (lr c), token))
        | Err e =>
            if bool_decide (two_factor c = TotpFactor) && is_unavailable e then mret (Some (false, []))
            else
              send_login_error (why e);;
              on_close false;;
              mret None
        end
  end.

(** ** Authorisation *)
Definition normalize_conn_audit_auth_fields : Conn unit :=
  set (λ c, if bool_decide (primary_auth c = ClickAuth) || bool_decide (primary_auth c = SwitchSidesAuth)
            then c <| two_factor := NoFactor |> else c).

(** [Some keep] ends the login. *)
Definition prepare_terminal_login_for_authorization : Conn (option bool) :=
  c ← self (λ c, c);
  if negb (terminal c) || terminal_user_token c then mret None
  else
    set (λ c, c <| terminal_user_token := true |>);;
    match service_user E (terminal_service_id c) with
    | Some true =>
        send_login_error "Terminal service user mismatch detected.";;
        mret (Some false)
    | _ => mret None
    end.

Definition connect_port_forward_if_needed : Conn bool :=
  c ← self (λ c, c);
  if is_port_forward c then mret true
  else match union (lr c) with
       | Some (PortForward host port multiplex) =>
           if multiplex then
             set (λ c, c <| max_packet_length := PortForwardFlow.Flow.MAX_PACKET |> <| port_forward_mux := true |>);;
             mret true
           else
             let '(addr, is_rdp) := PortForwardMux.Mux.normalize_port_forward_target (PortForwardMux.Mux.mkPf host port) in
             set (λ c, c <| port_forward_address := addr |>);;
             if connect_target E then
               set (λ c, c <| port_forward_socket := true |>);;
               mret true
             else
               send_login_error ("Failed to access remote " +:+ (if is_rdp then "RDP" else addr)
                                 +:+ ". Please make sure it is reachable/open.");;
               mret false
       | _ => mret true
       end.

Definition conn_type_of (c : Connection) : AuthConnType :=
  if bool_decide (is_Some (file_transfer c)) then FileTransferConn
  else if is_port_forward c then PortForwardConn
  else if view_camera c then ViewCameraConn
  else if terminal c then TerminalConn
  else RemoteConn.

(** The response, and what an authorised session starts with. *)
Definition respond : Conn bool :=
  c ← self (λ c, c);
  if is_port_forward c then
    enrolled ← enroll_trusted_device true;
    match enrolled with
    | None => mret false
    | Some (v2, token) => send (LoginOkSent (port_forward_mux c) v2 token);; mret true
    end
  else if is_remote c && negb (is_empty (display_error E)) then
    send (LoginErrorSent (display_error E) false);;
    mret true
  else
    let shared := is_remote c in
    '(error, sub_service) ←
      (if bool_decide (is_Some (file_transfer c)) || terminal c then mret (None, false)
       else if view_camera c then emit EncoderUpdate;; mret (None, false)
       else
         (if inited_msg E then send InitedSent else mret tt);;
         '(error, sub_service) ←
           match displays_error E with
           | Some e => mret (Some e, false)
           | None => (if rdp_input E then emit SetupRdpInput else mret tt);; mret (None, true)
           end;
         emit EncoderUpdate;;
         remove ← bool_option_value "allow-remove-wallpaper";
         (if remove : bool then emit RemoveWallpaper else mret tt);;
         mret (error, sub_service));
    enrolled ← enroll_trusted_device (bool_decide (error = None));
    match enrolled with
    | None => mret false
    | Some (v2, token) =>
        send (match error with
              | Some e => LoginErrorSent e v2
              | None => LoginOkSent false v2 token
              end);;
        update_scoped_login_options E;;
        (if bool_decide (is_Some (file_transfer c)) then
           set (λ c, c <| keyboard := false |>);;
           fast ← self clipboard_fast;
           if fast : bool then mret tt else to_cm (CmFs "read_dir")
         else if terminal c then
           set (λ c, c <| keyboard := false |>);;
           token ← self terminal_user_token;
           if token : bool then
             set (λ c, c <| terminal_service_id :=
               if is_empty (terminal_service_id c) then new_service_id E else terminal_service_id c |>
               <| terminal_generic_service := true |>);;
             emit StartTerminalService
           else mret tt
         else if view_camera c then
           try_sub_camera_displays;;
           set (λ c, c <| keyboard := false |>);;
           send_permission "keyboard" false
         else if sub_service : bool then try_sub_monitor_services E
         else mret tt);;
        mret true
    end.

(** The part of [send_logon_response_and_keep_alive] that makes the connection an
    authorised one. *)
Definition authorize_connection : Conn unit :=
  set (λ c, c <| lr := (lr c) <| trusted_device_v2_token := [] |> |> <| authorized := true |>
              <| unauthorized_id := false |>);;
  on_host (update_temporary_password OVERWRITE_SETTINGS DEFAULT_SETTINGS);;
  clear_id_whitelist_failures;;
  c ← self (λ c, c);
  new_authed (id c) (conn_type_of c) (session_key c);;
  session ← get (λ w, SESSIONS w !! session_key c);
  set (λ c, c <| authed_conn_id := Some (conn_type_of c) |>
              <| session_last_recv_time := last_recv_time <$> session |>);;
  normalize_conn_audit_auth_fields.

Definition send_logon_response_and_keep_alive : Conn bool :=
  c ← self (λ c, c);
  if authorized c then mret true
  else
    wait ← (if bool_decide (is_Some (require_2fa c)) then
              recent ← is_recent_session true;
              mret (negb recent && negb (from_switch c))
            else mret false);
    if wait : bool then
      set (λ c, c <| awaiting_2fa := true |>);;
      send_login_error REQUIRE_2FA;;
      mret true
    else
      set (λ c, c <| awaiting_2fa := false |>);;
      trusted ← check_trusted_device;
      if negb trusted then mret false
      else
        prepared ← prepare_terminal_login_for_authorization;
        match prepared with
        | Some keep => mret keep
        | None =>
            set (λ c, c <| max_packet_length := usize_max |>);;
            connected ← connect_port_forward_if_needed;
            if negb connected then mret false
            else
              c ← self (λ c, c);
              conns ← get AUTHED_CONNS;
              if clipboard_fast c && (negb (has_remote_session (session_key c) conns)
                                      || has_clipboard_fast_session (session_key c) conns) then
                send_login_error "Connection not allowed";; mret false
              else
                trusted ← check_trusted_device;
                if negb trusted then mret false
                else authorize_connection;; respond
        end.

(** ** The messages of a login *)
Definition check_privacy_mode_on : Conn bool :=
  if in_privacy_mode E then send_login_error "Someone turns on privacy mode, exit";; mret false
  else mret true.

(** The kind of session a request asks for, if it is permitted. *)
Definition enter_scope (l : LoginRequest) : Conn bool :=
  let refuse msg := send_login_error msg;; mret false in
  match union l with
  | Some (FileTransfer dir show_hidden _) =>
      ok ← permitted "enable-file-transfer";
      if negb ok then refuse "No permission of file transfer"
      else
        set (λ c, c <| clipboard_fast := false |> <| file_transfer := Some (dir, show_hidden) |>);;
        mret true
  | Some ViewCamera =>
      ok ← permitted "enable-camera";
      if negb ok then refuse "No permission of viewing camera"
      else set (λ c, c <| view_camera := true |>);; mret true
  | Some (Terminal service_id) =>
      ok ← permitted "enable-terminal";
      if negb ok then refuse "No permission of terminal"
      else
        set (λ c, c <| terminal := true |>
          <| c_terminal_persistent :=
               match options_in_login c with
               | Some o => bool_decide (bool_option (terminal_persistent o) = Some Yes)
               | None => c_terminal_persistent c
               end |>
          <| terminal_service_id := service_id |>);;
        mret true
  | Some (PortForward host port _) =>
      ok ← permitted "enable-tunnel";
      if negb ok then refuse "No permission of IP tunneling"
      else
        set (λ c, c <| port_forward_address := (PortForwardMux.Mux.normalize_port_forward_target (PortForwardMux.Mux.mkPf host port)).1 |>);;
        mret true
  | None => check_privacy_mode_on
  end.

(** After the scope is entered: how the login goes on. *)
Definition authenticate (l : LoginRequest) : Conn bool :=
  try_start_cm_ipc;;
  mode ← get (λ w, approve_mode OVERWRITE_SETTINGS DEFAULT_SETTINGS (host w));
  let allow_logon_screen_password :=
    (get_builtin_option "allow-logon-screen-password" ==s "Y") && is_logon E in
  no_password ←
    match mode with
    | Click => mret (negb allow_logon_screen_password)
    | Both =>
        valid ← on_host (has_valid_password OVERWRITE_SETTINGS DEFAULT_SETTINGS HARD_SETTINGS);
        mret (negb valid)
    | Password => mret false
    end;
  if no_password : bool then
    try_start_cm false;;
    (if HostNames.get_version_number "1.2.0" <=? HostNames.get_version_number (version l)
     then send_login_error LOGIN_MSG_NO_PASSWORD_ACCESS else mret tt);;
    mret true
  else
    recent ← is_recent_session false;
    if recent : bool then
      keep ← send_logon_response_and_keep_alive;
      if negb keep then mret false
      else a ← self authorized; try_start_cm a;; mret true
    else if bool_decide (lr_password l = []) then
      try_start_cm false;;
      mret true
    else
      '(failure, res) ← check_failure 0;
      if negb res then mret true
      else
        valid ← validate_password allow_logon_screen_password;
        if negb valid then
          update_failure failure false 0;;
          check_update_temporary_password false;;
          send_login_error LOGIN_MSG_PASSWORD_WRONG;;
          try_start_cm false;;
          mret true
        else
          update_failure failure true 0;;
          begun ← begin_trusted_device;
          if negb begun then mret false
          else
            keep ← send_logon_response_and_keep_alive;
            if negb keep then mret false
            else a ← self authorized; try_start_cm a;; mret true.

(** [auth_2fa::get_2fa(None)] *)
Definition get_2fa : Conn (option TOTP) :=
  data ← option_value "2fa";
  totp ← trying (totp_from_str data);
  mret (match totp with Ok t => Some t | Err _ => None end).

Definition on_login_request (l : LoginRequest) : Conn bool :=
  scope ← check_login_scope l;
  if negb scope then mret false
  else
    set (λ c, c <| awaiting_2fa := false |> <| trusted_device := None |>);;
    a ← self authorized;
    (if negb a then totp ← get_2fa; set (λ c, c <| require_2fa := totp |>) else mret tt);;
    handle_login_request_without_validation l;;
    if a : bool then mret true
    else
      reset_session_scope_for_login;;
      listed ← check_id_whitelist;
      if negb listed then mret false
      else
        entered ← enter_scope l;
        if negb entered then mret false
        else
          set (λ c, c <| send_timeout :=
            if bool_decide (is_Some (file_transfer c)) || terminal c
               || match union (lr c) with Some (PortForward _ _ _) => true | _ => false end
            then SEND_TIMEOUT_OTHER else SEND_TIMEOUT_VIDEO |>);;
          id ← on_host (get_id HARD_SETTINGS mac_address hostname);
          if negb (HostNames.is_direct_ip_access unicode_digit folds_to_letter (username l))
             && negb (username l ==s id) then
            send_login_error LOGIN_MSG_OFFLINE;; mret false
          else authenticate l.

Definition on_auth_2fa (code : string) (trust_this_device : bool) : Conn bool :=
  waiting ← self awaiting_2fa;
  if negb waiting then mret true
  else
    '(failure, res) ← check_failure 1;
    if negb res then mret true
    else
      totp ← self require_2fa;
      match totp ≫= λ t, check_current t code (now E) with
      | Some true =>
          update_failure failure true 1;;
          set (λ c, c <| require_2fa := None |>);;
          set_two_factor TotpFactor;;
          set (λ c, c <| trusted_device :=
            (λ a, mkAttempt (ticket a) (credential a) trust_this_device) <$> trusted_device c |>);;
          key ← self session_key;
          set_session_2fa E key;;
          keep ← send_logon_response_and_keep_alive;
          if negb keep then mret false
          else a ← self authorized; try_start_cm a;; mret true
      | Some false =>
          update_failure failure false 1;;
          send_login_error LOGIN_MSG_2FA_WRONG;;
          mret true
      | None => mret true
      end.

Definition on_switch_sides_response (uuid : bytes) (request : option LoginRequest) : Conn bool :=
  match request with
  | None => mret true
  | Some l =>
      change_world (λ w, w <| SWITCH_SIDES_UUID :=
        filter (λ '(_, v), instant E - v.1 < SWITCH_SIDES_UUID_TTL) (SWITCH_SIDES_UUID w) |>);;
      uuid_old ← get (λ w, SWITCH_SIDES_UUID w !! my_id l);
      change_world (λ w, w <| SWITCH_SIDES_UUID := delete (my_id l) (SWITCH_SIDES_UUID w) |>);;
      match uuid_old with
      | Some (_, old) =>
          if negb (len uuid =? 16) || negb (bool_decide (uuid = old)) then mret true
          else if bool_decide (is_Some (union l)) then
            send_login_error "Connection not allowed";;
            mret false
          else
            reset_session_scope_for_login;;
            handle_login_request_without_validation l;;
            listed ← check_id_whitelist;
            if negb listed then mret false
            else
              set (λ c, c <| from_switch := true |> <| trusted_device := None |>);;
              set_primary SwitchSidesAuth;;
              keep ← send_logon_response_and_keep_alive;
              if negb keep then mret false
              else
                a ← self authorized;
                try_start_cm a;;
                try_start_cm_ipc;;
                mret true
      | None => mret true
      end
  end.

(** [Data::Authorize]: the user accepts the connection.  The loop ends when this is
    false, or when a port is forwarded on the connection itself. *)
Definition on_authorize : Conn bool :=
  set_primary ClickAuth;;
  set (λ c, c <| trusted_device := None |> <| require_2fa := None |>);;
  keep ← send_logon_response_and_keep_alive;
  if negb keep then mret false
  else socket ← self port_forward_socket; mret (negb socket).

End Model.
End Login.
