(* ===== verification/Dispatch.v ===== *)
(** * The messages of a connection

    [on_message] of client/src/server/connection.rs and the messages of the connection
    manager that its loop handles, on the [World] of Session.v.  Of an authorised
    session's message the model says which effect it has and under which condition; the
    contents of input events, files and frames pass through it unread. *)
From S2P Require Import Prelude RustStd RecordUpdate Secrets ConfigStore Config2Store TrustedDevices.
From S2P Require Import SessionScope LoginGuard HostNames Session Login.
From Stdlib Require Import Ascii.

Module Dispatch.
Export Login.

Definition MAX_UNAUTHORIZED_MESSAGE : Z := 128 * 1024.

Section Model.
Context `{!Crypto, !Entropy, !Json, !TotpLib, !Tokens, !Site}.
Variable E : Env.

(** ** Sides that are being switched *)
Definition retain_pending (w : World) : World :=
  w <| PENDING_SWITCH_SIDES_UUID :=
    filter (λ '(_, v), instant E - v.1.1 < SWITCH_SIDES_UUID_TTL) (PENDING_SWITCH_SIDES_UUID w) |>.

Definition insert_pending_switch_sides_uuid (i : string) (uuid : bytes) : Conn bool :=
  change_world retain_pending;;
  stored ← get (λ w, PENDING_SWITCH_SIDES_UUID w !! i);
  if bool_decide ((λ v, v.1.2) <$> stored = Some uuid) then mret false
  else
    change_world (λ w, w <| PENDING_SWITCH_SIDES_UUID :=
      <[i := (instant E, uuid, false)]> (PENDING_SWITCH_SIDES_UUID w) |>);;
    mret true.

Definition insert_switch_sides_uuid (i : string) (uuid : bytes) : Conn unit :=
  change_world (λ w, w <| SWITCH_SIDES_UUID := <[i := (instant E, uuid)]> (SWITCH_SIDES_UUID w) |>).

Definition has_pending_switch_sides_uuid (i : string) (uuid : bytes) : Conn bool :=
  change_world retain_pending;;
  stored ← get (λ w, PENDING_SWITCH_SIDES_UUID w !! i);
  mret (match stored with
        | Some (_, u, claimed) => bool_decide (u = uuid) && negb claimed
        | None => false
        end).

Definition claim_pending_switch_sides_uuid (i : string) (uuid : bytes) : Conn bool :=
  change_world retain_pending;;
  stored ← get (λ w, PENDING_SWITCH_SIDES_UUID w !! i);
  match stored with
  | Some (t, u, claimed) =>
      if bool_decide (u = uuid) && negb claimed then
        change_world (λ w, w <| PENDING_SWITCH_SIDES_UUID :=
          <[i := (t, u, true)]> (PENDING_SWITCH_SIDES_UUID w) |>);;
        mret true
      else mret false
  | None => mret false
  end.

(** ** Authorised messages *)
Definition handle_authorized_scope_violation (message : string) : Conn bool :=
  set (λ c, c <| scope_violation_messages :=
    if bool_decide (message ∈ scope_violation_messages c) then scope_violation_messages c
    else message :: scope_violation_messages c |>);;
  close ← bool_option_value "allow-scope-violation-close";
  if close : bool then
    send_close_reason_no_retry "Connection not allowed";;
    on_close true;;
    mret false
  else mret true.

Definition change_resolution : Conn unit :=
  c ← self (λ c, c);
  if keyboard c && resolution_known E then emit ChangeResolutionTo else mret tt.

Definition handle_terminal_action : Conn unit :=
  c ← self (λ c, c);
  if negb (terminal_user_token c) then mret tt
  else
    emit TerminalDo;;
    if terminal_answers E then send TerminalResponseSent else mret tt.

Definition is_one_way_job (a : FileAction) : option Z :=
  match a with
  | SendFile i _ _ | RemoveFile i | Rename i | CreateDir i | RemoveDir i => Some i
  | _ => None
  end.

Definition on_file_action (a : option FileAction) : Conn unit :=
  c ← self (λ c, c);
  let handle_fa := bool_decide (is_Some (file_transfer c))
                   || match a with Some (SendFile _ true _) => true | _ => false end in
  if negb handle_fa then mret tt
  else
    match a with
    | None => mret tt
    | Some a =>
        match (if get_builtin_option "one-way-file-transfer" ==s "Y" then is_one_way_job a else None) with
        | Some job => send (FileErrorSent job)
        | None =>
            match a with
            | ReadEmptyDirs => to_cm (CmFs "read_empty_dirs")
            | ReadDir => to_cm (CmFs "read_dir")
            | AllFiles _ => emit (ReadFiles "all_files")
            | SendFile _ false _ =>
                emit (ReadFiles "read_job");;
                set (λ c, c <| file_transferred := true |>)
            | SendFile _ true _ => mret tt  (* [printer_data] is empty on this system *)
            | Receive _ =>
                to_cm (CmFs "new_write");;
                set (λ c, c <| file_transferred := true |>)
            | RemoveDir _ => to_cm (CmFs "remove_dir")
            | RemoveFile _ => to_cm (CmFs "remove_file")
            | CreateDir _ => to_cm (CmFs "create_dir");; to_cm (CmFileLog "create_dir")
            | Cancel i =>
                to_cm (CmFs "cancel_write");;
                to_cm (CmFs "cancel_read");;
                if has_read_job E i then emit (ReadFiles "cancel");; to_cm (CmFileLog "transfer") else mret tt
            | SendConfirm i =>
                if has_read_job E i then emit (ReadFiles "confirm") else to_cm (CmFs "send_confirm")
            | Rename _ => to_cm (CmFs "rename");; to_cm (CmFileLog "rename")
            end
        end
    end.

Definition on_file_response (r : option FileResponseUnion) : Conn unit :=
  match r with
  | Some Block => to_cm (CmFs "write_block")
  | Some Done => to_cm (CmFs "write_done")
  | Some Digest => to_cm (CmFs "check_digest")
  | Some ErrorResponse => to_cm (CmFs "write_error")
  | _ => mret tt
  end.

(** Whether the connection is kept. *)
Definition on_misc (m : option Misc) : Conn bool :=
  let go (x : Conn unit) := x;; mret true in
  c ← self (λ c, c);
  match m with
  | Some SwitchDisplay => go (emit SwitchDisplays)
  | Some CaptureDisplays => go (emit SwitchDisplays)
  | Some (TogglePrivacyMode on) => go (if view_camera c then mret tt else toggle_privacy_mode E on)
  | Some ChatMessage =>
      go (to_cm CmChat;;
          set (λ c, c <| chat_unanswered := true |>);;
          update_auto_disconnect_timer E)
  | Some (OptionMisc o) =>
      go (if bool_decide (authed_conn_id c = Some RemoteConn) then update_options E o
          else when (scoped_update_option_message (authed_conn_id c) o) (update_options E))
  | Some (RefreshVideo r) =>
      go (if should_handle_render_broadcast_message c then
            (if r then emit RefreshVideoFor else mret tt);;
            update_auto_disconnect_timer E
          else mret tt)
  | Some (RefreshVideoDisplay _) =>
      go (if should_handle_render_broadcast_message c then
            emit RefreshVideoFor;;
            update_auto_disconnect_timer E
          else mret tt)
  | Some VideoReceived => go (emit FrameFetched)
  | Some RestartRemoteDevice => go (if restart c then emit Reboot else mret tt)
  | Some AudioFormat =>
      go (if negb (c_disable_audio c) then
            set (λ c, c <| audio_sender := true |>);;
            emit StartAudio
          else mret tt)
  | Some (SwitchSidesRequest uuid) =>
      if len uuid =? 16 then
        inserted ← insert_pending_switch_sides_uuid (my_id (lr c)) uuid;
        (if inserted : bool then emit RunConnect else mret tt);;
        on_close false;;
        mret false
      else mret true
  | Some (ChangeResolution | ChangeDisplayResolution) =>
      go (if view_camera c then mret tt else change_resolution)
  | Some (AutoAdjustFps fps) => go (emit (QosAutoAdjustFps fps))
  | Some (ClientRecordStatus status) => go (emit (QosRecord status))
  | Some MessageQuery => go (if display_msg E then send DisplayChangedSent else mret tt)
  | Some (RequestCursorData i) =>
      go (if is_remote c && (peer_keyboard_enabled c || c_show_remote_cursor c) && cursor_known E i
          then send CursorDataSent else mret tt)
  | _ => mret true
  end.

Definition on_authorized_message (msg : Message) : Conn bool :=
  let go (x : Conn unit) := x;; mret true in
  c ← self (λ c, c);
  match msg with
  | Some MouseEvent =>
      go (if is_authed_view_camera_conn c then mret tt
          else
            (if peer_keyboard_enabled c then emit (InputMouse true (c_show_my_cursor c))
             else if c_show_my_cursor c then emit (InputMouse false true)
             else mret tt);;
            update_auto_disconnect_timer E)
  | Some PointerDeviceEvent =>
      go (if is_authed_view_camera_conn c then mret tt
          else
            (if peer_keyboard_enabled c then emit InputPointer else mret tt);;
            update_auto_disconnect_timer E)
  | Some KeyEvent =>
      go (if is_authed_view_camera_conn c then mret tt
          else
            (if peer_keyboard_enabled c then emit InputKey else mret tt);;
            update_auto_disconnect_timer E)
  | Some (Clipboard | MultiClipboards) =>
      go (if should_handle_text_clipboard_message c && clipboard_enabled c then emit SetClipboard else mret tt)
  | Some (FileActionMsg a) => go (on_file_action a)
  | Some (FileResponse r) => go (on_file_response r)
  | Some (MiscMsg m) => on_misc m
  | Some AudioFrame =>
      go (if negb (c_disable_audio c) && audio_sender c then emit PlayAudio else mret tt)
  | Some (VoiceCallRequest connect) =>
      go (if connect then
            set (λ c, c <| voice_call_request_timestamp := true |>);;
            to_cm CmVoiceCallIncoming
          else close_voice_call)
  | Some ScreenshotRequest => go (emit TakeScreenshot;; emit RefreshVideoFor)
  | Some PortForwardChannel => go (if port_forward_mux c then emit ForwardChannel else mret tt)
  | Some TerminalAction => go handle_terminal_action
  | _ => mret true
  end.

(** ** Any message *)
Definition on_test_delay (from_client : bool) : Conn unit :=
  if from_client then send TestDelaySent
  else
    last ← self last_test_delay;
    match last with
    | Some tm =>
        let new_delay := as_u32 (instant E - tm) in
        set (λ c, c <| last_test_delay := None |> <| network_delay := new_delay |>);;
        emit (QosDelay new_delay)
    | None => mret tt
    end.

(** [on_message]: whether the connection is kept. *)
Definition on_message (msg : Message) : Conn bool :=
  match msg with
  | Some (MiscMsg (Some (CloseReason _))) =>
      on_close true;;
      key ← self session_key;
      check_remove_session key;;
      mret false
  | _ =>
      c ← self (λ c, c);
      let violation := if authorized c then authorized_scope_violation (authed_conn_id c) msg (clipboard_fast c)
                       else None in
      if authorized c && match msg with Some (LoginRequestMsg _) => true | _ => false end then mret true
      else
        match violation with
        | Some message => handle_authorized_scope_violation message
        | None =>
            match msg with
            | Some (LoginRequestMsg l) => on_login_request E l
            | Some (Auth2fa code trust) => on_auth_2fa E code trust
            | Some (TestDelay from_client) => on_test_delay from_client;; mret true
            | Some (SwitchSidesResponse uuid l) => on_switch_sides_response E uuid l
            | _ =>
                if authorized c then
                  if port_forward_socket c then mret true else on_authorized_message msg
                else mret true
            end
        end
  end.

(** A message arrived: the loop notes the time before it is handled. *)
Definition on_receive (msg : Message) : Conn bool :=
  t ← self session_last_recv_time;
  when t (λ t, change_world (λ w, w <| times := <[t := instant E]> (times w) |>));;
  on_message msg.

(** ** The connection manager *)
Inductive CmMessage : Type :=
| Authorize
| CloseRequest
| CmWindowClosed
| CmErr (expected : bool)
| ChatToPeer
| SwitchPermission (name : string) (enabled : bool)
| PrivacyModeState (state : string)
| SwitchSidesBack
| VoiceCallAnswer (accepted : bool)
| CloseVoiceCall.
#[export] Instance cm_message_eq_dec : EqDecision CmMessage.
Proof. solve_decision. Defined.

Definition switch_permission (name : string) (enabled : bool) : Conn unit :=
  if name ==s "keyboard" then
    set (λ c, c <| keyboard := enabled |>);;
    send_permission "keyboard" enabled;;
    subscribe_clipboard;;
    c ← self (λ c, c);
    emit (Subscribe CursorService (enabled || c_show_remote_cursor c))
  else if name ==s "clipboard" then
    set (λ c, c <| clipboard := enabled |>);;
    send_permission "clipboard" enabled;;
    subscribe_clipboard
  else if name ==s "audio" then
    set (λ c, c <| audio := enabled |>);;
    send_permission "audio" enabled;;
    a ← self authorized;
    if a : bool then subscribe_audio else mret tt
  else if name ==s "file" then
    set (λ c, c <| file_perm := enabled |>);;
    send_permission "file" enabled
  else if name ==s "restart" then
    set (λ c, c <| restart := enabled |>);;
    send_permission "restart" enabled
  else if name ==s "recording" then
    set (λ c, c <| recording := enabled |>);;
    send_permission "recording" enabled
  else if name ==s "block_input" then
    set (λ c, c <| c_block_input := enabled |>);;
    send_permission "block_input" enabled
  else if name ==s "privacy_mode" then
    c ← self (λ c, c);
    off ← (if negb enabled && in_privacy_mode E && bool_decide (privacy_conn_id E = Some (id c)) then
             emit PrivacyOff;;
             if privacy_off_succeeds E then send (PrivacyModeSent "PrvOffByPeer");; mret true
             else
               send (PrivacyModeSent "PrvOffFailed");;
               to_cm (CmSwitchPermission "privacy_mode" (c_privacy_mode c));;
               mret false
           else mret true);
    if off : bool then
      set (λ c, c <| c_privacy_mode := enabled |>);;
      send_permission "privacy_mode" enabled
    else mret tt
  else mret tt.

Definition on_cm (m : CmMessage) : Conn bool :=
  let go (x : Conn unit) := x;; mret true in
  let seen := set (λ c, c <| chat_unanswered := false |> <| file_transferred := false |>) in
  match m with
  | Authorize => on_authorize E
  | CloseRequest => seen;; send_close_reason_no_retry "";; on_close true;; mret false
  | CmWindowClosed => seen;; on_close true;; mret false
  | CmErr expected => if expected then mret true else on_close false;; mret false
  | ChatToPeer => go (send ChatSent;; set (λ c, c <| chat_unanswered := false |>))
  | SwitchPermission name enabled => go (switch_permission name enabled)
  | PrivacyModeState state => go (send (PrivacyModeSent state))
  | SwitchSidesBack => go (send SwitchBackSent)
  | VoiceCallAnswer accepted => go (handle_voice_call accepted)
  | CloseVoiceCall => go (close_voice_call;; send (VoiceCallSent false))
  end.

(** ** A connection opens *)
Definition check_whitelist : Conn bool :=
  option ← option_value "whitelist";
  c ← self (λ c, c);
  let whitelist := filter (λ x, is_empty x = false) (split "," option) in
  if negb (bool_decide (whitelist = [])) && negb (bool_decide ("0.0.0.0" ∈ whitelist))
     && negb (existsb (λ x, cidr_contains x (ip c)) whitelist)
  then send_login_error "Your ip is blocked by the peer";; mret false
  else mret true.

Definition on_open : Conn bool :=
  listed ← check_whitelist;
  if negb listed then mret false
  else
    only ← option_value "allow-only-conn-window-open";
    if (only ==s "Y") && negb (main_window_open E) then
      send_login_error "The main window is not open";; mret false
    else
      c ← self (λ c, c);
      send (HashSent (hash_salt c) (hash_challenge c));;
      mret true.

(** The connection as [start] builds it. *)
Definition new_connection (i : Z) (peer_ip : string) (secure : bool) (control : option Z) : Conn unit :=
  salt ← on_host (get_effective_permanent_password_salt HARD_SETTINGS);
  challenge ← on_host (get_auto_password 6);
  totp ← get_2fa;
  may ← get (λ w k, permission (λ k, get_option OVERWRITE_SETTINGS DEFAULT_SETTINGS k (host w)) k control);
  set (λ _, mkConn i peer_ip secure salt challenge None false false false false false "" false true
    totp false None (may "enable-keyboard") (may "enable-clipboard") (may "enable-audio")
    (may "enable-file-transfer") (may "enable-remote-restart") (may "enable-record-session")
    (may "enable-block-input") (may "enable-privacy-mode") control None 0 false false
    false false false false false false default_login None None false false false false false None
    false true None None false false false NoAuth NoFactor "" false [] false false
    SEND_TIMEOUT_VIDEO MAX_UNAUTHORIZED_MESSAGE).

(** [start] up to its loop; whether the loop is entered. *)
Definition start (i : Z) (peer_ip : string) (secure : bool) (control : option Z) : Conn bool :=
  new_connection i peer_ip secure control;;
  opened ← on_open;
  if negb opened then set (λ c, c <| closed := true |>);; mret false
  else
    c ← self (λ c, c);
    let deny name on := if on : bool then mret tt else send_permission name false in
    deny "keyboard" (keyboard c);;
    deny "clipboard" (clipboard c);;
    deny "audio" (audio c);;
    deny "file" (file_perm c);;
    deny "restart" (restart c);;
    deny "recording" (recording c);;
    deny "block_input" (c_block_input c);;
    deny "privacy_mode" (c_privacy_mode c);;
    mret true.

End Model.
End Dispatch.
