(* ===== verification/LoginFrames.v ===== *)
(** * What the code of a login leaves alone

    Rules for code of a connection that moves the [World] only along a preorder, and
    the three preorders the proofs use: [steady] for the host (the secrets a login is
    checked against, and the identity of the machine that opens them), [calm] for the
    steps of a login before a password is checked, and [same_core] for everything that
    does not decide whether the connection is authorised. *)
From S2P Require Import Prelude RustStd RecordUpdate Secrets ConfigStore Config2Store TrustedDevices.
From S2P Require Import SessionScope LoginGuard HostNames Session Login Dispatch.
From Stdlib Require Import Ascii.

Module LoginFrames.
Export Dispatch.

(** ** The host *)
Section Host.
Context `{!Crypto, !Entropy, !Json, !TotpLib, !Tokens}.

(** The secrets are the same, and what identifies the machine was at most cached. *)
Record steady (h h' : Host) : Prop := {
  steady_password : password (CONFIG h') = password (CONFIG h);
  steady_salt : salt (CONFIG h') = salt (CONFIG h);
  steady_temporary : TEMPORARY_PASSWORD h' = TEMPORARY_PASSWORD h;
  steady_config2 : CONFIG2 h' = CONFIG2 h;
  steady_machine : machine_uid h' = machine_uid h;
  steady_uid : CACHED_MACHINE_UID h' = CACHED_MACHINE_UID h
    ∨ (CACHED_MACHINE_UID h = None ∧ CACHED_MACHINE_UID h' = machine_uid h);
  steady_pair : KEY_PAIR h' = KEY_PAIR h ∨ KEY_PAIR h = None;
}.
#[export] Instance steady_preorder : PreOrder steady.
Proof.
  split; [by constructor; auto|].
  intros h1 h2 h3 [A1 A2 A3 A4 A5 A6 A7] [B1 B2 B3 B4 B5 B6 B7].
  constructor; [congruence..| |].
  - destruct A6 as [A6|[A6 A6']], B6 as [B6|[B6 B6']]; [left|right|right|right]; split_and?; congruence.
  - destruct A7 as [A7|A7], B7 as [B7|B7]; [left; congruence|right; congruence|by right|by right].
Qed.

Definition stays {A} (m : HostM A) : Prop := ∀ h, steady h (m h).2.

Lemma stays_ret {A} (a : A) : stays (mret a).
Proof. intros h. cbn. reflexivity. Qed.
Lemma stays_gets {A} (f : Host → A) : stays (gets f).
Proof. intros h. cbn. reflexivity. Qed.
Lemma stays_draw {A} (f : nat → A) : stays (draw f).
Proof. intros h. by constructor; auto. Qed.
Lemma stays_bind {A B} (m : HostM A) (k : A → HostM B) :
  stays m → (∀ a, stays (k a)) → stays (m ≫= k).
Proof.
  intros Hm Hk h. unfold mbind, host_bind. specialize (Hm h). destruct (m h) as [a h1]. cbn in *.
  etrans; [exact Hm|apply Hk].
Qed.
Lemma stays_modify f : (∀ h, steady h (f h)) → stays (modify f).
Proof. intros Hf h. apply Hf. Qed.

Ltac stays_step :=
  match goal with
  | |- stays (mret _) => apply stays_ret
  | |- stays (gets _) => apply stays_gets
  | |- stays (draw _) => apply stays_draw
  | |- stays (modify _) => apply stays_modify; intros ?; by constructor; auto
  | |- stays (_ ≫= _) => apply stays_bind; [|intros ?]
  | |- stays (match ?x with _ => _ end) => destruct x
  end.
Create HintDb stays discriminated.
#[local] Hint Constants Opaque : stays.
Ltac stays := repeat (stays_step || solve [auto 2 with stays nocore]).

Lemma stays_get_key_pair : stays get_key_pair.
Proof.
  intros h. unfold get_key_pair, gets, mbind, host_bind. destruct (KEY_PAIR h) eqn:Hk; [reflexivity|].
  cbn. case_bool_decide; cbn; [destruct (gen_keypair _); cbn|]; (constructor; cbn; auto).
Qed.
Lemma stays_get_existing_key_pair : stays get_existing_key_pair.
Proof.
  intros h. unfold get_existing_key_pair, gets, mbind, host_bind. destruct (KEY_PAIR h) eqn:Hk; [reflexivity|].
  cbn. case_bool_decide; cbn; [reflexivity|constructor; cbn; auto].
Qed.
Lemma stays_get_uuid : stays get_uuid.
Proof.
  intros h. unfold get_uuid, gets, mbind, host_bind.
  destruct (CACHED_MACHINE_UID h) eqn:Hc; [reflexivity|]. cbn.
  destruct (machine_uid h) as [u|] eqn:Hm; cbn; [constructor; cbn; auto|].
  pose proof (stays_get_key_pair h) as Hs. by destruct (get_key_pair h).
Qed.
#[local] Hint Resolve stays_get_uuid stays_get_existing_key_pair : stays.

Lemma stays_crypt data b : stays (symmetric_crypt data b).
Proof. unfold symmetric_crypt. stays. Qed.
#[local] Hint Resolve stays_crypt : stays.
Lemma stays_decrypt_str s v : stays (decrypt_str_or_original s v).
Proof. unfold decrypt_str_or_original, decrypt. stays. Qed.
Lemma stays_decrypt_vec s v : stays (decrypt_vec_or_original s v).
Proof. unfold decrypt_vec_or_original, decrypt. stays. Qed.
Lemma stays_decode_h1 storage : stays (decode_permanent_password_h1_from_storage storage).
Proof.
  unfold decode_permanent_password_h1_from_storage, decrypt_permanent_password_str_or_original. stays.
Qed.
#[local] Hint Resolve stays_decrypt_str stays_decrypt_vec stays_decode_h1 : stays.
Lemma stays_usable storage s : stays (local_permanent_password_storage_is_usable_for_auth storage s).
Proof.
  unfold local_permanent_password_storage_is_usable_for_auth, decrypt_permanent_password_str_or_original.
  stays.
Qed.
#[local] Hint Resolve stays_usable : stays.

Lemma stays_store c : stays (store c).
Proof.
  unfold store, prepare_config_for_store, validate_or_decrypt_permanent_password_storage,
    decrypt_permanent_password_str_or_original, seal_password, seal_id, load_, store_,
    keep_encrypted_storage_if_plaintext_unchanged, encrypt_str_or_original, encrypt, encode_permanent_password_encrypted_storage_from_h1,
    encrypt_permanent_password_storage.
  stays. apply stays_modify. intros h. destruct (can_write h); [constructor; cbn; auto|reflexivity].
Qed.
#[local] Hint Resolve stays_store : stays.
Lemma stays_get_id hard mac host : stays (get_id hard mac host).
Proof. unfold get_id, set_id, update_config. stays. Qed.
Lemma stays_has_valid_password o d hard : stays (has_valid_password o d hard).
Proof. unfold has_valid_password, has_permanent_password. stays. Qed.

Lemma stays_totp_from_str data h : steady h (totp_from_str data h).2.
Proof.
  unfold totp_from_str, of_option. unfold mbind, td_bind.
  destruct (totp_from_json data) as [i|]; cbn; [|reflexivity].
  unfold lift. pose proof (stays_decrypt_vec (totp_secret i) "00" h) as Hs.
  destruct (decrypt_vec_or_original _ _ h) as [[[secret success] again] h1]. cbn in *.
  destruct success; cbn; [|done]. by destruct (totp_new _ _ _).
Qed.

End Host.

(** ** Connections *)
Section Conn.
Context `{!TotpLib}.

Definition leaves (R : World → World → Prop) {A} (m : Conn A) : Prop := ∀ w, R w (m w).2.

Section Rules.
Context (R : World → World → Prop) `{!PreOrder R}.

Lemma leaves_ret {A} (a : A) : leaves R (mret a).
Proof. intros w. cbn. reflexivity. Qed.
Lemma leaves_get {A} (f : World → A) : leaves R (get f).
Proof. intros w. cbn. reflexivity. Qed.
Lemma leaves_self {A} (f : Connection → A) : leaves R (self f).
Proof. intros w. cbn. reflexivity. Qed.
Lemma leaves_bind {A B} (m : Conn A) (k : A → Conn B) :
  leaves R m → (∀ a, leaves R (k a)) → leaves R (m ≫= k).
Proof.
  intros Hm Hk w. unfold mbind, conn_bind. specialize (Hm w). destruct (m w) as [a w1]. cbn in *.
  etrans; [exact Hm|apply Hk].
Qed.
Lemma leaves_change f : (∀ w, R w (f w)) → leaves R (change_world f).
Proof. intros Hf w. apply Hf. Qed.
Lemma leaves_set f : (∀ w, R w (w <| conn := f (conn w) |>)) → leaves R (set f).
Proof. intros Hf w. apply Hf. Qed.
Lemma leaves_emit e : (∀ w, R w (w <| effects := effects w ++ [e] |>)) → leaves R (emit e).
Proof. intros Hf w. apply Hf. Qed.
Lemma leaves_on_host {A} (m : HostM A) :
  (∀ w, R w (w <| host := (m (host w)).2 |>)) → leaves R (on_host m).
Proof. intros Hm w. specialize (Hm w). unfold on_host. by destruct (m (host w)). Qed.
Lemma leaves_trying {A} (m : TD A) :
  (∀ w, R w (w <| host := (m (host w)).2 |>)) → leaves R (trying m).
Proof. intros Hm w. specialize (Hm w). unfold trying. by destruct (m (host w)). Qed.
End Rules.

(** What says whether the connection is authorised, and the challenge it was given. *)
Definition core (c : Connection) : bool * bool * bool * string * string * option nat :=
  (authorized c, awaiting_2fa c, from_switch c, hash_salt c, hash_challenge c, session_last_recv_time c).
Definition same_core (w w' : World) : Prop := core (conn w') = core (conn w).
#[export] Instance same_core_preorder : PreOrder same_core.
Proof. split; [by intros w|]. unfold same_core. intros ??? ??. congruence. Qed.

(** A step of a login that neither checks a password nor decides anything. *)
Record calm (w w' : World) : Prop := {
  calm_core : core (conn w') = core (conn w);
  calm_lr : lr (conn w') = lr (conn w);
  calm_2fa : require_2fa (conn w') = require_2fa (conn w);
  calm_sessions : SESSIONS w' ⊆ SESSIONS w;
  calm_times : times w' = times w;
  calm_host : steady (host w) (host w');
}.
#[export] Instance calm_preorder : PreOrder calm.
Proof.
  split; [by constructor|]. intros w1 w2 w3 [] []. constructor; [congruence..|by etrans|congruence|by etrans].
Qed.

(** ** What a run ends in *)
Definition wp {A} (m : Conn A) (Q : A → World → Prop) (w : World) : Prop := Q (m w).1 (m w).2.

Lemma wp_bind {A B} (m : Conn A) (k : A → Conn B) Q w :
  wp m (λ a w', wp (k a) Q w') w → wp (m ≫= k) Q w.
Proof. unfold wp, mbind, conn_bind. by destruct (m w). Qed.
Lemma wp_ret {A} (a : A) (Q : A → World → Prop) w : Q a w → wp (mret a) Q w.
Proof. done. Qed.
(** One step that is known. *)
Lemma wp_step {A B} (m : Conn A) (k : A → Conn B) Q w : wp (k (m w).1) Q (m w).2 → wp (m ≫= k) Q w.
Proof. intros Hk. by apply wp_bind. Qed.
Lemma wp_leaves {A} (R : World → World → Prop) (m : Conn A) (Q : A → World → Prop) w :
  leaves R m → (∀ a w', R w w' → Q a w') → wp m Q w.
Proof. intros Hm HQ. apply HQ, Hm. Qed.
Lemma wp_mono {A} (m : Conn A) (P Q : A → World → Prop) w :
  wp m P w → (∀ a w', P a w' → Q a w') → wp m Q w.
Proof. intros Hm HPQ. by apply HPQ. Qed.
Lemma wp_if {A} (b : bool) (m n : Conn A) Q w :
  (b = true → wp m Q w) → (b = false → wp n Q w) → wp (if b then m else n) Q w.
Proof. destruct b; auto. Qed.
End Conn.

(** How a case of the code is taken; a file that needs the equation redefines it. *)
Ltac leaves_cases x := destruct x.

(** Code by its structure; the leaves are left to the preorder's own tactic, and what
    [whole] knows is not taken apart. *)
Ltac leaves_using whole leaf :=
  repeat match goal with
  | |- leaves _ _ => solve [whole]
  | |- leaves _ (mret _) => apply leaves_ret; exact _
  | |- leaves _ (get _) => apply leaves_get; exact _
  | |- leaves _ (self _) => apply leaves_self; exact _
  | |- leaves _ (_ ≫= _) => apply leaves_bind; [exact _| |intros ?]
  | |- leaves _ (match ?x with _ => _ end) => leaves_cases x
  | |- leaves _ (send _) => unfold send
  | |- leaves _ (to_cm _) => unfold to_cm
  | |- leaves _ (when ?o _) => unfold when
  | |- leaves _ (let _ := _ in _) => cbv zeta
  | _ => progress cbv beta
  | _ => solve [leaf]
  end.
Ltac leaves_with leaf := leaves_using fail leaf.

Create HintDb calm discriminated.
#[export] Hint Constants Opaque : calm.
Create HintDb same_core discriminated.
#[export] Hint Constants Opaque : same_core.

Ltac calm_leaf :=
  first [solve [auto 2 with calm nocore]
        |apply leaves_emit; intros ?; by constructor
        |apply leaves_set; intros ?; by constructor
        |apply leaves_change; intros ?; by constructor].
Ltac calm := leaves_with calm_leaf.
Ltac core_leaf :=
  first [solve [auto 2 with same_core nocore]
        |apply leaves_emit; intros ?; reflexivity
        |apply leaves_set; intros ?; reflexivity
        |apply leaves_change; intros ?; reflexivity
        |apply leaves_on_host; intros ?; reflexivity
        |apply leaves_trying; intros ?; reflexivity].
Ltac same_core := leaves_with core_leaf.

Section Model.
Context `{!Crypto, !Entropy, !Json, !TotpLib, !Tokens, !Site}.
Variable E : Env.

(** *** Steps of a login that are calm *)
Lemma calm_send_login_error e : leaves calm (send_login_error e).
Proof. unfold send_login_error. calm. Qed.
#[local] Hint Resolve calm_send_login_error : calm.
Lemma calm_try_start_cm b : leaves calm (try_start_cm b).
Proof. unfold try_start_cm. calm. Qed.
Lemma calm_try_start_cm_ipc : leaves calm try_start_cm_ipc.
Proof. unfold try_start_cm_ipc. calm. Qed.
Lemma calm_check_login_scope l : leaves calm (check_login_scope l).
Proof. unfold check_login_scope. calm. Qed.
Lemma calm_get_2fa : leaves calm get_2fa.
Proof.
  unfold get_2fa, option_value. calm. apply leaves_trying. intros w. constructor; [done..|].
  apply stays_totp_from_str.
Qed.
Lemma calm_reset_scope : leaves calm reset_session_scope_for_login.
Proof. unfold reset_session_scope_for_login. calm. Qed.
Lemma calm_check_failure i : leaves calm (check_failure E i).
Proof. unfold check_failure. calm. Qed.
#[local] Hint Resolve calm_check_failure : calm.
Lemma calm_update_failure f r i : leaves calm (update_failure f r i).
Proof. unfold update_failure, with_failures. calm. Qed.
#[local] Hint Resolve calm_update_failure : calm.
Lemma calm_check_id_whitelist : leaves calm (check_id_whitelist E).
Proof. unfold check_id_whitelist, option_value, with_failures. calm. Qed.
Lemma calm_enter_scope l : leaves calm (enter_scope E l).
Proof. unfold enter_scope, permitted, check_privacy_mode_on. calm. Qed.
Lemma calm_on_host {A} (m : HostM A) : stays m → leaves calm (on_host m).
Proof. intros Hm. apply leaves_on_host. intros w. by constructor. Qed.

(** *** What does not decide about the authorisation *)
Lemma core_send_login_error e : leaves same_core (send_login_error e).
Proof. unfold send_login_error. same_core. Qed.
Lemma core_try_start_cm b : leaves same_core (try_start_cm b).
Proof. unfold try_start_cm. same_core. Qed.
Lemma core_try_start_cm_ipc : leaves same_core try_start_cm_ipc.
Proof. unfold try_start_cm_ipc. same_core. Qed.
Lemma core_on_close b : leaves same_core (on_close b).
Proof. unfold on_close. same_core. Qed.
Lemma core_check_remove_session key : leaves same_core (check_remove_session key).
Proof. unfold check_remove_session. same_core. Qed.
#[local] Hint Resolve core_send_login_error core_try_start_cm core_try_start_cm_ipc core_on_close
  core_check_remove_session : same_core.
Lemma core_send_close_reason r : leaves same_core (send_close_reason_no_retry r).
Proof. unfold send_close_reason_no_retry. same_core. Qed.
#[local] Hint Resolve core_send_close_reason : same_core.

Lemma core_toggle_privacy b : leaves same_core (toggle_privacy_mode E b).
Proof. unfold toggle_privacy_mode, turn_on_privacy, turn_off_privacy. same_core. Qed.
Lemma core_subscribe_clipboard : leaves same_core subscribe_clipboard.
Proof. unfold subscribe_clipboard. same_core. Qed.
Lemma core_subscribe_cursor : leaves same_core subscribe_cursor.
Proof. unfold subscribe_cursor. same_core. Qed.
Lemma core_subscribe_audio : leaves same_core subscribe_audio.
Proof. unfold subscribe_audio. same_core. Qed.
#[local] Hint Resolve core_toggle_privacy core_subscribe_clipboard core_subscribe_cursor
  core_subscribe_audio : same_core.
Lemma core_update_options o : leaves same_core (update_options E o).
Proof. unfold update_options. same_core. Qed.
#[local] Hint Resolve core_update_options : same_core.
Lemma core_update_scoped : leaves same_core (update_scoped_login_options E).
Proof. unfold update_scoped_login_options. same_core. Qed.
Lemma core_auto_disconnect : leaves same_core (update_auto_disconnect_timer E).
Proof. unfold update_auto_disconnect_timer. same_core. Qed.
Lemma core_try_sub_monitor : leaves same_core (try_sub_monitor_services E).
Proof. unfold try_sub_monitor_services, get_auto_disconenct_timer, option_value. same_core. Qed.
Lemma core_enroll b : leaves same_core (enroll_trusted_device E b).
Proof. unfold enroll_trusted_device. same_core. Qed.
#[local] Hint Resolve core_update_scoped core_auto_disconnect core_try_sub_monitor core_enroll : same_core.
Lemma core_respond : leaves same_core (respond E).
Proof. unfold respond, bool_option_value, try_sub_camera_displays, send_permission. same_core. Qed.

Lemma core_pending i u : leaves same_core (insert_pending_switch_sides_uuid E i u).
Proof. unfold insert_pending_switch_sides_uuid. same_core. Qed.
#[local] Hint Resolve core_pending : same_core.
Lemma core_on_misc m : leaves same_core (on_misc E m).
Proof. unfold on_misc, change_resolution. same_core. Qed.
Lemma core_on_file_action a : leaves same_core (on_file_action E a).
Proof. unfold on_file_action. same_core. Qed.
#[local] Hint Resolve core_on_misc core_on_file_action : same_core.
Lemma core_on_authorized m : leaves same_core (on_authorized_message E m).
Proof.
  unfold on_authorized_message, on_file_response, close_voice_call, handle_terminal_action. same_core.
Qed.
Lemma core_violation s : leaves same_core (handle_authorized_scope_violation s).
Proof. unfold handle_authorized_scope_violation, bool_option_value. same_core. Qed.
Lemma core_test_delay b : leaves same_core (on_test_delay E b).
Proof. unfold on_test_delay. same_core. Qed.
Lemma core_voice_call b : leaves same_core (handle_voice_call b).
Proof. unfold handle_voice_call. same_core. Qed.
Lemma core_close_voice_call : leaves same_core close_voice_call.
Proof. unfold close_voice_call. same_core. Qed.
Lemma core_switch_permission n b : leaves same_core (switch_permission E n b).
Proof. unfold switch_permission, send_permission. same_core. Qed.
#[local] Hint Resolve core_violation core_test_delay core_voice_call core_close_voice_call
  core_switch_permission : same_core.

(** Of the connection manager only the acceptance decides. *)
Lemma core_on_cm m : m ≠ Authorize → leaves same_core (on_cm E m).
Proof. intros Hm. unfold on_cm. destruct m; [done|same_core..]. Qed.

Lemma core_check_trusted : leaves same_core (check_trusted_device E).
Proof. unfold check_trusted_device. same_core. Qed.
Lemma core_prepare_terminal : leaves same_core (prepare_terminal_login_for_authorization E).
Proof. unfold prepare_terminal_login_for_authorization. same_core. Qed.
Lemma core_connect : leaves same_core (connect_port_forward_if_needed E).
Proof. unfold connect_port_forward_if_needed. same_core. Qed.

End Model.

#[export] Hint Resolve calm_send_login_error calm_try_start_cm calm_try_start_cm_ipc calm_check_login_scope
  calm_get_2fa calm_reset_scope calm_check_failure calm_update_failure calm_check_id_whitelist
  calm_enter_scope : calm.
#[export] Hint Resolve core_send_login_error core_try_start_cm core_try_start_cm_ipc core_on_close
  core_check_remove_session core_send_close_reason core_toggle_privacy core_subscribe_clipboard
  core_subscribe_cursor core_subscribe_audio core_update_options core_update_scoped core_auto_disconnect
  core_try_sub_monitor core_enroll core_respond core_pending core_on_misc core_on_file_action
  core_on_authorized core_violation core_test_delay core_voice_call core_close_voice_call
  core_switch_permission core_check_trusted core_prepare_terminal core_connect : same_core.
End LoginFrames.
