(* ===== verification/LoginProofs.v ===== *)
(** * Who is let in

    [lets_in] lists the password hashes a connection accepts in a state, [proves] is a
    login request that answers the challenge with one of them, and [second_factor] the
    ways a login may go on without a code.  A [history] is the events of one connection
    with the states they met; other connections and the user's settings may change
    everything but the connection between two events. *)
From S2P Require Import Prelude RustStd RecordUpdate Secrets ConfigStore Config2Store TrustedDevices.
From S2P Require Import SessionScope LoginGuard HostNames Session Login Dispatch LoginFrames.
From Stdlib Require Import Ascii.

Module LoginProofs.
Export LoginFrames.

(** ** Comparing secrets *)
Lemma foldl_lor_zero (l : list (byte * byte)) x :
  0 ≤ x →
  foldl (λ x '(p, q), Z.lor x (Z.lxor (b2z p) (b2z q))) x l = 0 ↔ x = 0 ∧ Forall (λ '(p, q), p = q) l.
Proof.
  revert x. induction l as [|[p q] l IH]; intros x Hx; cbn [foldl].
  { split; [done|by intros [??]]. }
  pose proof (b2z_range p). pose proof (b2z_range q).
  assert (0 ≤ Z.lxor (b2z p) (b2z q)) by (apply Z.lxor_nonneg; lia).
  rewrite IH by (apply Z.lor_nonneg; lia). rewrite Z.lor_eq_0_iff, Z.lxor_eq_0_iff, Forall_cons.
  split; [intros [[? ?%b2z_inj] ?]|intros [? [-> ?]]]; done.
Qed.

Lemma constant_time_eq_spec a b : constant_time_eq a b = bool_decide (a = b).
Proof.
  unfold constant_time_eq, len. destruct (Z.eqb_spec (Z.of_nat (length a)) (Z.of_nat (length b))) as [Hl|Hl]; cbn [negb].
  2:{ rewrite bool_decide_false; [done|]. by intros ->. }
  apply eq_true_iff_eq. rewrite Z.eqb_eq, bool_decide_eq_true, foldl_lor_zero by lia.
  assert (length a = length b) as Hlen by lia. clear Hl. revert b Hlen.
  induction a as [|x a IH]; intros [|y b] Hlen; try done. cbn in Hlen.
  cbn [zip zip_with]. rewrite Forall_cons. specialize (IH b ltac:(lia)). split.
  - intros [_ [-> HF]]. f_equal. by apply IH.
  - intros [= -> ->]. split; [done|]. split; [done|]. by apply IH.
Qed.

Section Model.
Context `{!Crypto, !Entropy, !Json, !TotpLib, !Tokens, !Site}.

(** ** What lets in *)
Definition key_of (l : LoginRequest) : SessionKey := mkKey (my_id l) (my_name l) (session_id l).

(** A session that is remembered at the time of the event. *)
Definition recent (E : Env) (w : World) (k : SessionKey) (s : SessionEntry) : Prop :=
  SESSIONS w !! k = Some s ∧ instant E - default 0 (times w !! last_recv_time s) < SESSION_TIMEOUT.

Definition logon_screen (E : Env) : bool :=
  (get_builtin_option "allow-logon-screen-password" ==s "Y") && is_logon E.
Definition permanent_allowed (E : Env) (w : World) : bool :=
  permanent_enabled OVERWRITE_SETTINGS DEFAULT_SETTINGS (host w) || logon_screen E.
Definition temporary_allowed (w : World) : bool :=
  temporary_enabled OVERWRITE_SETTINGS DEFAULT_SETTINGS (host w).

Definition stored (w : World) : string := password (CONFIG (host w)).
Definition preset : string * string := get_preset_password_storage_and_salt HARD_SETTINGS.

(** The hashes that let the request in: of the temporary password, of a remembered
    session's password, and what the permanent password is stored as. *)
Inductive lets_in (E : Env) (w : World) (l : LoginRequest) (salt : string) : bytes → Prop :=
| by_temporary :
    temporary_allowed w = true → TEMPORARY_PASSWORD (host w) ≠ "" →
    lets_in E w l salt (sha256 (as_bytes (TEMPORARY_PASSWORD (host w)) ++ as_bytes salt))
| by_session s :
    recent E w (key_of l) s → random_password s ≠ "" →
    lets_in E w l salt (sha256 (as_bytes (random_password s) ++ as_bytes salt))
| by_stored_hash h h1 :
    permanent_allowed E w = true → steady (host w) h →
    (decode_permanent_password_h1_from_storage (stored w) h).1 = Some h1 →
    lets_in E w l salt h1
| by_stored_text h :
    permanent_allowed E w = true → steady (host w) h → stored w ≠ "" →
    (decode_permanent_password_h1_from_storage (stored w) h).1 = None →
    lets_in E w l salt (sha256 (as_bytes (stored w) ++ as_bytes salt))
| by_preset_hash h1 :
    permanent_allowed E w = true → stored w = "" → preset.2 ≠ "" →
    decode_preset_password_h1_from_storage preset.1 = Some h1 →
    lets_in E w l salt h1
| by_preset_text :
    permanent_allowed E w = true → stored w = "" → preset.2 = "" → preset.1 ≠ "" →
    lets_in E w l salt (sha256 (as_bytes preset.1 ++ as_bytes salt)).

(** The request answers the challenge of the connection, and passwords are accepted. *)
Definition proves (E : Env) (w : World) (l : LoginRequest) : Prop :=
  (approve_mode OVERWRITE_SETTINGS DEFAULT_SETTINGS (host w) ≠ Click ∨ logon_screen E = true) ∧
  ∃ h1, lets_in E w l (hash_salt (conn w)) h1 ∧
        lr_password l = sha256 (h1 ++ as_bytes (hash_challenge (conn w))).

(** The session gave a code already, or a trusted device is recognised. *)
Inductive recognised (E : Env) (w : World) (l : LoginRequest) : Prop :=
| by_session_code s : recent E w (key_of l) s → tfa s = true → recognised E w l
| by_device h p a t :
    steady (host w) h →
    proof_password p = lr_password l → proof_token p = trusted_device_v2_token l →
    (host_begin OVERWRITE_SETTINGS DEFAULT_SETTINGS HARD_SETTINGS (now E) p h).1 = Ok (Some (a, true, t)) →
    recognised E w l.

(** A login that may go on without a code. *)
Definition second_factor (E : Env) (w : World) (l : LoginRequest) : Prop :=
  (get_2fa w).1 = None ∨ recognised E w l.

(** ** Steps of a login *)
Definition salted (c : Connection) : string * string := (hash_salt c, hash_challenge c).

(** Between two states of one login. *)
Record untouched (w w' : World) : Prop := {
  un_salted : salted (conn w') = salted (conn w);
  un_sessions : SESSIONS w' ⊆ SESSIONS w;
  un_times : times w' = times w;
  un_host : steady (host w) (host w');
}.
Lemma untouched_trans w1 w2 w3 : untouched w1 w2 → untouched w2 w3 → untouched w1 w3.
Proof. intros [] []. constructor; [congruence|by etrans|congruence|by etrans]. Qed.
Lemma calm_untouched w w' : calm w w' → untouched w w'.
Proof. intros [Hc]. constructor; [|done..]. unfold core, salted in *. congruence. Qed.

Lemma get_option_steady k h h' : steady h h' →
  get_option OVERWRITE_SETTINGS DEFAULT_SETTINGS k h' = get_option OVERWRITE_SETTINGS DEFAULT_SETTINGS k h.
Proof. intros Hs. unfold get_option. by rewrite (steady_config2 _ _ Hs). Qed.

Lemma recent_untouched E w w' k s : untouched w w' → recent E w' k s → recent E w k s.
Proof.
  intros Hu [Hs Ht]. split; [|by rewrite <- (un_times _ _ Hu)].
  eapply lookup_weaken; [done|apply Hu].
Qed.

Lemma lets_in_untouched E w w' l s h1 : untouched w w' → lets_in E w' l s h1 → lets_in E w l s h1.
Proof.
  intros Hu Hl. pose proof (un_host _ _ Hu) as Hh.
  assert (stored w' = stored w) as Hst by (by unfold stored; rewrite (steady_password _ _ Hh)).
  assert (permanent_allowed E w' = permanent_allowed E w) as Hp.
  { unfold permanent_allowed, permanent_enabled, verification_method. by rewrite !(get_option_steady _ _ _ Hh). }
  destruct Hl as [P1 P2|x P1 P2|h h1 P1 P2 P3|h P1 P2 P3 P4|h1 P1 P2 P3 P4|P1 P2 P3 P4];
    rewrite ?Hp, ?Hst in *.
  - rewrite (steady_temporary _ _ Hh) in *. apply by_temporary; [|done].
    unfold temporary_allowed, temporary_enabled, verification_method in *.
    by rewrite (get_option_steady _ _ _ Hh) in P1.
  - eapply by_session; [by eapply recent_untouched|done].
  - eapply by_stored_hash; [done|by etrans|done].
  - eapply by_stored_text; [done|by etrans|done|done].
  - by eapply by_preset_hash.
  - by eapply by_preset_text.
Qed.

Lemma proves_untouched E w w' l : untouched w w' → proves E w' l → proves E w l.
Proof.
  intros Hu [Hm (h1 & Hl & He)]. pose proof (un_salted _ _ Hu) as [= Hs Hc]. split.
  - revert Hm. unfold approve_mode. by rewrite (get_option_steady _ _ _ (un_host _ _ Hu)).
  - exists h1. rewrite Hs, Hc in *. split; [by eapply lets_in_untouched|done].
Qed.

Lemma recognised_untouched E w w' l : untouched w w' → recognised E w' l → recognised E w l.
Proof.
  intros Hu [s Hs Ht|h p a t Hs Hp Ht Hb].
  - eapply by_session_code; [by eapply recent_untouched|done].
  - eapply by_device; [|done..]. etrans; [apply Hu|done].
Qed.

(** ** Passwords *)
Lemma verify_h1_spec c h1 :
  verify_h1 c h1 = true → lr_password (lr c) = sha256 (h1 ++ as_bytes (hash_challenge c)).
Proof. unfold verify_h1. rewrite constant_time_eq_spec. by intros ->%bool_decide_eq_true. Qed.

Lemma validate_plain_spec c pw :
  validate_password_plain c pw = true →
  pw ≠ "" ∧ lr_password (lr c) = sha256 (sha256 (as_bytes pw ++ as_bytes (hash_salt c)) ++ as_bytes (hash_challenge c)).
Proof.
  unfold validate_password_plain. destruct (is_empty pw) eqn:Hp; [done|].
  intros Hv%verify_h1_spec. split; [|done]. intros ->. done.
Qed.

(** The state of a login whose request is [l]. *)
Definition asks (l : LoginRequest) (w : World) : Prop :=
  session_key (conn w) = key_of l ∧ lr_password (lr (conn w)) = lr_password l.

Lemma asks_calm l w w' : calm w w' → asks l w → asks l w'.
Proof. intros [_ Hl _ _ _ _] [Hk Hp]. split; [by rewrite <- Hk; unfold session_key; rewrite Hl|by rewrite Hl]. Qed.

Variable E : Env.

Lemma recent_session_spec tf w :
  wp (is_recent_session E tf) (λ r w',
    calm w w' ∧ (r = true → ∃ s, recent E w (session_key (conn w)) s ∧
      if tf then tfa s = true else validate_password_plain (conn w) (random_password s) = true)) w.
Proof.
  unfold is_recent_session. apply wp_step. cbn [change_world fst snd].
  assert (calm w (retain_recent E w)) as Hc.
  { constructor; try done. cbn. apply map_filter_subseteq. }
  set (w1 := retain_recent E w) in *.
  assert (conn w1 = conn w) as Hconn by done.
  apply wp_step. cbn [self fst snd]. apply wp_step. cbn [get fst snd].
  destruct (SESSIONS w1 !! session_key (conn w1)) as [s|] eqn:Hs; [|by apply wp_ret].
  apply wp_if; intros Hb; [|by apply wp_ret].
  apply andb_true_iff in Hb as [_ Hb].
  apply wp_bind. eapply (wp_leaves calm).
  { destruct tf; unfold set_two_factor, set_primary; calm. }
  intros _ w2 Hc2. apply wp_ret. split; [by etrans|]. intros _. exists s.
  cbn in Hs. apply map_lookup_filter_Some in Hs as [Hs Ht]. split; [by split|].
  destruct tf; [|exact Hb]. by rewrite andb_false_l, orb_false_r in Hb.
Qed.

(** After a password was accepted: the session has no code of its own yet. *)
Record checked (w w' : World) : Prop := {
  ck_core : core (conn w') = core (conn w);
  ck_2fa : require_2fa (conn w') = require_2fa (conn w);
  ck_lr : lr (conn w') = lr (conn w);
  ck_host : steady (host w) (host w');
  ck_session s : SESSIONS w' !! session_key (conn w) = Some s → tfa s = false;
}.
Lemma checked_calm w w1 w2 : checked w w1 → calm w1 w2 → checked w w2.
Proof.
  intros [] []. constructor; [congruence..|by etrans|]. intros s Hs. eapply ck_session0, lookup_weaken; done.
Qed.
Lemma calm_checked w w1 w2 : calm w w1 → checked w1 w2 → checked w w2.
Proof.
  intros [Hc Hl] []. constructor; [congruence..|by etrans|]. intros s Hs. apply ck_session0.
  unfold session_key in *. by rewrite Hl.
Qed.

Lemma session_set_spec key pw w :
  wp (update_or_insert_session E key pw (Some false)) (λ _ w',
    conn w' = conn w ∧ host w' = host w ∧ ∀ s, SESSIONS w' !! key = Some s → tfa s = false) w.
Proof.
  unfold update_or_insert_session. apply wp_step. cbn [get fst snd].
  destruct (SESSIONS w !! key) as [s|]; unfold wp; cbn.
  - split; [done|]. split; [done|]. intros s' Hs. by pose proof (eq_trans (eq_sym Hs) (lookup_insert_eq _ _ _)) as [= ->].
  - split; [done|]. split; [done|]. intros s' Hs. by pose proof (eq_trans (eq_sym Hs) (lookup_insert_eq _ _ _)) as [= ->].
Qed.

Lemma session_checked key pw w :
  key = session_key (conn w) → wp (update_or_insert_session E key pw (Some false)) (λ _ w', checked w w') w.
Proof.
  intros ->. eapply wp_mono; [apply session_set_spec|]. intros _ w' (Hc & Hh & Hs).
  constructor; rewrite ?Hc, ?Hh; done.
Qed.

Lemma calm_success : leaves calm (check_update_temporary_password true).
Proof. unfold check_update_temporary_password. cbv iota. calm. Qed.
Lemma calm_set_primary m : leaves calm (set_primary m).
Proof. unfold set_primary. calm. Qed.

(** An answer to the challenge of the state [w]. *)
Definition answered (w : World) (l : LoginRequest) : Prop :=
  ∃ h1, lets_in E w l (hash_salt (conn w)) h1 ∧
        lr_password (lr (conn w)) = sha256 (h1 ++ as_bytes (hash_challenge (conn w))).

Definition validated (l : LoginRequest) (w : World) (r : bool) (w' : World) : Prop :=
  if r then checked w w' ∧ answered w l else calm w w'.

Lemma validate_temporary_spec l w : wp (validate_temporary_password E) (validated l w) w.
Proof.
  unfold validate_temporary_password. apply wp_step. cbn [get fst snd].
  destruct (temporary_enabled _ _ (host w)) eqn:Ht; [|by apply wp_ret].
  cbn [negb]. apply wp_step. cbn [get fst snd]. apply wp_step. cbn [self fst snd].
  destruct (validate_password_plain (conn w) _) eqn:Hv; [|by apply wp_ret].
  cbn [negb]. apply validate_plain_spec in Hv as [Hp Hv].
  apply wp_bind, (wp_leaves calm); [apply calm_set_primary|]. intros _ w1 Hc1.
  apply wp_bind. eapply wp_mono.
  { apply session_checked. unfold session_key. by rewrite (calm_lr _ _ Hc1). }
  intros ? w2 Hc2. apply wp_bind, (wp_leaves calm); [apply calm_success|]. intros _ w3 Hc3.
  apply wp_ret. split.
  - exact (calm_checked _ _ _ Hc1 (checked_calm _ _ _ Hc2 Hc3)).
  - eexists. split; [by apply by_temporary|done].
Qed.

Lemma validate_storage_spec c w storage :
  storage ≠ "" →
  wp (on_host (validate_password_storage c storage)) (λ r w', calm w w' ∧ (r = true →
    lr_password (lr c) =
    sha256 (default (sha256 (as_bytes storage ++ as_bytes (hash_salt c)))
              (decode_permanent_password_h1_from_storage storage (host w)).1
            ++ as_bytes (hash_challenge c)))) w.
Proof.
  intros Hs. unfold wp, on_host, validate_password_storage, mbind, host_bind.
  destruct (is_empty storage) eqn:He; [by destruct storage|].
  pose proof (stays_decode_h1 storage (host w)) as Hst.
  destruct (decode_permanent_password_h1_from_storage storage (host w)) as [h1 h]. cbn in *.
  split; [by constructor|]. destruct h1 as [h1|]; [apply verify_h1_spec|apply validate_plain_spec].
Qed.

Lemma validate_preset_spec w :
  validate_preset_password_storage (conn w) preset.1 preset.2 = true →
  ∃ h1, lr_password (lr (conn w)) = sha256 (h1 ++ as_bytes (hash_challenge (conn w))) ∧
    ((preset.2 ≠ "" ∧ decode_preset_password_h1_from_storage preset.1 = Some h1) ∨
     (preset.2 = "" ∧ preset.1 ≠ "" ∧ h1 = sha256 (as_bytes preset.1 ++ as_bytes (hash_salt (conn w))))).
Proof.
  unfold validate_preset_password_storage. destruct (is_empty preset.2) eqn:He.
  - intros [Hne Hv]%validate_plain_spec. eexists. split; [done|]. right. split; [by destruct preset.2|done].
  - destruct (decode_preset_password_h1_from_storage _) as [h1|]; [|done]. intros Hv%verify_h1_spec.
    exists h1. split; [done|]. left. split; [|done]. by intros Hp; rewrite Hp in He.
Qed.

Lemma validate_permanent_spec l w :
  permanent_allowed E w = true → wp (validate_permanent_password E) (validated l w) w.
Proof.
  intros Hal. unfold validate_permanent_password. apply wp_step. cbn [get fst snd].
  unfold get_local_permanent_password_storage_and_salt at 1. cbn iota beta.
  apply wp_step. cbn [self fst snd]. apply wp_bind.
  apply (wp_mono _ (λ r w', calm w w' ∧ (r = true → answered w l))).
  - destruct (is_empty (password (CONFIG (host w)))) eqn:He; cbn [negb].
    + unfold preset in *. pose proof (validate_preset_spec w) as Hp. unfold preset in Hp.
      destruct (get_preset_password_storage_and_salt HARD_SETTINGS) as [hard hsalt] eqn:Hpre. cbn [fst snd] in Hp.
      apply wp_ret. split; [done|]. intros [_ Hv]%andb_true_iff.
      destruct (Hp Hv) as (h1 & Hr & Hor). exists h1. split; [|done].
      assert (stored w = "") as Hst by (unfold stored; by destruct (password _)).
      destruct Hor as [[Hne Hd]|(Hne & Hne' & ->)].
      * apply by_preset_hash; [done..| |]; unfold preset; by rewrite Hpre.
      * pose proof (by_preset_text E w l (hash_salt (conn w)) Hal Hst) as Hq.
        unfold preset in Hq. rewrite Hpre in Hq. by apply Hq.
    + assert (stored w ≠ "") as Hne by (unfold stored; by destruct (password _)).
      apply wp_bind, (wp_leaves calm); [apply calm_on_host, stays_usable|]. intros u w1 Hc1.
      apply wp_if; intros _; [|by apply wp_ret].
      eapply wp_mono; [by apply validate_storage_spec|]. intros r w2 [Hc2 Hr].
      split; [by etrans|]. intros Hb. eexists. split; [|by apply Hr].
      pose proof (calm_host _ _ Hc1) as Hst.
      destruct (decode_permanent_password_h1_from_storage _ (host w1)).1 as [h1|] eqn:Hd; cbn [default].
      * by eapply by_stored_hash.
      * by eapply by_stored_text.
  - intros [] w1 [Hc1 Hans]; [|by apply wp_ret].
    apply wp_bind. eapply wp_mono.
    { apply session_checked. unfold session_key. by rewrite (calm_lr _ _ Hc1). }
    intros ? w2 Hc2. apply wp_bind, (wp_leaves calm); [apply calm_set_primary|]. intros _ w3 Hc3.
    apply wp_ret. split; [|by apply Hans]. exact (calm_checked _ _ _ Hc1 (checked_calm _ _ _ Hc2 Hc3)).
Qed.

Lemma lets_in_calm w w' l s h1 : calm w w' → lets_in E w' l s h1 → lets_in E w l s h1.
Proof. intros Hc. by apply lets_in_untouched, calm_untouched. Qed.

Lemma answered_calm w w' l : calm w w' → answered w' l → answered w l.
Proof.
  intros Hc (h1 & Hl & Hr). exists h1. pose proof (un_salted _ _ (calm_untouched _ _ Hc)) as [= Hs Hch].
  rewrite Hs, Hch, (calm_lr _ _ Hc) in *. split; [by eapply lets_in_calm|done].
Qed.

Lemma validate_password_spec l w :
  wp (validate_password E (logon_screen E)) (validated l w) w.
Proof.
  unfold validate_password. apply wp_bind. eapply wp_mono; [apply validate_temporary_spec|].
  intros [] w1 Hw1; [by apply wp_ret|]. cbn in Hw1.
  apply wp_step. cbn [get fst snd].
  apply wp_if; intros Hp; [|by apply wp_ret].
  eapply wp_mono; [by apply validate_permanent_spec|].
  intros [] w2; cbn; [|by etrans]. intros [Hc Ha].
  split; [by eapply calm_checked|by eapply answered_calm].
Qed.

(** ** The end of a login *)

(** The ways past the second factor when a login is completed. *)
Definition passed (w : World) : Prop :=
  require_2fa (conn w) = None ∨ from_switch (conn w) = true ∨
  ∃ s, recent E w (session_key (conn w)) s ∧ tfa s = true.

(** What [send_logon_response_and_keep_alive] leads to from an unauthorised state. *)
Record completed (w : World) (keep : bool) (w' : World) : Prop := {
  co_salted : salted (conn w') = salted (conn w);
  co_switch : from_switch (conn w') = from_switch (conn w);
  co_authorized : authorized (conn w') = true → awaiting_2fa (conn w') = false ∧ passed w;
  co_waiting : awaiting_2fa (conn w') = true →
    is_Some (require_2fa (conn w)) ∧ from_switch (conn w) = false;
  co_kept : keep = true → authorized (conn w') = true ∨ awaiting_2fa (conn w') = true;
  co_time : authorized (conn w') = false →
    session_last_recv_time (conn w') = session_last_recv_time (conn w);
}.

(** A state with the core of [w], but for the wait for a code. *)
Definition near (w : World) (w' : World) : Prop :=
  core (conn w') = (authorized (conn w), false, from_switch (conn w), hash_salt (conn w),
                    hash_challenge (conn w), session_last_recv_time (conn w)).
Lemma near_core w w1 w2 : near w w1 → same_core w1 w2 → near w w2.
Proof. unfold near, same_core. congruence. Qed.

Lemma near_completed w w' : authorized (conn w) = false → near w w' → completed w false w'.
Proof.
  unfold near, core. intros Ha [= H1' H2' H3' H4' H5' H6']. constructor; unfold salted; try congruence.
Qed.

Lemma authorize_spec w :
  wp authorize_connection (λ _ w', ∃ t, core (conn w') =
    (true, awaiting_2fa (conn w), from_switch (conn w), hash_salt (conn w), hash_challenge (conn w), t)) w.
Proof.
  unfold authorize_connection. apply wp_step. cbn [set fst snd].
  set (w1 := _ <| conn := _ |>).
  apply wp_bind, (wp_leaves same_core); [same_core|]. intros ? w2 H2'.
  apply wp_bind, (wp_leaves same_core).
  { unfold clear_id_whitelist_failures, with_failures. same_core. }
  intros ? w3 H3'. apply wp_step. cbn [self fst snd].
  apply wp_bind, (wp_leaves same_core); [unfold new_authed; same_core|]. intros ? w4 H4'.
  apply wp_step. cbn [get fst snd].
  assert (core (conn w4) = core (conn w1)) as Hc by (unfold same_core in *; congruence).
  apply wp_step. cbn [set fst snd]. unfold normalize_conn_audit_auth_fields, wp. cbn [set fst snd].
  unfold core in Hc. injection Hc as C1 C2 C3 C4 C5 C6. eexists. cbn [conn].
  destruct (_ || _); unfold core; cbn; by rewrite C1, C2, C3, C4, C5.
Qed.

Lemma wait_spec w :
  wp (if bool_decide (is_Some (require_2fa (conn w))) then
        recent ← is_recent_session E true; mret (negb recent && negb (from_switch (conn w)))
      else mret false)
    (λ wait w', calm w w' ∧
       if wait : bool then is_Some (require_2fa (conn w)) ∧ from_switch (conn w) = false else passed w) w.
Proof.
  case_bool_decide as Hs.
  - apply wp_bind. eapply wp_mono; [apply recent_session_spec|]. intros r w1 [Hc Hr].
    apply wp_ret. split; [done|]. unfold passed. destruct r, (from_switch (conn w)); cbn; auto.
  - apply wp_ret. split; [done|]. left. by apply eq_None_not_Some.
Qed.

Lemma prepare_refuses w keep :
  (prepare_terminal_login_for_authorization E w).1 = Some keep → keep = false.
Proof.
  unfold prepare_terminal_login_for_authorization, send_login_error, mbind, conn_bind. cbn.
  destruct (_ || _); cbn; [done|]. destruct (service_user E _) as [[]|]; cbn; by intros [= <-].
Qed.

Lemma logon_spec w :
  authorized (conn w) = false → wp (send_logon_response_and_keep_alive E) (completed w) w.
Proof.
  intros Ha. unfold send_logon_response_and_keep_alive. apply wp_step. cbn [self fst snd]. rewrite Ha.
  apply wp_bind. eapply wp_mono; [apply wait_spec|]. intros wait w1 [[Hc _ _ _ _ _] Hw]. cbv beta in *.
  unfold core in Hc. injection Hc as C1 C2 C3 C4 C5 C6.
  apply wp_if; intros ->; cbn iota in Hw.
  { destruct Hw as [Hq Hf]. apply wp_step. cbn [set fst snd].
    apply wp_bind, (wp_leaves same_core); [apply core_send_login_error|].
    unfold same_core, core. cbn. intros ? w2 [= D1 D2 D3 D4 D5 D6]. apply wp_ret.
    constructor; unfold salted; auto; congruence. }
  apply wp_step. cbn [set fst snd]. set (w2 := _ <| conn := _ |>).
  assert (near w w2) as Hn by (unfold near, core; cbn; congruence). clearbody w2. clear C1 C2 C3 C4 C5 C6 w1.
  apply wp_bind, (wp_leaves same_core); [apply core_check_trusted|]. intros t w3 H3'.
  assert (near w w3) as Hn3 by by eapply near_core.
  apply wp_if; intros _; [by apply wp_ret, near_completed|].
  apply wp_bind. pose proof (prepare_refuses w3) as Hpre. pose proof (core_prepare_terminal E w3) as H4'.
  unfold wp at 1. destruct (prepare_terminal_login_for_authorization E w3) as [p w4]. cbn [fst snd] in *.
  assert (near w w4) as Hn4 by by eapply near_core.
  destruct p as [keep|].
  { rewrite (Hpre keep) by done. by apply wp_ret, near_completed. }
  apply wp_bind, (wp_leaves same_core); [same_core|]. intros ? w5 H5'.
  apply wp_bind, (wp_leaves same_core); [apply core_connect|]. intros ok w6 H6'.
  assert (near w w6) as Hn6 by (by eapply near_core; [eapply near_core|]).
  apply wp_if; intros _; [by apply wp_ret, near_completed|].
  apply wp_step. cbn [self fst snd]. apply wp_step. cbn [get fst snd].
  apply wp_if; intros _.
  { apply wp_bind, (wp_leaves same_core); [apply core_send_login_error|]. intros ? w7 H7'.
    apply wp_ret, near_completed; [done|by eapply near_core]. }
  apply wp_bind, (wp_leaves same_core); [apply core_check_trusted|]. intros t2 w7 H7'.
  assert (near w w7) as Hn7 by by eapply near_core.
  apply wp_if; intros _; [by apply wp_ret, near_completed|].
  apply wp_bind. eapply wp_mono; [apply authorize_spec|]. intros ? w8 [tm H8'].
  apply (wp_leaves same_core); [apply core_respond|]. intros keep w9 H9'.
  unfold near, same_core in *. rewrite H8' in H9'. unfold core in Hn7, H9'.
  injection Hn7 as D1 D2 D3 D4 D5 D6. injection H9' as F1 F2 F3 F4 F5 F6.
  constructor; unfold salted; try congruence; [auto with congruence|by left].
Qed.

(** ** Trusted devices *)

(** What [begin_trusted_device] does to the second factor. *)
Lemma begin_spec w :
  wp (begin_trusted_device E) (λ _ w',
    core (conn w') = core (conn w) ∧ session_key (conn w') = session_key (conn w) ∧
    SESSIONS w' = SESSIONS w ∧ times w' = times w ∧
    (require_2fa (conn w') = None → require_2fa (conn w) = None ∨
       ∃ p a t, proof_password p = lr_password (lr (conn w)) ∧
         proof_token p = trusted_device_v2_token (lr (conn w)) ∧
         (host_begin OVERWRITE_SETTINGS DEFAULT_SETTINGS HARD_SETTINGS (now E) p (host w)).1
           = Ok (Some (a, true, t)))) w.
Proof.
  unfold begin_trusted_device. apply wp_step. cbn [self fst snd].
  unfold bool_option_value. apply wp_step. cbn [get fst snd].
  apply wp_if; intros _.
  { unfold wp; cbn. split_and!; auto. }
  unfold from_login. apply wp_bind, wp_step. cbn [self fst snd]. apply wp_step. cbn [set fst snd].
  apply wp_ret. set (p := mkProof _ _ _ _ _ _).
  apply wp_step. unfold trying. set (w1 := w <| conn := _ |>). change (host w1) with (host w).
  destruct (host_begin OVERWRITE_SETTINGS DEFAULT_SETTINGS HARD_SETTINGS (now E) p (host w)) as [r h] eqn:Hb. cbn [fst snd].
  destruct r as [[[[a valid] t]|]|e].
  - apply wp_step. cbn [set fst snd]. destruct valid.
    + unfold wp, set_two_factor, mbind, conn_bind; cbn. split_and!; [done..|]. intros _. right.
      exists p, a, t. split; [done|]. split; [done|]. by rewrite Hb.
    + unfold wp, mbind, conn_bind; cbn. by split_and!.
  - unfold wp; cbn. split_and!; auto.
  - unfold wp, send_login_error, mbind, conn_bind; cbn. split_and!; auto.
Qed.

(** ** A login request *)

(** What a login leads to from the state [w] at which the passwords are looked at. *)
Record logged_in (l : LoginRequest) (w : World) (keep : bool) (w' : World) : Prop := {
  li_salted : salted (conn w') = salted (conn w);
  li_switch : from_switch (conn w') = from_switch (conn w);
  li_authorized : authorized (conn w') = true →
    awaiting_2fa (conn w') = false ∧ proves E w l ∧
    (require_2fa (conn w) = None ∨ from_switch (conn w) = true ∨ recognised E w l);
  li_waiting : awaiting_2fa (conn w') = true → proves E w l;
  li_time : authorized (conn w') = false →
    session_last_recv_time (conn w') = session_last_recv_time (conn w);
}.

Lemma logged_in_core l w keep w' w'' :
  logged_in l w keep w' → same_core w' w'' → logged_in l w keep w''.
Proof.
  intros [] Hc. unfold same_core, core in Hc. injection Hc as C1 C2 C3 C4 C5 C6.
  constructor; unfold salted in *; rewrite ?C1, ?C2, ?C3, ?C4, ?C5, ?C6; done.
Qed.
Lemma logged_in_kept l w keep keep' w' : logged_in l w keep w' → logged_in l w keep' w'.
Proof. intros []. by constructor. Qed.

(** Nothing was decided. *)
Lemma undecided l w keep w' :
  core (conn w') = core (conn w) → authorized (conn w) = false → awaiting_2fa (conn w) = false →
  logged_in l w keep w'.
Proof.
  unfold core. intros [= C1 C2 C3 C4 C5 C6] Ha Hw. constructor; unfold salted; congruence.
Qed.

(** The common end of both ways to be let in. *)
Lemma finish_login l w w1 :
  core (conn w1) = core (conn w) → authorized (conn w) = false → proves E w l →
  (passed w1 → require_2fa (conn w) = None ∨ from_switch (conn w) = true ∨ recognised E w l) →
  wp (keep ← send_logon_response_and_keep_alive E;
      if negb keep then mret false else a ← self authorized; try_start_cm a;; mret true)
    (logged_in l w) w1.
Proof.
  intros Hc Ha Hp Hs. unfold core in Hc. injection Hc as C1 C2 C3 C4 C5 C6.
  apply wp_bind. eapply wp_mono; [apply logon_spec; congruence|]. intros keep w2 [D1 D2 D3 D4 D5 D6].
  assert (logged_in l w true w2) as Hl.
  { constructor; unfold salted in *; try congruence; [|by intros ?%D6; congruence].
    intros [Hw Hpa]%D3. split; [done|]. split; [done|]. by apply Hs. }
  apply wp_if; intros _; [by eapply wp_ret, logged_in_kept|].
  apply wp_step. cbn [self fst snd]. apply wp_bind, (wp_leaves same_core); [apply core_try_start_cm|].
  intros ? w3 H3'. apply wp_ret. by eapply logged_in_core.
Qed.

(** A password was accepted: what is left is the second factor. *)
Lemma authenticated l w w1 :
  lr (conn w) = l → authorized (conn w) = false → awaiting_2fa (conn w) = false →
  proves E w l → checked w w1 →
  wp (begun ← begin_trusted_device E;
      if negb begun then mret false
      else keep ← send_logon_response_and_keep_alive E;
           if negb keep then mret false else a ← self authorized; try_start_cm a;; mret true)
    (logged_in l w) w1.
Proof.
  intros Hl Ha Hw Hp [K1 K2 K3 K4 K5].
  apply wp_bind. eapply wp_mono; [apply begin_spec|]. intros begun w2 (B1 & B2 & B3 & B4 & B5).
  apply wp_if; intros _; [apply wp_ret, undecided; [congruence|done..]|].
  apply finish_login; [congruence|done|done|].
  intros [Hn|[Hn|(s & [Hs _] & Ht)]].
  - destruct (B5 Hn) as [Hn'|(p & a & t & Hp1 & Hp2 & Hb)]; [left; congruence|].
    right; right. rewrite K3, Hl in Hp1, Hp2. by eapply by_device.
  - right; left. unfold core in *. congruence.
  - rewrite B2, B3 in Hs. assert (session_key (conn w1) = session_key (conn w)) as Hk.
    { unfold session_key. by rewrite K3. }
    rewrite Hk in Hs. apply K5 in Hs. congruence.
Qed.

Lemma authenticate_spec l w :
  lr (conn w) = l → authorized (conn w) = false → awaiting_2fa (conn w) = false →
  wp (authenticate E l) (logged_in l w) w.
Proof.
  intros Hl Ha Hw. unfold authenticate. fold (logon_screen E).
  apply wp_bind, (wp_leaves calm); [apply calm_try_start_cm_ipc|]. intros ? w1 Hc1.
  apply wp_step. cbn [get fst snd].
  apply wp_bind.
  apply (wp_mono _ (λ no w2, calm w w2 ∧ (no = false →
    approve_mode OVERWRITE_SETTINGS DEFAULT_SETTINGS (host w) ≠ Click ∨ logon_screen E = true))).
  { assert (approve_mode OVERWRITE_SETTINGS DEFAULT_SETTINGS (host w1)
      = approve_mode OVERWRITE_SETTINGS DEFAULT_SETTINGS (host w)) as ->.
    { unfold approve_mode. by rewrite (get_option_steady _ _ _ (calm_host _ _ Hc1)). }
    destruct (approve_mode _ _ (host w)).
    - apply wp_bind, (wp_leaves calm); [apply calm_on_host, stays_has_valid_password|].
      intros v w2 Hc2. apply wp_ret. split; [by etrans|]. by left.
    - apply wp_ret. split; [done|]. by left.
    - apply wp_ret. split; [done|]. intros Hn. right. by destruct (logon_screen E). }
  intros no w2 [Hc2 Hno].
  apply wp_if; intros ->.
  { apply wp_bind, (wp_leaves same_core); [apply core_try_start_cm|]. intros ? w3 H3'.
    apply wp_bind, (wp_leaves same_core); [case_match; same_core; apply core_send_login_error|].
    intros ? w4 H4'. apply wp_ret, undecided; [|done..].
    pose proof (calm_core _ _ Hc2). unfold same_core in *. congruence. }
  specialize (Hno eq_refl).
  apply wp_bind. eapply wp_mono; [apply recent_session_spec|]. intros r w3 [Hc3 Hr].
  assert (calm w w3) as Hc by by etrans.
  pose proof (calm_untouched _ _ Hc2) as Hu2.
  assert (session_key (conn w2) = key_of l) as Hkey.
  { unfold session_key. by rewrite (calm_lr _ _ Hc2), Hl. }
  apply wp_if; intros ->.
  { destruct (Hr eq_refl) as (s & Hs & [Hne Hv]%validate_plain_spec). rewrite Hkey in Hs.
    pose proof (un_salted _ _ Hu2) as [= Hsalt Hch].
    apply finish_login; [apply Hc|done| |].
    - split; [done|]. eexists. split; [eapply by_session; [by eapply recent_untouched|done]|].
      rewrite <- Hsalt, <- Hch, <- Hv. by rewrite (calm_lr _ _ Hc2), Hl.
    - intros [Hn|[Hn|(s' & Hs' & Ht)]].
      + left. by rewrite <- (calm_2fa _ _ Hc).
      + right; left. pose proof (calm_core _ _ Hc) as Hcc. unfold core in Hcc. congruence.
      + right; right. eapply by_session_code; [|done]. eapply recent_untouched; [by apply calm_untouched|].
        by rewrite <- Hl; unfold session_key in Hs'; rewrite (calm_lr _ _ Hc) in Hs'. }
  clear Hr. apply wp_if; intros _.
  { apply wp_bind, (wp_leaves same_core); [apply core_try_start_cm|]. intros ? w4 H4'.
    apply wp_ret, undecided; [|done..]. pose proof (calm_core _ _ Hc). unfold same_core in *. congruence. }
  apply wp_bind, (wp_leaves calm); [apply calm_check_failure|]. intros [failure res] w4 Hc4.
  assert (calm w w4) as Hcw by by etrans.
  apply wp_if; intros _; [by apply wp_ret, undecided; [apply Hcw|..]|].
  apply wp_bind. eapply wp_mono; [apply validate_password_spec|]. intros valid w5 Hv.
  destruct valid; cbn [negb]; cbn [validated] in Hv; swap 1 2.
  - apply wp_bind, (wp_leaves calm); [apply calm_update_failure|]. intros ? w6 Hc6.
    apply wp_bind, (wp_leaves same_core).
    { unfold check_update_temporary_password. same_core. }
    intros ? w7 H7'. apply wp_bind, (wp_leaves same_core); [apply core_send_login_error|]. intros ? w8 H8'.
    apply wp_bind, (wp_leaves same_core); [apply core_try_start_cm|]. intros ? w9 H9'.
    apply wp_ret, undecided; [|done..]. unfold validated in Hv.
    pose proof (calm_core _ _ Hcw). pose proof (calm_core _ _ Hv). pose proof (calm_core _ _ Hc6).
    unfold same_core in *. congruence.
  - destruct Hv as [Hck Hans].
    apply wp_bind, (wp_leaves calm); [apply calm_update_failure|]. intros ? w6 Hc6.
    apply (calm_checked _ _ _ Hcw) in Hck. apply (answered_calm _ _ l Hcw) in Hans.
    pose proof (checked_calm _ _ _ Hck Hc6) as Hck6.
    eapply authenticated; try done. split; [done|].
    destruct Hans as (h1 & Hin & Hh1). rewrite Hl in Hh1. by exists h1.
Qed.

(** ** The steps of a connection *)

(** What a step decides from an unauthorised state: [adm] is what an authorisation and
    [prv] what a wait for a code rests on. *)
Record decides (w : World) (adm prv : Prop) (keep : bool) (w' : World) : Prop := {
  de_salted : salted (conn w') = salted (conn w);
  de_authorized : authorized (conn w') = true → awaiting_2fa (conn w') = false ∧ adm;
  de_waiting : keep = true → awaiting_2fa (conn w') = true → prv;
  de_fresh : keep = true → authorized (conn w') = false →
    from_switch (conn w') = false ∧ session_last_recv_time (conn w') = None;
}.

(** The connection has not been let in by anything yet. *)
Definition outside (w : World) : Prop :=
  authorized (conn w) = false ∧ from_switch (conn w) = false ∧ session_last_recv_time (conn w) = None.

Lemma decides_same w (adm prv : Prop) keep w' :
  outside w → core (conn w') = core (conn w) → (awaiting_2fa (conn w) = true → prv) →
  decides w adm prv keep w'.
Proof.
  unfold core. intros (Ha & Hf & Ht) [= C1 C2 C3 C4 C5 C6] Hp.
  constructor; unfold salted; rewrite ?C1, ?C2, ?C3, ?C4, ?C5, ?C6; auto. congruence.
Qed.

Definition same_host (w w' : World) : Prop := host w' = host w.
#[local] Instance same_host_preorder : PreOrder same_host.
Proof. split; [by intros w|]. unfold same_host. intros ??? ??. congruence. Qed.
Lemma scope_same_host l : leaves same_host (check_login_scope l).
Proof.
  unfold check_login_scope, send_login_error.
  leaves_with ltac:(first [apply leaves_emit; done|apply leaves_set; done]).
Qed.
Lemma get_2fa_host w w' : host w' = host w → (get_2fa w').1 = (get_2fa w).1.
Proof.
  intros Hh. unfold get_2fa, option_value, trying, mbind, conn_bind, get. rewrite Hh.
  by destruct (totp_from_str _ (host w)).
Qed.

Lemma login_spec l w :
  outside w →
  wp (on_login_request E l) (decides w (proves E w l ∧ second_factor E w l) (proves E w l)) w.
Proof.
  intros Hout. pose proof Hout as (Ha & Hf & Ht). unfold on_login_request.
  apply wp_bind. pose proof (calm_check_login_scope l w) as Hc1. pose proof (scope_same_host l w) as Hh1.
  unfold wp at 1. destruct (check_login_scope l w) as [ok w1]. cbn [fst snd] in *.
  pose proof (calm_core _ _ Hc1) as Hcore1.
  apply wp_if; intros _.
  { apply wp_ret. destruct Hout as (?&?&?). unfold core in Hcore1. injection Hcore1 as C1 C2 C3 C4 C5 C6.
    constructor; unfold salted; try done; congruence. }
  apply wp_step. cbn [set fst snd]. set (w2 := w1 <| conn := _ |>).
  apply wp_step. cbn [self fst snd].
  assert (authorized (conn w2) = false) as -> by (unfold core in Hcore1; cbn; congruence). cbn [negb].
  apply wp_bind, wp_bind. pose proof (calm_get_2fa w2) as Hc3. pose proof (get_2fa_host w w2 Hh1) as Htotp.
  unfold wp at 1. destruct (get_2fa w2) as [totp w3]. cbn [fst snd] in *.
  unfold wp at 1. cbn [set fst snd]. unfold handle_login_request_without_validation.
  apply wp_step. cbn [set fst snd]. set (w4 := _ <| conn := _ |>).
  assert (untouched w w4) as Hu4.
  { apply (untouched_trans w w1); [by apply calm_untouched|]. pose proof (calm_untouched _ _ Hc3) as [U1 U2 U3 U4].
    constructor; [exact U1|exact U2|exact U3|exact U4]. }
  assert (authorized (conn w4) = false ∧ awaiting_2fa (conn w4) = false ∧ from_switch (conn w4) = false ∧
    session_last_recv_time (conn w4) = None ∧ lr (conn w4) = l ∧ require_2fa (conn w4) = (get_2fa w).1) as Hw4.
  { pose proof (calm_core _ _ Hc3) as Hcore3. unfold core in Hcore1, Hcore3. cbn in Hcore3.
    cbn. split_and!; congruence. }
  clearbody w4. clear Hc3 Htotp totp w3 w2 Hc1 Hh1 Hcore1 w1.
  destruct Hw4 as (A1 & A2 & A3 & A4 & A5 & A6).
  assert (∀ keep w5, core (conn w5) = core (conn w4) →
    decides w (proves E w l ∧ second_factor E w l) (proves E w l) keep w5) as Hsame.
  { unfold core. intros keep w5 [= C1 C2 C3 C4 C5 C6]. pose proof (un_salted _ _ Hu4).
    constructor; unfold salted in *; try congruence. intros _ _. split; congruence. }
  apply wp_bind, (wp_leaves calm); [apply calm_reset_scope|]. intros ? w5 Hc5.
  apply wp_bind, (wp_leaves calm); [apply calm_check_id_whitelist|]. intros listed w6 Hc6.
  assert (calm w4 w6) as Hc by by etrans.
  apply wp_if; intros _; [by apply wp_ret, Hsame, Hc|].
  apply wp_bind, (wp_leaves calm); [apply calm_enter_scope|]. intros entered w7 Hc7.
  assert (calm w4 w7) as Hc' by by etrans.
  apply wp_if; intros _; [by apply wp_ret, Hsame, Hc'|].
  apply wp_bind, (wp_leaves calm); [calm|]. intros ? w8 Hc8.
  apply wp_bind, (wp_leaves calm); [apply calm_on_host, stays_get_id|]. intros i w9 Hc9.
  assert (calm w4 w9) as Hc'' by (etrans; [exact Hc'|by etrans]).
  apply wp_if; intros _.
  { apply wp_bind, (wp_leaves calm); [apply calm_send_login_error|]. intros ? w10 Hc10.
    apply wp_ret, Hsame. apply (calm_core w4). by etrans. }
  pose proof (calm_core _ _ Hc'') as Hcore. unfold core in Hcore. injection Hcore as C1 C2 C3 C4 C5 C6.
  eapply wp_mono; [apply authenticate_spec; [|congruence..]|].
  { by rewrite (calm_lr _ _ Hc''). }
  intros keep w10 [L1 L2 L3 L4 L5].
  assert (untouched w w9) as Hu by (eapply untouched_trans; [done|by apply calm_untouched]).
  constructor.
  - by rewrite L1, (un_salted _ _ Hu).
  - intros (Hw & Hp & Hor)%L3. split; [done|]. split; [by eapply proves_untouched|].
    destruct Hor as [Hn|[Hn|Hn]]; [left|congruence|right].
    + by rewrite <- A6, <- (calm_2fa _ _ Hc'').
    + by eapply recognised_untouched.
  - intros _ Hw. eapply proves_untouched; [done|]. by apply L4.
  - intros _ Hn. split; [congruence|]. rewrite (L5 Hn). congruence.
Qed.

(** A code that is the current one of the connection. *)
Definition right_code (code : string) (w : World) : Prop :=
  ∃ t, require_2fa (conn w) = Some t ∧ check_current t code (now E) = Some true.

(** A login that is completed where no second factor is open. *)
Lemma completed_decides w w1 (adm prv : Prop) keep w2 :
  outside w → authorized (conn w1) = false → session_last_recv_time (conn w1) = None →
  salted (conn w1) = salted (conn w) → adm →
  require_2fa (conn w1) = None ∨ from_switch (conn w1) = true →
  completed w1 keep w2 → decides w adm prv keep w2.
Proof.
  intros Hout Ha Ht Hs Had Hno [D1 D2 D3 D4 D5 D6].
  assert (awaiting_2fa (conn w2) ≠ true) as Hw.
  { intros Hw. destruct (D4 Hw) as [Hq Hf]. destruct Hno as [Hn|Hn]; [|congruence].
    rewrite Hn in Hq. by destruct Hq. }
  constructor; [congruence|by intros []%D3| |].
  - intros _ Hw'. congruence.
  - intros Hk Hn. destruct (D5 Hk); congruence.
Qed.

Lemma decides_core w (adm prv : Prop) keep w' w'' :
  decides w adm prv keep w' → same_core w' w'' → decides w adm prv keep w''.
Proof.
  intros [] Hc. unfold same_core, core in Hc. injection Hc as C1 C2 C3 C4 C5 C6.
  constructor; unfold salted in *; rewrite ?C1, ?C2, ?C3, ?C4, ?C5, ?C6; done.
Qed.
Lemma decides_stop w (adm prv : Prop) keep w' : decides w adm prv keep w' → decides w adm prv false w'.
Proof. intros []. by constructor. Qed.

Lemma code_spec code trust w :
  outside w →
  wp (on_auth_2fa E code trust)
    (decides w (awaiting_2fa (conn w) = true ∧ right_code code w) (awaiting_2fa (conn w) = true)) w.
Proof.
  intros Hout. pose proof Hout as (Ha & Hf & Ht). unfold on_auth_2fa. apply wp_step. cbn [self fst snd].
  destruct (awaiting_2fa (conn w)) eqn:Hw; cbn [negb].
  2:{ apply wp_ret, decides_same; [done..|congruence]. }
  apply wp_bind, (wp_leaves calm); [apply calm_check_failure|]. intros [failure res] w1 Hc1.
  pose proof (calm_core _ _ Hc1) as Hcore.
  assert (∀ keep w2, core (conn w2) = core (conn w1) →
    decides w (true = true ∧ right_code code w) (true = true) keep w2) as Hsame.
  { intros keep w2 Hc. apply decides_same; [done|congruence|done]. }
  apply wp_if; intros _; [by apply wp_ret, Hsame|].
  apply wp_step. cbn [self fst snd].
  destruct (require_2fa (conn w1) ≫= _) as [[]|] eqn:Hck; [| |by apply wp_ret, Hsame].
  - apply bind_Some in Hck as (t & Hreq & Hck). rewrite (calm_2fa _ _ Hc1) in Hreq.
    apply wp_bind, (wp_leaves calm); [apply calm_update_failure|]. intros ? w2 Hc2.
    apply wp_step. cbn [set fst snd]. set (w3 := _ <| conn := _ |>).
    assert (core (conn w3) = core (conn w) ∧ require_2fa (conn w3) = None) as [Hc3 Hr3].
    { split; [|done]. pose proof (calm_core _ _ Hc2) as Hc. unfold core in *. cbn. congruence. }
    clearbody w3.
    apply wp_bind, (wp_leaves calm); [unfold set_two_factor; calm|]. intros ? w4 Hc4.
    apply wp_bind, (wp_leaves calm); [calm|]. intros ? w5 Hc5.
    apply wp_step. cbn [self fst snd].
    apply wp_bind. assert (∀ w, conn (set_session_2fa E (session_key (conn w5)) w).2 = conn w) as Hset.
    { intros u. unfold set_session_2fa, mbind, conn_bind, get. by destruct (SESSIONS u !! _). }
    specialize (Hset w5). unfold wp at 1. destruct (set_session_2fa E _ w5) as [[] w6]. cbn [fst snd] in *.
    assert (core (conn w6) = core (conn w) ∧ require_2fa (conn w6) = None) as [Hc6 Hr6].
    { rewrite Hset. split.
      - by rewrite (calm_core _ _ Hc5), (calm_core _ _ Hc4).
      - by rewrite (calm_2fa _ _ Hc5), (calm_2fa _ _ Hc4). }
    unfold core in Hc6. injection Hc6 as C1 C2 C3 C4 C5 C6.
    apply wp_bind. eapply wp_mono; [apply logon_spec; congruence|]. intros keep w7 Hco.
    assert (decides w (true = true ∧ right_code code w) (true = true) keep w7) as Hd.
    { eapply completed_decides; [done|..|exact Hco]; unfold salted; try congruence.
      - split; [done|]. by exists t.
      - by left. }
    apply wp_if; intros Hk; [apply wp_ret; by eapply decides_stop|].
    apply wp_step. cbn [self fst snd].
    apply wp_bind, (wp_leaves same_core); [apply core_try_start_cm|]. intros ? w8 H8'.
    apply wp_ret. destruct keep; [|done]. by eapply decides_core.
  - apply wp_bind, (wp_leaves calm); [apply calm_update_failure|]. intros ? w2 Hc2.
    apply wp_bind, (wp_leaves calm); [apply calm_send_login_error|]. intros ? w3 Hc3.
    apply wp_ret, Hsame, (calm_core w1). by etrans.
Qed.

(** The identifier this side made when it asked to switch sides, while it is valid. *)
Definition fresh_uuid (uuid : bytes) (l : LoginRequest) (w : World) : Prop :=
  union l = None ∧ ∃ t, SWITCH_SIDES_UUID w !! my_id l = Some (t, uuid) ∧ instant E - t < SWITCH_SIDES_UUID_TTL.

(** The core of [w] with the mark of a switch. *)
Definition switched (w w' : World) : Prop :=
  core (conn w') = (authorized (conn w), awaiting_2fa (conn w), true, hash_salt (conn w),
                    hash_challenge (conn w), session_last_recv_time (conn w)).

Lemma switch_spec uuid l w :
  wp (on_switch_sides_response E uuid (Some l)) (λ keep w',
    same_core w w' ∨
    (fresh_uuid uuid l w ∧ ∃ w1 keep1 w2, switched w w1 ∧
       send_logon_response_and_keep_alive E w1 = (keep1, w2) ∧ same_core w2 w' ∧
       (keep = true → keep1 = true))) w.
Proof.
  unfold on_switch_sides_response. apply wp_step. cbn [change_world fst snd].
  set (w1 := _ <| SWITCH_SIDES_UUID := _ |>). apply wp_step. cbn [get fst snd].
  destruct (SWITCH_SIDES_UUID w1 !! my_id l) as [[t old]|] eqn:Hl; apply wp_step; cbn [change_world fst snd].
  2:{ apply wp_ret. by left. }
  apply map_lookup_filter_Some in Hl as [Hl Ht]. cbn in Ht.
  apply wp_if; intros Hu; [apply wp_ret; by left|].
  apply orb_false_iff in Hu as [_ Hu]. apply negb_false_iff, bool_decide_eq_true in Hu. subst old.
  apply wp_if; intros Hun.
  { apply wp_bind, (wp_leaves same_core); [apply core_send_login_error|]. intros ? w3 H3'. apply wp_ret. by left. }
  apply bool_decide_eq_false, eq_None_not_Some in Hun.
  assert (fresh_uuid uuid l w) as Hfresh by (split; [done|]; exists t; split; [exact Hl|exact Ht]).
  set (w2 := _ <| SWITCH_SIDES_UUID := _ |>).
  apply wp_bind, (wp_leaves same_core); [unfold reset_session_scope_for_login; same_core|]. intros ? w3 H3'.
  apply wp_bind, (wp_leaves same_core); [unfold handle_login_request_without_validation; same_core|].
  intros ? w4 H4'.
  apply wp_bind, (wp_leaves calm); [apply calm_check_id_whitelist|]. intros listed w5 H5'%calm_core.
  assert (same_core w w5) as Hc by (unfold same_core in *; change (conn w) with (conn w2); congruence).
  apply wp_if; intros _; [apply wp_ret; by left|].
  apply wp_step. cbn [set fst snd]. set (w6 := _ <| conn := _ |>).
  assert (switched w w6) as Hsw by (unfold same_core, core in Hc; unfold switched, core; cbn; congruence).
  clearbody w6. apply wp_bind, (wp_leaves same_core); [unfold set_primary; same_core|]. intros ? w7 H7'.
  assert (switched w w7) as Hsw7 by (unfold switched, same_core in *; congruence).
  apply wp_step. destruct (send_logon_response_and_keep_alive E w7) as [keep w8] eqn:Hlog. cbn [fst snd].
  apply wp_if; intros Hk.
  { apply wp_ret. right. split; [done|]. by exists w7, keep, w8. }
  apply wp_step. cbn [self fst snd].
  apply wp_bind, (wp_leaves same_core); [apply core_try_start_cm|]. intros ? w9 H9'.
  apply wp_bind, (wp_leaves same_core); [apply core_try_start_cm_ipc|]. intros ? w10 H10'.
  apply wp_ret. right. split; [done|]. exists w7, keep, w8.
  split; [done|]. split; [done|]. split; [by etrans|]. by destruct keep.
Qed.

Lemma switch_outside uuid l w :
  outside w →
  wp (on_switch_sides_response E uuid (Some l))
    (decides w (fresh_uuid uuid l w) (awaiting_2fa (conn w) = true)) w.
Proof.
  intros Hout. eapply wp_mono; [apply switch_spec|]. intros keep w' [Hc|(Hf & w1 & keep1 & w2 & Hs & Hl & Hc & Hk)].
  - by apply decides_same.
  - destruct Hout as (Ha & Hfs & Ht). unfold switched, core in Hs. injection Hs as C1 C2 C3 C4 C5 C6.
    pose proof (logon_spec w1 ltac:(congruence)) as Hlog. unfold wp in Hlog. rewrite Hl in Hlog. cbn in Hlog.
    assert (decides w (fresh_uuid uuid l w) (awaiting_2fa (conn w) = true) keep1 w') as Hd.
    { eapply decides_core; [|exact Hc]. eapply completed_decides; [done|..|exact Hlog]; unfold salted; try congruence.
      by right. }
    destruct keep; [by rewrite Hk in Hd|by eapply decides_stop].
Qed.

Lemma accept_outside w :
  outside w → wp (on_authorize E) (decides w True (awaiting_2fa (conn w) = true)) w.
Proof.
  intros Hout. pose proof Hout as (Ha & Hf & Ht). unfold on_authorize.
  apply wp_bind, (wp_leaves same_core); [unfold set_primary; same_core|]. intros ? w1 H1'.
  apply wp_step. cbn [set fst snd]. set (w2 := _ <| conn := _ |>).
  assert (core (conn w2) = core (conn w) ∧ require_2fa (conn w2) = None) as [Hc Hr] by done.
  clearbody w2. unfold core in Hc. injection Hc as C1 C2 C3 C4 C5 C6.
  apply wp_bind. eapply wp_mono; [apply logon_spec; congruence|]. intros keep w3 Hco.
  assert (decides w True (awaiting_2fa (conn w) = true) keep w3) as Hd.
  { eapply completed_decides; [done|..|exact Hco]; unfold salted; try congruence; auto. }
  apply wp_if; intros Hk; [apply wp_ret; by eapply decides_stop|].
  apply wp_step. cbn [self fst snd]. apply wp_ret. destruct keep; [|done].
  destruct (port_forward_socket _); [exact (decides_stop _ _ _ _ _ Hd)|done].
Qed.

(** *** A connection that is authorised *)
Definition inside (w : World) : Prop := authorized (conn w) = true ∧ awaiting_2fa (conn w) = false.
Definition kept_inside (w w' : World) : Prop := inside w' ∧ salted (conn w') = salted (conn w).

Lemma inside_core w w' : inside w → same_core w w' → kept_inside w w'.
Proof.
  unfold inside, kept_inside, same_core, core, salted. intros [Ha Hw] [= C1 C2 C3 C4 C5 C6].
  split; [split|]; congruence.
Qed.

Lemma logon_inside w : authorized (conn w) = true → send_logon_response_and_keep_alive E w = (true, w).
Proof. intros Ha. unfold send_logon_response_and_keep_alive, mbind, conn_bind. cbn. by rewrite Ha. Qed.

Lemma switch_inside uuid l w : inside w → kept_inside w (on_switch_sides_response E uuid (Some l) w).2.
Proof.
  intros Hin. pose proof (switch_spec uuid l w) as Hsp. unfold wp in Hsp.
  destruct (on_switch_sides_response E uuid (Some l) w) as [keep w']. cbn [fst snd] in *.
  destruct Hsp as [Hc|(_ & w1 & keep1 & w2 & Hs & Hl & Hc & _)]; [by apply inside_core|].
  destruct Hin as [Ha Hw]. unfold switched, core in Hs. injection Hs as C1 C2 C3 C4 C5 C6.
  rewrite logon_inside in Hl by congruence. injection Hl as <- <-.
  unfold same_core, core in Hc. injection Hc as D1 D2 D3 D4 D5 D6.
  unfold kept_inside, inside, salted. split; [split|]; congruence.
Qed.

Lemma accept_inside w : inside w → kept_inside w (on_authorize E w).2.
Proof.
  intros Hin. apply (inside_core w); [done|]. unfold on_authorize.
  change (wp (set_primary ClickAuth;;
    set (λ c, c <| trusted_device := None |> <| require_2fa := None |>);;
    keep ← send_logon_response_and_keep_alive E;
    if negb keep then mret false else socket ← self port_forward_socket; mret (negb socket))
    (λ _ w', same_core w w') w).
  apply wp_bind, (wp_leaves same_core); [unfold set_primary; same_core|]. intros ? w1 H1'.
  apply wp_bind, (wp_leaves same_core); [same_core|]. intros ? w2 H2'.
  assert (same_core w w2) as Hc by by etrans.
  apply wp_step. rewrite logon_inside.
  2:{ destruct Hin as [Ha _]. unfold same_core, core in Hc. congruence. }
  apply wp_step. by apply wp_ret.
Qed.

Lemma code_inside code trust w : inside w → on_auth_2fa E code trust w = (true, w).
Proof. intros [_ Hw]. unfold on_auth_2fa, mbind, conn_bind. cbn. by rewrite Hw. Qed.

(** *** Any message *)

(** What a message of the peer is let in on, in the state it meets. *)
Definition peer_admits (m : Message) (w : World) : Prop :=
  match m with
  | Some (LoginRequestMsg l) => proves E w l ∧ second_factor E w l
  | Some (Auth2fa code _) => awaiting_2fa (conn w) = true ∧ right_code code w
  | Some (SwitchSidesResponse uuid (Some l)) => fresh_uuid uuid l w
  | _ => False
  end.
Definition peer_waits (m : Message) (w : World) : Prop :=
  match m with Some (LoginRequestMsg l) => proves E w l | _ => awaiting_2fa (conn w) = true end.

(** [on_message] of an unauthorised connection. *)
Definition before_login (m : Message) : Conn bool :=
  match m with
  | Some (LoginRequestMsg l) => on_login_request E l
  | Some (Auth2fa code trust) => on_auth_2fa E code trust
  | Some (TestDelay from_client) => on_test_delay E from_client;; mret true
  | Some (SwitchSidesResponse uuid l) => on_switch_sides_response E uuid l
  | Some (MiscMsg (Some (CloseReason _))) =>
      on_close true;; key ← self session_key; check_remove_session key;; mret false
  | _ => mret true
  end.
Lemma message_before_login m w : authorized (conn w) = false → on_message E m w = before_login m w.
Proof.
  intros Ha. unfold on_message, before_login.
  destruct m as [[]|]; try (unfold mbind, conn_bind; cbn; rewrite Ha; reflexivity).
  destruct m as [[]|]; try reflexivity; unfold mbind, conn_bind; cbn; rewrite Ha; reflexivity.
Qed.

Lemma message_outside m w : outside w → wp (on_message E m) (decides w (peer_admits m w) (peer_waits m w)) w.
Proof.
  intros Hout. unfold wp. rewrite message_before_login by apply Hout.
  assert (leaves same_core (before_login m) → peer_waits m w = (awaiting_2fa (conn w) = true) →
    decides w (peer_admits m w) (peer_waits m w) (before_login m w).1 (before_login m w).2) as Hsame.
  { intros Hm ->. by apply decides_same; [|apply Hm|]. }
  destruct m as [[]|]; try (apply Hsame; [unfold before_login; solve [same_core]|done]).
  - by apply login_spec.
  - match goal with o : option LoginRequest |- _ => destruct o as [l|] end; [by apply switch_outside|].
    apply Hsame; [|done]. unfold before_login, on_switch_sides_response. same_core.
  - by apply code_spec.
Qed.

(** [on_message] of an authorised connection. *)
Definition after_login (violation : option string) (socket : bool) (m : Message) : Conn bool :=
  match m with
  | Some (LoginRequestMsg _) => mret true
  | Some (MiscMsg (Some (CloseReason _))) => before_login m
  | _ =>
      match violation with
      | Some message => handle_authorized_scope_violation message
      | None =>
          match m with
          | Some (Auth2fa _ _ | TestDelay _ | SwitchSidesResponse _ _) => before_login m
          | _ => if socket then mret true else on_authorized_message E m
          end
      end
  end.
Lemma message_after_login m w :
  authorized (conn w) = true →
  on_message E m w =
  after_login (authorized_scope_violation (authed_conn_id (conn w)) m (clipboard_fast (conn w)))
    (port_forward_socket (conn w)) m w.
Proof.
  intros Ha. unfold on_message, after_login, before_login.
  destruct m as [[]|]; try (unfold mbind, conn_bind; cbn [self fst snd]; rewrite Ha; cbn [andb];
    first [reflexivity|by destruct (authorized_scope_violation _ _ _)]).
  destruct m as [[]|]; try reflexivity; unfold mbind, conn_bind; cbn [self fst snd]; rewrite Ha; cbn [andb];
    first [reflexivity|by destruct (authorized_scope_violation _ _ _)].
Qed.

Lemma message_inside m w : inside w → kept_inside w (on_message E m w).2.
Proof.
  intros Hin. rewrite message_after_login by apply Hin.
  generalize (authorized_scope_violation (authed_conn_id (conn w)) m (clipboard_fast (conn w))).
  generalize (port_forward_socket (conn w)). intros socket v.
  assert (leaves same_core (after_login v socket m) → kept_inside w (after_login v socket m w).2) as Hsame.
  { intros Hm. by apply inside_core. }
  destruct m as [[]|]; try (apply Hsame; unfold after_login, before_login; solve [same_core]).
  - destruct v; [apply Hsame; unfold after_login; same_core|].
    match goal with o : option LoginRequest |- _ => destruct o as [l|] end; [by apply switch_inside|].
    by apply inside_core.
  - destruct v; [apply Hsame; unfold after_login; same_core|].
    cbn [after_login before_login]. rewrite code_inside by done. by apply inside_core.
Qed.

End Model.

(** ** A connection and its events *)
Section History.
Context `{!Crypto, !Entropy, !Json, !TotpLib, !Tokens, !Site}.

(** What happens to a connection: a message of the peer, one of the connection manager,
    and anything that others do to the state they share with it. *)
Inductive Event : Type :=
| Peer (E : Env) (m : Message)
| Manager (E : Env) (m : CmMessage)
| Others (f : World → World).

Definition step (e : Event) (w : World) : bool * World :=
  match e with
  | Peer E m => on_receive E m w
  | Manager E m => on_cm E m w
  | Others f => (true, (f w) <| conn := conn w |> <| effects := effects w |>)
  end.

(** The events so far with the states they met, whether the loop goes on, and the state. *)
Definition history : Type := list (Event * World).
Inductive reaches (w0 : World) : history → bool → World → Prop :=
| reaches_start : reaches w0 [] true w0
| reaches_step h w e : reaches w0 h true w → reaches w0 (h ++ [(e, w)]) (step e w).1 (step e w).2.

Definition is_login (x : Event * World) : bool :=
  match x.1 with Peer _ (Some (LoginRequestMsg _)) => true | _ => false end.

(** The last login request answered the challenge. *)
Definition proved (h : history) : Prop :=
  ∃ h1 E l v h2, h = h1 ++ (Peer E (Some (LoginRequestMsg l)), v) :: h2 ∧ proves E v l ∧
    Forall (λ x, is_login x = false) h2.

(** What lets a connection in. *)
Definition admits (h : history) (e : Event) (v : World) : Prop :=
  match e with
  | Peer E (Some (LoginRequestMsg l)) => proves E v l ∧ second_factor E v l
  | Peer E (Some (Auth2fa code _)) => right_code E code v ∧ proved h
  | Peer E (Some (SwitchSidesResponse uuid (Some l))) => fresh_uuid E uuid l v
  | Manager _ Authorize => True
  | _ => False
  end.

Definition admitted (w0 : World) (h : history) : Prop :=
  ∃ h1 e v h2, h = h1 ++ (e, v) :: h2 ∧ authorized (conn v) = false ∧
    salted (conn v) = salted (conn w0) ∧ admits h1 e v.

Lemma proved_snoc h x : proved h → is_login x = false → proved (h ++ [x]).
Proof.
  intros (h1 & E & l & v & h2 & -> & Hp & HF) Hx. exists h1, E, l, v, (h2 ++ [x]).
  rewrite <- app_assoc. split; [done|]. split; [done|]. apply Forall_app; split; [done|by constructor].
Qed.
Lemma admitted_snoc w0 h x : admitted w0 h → admitted w0 (h ++ [x]).
Proof.
  intros (h1 & e & v & h2 & -> & Ha). exists h1, e, v, (h2 ++ [x]). by rewrite <- app_assoc.
Qed.

Record sound (w0 : World) (h : history) (alive : bool) (w : World) : Prop := {
  so_salted : salted (conn w) = salted (conn w0);
  so_waiting : alive = true → awaiting_2fa (conn w) = true → proved h;
  so_outside : alive = true → authorized (conn w) = false →
    from_switch (conn w) = false ∧ session_last_recv_time (conn w) = None;
  so_inside : authorized (conn w) = true → awaiting_2fa (conn w) = false ∧ admitted w0 h;
}.

Lemma sound_inside w0 h w x keep w' :
  sound w0 h true w → authorized (conn w) = true → kept_inside w w' → sound w0 (h ++ [x]) keep w'.
Proof.
  intros [S1 S2 S3 S4] Ha [[Ha' Hw'] Hs]. destruct (S4 Ha) as [_ Had].
  constructor; [congruence|congruence|congruence|]. intros _. split; [done|by apply admitted_snoc].
Qed.

Lemma sound_outside w0 h w e adm prv keep w' :
  sound w0 h true w → authorized (conn w) = false → decides w adm prv keep w' →
  (adm → admits h e w) → (prv → proved (h ++ [(e, w)])) → sound w0 (h ++ [(e, w)]) keep w'.
Proof.
  intros [S1 S2 S3 S4] Ha [D1 D2 D3 D4] Had Hpr.
  constructor; [congruence|by intros Hk Hw; apply Hpr, D3|done|].
  intros [Hw Hadm]%D2. split; [done|]. exists h, e, w, []. split; [done|]. split; [done|]. split; [done|]. auto.
Qed.

(** Noting the time of a message leaves the connection. *)
Lemma receive_conn E m w :
  ∃ w1, conn w1 = conn w ∧ on_receive E m w = on_message E m w1 ∧ effects w1 = effects w ∧
    (session_last_recv_time (conn w) = None → w1 = w).
Proof.
  unfold on_receive, mbind, conn_bind. cbn [self fst snd]. unfold when.
  destruct (session_last_recv_time (conn w)) as [t|]; cbn [change_world].
  - eexists. by split; [|split; [reflexivity|split; [reflexivity|]]].
  - by exists w.
Qed.

Lemma step_inside w e : inside w → kept_inside w (step e w).2.
Proof.
  intros Hin. destruct e as [E m|E m|f]; cbn [step].
  - destruct (receive_conn E m w) as (w1 & Hc & -> & _ & _).
    assert (inside w1) as Hin1 by (unfold inside; by rewrite Hc).
    destruct (message_inside E m w1 Hin1) as [? Hsa]. split; [done|by rewrite Hsa, Hc].
  - destruct (decide (m = Authorize)) as [->|Hne]; [by apply accept_inside|].
    apply inside_core; [done|by apply core_on_cm].
  - apply inside_core; [done|exact eq_refl].
Qed.

Lemma sound_step w0 h w e : sound w0 h true w → sound w0 (h ++ [(e, w)]) (step e w).1 (step e w).2.
Proof.
  intros Hs. destruct (authorized (conn w)) eqn:Ha.
  - assert (inside w) as Hin by (split; [done|by apply Hs]).
    eapply sound_inside; [done|done|by apply step_inside].
  - destruct (so_outside _ _ _ _ Hs eq_refl Ha) as [Hf Ht].
    assert (outside w) as Hout by done.
    assert (∀ keep w', same_core w w' → is_login (e, w) = false →
      sound w0 (h ++ [(e, w)]) keep w') as Hsame.
    { intros keep w' Hc Hl. eapply (sound_outside _ _ _ _ False (awaiting_2fa (conn w) = true)); [done|done|..].
      - by apply decides_same.
      - done.
      - intros Hw. apply proved_snoc; [by apply (so_waiting _ _ _ _ Hs)|done]. }
    destruct e as [E m|E m|f]; cbn [step].
    + destruct (receive_conn E m w) as (w1 & Hc & -> & _ & Heq). rewrite (Heq Ht).
      eapply sound_outside; [done|done|by apply message_outside| |].
      * destruct m as [[]|]; try done. intros [Hw Hr]. split; [done|]. by apply (so_waiting _ _ _ _ Hs).
      * destruct m as [[]|]; try (intros Hw; apply proved_snoc; [by apply (so_waiting _ _ _ _ Hs)|done]).
        intros Hp. by exists h, E, lr0, w, [].
    + destruct (decide (m = Authorize)) as [->|Hne]; [|by apply Hsame; [apply core_on_cm|]].
      eapply sound_outside; [done|done|by apply accept_outside|done|].
      intros Hw. apply proved_snoc; [by apply (so_waiting _ _ _ _ Hs)|done].
    + apply Hsame; [exact eq_refl|done].
Qed.

(** *** How it starts *)
Lemma start_sound E i ip secure control w w0 :
  start E i ip secure control w = (true, w0) → sound w0 [] true w0.
Proof.
  intros Hst.
  assert (wp (start E i ip secure control) (λ _ w', ∃ s c, core (conn w') = (false, false, false, s, c, None)) w) as Hc.
  { unfold start, new_connection. do 2 apply wp_bind. apply (wp_leaves (λ _ _, True)); [done|]. intros salt w1 _.
    apply wp_bind. apply (wp_leaves (λ _ _, True)); [done|]. intros challenge w2 _.
    apply wp_bind. apply (wp_leaves (λ _ _, True)); [done|]. intros totp w3 _.
    apply wp_step. cbn [get fst snd]. unfold wp at 1. cbn [set fst snd].
    set (w4 := _ <| conn := _ |>).
    assert (core (conn w4) = (false, false, false, salt, challenge, None)) as H4' by done. clearbody w4.
    eapply (wp_leaves same_core).
    - unfold on_open, check_whitelist, option_value, send_permission. same_core.
    - intros ? w5 H5'. exists salt, challenge. by rewrite H5'. }
  unfold wp in Hc. rewrite Hst in Hc. cbn in Hc. destruct Hc as (s & c & Hc).
  unfold core in Hc. injection Hc as C1 C2 C3 C4 C5 C6.
  constructor; [done|congruence|done|congruence].
Qed.

Lemma reaches_sound E i ip secure control w w0 h alive w' :
  start E i ip secure control w = (true, w0) → reaches w0 h alive w' → sound w0 h alive w'.
Proof. intros Hst Hr. induction Hr as [|h w1 e _ IH]; [by eapply start_sound|by apply sound_step]. Qed.

(** (C1) Nobody is let in without a proof.  Whatever messages the peer sends, whatever
    the connection manager says and whatever others change in the settings, sessions and
    passwords in between: if a connection is authorised, then one of its events let it
    in - the user accepted it; or the peer answered this connection's challenge with a
    password that was accepted at that moment and needed no code, had given one in the
    same session or came from a recognised device; or it gave the current code after
    such a password; or it returned a fresh identifier of this side's request to switch
    sides. *)
Theorem login_needs_credentials E i ip secure control w w0 h alive w' :
  start E i ip secure control w = (true, w0) → reaches w0 h alive w' →
  authorized (conn w') = true → admitted w0 h.
Proof.
  intros Hst Hr Ha. by apply (so_inside _ _ _ _ (reaches_sound _ _ _ _ _ _ _ _ _ _ Hst Hr)).
Qed.

End History.
End LoginProofs.
