(* ===== verification/SessionExamples.v ===== *)
(** * Concrete logins

    The libraries and settings instantiated with concrete functions, the witnesses of
    the theorems on logins, and examples of behaviour worth knowing. *)
From S2P Require Import Prelude RustStd RecordUpdate Secrets SecretsProofs ConfigStore Config2Store TrustedDevices.
From S2P Require Import SessionScope LoginGuard HostNames Session Login Dispatch LoginFrames LoginProofs.
From S2P Require TransportConfig TrustedTokens ConfigStoreProofs.
From Stdlib Require Import Ascii.

Module SessionExamples.
Export SecretsProofs.Toy LoginProofs.
#[export] Existing Instance TrustedTokens.Examples.toy_json.
#[export] Existing Instance TrustedTokens.Examples.toy_totp.
#[export] Existing Instance TrustedTokens.Examples.toy_tokens.

#[export] Instance site : Site := {|
  OVERWRITE_SETTINGS := ∅;
  DEFAULT_SETTINGS := ∅;
  BUILTIN_SETTINGS := ∅;
  HARD_SETTINGS := ∅;
  mac_address := None;
  hostname := None;
  lower_chars := λ s, b2z <$> as_bytes s;
  unicode_digit := λ _, false;
  folds_to_letter := λ _, false;
  cidr_contains := λ _ _, false;
|}.

Definition env (t : Z) : Env :=
  mkEnv t t false false false false NoImplementation true true "" None (λ _, None) false false false
    "service" (λ _, false) false false (λ _, false) false None true.

Definition no_conn : Connection :=
  mkConn 0 "" false "" "" None false false false false false "" false true None false None
    false false false false false false false false None None 0 false false false false false false
    false false default_login None None false false false false false None false true None None
    false false false NoAuth NoFactor "" false [] false false 0 0.

(** A host with a permanent password, and the options [o]. *)
Definition host_with (o : gmap string string) : Host :=
  let h := (set_permanent_password ∅ ∅ "secret" ConfigStoreProofs.Examples.fresh_host).2 in
  h <| TEMPORARY_PASSWORD := "abc123" |>
    <| CONFIG := (CONFIG h) <| Secrets.id := "123456789" |> |>
    <| CONFIG2 := (CONFIG2 h) <| net := TransportConfig.TransportConfig.with_options (net (CONFIG2 h)) o |> |>.

Definition world (o : gmap string string) : World :=
  mkWorld (host_with o) ∅ [] ("", 0) (λ _, ∅) [] ∅ ∅ no_conn [].

(** The answer of a peer that knows the password. *)
Definition answer (password : string) (c : Connection) : bytes :=
  sha256 (sha256 (as_bytes password ++ as_bytes (hash_salt c)) ++ as_bytes (hash_challenge c)).

Definition request (response : bytes) (u : option LoginUnion) : LoginRequest :=
  default_login <| username := "123456789" |> <| my_id := "987654321" |> <| my_name := "me" |>
                <| session_id := 7 |> <| version := "1.4.0" |> <| lr_password := response |> <| union := u |>.

Definition opened (o : gmap string string) : World := (start (env 1000) 1 "10.0.0.1" true None (world o)).2.
Definition login_event (password : string) (u : option LoginUnion) (w : World) : Event :=
  Peer (env 2000) (Some (LoginRequestMsg (request (answer password (conn w)) u))).

(** The history of a list of events and the state they lead to. *)
Fixpoint play (es : list (World → Event)) (w : World) : history * bool * World :=
  match es with
  | [] => ([], true, w)
  | e :: es =>
      let '(keep, w') := step (e w) w in
      if keep : bool then let '(h, alive, w'') := play es w' in ((e w, w) :: h, alive, w'')
      else ([(e w, w)], false, w')
  end.

Example right_password : authorized (conn (step (login_event "secret" None (opened ∅)) (opened ∅)).2) = true.
Proof. vm_compute. reflexivity. Qed.
Example temporary_password : authorized (conn (step (login_event "abc123" None (opened ∅)) (opened ∅)).2) = true.
Proof. vm_compute. reflexivity. Qed.
Example wrong_password : authorized (conn (step (login_event "guess" None (opened ∅)) (opened ∅)).2) = false.
Proof. vm_compute. reflexivity. Qed.

(** *** The second factor *)
Definition with_2fa : gmap string string := {["2fa" := "totp"]}.
Definition code_event (code : string) (w : World) : Event := Peer (env 3000) (Some (Auth2fa code false)).
Definition two_steps (code : string) : history * bool * World :=
  play [login_event "secret" None; code_event code] (opened with_2fa).

Example password_then_code :
  let '(h, _, w) := two_steps "123456" in
  (authorized ∘ conn ∘ snd) <$> h = [false; false] ∧ authorized (conn w) = true.
Proof. vm_compute. done. Qed.
Example password_then_wrong_code : authorized (conn (two_steps "000000").2) = false.
Proof. vm_compute. done. Qed.
Example code_without_password :
  authorized (conn (play [code_event "123456"] (opened with_2fa)).2) = false.
Proof. vm_compute. done. Qed.

(** A login with a password and a code, and what it rests on. *)
Lemma reaches_play es w0 w h h' alive w' :
  reaches w0 h true w → play es w = (h', alive, w') → reaches w0 (h ++ h') alive w'.
Proof.
  revert w h h' w'. induction es as [|e es IH]; intros w h h' w' Hr; cbn [play].
  { intros [= <- <- <-]. by rewrite app_nil_r. }
  pose proof (reaches_step w0 h w (e w) Hr) as Hs.
  destruct (step (e w) w) as [[] w1] eqn:He; cbn [fst snd] in Hs.
  - destruct (play es w1) as [[h2 alive2] w2] eqn:Hp. intros [= <- -> ->].
    replace (h ++ (e w, w) :: h2) with ((h ++ [(e w, w)]) ++ h2) by by rewrite <- app_assoc.
    by eapply IH.
  - by intros [= <- <- <-].
Qed.

Lemma reaches_played es w : reaches w (play es w).1.1 (play es w).1.2 (play es w).2.
Proof.
  pose proof (reaches_play es w w [] (play es w).1.1 (play es w).1.2 (play es w).2 (reaches_start w)) as Hr.
  apply Hr. by destruct (play es w) as [[??]?].
Qed.

Lemma forallb_Forall {A} (f : A → bool) l : forallb f l = true → Forall (λ x, f x = true) l.
Proof.
  induction l as [|x l IH]; [by constructor|]. cbn [forallb]. intros [Hx Hl]%andb_true_iff.
  constructor; [exact Hx|by apply IH].
Qed.
Lemma kept_result (p : bool * World) : p.1 = true → p = (true, p.2).
Proof. destruct p. cbn. by intros ->. Qed.

Lemma login_needs_credentials_witness :
  start (env 1000) 1 "10.0.0.1" true None (world with_2fa) = (true, opened with_2fa) ∧
  length (two_steps "123456").1.1 = 2%nat ∧ authorized (conn (two_steps "123456").2) = true ∧
  admitted (opened with_2fa) (two_steps "123456").1.1.
Proof.
  unfold two_steps.
  assert (start (env 1000) 1 "10.0.0.1" true None (world with_2fa) = (true, opened with_2fa)) as Hst.
  { apply kept_result. vm_compute. reflexivity. }
  assert (authorized (conn (play [login_event "secret" None; code_event "123456"] (opened with_2fa)).2) = true) as Ha by (vm_compute; reflexivity).
  split; [exact Hst|]. split; [vm_compute; reflexivity|]. split; [exact Ha|].
  apply (login_needs_credentials (env 1000) 1 "10.0.0.1" true None (world with_2fa) (opened with_2fa)
    _ (play [login_event "secret" None; code_event "123456"] (opened with_2fa)).1.2
    (play [login_event "secret" None; code_event "123456"] (opened with_2fa)).2); [exact Hst| |exact Ha].
  exact (reaches_played [login_event "secret" None; code_event "123456"] (opened with_2fa)).
Defined.

(** *** Behaviour worth knowing *)

(** A stored 2FA secret that cannot be opened - here it was sealed on another machine -
    leaves the login with the password alone. *)
Definition moved (w : World) : World := w <| host := (host w) <| machine_uid := Some (as_bytes "another") |>
                                                               <| CACHED_MACHINE_UID := None |> |>.
Example unreadable_2fa_is_none :
  let w := (start (env 1000) 1 "10.0.0.1" true None (moved (world with_2fa))).2 in
  authorized (conn (step (login_event "abc123" None w) w).2) = true.
Proof. vm_compute. done. Qed.

(** A permission that is switched before the connection is accepted subscribes it. *)
Example switched_before_login :
  let w := (step (Manager (env 2000) (SwitchPermission "clipboard" true)) (opened ∅)).2 in
  authorized (conn w) = false ∧ Subscribe ClipboardService true ∈ effects w.
Proof. vm_compute. split; [done|]. set_solver. Qed.

End SessionExamples.
