(* ===== verification/SessionEffects.v ===== *)
(** * What a connection may do

    The effects of a connection before it is authorised, and those of each message of
    an authorised one: they stay within the kind of session and the permissions. *)
From S2P Require Import Prelude RustStd RecordUpdate Secrets ConfigStore Config2Store TrustedDevices.
From S2P Require Import SessionScope LoginGuard HostNames Session Login Dispatch LoginFrames LoginProofs SessionExamples.
From Stdlib Require Import Ascii.

Module SessionEffects.
Export LoginProofs.

(** ** Before the login *)
Section Inert.
Context `{!Crypto, !Entropy, !Json, !TotpLib, !Tokens, !Site}.

(** What a connection that is not authorised may have done: said why it is not let in,
    told the user, answered a measurement, or ended. *)
Definition harmless (e : Effect) : bool :=
  match e with
  | SendPeer (HashSent _ _ | LoginErrorSent _ _ | PermissionSent _ _ | CloseReasonSent _ | TestDelaySent)
  | ToCm (CmLogin false | CmClose | CmDisconnected | CmCloseVoiceCall)
  | StartCmIpc | QosDelay _ | VoiceCallDevice | CloseSocket => true
  | _ => false
  end.

Definition emits (P : Effect → bool) (w w' : World) : Prop :=
  ∃ es, effects w' = effects w ++ es ∧ Forall (λ e, P e = true) es.
#[export] Instance emits_preorder P : PreOrder (emits P).
Proof.
  split.
  - intros w. exists []. by rewrite app_nil_r.
  - intros w1 w2 w3 (es & He & Hf) (es' & He' & Hf'). exists (es ++ es').
    rewrite He', He, app_assoc. split; [done|by apply Forall_app].
Qed.

(** Either the connection is authorised now, or nothing happened but harmless effects;
    [c_lock_after_session_end] is not set before the login. *)
Record inert (w w' : World) : Prop := {
  in_kept : authorized (conn w) = true → authorized (conn w') = true;
  in_harmless : authorized (conn w') = false →
    c_lock_after_session_end (conn w') = c_lock_after_session_end (conn w) ∧
    (c_lock_after_session_end (conn w) = false → emits harmless w w');
}.
#[export] Instance inert_preorder : PreOrder inert.
Proof.
  split; [intros w; split; [done|intros _; split; [done|reflexivity]]|].
  intros w1 w2 w3 [A1 A2] [B1 B2]. split; [auto|]. intros Hu3.
  assert (authorized (conn w2) = false) as Hu2 by (destruct (authorized (conn w2)) eqn:Ha; [rewrite B1 in Hu3|]; done).
  destruct (A2 Hu2) as [L1 E1], (B2 Hu3) as [L2 E2]. split; [congruence|]. intros Hl.
  etrans; [by apply E1|]. apply E2. congruence.
Qed.

Lemma inert_emit e : harmless e = true → leaves inert (emit e).
Proof.
  intros He. apply leaves_emit. intros w. split; [done|]. intros _. split; [done|]. intros _. exists [e].
  split; [done|by constructor].
Qed.
Lemma inert_effects w w' :
  effects w' = effects w → authorized (conn w') = authorized (conn w) →
  c_lock_after_session_end (conn w') = c_lock_after_session_end (conn w) → inert w w'.
Proof.
  intros He Ha Hl. split; [congruence|]. intros _. split; [done|]. intros _. exists []. by rewrite app_nil_r.
Qed.

Variable E : Env.

Ltac inert_leaf :=
  first [solve [auto 2 with inert nocore]
        |apply inert_emit; reflexivity
        |apply leaves_set; intros ?; by apply inert_effects
        |apply leaves_change; intros ?; by apply inert_effects
        |apply leaves_on_host; intros ?; by apply inert_effects
        |apply leaves_trying; intros ?; by apply inert_effects].
Ltac inert := leaves_with inert_leaf.
Create HintDb inert discriminated.
#[local] Hint Constants Opaque : inert.

Lemma inert_send_login_error e : leaves inert (send_login_error e).
Proof. unfold send_login_error. inert. Qed.
Lemma inert_try_start_cm_false : leaves inert (try_start_cm false).
Proof. unfold try_start_cm. inert. Qed.
Lemma inert_try_start_cm_ipc : leaves inert try_start_cm_ipc.
Proof. unfold try_start_cm_ipc. inert. Qed.
#[local] Hint Resolve inert_send_login_error inert_try_start_cm_false inert_try_start_cm_ipc : inert.

Lemma inert_tell_cm {A} (k : Conn A) : leaves inert k → leaves inert (a ← self authorized; try_start_cm a;; k).
Proof.
  intros Hk. change (leaves inert ((a ← self authorized; try_start_cm a) ≫= λ _, k)).
  apply (leaves_bind inert); [|done]. intros w. unfold try_start_cm, to_cm, mbind, conn_bind. cbn [self fst snd].
  destruct (clipboard_fast (conn w)); cbn; [reflexivity|].
  split; [done|]. cbn. intros Ha. split; [done|]. intros _. exists [ToCm (CmLogin (authorized (conn w)))].
  split; [done|]. rewrite Ha. by constructor.
Qed.

Lemma inert_on_close b : leaves inert (on_close b).
Proof.
  intros w. unfold on_close, to_cm, mbind, conn_bind. cbn [self fst snd].
  destruct (closed (conn w)); cbn; [reflexivity|].
  set (lock := b && c_lock_after_session_end (conn w) && _ && _).
  assert (c_lock_after_session_end (conn w) = false → lock = false) as Hlock.
  { unfold lock. intros ->. by rewrite andb_false_r. }
  destruct lock; cbn.
  { destruct (is_port_forward _); cbn; (split; [done|]); intros _; (split; [done|]); intros Hl; by specialize (Hlock Hl). }
  destruct (chat_unanswered _ || file_transferred _), (is_port_forward (conn w)); cbn; (split; [done|]); intros _; (split; [done|]);
    intros _; eexists; rewrite <- !app_assoc; (split; [reflexivity|]); repeat constructor.
Qed.
#[local] Hint Resolve inert_on_close : inert.

Lemma inert_check_login_scope l : leaves inert (check_login_scope l).
Proof. unfold check_login_scope. inert. Qed.
Lemma inert_get_2fa : leaves inert get_2fa.
Proof. unfold get_2fa, option_value. inert. Qed.
Lemma inert_check_failure i : leaves inert (check_failure E i).
Proof. unfold check_failure. inert. Qed.
Lemma inert_update_failure f r i : leaves inert (update_failure f r i).
Proof. unfold update_failure, with_failures. inert. Qed.
#[local] Hint Resolve inert_check_login_scope inert_get_2fa inert_check_failure inert_update_failure : inert.
Lemma inert_check_id_whitelist : leaves inert (check_id_whitelist E).
Proof. unfold check_id_whitelist, option_value, with_failures. inert. Qed.
Lemma inert_enter_scope l : leaves inert (enter_scope E l).
Proof. unfold enter_scope, permitted, check_privacy_mode_on. inert. Qed.
Lemma inert_update_session key p t : leaves inert (update_or_insert_session E key p t).
Proof.
  unfold update_or_insert_session. inert.
Qed.
Lemma inert_set_session key : leaves inert (set_session_2fa E key).
Proof. unfold set_session_2fa. inert. Qed.
Lemma inert_recent b : leaves inert (is_recent_session E b).
Proof. unfold is_recent_session, set_two_factor, set_primary. inert. Qed.
#[local] Hint Resolve inert_check_id_whitelist inert_enter_scope inert_update_session inert_set_session
  inert_recent : inert.
Lemma inert_check_update b : leaves inert (check_update_temporary_password b).
Proof. unfold check_update_temporary_password. inert. Qed.
#[local] Hint Resolve inert_check_update : inert.
Lemma inert_validate b : leaves inert (validate_password E b).
Proof. unfold validate_password, validate_temporary_password, validate_permanent_password, set_primary. inert. Qed.
Lemma inert_begin : leaves inert (begin_trusted_device E).
Proof. unfold begin_trusted_device, bool_option_value, from_login, set_two_factor. inert. Qed.
Lemma inert_check_trusted : leaves inert (check_trusted_device E).
Proof. unfold check_trusted_device. inert. Qed.
Lemma inert_prepare : leaves inert (prepare_terminal_login_for_authorization E).
Proof. unfold prepare_terminal_login_for_authorization. inert. Qed.
Lemma inert_connect : leaves inert (connect_port_forward_if_needed E).
Proof. unfold connect_port_forward_if_needed. inert. Qed.
#[local] Hint Resolve inert_validate inert_begin inert_check_trusted inert_prepare inert_connect : inert.

(** From here on the connection is authorised. *)
Lemma inert_authorize : leaves inert (authorize_connection;; respond E).
Proof.
  intros w. assert (authorized (conn ((authorize_connection;; respond E) w).2) = true) as Ha; [|by split; rewrite Ha].
  change (wp (authorize_connection;; respond E) (λ _ w', authorized (conn w') = true) w).
  apply wp_bind. eapply wp_mono; [apply authorize_spec|]. intros ? w1 [t Hc].
  apply (wp_leaves same_core); [apply core_respond|]. unfold same_core, core in *. intros ? w2 [= -> ????]. congruence.
Qed.
#[local] Hint Resolve inert_authorize : inert.
Lemma inert_logon : leaves inert (send_logon_response_and_keep_alive E).
Proof. unfold send_logon_response_and_keep_alive. leaves_using ltac:(apply inert_authorize) inert_leaf. Qed.
#[local] Hint Resolve inert_logon : inert.
Ltac inert_login := leaves_using ltac:(apply inert_tell_cm; inert) inert_leaf.
Lemma inert_authenticate l : leaves inert (authenticate E l).
Proof. unfold authenticate. inert_login. Qed.
#[local] Hint Resolve inert_authenticate : inert.
Lemma inert_on_login l : leaves inert (on_login_request E l).
Proof. unfold on_login_request, reset_session_scope_for_login, handle_login_request_without_validation. inert. Qed.
Lemma inert_on_auth_2fa code b : leaves inert (on_auth_2fa E code b).
Proof. unfold on_auth_2fa, set_two_factor. inert_login. Qed.
Lemma inert_on_switch uuid l : leaves inert (on_switch_sides_response E uuid l).
Proof.
  unfold on_switch_sides_response, reset_session_scope_for_login, handle_login_request_without_validation, set_primary.
  inert_login.
Qed.
Lemma inert_authorize_event : leaves inert (on_authorize E).
Proof. unfold on_authorize, set_primary. inert. Qed.
Lemma inert_remove_session key : leaves inert (check_remove_session key).
Proof. unfold check_remove_session. inert. Qed.
Lemma inert_test_delay b : leaves inert (on_test_delay E b).
Proof. unfold on_test_delay. inert. Qed.
#[local] Hint Resolve inert_on_login inert_on_auth_2fa inert_on_switch inert_authorize_event
  inert_remove_session inert_test_delay : inert.
Lemma inert_before_login m : leaves inert (before_login E m).
Proof. unfold before_login. inert. Qed.

(** What the user may do about a connection that is not let in: accept or close it. *)
Definition accept_or_close (m : CmMessage) : bool :=
  match m with Authorize | CloseRequest | CmWindowClosed | CmErr _ => true | _ => false end.
Lemma inert_on_cm m : accept_or_close m = true → leaves inert (on_cm E m).
Proof.
  intros Hm. unfold on_cm. destruct m; try done; unfold send_close_reason_no_retry; inert.
Qed.

End Inert.

Section Claims.
Context `{!Crypto, !Entropy, !Json, !TotpLib, !Tokens, !Site}.

Definition accepts_or_closes (x : Event * World) : bool :=
  match x.1 with Manager _ m => accept_or_close m | _ => true end.

Lemma inert_step w e :
  accepts_or_closes (e, w) = true → session_last_recv_time (conn w) = None → authorized (conn w) = false →
  inert w (step e w).2.
Proof.
  intros Ha Ht Hu. destruct e as [E m|E m|f]; cbn [step].
  - destruct (receive_conn E m w) as (w1 & _ & -> & _ & Heq). rewrite (Heq Ht), message_before_login by done.
    apply inert_before_login.
  - by apply inert_on_cm.
  - by apply inert_effects.
Qed.

Lemma start_emits E i ip secure control : leaves (emits harmless) (start E i ip secure control).
Proof.
  unfold start, new_connection, on_open, check_whitelist, get_2fa, option_value, send_permission, send_login_error.
  leaves_with ltac:(first
    [apply leaves_emit; intros ?; eexists; split; [reflexivity|by constructor]
    |apply leaves_set; intros ?; exists []; by rewrite app_nil_r
    |apply leaves_on_host; intros ?; exists []; by rewrite app_nil_r
    |apply leaves_trying; intros ?; exists []; by rewrite app_nil_r]).
Qed.

Definition same_lock (w w' : World) : Prop :=
  c_lock_after_session_end (conn w') = c_lock_after_session_end (conn w).
#[local] Instance same_lock_preorder : PreOrder same_lock.
Proof. split; [by intros w|]. unfold same_lock. intros ??? ??. congruence. Qed.
Lemma start_lock E i ip secure control w :
  wp (start E i ip secure control) (λ _ w', c_lock_after_session_end (conn w') = false) w.
Proof.
  unfold start, new_connection. do 2 apply wp_bind. apply (wp_leaves (λ _ _, True)); [done|]. intros salt w1 _.
  apply wp_bind. apply (wp_leaves (λ _ _, True)); [done|]. intros challenge w2 _.
  apply wp_bind. apply (wp_leaves (λ _ _, True)); [done|]. intros totp w3 _.
  apply wp_step. cbn [get fst snd]. unfold wp at 1. cbn [set fst snd]. set (w4 := _ <| conn := _ |>).
  assert (c_lock_after_session_end (conn w4) = false) as Hl by done. clearbody w4.
  eapply (wp_leaves same_lock); [|intros ? w5 H5'; by rewrite H5'].
  unfold on_open, check_whitelist, option_value, send_permission, send_login_error.
  leaves_with ltac:(first [apply leaves_emit; intros ?; exact eq_refl|apply leaves_set; intros ?; exact eq_refl]).
Qed.


End Claims.

Module Examples.
Import SessionExamples.

(** A wrong password and a measurement. *)
Definition attempts : list (World → Event) :=
  [login_event "guess" None; λ _, Peer (env 3000) (Some (TestDelay true))].

End Examples.
End SessionEffects.
