(* ===== verification/SessionScopeProofs.v ===== *)
(** * An authorised session stays in its scope

    [may] is what a message of the peer can cause in an authorised session, by the kind
    of the session and the permissions it has.  The preorder [within] bounds the effects
    of code that does not change these. *)
From S2P Require Import Prelude RustStd RecordUpdate Secrets ConfigStore Config2Store TrustedDevices.
From S2P Require Import SessionScope LoginGuard HostNames Session Login Dispatch LoginFrames LoginProofs SessionExamples SessionEffects.
From Stdlib Require Import Ascii.

Module SessionScopeProofs.
Export SessionEffects.
Ltac leaves_cases x ::= destruct x eqn:?.

Section Model.
Context `{!Crypto, !Entropy, !Json, !TotpLib, !Tokens, !Site}.

Definition is_kind (t : AuthConnType) (c : Connection) : bool :=
  match authed_conn_id c, t with
  | Some RemoteConn, RemoteConn | Some FileTransferConn, FileTransferConn
  | Some PortForwardConn, PortForwardConn | Some ViewCameraConn, ViewCameraConn
  | Some TerminalConn, TerminalConn => true
  | _, _ => false
  end.
Abbreviation remote := (is_kind RemoteConn).
Abbreviation camera := (is_kind ViewCameraConn).
Definition shows (c : Connection) : bool := remote c || camera c.

Definition may (c : Connection) (e : Effect) : bool :=
  match e with
  | InputMouse true _ | InputPointer | InputKey => remote c && peer_keyboard_enabled c
  | InputMouse false _ => remote c && c_show_my_cursor c
  | SetClipboard => remote c && clipboard_enabled c
  | Reboot => remote c && restart c
  | PrivacyOn | CloseOtherRemotes => remote c && c_privacy_mode c
  | PrivacyOff => remote c || camera c && negb (view_camera c)
  | BlockInput _ => remote c && keyboard c && c_block_input c
  | ChangeResolutionTo => shows c && keyboard c
  | RunConnect | Whiteboard _ | QosAutoAdjustFps _ => remote c
  | LockScreen => keyboard c
  | ReadFiles _ | ToCm (CmFileLog _) =>
      (remote c || is_kind FileTransferConn c) && bool_decide (is_Some (file_transfer c))
  | ToCm (CmFs s) =>
      (remote c || is_kind FileTransferConn c)
      && (bool_decide (is_Some (file_transfer c))
          || existsb (λ x, s ==s x) ["write_block"; "write_done"; "check_digest"; "write_error"])
  | TerminalDo | SendPeer TerminalResponseSent =>
      (remote c || is_kind TerminalConn c) && terminal_user_token c
  | TerminalPersist _ => remote c || is_kind TerminalConn c
  | ForwardChannel => (remote c || is_kind PortForwardConn c) && port_forward_mux c
  | Subscribe ClipboardService on => remote c && implb on (clipboard c && keyboard c)
  | Subscribe AudioService on => shows c && implb on (audio c)
  | Subscribe _ _ => remote c
  | QosImageQuality _ | QosCustomFps _ | QosRecord _ | FrameFetched | EncoderUpdate
  | SwitchDisplays | RefreshVideoFor | TakeScreenshot | SendPeer DisplayChangedSent
  | ToCm CmVoiceCallIncoming => shows c
  | StartAudio | PlayAudio => shows c && negb (c_disable_audio c)
  | SendPeer CursorDataSent => remote c
  | ToCm CmChat => shows c || is_kind TerminalConn c
  | AddMonitorConnection _ | AddCameraConnection | StartTerminalService | RemoveWallpaper | SetupRdpInput
  | ToCm (CmStartVoiceCall | CmSwitchPermission _ _)
  | SendPeer (LoginOkSent _ _ _ | InitedSent | ChatSent | SwitchBackSent | HashSent _ _ | PermissionSent _ _) => false
  | _ => true
  end.

(** What the code reads while it changes options. *)
Definition perms (c : Connection) : option AuthConnType * bool * bool * bool * bool * bool * bool :=
  (authed_conn_id c, keyboard c, clipboard c, audio c, c_block_input c, c_privacy_mode c, authorized c).

Definition within (c : Connection) (w w' : World) : Prop :=
  perms (conn w) = perms c → perms (conn w') = perms c ∧ emits (may c) w w'.
#[export] Instance within_preorder c : PreOrder (within c).
Proof.
  split; [intros w Hp; split; [done|reflexivity]|].
  intros w1 w2 w3 P1 P2 Hp. destruct (P1 Hp) as [Hp1 E1], (P2 Hp1) as [Hp2 E2]. split; [done|by etrans].
Qed.

Lemma within_emit c e : may c e = true → leaves (within c) (emit e).
Proof. intros He. apply leaves_emit. intros w Hp. split; [done|]. exists [e]. split; [done|by constructor]. Qed.
Lemma within_quiet c w w' : effects w' = effects w → perms (conn w') = perms (conn w) → within c w w'.
Proof. intros He Hp Hc. split; [congruence|]. exists []. by rewrite app_nil_r. Qed.

(** Code that looks at the connection of the moment. *)
Lemma within_self c {A} (k : Connection → Conn A) :
  (∀ d, perms d = perms c → leaves (within c) (k d)) → leaves (within c) (c ← self (λ c, c); k c).
Proof. intros Hk w Hp. by apply Hk. Qed.

Variable E : Env.
Variable c : Connection.

Ltac may_leaf :=
  first [done
        |cbn [may]; unfold shows in *;
         repeat match goal with H : _ && _ = true |- _ => apply andb_true_iff in H as [? ?] end;
         repeat match goal with H : ?x = true |- context [?x] => rewrite H end;
         by rewrite ?andb_true_r, ?orb_true_r].
Ltac within_leaf :=
  first [solve [auto 2 with within nocore]
        |apply within_emit; may_leaf
        |apply leaves_set; intros ?; by apply within_quiet
        |apply leaves_change; intros ?; by apply within_quiet
        |apply leaves_on_host; intros ?; by apply within_quiet
        |apply leaves_trying; intros ?; by apply within_quiet].
Ltac within := leaves_with within_leaf.
Create HintDb within discriminated.
#[local] Hint Constants Opaque : within.

Lemma perms_kind d t : perms d = perms c → is_kind t d = is_kind t c.
Proof. unfold perms, is_kind. by intros [= -> _ _ _ _ _ _]. Qed.

Lemma within_subscribe_clipboard : remote c = true → leaves (within c) subscribe_clipboard.
Proof.
  intros Hr. apply within_self. intros d [= _ Hk Hc _ _ _ _]. apply within_emit. cbn [may]. rewrite Hr. cbn [andb].
  unfold can_sub_clipboard_service, clipboard_enabled, peer_keyboard_enabled. rewrite Hk, Hc.
  by destruct (clipboard c), (keyboard c), (c_disable_clipboard d), (c_disable_keyboard d), (_ ==s "Y").
Qed.
Lemma within_subscribe_cursor : remote c = true → leaves (within c) subscribe_cursor.
Proof. intros Hr. apply within_self. intros d _. by apply within_emit. Qed.
Lemma within_subscribe_audio : shows c = true → leaves (within c) subscribe_audio.
Proof.
  intros Hr. apply within_self. intros d [= _ _ _ Ha _ _ _].
  assert (may c (Subscribe AudioService (audio_enabled d)) = true) as Hm.
  { cbn [may]. rewrite Hr. unfold audio_enabled. rewrite Ha. by destruct (audio c), (c_disable_audio d). }
  within.
Qed.
#[local] Hint Resolve within_subscribe_clipboard within_subscribe_cursor within_subscribe_audio : within.

(** *** Privacy mode *)
Lemma within_turn_on : leaves (within c) (turn_on_privacy E).
Proof.
  apply within_self. intros d [= He _ _ _ _ Hm _].
  destruct (_ || _) eqn:Hg; [by apply within_emit|].
  apply orb_false_iff in Hg as [Hr%negb_false_iff%bool_decide_eq_true Hp%negb_false_iff].
  assert (remote c && c_privacy_mode c = true) as Hc.
  { unfold is_kind. by rewrite <- He, <- Hm, Hr, Hp. }
  assert (remote c = true) as Hc' by by apply andb_true_iff in Hc as [? _].
  assert (may c PrivacyOff = true) by (cbn [may]; by rewrite Hc').
  within.
Qed.
Lemma within_toggle b :
  may c PrivacyOff = true → leaves (within c) (toggle_privacy_mode E b).
Proof.
  intros Hm. unfold toggle_privacy_mode. destruct b; [apply within_turn_on|]. unfold turn_off_privacy. within.
Qed.
#[local] Hint Resolve within_toggle : within.

(** *** Options *)

(** The fields a session may set: all of them, those of a camera, or that of a terminal. *)
Definition option_fits (o : OptionMessage) : Prop :=
  remote c = true ∨
  (shows c = true ∧ ∃ q f n s a, o = new_option <| image_quality := q |> <| custom_image_quality := n |>
     <| custom_fps := f |> <| supported_decoding := s |> <| disable_audio := a |>) ∨
  (is_kind TerminalConn c = true ∧ ∃ t, o = new_option <| terminal_persistent := t |>).

Lemma within_when {A} (o : option A) f :
  (∀ a, o = Some a → leaves (within c) (f a)) → leaves (within c) (when o f).
Proof. intros Hf. destruct o; [by apply Hf|]. cbn. within. Qed.

Lemma within_block_input q :
  remote c = true →
  leaves (within c) (c ← self (λ c, c);
    if keyboard c && c_block_input c then emit (BlockInput q) else send (BlockInputErrorSent q)).
Proof.
  intros Hr. apply within_self. intros d [= _ Hk _ _ Hb _ _]. rewrite Hk, Hb.
  destruct (keyboard c && c_block_input c) eqn:Hkb; [|by apply within_emit].
  apply within_emit. cbn [may]. by rewrite <- andb_assoc, Hkb, Hr.
Qed.

(** An option that is not set. *)
Lemma within_unset (f : bool → Conn unit) : leaves (within c) (when (chosen 0) f).
Proof. apply within_when. done. Qed.

Lemma within_update_options o : option_fits o → leaves (within c) (update_options E o).
Proof.
  intros [Hr|[(Hr & q & f & n & s & a & ->)|(Hr & t & ->)]]; unfold update_options.
  - assert (shows c = true) as Hs by (unfold shows; by rewrite Hr).
    assert (may c PrivacyOff = true) by (cbn [may]; by rewrite Hr).
    leaves_using ltac:(by apply within_block_input) within_leaf.
  - leaves_using ltac:(apply within_unset) within_leaf.
  - set (o := new_option <| terminal_persistent := t |>).
    assert (image_quality o = 0 ∧ custom_image_quality o = 0 ∧ custom_fps o = 0 ∧ supported_decoding o = None)
      as (-> & -> & -> & ->) by done.
    change (image_quality_value 0) with (Some QNotSet). change (0 <? 0) with false. cbn [when].
    cbv iota zeta beta. change (0 <? -1) with false. cbv iota.
    leaves_using ltac:(apply within_unset) within_leaf.
Qed.


Lemma scoped_camera_fits o o' :
  shows c = true → (scoped_view_camera_option o).1 = Some o' → option_fits o'.
Proof.
  intros Hs. unfold scoped_view_camera_option, then_some. cbn [fst]. case_match; [|done]. intros [= <-].
  right; left. split; [done|].
  destruct (bool_decide _), (0 <=? custom_image_quality o), (0 <=? custom_fps o), (bool_option (disable_audio o));
    match goal with |- ∃ _ _ _ _ _, ?r = _ =>
      exists (image_quality r), (custom_fps r), (custom_image_quality r), (supported_decoding r), (disable_audio r) end;
    reflexivity.
Qed.
Lemma scoped_terminal_fits o o' :
  is_kind TerminalConn c = true → (scoped_terminal_login_option o).1 = Some o' → option_fits o'.
Proof.
  intros Hs. unfold scoped_terminal_login_option, then_some.
  destruct (bool_option (terminal_persistent o)) as [b|]; cbn [fst].
  - case_match; [|done]. intros [= <-]. right; right. split; [done|]. by exists (of_bool_option b).
  - case_match; [|done]. intros [= <-]. right; right. split; [done|]. by exists 0.
Qed.

(** ** The messages *)

(** What the scope of the session lets through. *)
Definition passes (m : Message) : Prop :=
  authorized_scope_violation (authed_conn_id c) m (clipboard_fast c) = None.

(** Case analysis on the kind of the session: what [passes] refuses is closed. *)
Ltac by_kind Hv :=
  unfold passes in Hv;
  unfold shows, is_kind in *;
  destruct (authed_conn_id c) as [[| | | |]|] eqn:?; try discriminate Hv; try done.

(** Code that starts at the connection [c] itself. *)
Definition from {A} (m : Conn A) : Prop := ∀ w, conn w = c → within c w (m w).2.
Lemma from_leaves {A} (m : Conn A) : leaves (within c) m → from m.
Proof. intros Hm w _. apply Hm. Qed.
Lemma from_self {A} (k : Connection → Conn A) : leaves (within c) (k c) → from (c ← self (λ c, c); k c).
Proof. intros Hk w Hw. unfold mbind, conn_bind. cbn [self fst snd]. rewrite Hw. apply Hk. Qed.
Lemma from_self_from {A} (k : Connection → Conn A) : from (k c) → from (c ← self (λ c, c); k c).
Proof. intros Hk w Hw. unfold mbind, conn_bind. cbn [self fst snd]. rewrite Hw. by apply Hk. Qed.
Lemma from_go (m : Conn unit) : from m → from (m;; mret true).
Proof.
  intros Hm w Hw. specialize (Hm w Hw). unfold mbind, conn_bind. by destruct (m w).
Qed.

Lemma within_auto_disconnect : leaves (within c) (update_auto_disconnect_timer E).
Proof. unfold update_auto_disconnect_timer. within. Qed.
#[local] Hint Resolve within_auto_disconnect : within.

Lemma within_on_close b : leaves (within c) (on_close b).
Proof.
  apply within_self. intros d [= _ Hk _ _ _ _ _]. destruct (closed d); [within|].
  leaves_using ltac:(idtac; match goal with
    | |- leaves _ (if ?x && ?y then emit LockScreen else _) =>
        destruct x eqn:Hx, y; cbn [andb]; [|apply leaves_ret; exact _..];
        apply andb_true_iff in Hx as [_ Hx]; rewrite Hk in Hx; by apply within_emit
    | |- leaves _ (to_cm (if ?x then _ else _)) => destruct x; within end) within_leaf.
Qed.
#[local] Hint Resolve within_on_close : within.

Lemma within_remove_session key : leaves (within c) (check_remove_session key).
Proof. unfold check_remove_session. within. Qed.
#[local] Hint Resolve within_remove_session : within.

Lemma by_input m : m = MouseEvent ∨ m = PointerDeviceEvent ∨ m = KeyEvent → passes (Some m) → shows c = true.
Proof. intros [->|[->| ->]] Hv; by_kind Hv; by destruct (clipboard_fast c). Qed.
Lemma by_screen m :
  m = AudioFrame ∨ (∃ b, m = VoiceCallRequest b) ∨ m = ScreenshotRequest → passes (Some m) → shows c = true.
Proof. intros [->|[[b ->]| ->]] Hv; by_kind Hv; by destruct (clipboard_fast c). Qed.
Lemma by_file m :
  (∃ a, m = FileActionMsg a) ∨ (∃ r, m = FileResponse r) → passes (Some m) →
  remote c || is_kind FileTransferConn c = true.
Proof. intros [[a ->]|[r ->]] Hv; by_kind Hv. Qed.
Lemma by_terminal : passes (Some TerminalAction) → remote c || is_kind TerminalConn c = true.
Proof. intros Hv; by_kind Hv; by destruct (clipboard_fast c). Qed.
Lemma by_channel : passes (Some PortForwardChannel) → remote c || is_kind PortForwardConn c = true.
Proof. intros Hv; by_kind Hv; by destruct (clipboard_fast c). Qed.

(** Which [Misc] needs which session. *)
Lemma by_misc m :
  passes (Some (MiscMsg (Some m))) →
  match m with
  | SwitchDisplay | CaptureDisplays | TogglePrivacyMode _ | VideoReceived | AudioFormat | ChangeResolution
  | ChangeDisplayResolution | ClientRecordStatus _ | MessageQuery => shows c = true
  | ChatMessage => shows c || is_kind TerminalConn c = true
  | RestartRemoteDevice | SwitchSidesRequest _ | AutoAdjustFps _ | RequestCursorData _ => remote c = true
  | _ => True
  end.
Proof. intros Hv. destruct m; try done; by_kind Hv; by destruct (clipboard_fast c). Qed.

Lemma within_violation s : leaves (within c) (handle_authorized_scope_violation s).
Proof. unfold handle_authorized_scope_violation, bool_option_value, send_close_reason_no_retry. within. Qed.
Lemma within_pending i u : leaves (within c) (insert_pending_switch_sides_uuid E i u).
Proof. unfold insert_pending_switch_sides_uuid. within. Qed.
#[local] Hint Resolve within_violation within_pending : within.

Lemma rendering : should_handle_render_broadcast_message c = true → shows c = true.
Proof.
  unfold should_handle_render_broadcast_message, is_authed_remote_conn, is_authed_view_camera_conn, shows, is_kind.
  by destruct (authed_conn_id c) as [[| | | |]|].
Qed.
Lemma within_resolution_at :
  shows c = true →
  leaves (within c) ((if view_camera c then mret tt else change_resolution E);; mret true).
Proof.
  intros Hs. apply leaves_bind; [exact _| |intros; within]. destruct (view_camera c); [within|].
  apply within_self. intros d [= _ Hk _ _ _ _ _]. rewrite Hk.
  destruct (keyboard c && resolution_known E) eqn:Hb; [|within].
  apply andb_true_iff in Hb as [Hb _]. apply within_emit. cbn [may]. by rewrite Hs, Hb.
Qed.

Lemma from_misc m : passes (Some (MiscMsg m)) → from (on_misc E m).
Proof.
  intros Hv. destruct m as [m|]; [|apply from_self; within]. pose proof (by_misc m Hv) as Hk.
  apply from_self. destruct m; try solve [within].
  - (* OptionMisc *)
    apply leaves_bind; [exact _| |intros; within]. case_bool_decide as Hr.
    { apply within_update_options. left. unfold is_kind. by rewrite Hr. }
    apply within_when. intros o' Ho. apply within_update_options.
    unfold scoped_update_option_message in Ho. destruct (authed_conn_id c) as [[| | | |]|] eqn:Ht; try done.
    + eapply scoped_camera_fits; [|done]. unfold shows, is_kind. by rewrite Ht.
    + eapply scoped_terminal_fits; [|done]. unfold is_kind. by rewrite Ht.
  - assert (should_handle_render_broadcast_message c = true → shows c = true) as Hs by apply rendering.
    destruct (should_handle_render_broadcast_message c); [specialize (Hs eq_refl)|]; within.
  - apply within_resolution_at. done.
  - assert (should_handle_render_broadcast_message c = true → shows c = true) as Hs by apply rendering.
    destruct (should_handle_render_broadcast_message c); [specialize (Hs eq_refl)|]; within.
  - apply leaves_bind; [exact _| |intros; within]. destruct (view_camera c) eqn:Hvc; [within|].
    apply within_toggle. cbn [may]. unfold shows in Hk. rewrite Hvc. cbn. by rewrite andb_true_r.
  - by apply within_resolution_at.
Qed.

Lemma from_file_action a : remote c || is_kind FileTransferConn c = true → from (on_file_action E a).
Proof.
  intros Hk. apply from_self.
  destruct (bool_decide (is_Some (file_transfer c))) eqn:Hf; cbn [orb].
  { assert (may c (ReadFiles "") = true) as Hm by (cbn [may]; by rewrite Hk, Hf). cbn [negb].
    assert (∀ s, may c (ReadFiles s) = true) by done. assert (∀ s, may c (ToCm (CmFileLog s)) = true) by done.
    assert (∀ s, may c (ToCm (CmFs s)) = true) by (intros s; cbn [may]; by rewrite Hk, Hf).
    within. }
  destruct a as [a|]; [|within].
  destruct a; within.
Qed.

(** Input needs a remote session where it is not a camera's. *)
Lemma by_input_remote m :
  m = MouseEvent ∨ m = PointerDeviceEvent ∨ m = KeyEvent → passes (Some m) →
  is_authed_view_camera_conn c = false → remote c = true.
Proof.
  intros Hm Hv Hc. pose proof (by_input m Hm Hv) as Hs. revert Hs. unfold shows, is_kind.
  unfold is_authed_view_camera_conn in Hc. by destruct (authed_conn_id c) as [[| | | |]|].
Qed.

Lemma from_input m (x : Conn unit) :
  m = MouseEvent ∨ m = PointerDeviceEvent ∨ m = KeyEvent → passes (Some m) →
  (remote c = true → leaves (within c) x) →
  from ((if is_authed_view_camera_conn c then mret tt else x);; mret true).
Proof.
  intros Hm Hv Hx. pose proof (by_input_remote m Hm Hv) as Hr. apply from_leaves.
  destruct (is_authed_view_camera_conn c); [within|]. apply leaves_bind; [exact _|by apply Hx, Hr|intros; within].
Qed.

Lemma from_clipboard :
  from ((if should_handle_text_clipboard_message c && clipboard_enabled c then emit SetClipboard else mret tt);; mret true).
Proof.
  apply from_leaves. destruct (_ && _) eqn:Hb; [|within]. apply andb_true_iff in Hb as [Hr Hb].
  assert (remote c = true) as Hk.
  { apply bool_decide_eq_true in Hr. unfold is_kind. by rewrite Hr. }
  within.
Qed.

Lemma from_terminal : remote c || is_kind TerminalConn c = true → from (handle_terminal_action E).
Proof.
  intros Hk. apply from_self. destruct (terminal_user_token c) eqn:Ht; cbn [negb]; within.
Qed.
Lemma from_close_call : shows c = true → from close_voice_call.
Proof. intros Hk. apply from_leaves. unfold close_voice_call. within. Qed.
Lemma from_file_response r : remote c || is_kind FileTransferConn c = true → from (on_file_response r).
Proof.
  intros Hk. assert (∀ s, s ∈ ["write_block"; "write_done"; "check_digest"; "write_error"] →
    leaves (within c) (to_cm (CmFs s))) as Hs.
  { intros s Hs. apply within_emit. cbn [may]. rewrite Hk. cbn [andb].
    apply orb_true_iff. right. apply existsb_exists. exists s. split; [by apply list_elem_of_In|].
    by apply bool_decide_eq_true. }
  apply from_leaves. unfold on_file_response.
  leaves_using ltac:(apply Hs; set_solver) within_leaf.
Qed.

Lemma from_authorized m : passes m → from (on_authorized_message E m).
Proof.
  intros Hv. unfold on_authorized_message. apply from_self_from. destruct m as [m|]; [|apply from_leaves; within].
  destruct m; try solve [apply from_leaves; within].
  - eapply from_input; [|exact Hv|]; [auto|]. intros Hr. within.
  - assert (shows c = true) as Hk by (eapply by_screen; [|exact Hv]; auto). apply from_leaves. within.
  - eapply from_input; [|exact Hv|]; [auto|]. intros Hr. within.
  - apply from_clipboard.
  - apply from_go, from_file_action. eapply by_file; [|exact Hv]. eauto.
  - apply from_go, from_file_response. eapply by_file; [|exact Hv]. eauto.
  - by apply from_misc.
  - assert (shows c = true) as Hk by (eapply by_screen; [|exact Hv]; eauto).
    apply from_go. destruct connect; [apply from_leaves; within|by apply from_close_call].
  - eapply from_input; [|exact Hv|]; [auto|]. intros Hr. within.
  - apply from_clipboard.
  - assert (shows c = true) as Hk by (eapply by_screen; [|exact Hv]; auto). apply from_leaves. within.
  - by apply from_go, from_terminal, by_terminal.
  - pose proof (by_channel Hv) as Hk. apply from_leaves. within.
Qed.

(** ** Any message *)
Hypothesis authorised : authorized c = true.

Lemma within_logon : leaves (within c) (send_logon_response_and_keep_alive E).
Proof.
  intros w Hp. rewrite logon_inside; [by split|]. injection Hp as _ _ _ _ _ _ ->. done.
Qed.
Lemma within_failure f r i : leaves (within c) (update_failure f r i).
Proof. unfold update_failure, with_failures. within. Qed.
Lemma within_login_error e : leaves (within c) (send_login_error e).
Proof. unfold send_login_error. within. Qed.
#[local] Hint Resolve within_logon within_failure within_login_error : within.
Lemma within_check_failure i : leaves (within c) (check_failure E i).
Proof. unfold check_failure. within. Qed.
#[local] Hint Resolve within_check_failure : within.
Lemma within_id_whitelist : leaves (within c) (check_id_whitelist E).
Proof. unfold check_id_whitelist, option_value, with_failures. within. Qed.
Lemma within_try_start b : leaves (within c) (try_start_cm b).
Proof. unfold try_start_cm. within. Qed.
Lemma within_try_start_ipc : leaves (within c) try_start_cm_ipc.
Proof. unfold try_start_cm_ipc. within. Qed.
#[local] Hint Resolve within_id_whitelist within_try_start within_try_start_ipc : within.

Lemma within_code code b : leaves (within c) (on_auth_2fa E code b).
Proof. unfold on_auth_2fa, set_two_factor, set_session_2fa. within. Qed.
Lemma within_switch uuid l : leaves (within c) (on_switch_sides_response E uuid l).
Proof.
  unfold on_switch_sides_response, reset_session_scope_for_login, handle_login_request_without_validation, set_primary.
  within.
Qed.
Lemma within_delay b : leaves (within c) (on_test_delay E b).
Proof. unfold on_test_delay. within. Qed.
#[local] Hint Resolve within_code within_switch within_delay : within.
Lemma within_before m : (∀ l, m ≠ Some (LoginRequestMsg l)) → leaves (within c) (before_login E m).
Proof.
  intros Hm. unfold before_login. destruct m as [m|]; [|within].
  destruct m; try solve [within]. by destruct (Hm lr0).
Qed.

Lemma from_message m : from (on_message E m).
Proof.
  intros w Hw. rewrite message_after_login by by rewrite Hw. rewrite Hw.
  assert (∀ v socket, v = authorized_scope_violation (authed_conn_id c) m (clipboard_fast c) →
    from (after_login E v socket m)) as Hfrom; [|by apply Hfrom].
  intros v socket Hv. unfold after_login.
  assert (from match v with
    | Some message => handle_authorized_scope_violation message
    | None => match m with
              | Some (Auth2fa _ _ | TestDelay _ | SwitchSidesResponse _ _) => before_login E m
              | _ => if socket then mret true else on_authorized_message E m
              end
    end) as Hrest.
  { destruct v as [v|]; [apply from_leaves; within|].
    assert (from (if socket then mret true else on_authorized_message E m)) as Hon.
    { destruct socket; [apply from_leaves; within|by apply from_authorized]. }
    destruct m as [m|]; [|exact Hon]. destruct m; try exact Hon; apply from_leaves, within_before; done. }
  destruct m as [m|]; [|exact Hrest].
  destruct m; try exact Hrest; [apply from_leaves; within|].
  match goal with o : option Misc |- _ => destruct o as [x|] end; [|exact Hrest].
  destruct x; try exact Hrest. by apply from_leaves, within_before.
Qed.

End Model.

(** (C2) An authorised session stays in its scope.  Whatever message its peer sends,
    every effect is one that the kind of the session and its permissions admit: input
    and the clipboard only in a remote session with the permission, a restart, privacy
    mode and blocked input likewise; the screen only in remote and camera sessions; files
    only in a file-transfer session, but for blocks of a transfer the user began in a
    remote one; a terminal only where the login prepared one; forwarded channels only
    where forwarding was logged in for; and no service is subscribed for which the
    permission is missing. *)
Theorem session_stays_in_scope `{!Crypto, !Entropy, !Json, !TotpLib, !Tokens, !Site} E m w :
  authorized (conn w) = true → emits (may (conn w)) w (on_receive E m w).2.
Proof.
  intros Ha. destruct (receive_conn E m w) as (w1 & Hc & -> & Hef & _).
  destruct (from_message E (conn w) Ha m w1 Hc) as [_ (es & He & Hes)]; [by rewrite Hc|].
  exists es. by rewrite He, Hef.
Qed.
Module Examples.
Import SessionExamples.

(** A remote session in which the keyboard is permitted. *)
Definition remote_session : World :=
  (play [login_event "secret" None] (opened {["access-mode" := "full"]})).2.
Definition file_session : World :=
  (play [login_event "secret" (Some (FileTransfer "/" false false))] (opened {["access-mode" := "full"]})).2.

Example files_take_no_input :
  effects (on_receive (env 5000) (Some MouseEvent) file_session).2 = effects file_session.
Proof. vm_compute. done. Qed.

Lemma session_stays_in_scope_witness :
  authorized (conn remote_session) = true ∧
  InputMouse true false ∈ effects (on_receive (env 5000) (Some MouseEvent) remote_session).2 ∧
  emits (may (conn remote_session)) remote_session (on_receive (env 5000) (Some MouseEvent) remote_session).2.
Proof.
  assert (authorized (conn remote_session) = true) as Ha by (vm_compute; reflexivity).
  split; [exact Ha|]. split; [|exact (session_stays_in_scope (env 5000) (Some MouseEvent) remote_session Ha)].
  apply (list_elem_of_lookup_2 _ (length (effects remote_session))). vm_compute. reflexivity.
Defined.
End Examples.
End SessionScopeProofs.
