(* ===== verification/LoginLimits.v ===== *)
(** * Limits of a login

    A temporary password is replaced after ten wrong answers in a row, and the requests
    of one connection ask for one scope: the text that is hashed says what is asked for
    without ambiguity. *)
From S2P Require Import Prelude RustStd RecordUpdate Secrets ConfigStore Config2Store TrustedDevices.
From S2P Require Import SessionScope LoginGuard HostNames Session Login Dispatch LoginFrames LoginProofs SessionExamples.
From Stdlib Require Import Ascii.

Module LoginLimits.
Export LoginProofs.

Section Model.
Context `{!Crypto, !Entropy, !Json, !TotpLib, !Tokens, !Site}.

(** ** Wrong temporary passwords *)

(** A wrong answer, and the wrong answers the current password has had. *)
Definition wrong (w : World) : World := (check_update_temporary_password false w).2.
Definition failures_of (w : World) : Z :=
  if (TEMPORARY_PASSWORD_FAILURES w).1 ==s TEMPORARY_PASSWORD (host w)
  then (TEMPORARY_PASSWORD_FAILURES w).2 else 0.

Lemma wrong_counts w :
  temporary_allowed w = true → TEMPORARY_PASSWORD (host w) ≠ "" → failures_of w + 1 < MAX_CONSECUTIVE_FAILURES →
  host (wrong w) = host w ∧ failures_of (wrong w) = failures_of w + 1.
Proof.
  intros Ht Hp Hf. unfold wrong, check_update_temporary_password, mbind, conn_bind. cbn [get fst snd].
  unfold temporary_allowed in Ht. rewrite Ht. cbn [negb].
  destruct (is_empty (TEMPORARY_PASSWORD (host w))) eqn:He; [by destruct (TEMPORARY_PASSWORD (host w))|].
  unfold failures_of in *. destruct (TEMPORARY_PASSWORD_FAILURES w) as [p n]. cbn [fst snd] in *.
  destruct (Z.ltb_spec ((if p ==s TEMPORARY_PASSWORD (host w) then n else 0) + 1) MAX_CONSECUTIVE_FAILURES) as [_|]; [|lia].
  cbn. split; [done|]. by rewrite eqb_str_refl.
Qed.

Lemma wrong_replaces w :
  temporary_allowed w = true → TEMPORARY_PASSWORD (host w) ≠ "" → failures_of w + 1 = MAX_CONSECUTIVE_FAILURES →
  host (wrong w) = (update_temporary_password OVERWRITE_SETTINGS DEFAULT_SETTINGS (host w)).2 ∧ failures_of (wrong w) = 0.
Proof.
  intros Ht Hp Hf. unfold wrong, check_update_temporary_password, mbind, conn_bind. cbn [get fst snd].
  unfold temporary_allowed in Ht. rewrite Ht. cbn [negb].
  destruct (is_empty (TEMPORARY_PASSWORD (host w))) eqn:He; [by destruct (TEMPORARY_PASSWORD (host w))|].
  unfold failures_of in *. destruct (TEMPORARY_PASSWORD_FAILURES w) as [p n]. cbn [fst snd] in *.
  destruct (Z.ltb_spec ((if p ==s TEMPORARY_PASSWORD (host w) then n else 0) + 1) MAX_CONSECUTIVE_FAILURES) as [|_]; [lia|].
  unfold on_host. destruct (update_temporary_password _ _ (host w)) as [[] h]. cbn.
  split; [done|]. by rewrite eqb_str_refl.
Qed.

(** A temporary password takes at most ten wrong answers in a row.  From any count
    below ten, wrong answers leave the host as it is until the tenth, which draws a new
    password and starts the count again. *)
Theorem temporary_password_rotates w n :
  temporary_allowed w = true → TEMPORARY_PASSWORD (host w) ≠ "" →
  0 ≤ failures_of w < 10 → n = Z.to_nat (9 - failures_of w) →
  (∀ k, (k ≤ n)%nat → host (Nat.iter k wrong w) = host w ∧
                      failures_of (Nat.iter k wrong w) = failures_of w + Z.of_nat k) ∧
  host (Nat.iter (S n) wrong w) = (update_temporary_password OVERWRITE_SETTINGS DEFAULT_SETTINGS (host w)).2 ∧
  failures_of (Nat.iter (S n) wrong w) = 0.
Proof.
  intros Ht Hp Hf ->. set (n := Z.to_nat (9 - failures_of w)).
  assert (∀ k, (k ≤ n)%nat → host (Nat.iter k wrong w) = host w ∧
    failures_of (Nat.iter k wrong w) = failures_of w + Z.of_nat k) as Hk.
  { induction k as [|k IH]; intros Hk; [split; [done|cbn; lia]|].
    destruct IH as [Hh Hc]; [lia|]. change (Nat.iter (S k) wrong w) with (wrong (Nat.iter k wrong w)).
    destruct (wrong_counts (Nat.iter k wrong w)) as [Hh' Hc'].
    - unfold temporary_allowed. by rewrite Hh.
    - by rewrite Hh.
    - rewrite Hc. unfold MAX_CONSECUTIVE_FAILURES. lia.
    - split; [congruence|lia]. }
  split; [exact Hk|]. destruct (Hk n ltac:(lia)) as [Hh Hc]. change (Nat.iter (S n) wrong w) with (wrong (Nat.iter n wrong w)).
  rewrite <- Hh. apply wrong_replaces.
  - unfold temporary_allowed. by rewrite Hh.
  - by rewrite Hh.
  - rewrite Hc. unfold MAX_CONSECUTIVE_FAILURES. lia.
Qed.

(** ** The scope of the requests *)

(** What a request asks for; a port is read as 32 bits. *)
Definition scope_of (l : LoginRequest) : string * option LoginUnion :=
  (my_id l, match union l with
            | Some (PortForward host port multiplex) => Some (PortForward host (as_u32 port) multiplex)
            | u => u
            end).

(** Text that fits in memory. *)
Definition fits (b : bytes) : Prop := len b < 2 ^ 64.
Definition fitting (l : LoginRequest) : Prop :=
  fits (as_bytes (my_id l)) ∧
  match union l with
  | Some (FileTransfer dir _ _) => fits (as_bytes dir)
  | Some (Terminal service_id) => fits (as_bytes service_id)
  | Some (PortForward host _ _) => fits (as_bytes host)
  | _ => True
  end.

Lemma push_inj a b x y : fits a → fits b → push a ++ x = push b ++ y → a = b ∧ x = y.
Proof.
  unfold fits, push. intros Ha Hb. rewrite <- !app_assoc. intros Heq.
  apply app_inj_1 in Heq as [Hl Heq]; [|by rewrite !length_to_le_bytes].
  apply (f_equal from_le_bytes) in Hl. pose proof (len_nonneg a). pose proof (len_nonneg b).
  rewrite !from_to_le_bytes_small in Hl by lia.
  apply app_inj_1 in Heq; [done|]. unfold len in Hl. lia.
Qed.
Lemma push_inj_end a b : fits a → fits b → push a = push b → a = b.
Proof.
  intros Ha Hb Heq. apply (push_inj a b [] []); [done|done|]. by rewrite !app_nil_r.
Qed.
Lemma as_bytes_inj a b : as_bytes a = as_bytes b → a = b.
Proof. intros He. rewrite <- (of_as_bytes a), <- (of_as_bytes b). by rewrite He. Qed.

Lemma bool_byte_inj a b : bool_byte a = bool_byte b → a = b.
Proof. by destruct a, b. Qed.

Lemma fits_bool b : fits (bool_byte b).
Proof. by destruct b. Qed.
Lemma fits_port n z : (n ≤ 8)%nat → fits (to_le_bytes n z).
Proof. intros Hn. unfold fits, len. rewrite length_to_le_bytes. lia. Qed.

(** The hashed text determines the scope. *)
Lemma login_scope_bytes_inj l l' :
  fitting l → fitting l' → login_scope_bytes l = login_scope_bytes l' → scope_of l = scope_of l'.
Proof.
  intros [Hi Hu] [Hi' Hu'] Heq. unfold login_scope_bytes in Heq.
  apply push_inj in Heq as [Hid%as_bytes_inj Heq]; [|done..]. unfold scope_of. rewrite Hid. f_equal.
  destruct (union l) as [[d s f|h p m| |i]|], (union l') as [[d' s' f'|h' p' m'| |i']|].
  all: try done.
  all: try (apply push_inj in Heq as [Hk Heq]; [discriminate Hk|by vm_compute..]).
  - apply push_inj in Heq as [_ Heq]; [|by vm_compute..].
    apply push_inj in Heq as [Hd%as_bytes_inj Heq]; [|done..].
    apply push_inj in Heq as [Hs%bool_byte_inj Hf]; [|by apply fits_bool..].
    apply push_inj_end in Hf as Hf%bool_byte_inj; [|by apply fits_bool..]. by subst.
  - apply push_inj in Heq as [_ Heq]; [|by vm_compute..].
    apply push_inj in Heq as [Hd%as_bytes_inj Heq]; [|done..].
    apply push_inj in Heq as [Hp Hm]; [|apply fits_port; lia..].
    apply push_inj_end in Hm as Hm%bool_byte_inj; [|by apply fits_bool..]. subst. do 2 f_equal.
    apply (f_equal from_le_bytes) in Hp. rewrite !from_to_le_bytes in Hp. unfold as_u32 in *.
    change (256 ^ Z.of_nat 4) with (2 ^ 32) in Hp. by rewrite !Z.mod_mod in Hp.
  - apply push_inj in Heq as [_ Heq]; [|by vm_compute..].
    apply push_inj_end in Heq as Hd%as_bytes_inj; [|done..]. by subst.
Qed.

(** A connection is for one scope.  Once a login request was seen, a request for
    anything else - another id of the peer, another kind of session, another directory,
    service or forwarded target - is refused and ends the connection without changing
    who is let in, unless SHA-256 gives two different texts the same digest. *)
Theorem scope_is_latched E l l' w :
  fitting l → fitting l' → login_scope (conn w) = Some (login_scope_digest l) →
  scope_of l' ≠ scope_of l →
  ((on_login_request E l' w).1 = false ∧ authorized (conn (on_login_request E l' w).2) = authorized (conn w) ∧
   host (on_login_request E l' w).2 = host w) ∨
  (login_scope_bytes l ≠ login_scope_bytes l' ∧
   sha256 (login_scope_bytes l) = sha256 (login_scope_bytes l')).
Proof.
  intros Hf Hf' Hs Hne. destruct (decide (login_scope_digest l = login_scope_digest l')) as [He|He].
  - right. split; [|exact He]. intros Hb. apply Hne. symmetry. by apply login_scope_bytes_inj.
  - left. unfold on_login_request, check_login_scope, send_login_error, mbind, conn_bind. cbn [self fst snd].
    rewrite Hs. rewrite bool_decide_false by done. by cbn.
Qed.

End Model.

Module Examples.
Import SessionExamples.

Example ten_wrong_answers :
  let after n := TEMPORARY_PASSWORD (host (Nat.iter n wrong (opened ∅))) in
  (after 9%nat, bool_decide (after 10%nat = "abc123")) = ("abc123", false).
Proof. vm_compute. done. Qed.

Lemma temporary_password_rotates_witness :
  failures_of (opened ∅) = 0 ∧
  host (Nat.iter 10 wrong (opened ∅)) = (update_temporary_password ∅ ∅ (host (opened ∅))).2.
Proof.
  assert (failures_of (opened ∅) = 0) as Hc by (vm_compute; reflexivity).
  assert (temporary_allowed (opened ∅) = true) as Ht by (vm_compute; reflexivity).
  assert (TEMPORARY_PASSWORD (host (opened ∅)) ≠ "") as Hp by (vm_compute; discriminate).
  split; [exact Hc|].
  pose proof (temporary_password_rotates (opened ∅) 9 Ht Hp) as (_ & Hr & _); [rewrite Hc; lia|rewrite Hc; done|].
  exact Hr.
Defined.

(** A second request, for files, after one for the screen. *)
Definition asked : World := (step (login_event "guess" None (opened ∅)) (opened ∅)).2.
Definition for_screen : LoginRequest := request (answer "guess" (conn (opened ∅))) None.
Definition for_files : LoginRequest :=
  request (answer "secret" (conn (opened ∅))) (Some (FileTransfer "/" false false)).

Lemma scope_is_latched_witness :
  login_scope (conn asked) = Some (login_scope_digest for_screen) ∧
  (((on_login_request (env 4000) for_files asked).1 = false ∧
    authorized (conn (on_login_request (env 4000) for_files asked).2) = authorized (conn asked) ∧
    host (on_login_request (env 4000) for_files asked).2 = host asked) ∨
   (login_scope_bytes for_screen ≠ login_scope_bytes for_files ∧
    sha256 (login_scope_bytes for_screen) = sha256 (login_scope_bytes for_files))).
Proof.
  split; [vm_compute; done|].
  apply (scope_is_latched (env 4000) for_screen for_files asked).
  - split; vm_compute; done.
  - split; vm_compute; done.
  - vm_compute; done.
  - vm_compute. discriminate.
Defined.
End Examples.
End LoginLimits.
