(* ===== verification/SecureStream.v ===== *)
(** * The encrypted stream

    [Encrypt] of tcp.rs and the parts of the three transports of stream.rs
    (TCP, WebSocket and WebRTC) that decide what is encrypted, under which key and
    nonce.  A transport yields what arrived ([Item]); what is written is the bytes
    handed to it.  libsodium is the class [Sodium]; the boxes of [secretbox] are
    [Crypto] of Secrets.v. *)
From S2P Require Import Prelude RustStd RecordUpdate Secrets.

Module SecureStream.
Export Secrets.

(** [crypto::box_], [crypto::sign] and [crypto::generichash].  [box_seal message
    nonce their_pk our_sk], [box_open box nonce their_pk our_sk], [sign message sk],
    [verify signed pk]; [generichash outlen key input] is the keyed hash of all the
    input, [None] where libsodium refuses the lengths. *)
Class Sodium : Type := {
  box_seal : bytes → bytes → bytes → bytes → bytes;
  box_open : bytes → bytes → bytes → bytes → option bytes;
  sign : bytes → bytes → bytes;
  verify : bytes → bytes → option bytes;
  generichash : Z → bytes → bytes → option bytes;
}.

Definition PUBLICKEYBYTES : Z := 32.
Definition SIGN_PUBLICKEYBYTES : Z := 32.
Definition SIGN_SECRETKEYBYTES : Z := 64.
Definition BOX_NONCEBYTES : Z := 24.

(** Documented behaviour.  [BoxPair pk sk] and [SignPair pk sk]: the two were
    generated together. *)
Class SodiumLaws `{!Sodium} (BoxPair SignPair : bytes → bytes → Prop) : Prop := {
  box_open_seal m n pk sk pk' sk' :
    BoxPair pk sk → BoxPair pk' sk' → box_open (box_seal m n pk' sk) n pk sk' = Some m;
  verify_sign m pk sk : SignPair pk sk → verify (sign m sk) pk = Some m;
  generichash_total k m : len k = 32 → ∃ h, generichash 32 k m = Some h ∧ len h = 32;
}.

(** ** Key exchange versions *)
Definition KX_VERSION_LATEST : Z := 1.
Definition kx_version_for (advertised : Z) : Z := Z.min advertised KX_VERSION_LATEST.

Definition KX_SPLIT_CONTEXT : bytes := as_bytes "rdkx-spl".
Definition KX_SPLIT_INITIATOR : Z := 1.
Definition KX_SPLIT_RESPONDER : Z := 2.

Record KxTranscript : Type := mkTranscript {
  initiator_pk : bytes;
  responder_pk : bytes;
  advertised : Z;
  picked : Z;
}.
#[export] Instance transcript_eq_dec : EqDecision KxTranscript.
Proof. solve_decision. Defined.

(** The sending key, the two counters (u64), and the receiving key where it
    differs. *)
Record Encrypt : Type := mkEncrypt {
  send_key : bytes;
  sent : Z;
  received : Z;
  receive_key : option bytes;
}.
#[export] Instance eta_encrypt : Eta Encrypt := λ e,
  mkEncrypt (send_key e) (sent e) (received e) (receive_key e).
#[export] Instance encrypt_eq_dec : EqDecision Encrypt.
Proof. solve_decision. Defined.

(** [self.3.as_ref().unwrap_or(&self.0)] *)
Definition opening_key (e : Encrypt) : bytes := default (send_key e) (receive_key e).

Definition get_nonce (seqnum : Z) : bytes :=
  to_le_bytes 8 seqnum ++ replicate (Z.to_nat (NONCEBYTES - 8)) Byte.x00.

Section Model.
Context `{!Crypto, !Sodium}.

Definition new (key : bytes) : Encrypt := mkEncrypt key 0 0 None.

(** What [derive_subkey] feeds to the hash, part after part. *)
Definition subkey_input (direction : Z) (t : KxTranscript) : bytes :=
  KX_SPLIT_CONTEXT ++ [z2b direction] ++ to_le_bytes 4 (advertised t) ++
  to_le_bytes 4 (picked t) ++ initiator_pk t ++ responder_pk t.

Definition derive_subkey (key : bytes) (direction : Z) (t : KxTranscript) :
    result bytes string :=
  if negb (len (initiator_pk t) =? PUBLICKEYBYTES)
     || negb (len (responder_pk t) =? PUBLICKEYBYTES)
  then Err "key exchange transcript has a public key of the wrong length"
  else match generichash KEYBYTES key (subkey_input direction t) with
       | None => Err "key derivation failed"
       | Some h => Ok h
       end.

Definition new_split (key : bytes) (is_initiator : bool) (t : KxTranscript) :
    result Encrypt string :=
  let? initiator := derive_subkey key KX_SPLIT_INITIATOR t in
  let? responder := derive_subkey key KX_SPLIT_RESPONDER t in
  Ok (if is_initiator then mkEncrypt initiator 0 0 (Some responder)
      else mkEncrypt responder 0 0 (Some initiator)).

Definition dec (e : Encrypt) (frame : bytes) : result bytes string * Encrypt :=
  if len frame <=? 1 then (Ok frame, e)
  else
    let e := e <| received := as_u64 (received e + 1) |> in
    (match open_box frame (get_nonce (received e)) (opening_key e) with
     | Some m => Ok m
     | None => Err "decryption error"
     end, e).

Definition enc (e : Encrypt) (data : bytes) : bytes * Encrypt :=
  let e := e <| sent := as_u64 (sent e + 1) |> in
  (seal data (get_nonce (sent e)) (send_key e), e).

Definition decode (symmetric_data their_pk_b our_sk_b : bytes) : result bytes string :=
  if negb (len their_pk_b =? PUBLICKEYBYTES) then Err "Handshake failed: pk length"
  else
    match box_open symmetric_data (replicate (Z.to_nat BOX_NONCEBYTES) Byte.x00)
            their_pk_b our_sk_b with
    | None => Err "Handshake failed: box decryption failure"
    | Some key =>
        if negb (len key =? KEYBYTES)
        then Err "Handshake failed: invalid secret key length from peer"
        else Ok key
    end.

(** ** Streams *)

(** What a transport yields: a message (a TCP frame, a binary WebSocket message,
    a WebRTC message), a WebSocket text message, another WebSocket message, a close, an error, or nothing
    before the caller's timeout. *)
Inductive Item : Type :=
| Message (frame : bytes)
| Text (frame : bytes)
| Control
| Closed
| Failed (e : string)
| TimedOut.

(** A WebRTC stream has no key of its own; its fingerprints are [None] where the
    library cannot tell them. *)
Inductive Stream : Type :=
| WebRTC (peer_verified : bool) (local_fp remote_fp : option string)
| WebSocket (encrypt : option Encrypt)
| Tcp (encrypt : option Encrypt).
#[export] Instance stream_eq_dec : EqDecision Stream.
Proof. solve_decision. Defined.

Definition encrypt (s : Stream) : option Encrypt :=
  match s with WebRTC _ _ _ => None | WebSocket e | Tcp e => e end.

Definition with_encrypt (s : Stream) (e : option Encrypt) : Stream :=
  match s with
  | WebRTC v l r => WebRTC v l r
  | WebSocket _ => WebSocket e
  | Tcp _ => Tcp e
  end.

Definition set_key (key : bytes) (s : Stream) : Stream :=
  match s with
  | WebRTC _ l r => WebRTC true l r
  | WebSocket _ => WebSocket (Some (new key))
  | Tcp _ => Tcp (Some (new key))
  end.

Definition set_negotiated_key (key : bytes) (is_initiator : bool) (t : KxTranscript)
    (s : Stream) : result Stream string :=
  if picked t =? 0 then Ok (set_key key s)
  else if picked t =? 1 then
    match s with
    | WebRTC _ _ _ => Err "key exchange version 1 does not apply to WebRTC"
    | WebSocket _ =>
        let? e := new_split key is_initiator t in Ok (WebSocket (Some e))
    | Tcp _ => let? e := new_split key is_initiator t in Ok (Tcp (Some e))
    end
  else Err "unsupported key exchange version".

(** The cipher state only; raw framing is of BytesCodec.v. *)
Definition set_raw (s : Stream) : Stream := with_encrypt s None.

Definition is_secured (s : Stream) : bool :=
  match s with
  | WebRTC v _ _ => v
  | WebSocket e | Tcp e => bool_decide (is_Some e)
  end.

Definition is_webrtc (s : Stream) : bool :=
  match s with WebRTC _ _ _ => true | _ => false end.

Definition dtls_fingerprint (local : bool) (s : Stream) : option string :=
  match s with
  | WebRTC _ l r => if local then l else r
  | _ => None
  end.

(** [send_raw]: the bytes written, and the stream after it. *)
Definition seal_out (s : Stream) (msg : bytes) : bytes * Stream :=
  match encrypt s with
  | Some e => let '(out, e) := enc e msg in (out, with_encrypt s (Some e))
  | None => (msg, s)
  end.

(** What [next] makes of one message. *)
Definition open_in (s : Stream) (frame : bytes) : result bytes string * Stream :=
  match encrypt s with
  | Some e => let '(r, e) := dec e frame in (r, with_encrypt s (Some e))
  | None => (Ok frame, s)
  end.

(** What [next] resolves to; [Pending] when the timeout passes first. *)
Inductive Reading : Type :=
| Read (r : result bytes string)
| End
| Pending.

(** [next], over what the transport yields.  Only a WebSocket yields text or
    other messages, which the loop skips. *)
Fixpoint next (s : Stream) (arriving : list Item) : Reading * Stream * list Item :=
  match arriving with
  | [] => (End, s, [])
  | Closed :: rest => (End, s, rest)
  | TimedOut :: rest => (Pending, s, rest)
  | Failed e :: rest => (Read (Err e), s, rest)
  | Message frame :: rest => let '(r, s) := open_in s frame in (Read r, s, rest)
  | Text frame :: rest =>
      (Read (if is_secured s
             then Err "WebSocket text frame received after encryption was enabled"
             else Ok frame), s, rest)
  | Control :: rest => next s rest
  end.

(** ** Whole conversations *)

(** Messages sent one after another. *)
Fixpoint enc_all (e : Encrypt) (msgs : list bytes) : list bytes * Encrypt :=
  match msgs with
  | [] => ([], e)
  | m :: msgs =>
      let '(c, e) := enc e m in
      let '(cs, e) := enc_all e msgs in (c :: cs, e)
  end.

(** Frames read one after another. *)
Fixpoint dec_all (e : Encrypt) (frames : list bytes) : list (result bytes string) * Encrypt :=
  match frames with
  | [] => ([], e)
  | f :: frames =>
      let '(r, e) := dec e f in
      let '(rs, e) := dec_all e frames in (r :: rs, e)
  end.

End Model.
End SecureStream.
