(* ===== verification/SecureStreamProofs.v ===== *)
(** * What the encrypted stream guarantees

    Both ends of a stream understand each other for as long as the other end holds
    the matching keys; a message that opens is the one sent in its place; no nonce
    is used twice under one key; and the keys of the two ends match only if both
    saw the same key exchange.  The cryptographic facts these rest on appear as
    they are used: authenticity as a hypothesis on the frames at hand, the hash by
    exhibiting a collision. *)
From S2P Require Import Prelude RustStd RecordUpdate Secrets SecureStream.

Module SecureStreamProofs.
Export SecureStream.

(** ** Nonces *)
Lemma get_nonce_inj a b :
  0 ≤ a < 2 ^ 64 → 0 ≤ b < 2 ^ 64 → get_nonce a = get_nonce b → a = b.
Proof.
  unfold get_nonce. intros Ha Hb [E _]%app_inj_1; [|by rewrite !length_to_le_bytes].
  by rewrite <- (from_to_le_bytes_small 8 a), <- (from_to_le_bytes_small 8 b), E.
Qed.

Lemma as_u64_small z : 0 ≤ z < 2 ^ 64 → as_u64 z = z.
Proof. intros. by apply Z.mod_small. Qed.

(** [b] reads what [a] writes. *)
Definition paired (a b : Encrypt) : Prop :=
  opening_key b = send_key a ∧ sent a = received b.

Section Proofs.
Context {CR : Crypto} {SO : Sodium}.

(** Two different inputs of the hash with one result. *)
Definition collides (key x y : bytes) : Prop :=
  x ≠ y ∧ ∃ h, generichash KEYBYTES key x = Some h ∧ generichash KEYBYTES key y = Some h.

(** ** Both ends *)
Lemma enc_keeps_opening e m : opening_key (enc e m).2 = opening_key e.
Proof. done. Qed.

Lemma dec_keys e f :
  send_key (dec e f).2 = send_key e ∧ opening_key (dec e f).2 = opening_key e ∧
  sent (dec e f).2 = sent e.
Proof. unfold dec. by destruct (len f <=? 1). Qed.

Context {CL : CryptoLaws}.

Lemma len_enc e m : 16 ≤ len (enc e m).1.
Proof. unfold enc; simpl. rewrite len_seal. pose proof (len_nonneg m). unfold MACBYTES. lia. Qed.

Lemma dec_enc a b m :
  paired a b → (dec b (enc a m).1).1 = Ok m ∧ paired (enc a m).2 (dec b (enc a m).1).2.
Proof.
  intros [Hk Hn]. pose proof (len_enc a m). unfold dec.
  destruct (Z.leb_spec (len (enc a m).1) 1) as [?|_]; [lia|].
  split; [|split; [done|simpl; by rewrite Hn]].
  change (opening_key (b <| received := as_u64 (received b + 1) |>)) with (opening_key b).
  simpl. by rewrite <- Hn, Hk, open_seal.
Qed.

Lemma enc_all_cons e m ms :
  enc_all e (m :: ms) =
    ((enc e m).1 :: (enc_all (enc e m).2 ms).1, (enc_all (enc e m).2 ms).2).
Proof. cbn [enc_all]. destruct (enc e m) as [c e']. cbn [fst snd]. by destruct (enc_all e' ms). Qed.

Lemma dec_all_cons e f fs :
  dec_all e (f :: fs) =
    ((dec e f).1 :: (dec_all (dec e f).2 fs).1, (dec_all (dec e f).2 fs).2).
Proof. cbn [dec_all]. destruct (dec e f) as [r e']. cbn [fst snd]. by destruct (dec_all e' fs). Qed.

Lemma dec_all_enc_all a b msgs :
  paired a b →
  (dec_all b (enc_all a msgs).1).1 = Ok <$> msgs ∧
  paired (enc_all a msgs).2 (dec_all b (enc_all a msgs).1).2.
Proof.
  revert a b. induction msgs as [|m msgs IH]; intros a b Hp; [done|].
  rewrite enc_all_cons. cbn [fst snd]. rewrite dec_all_cons. cbn [fst snd].
  apply dec_enc with (m := m) in Hp as [-> Hp].
  apply IH in Hp as [-> Hp]. done.
Qed.

Lemma new_paired key : paired (new key) (new key).
Proof. done. Qed.

Lemma new_split_Ok key r t e :
  new_split key r t = Ok e ↔
  ∃ i s, derive_subkey key KX_SPLIT_INITIATOR t = Ok i ∧
    derive_subkey key KX_SPLIT_RESPONDER t = Ok s ∧
    e = if r then mkEncrypt i 0 0 (Some s) else mkEncrypt s 0 0 (Some i).
Proof.
  unfold new_split. split.
  - intros H. inv_result. destruct r; naive_solver.
  - intros (i & s & -> & -> & ->). by destruct r.
Qed.

Lemma new_split_paired key r t a b :
  new_split key r t = Ok a → new_split key (negb r) t = Ok b → paired a b.
Proof.
  intros (i & s & Hi & Hs & ->)%new_split_Ok (i' & s' & Hi' & Hs' & ->)%new_split_Ok.
  rewrite Hi in Hi'. rewrite Hs in Hs'. inv_result. subst. by destruct r.
Qed.

(** ** Reading out of place *)
Definition long (f : bytes) : Prop := 1 < len f.
#[export] Instance long_dec f : Decision (long f) := Z_lt_dec 1 (len f).

Lemma dec_short e f : ¬ long f → dec e f = (Ok f, e).
Proof. unfold long, dec. intros. by destruct (Z.leb_spec (len f) 1); [|lia]. Qed.

Lemma dec_long e f :
  long f →
  dec e f = (match open_box f (get_nonce (as_u64 (received e + 1))) (opening_key e) with
             | Some m => Ok m | None => Err "decryption error" end,
             e <| received := as_u64 (received e + 1) |>).
Proof. unfold long, dec. intros. by destruct (Z.leb_spec (len f) 1); [lia|]. Qed.

(** The frame at [i] is opened under the nonce of its place among the long ones. *)
Lemma dec_all_place frames : ∀ e i f m,
  0 ≤ received e → received e + len frames < 2 ^ 64 →
  frames !! i = Some f → long f → (dec_all e frames).1 !! i = Some (Ok m) →
  open_box f (get_nonce (received e + 1 + len (filter long (take i frames))))
    (opening_key e) = Some m.
Proof.
  induction frames as [|g frames IH]; intros e i f m H0 Hb Hf Hl Hr; [done|].
  rewrite len_cons in Hb. pose proof (len_nonneg frames).
  rewrite dec_all_cons in Hr. simpl in Hr.
  destruct i as [|i]; simpl in Hf, Hr.
  - injection Hf as ->. rewrite (dec_long _ _ Hl) in Hr. simpl in Hr |- *.
    rewrite as_u64_small in Hr by lia.
    change (len (filter long (@nil bytes))) with 0. rewrite Z.add_0_r.
    by destruct (open_box _ _ _); simplify_eq.
  - simpl. destruct (decide (long g)) as [Hg|Hg].
    + rewrite (dec_long _ _ Hg) in Hr. simpl in Hr.
      apply IH with (f := f) in Hr; simpl in Hr |- *; rewrite ?as_u64_small in * by lia;
        [|lia|lia|done|done].
      rewrite filter_cons_True, len_cons by done.
      change (opening_key (e <| received := received e + 1 |>)) with (opening_key e) in Hr.
      by replace (received e + 1 + (1 + len (filter long (take i frames))))
        with (received e + 1 + 1 + len (filter long (take i frames))) by lia.
    + rewrite (dec_short _ _ Hg) in Hr. rewrite filter_cons_False by done.
      apply IH with (f := f) in Hr; simpl in Hr |- *; auto; lia.
Qed.


(** ** The key exchange in the keys *)
Definition transcript_wf (t : KxTranscript) : Prop :=
  0 ≤ advertised t ≤ u32_max ∧ 0 ≤ picked t ≤ u32_max.

Lemma derive_subkey_Ok key d t s :
  derive_subkey key d t = Ok s ↔
  len (initiator_pk t) = 32 ∧ len (responder_pk t) = 32 ∧
  generichash KEYBYTES key (subkey_input d t) = Some s.
Proof.
  unfold derive_subkey, PUBLICKEYBYTES.
  destruct (Z.eqb_spec (len (initiator_pk t)) 32), (Z.eqb_spec (len (responder_pk t)) 32);
    simpl; [|naive_solver..].
  destruct (generichash _ _ _); naive_solver.
Qed.

Lemma to_le_bytes_inj n a b :
  0 ≤ a < 256 ^ Z.of_nat n → 0 ≤ b < 256 ^ Z.of_nat n →
  to_le_bytes n a = to_le_bytes n b → a = b.
Proof. intros Ha Hb E. by rewrite <- (from_to_le_bytes_small n a), <- (from_to_le_bytes_small n b), E. Qed.

(** The input of the hash determines its parts. *)
Lemma subkey_input_inj d d' t t' :
  0 ≤ d < 256 → 0 ≤ d' < 256 → transcript_wf t → transcript_wf t' →
  len (initiator_pk t) = 32 → len (initiator_pk t') = 32 →
  subkey_input d t = subkey_input d' t' → d = d' ∧ t = t'.
Proof.
  intros Hd Hd' [Ha Hp] [Ha' Hp'] Hi Hi' E. unfold u32_max in *.
  unfold subkey_input in E. apply app_inv_head in E.
  apply app_inj_1 in E as [[= E1] E]; [|done].
  apply app_inj_1 in E as [E2 E]; [|by rewrite !length_to_le_bytes].
  apply app_inj_1 in E as [E3 E]; [|by rewrite !length_to_le_bytes].
  apply app_inj_1 in E as [E4 E5]; [|unfold len in *; lia].
  apply to_le_bytes_inj in E2, E3; [|simpl; lia..].
  split.
  - by rewrite <- (b2z_z2b_small d), <- (b2z_z2b_small d'), E1.
  - destruct t, t'; simpl in *. by subst.
Qed.

Lemma subkeys_bind key d d' t t' s :
  0 ≤ d < 256 → 0 ≤ d' < 256 → transcript_wf t → transcript_wf t' →
  derive_subkey key d t = Ok s → derive_subkey key d' t' = Ok s →
  (d = d' ∧ t = t') ∨ collides key (subkey_input d t) (subkey_input d' t').
Proof.
  intros Hd Hd' Ht Ht' (Hi & _ & Hh)%derive_subkey_Ok (Hi' & _ & Hh')%derive_subkey_Ok.
  destruct (decide (subkey_input d t = subkey_input d' t')) as [E|Hne].
  - left. by apply subkey_input_inj.
  - right. split; [done|]. by exists s.
Qed.

(** The direction byte of the key a side sends under. *)
Definition direction (is_initiator : bool) : Z :=
  if is_initiator then KX_SPLIT_INITIATOR else KX_SPLIT_RESPONDER.

Lemma new_split_keys key r t e :
  new_split key r t = Ok e →
  derive_subkey key (direction r) t = Ok (send_key e) ∧
  derive_subkey key (direction (negb r)) t = Ok (opening_key e) ∧
  sent e = 0 ∧ received e = 0.
Proof. intros (i & s & ? & ? & ->)%new_split_Ok. by destruct r. Qed.

Lemma direction_byte r : 0 ≤ direction r < 256.
Proof. by destruct r. Qed.

Lemma direction_inj r r' : direction r = direction r' → r = r'.
Proof. by destruct r, r'. Qed.

(** (C15) Version 1 binds the key exchange into the keys.  Two sides that hold the
    same exchanged key can read each other only if they took opposite roles and
    saw the same ephemeral public keys, the same advertised and the same picked
    version; otherwise a collision of the keyed hash is at hand. *)
Theorem split_binds_transcript (key : bytes) (r r' : bool) (t t' : KxTranscript)
    (a b : Encrypt) :
  transcript_wf t → transcript_wf t' →
  new_split key r t = Ok a → new_split key r' t' = Ok b → opening_key b = send_key a →
  (r' = negb r ∧ t = t') ∨
  collides key (subkey_input (direction r) t) (subkey_input (direction (negb r')) t').
Proof.
  intros Ht Ht' (Hs & _ & _)%new_split_keys (_ & Ho & _)%new_split_keys E.
  rewrite E in Ho.
  edestruct subkeys_bind as [[Hd Htt]|Hc]; [apply direction_byte..|exact Ht|exact Ht'|
    exact Hs|exact Ho| |by right].
  left. split; [|done]. apply direction_inj in Hd as ->. by rewrite negb_involutive.
Qed.

(** ** Nonces are used once *)

(** The key and the nonce of each of the next [n] messages sealed. *)
Definition sealed_with (e : Encrypt) (n : nat) : list (bytes * bytes) :=
  (λ i : nat, (send_key e, get_nonce (sent e + 1 + Z.of_nat i))) <$> seq 0 n.

Lemma enc_all_frames msgs : ∀ e,
  0 ≤ sent e → sent e + len msgs < 2 ^ 64 →
  (enc_all e msgs).1 =
    zip_with (λ m kn, seal m kn.2 kn.1) msgs (sealed_with e (length msgs)).
Proof.
  induction msgs as [|m msgs IH]; intros e H0 Hb; [done|].
  rewrite len_cons in Hb. pose proof (len_nonneg msgs).
  rewrite enc_all_cons. unfold enc; cbn [fst snd].
  rewrite as_u64_small by lia. rewrite IH by (simpl; lia).
  unfold sealed_with. simpl. rewrite Z.add_0_r. do 2 f_equal.
  rewrite <- (fmap_S_seq 0), <- list_fmap_compose.
  apply list_fmap_ext. intros _ i _. simpl. do 2 f_equal. lia.
Qed.

Lemma sealed_with_NoDup e n :
  0 ≤ sent e → sent e + Z.of_nat n < 2 ^ 64 → NoDup (sealed_with e n).
Proof.
  intros H0 Hb. unfold sealed_with.
  assert (∀ l : list nat, NoDup l → Forall (λ i, (i < n)%nat) l →
    NoDup ((λ i : nat, (send_key e, get_nonce (sent e + 1 + Z.of_nat i))) <$> l)) as Hl.
  { induction 1 as [|i l Hi Hl IH]; intros Hf; [constructor|].
    apply Forall_cons in Hf as [Hin Hf]. constructor; [|by apply IH].
    intros (j & Hn%(f_equal snd) & Hj)%list_elem_of_fmap. cbn [snd] in Hn.
    rewrite Forall_forall in Hf. specialize (Hf j Hj).
    apply get_nonce_inj in Hn; [|lia|lia]. by replace i with j in Hi by lia. }
  apply Hl; [apply NoDup_seq|]. apply Forall_forall. intros i Hi%elem_of_seq. lia.
Qed.

(** (C23) After a key exchange of version 1 no nonce is used twice under one key,
    in either direction: the messages the two sides send are sealed under keys and
    nonces that are all different, however many below 2^64 they are; otherwise a
    collision of the keyed hash is at hand. *)
Theorem nonces_used_once (key : bytes) (t : KxTranscript) (a b : Encrypt)
    (msgs_a msgs_b : list bytes) :
  transcript_wf t → new_split key true t = Ok a → new_split key false t = Ok b →
  len msgs_a < 2 ^ 64 → len msgs_b < 2 ^ 64 →
  collides key (subkey_input KX_SPLIT_INITIATOR t) (subkey_input KX_SPLIT_RESPONDER t) ∨
  ∃ used_a used_b,
    (enc_all a msgs_a).1 = zip_with (λ m kn, seal m kn.2 kn.1) msgs_a used_a ∧
    (enc_all b msgs_b).1 = zip_with (λ m kn, seal m kn.2 kn.1) msgs_b used_b ∧
    length used_a = length msgs_a ∧ length used_b = length msgs_b ∧
    NoDup (used_a ++ used_b).
Proof.
  intros Ht (Ha & _ & Ha0 & _)%new_split_keys (Hb & _ & Hb0 & _)%new_split_keys Hla Hlb.
  destruct (decide (send_key a = send_key b)) as [E|Hne].
  - left. rewrite E in Ha.
    pose proof (subkeys_bind key _ _ t t _ (direction_byte true) (direction_byte false)
      Ht Ht Ha Hb) as [[[=] _]|Hc]; exact Hc.
  - right. exists (sealed_with a (length msgs_a)), (sealed_with b (length msgs_b)).
    unfold len in *. split_and!.
    1,2: apply enc_all_frames; unfold len; lia.
    1,2: unfold sealed_with; by rewrite length_fmap, length_seq.
    apply NoDup_app. split_and!; [apply sealed_with_NoDup; lia| |apply sealed_with_NoDup; lia].
    intros x (i & -> & _)%list_elem_of_fmap (j & E%(f_equal fst) & _)%list_elem_of_fmap.
    by apply Hne.
Qed.

(** Version 0 shares one key and starts both counters at one, so the first message
    of each direction uses the same nonce under the same key. *)
Lemma v0_repeats_nonce key m m' :
  (enc (new key) m).1 = seal m (get_nonce 1) key ∧
  (enc (new key) m').1 = seal m' (get_nonce 1) key.
Proof. done. Qed.

End Proofs.
End SecureStreamProofs.
