(* ===== verification/KeyExchange.v ===== *)
(** * The key exchanges

    Who ends up with which key on which stream: [Client::secure_connection] of
    client.rs for the controller, [identity_handshake] of server.rs for the
    controlled machine, and [key_exchange] of common.rs with the callers that make
    a connection to the rendezvous server.  A program runs on a [Wire]: its stream,
    what the transport will yield, what was written, which writes fail, the random
    draws so far, and the [Host] of Secrets.v where it reads the machine's identity.

    Protobuf is generated code and base64 a library: class [KxLibs]. *)
From S2P Require Import Prelude RustStd RecordUpdate Secrets ConfigStore SecureStream.

Module KeyExchange.
Export SecureStream.

(** ** Messages *)
Record IdPk : Type := mkIdPk {
  id : string;
  pk : bytes;
  dtls_fp : string;
  kx_version : Z;
}.

(** [Message] as the handshakes use it. *)
Inductive Msg : Type :=
| SignedId (signed : bytes)
| PublicKey (asymmetric_value symmetric_value : bytes) (version : Z)
| OtherUnion
| NoUnion.

(** [RendezvousMessage] as the handshake uses it. *)
Inductive RMsg : Type :=
| RKeyExchange (keys : list bytes) (version : Z) (signed_params : bytes)
| ROther.

Record KxParams : Type := mkParams { params_pk : bytes; params_version : Z }.

Class KxLibs : Type := {
  write_msg : Msg → bytes;
  parse_msg : bytes → option Msg;
  write_idpk : IdPk → bytes;
  parse_idpk : bytes → option IdPk;
  write_rmsg : RMsg → bytes;
  parse_rmsg : bytes → option RMsg;
  parse_params : bytes → option KxParams;
  decode64 : string → option bytes;
  gen_box_keypair : nat → bytes * bytes;   (* pk, sk *)
  gen_key : nat → bytes;
}.

(** What is written parses back; keys have their lengths. *)
Class KxLaws `{!KxLibs} (BoxPair : bytes → bytes → Prop) : Prop := {
  parse_signed_id s : parse_msg (write_msg (SignedId s)) = Some (SignedId s);
  parse_public_key a s v :
    0 ≤ v ≤ u32_max → parse_msg (write_msg (PublicKey a s v)) = Some (PublicKey a s v);
  parse_write_idpk i : 0 ≤ kx_version i ≤ u32_max → parse_idpk (write_idpk i) = Some i;
  gen_box_keypair_pair n : BoxPair (gen_box_keypair n).1 (gen_box_keypair n).2;
  len_gen_box_keypair n : len (gen_box_keypair n).1 = 32;
  len_gen_key n : len (gen_key n) = 32;
}.

Definition KX_PARAMS_DOMAIN : bytes := as_bytes "rdkx-params".
Definition RS_PUB_KEY : string := "".

(** ** Programs on a wire *)
Record Wire : Type := mkWire {
  stream : Stream;
  arriving : list Item;
  written : list bytes;
  write_fails : list bool;
  drawn : nat;
  host : Host;
}.
#[export] Instance eta_wire : Eta Wire := λ w,
  mkWire (stream w) (arriving w) (written w) (write_fails w) (drawn w) (host w).

Definition Kx (A : Type) : Type := Wire → result A string * Wire.
#[export] Instance kx_ret : MRet Kx := λ A a w, (Ok a, w).
#[export] Instance kx_bind : MBind Kx := λ A B k m w,
  let '(r, w) := m w in
  match r with Ok a => k a w | Err e => (Err e, w) end.

Definition bail {A} (e : string) : Kx A := λ w, (Err e, w).
Definition lift {A} (r : result A string) : Kx A := λ w, (r, w).
Definition asks {A} (f : Stream → A) : Kx A := λ w, (Ok (f (stream w)), w).
Definition on_host {A} (m : HostM A) : Kx A := λ w,
  let '(a, h) := m (host w) in (Ok a, w <| host := h |>).
Definition random {A} (f : nat → A) : Kx A := λ w,
  (Ok (f (drawn w)), w <| drawn := S (drawn w) |>).

Section Model.
Context `{!Crypto, !Entropy, !Sodium, !KxLibs}.

(** [conn.send(..).await?], with or without a timeout. *)
Definition send (msg : bytes) : Kx unit := λ w,
  let '(out, s) := seal_out (stream w) msg in
  let w := w <| stream := s |> <| write_fails := tail (write_fails w) |> in
  if default false (head (write_fails w)) then (Err "send failed", w)
  else (Ok tt, w <| written := written w ++ [out] |>).

(** [timeout(.., conn.next()).await?]; [None] is the end of the stream. *)
Definition recv : Kx (option (result bytes string)) := λ w,
  let '(r, s, rest) := next (stream w) (arriving w) in
  let w := w <| stream := s |> <| arriving := rest |> in
  match r with
  | Read r => (Ok (Some r), w)
  | End => (Ok None, w)
  | Pending => (Err "deadline has elapsed", w)
  end.

Definition negotiate (key : bytes) (is_initiator : bool) (t : KxTranscript) : Kx unit := λ w,
  match set_negotiated_key key is_initiator t (stream w) with
  | Ok s => (Ok tt, w <| stream := s |>)
  | Err e => (Err e, w)
  end.

(** ** Helpers of common.rs *)
Definition get_pk (p : bytes) : option bytes := if len p =? 32 then Some p else None.

Definition get_rs_pk (str_base64 : string) : option bytes :=
  match decode64 str_base64 with Some p => get_pk p | None => None end.

Definition decode_id_pk_dtls (signed key : bytes) :
    result (string * bytes * string * Z) string :=
  match verify signed key with
  | None => Err "Signature mismatch"
  | Some b =>
      match parse_idpk b with
      | None => Err "protobuf"
      | Some res =>
          match get_pk (pk res) with
          | Some p => Ok (id res, p, dtls_fp res, kx_version res)
          | None => Err "Wrong their public length"
          end
      end
  end.

Definition decode_id_pk (signed key : bytes) : result (string * bytes) string :=
  let? (i, p, _, _) := decode_id_pk_dtls signed key in Ok (i, p).

Definition dtls_fingerprint_bound (signed_fp actual_fp : string) : bool :=
  negb (is_empty signed_fp) && (signed_fp ==s actual_fp).

Definition ZERO_NONCE : bytes := replicate (Z.to_nat BOX_NONCEBYTES) Byte.x00.

(** The public value, the sealed key and the key. *)
Definition create_symmetric_key_msg (their_pk_b : bytes) : Kx (bytes * bytes * bytes) :=
  '(our_pk_b, out_sk_b) ← random gen_box_keypair;
  key ← random gen_key;
  mret (our_pk_b, box_seal key ZERO_NONCE their_pk_b out_sk_b, key).

(** ** The controller *)

(** The peer's signing key, where the rendezvous server vouches for it. *)
Definition trusted_sign_pk (peer_id : string) (signed_id_pk : bytes) (key : string) :
    option bytes :=
  match get_rs_pk (if is_empty key then RS_PUB_KEY else key) with
  | Some rs_pk =>
      match decode_id_pk signed_id_pk rs_pk with
      | Ok (i, p) => if i ==s peer_id then Some p else None
      | Err _ => None
      end
  | None => None
  end.

(** The body for an identity that verified. *)
Definition answer_identity (is_webrtc : bool) (their_pk_b : bytes) (signed_fp : string)
    (kx_version : Z) : Kx unit :=
  fp ← asks (dtls_fingerprint false);
  (if is_webrtc then
     match fp with
     | None => bail "WebRTC DTLS fingerprint unavailable"
     | Some actual_fp =>
         if dtls_fingerprint_bound signed_fp actual_fp then mret tt
         else bail "WebRTC DTLS fingerprint not bound to peer identity (possible MITM)"
     end
   else mret tt);;
  '(asymmetric_value, symmetric_value, key) ← create_symmetric_key_msg their_pk_b;
  let picked := if is_webrtc then 0 else kx_version_for kx_version in
  send (write_msg (PublicKey asymmetric_value symmetric_value picked));;
  negotiate key true (mkTranscript asymmetric_value their_pk_b kx_version picked).

(** A reply that is no identity: closed on WebRTC, answered elsewhere. *)
Definition refuse (is_webrtc : bool) (error : string) (reply : Msg) : Kx unit :=
  if is_webrtc then bail error else send (write_msg reply).

Definition secure_connection (peer_id : string) (signed_id_pk : bytes) (key : string) :
    Kx (option bytes) :=
  webrtc ← asks is_webrtc;
  match (if bool_decide (signed_id_pk = []) then None
         else trusted_sign_pk peer_id signed_id_pk key) with
  | None => send (write_msg NoUnion);; mret None
  | Some sign_pk =>
      res ← recv;
      match res with
      | None => bail "Reset by the peer"
      | Some res =>
          bytes ← lift res;
          match parse_msg bytes with
          | Some (SignedId si) =>
              match decode_id_pk_dtls si sign_pk with
              | Ok (i, their_pk_b, signed_fp, kx_version) =>
                  if i ==s peer_id
                  then answer_identity webrtc their_pk_b signed_fp kx_version
                  else refuse webrtc "WebRTC handshake id mismatch (possible MITM)" NoUnion
              | Err _ =>
                  refuse webrtc
                    "WebRTC peer identity could not be verified (refusing unbound channel)"
                    (PublicKey [] [] 0)
              end
          | Some _ => refuse webrtc "WebRTC handshake received an unexpected message type" NoUnion
          | None => refuse webrtc "WebRTC handshake received a malformed message" NoUnion
          end
      end;;
      mret (Some sign_pk)
  end.

(** ** The controlled machine *)
Section Host.
Context (BUILTIN_SETTINGS : gmap string string).
Context (mac_address : option (list Z)) (hostname : option string).

(** [PublicKey] of the controller, opened with the key pair of this handshake. *)
Definition accept_key (our_pk_b our_sk_b : bytes) (advertised : Z)
    (asymmetric_value symmetric_value : bytes) (version : Z) : Kx unit :=
  if len asymmetric_value =? PUBLICKEYBYTES then
    key ← lift (decode symmetric_value asymmetric_value our_sk_b);
    if advertised <? version
    then bail "Handshake failed: key exchange version not offered"
    else negotiate key false (mkTranscript asymmetric_value our_pk_b advertised version)
  else if bool_decide (asymmetric_value = [])
  then on_host (ConfigStore.set_key_confirmed false)
  else bail "Handshake failed: invalid public sign key length from peer".

(** The reply to our identity. *)
Definition await_key (our_pk_b our_sk_b : bytes) (advertised : Z) : Kx unit :=
  res ← recv;
  match res with
  | None => bail "Failed to receive public key"
  | Some res =>
      bytes ← lift res;
      match parse_msg bytes with
      | Some (PublicKey asymmetric_value symmetric_value version) =>
          accept_key our_pk_b our_sk_b advertised asymmetric_value symmetric_value version
      | Some _ => mret tt
      | None => bail "Handshake failed: invalid message format"
      end
  end.

Definition identity_handshake (secure : bool) : Kx unit :=
  '(sk, pk) ← on_host get_key_pair;
  if secure && (len pk =? SIGN_PUBLICKEYBYTES) && (len sk =? SIGN_SECRETKEYBYTES) then
    '(our_pk_b, our_sk_b) ← random gen_box_keypair;
    fp ← asks (dtls_fingerprint true);
    let dtls_fingerprint := default "" fp in
    webrtc ← asks is_webrtc;
    if webrtc && is_empty dtls_fingerprint
    then bail "WebRTC local DTLS fingerprint unavailable"
    else
      let advertised := if webrtc : bool then 0 else KX_VERSION_LATEST in
      my_id ← on_host (ConfigStore.get_id BUILTIN_SETTINGS mac_address hostname);
      send (write_msg (SignedId
        (sign (write_idpk (mkIdPk my_id our_pk_b dtls_fingerprint advertised)) sk)));;
      await_key our_pk_b our_sk_b advertised
  else mret tt.
End Host.

(** ** The rendezvous server's exchange *)

(** The version and key the server signed, where it must have. *)
Definition check_params (rs_pk their_pk_b : bytes) (version : Z) (signed_params : bytes) :
    result unit string :=
  if negb (Z.land (b2z (default Byte.x00 (their_pk_b !! 31%nat))) 0x80 =? 0)
     || negb (bool_decide (signed_params = []))
  then
    match (signed ← verify signed_params rs_pk;
           if bool_decide (KX_PARAMS_DOMAIN `prefix_of` signed)
           then parse_params (drop (length KX_PARAMS_DOMAIN) signed) else None) with
    | None => Err "Missing or invalid signed key exchange parameters"
    | Some params =>
        if bool_decide (params_pk params ≠ their_pk_b) || negb (params_version params =? version)
        then Err "Key exchange version or public key does not match its signature"
        else Ok tt
    end
  else Ok tt.

Definition key_exchange (key : string) : Kx bool :=
  match get_rs_pk key with
  | None => bail "Handshake failed: invalid public key from rendezvous server"
  | Some rs_pk =>
      res ← recv;
      match res with
      | Some (Ok bytes) =>
          match parse_rmsg bytes with
          | Some (RKeyExchange keys version signed_params) =>
              match keys with
              | [signed] =>
                  match verify signed rs_pk with
                  | None => bail "Signature mismatch in key exchange"
                  | Some their_pk_b =>
                      match get_pk their_pk_b with
                      | None => bail "Wrong their public length in key exchange"
                      | Some their_pk_b =>
                          lift (check_params rs_pk their_pk_b version signed_params);;
                          '(asymmetric_value, symmetric_value, key) ←
                            create_symmetric_key_msg their_pk_b;
                          let picked := kx_version_for version in
                          send (write_rmsg
                            (RKeyExchange [asymmetric_value; symmetric_value] picked []));;
                          negotiate key true
                            (mkTranscript asymmetric_value their_pk_b version picked);;
                          mret true
                      end
                  end
              | _ => bail "Handshake failed: invalid key exchange message"
              end
          | _ => mret false
          end
      | _ => mret false
      end
  end.

Definition secure_tcp_impl (use_ws : bool) (key : string) : Kx unit :=
  if use_ws then mret tt else key_exchange key;; mret tt.

Definition secure_tcp (use_ws : bool) (key : string) : Kx unit := secure_tcp_impl use_ws key.

Definition secure_tcp_required (use_ws : bool) (key : string) : Kx unit :=
  if use_ws then mret tt
  else
    secured ← key_exchange key;
    if secured : bool then mret tt
    else bail "the rendezvous server did not complete the key exchange".

End Model.
End KeyExchange.
