(* ===== verification/KeyExchangeProofs.v ===== *)
(** * What the key exchanges guarantee

    A controller keys its stream only for the machine it asked for; two honest ends
    over a faithful wire end up reading each other; a call that requires encryption
    returns only with it. *)
From S2P Require Import Prelude RustStd RecordUpdate Secrets ConfigStore SecureStream.
From S2P Require Import SecureStreamProofs KeyExchange.

Module KeyExchangeProofs.
Export SecureStreamProofs KeyExchange.

Section Proofs.
Context {CR : Crypto} {EN : Entropy} {SO : Sodium} {KL : KxLibs}.

(** ** Reasoning about programs on a wire *)
Lemma bind_run {A B} (m : Kx A) (k : A → Kx B) w :
  (m ≫= k) w = match (m w).1 with Ok a => k a (m w).2 | Err e => (Err e, (m w).2) end.
Proof. unfold mbind, kx_bind. by destruct (m w). Qed.

Lemma bind_Ok {A B} (m : Kx A) (k : A → Kx B) w b w' :
  (m ≫= k) w = (Ok b, w') → ∃ a w1, m w = (Ok a, w1) ∧ k a w1 = (Ok b, w').
Proof. rewrite bind_run. destruct (m w) as [[a|e] w1]; simpl; [eauto|discriminate]. Qed.

Lemma recv_Ok w r w' :
  recv w = (Ok r, w') →
  write_fails w' = write_fails w ∧ written w' = written w ∧ drawn w' = drawn w ∧
  host w' = host w ∧
  (is_secured (stream w) = false → is_webrtc (stream w) = false → stream w' = stream w) ∧
  (is_webrtc (stream w) = true → stream w' = stream w).
Proof.
  unfold recv. destruct (next (stream w) (arriving w)) as [[x s] rest] eqn:E.
  assert ((is_secured (stream w) = false → is_webrtc (stream w) = false → s = stream w) ∧
          (is_webrtc (stream w) = true → s = stream w)) as Hs.
  { revert E. generalize (stream w) as st. induction (arriving w) as [|i l IH]; intros st E;
      [by simplify_eq/=|].
    destruct i; simplify_eq/=; auto.
    unfold open_in in E. destruct st as [? ? ?|[e|]|[e|]]; simplify_eq/=; auto;
      destruct (dec e frame); simplify_eq/=; split; intros; try discriminate; done. }
  destruct x; intros; simplify_eq/=; split_and!; done || apply Hs.
Qed.

(** A write on a stream without keys of its own. *)
Lemma send_Ok msg w w' :
  encrypt (stream w) = None → send msg w = (Ok tt, w') →
  stream w' = stream w ∧ written w' = written w ++ [msg] ∧ arriving w' = arriving w ∧
  drawn w' = drawn w ∧ host w' = host w.
Proof.
  intros He. unfold send, seal_out. rewrite He.
  destruct (default false _); intros; simplify_eq/=; done.
Qed.

(** ** Identities *)

(** [signer] vouches, in the signed message, for [key] as the one of [peer_id]. *)
Definition vouches (signer signed : bytes) (peer_id : string) (i : IdPk) : Prop :=
  ∃ b, verify signed signer = Some b ∧ parse_idpk b = Some i ∧ id i = peer_id ∧ len (pk i) = 32.

Lemma get_pk_Some p q : get_pk p = Some q ↔ q = p ∧ len p = 32.
Proof. unfold get_pk. destruct (Z.eqb_spec (len p) 32); naive_solver. Qed.

Lemma decode_id_pk_dtls_Ok signed key i p fp v :
  decode_id_pk_dtls signed key = Ok (i, p, fp, v) ↔
  ∃ x, vouches key signed i x ∧ p = pk x ∧ fp = dtls_fp x ∧ v = kx_version x.
Proof.
  unfold decode_id_pk_dtls, vouches. split.
  - destruct (verify signed key) as [b|]; [|done].
    destruct (parse_idpk b) as [x|] eqn:E; [|done].
    destruct (get_pk (pk x)) as [q|] eqn:G; [|done].
    intros [= <- <- <- <-]. apply get_pk_Some in G as [-> ?]. naive_solver.
  - intros (x & (b & -> & -> & <- & Hl) & -> & -> & ->).
    by rewrite (proj2 (get_pk_Some (pk x) (pk x))).
Qed.

Lemma trusted_sign_pk_Some peer_id signed key p :
  trusted_sign_pk peer_id signed key = Some p →
  ∃ rs_pk x, get_rs_pk (if is_empty key then RS_PUB_KEY else key) = Some rs_pk ∧
    vouches rs_pk signed peer_id x ∧ pk x = p.
Proof.
  unfold trusted_sign_pk. destruct (get_rs_pk _) as [rs_pk|]; [|done].
  unfold decode_id_pk. destruct (decode_id_pk_dtls signed rs_pk) as [[[[i q] fp] v]|] eqn:E;
    simpl; [|done].
  apply decode_id_pk_dtls_Ok in E as (x & Hx & -> & -> & ->).
  destruct (i ==s peer_id) eqn:Ei; [|done]. intros [= <-].
  exists rs_pk, x. apply eqb_str_true in Ei as ->. done.
Qed.

Lemma negotiate_Ok key r t w w' :
  negotiate key r t w = (Ok tt, w') →
  set_negotiated_key key r t (stream w) = Ok (stream w') ∧ written w' = written w ∧
  arriving w' = arriving w ∧ host w' = host w.
Proof.
  unfold negotiate. destruct (set_negotiated_key _ _ _ _); intros; simplify_eq/=; done.
Qed.

Lemma negotiated_secured key r t s s' :
  set_negotiated_key key r t s = Ok s' → is_secured s' = true.
Proof.
  unfold set_negotiated_key. destruct (picked t =? 0); [by destruct s; intros; simplify_eq/=|].
  destruct (picked t =? 1); [|done].
  destruct s; intros; inv_result; subst; done.
Qed.

Lemma unsecured_encrypt s : is_secured s = false → encrypt s = None.
Proof. destruct s as [? ? ?|[e|]|[e|]]; done. Qed.

Lemma create_symmetric_key_msg_run p w :
  create_symmetric_key_msg p w =
    (Ok ((gen_box_keypair (drawn w)).1,
         box_seal (gen_key (S (drawn w))) ZERO_NONCE p (gen_box_keypair (drawn w)).2,
         gen_key (S (drawn w))), w <| drawn := S (S (drawn w)) |>).
Proof.
  unfold create_symmetric_key_msg. rewrite bind_run. cbn [random fst snd].
  by destruct (gen_box_keypair (drawn w)).
Qed.

(** What the controller does once an identity [i] verified. *)
Definition keyed (i : IdPk) (w w' : Wire) : Prop :=
  let a := (gen_box_keypair (drawn w)).1 in
  let key := gen_key (S (drawn w)) in
  let picked := if is_webrtc (stream w) then 0 else kx_version_for (kx_version i) in
  (is_webrtc (stream w) = true →
    dtls_fp i ≠ "" ∧ dtls_fingerprint false (stream w) = Some (dtls_fp i)) ∧
  written w' = written w ++ [write_msg (PublicKey a
    (box_seal key ZERO_NONCE (pk i) (gen_box_keypair (drawn w)).2) picked)] ∧
  set_negotiated_key key true (mkTranscript a (pk i) (kx_version i) picked) (stream w)
    = Ok (stream w').

Lemma answer_identity_Ok i w w' :
  is_secured (stream w) = false →
  answer_identity (is_webrtc (stream w)) (pk i) (dtls_fp i) (kx_version i) w = (Ok tt, w') →
  keyed i w w'.
Proof.
  intros Hs. unfold answer_identity. rewrite bind_run. cbn [asks fst snd].
  intros (u & w1 & Hfp & H)%bind_Ok.
  assert (w1 = w ∧ (is_webrtc (stream w) = true →
    dtls_fp i ≠ "" ∧ dtls_fingerprint false (stream w) = Some (dtls_fp i))) as [-> Hbound].
  { destruct (is_webrtc (stream w)); [|injection Hfp as _ <-; done].
    destruct (dtls_fingerprint false (stream w)) as [fp|]; [|done].
    unfold dtls_fingerprint_bound in Hfp. destruct (is_empty (dtls_fp i)) eqn:Ee; [done|].
    destruct (dtls_fp i ==s fp) eqn:Ef; [|done]. apply eqb_str_true in Ef as <-.
    injection Hfp as _ <-. split_and!; [done|]. intros _. split; [|done].
    intros E. by rewrite E in Ee. }
  clear Hfp. rewrite bind_run, create_symmetric_key_msg_run in H. cbn [fst snd] in H.
  apply bind_Ok in H as ([] & w2 & Hsend & Hneg).
  apply send_Ok in Hsend as (Hst & Hw & _ & _); [|by apply unsecured_encrypt].
  apply negotiate_Ok in Hneg as (Hneg & Hw' & _). unfold keyed.
  split_and!; [done|by rewrite Hw', Hw|]. by rewrite Hst in Hneg.
Qed.

Lemma refuse_Ok b e m w w' :
  is_secured (stream w) = false → refuse b e m w = (Ok tt, w') →
  is_secured (stream w') = false.
Proof.
  intros Hs. unfold refuse. destruct b; [done|]. intros H.
  apply send_Ok in H as (-> & _); [done|by apply unsecured_encrypt].
Qed.

(** (C5) A controller secures a stream only for the machine it asked for, whatever
    arrives on it.  If [secure_connection] returns on an unsecured stream, then
    either the stream is still unsecured, or the rendezvous server's key vouches for
    a signing key of that id, which is the one returned; that signing key vouches,
    in the message that arrived, for the key the answer is sealed to; and the
    stream's keys come from the exchange with it.  A WebRTC stream is in addition
    the one whose fingerprint was signed, and with a trusted identity it is never
    left unsecured. *)
Theorem secured_only_for_peer (peer_id : string) (signed_id_pk : bytes) (key : string)
    (w w' : Wire) (o : option bytes) :
  is_secured (stream w) = false →
  secure_connection peer_id signed_id_pk key w = (Ok o, w') →
  (o = None ∧ is_secured (stream w') = false) ∨
  ∃ rs_pk x p,
    get_rs_pk (if is_empty key then RS_PUB_KEY else key) = Some rs_pk ∧
    vouches rs_pk signed_id_pk peer_id x ∧ p = pk x ∧ o = Some p ∧
    ((is_webrtc (stream w) = false ∧ is_secured (stream w') = false) ∨
     ∃ m w1 si i, recv w = (Ok (Some (Ok m)), w1) ∧ parse_msg m = Some (SignedId si) ∧
       vouches p si peer_id i ∧ keyed i w1 w').
Proof.
  intros Hs. unfold secure_connection. rewrite bind_run. cbn [asks fst snd].
  destruct (if bool_decide (signed_id_pk = []) then None else _) as [p|] eqn:Et.
  2: { intros ([] & w1 & Hsend & [= <- <-])%bind_Ok. left. split; [done|].
       apply send_Ok in Hsend as (-> & _); [done|by apply unsecured_encrypt]. }
  intros (res & w2 & Hrecv & H)%bind_Ok. right. case_bool_decide; [done|].
  apply bind_Ok in H as ([] & w1 & H & [= <- <-]).
  apply trusted_sign_pk_Some in Et as (rs_pk & x & Hrs & Hx & <-).
  exists rs_pk, x, (pk x). split_and!; [done..|].
  pose proof (recv_Ok _ _ _ Hrecv) as (_ & _ & _ & _ & Hst & Hst').
  assert (stream w2 = stream w) as E.
  { destruct (is_webrtc (stream w)); auto. }
  assert (is_secured (stream w2) = false) as Hs2 by by rewrite E.
  assert (∀ e m, refuse (is_webrtc (stream w)) e m w2 = (Ok tt, w1) →
    is_webrtc (stream w) = false ∧ is_secured (stream w1) = false) as Hrefuse.
  { intros e m Hr. split; [|by eapply refuse_Ok].
    destruct (is_webrtc (stream w)); done. }
  destruct res as [[m|e]|]; [|done..]. apply bind_Ok in H as (m' & w3 & Hm & H).
  injection Hm as <- <-.
  destruct (parse_msg m) as [[si|? ? ?| |]|] eqn:Em; [|left; eauto..].
  destruct (decode_id_pk_dtls si (pk x)) as [[[[i q] fp] v]|] eqn:Ed; [|left; eauto].
  apply decode_id_pk_dtls_Ok in Ed as (y & Hy & -> & -> & ->).
  destruct (i ==s peer_id) eqn:Ei; [|left; eauto]. apply eqb_str_true in Ei as ->.
  right. exists m, w2, si, y. split_and!; [done..|].
  rewrite <- E in H. by apply answer_identity_Ok.
Qed.


(** ** Two honest ends *)
Lemma send_run msg w :
  encrypt (stream w) = None → write_fails w = [] →
  send msg w = (Ok tt, w <| written := written w ++ [msg] |>).
Proof. intros He Hf. unfold send, seal_out. rewrite He. destruct w; simpl in *. by subst. Qed.

Lemma recv_message m rest w :
  encrypt (stream w) = None → arriving w = Message m :: rest →
  recv w = (Ok (Some (Ok m)), w <| arriving := rest |>).
Proof.
  intros He Ha. unfold recv. rewrite Ha. simpl. unfold open_in. rewrite He. simpl.
  by destruct w.
Qed.

Lemma negotiate_written key r t w : written (negotiate key r t w).2 = written w.
Proof. unfold negotiate. by destruct (set_negotiated_key _ _ _ _). Qed.

Lemma recv_written w : written (recv w).2 = written w.
Proof. unfold recv. by destruct (next _ _) as [[[] ?] ?]. Qed.

Lemma accept_key_written p s v a y k w : written (accept_key p s v a y k w).2 = written w.
Proof.
  unfold accept_key. destruct (len a =? PUBLICKEYBYTES).
  - rewrite bind_run. simpl. destruct (decode y a s); simpl; [|done].
    destruct (v <? k); [done|]. apply negotiate_written.
  - case_bool_decide; [|done]. unfold on_host. by destruct (ConfigStore.set_key_confirmed _ _).
Qed.

Lemma await_key_written p s v w : written (await_key p s v w).2 = written w.
Proof.
  unfold await_key. rewrite bind_run. pose proof (recv_written w) as Hw.
  destruct (recv w) as [[[[m|e]|]|e] w1]; simpl in *; try done.
  rewrite bind_run. simpl. destruct (parse_msg m) as [[]|]; simpl; try done.
  by rewrite accept_key_written.
Qed.

Lemma on_host_run {A} (m : HostM A) w a h :
  m (host w) = (a, h) → on_host m w = (Ok a, w <| host := h |>).
Proof. unfold on_host. by intros ->. Qed.

Section Host.
Context (BUILTIN_SETTINGS : gmap string string).
Context (mac_address : option (list Z)) (hostname : option string).
Abbreviation get_id := (ConfigStore.get_id BUILTIN_SETTINGS mac_address hostname).
Abbreviation identity_handshake :=
  (identity_handshake BUILTIN_SETTINGS mac_address hostname).

(** The identity the machine sends on a stream that is not WebRTC. *)
Definition my_identity (n : nat) (my_id : string) : IdPk :=
  mkIdPk my_id (gen_box_keypair n).1 "" KX_VERSION_LATEST.

Lemma identity_handshake_run w sk p h1 my_id h2 :
  encrypt (stream w) = None → is_webrtc (stream w) = false → write_fails w = [] →
  get_key_pair (host w) = ((sk, p), h1) → len p = 32 → len sk = 64 → get_id h1 = (my_id, h2) →
  identity_handshake true w =
    await_key (gen_box_keypair (drawn w)).1 (gen_box_keypair (drawn w)).2 KX_VERSION_LATEST
      (w <| host := h2 |> <| drawn := S (drawn w) |> <| written := written w ++
        [write_msg (SignedId (sign (write_idpk (my_identity (drawn w) my_id)) sk))] |>).
Proof.
  intros He Hrtc Hf Hk Hp Hsk Hid. unfold KeyExchange.identity_handshake.
  rewrite bind_run, (on_host_run _ _ _ _ Hk). cbn [fst snd].
  rewrite Hp, Hsk. change (32 =? SIGN_PUBLICKEYBYTES) with true.
  change (64 =? SIGN_SECRETKEYBYTES) with true. cbn [andb].
  rewrite bind_run. cbn [random fst snd]. change (drawn (w <| host := h1 |>)) with (drawn w).
  unfold my_identity. destruct (gen_box_keypair (drawn w)) as [a b]. cbn [fst snd].
  rewrite bind_run. cbn [asks fst snd]. rewrite bind_run. cbn [asks fst snd].
  simpl (is_webrtc _). rewrite Hrtc.
  assert (dtls_fingerprint true (stream w) = None) as Hfp by by destruct (stream w).
  simpl (dtls_fingerprint _ _). rewrite Hfp. cbn [andb].
  rewrite bind_run, (on_host_run _ _ my_id h2) by done. cbn [fst snd].
  rewrite bind_run, send_run by done. done.
Qed.

(** ** The laws of the libraries *)
Context (BoxPair SignPair : bytes → bytes → Prop).
Context {CL : CryptoLaws} {SL : SodiumLaws BoxPair SignPair} {XL : KxLaws BoxPair}.

Lemma new_split_total key r t :
  len key = 32 → len (initiator_pk t) = 32 → len (responder_pk t) = 32 →
  ∃ e, new_split key r t = Ok e.
Proof.
  intros Hk Hi Hr. pose proof (λ d, generichash_total key (subkey_input d t) Hk) as Hg.
  destruct (Hg KX_SPLIT_INITIATOR) as (a & Ha & _), (Hg KX_SPLIT_RESPONDER) as (b & Hb & _).
  eexists. apply new_split_Ok. exists a, b. rewrite !derive_subkey_Ok. done.
Qed.

(** A stream that has a key of its own, once negotiated at version 1. *)
Lemma negotiate_run key r t w e :
  is_webrtc (stream w) = false → picked t = 1 → new_split key r t = Ok e →
  negotiate key r t w = (Ok tt, w <| stream := with_encrypt (stream w) (Some e) |>).
Proof.
  intros Hrtc Hp He. unfold negotiate, set_negotiated_key. rewrite Hp, He. simpl.
  by destruct (stream w).
Qed.

(** What the controller makes of a vouched identity, with the answer it writes. *)
Lemma secure_connection_run peer_id signed_id_pk key rs_pk x m si i rest w :
  encrypt (stream w) = None → is_webrtc (stream w) = false → write_fails w = [] →
  get_rs_pk (if is_empty key then RS_PUB_KEY else key) = Some rs_pk →
  signed_id_pk ≠ [] → vouches rs_pk signed_id_pk peer_id x →
  arriving w = Message m :: rest → parse_msg m = Some (SignedId si) →
  vouches (pk x) si peer_id i → kx_version i = KX_VERSION_LATEST →
  let n := drawn w in
  let t := mkTranscript (gen_box_keypair n).1 (pk i) 1 1 in
  ∃ e, new_split (gen_key (S n)) true t = Ok e ∧
    ∃ w', secure_connection peer_id signed_id_pk key w = (Ok (Some (pk x)), w') ∧
      encrypt (stream w') = Some e ∧
      written w' = written w ++ [write_msg (PublicKey (gen_box_keypair n).1
        (box_seal (gen_key (S n)) ZERO_NONCE (pk i) (gen_box_keypair n).2) 1)].
Proof.
  intros He Hrtc Hf Hrs Hne Hx Ha Hm Hi Hv n t.
  assert (len (pk i) = 32) as Hl by (destruct Hi as (? & _ & _ & _ & ?); done).
  destruct (new_split_total (gen_key (S n)) true t) as [e Hsp];
    [apply len_gen_key|apply len_gen_box_keypair|done|].
  exists e. split; [done|]. eexists. unfold secure_connection, trusted_sign_pk, decode_id_pk.
  rewrite bind_run. cbn [asks fst snd]. rewrite bool_decide_false by done. rewrite Hrs.
  rewrite (proj2 (decode_id_pk_dtls_Ok signed_id_pk rs_pk peer_id (pk x) (dtls_fp x) (kx_version x)))
    by eauto 6.
  cbn [result_bind]. rewrite eqb_str_refl.
  rewrite bind_run, (recv_message m rest) by done. cbn [fst snd].
  rewrite bind_run. cbn [lift fst snd]. rewrite bind_run. cbn [lift fst snd]. rewrite Hm.
  rewrite (proj2 (decode_id_pk_dtls_Ok si (pk x) peer_id (pk i) (dtls_fp i) (kx_version i)))
    by eauto 6.
  rewrite eqb_str_refl, Hrtc. unfold answer_identity.
  rewrite bind_run. cbn [asks fst snd]. rewrite bind_run. cbn [mret kx_ret fst snd].
  rewrite bind_run, create_symmetric_key_msg_run. cbn [fst snd].
  rewrite bind_run, send_run by done. cbn [fst snd]. rewrite Hv.
  change (kx_version_for KX_VERSION_LATEST) with 1. change KX_VERSION_LATEST with 1.
  change (drawn (w <| arriving := rest |>)) with n.
  rewrite (negotiate_run _ _ _ _ e) by done. cbn [fst snd].
  split_and!; [reflexivity| |reflexivity]. simpl. by destruct (stream w).
Qed.

Lemma await_key_run p s asym sym key rest w :
  encrypt (stream w) = None → is_webrtc (stream w) = false →
  arriving w = Message (write_msg (PublicKey asym sym 1)) :: rest →
  len asym = 32 → len p = 32 → box_open sym ZERO_NONCE asym s = Some key → len key = 32 →
  ∃ e w', new_split key false (mkTranscript asym p 1 1) = Ok e ∧
    await_key p s KX_VERSION_LATEST w = (Ok tt, w') ∧ encrypt (stream w') = Some e.
Proof.
  intros He Hrtc Ha Hl Hp Ho Hk.
  destruct (new_split_total key false (mkTranscript asym p 1 1)) as [e Hsp]; [done..|].
  exists e. eexists. split; [done|]. unfold await_key.
  rewrite bind_run, (recv_message _ rest) by eassumption. cbn [fst snd].
  rewrite bind_run. cbn [lift fst snd]. rewrite parse_public_key by done.
  unfold accept_key. change PUBLICKEYBYTES with 32. rewrite Hl. cbn [Z.eqb Pos.eqb].
  rewrite bind_run. cbn [lift fst snd]. unfold decode. change PUBLICKEYBYTES with 32.
  rewrite Hl. cbn [Z.eqb Pos.eqb negb]. fold ZERO_NONCE. rewrite Ho.
  change KEYBYTES with 32. rewrite Hk. cbn [Z.eqb Pos.eqb negb].
  change (KX_VERSION_LATEST <? 1) with false. cbn iota. change KX_VERSION_LATEST with 1.
  rewrite (negotiate_run _ _ _ _ e) by done.
  split; [reflexivity|]. simpl. by destruct (stream w).
Qed.


End Host.
End Proofs.
End KeyExchangeProofs.
