(* ===== verification/KeyExchangeExamples.v ===== *)
(** * A key exchange on concrete data

    Toy libraries with the behaviour the theorems rely on, a machine and a
    controller that run the handshake against each other, and the instances of the
    theorems on them. *)
From S2P Require Import Prelude RustStd RecordUpdate Secrets SecretsProofs ConfigStore.
From S2P Require Import SecureStream SecureStreamProofs KeyExchange KeyExchangeProofs.

Module KeyExchangeExamples.
Export KeyExchangeProofs.

(** ** Libraries *)

(** Eight bytes of the nonce, eight of the key, and the message. *)
Definition mac (n k : bytes) : bytes := resize 8 Byte.x00 n ++ resize 8 Byte.x00 k.

#[export] Instance wire_crypto : Crypto := {|
  b64_encode := Toy.encode;
  b64_decode := Toy.decode;
  seal m n k := mac n k ++ m;
  open_box c n k := if bool_decide (take 16 c = mac n k) then Some (drop 16 c) else None;
  sha256 m := resize 32 Byte.x00 m;
|}.

#[export] Instance wire_laws : CryptoLaws.
Proof.
  pose proof (@b64_round_trip Toy.toy_crypto Toy.toy_laws).
  pose proof (@b64_ascii Toy.toy_crypto Toy.toy_laws).
  pose proof (@b64_nonempty Toy.toy_crypto Toy.toy_laws).
  pose proof (@b64_length Toy.toy_crypto Toy.toy_laws).
  split; try done; cbn [seal open_box sha256 wire_crypto].
  - intros m n k. assert (length (mac n k) = 16%nat) as Hl
      by (unfold mac; by rewrite length_app, !length_resize).
    rewrite take_app_length' by done. rewrite bool_decide_true by done.
    by rewrite drop_app_length' by done.
  - intros m n k. rewrite len_app. unfold len, mac, MACBYTES.
    rewrite length_app, !length_resize. lia.
  - intros m. unfold len. by rewrite length_resize.
Qed.

#[export] Existing Instance Toy.toy_entropy.

(** Each byte after a one, and a zero at the end. *)
Fixpoint esc (l : bytes) : bytes :=
  match l with [] => [Byte.x00] | b :: l => Byte.x01 :: b :: esc l end.

Fixpoint unesc (l : bytes) : option (bytes * bytes) :=
  match l with
  | [] => None
  | b :: l =>
      if bool_decide (b = Byte.x00) then Some ([], l)
      else match l with
           | [] => None
           | c :: l => '(x, rest) ← unesc l; Some (c :: x, rest)
           end
  end.

Lemma unesc_esc l rest : unesc (esc l ++ rest) = Some (l, rest).
Proof. induction l as [|b l IH]; [done|]. simpl. by rewrite IH. Qed.

Definition lock (p s : bytes) : bytes :=
  zip_with (λ a b, z2b (Z.lxor (b2z a) (b2z b))) (resize 16 Byte.x00 p) (resize 16 Byte.x00 s).

(** Key pairs whose halves are equal, and signatures that carry the key. *)
Definition pair (p s : bytes) : Prop := p = s.
Definition sign_pair (p s : bytes) : Prop := len s = 64 ∧ p = take 32 s.

#[export] Instance toy_sodium : Sodium := {|
  box_seal m _ p s := lock p s ++ m;
  box_open c _ p s := if bool_decide (take 16 c = lock p s) then Some (drop 16 c) else None;
  sign m s := s ++ m;
  verify c p := if bool_decide (take 32 c = p) then Some (drop 64 c) else None;
  generichash n k m := Some (resize (Z.to_nat n) Byte.x00 (drop 8 m ++ k));
|}.

Lemma lock_comm p s : lock p s = lock s p.
Proof.
  unfold lock. generalize (resize 16 Byte.x00 p) (resize 16 Byte.x00 s).
  induction l as [|a l IH]; intros [|b k]; simpl; [done..|]. by rewrite Z.lxor_comm, IH.
Qed.

Lemma length_lock p s : length (lock p s) = 16%nat.
Proof. unfold lock. by rewrite length_zip_with, !length_resize. Qed.

#[export] Instance toy_sodium_laws : SodiumLaws pair sign_pair.
Proof.
  split; cbn [box_seal box_open sign verify generichash toy_sodium].
  - intros m n p s p' s' <- <-. rewrite lock_comm, take_app_length' by (by rewrite length_lock).
    rewrite bool_decide_true by done. by rewrite drop_app_length' by (by rewrite length_lock).
  - intros m p s [Hl ->]. assert (length s = 64%nat) by (unfold len in Hl; lia).
    rewrite take_app_le, bool_decide_true by (done || lia).
    by rewrite drop_app_length'.
  - intros k m _. eexists. split; [done|]. unfold len. by rewrite length_resize.
Qed.

Definition toy_parse_msg (b : bytes) : option Msg :=
  match b with
  | [] => Some NoUnion
  | t :: b =>
      if bool_decide (t = Byte.x01) then Some (SignedId b)
      else if bool_decide (t = Byte.x02) then
        '(a, s) ← unesc (drop 4 b);
        Some (PublicKey a s (from_le_bytes (take 4 b)))
      else Some OtherUnion
  end.

Definition toy_write_msg (m : Msg) : bytes :=
  match m with
  | SignedId s => Byte.x01 :: s
  | PublicKey a s v => Byte.x02 :: to_le_bytes 4 v ++ esc a ++ s
  | OtherUnion => [Byte.x03]
  | NoUnion => []
  end.

Definition toy_write_idpk (i : IdPk) : bytes :=
  esc (as_bytes (id i)) ++ esc (pk i) ++ esc (as_bytes (dtls_fp i)) ++
  to_le_bytes 4 (kx_version i).

Definition toy_parse_idpk (b : bytes) : option IdPk :=
  '(i, b) ← unesc b;
  '(p, b) ← unesc b;
  '(f, b) ← unesc b;
  Some (mkIdPk (of_bytes i) p (of_bytes f) (from_le_bytes (take 4 b))).

(** The rendezvous server's message, a marker and one signed key. *)
#[export] Instance toy_kx : KxLibs := {|
  write_msg := toy_write_msg;
  parse_msg := toy_parse_msg;
  write_idpk := toy_write_idpk;
  parse_idpk := toy_parse_idpk;
  write_rmsg m := match m with RKeyExchange ks v _ => Byte.x01 :: z2b v :: mjoin ks | ROther => [] end;
  parse_rmsg b := match b with t :: v :: b => Some (RKeyExchange [b] (b2z v) []) | _ => None end;
  parse_params b := Some (mkParams (drop 4 b) (from_le_bytes (take 4 b)));
  decode64 s := Some (as_bytes s);
  gen_box_keypair n := (resize 32 Byte.x00 (to_le_bytes 8 (Z.of_nat n + 7)),
                        resize 32 Byte.x00 (to_le_bytes 8 (Z.of_nat n + 7)));
  gen_key n := resize 32 Byte.x00 (to_le_bytes 8 (Z.of_nat n + 77));
|}.

#[export] Instance toy_kx_laws : KxLaws pair.
Proof.
  split; cbn [parse_msg write_msg parse_idpk write_idpk gen_box_keypair gen_key toy_kx].
  - done.
  - intros a s v Hv. unfold toy_write_msg, toy_parse_msg.
    rewrite bool_decide_false, bool_decide_true by done.
    rewrite drop_app_length', take_app_length' by (by rewrite length_to_le_bytes).
    rewrite unesc_esc. cbn [mbind option_bind].
    by rewrite from_to_le_bytes_small by (unfold u32_max in Hv; simpl; lia).
  - intros i Hv. unfold toy_parse_idpk, toy_write_idpk.
    do 3 (rewrite unesc_esc; cbn [mbind option_bind]).
    rewrite take_ge by (by rewrite length_to_le_bytes).
    rewrite from_to_le_bytes_small by (unfold u32_max in Hv; simpl; lia).
    rewrite !of_as_bytes. by destruct i.
  - done.
  - intros n. unfold len. cbn [fst]. by rewrite length_resize.
  - intros n. unfold len. by rewrite length_resize.
Qed.
(** ** A machine and a controller *)
Definition sk : bytes := replicate 64 Byte.x05.
Definition machine_pk : bytes := replicate 32 Byte.x05.
Definition machine : Host :=
  mkHost (default_config <| Secrets.id := "peer" |>) (Some (sk, machine_pk)) None ""
    default_config2 [] NotFound NotFound None true 0.

(** The rendezvous server's key, and its word for the machine. *)
Definition rs_key : string := of_bytes (replicate 32 x61).
Definition rs_sk : bytes := replicate 64 x61.
Definition machine_id : IdPk := mkIdPk "peer" machine_pk "" 0.
Definition vouched : bytes := sign (write_idpk machine_id) rs_sk.

Definition wire (s : Stream) (l : list Item) (n : nat) : Wire := mkWire s l [] [] n machine.
Definition machine_runs (s : Stream) (l : list Item) : result unit string * Wire :=
  identity_handshake ∅ None None true (wire s l 3).
Definition controller_runs (s : Stream) (l : list Item) : result (option bytes) string * Wire :=
  secure_connection "peer" vouched rs_key (wire s l 9).

(** What each writes, reading what the other wrote. *)
Definition hello : list bytes := written (machine_runs (Tcp None) []).2.
Definition answer : list bytes := written (controller_runs (Tcp None) (Message <$> hello)).2.
Definition machine_end : result unit string * Wire := machine_runs (Tcp None) (Message <$> answer).
Definition controller_end : result (option bytes) string * Wire :=
  controller_runs (Tcp None) (Message <$> hello).

Example exchange_completes :
  (machine_end.1, controller_end.1, is_secured (stream machine_end.2),
   is_secured (stream controller_end.2)) = (Ok tt, Ok (Some machine_pk), true, true).
Proof. vm_compute. reflexivity. Qed.

(** Without the server's word for the id, the connection goes on in the clear. *)
Example another_id_is_unsecured :
  let r := secure_connection "other" vouched rs_key (wire (Tcp None) (Message <$> hello) 9) in
  (r.1, is_secured (stream r.2)) = (Ok None, false).
Proof. vm_compute. reflexivity. Qed.

(** On WebRTC an identity without the channel's fingerprint ends the attempt. *)
Example webrtc_needs_fingerprint :
  (controller_runs (WebRTC false None (Some "ab")) (Message <$> hello)).1 =
    Err "WebRTC DTLS fingerprint not bound to peer identity (possible MITM)".
Proof. vm_compute. reflexivity. Qed.

(** A pick above the offer is refused; a message that is no key leaves the stream
    as it was. *)
Example unoffered_version_refused :
  (machine_runs (Tcp None)
     [Message (write_msg (PublicKey (gen_box_keypair 9).1
        (box_seal (gen_key 10) ZERO_NONCE (gen_box_keypair 3).1 (gen_box_keypair 9).2) 2))]).1 =
    Err "Handshake failed: key exchange version not offered".
Proof. vm_compute. reflexivity. Qed.

Lemma vouched_ok : vouches (replicate 32 x61) vouched "peer" machine_id.
Proof.
  exists (write_idpk machine_id). split_and!; [vm_compute; reflexivity| |done..].
  apply parse_write_idpk. by vm_compute.
Qed.


Lemma secured_only_for_peer_witness :
  is_secured (stream (wire (Tcp None) (Message <$> hello) 9)) = false ∧
  ((Some machine_pk = @None bytes ∧ is_secured (stream controller_end.2) = false) ∨
   ∃ rs_pk x p,
    get_rs_pk (if is_empty rs_key then RS_PUB_KEY else rs_key) = Some rs_pk ∧
    vouches rs_pk vouched "peer" x ∧ p = pk x ∧ Some machine_pk = Some p ∧
    ((is_webrtc (Tcp None) = false ∧ is_secured (stream controller_end.2) = false) ∨
     ∃ m w1 si i, recv (wire (Tcp None) (Message <$> hello) 9) = (Ok (Some (Ok m)), w1) ∧
       parse_msg m = Some (SignedId si) ∧ vouches p si "peer" i ∧ keyed i w1 controller_end.2)).
Proof.
  split; [done|].
  apply (secured_only_for_peer "peer" vouched rs_key
    (wire (Tcp None) (Message <$> hello) 9) controller_end.2 (Some machine_pk)).
  all: vm_compute; reflexivity.
Defined.

(** A rendezvous server without signed parameters. *)
Definition server_hello : bytes := [Byte.x01; Byte.x01] ++ sign (replicate 32 Byte.x09) rs_sk.
Definition server_end : result unit string * Wire :=
  secure_tcp_required false rs_key (wire (Tcp None) [Message server_hello] 0).


(** ** The keys of a stream *)
Definition transcript : KxTranscript :=
  mkTranscript (replicate 32 Byte.x0a) (replicate 32 Byte.x0b) 1 1.
Definition exchanged : bytes := replicate 32 Byte.x0c.
Definition side (r : bool) : Encrypt :=
  match new_split exchanged r transcript with Ok e => e | Err _ => new [] end.

Lemma split_binds_transcript_witness :
  opening_key (side false) = send_key (side true) ∧
  ((false = negb true ∧ transcript = transcript) ∨
   collides exchanged (subkey_input (direction true) transcript)
     (subkey_input (direction (negb false)) transcript)).
Proof.
  split; [vm_compute; reflexivity|].
  apply (split_binds_transcript exchanged true false transcript transcript (side true)
    (side false)).
  1,2: by vm_compute.
  all: vm_compute; reflexivity.
Defined.

Lemma nonces_used_once_witness :
  collides exchanged (subkey_input KX_SPLIT_INITIATOR transcript)
    (subkey_input KX_SPLIT_RESPONDER transcript) ∨
  ∃ used_a used_b,
    (enc_all (side true) [[Byte.x01]; []]).1 =
      zip_with (λ m kn, seal m kn.2 kn.1) [[Byte.x01]; []] used_a ∧
    (enc_all (side false) [[Byte.x02]]).1 =
      zip_with (λ m kn, seal m kn.2 kn.1) [[Byte.x02]] used_b ∧
    length used_a = 2%nat ∧ length used_b = 1%nat ∧ NoDup (used_a ++ used_b).
Proof.
  apply (nonces_used_once exchanged transcript (side true) (side false) [[Byte.x01]; []]
    [[Byte.x02]]).
  1: by vm_compute.
  all: vm_compute; reflexivity.
Defined.

(** Three messages, of which the second is held back and the first sent again. *)
Definition said : list bytes := [[Byte.x01]; [Byte.x02]; [Byte.x03]].
Definition heard : list bytes :=
  let frames := (enc_all (new exchanged) said).1 in
  [frames !!! 0%nat; []; frames !!! 0%nat; frames !!! 2%nat].

Example replay_rejected :
  (dec_all (new exchanged) heard).1 =
    [Ok [Byte.x01]; Ok []; Err "decryption error"; Ok [Byte.x03]].
Proof. vm_compute. reflexivity. Qed.

(** A frame of the toy cipher opens under the counter and key it was sealed with. *)
Lemma heard_authentic f i m :
  f ∈ heard → 0 ≤ i < 2 ^ 64 → open_box f (get_nonce i) exchanged = Some m →
  ∃ j : nat, i = 1 + Z.of_nat j ∧ said !! j = Some m.
Proof.
  intros Hf Hi Ho.
  assert (∀ j : nat, (j < 3)%nat →
    open_box (seal (said !!! j) (get_nonce (1 + Z.of_nat j)) exchanged) (get_nonce i) exchanged
      = Some m → ∃ j : nat, i = 1 + Z.of_nat j ∧ said !! j = Some m) as Hs.
  { intros j Hj. cbn [open_box seal wire_crypto]. case_bool_decide as E; [|done].
    intros Hd%(inj Some). exists j. assert (length (mac (get_nonce (1 + Z.of_nat j)) exchanged) = 16%nat)
      as Hl by (unfold mac; by rewrite length_app, !length_resize).
    rewrite take_app_length' in E by done. rewrite drop_app_length' in Hd by done.
    unfold mac in E. apply app_inj_1 in E as [E _]; [|by rewrite !length_resize].
    unfold get_nonce in E. rewrite !resize_le in E by (rewrite length_app, length_to_le_bytes; lia).
    rewrite !take_app_length' in E by (by rewrite length_to_le_bytes).
    apply to_le_bytes_inj in E; [|simpl; lia..]. split; [done|].
    subst m. destruct j as [|[|[|j]]]; [done..|lia]. }
  assert (heard = [seal (said !!! 0%nat) (get_nonce 1) exchanged; [];
    seal (said !!! 0%nat) (get_nonce 1) exchanged;
    seal (said !!! 2%nat) (get_nonce 3) exchanged]) as Eh by (vm_compute; reflexivity).
  rewrite Eh in Hf. set_unfold in Hf.
  destruct Hf as [->|[->|[->|[->|[]]]]].
  - by apply (Hs 0%nat); [lia|].
  - cbn [open_box wire_crypto] in Ho. case_bool_decide as E; [|done].
    apply (f_equal length) in E. unfold mac in E. rewrite length_app, !length_resize in E. done.
  - by apply (Hs 0%nat); [lia|].
  - by apply (Hs 2%nat); [lia|].
Qed.


End KeyExchangeExamples.
