(* ===== verification/TrustedClient.v ===== *)
(** * Trusted devices: the controller's credential

    [client/src/trusted_devices/client.rs].  The controller keeps the token a host
    gave it in the file of that peer, sealed, with the servers and the public key of
    the host that issued it; [Session] decides when to send it and when to keep a new
    one.  The state is the [Host] of Secrets.v and the files of the peers
    (PeerStore.v); JSON is a library. *)
From S2P Require Import Prelude RustStd RecordUpdate Secrets ConfigStore PeerStore Messages.
From Stdlib Require Import Ascii.
From stdpp Require Import sorting.
#[local] Open Scope Z_scope.

Module TrustedClient.
Export ConfigStore.
#[local] Existing Instance Messages.eta_login.

Definition TOKEN_BYTES : Z := 32.

Record Issuer : Type := mkIssuer { namespace : string; public_key : bytes }.
#[export] Instance issuer_eq_dec : EqDecision Issuer.
Proof. solve_decision. Defined.

Record SavedToken : Type := mkSaved { issuer : Issuer; ciphertext : bytes }.

Record Credentials : Type := mkCredentials { peer_id : string; cred_issuer : Issuer }.
#[export] Instance credentials_eq_dec : EqDecision Credentials.
Proof. solve_decision. Defined.

Record Session : Type := mkSession {
  credentials : option Credentials;
  supported : bool;
  requested : bool;
  legacy : bool;
}.
#[export] Instance eta_session : Eta Session := λ s, mkSession (credentials s) (supported s)
  (requested s) (legacy s).
Definition default_session : Session := mkSession None false false false.

(** [serde_json] of a list of servers and of a saved token. *)
Class SavedJson : Type := {
  servers_to_json : list string → string;
  saved_to_json : SavedToken → string;
  saved_from_json : string → option SavedToken;
}.
Class SavedJsonLaws `{!SavedJson} : Prop := {
  saved_round_trip t : saved_from_json (saved_to_json t) = Some t;
  saved_nonempty t : saved_to_json t ≠ "";
}.

(** The username, host name and platform of a peer. *)
Abbreviation PeerInfoSerde := (string * string * string)%type.

(** [LoginResponse], as far as it concerns the credential; [peer_info] is [None]
    where the response is an error. *)
Record LoginResponse : Type := mkResponse {
  peer_info : option PeerInfoSerde;
  resp_token : bytes;
  resp_supported : bool;
}.

(** ** State *)
Abbreviation PeerFile := PeerConfig.PeerFile.

Record Device : Type := mkDevice { host : Host; peers : gmap string PeerFile }.
#[export] Instance eta_device : Eta Device := λ d, mkDevice (host d) (peers d).

(** [PeerConfig::path] names one file for each id. *)
Definition peer_file (i : string) (d : Device) : PeerFile :=
  default (PeerConfig.mkPeerFile NotFound false) (peers d !! i).

Definition DevM (A : Type) : Type := Device → result A string * Device.
#[export] Instance dev_ret : MRet DevM := λ A a d, (Ok a, d).
#[export] Instance dev_bind : MBind DevM := λ A B k m d,
  let '(r, d) := m d in match r with Ok a => k a d | Err e => (Err e, d) end.

Definition bail {A} (e : string) : DevM A := λ d, (Err e, d).
Definition on_host {A} (m : HostM A) : DevM A := λ d,
  let '(a, h) := m (host d) in (Ok a, d <| host := h |>).
(** The result as a value. *)
Definition attempt {A} (m : DevM A) : DevM (result A string) := λ d,
  let '(r, d) := m d in (Ok r, d).
Definition of_option {A} (e : string) (o : option A) : DevM A :=
  match o with Some a => mret a | None => bail e end.

(** [Vec<String>::sort] *)
Definition sort (l : list string) : list string :=
  merge_sort String.le l.

Section Model.
Context `{!Crypto, !Entropy, !SavedJson}.
Context (default_options : gmap string string) (default_settings : PeerConfig.Settings).

(** ** Credentials *)
Definition new_credentials (peer_id namespace : string) (public_key : bytes) :
    result Credentials string :=
  if len public_key =? TOKEN_BYTES then Ok (mkCredentials peer_id (mkIssuer namespace public_key))
  else Err "Invalid trusted host public key".

Definition decode (c : Credentials) (value : string) : DevM (option bytes) :=
  if is_empty value then mret None
  else
    saved ← of_option "Invalid stored trusted-device credential" (saved_from_json value);
    if bool_decide (issuer saved ≠ cred_issuer c) then mret None
    else
      token ← on_host (symmetric_crypt (ciphertext saved) false);
      token ← of_option "Could not decrypt trusted-device credential" token;
      if negb (len token =? TOKEN_BYTES)
      then bail "Invalid stored trusted-device credential"
      else mret (Some token).

Definition get_trusted_device_v2 (i : string) : DevM string := λ d,
  match PeerConfig.get_trusted_device_v2 default_options default_settings (peer_file i d) with
  | Some v => (Ok v, d)
  | None => (Err "could not read the peer's file", d)
  end.

Definition set_trusted_device_v2 (i value : string) (info : PeerInfoSerde) : DevM unit := λ d,
  let '((done, f), h) :=
    PeerConfig.set_trusted_device_v2 default_options default_settings value info (peer_file i d) (host d) in
  let d := mkDevice h (<[i := f]> (peers d)) in
  if done : bool then (Ok tt, d) else (Err "could not write the peer's file", d).

Definition load (c : Credentials) : DevM (option bytes) :=
  value ← get_trusted_device_v2 (peer_id c);
  r ← attempt (decode c value);
  match r with Ok token => mret token | Err _ => mret None end.

Definition save (c : Credentials) (token : bytes) (info : PeerInfoSerde) : DevM unit :=
  if negb (len token =? TOKEN_BYTES) then bail "Invalid issued trusted-device credential"
  else
    ciphertext ← on_host (symmetric_crypt token true);
    ciphertext ← of_option "Could not encrypt trusted-device credential" ciphertext;
    set_trusted_device_v2 (peer_id c) (saved_to_json (mkSaved (cred_issuer c) ciphertext)) info.

(** ** Sessions *)

(** [Config::get_rendezvous_servers], with the statics it reads. *)
Section Servers.
Context (OVERWRITE_SETTINGS DEFAULT_SETTINGS : gmap string string).
Context (EXE_RENDEZVOUS_SERVER PROD_RENDEZVOUS_SERVER : string).
Definition RENDEZVOUS_HOST : string := "".
Definition SERIAL : Z := 3.
Definition get_rendezvous_servers (h : Host) : list string :=
  let get := get_option OVERWRITE_SETTINGS DEFAULT_SETTINGS in
  if negb (is_empty EXE_RENDEZVOUS_SERVER) then [EXE_RENDEZVOUS_SERVER]
  else
    let s := get "custom-rendezvous-server" h in
    if negb (is_empty s) then [s]
    else if negb (is_empty PROD_RENDEZVOUS_SERVER) then [PROD_RENDEZVOUS_SERVER]
    else
      let ss := filter (λ x, contains "." x = true) (RustStd.split "," (get "rendezvous-servers" h)) in
      if (SERIAL <? serial (CONFIG2 h)) && negb (bool_decide (ss = [])) then ss
      else [RENDEZVOUS_HOST].
End Servers.

(** [Session::new]; [other_server] is the one of the login, [servers] those of
    the configuration. *)
Definition new_session (id : string) (other_server : option string) (servers : list string)
    (secured : bool) (key : option bytes) : result Session string :=
  match (if secured then key else None) with
  | None => Ok default_session
  | Some key =>
      let servers := match other_server with Some s => [s] | None => servers end in
      let? c := new_credentials id (servers_to_json (sort servers)) key in
      Ok (default_session <| credentials := Some c |>)
  end.

(** [Session::login], on a login request. *)
Definition login (s : Session) (request : Messages.LoginRequest) :
    DevM (Session * Messages.LoginRequest) :=
  let s := s <| supported := false |> <| requested := false |> <| legacy := false |> in
  match credentials s with
  | None => mret (s, request)
  | Some c =>
      let request := request <| Messages.trusted_device_v2_supported := true |> in
      let s := s <| legacy := negb (bool_decide (Messages.hwid request = [])) |> in
      if bool_decide (Messages.lr_password request = []) then mret (s, request)
      else
        let request := request <| Messages.trusted_device_v2_token := [] |> in
        r ← attempt (load c);
        match r with
        | Ok token =>
            mret (s, request <| Messages.trusted_device_v2_token := default [] token |>)
        | Err _ =>
            mret (s <| credentials := None |> <| legacy := false |>,
                  request <| Messages.trusted_device_v2_supported := false |>)
        end
  end.

(** [Session::outgoing], on a two-factor answer: what becomes of
    [trust_this_device]. *)
Definition outgoing (s : Session) (trust_this_device : bool) : Session * bool :=
  let trust := trust_this_device && (supported s && bool_decide (is_Some (credentials s))) in
  (s <| legacy := false |> <| requested := trust |>, trust).

Definition response (s : Session) (r : LoginResponse) : DevM (Session * bool) :=
  let s := s <| supported := resp_supported r && bool_decide (is_Some (credentials s)) |> in
  match credentials s with
  | None => mret (s, false)
  | Some c =>
      match peer_info r with
      | Some info =>
          let token := resp_token r in
          if requested s && bool_decide (token = [])
          then bail "Login succeeded, but the host did not remember this device"
          else if negb (bool_decide (token = [])) then
            if negb (requested s) && negb (legacy s && resp_supported r)
            then bail "Host returned an unsolicited trusted-device credential"
            else save c token info;; mret (s, supported s)
          else mret (s, supported s)
      | None => mret (s, supported s)
      end
  end.

(** [Session::respond]: whether trusted devices are offered, and the error shown. *)
Definition respond (s : Session) (r : LoginResponse) : DevM (Session * bool * option string) :=
  let supported' := resp_supported r && bool_decide (is_Some (credentials s)) in
  a ← attempt (response s r);
  match a with
  | Ok (s, supported) => mret (s, supported, None)
  | Err e => mret (s <| supported := supported' |>, false, Some e)
  end.

End Model.
End TrustedClient.
