(* ===== verification/TrustedClientProofs.v ===== *)
(** * What the controller's credential is worth

    A token that was kept is sent with the next login to the host that issued it,
    whatever settings are stored in between ([credential_survives]); it is sent to no
    other ([credential_only_to_issuer]); and none is kept that was not asked for
    ([credential_asked_for]). *)
From S2P Require Import Prelude RustStd RecordUpdate Secrets SecretsProofs ConfigStore PeerStore Messages TrustedClient.
From stdpp Require Import sorting.
#[local] Open Scope Z_scope.

Module TrustedClientProofs.
Export TrustedClient.
#[local] Existing Instance Messages.eta_login.

(** ** Reasoning about operations of a device *)
Lemma dev_bind_run {A B} (m : DevM A) (k : A → DevM B) d :
  (m ≫= k) d = match (m d).1 with Ok a => k a (m d).2 | Err e => (Err e, (m d).2) end.
Proof. unfold mbind, dev_bind. by destruct (m d). Qed.

Lemma dev_bind_Ok {A B} (m : DevM A) (k : A → DevM B) d b d' :
  (m ≫= k) d = (Ok b, d') → ∃ a d1, m d = (Ok a, d1) ∧ k a d1 = (Ok b, d').
Proof. rewrite dev_bind_run. destruct (m d) as [[a|e] d1]; simpl; [eauto|discriminate]. Qed.

Section Proofs.
Context {CR : Crypto} {CL : CryptoLaws} {EN : Entropy} {SJ : SavedJson} {SL : SavedJsonLaws}.
Context (default_options : gmap string string) (default_settings : PeerConfig.Settings).
Variables (uid : bytes) (okp : option KeyPair).
Abbreviation ready := (ready uid okp).
Abbreviation runs := (runs uid okp).
Abbreviation seals := (seals uid).
Abbreviation load := (load default_options default_settings).
Abbreviation save := (save default_options default_settings).

Lemma on_host_runs {A} (m : HostM A) (Q : A → Prop) d :
  runs m Q → ready (host d) →
  ∃ a d', on_host m d = (Ok a, d') ∧ Q a ∧ ready (host d') ∧ peers d' = peers d.
Proof.
  intros Hm Hr. destruct (Hm _ Hr) as (a & h' & E & Ha & _ & Hr').
  eexists a, _. unfold on_host. by rewrite E.
Qed.

(** The file of the peer of [c] holds [token], sealed, as issued by the issuer of [c]. *)
Definition held (c : Credentials) (token : bytes) (d : Device) : Prop :=
  ready (host d) ∧
  ∃ data, seals token data ∧
    PeerConfig.get_trusted_device_v2 default_options default_settings (peer_file (peer_id c) d) =
      Some (saved_to_json (mkSaved (cred_issuer c) data)).

Lemma decode_held c token data d :
  ready (host d) → seals token data → len token = TOKEN_BYTES →
  ∃ d', decode c (saved_to_json (mkSaved (cred_issuer c) data)) d = (Ok (Some token), d') ∧
    ready (host d') ∧ peers d' = peers d.
Proof.
  intros Hr Hs Hl. unfold decode.
  rewrite (proj2 (is_empty_false _)) by apply saved_nonempty.
  rewrite dev_bind_run, saved_round_trip. cbn [of_option mret dev_ret fst snd issuer].
  rewrite bool_decide_false by auto.
  destruct (on_host_runs _ _ d (runs_open uid okp data) Hr) as (a & d' & E & <- & Hr' & Hp).
  cbn [ciphertext]. rewrite dev_bind_run, E. cbn [fst snd].
  rewrite (seals_open uid okp _ _ Hs). rewrite dev_bind_run. cbn [of_option mret dev_ret fst snd].
  rewrite Hl, Z.eqb_refl. cbn [negb]. by exists d'.
Qed.

Lemma load_held c token d :
  held c token d → len token = TOKEN_BYTES →
  ∃ d', load c d = (Ok (Some token), d') ∧ held c token d'.
Proof.
  intros (Hr & data & Hs & Hg) Hl. unfold TrustedClient.load, get_trusted_device_v2.
  destruct (decode_held c token data d Hr Hs Hl) as (d' & E & Hr' & Hp).
  exists d'. rewrite dev_bind_run. rewrite Hg. cbn [fst snd].
  rewrite dev_bind_run. unfold attempt. rewrite E. cbn [fst snd]. split; [done|].
  split; [done|]. exists data. split; [done|]. unfold peer_file. by rewrite Hp.
Qed.

Lemma save_held c token info d d' :
  ready (host d) → save c token info d = (Ok tt, d') →
  len token = TOKEN_BYTES ∧ held c token d' ∧ ∃ f, peers d' = <[peer_id c := f]> (peers d).
Proof.
  intros Hr. unfold TrustedClient.save.
  destruct (Z.eqb_spec (len token) TOKEN_BYTES) as [Hl|]; cbn [negb]; [|done].
  destruct (on_host_runs _ _ d (runs_seal uid okp token) Hr) as (a & d1 & E & (data & -> & Hs) & Hr1 & Hp).
  rewrite dev_bind_run, E. cbn [fst snd]. rewrite dev_bind_run. cbn [of_option mret dev_ret fst snd].
  unfold set_trusted_device_v2, PeerConfig.set_trusted_device_v2. cbn [fst snd]. rewrite Hp.
  destruct (try_load_path _ _) as [cfg|] eqn:Ef; cbn; [|done].
  unfold gets, mbind, host_bind. destruct (can_write (host d1)); cbn; [|done].
  intros [= <-]. split_and!; [done| |by eexists].
  split; [done|]. exists data. split; [done|]. unfold peer_file. cbn.
  by rewrite lookup_insert_eq.
Qed.

(** ** Settings stored in between *)
Definition finishes {A} (m : HostM A) : Prop := runs m (λ _, True).

Lemma finishes_bind {A B} (m : HostM A) (k : A → HostM B) :
  finishes m → (∀ a, finishes (k a)) → finishes (m ≫= k).
Proof. intros Hm Hk. eapply runs_bind; [exact Hm|]. intros a _. apply Hk. Qed.

Lemma finishes_ret {A} (a : A) : finishes (mret a).
Proof. by apply runs_ret. Qed.

Lemma finishes_gets {A} (f : Host → A) : finishes (gets f).
Proof. by apply runs_gets. Qed.

Lemma finishes_encrypt v : finishes (encrypt v).
Proof.
  unfold finishes. destruct (decide (v = [])) as [->|Hv].
  - eapply runs_mono; [|apply runs_encrypt_nil]. done.
  - eapply runs_mono; [|by apply runs_encrypt]. done.
Qed.

Lemma finishes_decrypt_vec v : finishes (decrypt_vec_or_original v PASSWORD_ENC_VERSION).
Proof. eapply runs_mono; [|apply runs_decrypt_vec]. done. Qed.

Lemma finishes_decrypt_str s : finishes (decrypt_str_or_original s PASSWORD_ENC_VERSION).
Proof. eapply runs_mono; [|apply runs_decrypt_str]. done. Qed.

Create HintDb finishes.
Hint Resolve finishes_ret finishes_gets finishes_encrypt finishes_decrypt_vec finishes_decrypt_str : finishes.
Ltac finishes :=
  repeat first
    [ solve [eauto with finishes]
    | match goal with |- finishes (_ ≫= _) => apply finishes_bind end
    | match goal with |- ∀ _, finishes _ => intros ? end
    | match goal with |- finishes (if ?b then _ else _) => destruct b end
    | match goal with |- finishes (match ?x with _ => _ end) => destruct x end ].

Lemma finishes_encrypt_vec v : finishes (encrypt_vec_or_original v PASSWORD_ENC_VERSION ENCRYPT_MAX_LEN).
Proof. unfold encrypt_vec_or_original. finishes. Qed.

Lemma finishes_encrypt_str s : finishes (encrypt_str_or_original s PASSWORD_ENC_VERSION ENCRYPT_MAX_LEN).
Proof. unfold encrypt_str_or_original. finishes. Qed.
Hint Resolve finishes_encrypt_vec finishes_encrypt_str : finishes.

Lemma finishes_seal_options opts o : finishes (PeerConfig.seal_options opts o).
Proof. revert o. induction opts as [|opt opts IH]; intros o; simpl; finishes. Qed.

Lemma finishes_unseal_options opts o b : finishes (PeerConfig.unseal_options opts o b).
Proof. revert o b. induction opts as [|opt opts IH]; intros o b; simpl; finishes. Qed.
Hint Resolve finishes_seal_options finishes_unseal_options : finishes.

Abbreviation token_of := (PeerConfig.get_trusted_device_v2 default_options default_settings).

(** Storing settings, however stale, leaves the credential of the file. *)
Lemma store_keeps self f v : v ≠ "" → token_of f = Some v →
  runs (PeerConfig.store_ default_options default_settings self f) (λ f', token_of f' = Some v).
Proof.
  intros Hv Hf. unfold PeerConfig.store_.
  eapply runs_bind; [apply finishes_encrypt_vec|]. intros pw _.
  eapply runs_bind; [apply finishes_seal_options|]. intros o _.
  assert (∃ cfg, PeerConfig.peer_file f = Loaded cfg ∧ PeerConfig.trusted_device_v2 cfg = v)
    as (cfg & E & Hc).
  { unfold PeerConfig.get_trusted_device_v2 in Hf.
    destruct (PeerConfig.peer_file f); naive_solver. }
  rewrite E. cbn [try_load_path_for_store].
  eapply runs_bind; [apply finishes_gets|]. intros writes _. apply runs_ret.
  unfold PeerConfig.get_trusted_device_v2. destruct writes; cbn; [by rewrite Hc|].
  by rewrite Hc.
Qed.

Lemma load_keeps f v : v ≠ "" → token_of f = Some v →
  runs (PeerConfig.load default_options default_settings f) (λ r, token_of r.2 = Some v).
Proof.
  intros Hv Hf. unfold PeerConfig.load. destruct (PeerConfig.peer_file f) eqn:E;
    try (by apply runs_ret).
  eapply runs_bind; [apply finishes_decrypt_vec|]. intros [[pw b1] b2] _.
  eapply runs_bind; [apply finishes_unseal_options|]. intros [o b3] _.
  destruct b3; [|by apply runs_ret].
  eapply runs_bind; [by apply store_keeps|]. intros f' Hf'. by apply runs_ret.
Qed.

(** What happens to the files between two logins. *)
Inductive Event : Type :=
| StoreSettings (i : string) (self : PeerConfig.PeerConfig)
| LoadSettings (i : string)
| SaveCredential (c : Credentials) (token : bytes) (info : PeerInfoSerde).

Definition step (d : Device) (e : Event) : Device :=
  match e with
  | StoreSettings i self =>
      let '(f, h) := PeerConfig.store_ default_options default_settings self (peer_file i d) (host d) in
      mkDevice h (<[i := f]> (peers d))
  | LoadSettings i =>
      let '(_, f, h) := PeerConfig.load default_options default_settings (peer_file i d) (host d) in
      mkDevice h (<[i := f]> (peers d))
  | SaveCredential c token info => (save c token info d).2
  end.

(** The event saves no other credential for the peer [i]. *)
Definition spares (i : string) (e : Event) : Prop :=
  match e with SaveCredential c _ _ => peer_id c ≠ i | _ => True end.

Lemma peer_file_insert i j f d h :
  peer_file i (mkDevice h (<[j := f]> (peers d))) = if decide (j = i) then f else peer_file i d.
Proof.
  unfold peer_file. cbn. case_decide as E; [subst; by rewrite lookup_insert_eq|].
  by rewrite lookup_insert_ne.
Qed.

(** An operation on one file that keeps credentials keeps [held]. *)
Lemma held_file {A} (m : PeerFile → HostM A) (file_of : A → PeerFile) c token d j :
  (∀ f v, v ≠ "" → token_of f = Some v → runs (m f) (λ r, token_of (file_of r) = Some v)) →
  (∀ f, finishes (m f)) → held c token d →
  held c token (mkDevice (m (peer_file j d) (host d)).2
    (<[j := file_of (m (peer_file j d) (host d)).1]> (peers d))).
Proof.
  intros Hm Hq (Hr & data & Hs & Hg).
  destruct (Hq (peer_file j d) _ Hr) as (a & h' & E & _ & _ & Hr'). rewrite E. cbn [fst snd].
  split; [done|]. exists data. split; [done|]. rewrite peer_file_insert.
  case_decide as Ej; [|done]. subst j.
  destruct (Hm _ _ (saved_nonempty _) Hg _ Hr) as (a' & h2 & E2 & Ha & _).
  rewrite E in E2. by injection E2 as <- <-.
Qed.

Lemma finishes_store self f : finishes (PeerConfig.store_ default_options default_settings self f).
Proof. unfold PeerConfig.store_. finishes. Qed.
Hint Resolve finishes_store : finishes.

Lemma finishes_load f : finishes (PeerConfig.load default_options default_settings f).
Proof. unfold PeerConfig.load. finishes. Qed.

Lemma save_other c token d c' token' info :
  peer_id c' ≠ peer_id c → held c token d → held c token (save c' token' info d).2.
Proof.
  intros Hne (Hr & data & Hs & Hg). unfold TrustedClient.save.
  destruct (negb _); [by split; [|exists data]|].
  destruct (on_host_runs _ _ d (runs_seal uid okp token') Hr) as (a & d1 & E & (x & -> & _) & Hr1 & Hp).
  rewrite dev_bind_run, E. cbn [fst snd]. rewrite dev_bind_run. cbn [of_option mret dev_ret fst snd].
  unfold set_trusted_device_v2, PeerConfig.set_trusted_device_v2. rewrite Hp.
  assert (∀ f b, held c token ((if b : bool then
    (Ok tt, mkDevice (host d1) (<[peer_id c' := f]> (peers d)))
    else (Err "could not write the peer's file", mkDevice (host d1) (<[peer_id c' := f]> (peers d)))).2))
    as Hkeep.
  { intros f b. split; [by destruct b|]. exists data. split; [done|].
    destruct b; cbn [snd]; rewrite peer_file_insert; by rewrite decide_False. }
  destruct (try_load_path _ _); cbn; [|apply (Hkeep _ false)].
  unfold gets, mbind, host_bind. destruct (can_write (host d1)); [apply (Hkeep _ true)|apply (Hkeep _ false)].
Qed.

Lemma step_held c token d e :
  spares (peer_id c) e → held c token d → held c token (step d e).
Proof.
  intros Hs Hh. destruct e as [j self|j|c' token' info]; cbn [step].
  - pose proof (held_file (PeerConfig.store_ default_options default_settings self) (λ f, f) c token d j
      (store_keeps self) (finishes_store self) Hh) as H. by destruct (PeerConfig.store_ _ _ _ _).
  - pose proof (held_file (PeerConfig.load default_options default_settings) snd c token d j
      load_keeps finishes_load Hh) as H. by destruct (PeerConfig.load _ _ _) as [[? ?] ?].
  - by apply save_other.
Qed.

(** A credential that was kept is used.  Once [save] has stored a token, the
    next login with a password carries that token, whatever settings of this or
    other peers are stored or loaded in between, however stale the snapshots are,
    and whatever credentials of other peers are saved. *)
Theorem credential_survives (c : Credentials) (token : bytes) (info : PeerInfoSerde)
    (d d' : Device) (events : list Event) (s : Session) (request : Messages.LoginRequest) :
  ready (host d) → save c token info d = (Ok tt, d') →
  Forall (spares (peer_id c)) events →
  credentials s = Some c → Messages.lr_password request ≠ [] →
  ∃ s' request' d'', login default_options default_settings s request (foldl step d' events)
      = (Ok (s', request'), d'') ∧
    Messages.trusted_device_v2_token request' = token ∧
    Messages.trusted_device_v2_supported request' = true.
Proof.
  intros Hr Hsave Hev Hc Hpw. apply save_held in Hsave as (Hl & Hh & _); [|done].
  assert (held c token (foldl step d' events)) as Hh'.
  { clear Hr. revert d' Hh. induction Hev; intros d' Hh; [done|]. cbn. eauto using step_held. }
  destruct (load_held c token _ Hh' Hl) as (d2 & E & _).
  unfold login. cbn [credentials update]. rewrite Hc. rewrite bool_decide_false by done.
  rewrite dev_bind_run. unfold attempt. rewrite E. cbn [fst snd]. by eexists _, _, _.
Qed.

(** ** Who gets a credential *)

Lemma decode_Ok c v d token d' :
  decode c v d = (Ok (Some token), d') →
  ∃ saved, saved_from_json v = Some saved ∧ issuer saved = cred_issuer c ∧
    len token = TOKEN_BYTES ∧ (symmetric_crypt (ciphertext saved) false (host d)).1 = Some token.
Proof.
  unfold decode. destruct (is_empty v); [done|].
  intros (saved & d1 & Hsv & H)%dev_bind_Ok.
  destruct (saved_from_json v) as [x|]; [|done]. injection Hsv as -> ->.
  case_bool_decide as Hi; [done|]. exists saved. split; [done|].
  apply dev_bind_Ok in H as (o & d2 & Ho & H). apply dev_bind_Ok in H as (t & d3 & Ht & H).
  destruct o as [t'|]; [|done]. injection Ht as -> ->.
  destruct (Z.eqb_spec (len t) TOKEN_BYTES); cbn [negb] in H; [|done].
  injection H as -> ->. unfold on_host in Ho. split; [first [done | by apply dec_stable]|].
  split; [done|]. destruct (symmetric_crypt _ _ _). by injection Ho as -> _.
Qed.

(** (C24) A credential goes only to the host that issued it.  If a login request of a
    session for [id] leaves with a token, then the connection was secured, the
    host's verified key is the one under which the token was stored for this very
    peer and these very servers, and the token is what was stored. *)
Theorem credential_only_to_issuer (id : string) (other_server : option string)
    (servers : list string) (secured : bool) (key : option bytes) (s s' : Session)
    (request request' : Messages.LoginRequest) (d d' : Device) :
  new_session id other_server servers secured key = Ok s →
  Messages.trusted_device_v2_token request = [] →
  login default_options default_settings s request d = (Ok (s', request'), d') →
  Messages.trusted_device_v2_token request' ≠ [] →
  secured = true ∧
  ∃ k saved v, key = Some k ∧ len k = TOKEN_BYTES ∧
    token_of (peer_file id d) = Some v ∧ saved_from_json v = Some saved ∧
    issuer saved =
      mkIssuer (servers_to_json (sort match other_server with Some x => [x] | None => servers end)) k ∧
    (symmetric_crypt (ciphertext saved) false (host d)).1 =
      Some (Messages.trusted_device_v2_token request').
Proof.
  intros Hs Hempty Hlogin Hne. unfold new_session in Hs.
  destruct secured; [|injection Hs as <-; cbn in Hlogin; by injection Hlogin as _ <- _].
  destruct key as [k|]; [|injection Hs as <-; cbn in Hlogin; by injection Hlogin as _ <- _].
  split; [done|]. apply result_bind_ok in Hs as (c & Hc & [= <-]).
  unfold new_credentials in Hc. destruct (Z.eqb_spec (len k) TOKEN_BYTES) as [Hl|]; [|done].
  injection Hc as <-. unfold login in Hlogin. cbn [credentials update default_session] in Hlogin.
  case_bool_decide as Hpw; [injection Hlogin as _ <- _; done|].
  apply dev_bind_Ok in Hlogin as (r & d1 & Hr & H). unfold attempt in Hr.
  destruct (TrustedClient.load _ _ _ d) as [x d2] eqn:Eload. injection Hr as -> ->.
  destruct r as [[t|]|e]; cbn in H; injection H as _ <- _; cbn in Hne |- *; [|done..].
  unfold TrustedClient.load in Eload. apply dev_bind_Ok in Eload as (v & d3 & Hv & H).
  unfold get_trusted_device_v2 in Hv. cbn [peer_id] in Hv.
  destruct (token_of (peer_file id d)) as [v'|] eqn:Ev; [|done]. injection Hv as -> ->.
  apply dev_bind_Ok in H as (x & d4 & Hx & H). unfold attempt in Hx.
  destruct (decode _ v d3) as [y d5] eqn:Ed. injection Hx as -> ->.
  destruct x as [t'|]; [|done]. injection H as -> ->.
  apply decode_Ok in Ed as (saved & ? & Hi & _ & ?). exists k, saved, v. done.
Qed.

(** No credential is kept that was not asked for: the files of the peers change
    on a response only if the user asked to trust the device on a host that offers
    it, or the login announced a legacy device to such a host; then only the file of
    this peer changes, and only for a token of the right length. *)
Theorem credential_asked_for (s : Session) (r : LoginResponse) (d : Device) :
  let '(_, d') := respond default_options default_settings s r d in
  peers d' ≠ peers d →
  (requested s = true ∨ legacy s = true ∧ resp_supported r = true) ∧
  is_Some (peer_info r) ∧ len (resp_token r) = TOKEN_BYTES ∧
  ∃ c f, credentials s = Some c ∧ peers d' = <[peer_id c := f]> (peers d).
Proof.
  unfold respond. rewrite dev_bind_run. unfold attempt.
  destruct (response default_options default_settings s r d) as [x d1] eqn:E. cbn [fst snd].
  assert (peers d1 ≠ peers d →
    (requested s = true ∨ legacy s = true ∧ resp_supported r = true) ∧
    is_Some (peer_info r) ∧ len (resp_token r) = TOKEN_BYTES ∧
    ∃ c f, credentials s = Some c ∧ peers d1 = <[peer_id c := f]> (peers d)) as H;
    [|by destruct x as [[? ?]|]].
  unfold response in E. cbn [credentials update requested legacy] in E.
  destruct (credentials s) as [c|] eqn:Ec; [|injection E as _ <-; done].
  destruct (peer_info r) as [info|]; [|injection E as _ <-; done].
  destruct (requested s && _); [injection E as _ <-; done|].
  destruct (negb (bool_decide (resp_token r = []))); [|injection E as _ <-; done].
  destruct (negb (requested s) && negb (legacy s && resp_supported r)) eqn:Eu;
    [injection E as _ <-; done|].
  assert (requested s = true ∨ legacy s = true ∧ resp_supported r = true) as Hasked.
  { destruct (requested s), (legacy s), (resp_supported r); simpl in Eu; auto; done. }
  intros Hp. split; [done|]. split; [eauto|].
  assert (d1 = (save c (resp_token r) info d).2) as ->.
  { rewrite dev_bind_run in E. destruct (save c _ info d) as [[[]|e] d2]; cbn in *; by injection E. }
  clear E. revert Hp. unfold TrustedClient.save.
  destruct (Z.eqb_spec (len (resp_token r)) TOKEN_BYTES); cbn [negb]; [|done].
  rewrite dev_bind_run. unfold on_host. destruct (symmetric_crypt _ _ _) as [o h]. cbn [fst snd].
  rewrite dev_bind_run. destruct o as [x'|]; [|done]. cbn [of_option mret dev_ret fst snd].
  unfold set_trusted_device_v2. cbn [host peers update].
  destruct (PeerConfig.set_trusted_device_v2 _ _ _ _ _) as [[b f] h'].
  intros _. split; [done|]. exists c, f. split; [done|]. by destruct b.
Qed.

End Proofs.
End TrustedClientProofs.
