(* ===== verification/ControllerConfig.v ===== *)
(** * The controller's handler of a login

    [LoginConfigHandler] of client/src/client.rs: what a session knows of its peer,
    the settings it keeps in the peer's file, and the messages that announce them;
    with the keyboard modes of common.rs and libs/base/src/keyboard.rs.  The state is
    the handler with the device's files (TrustedClient.v) and what was sent and shown.
    The build is the desktop one with the Flutter interface. *)
From S2P Require Import Prelude RustStd RecordUpdate Secrets ConfigStore PeerStore Messages HostNames TrustedClient.
From Stdlib Require Import Ascii.

Module ControllerConfig.
Export TrustedClient PeerConfig.
Import HostNames(get_version_number).
Import Messages(ImageQuality, Low, Best, Balanced, BoolOption, Yes, No, of_bool_option, OptionMessage, new_option).
#[export] Existing Instances Messages.eta_option Messages.eta_login.

(** ** Data *)
Inductive ConnType : Type :=
| DEFAULT_CONN | FILE_TRANSFER | PORT_FORWARD | RDP | VIEW_CAMERA | TERMINAL.
#[export] Instance conn_type_eq_dec : EqDecision ConnType.
Proof. solve_decision. Defined.

(** [Hash] of the protocol. *)
Record Hash : Type := mkHash { hash_salt : string; hash_challenge : string }.
#[export] Instance hash_eq_dec : EqDecision Hash.
Proof. solve_decision. Defined.

Inductive PasswordSource : Type := PersonalAb (p : bytes) | SharedAb (p : string) | Undefined.
#[export] Instance source_eq_dec : EqDecision PasswordSource.
Proof. solve_decision. Defined.

Record ConnToken : Type := mkConnToken {
  token_password : bytes;
  token_source : PasswordSource;
  token_session_id : Z;
}.

(** [PeerInfo], as far as the handler reads it. *)
Record PeerInfo : Type := mkPeerInfo {
  pi_version : string;
  pi_username : string;
  pi_hostname : string;
  pi_platform : string;
  pi_features : option bool;   (* of which privacy_mode *)
  pi_encoding : option bytes;
}.

Record LoginConfigHandler : Type := mkHandler {
  lc_id : string;
  conn_type : ConnType;
  clipboard_fast : bool;
  is_terminal_admin : bool;
  hash : Hash;
  lc_password : bytes;
  remember : bool;
  config : PeerConfig;
  port_forward : string * Z;
  port_forward_multiplex : bool;
  lc_version : Z;
  features : option bool;
  lc_session_id : Z;
  supported_encoding : bytes;
  restarting_remote_device : bool;
  restart_remote_device_at : option Z;
  force_relay : bool;
  policy_relay : bool;
  peer_relay : bool;
  direct : option bool;
  was_received : bool;
  switch_uuid : option string;
  switch_back_allowed : bool;
  other_server : option (string * string * string);
  lc_custom_fps : option Z;
  adapter_luid : option Z;
  selected_windows_session_id : option Z;
  password_source : PasswordSource;
  shared_password : option string;
  enable_trusted_devices : bool;
  record_state : bool;
  record_permission : bool;
}.
#[export] Instance eta_handler : Eta LoginConfigHandler := λ h, mkHandler (lc_id h) (conn_type h)
  (clipboard_fast h) (is_terminal_admin h) (hash h) (lc_password h) (remember h) (config h)
  (port_forward h) (port_forward_multiplex h) (lc_version h) (features h) (lc_session_id h)
  (supported_encoding h) (restarting_remote_device h) (restart_remote_device_at h) (force_relay h)
  (policy_relay h) (peer_relay h) (direct h) (was_received h) (switch_uuid h)
  (switch_back_allowed h) (other_server h) (lc_custom_fps h) (adapter_luid h)
  (selected_windows_session_id h) (password_source h) (shared_password h)
  (enable_trusted_devices h) (record_state h) (record_permission h).

(** What leaves the handler: a message to the peer, a box for the user, an event for
    the address book. *)
Inductive Effect : Type :=
| SendLogin (lr : Messages.LoginRequest)
| SendSwitchLogin (uuid : bytes) (lr : Messages.LoginRequest)
| SendCloseReason (reason : string)
| Msgbox (msgtype title text link : string)
| OnError (error : string)
| SyncPeerHash (id hash : string).

Record Client : Type := mkClient {
  lc : LoginConfigHandler;
  dev : Device;
  trust : Session;
  effects : list Effect;
}.
#[export] Instance eta_client : Eta Client := λ c, mkClient (lc c) (dev c) (trust c) (effects c).

Definition Cl (A : Type) : Type := Client → A * Client.
#[export] Instance cl_ret : MRet Cl := λ A a c, (a, c).
#[export] Instance cl_bind : MBind Cl := λ A B k m c, let '(a, c) := m c in k a c.

Definition self {A} (f : LoginConfigHandler → A) : Cl A := λ c, (f (lc c), c).
Definition set_self (f : LoginConfigHandler → LoginConfigHandler) : Cl unit := λ c,
  (tt, c <| lc := f (lc c) |>).
Definition emit (e : Effect) : Cl unit := λ c, (tt, c <| effects := effects c ++ [e] |>).
Definition on_host {A} (m : HostM A) : Cl A := λ c,
  let '(a, h) := m (host (dev c)) in (a, c <| dev := (dev c) <| host := h |> |>).

(** ** Keyboard modes *)
Inductive KeyboardMode : Type := Legacy | Map | Translate | Auto.
#[export] Instance keyboard_eq_dec : EqDecision KeyboardMode.
Proof. solve_decision. Defined.

Definition keyboard_to_string (m : KeyboardMode) : string :=
  match m with Legacy => "legacy" | Map => "map" | Translate => "translate" | Auto => "auto" end.

Definition keyboard_from_str (s : string) : option KeyboardMode :=
  if s ==s "legacy" then Some Legacy else if s ==s "map" then Some Map
  else if s ==s "translate" then Some Translate else if s ==s "auto" then Some Auto else None.

Definition KEYBOARD_MODES : list KeyboardMode := [Legacy; Map; Translate; Auto].
Definition PLATFORM_ANDROID : string := "Android".

(** ** Libraries and settings of the program *)

(** [serde_json] of a connection token and of the remote directories, and the
    Unicode case mapping. *)
Class LoginLibs : Type := {
  conn_token_to_json : ConnToken → string;
  conn_token_from_json : string → option ConnToken;
  remote_dirs_from_json : string → option (gmap string string);
  remote_dirs_to_json : gmap string string → string;
  to_lowercase : string → string;
  parse_uuid : string → option bytes;
}.
Class LoginLaws `{!LoginLibs} : Prop := {
  conn_token_round_trip t : conn_token_from_json (conn_token_to_json t) = Some t;
}.

(** The static settings, and the defaults of a peer's file. *)
Class Program : Type := {
  OVERWRITE_SETTINGS : gmap string string;
  DEFAULT_SETTINGS : gmap string string;
  BUILTIN_SETTINGS : gmap string string;
  HARD_SETTINGS : gmap string string;
  EXE_RENDEZVOUS_SERVER : string;
  PROD_RENDEZVOUS_SERVER : string;
  mac_address : option (list Z);
  hostname : option string;
  default_options : gmap string string;
  default_settings : Settings;
  VERSION : string;
}.

Definition PUBLIC_SERVER : string := "public".
Definition RENDEZVOUS_PORT : string := "21116".
Definition RS_PUB_KEY : string := "".
Definition OPTION_TERMINAL_PERSISTENT : string := "terminal-persistent".
Definition OPTION_ENABLE_FILE_COPY_PASTE : string := "enable-file-copy-paste".
Definition RESTART_REMOTE_DEVICE_GRACE : Z := 5 * 60 * 1000.  (* milliseconds *)

Section Model.
Context `{!Crypto, !Entropy, !LoginLibs, !Program}.

(** ** Versions and keyboards *)
Definition is_keyboard_mode_supported (m : KeyboardMode) (version_number : Z)
    (peer_platform : string) : bool :=
  match m with
  | Legacy => true
  | Map =>
      if to_lowercase peer_platform ==s to_lowercase PLATFORM_ANDROID then false
      else get_version_number "1.2.0" <=? version_number
  | Translate | Auto => get_version_number "1.2.0" <=? version_number
  end.

Definition get_supported_keyboard_modes (version : Z) (peer_platform : string) :
    list KeyboardMode :=
  filter (λ m, is_keyboard_mode_supported m version peer_platform = true) KEYBOARD_MODES.

(** ** The peer's file *)
Definition load_config : Cl PeerConfig := λ c,
  let i := lc_id (lc c) in
  let '((cfg, f), h) :=
    PeerConfig.load default_options default_settings (TrustedClient.peer_file i (dev c)) (host (dev c)) in
  (cfg, c <| dev := mkDevice h (<[i := f]> (peers (dev c))) |>).

Definition store_config (cfg : PeerConfig) : Cl unit := λ c,
  let i := lc_id (lc c) in
  let '(f, h) :=
    PeerConfig.store_ default_options default_settings cfg (TrustedClient.peer_file i (dev c)) (host (dev c)) in
  (tt, c <| dev := mkDevice h (<[i := f]> (peers (dev c))) |>).

Definition save_config (cfg : PeerConfig) : Cl unit :=
  store_config cfg;;
  set_self (λ l, l <| config := cfg |>).

(** Load, change, save. *)
Definition change_config (f : PeerConfig → PeerConfig) : Cl unit :=
  cfg ← load_config;
  save_config (f cfg).

Definition change_settings (f : Settings → Settings) : Cl unit :=
  change_config (λ c, c <| settings := f (settings c) |>).

Definition get_option (k : string) (l : LoginConfigHandler) : string :=
  default "" (options (config l) !! k).

Definition set_option (k v : string) : Cl unit :=
  cfg ← load_config;
  current ← self (get_option k);
  if v ==s current then mret tt
  else save_config (cfg <| options := <[k := v]> (options cfg) |>).

Definition save_view_style (v : string) : Cl unit := change_settings (λ s, s <| view_style := v |>).
Definition save_keyboard_mode (v : string) : Cl unit :=
  change_settings (λ s, s <| keyboard_mode := v |>).
Definition save_reverse_mouse_wheel (v : string) : Cl unit :=
  change_settings (λ s, s <| reverse_mouse_wheel := v |>).
Definition save_displays_as_individual_windows (v : string) : Cl unit :=
  change_settings (λ s, s <| displays_as_individual_windows := v |>).
Definition save_use_all_my_displays_for_the_remote_session (v : string) : Cl unit :=
  change_settings (λ s, s <| use_all_my_displays_for_the_remote_session := v |>).
Definition save_scroll_style (v : string) : Cl unit :=
  change_settings (λ s, s <| scroll_style := v |>).
Definition save_edge_scroll_edge_thickness (v : Z) : Cl unit :=
  change_settings (λ s, s <| edge_scroll_edge_thickness := v |>).
Definition save_trackpad_speed (v : Z) : Cl unit :=
  change_settings (λ s, s <| trackpad_speed := v |>).
Definition save_ui_flutter (k v : string) : Cl unit :=
  change_settings (λ s, s <| ui_flutter :=
    if is_empty v then delete k (ui_flutter s) else <[k := v]> (ui_flutter s) |>).
Definition get_ui_flutter (k : string) (l : LoginConfigHandler) : string :=
  default "" (ui_flutter (settings (config l)) !! k).
Definition set_direct_failure (v : Z) : Cl unit :=
  change_settings (λ s, s <| direct_failures := v |>).

Definition get_custom_resolution (display : Z) (l : LoginConfigHandler) : option (Z * Z) :=
  custom_resolutions (settings (config l)) !! int_to_string display.
Definition set_custom_resolution (display : Z) (wh : option (Z * Z)) : Cl unit :=
  change_settings (λ s, s <| custom_resolutions :=
    match wh with
    | Some r => <[int_to_string display := r]> (custom_resolutions s)
    | None => delete (int_to_string display) (custom_resolutions s)
    end |>).

(** ** Toggles *)
Definition get_toggle_option (name : string) (l : LoginConfigHandler) : bool :=
  let s := settings (config l) in
  if name ==s "show-remote-cursor" then show_remote_cursor s
  else if name ==s "lock-after-session-end" then lock_after_session_end s
  else if name ==s OPTION_TERMINAL_PERSISTENT then terminal_persistent s
  else if name ==s "privacy-mode" then privacy_mode s
  else if name ==s OPTION_ENABLE_FILE_COPY_PASTE then enable_file_copy_paste s
  else if name ==s "disable-audio" then disable_audio s
  else if name ==s "disable-clipboard" then disable_clipboard s
  else if name ==s "show-quality-monitor" then show_quality_monitor s
  else if name ==s "allow_swap_key" then allow_swap_key s
  else if name ==s "view-only" then view_only s
  else if name ==s "show-my-cursor" then show_my_cursor s
  else if name ==s "follow-remote-cursor" then follow_remote_cursor s
  else if name ==s "follow-remote-window" then follow_remote_window s
  else negb (is_empty (get_option name l)).

Definition yes_no (b : bool) : Z := of_bool_option (if b then Yes else No).

(** What turning [view-only] on or off announces and stores. *)
Definition toggle_view_only (s : Settings) (l : LoginConfigHandler) : OptionMessage * Settings :=
  let s := s <| view_only := negb (view_only s) |> in
  if view_only s then
    (new_option <| Messages.disable_keyboard := yes_no true |>
       <| Messages.disable_clipboard := yes_no true |>
       <| Messages.show_remote_cursor := yes_no true |>
       <| Messages.enable_file_transfer := yes_no false |>
       <| Messages.lock_after_session_end := yes_no false |>, s)
  else
    let o := new_option <| Messages.disable_keyboard := yes_no false |>
       <| Messages.disable_clipboard := yes_no (get_toggle_option "disable-clipboard" l) |>
       <| Messages.show_remote_cursor := yes_no (get_toggle_option "show-remote-cursor" l) |>
       <| Messages.enable_file_transfer := yes_no (enable_file_copy_paste (settings (config l))) |>
       <| Messages.lock_after_session_end := yes_no (lock_after_session_end (settings (config l))) |> in
    if show_my_cursor s
    then (o <| Messages.show_my_cursor := yes_no false |>, s <| show_my_cursor := false |>)
    else (o, s).

(** The message and the new settings of a toggle with a setting or message of its
    own; [None] for one that is kept among the options. *)
Definition toggle_setting (name : string) (s : Settings) (l : LoginConfigHandler) :
    option (OptionMessage * Settings) :=
  let o := new_option in
  if name ==s "show-remote-cursor" then
    let s := s <| show_remote_cursor := negb (show_remote_cursor s) |> in
    Some (o <| Messages.show_remote_cursor := yes_no (show_remote_cursor s) |>, s)
  else if name ==s "follow-remote-cursor" then
    let s := s <| follow_remote_cursor := negb (follow_remote_cursor s) |> in
    Some (o <| Messages.follow_remote_cursor := yes_no (follow_remote_cursor s) |>, s)
  else if name ==s "follow-remote-window" then
    let s := s <| follow_remote_window := negb (follow_remote_window s) |> in
    Some (o <| Messages.follow_remote_window := yes_no (follow_remote_window s) |>, s)
  else if name ==s "disable-audio" then
    let s := s <| disable_audio := negb (disable_audio s) |> in
    Some (o <| Messages.disable_audio := yes_no (disable_audio s) |>, s)
  else if name ==s "disable-clipboard" then
    let s := s <| disable_clipboard := negb (disable_clipboard s) |> in
    Some (o <| Messages.disable_clipboard := yes_no (disable_clipboard s) |>, s)
  else if name ==s "lock-after-session-end" then
    let s := s <| lock_after_session_end := negb (lock_after_session_end s) |> in
    Some (o <| Messages.lock_after_session_end := yes_no (lock_after_session_end s) |>, s)
  else if name ==s OPTION_TERMINAL_PERSISTENT then
    let s := s <| terminal_persistent := negb (terminal_persistent s) |> in
    Some (o <| Messages.terminal_persistent := yes_no (terminal_persistent s) |>, s)
  else if name ==s "privacy-mode" then
    Some (o <| Messages.privacy_mode := yes_no (negb (privacy_mode s)) |>, s)
  else if name ==s "enable-file-copy-paste" then
    let s := s <| enable_file_copy_paste := negb (enable_file_copy_paste s) |> in
    Some (o <| Messages.enable_file_transfer := yes_no (enable_file_copy_paste s) |>, s)
  else if name ==s "block-input" then Some (o <| Messages.block_input := yes_no true |>, s)
  else if name ==s "unblock-input" then Some (o <| Messages.block_input := yes_no false |>, s)
  else if name ==s "show-quality-monitor" then
    Some (o, s <| show_quality_monitor := negb (show_quality_monitor s) |>)
  else if name ==s "allow_swap_key" then
    Some (o, s <| allow_swap_key := negb (allow_swap_key s) |>)
  else if name ==s "view-only" then Some (toggle_view_only s l)
  else if name ==s "show-my-cursor" then
    let s := s <| show_my_cursor := negb (show_my_cursor s) |> in
    Some (o <| Messages.show_my_cursor := yes_no (show_my_cursor s) |>, s)
  else None.

(** [name.contains("block-input")], for the names of [toggle_setting]. *)
Definition is_block_input (name : string) : bool :=
  (name ==s "block-input") || (name ==s "unblock-input").

Definition toggle_option (name : string) : Cl (option OptionMessage) :=
  cfg ← load_config;
  l ← self (λ l, l);
  match toggle_setting name (settings cfg) l with
  | Some (o, s) =>
      (if is_block_input name then mret tt else save_config (cfg <| settings := s |>));;
      mret (Some o)
  | None =>
      let is_set := default false ((λ o, negb (is_empty o)) <$> options (config l) !! name) in
      let cfg := (config l) <| options :=
        if is_set then delete name (options (config l)) else <[name := "Y"]> (options (config l)) |> in
      set_self (λ l, l <| config := cfg |>);;
      store_config cfg;;
      mret None
  end.

(** ** Quality *)
Definition get_image_quality_enum (q : string) (ignore_default : bool) : option ImageQuality :=
  if q ==s "low" then Some Low
  else if q ==s "best" then Some Best
  else if q ==s "balanced" then if ignore_default then None else Some Balanced
  else None.
Definition of_image_quality (q : ImageQuality) : Z :=
  match q with Messages.QNotSet => 0 | Low => 2 | Balanced => 3 | Best => 4 end.

Definition shl8 (q : Z) : Z := as_i32 (Z.shiftl q 8).

Definition save_custom_image_quality (q : Z) : Cl OptionMessage :=
  change_settings (λ s, s <| image_quality := "custom" |> <| custom_image_quality := [q] |>);;
  mret (new_option <| Messages.custom_image_quality := shl8 q |>).

Definition save_image_quality (value : string) : Cl (option OptionMessage) :=
  change_settings (λ s, s <| image_quality := value |>);;
  mret ((λ q, new_option <| Messages.image_quality := of_image_quality q |>)
    <$> get_image_quality_enum value false).

Definition set_custom_fps (fps : Z) (save : bool) : Cl OptionMessage :=
  (if save then
     change_config (λ c, c <| options := <["custom-fps" := int_to_string fps]> (options c) |>)
   else mret tt);;
  set_self (λ l, l <| lc_custom_fps := Some (as_u64 fps) |>);;
  mret (new_option <| Messages.custom_fps := fps |>).

(** [get_custom_rendezvous_server] and [using_public_server], not on Windows. *)
Definition get_custom_rendezvous_server (custom : string) : string :=
  if negb (is_empty custom) then custom
  else if negb (is_empty PROD_RENDEZVOUS_SERVER) then PROD_RENDEZVOUS_SERVER
  else "".
Definition using_public_server (h : Host) : bool :=
  is_empty (get_custom_rendezvous_server
    (ConfigStore.get_option OVERWRITE_SETTINGS DEFAULT_SETTINGS "custom-rendezvous-server" h)).

(** The quality the user chose, where it is not one of the levels. *)
Definition custom_quality (o : OptionMessage) : Cl OptionMessage :=
  cfg ← load_config;
  l ← self (λ l, l);
  public ← on_host (gets using_public_server);
  let allow_more := negb public || bool_decide (direct l = Some true) in
  let quality :=
    match custom_image_quality (settings cfg) with
    | [] => 50
    | q :: _ => if negb allow_more && (100 <? q) then 50 else q
    end in
  let o := o <| Messages.custom_image_quality := shl8 quality |> in
  match options (config l) !! "custom-fps" with
  | Some fps =>
      let fps := default 30 (parse_i32 fps) in
      let fps := if negb allow_more && (30 <? fps) then 30 else fps in
      set_self (λ l, l <| lc_custom_fps := Some (as_u64 fps) |>);;
      mret (o <| Messages.custom_fps := fps |>)
  | None => mret o
  end.

(** [get_option_message]; [supported_decoding] is what the codecs answer. *)
Definition get_option_message (supported_decoding : bytes) (ignore_default : bool) :
    Cl (option OptionMessage) :=
  l ← self (λ l, l);
  let get name := get_toggle_option name l in
  match conn_type l with
  | PORT_FORWARD | RDP | FILE_TRANSFER => mret None
  | TERMINAL =>
      mret (if get OPTION_TERMINAL_PERSISTENT
            then Some (new_option <| Messages.terminal_persistent := yes_no true |>) else None)
  | DEFAULT_CONN | VIEW_CAMERA =>
      let q := image_quality (settings (config l)) in
      msg ← (match get_image_quality_enum q ignore_default with
             | Some e => mret (new_option <| Messages.image_quality := of_image_quality e |>)
             | None => if q ==s "custom" then custom_quality new_option else mret new_option
             end);
      let view_only := get "view-only" in
      let set (b : bool) (f : OptionMessage → OptionMessage) (m : OptionMessage) :=
        if b then f m else m in
      mret (Some
        (set true (λ m, m <| Messages.supported_decoding := Some supported_decoding |>)
        (set (view_only || get "disable-clipboard")
          (λ m, m <| Messages.disable_clipboard := yes_no true |>)
        (set (negb view_only && get OPTION_ENABLE_FILE_COPY_PASTE)
          (λ m, m <| Messages.enable_file_transfer := yes_no true |>)
        (set (get "disable-audio") (λ m, m <| Messages.disable_audio := yes_no true |>)
        (set (negb view_only && get "lock-after-session-end")
          (λ m, m <| Messages.lock_after_session_end := yes_no true |>)
        (set (get "follow-remote-window")
          (λ m, m <| Messages.follow_remote_window := yes_no true |>)
        (set (get "follow-remote-cursor")
          (λ m, m <| Messages.follow_remote_cursor := yes_no true |>)
        (set (view_only && get "show-my-cursor")
          (λ m, m <| Messages.show_my_cursor := yes_no true |>)
        (set (view_only || get "show-remote-cursor")
          (λ m, m <| Messages.show_remote_cursor := yes_no true |>)
        (set view_only (λ m, m <| Messages.disable_keyboard := yes_no true |>) msg)))))))))))
  end.

(** ** Small queries *)
Definition is_privacy_mode_supported (l : LoginConfigHandler) : bool := default false (features l).

Definition should_auto_login (l : LoginConfigHandler) : string :=
  let p := get_option "os-password" l in
  if negb (is_empty p) && lock_after_session_end (settings (config l))
     && negb (is_empty (get_option "auto-login" l))
  then p else "".

Definition get_username (pi : PeerInfo) (l : LoginConfigHandler) : string :=
  if is_empty (pi_username pi) then (info (config l)).1.1 else pi_username pi.

Definition remote_dirs (l : LoginConfigHandler) : gmap string string :=
  default ∅ (remote_dirs_from_json (get_option "remote_dir" l)).
Definition get_remote_dir (l : LoginConfigHandler) : string :=
  default "" (remote_dirs l !! (info (config l)).1.1).
Definition get_all_remote_dir (path : string) (l : LoginConfigHandler) : string :=
  let user := (info (config l)).1.1 in
  remote_dirs_to_json
    (if is_empty path then delete user (remote_dirs l) else <[user := path]> (remote_dirs l)).

Definition mark_restarting_remote_device (now : Z) : Cl unit :=
  set_self (λ l, l <| restarting_remote_device := true |>
                   <| restart_remote_device_at := Some now |>).
Definition clear_restarting_remote_device : Cl unit :=
  set_self (λ l, l <| restarting_remote_device := false |> <| restart_remote_device_at := None |>).
Definition is_restarting_remote_device (now : Z) (l : LoginConfigHandler) : bool :=
  restarting_remote_device l &&
  match restart_remote_device_at l with
  | Some at_ => now - at_ <? RESTART_REMOTE_DEVICE_GRACE
  | None => false
  end.

Definition allow_switch_back_once : Cl unit := set_self (λ l, l <| switch_back_allowed := true |>).
Definition consume_switch_back_permission : Cl bool :=
  allowed ← self switch_back_allowed;
  if allowed : bool then set_self (λ l, l <| switch_back_allowed := false |>);; mret true
  else mret false.

Definition get_conn_token (l : LoginConfigHandler) : option string :=
  if bool_decide (lc_password l = []) then None
  else Some (conn_token_to_json
    (mkConnToken (lc_password l) (password_source l) (lc_session_id l))).

Definition get_key_terminal_service_id (l : LoginConfigHandler) : string :=
  if is_terminal_admin l then "terminal-admin-service-id" else "terminal-service-id".

End Model.
End ControllerConfig.
