(* ===== verification/ControllerLogin.v ===== *)
(** * Logging in, from the controller's side

    [initialize], [create_login_msg] and [handle_peer_info] of [LoginConfigHandler],
    and [handle_hash], [handle_login_from_ui], [handle_login_error] and what they call
    in client/src/client.rs.  The state is the [Client] of ControllerConfig.v.  What
    one operation reads of the system is an [Env]; the names shown to the peer
    (display name, avatar) come from there. *)
From S2P Require Import Prelude RustStd RecordUpdate Secrets ConfigStore PeerStore Messages HostNames TrustedClient ControllerConfig.
From Stdlib Require Import Ascii.

Module ControllerLogin.
Export ControllerConfig.

Definition LOGIN_MSG_PASSWORD_EMPTY : string := "Empty Password".
Definition LOGIN_MSG_PASSWORD_WRONG : string := "Wrong Password".
Definition LOGIN_MSG_2FA_WRONG : string := "Wrong 2FA Code".
Definition REQUIRE_2FA : string := "2FA Required".
Definition LOGIN_MSG_NO_PASSWORD_ACCESS : string := "No Password Access".
Definition LOGIN_SCREEN_WAYLAND : string := "Wayland login screen is not supported".
Definition SCRAP_X11_REQUIRED : string := "x11 expected".
Definition SCRAP_X11_REF_URL : string := "https://rustdesk.com/docs/en/manual/linux/#x11-required".

(** An address book: its name and the id and hash of its peers. *)
Record AbEntry : Type := mkEntry { ab_name : string; ab_peers : list (string * string) }.
Record Ab : Type := mkAb { ab_token : string; ab_entries : list AbEntry }.
Definition personal (e : AbEntry) : bool :=
  (ab_name e ==s "My address book") || (ab_name e ==s "Legacy address book").

(** What an operation reads of the system: the texts shown to the peer, the
    hardware id, the codecs, the transport, a random session id, the environment,
    the address book with the account's token, whether the local service confirms a
    pending switch of sides, and whether sending succeeds. *)
Record Env : Type := mkEnv {
  display_name : string;
  avatar : string;
  platform : string;
  get_hwid : bytes;
  supported_decodings : bytes;
  is_proxy : bool;
  use_ws : bool;
  random_session_id : Z;
  IS_TERMINAL_ADMIN : option string;
  access_token : string;
  address_book : Ab;
  local_switch_uuid : string → bytes → bool;
  send_ok : bool;
}.

(** [err.contains(p)] *)
Definition contains_str (p s : string) : bool := bool_decide (is_Some (String.index 0 p s)).

(** [s.find('=')] as the text before and after it. *)
Fixpoint split_once (c : ascii) (s : string) : option (string * string) :=
  match s with
  | "" => None
  | String a s =>
      if bool_decide (a = c) then Some ("", s)
      else '(x, y) ← split_once c s; Some (String a x, y)
  end.

Section Model.
Context `{!Crypto, !Entropy, !SavedJson, !LoginLibs, !Program}.

(** ** Where the sent password comes from *)
Definition is_personal_ab (s : PasswordSource) (password : bytes) : bool :=
  if bool_decide (password = []) then false
  else match s with PersonalAb p => bool_decide (p = password) | _ => false end.

Definition hash_password (password : string) (h : Hash) : bytes :=
  sha256 (as_bytes password ++ as_bytes (hash_salt h)).

Definition equal (password : string) (connected_password : bytes) (h : Hash) : bool :=
  bool_decide (connected_password = hash_password password h).

Definition is_shared_ab (s : PasswordSource) (password : bytes) (h : Hash) : bool :=
  if bool_decide (password = []) then false
  else match s with SharedAb p => equal p password h | _ => false end.

(** ** Starting a session *)
Definition handle_relay_id (id : string) : string :=
  let n := String.length id in
  let suffix := String.substring (n - 2) 2 id in
  if (2 <=? str_len id) && ((suffix ==s "\r") || (suffix ==s "/r"))
  then String.substring 0 (n - 2) id else id.

(** The arguments after [?], later ones winning. *)
Definition parse_args (args : string) : gmap string string :=
  foldl (λ m arg, match split_once "=" arg with
                  | Some (k, v) => <[to_lowercase k := v]> m
                  | None => m
                  end) ∅ (RustStd.split "&" args).

(** The id, the other server and whether the id asks for a relay. *)
Definition parse_id (id : string) : string * option (string * string * string) * bool :=
  if contains "@" id then
    let v := RustStd.split "@" id in
    let raw_id := default "" (v !! 0%nat) in
    let server_key := RustStd.split "?" (default "" (v !! 1%nat)) in
    let server := default "" (server_key !! 0%nat) in
    let args := default "" (server_key !! 1%nat) in
    let key := if server ==s PUBLIC_SERVER then RS_PUB_KEY
               else default "" (parse_args args !! "key") in
    let real_id := handle_relay_id raw_id in
    (real_id +:+ "@" +:+ server, Some (real_id, server, key), negb (real_id ==s raw_id))
  else
    let real_id := handle_relay_id id in
    (real_id, None, negb (real_id ==s id)).

Definition initialize (E : Env) (id : string) (conn : ConnType) (switch_uuid' : option string)
    (force : bool) (adapter : option Z) (shared : option string) (conn_token : option string) :
    Cl unit :=
  let '(id, other, relay) := parse_id id in
  let force := force || relay in
  set_self (λ l, (l <| lc_id := id |> <| conn_type := conn |>) <| other_server :=
    match other with Some o => Some o | None => other_server l end |>);;
  cfg ← load_config;
  set_self (λ l, l <| remember := negb (bool_decide (PeerConfig.password cfg = [])) |>
    <| config := cfg |>);;
  let token := conn_token ≫= conn_token_from_json in
  (match token with
   | Some t => set_self (λ l, l <| lc_password := token_password t |>
                                <| password_source := token_source t |>)
   | None => mret tt
   end);;
  let sid := default 0 (token_session_id <$> token) in
  let random := if random_session_id E =? 0 then 1 else random_session_id E in
  set_self (λ l, l <| lc_session_id := if sid =? 0 then random else sid |>
    <| supported_encoding := [] |>);;
  clear_restarting_remote_device;;
  set_self (λ l,
    let peer := TransportConfig.TransportConfig.option2bool "force-always-relay"
      (get_option "force-always-relay" l) || force in
    let policy := peer || is_proxy E in
    l <| peer_relay := peer |> <| policy_relay := policy |> <| force_relay := policy || use_ws E |>);;
  set_self (λ l,
    match other_server l with
    | Some (real_id, server, key) =>
        let stored := get_option "other-server-key" l in
        if negb (is_empty stored) && is_empty key
        then l <| other_server := Some (real_id, server, stored) |> else l
    | None => l
    end);;
  set_self (λ l, l <| direct := None |> <| was_received := false |>
    <| switch_back_allowed := false |> <| switch_uuid := switch_uuid' |>
    <| adapter_luid := adapter |> <| selected_windows_session_id := None |>
    <| shared_password := shared |> <| record_state := false |> <| record_permission := true |>
    <| is_terminal_admin := bool_decide (conn = TERMINAL) &&
         bool_decide (IS_TERMINAL_ADMIN E = Some "Y") |>).

(** ** The login request *)
Definition get_rendezvous_server (h : Host) : string :=
  let first_of (a b : string) := if is_empty a then b else a in
  let s :=
    first_of (first_of (first_of (first_of EXE_RENDEZVOUS_SERVER
      (ConfigStore.get_option OVERWRITE_SETTINGS DEFAULT_SETTINGS "custom-rendezvous-server" h))
      PROD_RENDEZVOUS_SERVER) (rendezvous_server (CONFIG2 h)))
      (default "" (head (get_rendezvous_servers OVERWRITE_SETTINGS DEFAULT_SETTINGS
         EXE_RENDEZVOUS_SERVER PROD_RENDEZVOUS_SERVER h))) in
  if contains ":" s then s else s +:+ ":" +:+ RENDEZVOUS_PORT.

Definition create_login_msg (E : Env) (os_username : string) (password : bytes) :
    Cl Messages.LoginRequest :=
  my_id ← on_host (ConfigStore.get_id BUILTIN_SETTINGS mac_address hostname);
  l ← self (λ l, l);
  server ← on_host (gets get_rendezvous_server);
  let '(my_id, pure_id) :=
    match other_server l with
    | Some (id, _, _) => (my_id +:+ "@" +:+ server, id)
    | None => (my_id, lc_id l)
    end in
  option ← get_option_message (supported_decodings E) true;
  let lr := Messages.default_login
    <| Messages.username := pure_id |> <| Messages.lr_password := password |>
    <| Messages.my_id := my_id |> <| Messages.my_name := display_name E |>
    <| Messages.my_platform := platform E |> <| Messages.option_of := option |>
    <| Messages.session_id := lc_session_id l |> <| Messages.version := VERSION |>
    <| Messages.os_username := if bool_decide (conn_type l = TERMINAL) then os_username else "" |>
    <| Messages.hwid := if get_option "trust-this-device" l ==s "Y" then get_hwid E else [] |>
    <| Messages.avatar := avatar E |> in
  mret (lr <| Messages.union :=
    match conn_type l with
    | FILE_TRANSFER => Some (Messages.FileTransfer (get_remote_dir l)
        (negb (is_empty (get_option "remote_show_hidden" l))) (clipboard_fast l))
    | VIEW_CAMERA => Some Messages.ViewCamera
    | PORT_FORWARD | RDP =>
        Some (Messages.PortForward (port_forward l).1 (port_forward l).2 (port_forward_multiplex l))
    | TERMINAL => Some (Messages.Terminal (get_option (get_key_terminal_service_id l) l))
    | DEFAULT_CONN => None
    end |>).

(** [trust.login(..).await?], then the send. *)
Definition trust_and_send (E : Env) (msg : Messages.LoginRequest) : Cl (result unit string) := λ c,
  let '(r, d) := login default_options default_settings (trust c) msg (dev c) in
  let c := c <| dev := d |> in
  match r with
  | Err e => (Err e, c)
  | Ok (s, msg) =>
      let c := c <| trust := s |> in
      if send_ok E then (Ok tt, c <| effects := effects c ++ [SendLogin msg] |>)
      else (Err "send failed", c)
  end.

Definition send_login (E : Env) (os_username : string) (password : bytes) :
    Cl (result unit string) :=
  msg ← create_login_msg E os_username password;
  trust_and_send E msg.

Definition send_switch_login_request (E : Env) (uuid : bytes) : Cl unit :=
  lr ← create_login_msg E "" [];
  if send_ok E then emit (SendSwitchLogin uuid lr) else mret tt.

(** ** The peer's challenge *)
Definition is_incoming_only : bool := bool_decide (HARD_SETTINGS !! "conn-type" = Some "incoming").

Definition set_source (s : PasswordSource) : Cl unit := set_self (λ l, l <| password_source := s |>).

Definition try_get_password_from_personal_ab (E : Env) (password : bytes) : Cl bytes :=
  let ab := address_book E in
  id ← self lc_id;
  match
    (if negb (is_empty (access_token E)) && (access_token E ==s ab_token ab) then
       e ← list_find (λ e, personal e = true) (ab_entries ab);
       p ← list_find (λ p, p.1 = id) (ab_peers e.2);
       b64_decode (as_bytes p.2.2)
     else None)
  with
  | Some (x :: l) => set_source (PersonalAb (x :: l));; mret (x :: l)
  | _ => mret password
  end.

(** The password to use, by the order of the sources: the last one, the preset one,
    that of a shared address book, the peer's file, the user's own address book and
    the default of the program. *)
Definition choose_password (E : Env) (password_preset : string) (h : Hash) : Cl bytes :=
  password ← self lc_password;
  password ← (if bool_decide (password = []) && negb (is_empty password_preset) then
                set_source Undefined;; mret (hash_password password_preset h)
              else mret password);
  shared ← self shared_password;
  set_self (λ l, l <| shared_password := None |>);;
  password ← (match shared with
              | Some p =>
                  if is_empty p then mret password
                  else set_source (SharedAb p);; mret (hash_password p h)
              | None => mret password
              end);
  password ← (if bool_decide (password = []) then
                p ← self (λ l, PeerConfig.password (config l));
                (if bool_decide (p = []) then mret tt else set_source Undefined);;
                mret p
              else mret password);
  password ← (if bool_decide (password = [])
              then try_get_password_from_personal_ab E password else mret password);
  if bool_decide (password = []) then
    let p := default "" (BUILTIN_SETTINGS !! "default-connect-password") in
    if is_empty p then mret password
    else set_source (SharedAb p);; mret (hash_password p h)
  else mret password.

(** The answer to the challenge. *)
Definition answer (password : bytes) (h : Hash) : bytes :=
  sha256 (password ++ as_bytes (hash_challenge h)).

Definition set_hash (h : Hash) : Cl unit := set_self (λ l, l <| hash := h |>).

Definition login_with_password (E : Env) (password_preset : string) (h : Hash) : Cl bool :=
  password ← choose_password E password_preset h;
  set_self (λ l, l <| lc_password := password |>);;
  l ← self (λ l, l);
  if bool_decide (conn_type l = TERMINAL) && is_terminal_admin l then
    (if bool_decide (password = []) then emit (Msgbox "terminal-admin-login-password" "" "" "")
     else emit (Msgbox "terminal-admin-login" "" "" ""));;
    set_hash h;;
    mret true
  else
    password ← (if bool_decide (password = []) then
                  emit (Msgbox "input-password" "Password Required" "" "");; mret []
                else mret (answer password h));
    r ← send_login E "" password;
    match r with
    | Err e => emit (OnError e);; mret false
    | Ok _ => set_hash h;; mret true
    end.

Definition handle_hash (E : Env) (password_preset : string) (h : Hash) : Cl bool :=
  set_hash h;;
  uuid ← self switch_uuid;
  set_self (λ l, l <| switch_uuid := None |>);;
  id ← self lc_id;
  match (u ← (uuid ≫= parse_uuid); if local_switch_uuid E id u then Some u else None) with
  | Some u =>
      allow_switch_back_once;;
      send_switch_login_request E u;;
      set_source Undefined;;
      mret true
  | None =>
      if is_incoming_only then
        emit (Msgbox "error" "Connection Error" "Incoming only mode" "");;
        (if send_ok E
         then emit (SendCloseReason "Connection not allowed in incoming-only mode") else mret tt);;
        mret false
      else login_with_password E password_preset h
  end.

(** ** The user's answer *)
Definition handle_login_from_ui (E : Env) (os_username password : string) (remember' : bool) :
    Cl (result unit string) :=
  hashed ← (if is_empty password then
              p ← self lc_password;
              if bool_decide (p = []) then
                p ← self (λ l, PeerConfig.password (config l));
                (if bool_decide (p = []) then mret tt else set_source Undefined);;
                mret p
              else mret p
            else
              set_source Undefined;;
              h ← self hash;
              set_self (λ l, l <| remember := remember' |>);;
              mret (hash_password password h));
  set_self (λ l, l <| lc_password := hashed |>);;
  h ← self hash;
  send_login E os_username (answer hashed h).

(** ** The peer's verdict *)
Definition handle_login_error (err : string) : Cl bool :=
  if err ==s LOGIN_MSG_PASSWORD_EMPTY then
    set_self (λ l, l <| lc_password := [] |>);;
    emit (Msgbox "input-password" "Password Required" "" "");;
    mret true
  else if err ==s LOGIN_MSG_PASSWORD_WRONG then
    set_self (λ l, l <| lc_password := [] |>);;
    emit (Msgbox "re-input-password" err "Do you want to enter again?" "");;
    mret true
  else if (err ==s LOGIN_MSG_2FA_WRONG) || (err ==s REQUIRE_2FA) then
    enabled ← self (λ l, get_option "trust-this-device" l ==s "Y");
    (if enabled : bool then set_option "trust-this-device" "" else mret tt);;
    emit (Msgbox "input-2fa" err "" "");;
    mret true
  else if err ==s LOGIN_SCREEN_WAYLAND then
    emit (Msgbox "error" "Login Error" "Login screen using Wayland is not supported"
      "https://rustdesk.com/docs/en/manual/linux/#login-screen");;
    mret true
  else if err ==s LOGIN_MSG_NO_PASSWORD_ACCESS then
    emit (Msgbox "wait-remote-accept-nook" "Prompt"
      "Please wait for the remote side to accept your session request..." "");;
    mret true
  else
    emit (Msgbox "error" "Login Error" err
      (if contains_str SCRAP_X11_REQUIRED err then SCRAP_X11_REF_URL else ""));;
    mret false.

(** The password of the peer's file after a login. *)
Definition remembered_password (l : LoginConfigHandler) (password0 : bytes) : bytes :=
  let password := lc_password l in
  if remember l then
    if negb (bool_decide (password = [])) && negb (bool_decide (password = password0))
       && negb (is_shared_ab (password_source l) password (hash l))
    then password else password0
  else if is_personal_ab (password_source l) password then password
  else if negb (bool_decide (password0 = [])) then [] else password0.

Definition peer_options (l : LoginConfigHandler) (o : gmap string string) : gmap string string :=
  let o := match other_server l with
           | Some (_, b, c) => if b ==s PUBLIC_SERVER then o else <["other-server-key" := c]> o
           | None => o
           end in
  if peer_relay l then <["force-always-relay" := "Y"]> o else o.

Definition peer_keyboard_mode (pi : PeerInfo) (mode : string) : string :=
  let version := HostNames.get_version_number (pi_version pi) in
  if is_empty mode then
    keyboard_to_string
      (if is_keyboard_mode_supported Map version (pi_platform pi) then Map else Legacy)
  else if bool_decide (default Legacy (keyboard_from_str mode)
            ∈ get_supported_keyboard_modes version (pi_platform pi))
  then mode else keyboard_to_string Legacy.

Definition handle_peer_info (pi : PeerInfo) : Cl unit :=
  set_self (λ l, (if is_empty (pi_version pi) then l
                  else l <| lc_version := HostNames.get_version_number (pi_version pi) |>)
                   <| features := pi_features pi |>);;
  cfg ← load_config;
  l ← self (λ l, l);
  let cfg := cfg <| info := (pi_username pi, pi_hostname pi, pi_platform pi) |>
    <| PeerConfig.password := remembered_password l (PeerConfig.password cfg) |>
    <| options := peer_options l (options cfg) |> in
  let p := PeerConfig.password cfg in
  (if negb (bool_decide (p = []))
      && negb (is_shared_ab (password_source l) (lc_password l) (hash l))
      && negb (is_personal_ab (password_source l) (lc_password l))
   then emit (SyncPeerHash (lc_id l) (b64_encode p)) else mret tt);;
  save_config (cfg <| settings := (settings cfg) <| keyboard_mode :=
    peer_keyboard_mode pi (keyboard_mode (settings cfg)) |> |>);;
  set_self (λ l, l <| supported_encoding := default [] (pi_encoding pi) |>).

End Model.
End ControllerLogin.
