(* ===== verification/ControllerLoginProofs.v ===== *)
(** * What the controller's login does

    The answer to the challenge is made from the chosen password; a password that was
    remembered is used in the next session; that of a shared address book is never
    kept; and an incoming-only program logs in nowhere, except back to a peer the
    local service expects. *)
From S2P Require Import Prelude RustStd RecordUpdate Secrets SecretsProofs ConfigStore PeerStore Messages HostNames TrustedClient TrustedClientProofs.
From S2P Require Import ControllerConfig ControllerLogin.
From Stdlib Require Import Ascii.

Module ControllerLoginProofs.
Export ControllerLogin.

(** ** Reasoning about the handler *)
Lemma cl_bind_run {A B} (m : Cl A) (k : A → Cl B) c : (m ≫= k) c = k (m c).1 (m c).2.
Proof. unfold mbind, cl_bind. by destruct (m c). Qed.

(** Nothing differs but the files and the frame rate that is announced. *)
Definition core (c : Client) : LoginConfigHandler * Session * list Effect :=
  ((lc c) <| lc_custom_fps := None |>, trust c, effects c).

Definition inert {A} (m : Cl A) : Prop := ∀ c, core (m c).2 = core c.

Lemma inert_ret {A} (a : A) : inert (mret a).
Proof. done. Qed.
Lemma inert_self {A} (f : LoginConfigHandler → A) : inert (self f).
Proof. done. Qed.
Lemma inert_bind {A B} (m : Cl A) (k : A → Cl B) :
  inert m → (∀ a, inert (k a)) → inert (m ≫= k).
Proof. intros Hm Hk c. rewrite cl_bind_run, Hk. apply Hm. Qed.
Lemma inert_on_host {A} (m : HostM A) : inert (on_host m).
Proof. intros c. unfold on_host. by destruct (m _). Qed.
Lemma inert_fps f : inert (set_self (λ l, l <| lc_custom_fps := f |>)).
Proof. done. Qed.
Create HintDb inert.
#[export] Hint Resolve inert_ret inert_self inert_on_host inert_fps : inert.

Ltac inert :=
  repeat first
    [ solve [eauto with inert]
    | match goal with |- inert (_ ≫= _) => apply inert_bind end
    | match goal with |- ∀ _, inert _ => intros ? end
    | match goal with |- inert (if ?b then _ else _) => destruct b end
    | match goal with |- inert (match ?x with _ => _ end) => destruct x end
    | progress cbv zeta ].

Section Proofs.
Context {CR : Crypto} {EN : Entropy} {SJ : SavedJson} {LL : LoginLibs} {PR : Program}.

Lemma inert_load : inert load_config.
Proof. intros c. unfold load_config. by destruct (PeerConfig.load _ _ _ _) as [[? ?] ?]. Qed.
Lemma inert_store cfg : inert (store_config cfg).
Proof. intros c. unfold store_config. by destruct (PeerConfig.store_ _ _ _ _ _). Qed.
#[local] Hint Resolve inert_load inert_store : inert.

Lemma inert_custom_quality o : inert (custom_quality o).
Proof. unfold custom_quality. inert. Qed.
#[local] Hint Resolve inert_custom_quality : inert.

Lemma inert_option_message d b : inert (get_option_message d b).
Proof. unfold get_option_message. inert. Qed.
#[local] Hint Resolve inert_option_message : inert.

Lemma inert_create_login_msg E u p : inert (create_login_msg E u p).
Proof. unfold create_login_msg. inert. Qed.

(** The request carries the answer it was made for. *)
Lemma create_login_msg_password E u p c :
  Messages.lr_password (create_login_msg E u p c).1 = p.
Proof.
  unfold create_login_msg. rewrite cl_bind_run. rewrite cl_bind_run. cbn [self fst snd].
  rewrite cl_bind_run. destruct (match other_server _ with Some _ => _ | None => _ end) as [a b].
  by rewrite cl_bind_run.
Qed.

Lemma login_password s r d :
  match (login default_options default_settings s r d).1 with
  | Ok (_, r') => Messages.lr_password r' = Messages.lr_password r
  | Err _ => False
  end.
Proof.
  unfold login. cbn [credentials update]. destruct (credentials s) as [x|]; [|done].
  destruct (bool_decide _); [done|]. rewrite TrustedClientProofs.dev_bind_run. unfold attempt.
  destruct (TrustedClient.load _ _ x d) as [[t|e] d']; done.
Qed.

(** What a login leaves behind. *)
Lemma send_login_run E u p c :
  send_ok E = true →
  ∃ m c', send_login E u p c = (Ok tt, c') ∧ effects c' = effects c ++ [SendLogin m] ∧
    Messages.lr_password m = p ∧
    (lc c') <| lc_custom_fps := None |> = (lc c) <| lc_custom_fps := None |>.
Proof.
  intros Hs. unfold send_login. rewrite cl_bind_run.
  pose proof (inert_create_login_msg E u p c) as Hq.
  pose proof (create_login_msg_password E u p c) as Hp.
  destruct (create_login_msg E u p c) as [m c1]. cbn [fst snd] in *.
  unfold trust_and_send. pose proof (login_password (trust c1) m (dev c1)) as Hl.
  destruct (login _ _ _ _ _) as [[[s m']|e] d]; cbn [fst] in Hl; [|done].
  rewrite Hs. pose proof (f_equal (λ x, x.1.1) Hq) as Hlc. pose proof (f_equal snd Hq) as He.
  cbn [fst snd core] in Hlc, He.
  eexists m', _. split_and!; [done| |congruence|exact Hlc]. cbn. by rewrite He.
Qed.

(** ** The user's password *)

(** A password typed for a peer is sent as the challenge demands - the hash of the
    salted hash with the challenge - and the salted hash is what the handler keeps. *)
Lemma typed_password_run (E : Env) (os_username password : string) (b : bool)
    (c : Client) :
  password ≠ "" → send_ok E = true →
  ∃ m c', handle_login_from_ui E os_username password b c = (Ok tt, c') ∧
    effects c' = effects c ++ [SendLogin m] ∧
    Messages.lr_password m =
      sha256 (sha256 (as_bytes password ++ as_bytes (hash_salt (hash (lc c))))
              ++ as_bytes (hash_challenge (hash (lc c)))) ∧
    lc_password (lc c') = sha256 (as_bytes password ++ as_bytes (hash_salt (hash (lc c)))) ∧
    password_source (lc c') = Undefined ∧ remember (lc c') = b.
Proof.
  intros Hp Hs. unfold handle_login_from_ui.
  rewrite (proj2 (is_empty_false _)) by done.
  rewrite cl_bind_run. cbn. rewrite !cl_bind_run. cbn.
  match goal with |- ∃ m c', send_login E os_username ?a ?w = _ ∧ _ =>
    destruct (send_login_run E os_username a w Hs) as (m & c' & -> & He & Hm & Hl) end.
  exists m, c'. split_and!; [done|by rewrite He|done|..].
  - by apply (f_equal lc_password) in Hl.
  - by apply (f_equal password_source) in Hl.
  - by apply (f_equal remember) in Hl.
Qed.

(** ** Passwords of others *)

(** The file that is read is that of the peer. *)
Lemma load_config_same c c' :
  lc_id (lc c) = lc_id (lc c') → dev c = dev c' → (load_config c).1 = (load_config c').1.
Proof. intros Hi Hd. unfold load_config. rewrite Hi, Hd. by destruct (PeerConfig.load _ _ _ _) as [[? ?] ?]. Qed.

(** What [handle_peer_info] stores as the password, and what it announces. *)
Lemma handle_peer_info_run pi c :
  ∃ p0 c', handle_peer_info pi c = (tt, c') ∧
    p0 = PeerConfig.password (load_config c).1 ∧
    PeerConfig.password (config (lc c')) = remembered_password (lc c) p0 ∧
    effects c' = effects c ++
      (if negb (bool_decide (remembered_password (lc c) p0 = []))
          && negb (is_shared_ab (password_source (lc c)) (lc_password (lc c)) (hash (lc c)))
          && negb (is_personal_ab (password_source (lc c)) (lc_password (lc c)))
       then [SyncPeerHash (lc_id (lc c)) (b64_encode (remembered_password (lc c) p0))] else []).
Proof.
  unfold handle_peer_info. rewrite cl_bind_run.
  set (c0 := (set_self _ c).2). rewrite cl_bind_run.
  assert ((load_config c0).1 = (load_config c).1) as Hld
    by (apply load_config_same; unfold c0; cbn; [by destruct (is_empty _)|done]).
  pose proof (inert_load c0) as Hq. destruct (load_config c0) as [cfg c1]. cbn [fst snd] in Hq, Hld |- *.
  rewrite cl_bind_run. cbn [self fst snd].
  assert (remembered_password (lc c1) (PeerConfig.password cfg)
    = remembered_password (lc c) (PeerConfig.password cfg) ∧ effects c1 = effects c ∧
    password_source (lc c1) = password_source (lc c) ∧ lc_password (lc c1) = lc_password (lc c) ∧
    hash (lc c1) = hash (lc c) ∧ lc_id (lc c1) = lc_id (lc c)) as (Hr & He & Hps & Hpw & Hh & Hid).
  { pose proof (f_equal (λ x, x.1.1) Hq) as Hl. pose proof (f_equal snd Hq) as He.
    cbn [fst snd core] in Hl, He. subst c0. unfold remembered_password.
    pose proof (f_equal lc_password Hl) as H1. pose proof (f_equal remember Hl) as H2.
    pose proof (f_equal password_source Hl) as H3. pose proof (f_equal hash Hl) as H4.
    pose proof (f_equal lc_id Hl) as H5.
    destruct (is_empty (pi_version pi)); cbn in H1, H2, H3, H4, H5, He |- *;
      by rewrite H1, H2, H3, H4, H5. }
  cbv zeta. rewrite cl_bind_run. cbn [PeerConfig.password update].
  rewrite Hr, Hps, Hpw, Hh, Hid.
  exists (PeerConfig.password cfg).
  destruct (negb _ && _ && _); unfold emit; cbn [mret cl_ret fst snd];
    rewrite cl_bind_run; unfold save_config; rewrite cl_bind_run;
    match goal with |- context [store_config ?x ?w] =>
      pose proof (inert_store x w) as Hqs; destruct (store_config x w) as [[] c2] end;
    cbn [fst snd] in *; apply (f_equal snd) in Hqs; cbn [snd core effects update] in Hqs;
    eexists; (split; [reflexivity|]); (split; [by rewrite <- Hld|]); (split; [done|]);
    cbn [effects update lc]; cbn; rewrite Hqs, He, ?app_nil_r; done.
Qed.

Context {CL : CryptoLaws}.

Lemma hash_password_nonempty p h : hash_password p h ≠ [].
Proof. unfold hash_password. intros E. pose proof (len_sha256 (as_bytes p ++ as_bytes (hash_salt h))) as Hl. by rewrite E in Hl. Qed.

Lemma choose_shared E preset h p c :
  shared_password (lc c) = Some p → p ≠ "" →
  ∃ c', choose_password E preset h c = (hash_password p h, c') ∧
    password_source (lc c') = SharedAb p ∧ effects c' = effects c ∧
    hash (lc c') = hash (lc c) ∧ conn_type (lc c') = conn_type (lc c) ∧
    is_terminal_admin (lc c') = is_terminal_admin (lc c) ∧ lc_id (lc c') = lc_id (lc c) ∧
    dev c' = dev c ∧ remember (lc c') = remember (lc c).
Proof.
  intros Hs Hp. apply is_empty_false in Hp. pose proof (hash_password_nonempty p h) as Hne.
  unfold choose_password. rewrite cl_bind_run. cbn [self fst snd]. rewrite cl_bind_run.
  destruct (_ && _); rewrite !cl_bind_run; cbn; rewrite Hs, Hp; rewrite !cl_bind_run; cbn;
    repeat (rewrite (bool_decide_false (hash_password p h = [])) by done; cbn);
    eexists; split_and!; reflexivity.
Qed.

(** The handler once the challenge is noted. *)
Definition noted (h : Hash) (c : Client) : Client :=
  (set_self (λ l, l <| switch_uuid := None |>) (set_hash h c).2).2.

(** A challenge is answered with the password that was chosen. *)
Lemma handle_hash_answers E preset h c p c1 :
  switch_uuid (lc c) = None → is_incoming_only = false → send_ok E = true →
  choose_password E preset h (noted h c) = (p, c1) → p ≠ [] → conn_type (lc c1) ≠ TERMINAL →
  effects c1 = effects c →
  ∃ m c2, handle_hash E preset h c = (true, c2) ∧ effects c2 = effects c ++ [SendLogin m] ∧
    Messages.lr_password m = answer p h ∧
    (lc c2) <| lc_custom_fps := None |> =
      (lc c1) <| lc_password := p |> <| lc_custom_fps := None |> <| hash := h |>.
Proof.
  intros Hu Hio Hok Hch Hp Hct He. unfold handle_hash. do 2 rewrite cl_bind_run.
  cbn [set_hash set_self self fst snd]. do 2 rewrite cl_bind_run.
  change (set_self _ _) with (tt, noted h c). cbn [self fst snd].
  assert (switch_uuid (lc (set_hash h c).2) = None) as Hu' by exact Hu.
  cbn [set_hash set_self snd] in Hu'. rewrite Hu'. cbn [mbind option_bind]. rewrite Hio.
  unfold login_with_password. rewrite cl_bind_run, Hch. cbn [fst snd].
  rewrite cl_bind_run. cbn [set_self fst snd]. rewrite cl_bind_run. cbn [self fst snd].
  rewrite (bool_decide_false (conn_type _ = TERMINAL)) by exact Hct. cbn [andb].
  rewrite (bool_decide_false (p = [])) by done.
  rewrite cl_bind_run. cbn [mret cl_ret fst snd]. rewrite cl_bind_run.
  match goal with |- context [send_login E "" ?a ?w] =>
    destruct (send_login_run E "" a w Hok) as (m & c2 & -> & He2 & Hm & Hl) end.
  cbn [fst snd]. rewrite cl_bind_run. cbn [set_hash set_self mret cl_ret fst snd].
  exists m, (c2 <| lc := (lc c2) <| hash := h |> |>).
  split; [done|]. split; [cbn; rewrite He2; cbn; by rewrite He|]. split; [done|].
  apply (f_equal (λ l, l <| hash := h |>)) in Hl. exact Hl.
Qed.

(** The password of a shared address book is never kept.  A session that starts
    with one answers the challenge with it; when the peer then lets it in, the
    password in the peer's file is the one it had or none, and nothing is
    announced to the user's own address book. *)
Theorem shared_password_not_kept (E : Env) (preset p : string) (h : Hash) (pi : PeerInfo)
    (c : Client) :
  shared_password (lc c) = Some p → p ≠ "" → switch_uuid (lc c) = None →
  is_incoming_only = false → send_ok E = true →
  conn_type (lc c) ≠ TERMINAL →
  ∃ m c1 c2, handle_hash E preset h c = (true, c1) ∧
    effects c1 = effects c ++ [SendLogin m] ∧
    Messages.lr_password m = answer (hash_password p h) h ∧
    handle_peer_info pi c1 = (tt, c2) ∧ effects c2 = effects c1 ∧
    (PeerConfig.password (config (lc c2)) = [] ∨
     PeerConfig.password (config (lc c2)) = PeerConfig.password (load_config c1).1).
Proof.
  intros Hs Hp Hu Hio Hok Hct.
  destruct (choose_shared E preset h p (noted h c) Hs Hp)
    as (c1 & Hch & Hsrc & He & Hh & Hc & Ht & Hid & Hd & Hr).
  destruct (handle_hash_answers E preset h c _ c1 Hu Hio Hok Hch) as (m & c2 & Hrun & He2 & Hm & Hl);
    [apply hash_password_nonempty|by rewrite Hc|done|].
  destruct (handle_peer_info_run pi c2) as (p0 & c3 & Hrun3 & Hp0 & Hpw & Hev).
  pose proof (f_equal lc_password Hl) as H1. pose proof (f_equal password_source Hl) as H3.
  pose proof (f_equal hash Hl) as H4. cbn in H1, H3, H4. rewrite Hsrc in H3.
  assert (is_shared_ab (password_source (lc c2)) (lc_password (lc c2)) (hash (lc c2)) = true) as Hshared.
  { rewrite H1, H3, H4. unfold is_shared_ab, equal.
    rewrite bool_decide_false by apply hash_password_nonempty. by rewrite bool_decide_true. }
  exists m, c2, c3. split_and!; [done..| |].
  - rewrite Hev, Hshared. cbn. rewrite andb_false_r. cbn. by rewrite app_nil_r.
  - rewrite Hpw. unfold remembered_password. rewrite Hshared, !andb_false_r.
    destruct (remember (lc c2)); [by right|]. unfold is_personal_ab. rewrite H3.
    repeat case_bool_decide; cbn; auto.
Qed.

(** ** Incoming only *)

Ltac refused :=
  cbn [emit fst snd]; rewrite ?cl_bind_run; cbn [emit fst snd mret cl_ret];
  match goal with |- context [if send_ok ?E then _ else _] => destruct (send_ok E) end; cbn;
  (split; [done|]); rewrite <- ?app_assoc; eexists; (split; [reflexivity|]);
  intros e; set_unfold; naive_solver.

(** A program that only takes connections makes none: the challenge of a peer is
    refused, unless it answers a request to change sides which the local service still
    knows - for this peer and this identifier - and then only the switch is asked for.
    In every case the identifier is spent. *)
Theorem incoming_only_logs_in_nowhere (E : Env) (preset : string) (h : Hash) (c : Client) :
  is_incoming_only = true →
  let '(_, c') := handle_hash E preset h c in
  switch_uuid (lc c') = None ∧
  ∃ es, effects c' = effects c ++ es ∧
    ∀ e, e ∈ es → match e with
    | SendLogin _ => False
    | SendSwitchLogin u m => Messages.lr_password m = [] ∧
        (switch_uuid (lc c) ≫= parse_uuid) = Some u ∧ local_switch_uuid E (lc_id (lc c)) u = true
    | _ => True
    end.
Proof.
  intros Hio. unfold handle_hash. rewrite cl_bind_run. cbn [set_hash set_self fst snd].
  rewrite cl_bind_run. cbn [self fst snd]. rewrite cl_bind_run. cbn [set_self fst snd].
  rewrite cl_bind_run. cbn [self fst snd]. cbn [lc update]. cbn. rewrite Hio.
  destruct (switch_uuid (lc c) ≫= parse_uuid) as [u|] eqn:Hu; [cbn; destruct (local_switch_uuid _ _ _) eqn:Hl|];
    cbn [mbind option_bind].
  - rewrite cl_bind_run. cbn [allow_switch_back_once set_self fst snd]. rewrite cl_bind_run.
    unfold send_switch_login_request. rewrite !cl_bind_run.
    match goal with |- context [create_login_msg E "" [] ?w] =>
      pose proof (inert_create_login_msg E "" [] w) as Hq;
      pose proof (create_login_msg_password E "" [] w) as Hp;
      destruct (create_login_msg E "" [] w) as [m c1] end.
    cbn [fst snd] in *. pose proof (f_equal (λ x, switch_uuid x.1.1) Hq) as Hs.
    apply (f_equal snd) in Hq. cbn in Hq, Hs.
    destruct (send_ok E); cbn; (split; [done|]); eexists; (split; [|intros e]);
      [by rewrite Hq|intros He; apply list_elem_of_singleton in He; subst e; done|by rewrite Hq, app_nil_r|set_solver].
  - refused.
  - refused.
Qed.

End Proofs.
End ControllerLoginProofs.
