(* ===== verification/ControllerRemember.v ===== *)
(** * A password that is remembered

    From the session in which the peer lets the user in, over the peer's file, to the
    answer of the next session. *)
From S2P Require Import Prelude RustStd RecordUpdate Secrets SecretsProofs ConfigStore PeerStore Messages HostNames TrustedClient TrustedClientProofs.
From S2P Require Import ControllerConfig ControllerLogin ControllerLoginProofs.
From Stdlib Require Import Ascii.

Module ControllerRemember.
Export ControllerLoginProofs.

Section Proofs.
Context {CR : Crypto} {CL : CryptoLaws} {EN : Entropy} {SJ : SavedJson} {LL : LoginLibs} {PR : Program}.
Variables (uid : bytes) (okp : option KeyPair).
Abbreviation ready := (ready uid okp).
Abbreviation runs := (runs uid okp).

(** ** The password in the file *)

(** A password that is sealed whole when it is stored. *)
Definition keepable (v : bytes) : Prop :=
  v ≠ [] ∧ is_encrypted v = false ∧ len v ≤ ENCRYPT_MAX_LEN.

Lemma runs_encrypt_vec v : keepable v →
  runs (encrypt_vec_or_original v PASSWORD_ENC_VERSION ENCRYPT_MAX_LEN)
    (λ e, plain_vec uid okp e = (v, true, false)).
Proof.
  intros (Hv & He & Hl). unfold encrypt_vec_or_original. rewrite He.
  destruct (Z.ltb_spec ENCRYPT_MAX_LEN (len v)); [lia|].
  change (PASSWORD_ENC_VERSION ==s "00") with true. cbv iota.
  eapply runs_bind; [by apply runs_encrypt|]. intros ? (t & -> & Ht). apply runs_ret.
  change (PASSWORD_ENC_VERSION +:+ t) with ("00" +:+ t).
  unfold plain_vec.
  pose proof (versioned_long "0" "0" t (text_seals_nonempty _ _ t Ht)) as Hn.
  rewrite bool_decide_true by done.
  change (take VERSION_LEN (as_bytes ("00" +:+ t))) with (as_bytes "00").
  change (drop VERSION_LEN (as_bytes ("00" +:+ t))) with (as_bytes t). cbn [andb].
  change (from_utf8_lossy (as_bytes "00") ==s "00") with true. cbv iota.
  by rewrite (text_seals_open _ _ _ _ Ht).
Qed.

(** The file holds the password [v]. *)
Definition keeps_password (v : bytes) (f : PeerFile) : Prop :=
  ∃ cfg, PeerConfig.peer_file f = Loaded cfg ∧ plain_vec uid okp (PeerConfig.password cfg) = (v, true, false).

(** The file can be read, or is not there, or holds something else. *)
Definition readable (f : PeerFile) : Prop := PeerConfig.peer_file f ≠ ReadError.

Lemma readable_loads f : readable f → ∃ stored,
  try_load_path_for_store (PeerConfig.default_peer default_options default_settings)
    (PeerConfig.peer_file f) = Some stored.
Proof. unfold readable. destruct (PeerConfig.peer_file f); cbn; eauto; done. Qed.

Lemma store_readable self f : readable f →
  runs (PeerConfig.store_ default_options default_settings self f) readable.
Proof.
  intros Hf. unfold PeerConfig.store_.
  eapply runs_bind; [apply TrustedClientProofs.finishes_encrypt_vec|]. intros pw _.
  eapply runs_bind; [apply TrustedClientProofs.finishes_seal_options|]. intros o _.
  destruct (readable_loads f Hf) as [stored ->].
  eapply (runs_bind _ _ _ _ (λ _, True)); [by apply runs_gets|]. intros b _. apply runs_ret.
  by destruct b.
Qed.

Lemma load_readable f : readable f →
  runs (PeerConfig.load default_options default_settings f) (λ r, readable r.2).
Proof.
  intros Hf. unfold PeerConfig.load. destruct (PeerConfig.peer_file f); try by apply runs_ret.
  eapply runs_bind; [apply TrustedClientProofs.finishes_decrypt_vec|]. intros [[pw b1] b2] _.
  eapply runs_bind; [apply TrustedClientProofs.finishes_unseal_options|]. intros [o b3] _.
  eapply (runs_bind _ _ _ _ readable).
  { destruct b3; [by apply store_readable|by apply runs_ret]. }
  intros f' Hf'. by apply runs_ret.
Qed.

Lemma store_password self f :
  keepable (PeerConfig.password self) →
  readable f →
  ∀ h, ready h → can_write h = true →
  ∃ f' h', PeerConfig.store_ default_options default_settings self f h = (f', h') ∧
    keeps_password (PeerConfig.password self) f' ∧ ready h' ∧ can_write h' = true.
Proof.
  intros Hk Hf h Hr Hw. unfold PeerConfig.store_, mbind, host_bind.
  destruct (runs_encrypt_vec _ Hk h Hr) as (e & h1 & -> & He & Hs1 & Hr1).
  destruct (TrustedClientProofs.finishes_seal_options uid okp PeerConfig.SECRET_OPTIONS (options self) h1 Hr1)
    as (o & h2 & -> & _ & Hs2 & Hr2).
  destruct (readable_loads f Hf) as [stored ->]. unfold gets.
  assert (can_write h2 = true) as Hw2 by (rewrite (same_write _ _ Hs2), (same_write _ _ Hs1); done).
  rewrite Hw2. eexists _, _. split; [reflexivity|]. split; [|done]. by eexists.
Qed.

Lemma load_password v f :
  keeps_password v f → runs (PeerConfig.load default_options default_settings f)
    (λ r, PeerConfig.password r.1 = v).
Proof.
  intros (cfg & Hf & Hp). unfold PeerConfig.load. rewrite Hf.
  eapply runs_step; [apply runs_decrypt_vec|]. rewrite Hp.
  eapply runs_bind; [apply TrustedClientProofs.finishes_unseal_options|]. intros [o b] _.
  eapply (runs_bind _ _ _ _ (λ _, True)).
  { destruct b; [apply TrustedClientProofs.finishes_store|by apply runs_ret]. }
  intros f' _. by apply runs_ret.
Qed.

(** ** The handler *)

(** The machine of the controller can keep what the session of the peer stores. *)
Definition stores_peer (c : Client) : Prop :=
  ready (host (dev c)) ∧ can_write (host (dev c)) = true ∧
  readable (TrustedClient.peer_file (lc_id (lc c)) (dev c)).

Lemma load_config_runs c : stores_peer c →
  ∃ cfg d, load_config c = (cfg, c <| dev := d |>) ∧ stores_peer (c <| dev := d |>).
Proof.
  intros (Hr & Hw & Hf). unfold load_config.
  destruct (load_readable _ Hf _ Hr) as ([cfg f] & h & -> & Hf' & Hs & Hr').
  eexists _, _. split; [reflexivity|]. split; [done|]. split; [by rewrite <- (same_write _ _ Hs) in Hw|].
  unfold TrustedClient.peer_file in *. cbn. by rewrite lookup_insert_eq.
Qed.

Lemma load_config_password v c : ready (host (dev c)) →
  keeps_password v (TrustedClient.peer_file (lc_id (lc c)) (dev c)) →
  ∃ cfg d, load_config c = (cfg, c <| dev := d |>) ∧ PeerConfig.password cfg = v.
Proof.
  intros Hr Hk. unfold load_config.
  destruct (load_password v _ Hk _ Hr) as ([cfg f] & h & -> & Hp & _). by eexists _, _.
Qed.

Lemma save_config_password cfg c : stores_peer c → keepable (PeerConfig.password cfg) →
  ∃ d, save_config cfg c = (tt, c <| dev := d |> <| lc := (lc c) <| config := cfg |> |>) ∧
    ready (host d) ∧
    keeps_password (PeerConfig.password cfg) (TrustedClient.peer_file (lc_id (lc c)) d).
Proof.
  intros (Hr & Hw & Hf) Hk. unfold save_config. rewrite cl_bind_run. unfold store_config.
  destruct (store_password cfg _ Hk Hf _ Hr Hw) as (f' & h' & -> & Hp & Hr' & _).
  eexists. split; [reflexivity|]. split; [done|].
  unfold TrustedClient.peer_file. cbn. by rewrite lookup_insert_eq.
Qed.

(** The peer lets the user in: what the user typed is in the peer's file. *)
Lemma peer_info_remembers pi c :
  stores_peer c → remember (lc c) = true → keepable (lc_password (lc c)) →
  is_shared_ab (password_source (lc c)) (lc_password (lc c)) (hash (lc c)) = false →
  ∃ c', handle_peer_info pi c = (tt, c') ∧ ready (host (dev c')) ∧ lc_id (lc c') = lc_id (lc c) ∧
    keeps_password (lc_password (lc c)) (TrustedClient.peer_file (lc_id (lc c)) (dev c')).
Proof.
  intros Hst Hrem Hk Hsh. unfold handle_peer_info. rewrite cl_bind_run.
  set (c0 := (set_self _ c).2).
  assert (stores_peer c0 ∧ lc_id (lc c0) = lc_id (lc c) ∧ remember (lc c0) = true ∧
    lc_password (lc c0) = lc_password (lc c) ∧ password_source (lc c0) = password_source (lc c) ∧
    hash (lc c0) = hash (lc c)) as (Hst0 & Hid & Hre & Hpw & Hps & Hh).
  { unfold c0, set_self. destruct (is_empty (pi_version pi)); cbn; auto 10. }
  rewrite cl_bind_run. destruct (load_config_runs c0 Hst0) as (cfg & d & -> & Hst1). cbn [fst snd].
  rewrite cl_bind_run. cbn [self fst snd]. cbv zeta. rewrite cl_bind_run.
  cbn [PeerConfig.password update]. cbn [lc update].
  assert (remembered_password (lc c0) (PeerConfig.password cfg) = lc_password (lc c)) as Hrp.
  { unfold remembered_password. rewrite Hre, Hpw, Hps, Hh, Hsh. destruct Hk as [Hne _].
    rewrite (bool_decide_false (lc_password (lc c) = [])) by done. cbn [negb andb].
    case_bool_decide as E; cbn; [by rewrite E|done]. }
  rewrite cl_bind_run.
  match goal with |- context [save_config ?x ?w] => set (cfg' := x); set (c2 := w) end.
  assert (lc c2 = lc c0 ∧ dev c2 = d) as [Hl Hd] by (unfold c2; by destruct (_ && _)).
  assert (PeerConfig.password cfg' = lc_password (lc c)) as Hpw' by exact Hrp.
  destruct (save_config_password cfg' c2) as (d' & -> & Hr' & Hkp).
  { unfold stores_peer in *. by rewrite Hl, Hd. }
  { by rewrite Hpw'. }
  cbn [set_self fst snd]. eexists. split; [reflexivity|]. cbn [dev lc update].
  cbn. rewrite Hl, Hid, Hpw' in *. done.
Qed.

(** A step of the handler, by what it establishes. *)
Lemma leads_into (P : LoginConfigHandler → Prop) {k : unit → Cl unit} {R : Client → Prop} {f c} :
  P (f (lc c)) →
  (∀ c', effects c' = effects c → P (lc c') → ∃ c'', k tt c' = (tt, c'') ∧ R c'') →
  ∃ c', (set_self f ≫= k) c = (tt, c') ∧ R c'.
Proof. intros Hf Hk. rewrite cl_bind_run. by apply Hk. Qed.

(** The next session starts with it. *)
Lemma initialize_remembers E id conn force adapter v c :
  ready (host (dev c)) → v ≠ [] → lc_password (lc c) = [] →
  keeps_password v (TrustedClient.peer_file (parse_id id).1.1 (dev c)) →
  ∃ c', initialize E id conn None force adapter None None c = (tt, c') ∧
    PeerConfig.password (config (lc c')) = v ∧ remember (lc c') = true ∧ lc_password (lc c') = [] ∧
    switch_uuid (lc c') = None ∧ shared_password (lc c') = None ∧ conn_type (lc c') = conn ∧
    effects c' = effects c.
Proof.
  intros Hr Hv Hpw Hk. unfold initialize. destruct (parse_id id) as [[i other] relay]. cbn in Hk.
  rewrite cl_bind_run. set (c0 := (set_self _ c).2). rewrite cl_bind_run.
  assert (ready (host (dev c0)) ∧ keeps_password v (TrustedClient.peer_file (lc_id (lc c0)) (dev c0)))
    as [Hr0 Hk0] by done.
  destruct (load_config_password v c0 Hr0 Hk0) as (cfg & d & -> & Hp).
  cbn [fst snd]. set (k := λ l, PeerConfig.password (config l) = v ∧ remember l = true ∧
    lc_password l = [] ∧ conn_type l = conn).
  apply (leads_into k).
  { subst k. cbn. rewrite Hp, bool_decide_false by done. auto. }
  intros c1 He1 Hk1. apply (leads_into k); [exact Hk1|]. intros c2 He2 Hk2.
  unfold clear_restarting_remote_device. apply (leads_into k); [exact Hk2|]. intros c3 He3 Hk3.
  apply (leads_into k); [exact Hk3|]. intros c4 He4 Hk4.
  apply (leads_into k).
  { destruct (other_server (lc c4)) as [[[? ?] ?]|]; [|exact Hk4]. destruct (_ && _); exact Hk4. }
  intros c5 He5 (H1 & H2 & H3 & H4). eexists. split; [reflexivity|]. cbn [lc effects update].
  split_and!; try done. cbn. by rewrite He5, He4, He3, He2, He1.
Qed.

(** The stored password is chosen. *)
Lemma stored_source p c : PeerConfig.password (config (lc c)) = p → p ≠ [] →
  (p0 ← self (λ l, PeerConfig.password (config l));
   (if bool_decide (p0 = []) then mret tt else set_source Undefined);; mret p0) c =
  (p, (set_source Undefined c).2).
Proof.
  intros Hp Hne. rewrite cl_bind_run. cbn [self fst snd]. rewrite Hp, bool_decide_false by done.
  done.
Qed.

Lemma choose_stored E h p c :
  lc_password (lc c) = [] → shared_password (lc c) = None →
  PeerConfig.password (config (lc c)) = p → p ≠ [] →
  ∃ c', choose_password E "" h c = (p, c') ∧ effects c' = effects c ∧
    conn_type (lc c') = conn_type (lc c).
Proof.
  intros Hl Hs Hp Hne. unfold choose_password. rewrite cl_bind_run. cbn [self fst snd].
  rewrite cl_bind_run, Hl, andb_false_r. cbn [mret cl_ret fst snd].
  rewrite cl_bind_run. cbn [self fst snd]. rewrite Hs. rewrite cl_bind_run. cbn [set_self fst snd].
  rewrite cl_bind_run. cbn [mret cl_ret fst snd]. rewrite cl_bind_run.
  rewrite (bool_decide_true ([] = [])) by done.
  rewrite !(stored_source p) by done. rewrite cl_bind_run.
  rewrite (bool_decide_false (p = [])) by done. cbn [mret cl_ret fst snd].
  rewrite (bool_decide_false (p = [])) by done. by eexists.
Qed.

(** A password that is remembered logs in again.  When a peer lets in a user who
    typed a password and asked to remember it, the salted hash is sealed in the
    peer's file; a new session with the same peer then answers the peer's challenge
    with that hash, without asking the user. *)
Theorem remembered_password_logs_in (E : Env) (pi : PeerInfo) (id : string) (conn : ConnType)
    (force : bool) (adapter : option Z) (h : Hash) (c : Client) :
  stores_peer c → remember (lc c) = true → password_source (lc c) = Undefined →
  keepable (lc_password (lc c)) →
  (parse_id id).1.1 = lc_id (lc c) → conn ≠ TERMINAL → is_incoming_only = false → send_ok E = true →
  ∃ c1, handle_peer_info pi c = (tt, c1) ∧
  ∀ l, lc_password l = [] → ∃ c2 m c3,
    initialize E id conn None force adapter None None (c1 <| lc := l |>) = (tt, c2) ∧
    handle_hash E "" h c2 = (true, c3) ∧ effects c3 = effects c1 ++ [SendLogin m] ∧
    Messages.lr_password m = answer (lc_password (lc c)) h.
Proof.
  intros Hst Hrem Hsrc Hk Hid Hct Hio Hok.
  destruct (peer_info_remembers pi c Hst Hrem Hk) as (c1 & -> & Hr & Hl & Hf).
  { unfold is_shared_ab. rewrite Hsrc. by destruct (bool_decide _). }
  exists c1. split; [done|]. intros l Hl0. destruct Hk as [Hne _].
  rewrite <- Hid in Hf.
  destruct (initialize_remembers E id conn force adapter (lc_password (lc c)) (c1 <| lc := l |>))
    as (c2 & Hi & Hp & _ & Hl2 & Hu & Hs & Hc & He); [done..|].
  destruct (choose_stored E h (lc_password (lc c)) (noted h c2)) as (c3 & Hch & He3 & Hc3); [done..|].
  destruct (handle_hash_answers E "" h c2 _ c3 Hu Hio Hok Hch) as (m & c4 & Hrun & He4 & Hm & _);
    [done|by rewrite Hc3; cbn; rewrite Hc|done|].
  exists c2, m, c4. split_and!; [done..| |done]. by rewrite He4, He.
Qed.

End Proofs.
End ControllerRemember.
