(* ===== verification/ControllerHost.v ===== *)
(** * A login from one side to the other

    The request of the controller's login handler, as the host of the connection
    checks it: the password that a user types is accepted by a host that has this
    password, and an accepted one is a password the host lets in. *)
From S2P Require Import Prelude RustStd RecordUpdate Secrets SecretsProofs ConfigStore ConfigStoreProofs Config2Store TrustedDevices.
From S2P Require Import TrustedClient SessionScope LoginGuard HostNames Session Login Dispatch LoginFrames LoginProofs.
From S2P Require Import ControllerConfig ControllerLogin ControllerLoginProofs.
From Stdlib Require Import Ascii.

Module ControllerHost.
Export LoginProofs.

(** ** The host *)
Section Host.
Context {CR : Crypto} {EN : Entropy} {JS : Json} {TL : TotpLib} {TK : Tokens} {ST : Site}.
Context {CL : CryptoLaws}.

(** The password check of [on_login_request], for the request [l]. *)
Definition check (E : Env) (l : LoginRequest) (w : World) : bool * World :=
  validate_password E (logon_screen E) (w <| conn := (conn w) <| lr := l |> |>).

(** The host has the password [pw]: as its temporary password, or as its permanent
    one, whose salted hash is what it stores. *)
Inductive has_password (E : Env) (w : World) (pw : string) : Prop :=
| has_temporary : temporary_allowed w = true → TEMPORARY_PASSWORD (host w) = pw →
    has_password E w pw
| has_permanent uid okp : permanent_allowed E w = true → ready uid okp (host w) →
    salt (CONFIG (host w)) ≠ "" →
    current_h1 uid okp (stored w) = Some (compute_permanent_password_h1 pw (hash_salt (conn w))) →
    has_password E w pw.

(** The answer to the connection's challenge. *)
Definition answers (w : World) (pw : string) (l : LoginRequest) : Prop :=
  lr_password l = sha256 (compute_permanent_password_h1 pw (hash_salt (conn w))
                          ++ as_bytes (hash_challenge (conn w))).

Lemma verify_h1_true c h1 :
  lr_password (lr c) = sha256 (h1 ++ as_bytes (hash_challenge c)) → verify_h1 c h1 = true.
Proof. unfold verify_h1. rewrite constant_time_eq_spec. intros ->. by apply bool_decide_eq_true. Qed.

Definition yes (r : bool) (_ : World) : Prop := r = true.

Lemma validate_temporary_true E w :
  temporary_allowed w = true → validate_password_plain (conn w) (TEMPORARY_PASSWORD (host w)) = true →
  wp (validate_temporary_password E) yes w.
Proof.
  intros Ha Hv. unfold temporary_allowed in Ha. unfold validate_temporary_password.
  apply wp_step. cbn [get fst snd]. rewrite Ha. cbn [negb].
  apply wp_step. cbn [get fst snd]. apply wp_step. cbn [self fst snd]. rewrite Hv. cbn [negb].
  apply wp_step, wp_step, wp_step. by apply wp_ret.
Qed.

Lemma storage_true c storage uid okp h1 :
  current_h1 uid okp storage = Some h1 →
  lr_password (lr c) = sha256 (h1 ++ as_bytes (hash_challenge c)) →
  runs uid okp (validate_password_storage c storage) (eq true).
Proof.
  intros Hc Hp. assert (storage ≠ "") as Hne by apply (current_prefix _ _ _ _ Hc).
  apply is_empty_false in Hne. unfold validate_password_storage. rewrite Hne.
  eapply runs_step; [apply runs_decode_h1|]. rewrite Hc. apply runs_ret.
  by rewrite (verify_h1_true _ _ Hp).
Qed.

(** A step of the host's configuration that only reads. *)
Lemma wp_runs {A} uid okp (m : HostM A) (P : A → Prop) (Q : A → World → Prop) w :
  ready uid okp (host w) → runs uid okp m P →
  (∀ a h, P a → ready uid okp h → Q a (w <| host := h |>)) → wp (on_host m) Q w.
Proof.
  intros Hr Hm HQ. unfold wp, on_host. destruct (Hm _ Hr) as (a & h & -> & Ha & _ & Hr').
  by apply HQ.
Qed.

Lemma validate_permanent_true E w uid okp h1 :
  ready uid okp (host w) → salt (CONFIG (host w)) ≠ "" →
  current_h1 uid okp (stored w) = Some h1 →
  lr_password (lr (conn w)) = sha256 (h1 ++ as_bytes (hash_challenge (conn w))) →
  wp (validate_permanent_password E) yes w.
Proof.
  intros Hr Hs Hc Hp.
  assert (stored w ≠ "") as Hne by apply (current_prefix _ _ _ _ Hc).
  apply is_empty_false in Hne. unfold stored in *. unfold validate_permanent_password.
  apply wp_step. cbn [get fst snd]. unfold get_local_permanent_password_storage_and_salt at 1. cbn iota beta.
  apply wp_step. cbn [self fst snd]. rewrite Hne. cbn [negb].
  apply wp_bind, wp_bind. eapply (wp_runs uid okp); [done|apply runs_usable|].
  intros u h <- Hr'. unfold usable. rewrite Hne, Hc. apply is_empty_false in Hs. rewrite Hs. cbn [negb].
  eapply (wp_runs uid okp); [done|by eapply storage_true|]. intros r h' <- _.
  apply wp_step, wp_step. by apply wp_ret.
Qed.

(** The hashes that answer for the request [l]. *)
Definition admitted (E : Env) (w : World) (l : LoginRequest) (h1 : bytes) : Prop :=
  lets_in E w l (hash_salt (conn w)) h1.

(** What the host has is what it accepts. *)
Lemma password_accepted E w pw l :
  pw ≠ "" → has_password E w pw → answers w pw l → (check E l w).1 = true.
Proof.
  intros Hpw Hh Hl. unfold check. set (w' := w <| conn := _ |>).
  enough (wp (validate_password E (logon_screen E)) yes w') as Hy by exact Hy.
  unfold validate_password. apply wp_bind.
  destruct (temporary_allowed w && validate_password_plain (conn w') (TEMPORARY_PASSWORD (host w'))) eqn:Ht.
  { apply andb_true_iff in Ht as [Ha Hv].
    eapply wp_mono; [by apply validate_temporary_true|]. intros r w1 ->. by apply wp_ret. }
  destruct Hh as [Ha <-|uid okp Ha Hr Hs Hc].
  { assert (validate_password_plain (conn w') (TEMPORARY_PASSWORD (host w')) = true) as Hv.
    { unfold validate_password_plain. apply is_empty_false in Hpw.
      change (host w') with (host w). rewrite Hpw. exact (verify_h1_true (conn w') _ Hl). }
    by rewrite Ha, Hv in Ht. }
  assert (wp (validate_temporary_password E) (λ r w1, r = false ∧ w1 = w') w') as Hno.
  { unfold validate_temporary_password. apply wp_step. cbn [get fst snd].
    unfold temporary_allowed in Ht. change (host w') with (host w) in *.
    destruct (temporary_enabled _ _ (host w)); cbn [negb andb] in *; [|by apply wp_ret].
    apply wp_step. cbn [get fst snd]. apply wp_step. cbn [self fst snd]. change (host w') with (host w). rewrite Ht. by apply wp_ret. }
  eapply wp_mono; [exact Hno|]. intros r w1 [-> ->].
  apply wp_step. cbn [get fst snd]. change (host w') with (host w).
  unfold permanent_allowed in Ha. rewrite Ha. by eapply validate_permanent_true.
Qed.

(** And what it accepts answers with a hash it lets in. *)
Lemma accepted_lets_in E w l : (check E l w).1 = true →
  ∃ h1, admitted E w l h1 ∧
        lr_password l = sha256 (h1 ++ as_bytes (hash_challenge (conn w))).
Proof.
  intros Hc. unfold check in Hc.
  pose proof (validate_password_spec E l (w <| conn := (conn w) <| lr := l |> |>)) as Hv.
  unfold wp in Hv. rewrite Hc in Hv. destruct Hv as [_ (h1 & Hl & Hr)]. exists h1. split; [|exact Hr].
  eapply lets_in_untouched; [|exact Hl]. by constructor.
Qed.

End Host.

(** ** Both sides *)
Section Both.
Context {CR : Crypto} {EN' EN : Entropy} {CL : CryptoLaws}.
Context {SJ : TrustedClient.SavedJson} {LL : ControllerConfig.LoginLibs} {PR : ControllerConfig.Program}.
Context {JS : Json} {TL : TotpLib} {TK : Tokens} {ST : Site}.

(** The controller knows the challenge of the connection. *)
Definition challenged (c : ControllerConfig.Client) (w : World) : Prop :=
  ControllerConfig.hash (ControllerConfig.lc c) =
    ControllerConfig.mkHash (hash_salt (conn w)) (hash_challenge (conn w)).

(** (C3) A login from the user's keyboard to the host's check: whoever types the
    password of the host - the temporary one, or the permanent one by its stored
    hash - is accepted; and when another text is accepted, its answer is that of a
    hash the host lets in. *)
Theorem right_password_accepted (A : ControllerLogin.Env) (E : Env) (os pw : string) (b : bool)
    (c : ControllerConfig.Client) (w : World) :
  pw ≠ "" → ControllerLogin.send_ok A = true → challenged c w →
  ∃ m c', ControllerLogin.handle_login_from_ui A os pw b c = (Ok tt, c') ∧
    ControllerConfig.effects c' = ControllerConfig.effects c ++ [ControllerConfig.SendLogin m] ∧
    (has_password E w pw → (check (EN := EN') E m w).1 = true) ∧
    ((check (EN := EN') E m w).1 = true → ∃ h1, admitted (EN := EN') E w m h1 ∧
      sha256 (sha256 (as_bytes pw ++ as_bytes (hash_salt (conn w))) ++ as_bytes (hash_challenge (conn w)))
      = sha256 (h1 ++ as_bytes (hash_challenge (conn w)))).
Proof.
  intros Hpw Hs Hc. unfold challenged in Hc.
  destruct (ControllerLoginProofs.typed_password_run A os pw b c Hpw Hs)
    as (m & c' & Hrun & He & Hm & _). rewrite Hc in Hm.
    cbn [ControllerConfig.hash_salt ControllerConfig.hash_challenge] in Hm.
  exists m, c'. split_and!; [done|done|..].
  - intros Hh. by eapply password_accepted.
  - rewrite <- Hm. by intros (h1 & Hl & Hr)%accepted_lets_in; exists h1.
Qed.
End Both.
End ControllerHost.
