(* ===== verification/ControllerExamples.v ===== *)
(** * A controller on concrete data

    Toy libraries with the behaviour the theorems rely on, a controller with the files
    of its peers, and the instances of the theorems on trusted devices and logins. *)
From S2P Require Import Prelude RustStd RecordUpdate Secrets SecretsProofs ConfigStore ConfigStoreProofs PeerStore Messages HostNames.
From S2P Require Import TrustedClient TrustedClientProofs ControllerConfig ControllerLogin ControllerLoginProofs ControllerRemember.
From S2P Require KeyExchangeExamples.
From Stdlib Require Import Ascii.

Module ControllerExamples.
Export ControllerRemember.
Export SecretsProofs.Toy.
Import TrustedClientProofs.
#[local] Existing Instance Messages.eta_login.

(** ** Libraries *)
Definition esc := KeyExchangeExamples.KeyExchangeExamples.esc.
Definition unesc := KeyExchangeExamples.KeyExchangeExamples.unesc.

Definition read_saved (b : bytes) : option SavedToken :=
  match b with
  | _ :: b => '(ns, b) ← unesc b; '(pk, data) ← unesc b;
              Some (mkSaved (mkIssuer (of_bytes ns) pk) data)
  | [] => None
  end.

#[export] Instance toy_saved : SavedJson := {|
  servers_to_json l := String.concat "," l;
  saved_to_json t := of_bytes (Byte.x01 :: esc (as_bytes (namespace (issuer t)))
                               ++ esc (public_key (issuer t)) ++ ciphertext t);
  saved_from_json s := read_saved (as_bytes s);
|}.

#[export] Instance toy_saved_laws : SavedJsonLaws.
Proof.
  split; cbn [saved_from_json saved_to_json toy_saved].
  - intros [[ns pk] data]. rewrite as_of_bytes. cbn [read_saved namespace public_key issuer ciphertext].
    unfold unesc, esc. rewrite KeyExchangeExamples.KeyExchangeExamples.unesc_esc. cbn.
    rewrite KeyExchangeExamples.KeyExchangeExamples.unesc_esc. cbn. by rewrite of_as_bytes.
  - intros t E. apply (f_equal as_bytes) in E. by rewrite as_of_bytes in E.
Qed.

#[export] Instance toy_login_libs : LoginLibs := {|
  conn_token_to_json _ := "";
  conn_token_from_json _ := None;
  remote_dirs_from_json _ := None;
  remote_dirs_to_json _ := "";
  to_lowercase s := s;
  parse_uuid s := Some (as_bytes s);
|}.

Definition some_settings : Settings :=
  PeerConfig.mkSettings "" "" 0 "" [] false false false false false 0 false false false false false
    false "" false false "" "" "" 0 ∅ ∅.

(** A program with the hard settings [hard]. *)
Definition program (hard : gmap string string) : Program := {|
  OVERWRITE_SETTINGS := ∅; DEFAULT_SETTINGS := ∅; BUILTIN_SETTINGS := ∅; HARD_SETTINGS := hard;
  EXE_RENDEZVOUS_SERVER := ""; PROD_RENDEZVOUS_SERVER := ""; mac_address := None; hostname := None;
  default_options := ∅; default_settings := some_settings; VERSION := "1.4.6";
|}.
#[export] Instance usual : Program := program ∅.

(** ** The credential of a trusted device *)
Section Trusted.
Abbreviation o := (∅ : gmap string string).
Definition device : Device := mkDevice ConfigStoreProofs.Examples.fresh_host ∅.
Definition host_key : bytes := replicate 32 Byte.x07.
Definition creds : Credentials := mkCredentials "peer" (mkIssuer "server" host_key).
Definition token : bytes := replicate 32 Byte.x2a.
Definition saved : Device := (save o some_settings creds token ("me", "host", "Linux") device).2.
Definition session : Session := mkSession (Some creds) false false false.
Definition request : Messages.LoginRequest :=
  Messages.default_login <| Messages.lr_password := [Byte.x01] |>.
(** Settings of the peer and of another one, in between. *)
Definition between : list Event :=
  [StoreSettings "peer" (PeerConfig.default_peer o some_settings); LoadSettings "peer";
   StoreSettings "other" (PeerConfig.default_peer o some_settings)].
End Trusted.

Lemma credential_survives_witness :
  ∃ s' request' d'', login ∅ some_settings session request (foldl (step ∅ some_settings) saved between)
      = (Ok (s', request'), d'') ∧
    Messages.trusted_device_v2_token request' = token ∧
    Messages.trusted_device_v2_supported request' = true.
Proof.
  apply (credential_survives ∅ some_settings ConfigStoreProofs.Examples.machine None creds token
    ("me", "host", "Linux") device saved between session request).
  - apply ConfigStoreProofs.Examples.fresh_good.
  - vm_compute. reflexivity.
  - repeat constructor.
  - reflexivity.
  - discriminate.
Defined.

Definition sent : Session * Messages.LoginRequest :=
  match (login ∅ some_settings session request saved).1 with Ok x => x | Err _ => (session, request) end.

Lemma credential_only_to_issuer_witness :
  let d' := (login ∅ some_settings session request saved).2 in
  Messages.trusted_device_v2_token sent.2 = token ∧
  (login ∅ some_settings session request saved).1 = Ok sent ∧ true = true ∧
  ∃ k t v, Some host_key = Some k ∧ len k = TOKEN_BYTES ∧
    PeerConfig.get_trusted_device_v2 ∅ some_settings (TrustedClient.peer_file "peer" saved) = Some v ∧ saved_from_json v = Some t ∧
    issuer t = mkIssuer (servers_to_json (sort ["server"])) k ∧
    (symmetric_crypt (ciphertext t) false (host saved)).1 =
      Some (Messages.trusted_device_v2_token sent.2).
Proof.
  split; [vm_compute; reflexivity|]. split; [vm_compute; reflexivity|].
  apply (credential_only_to_issuer ∅ some_settings "peer" None ["server"] true (Some host_key)
    session sent.1 request sent.2 saved (login ∅ some_settings session request saved).2).
  - vm_compute. reflexivity.
  - reflexivity.
  - vm_compute. reflexivity.
  - vm_compute. discriminate.
Defined.

(** The user asks to trust the device, and the host sends a token. *)
Definition asked : Session := session <| requested := true |>.
Definition granted : LoginResponse := mkResponse (Some ("me", "host", "Linux")) token true.

Lemma credential_asked_for_witness :
  let '(_, d') := respond ∅ some_settings asked granted device in
  peers d' !! "peer" ≠ None ∧
  (requested asked = true ∨ legacy asked = true ∧ resp_supported granted = true) ∧
  is_Some (peer_info granted) ∧ len (resp_token granted) = TOKEN_BYTES ∧
  ∃ c f, credentials asked = Some c ∧ peers d' = <[peer_id c := f]> (peers device).
Proof.
  pose proof (credential_asked_for ∅ some_settings asked granted device) as Hr.
  assert (peers (respond ∅ some_settings asked granted device).2 !! "peer" ≠ None) as Hp
    by (vm_compute; discriminate).
  destruct (respond ∅ some_settings asked granted device) as [x d']. cbn [snd] in Hp.
  split; [exact Hp|]. apply Hr. intros E. rewrite E in Hp. done.
Defined.

(** ** Logins *)
Definition system : Env :=
  mkEnv "me" "" "Linux" [] [] false false 7 None "" (mkAb "" []) (λ _ _, true) true.

Definition handler : LoginConfigHandler :=
  mkHandler "peer" DEFAULT_CONN false false (mkHash "salt" "challenge") [] false
    (PeerConfig.default_peer ∅ some_settings) ("", 0) false 0 None 0 [] false None false false false
    None false None false None None None None Undefined None false false true.
Definition client (l : LoginConfigHandler) : Client := mkClient l device default_session [].
Definition peer_info_of : PeerInfo := mkPeerInfo "1.4.6" "user" "host" "Linux" None None.

(** A session opened from a shared address book. *)
Definition from_shared : Client := client (handler <| shared_password := Some "secret" |>).

Lemma shared_password_not_kept_witness :
  ∃ m c1 c2, handle_hash system "" (mkHash "salt" "challenge") from_shared = (true, c1) ∧
    effects c1 = effects from_shared ++ [SendLogin m] ∧
    Messages.lr_password m =
      answer (hash_password "secret" (mkHash "salt" "challenge")) (mkHash "salt" "challenge") ∧
    handle_peer_info peer_info_of c1 = (tt, c2) ∧ effects c2 = effects c1 ∧
    (PeerConfig.password (config (lc c2)) = [] ∨
     PeerConfig.password (config (lc c2)) = PeerConfig.password (load_config c1).1).
Proof.
  apply (shared_password_not_kept system "" "secret" (mkHash "salt" "challenge") peer_info_of from_shared);
    [reflexivity|discriminate|reflexivity|reflexivity|reflexivity|discriminate].
Defined.

(** What the user typed, with the answer to remember it. *)
Definition typed : Client :=
  client (handler <| lc_password := hash_password "secret" (mkHash "salt" "challenge") |>
                  <| remember := true |>).

Lemma remembered_password_logs_in_witness :
  ∃ c1, handle_peer_info peer_info_of typed = (tt, c1) ∧
  ∀ l, lc_password l = [] → ∃ c2 m c3,
    initialize system "peer" DEFAULT_CONN None false None None None (c1 <| lc := l |>) = (tt, c2) ∧
    handle_hash system "" (mkHash "salt" "another") c2 = (true, c3) ∧
    effects c3 = effects c1 ++ [SendLogin m] ∧
    Messages.lr_password m = answer (lc_password (lc typed)) (mkHash "salt" "another").
Proof.
  apply (remembered_password_logs_in ConfigStoreProofs.Examples.machine None system peer_info_of
    "peer" DEFAULT_CONN false None (mkHash "salt" "another") typed).
  - split; [apply ConfigStoreProofs.Examples.fresh_good|]. split; [reflexivity|]. vm_compute. discriminate.
  - reflexivity.
  - reflexivity.
  - split; [vm_compute; discriminate|]. split; vm_compute; [reflexivity|discriminate].
  - reflexivity.
  - discriminate.
  - reflexivity.
  - reflexivity.
Defined.

(** A program that only takes connections, asked to switch sides. *)
Definition incoming : Program := program {["conn-type" := "incoming"]}.
Definition switching : Client := client (handler <| switch_uuid := Some "uuid" |>).

#[local] Existing Instance incoming.

Lemma incoming_only_logs_in_nowhere_witness :
  let '(_, c') := handle_hash system "" (mkHash "salt" "challenge") switching in
  switch_uuid (lc c') = None ∧
  ∃ es, effects c' = effects switching ++ es ∧
    ∀ e, e ∈ es → match e with
    | SendLogin _ => False
    | SendSwitchLogin u m => Messages.lr_password m = [] ∧
        (switch_uuid (lc switching) ≫= parse_uuid) = Some u ∧
        local_switch_uuid system (lc_id (lc switching)) u = true
    | _ => True
    end.
Proof.
  apply (incoming_only_logs_in_nowhere (PR := incoming) system "" (mkHash "salt" "challenge") switching).
  vm_compute. reflexivity.
Defined.

End ControllerExamples.
