(* ===== verification/ControllerHostExamples.v ===== *)
(** * A login between a concrete controller and a concrete host *)
From S2P Require Import Prelude RustStd RecordUpdate Secrets SecretsProofs ConfigStore ConfigStoreProofs TrustedDevices.
From S2P Require Import SessionScope Session Login SessionExamples.
From S2P Require TrustedTokens.
From S2P Require Import ControllerConfig ControllerLogin ControllerExamples ControllerHost.

Module ControllerHostExamples.
Import ControllerHost.

#[local] Existing Instance ControllerConfig.eta_handler.

(** The host of the examples, after a connection was opened. *)
Definition host_world : World := SessionExamples.opened ∅.

Definition controller : ControllerConfig.Client :=
  ControllerExamples.client (ControllerExamples.handler <| ControllerConfig.hash :=
    ControllerConfig.mkHash (hash_salt (conn host_world)) (hash_challenge (conn host_world)) |>).
#[local] Existing Instance ControllerExamples.toy_saved.
#[local] Existing Instance ControllerExamples.toy_login_libs.
#[local] Existing Instance ControllerExamples.usual.
#[local] Existing Instance SessionExamples.site.
#[local] Existing Instance SecretsProofs.Toy.toy_crypto.
#[local] Existing Instance SecretsProofs.Toy.toy_entropy.
#[local] Existing Instance TrustedTokens.Examples.toy_totp.
#[local] Existing Instance TrustedTokens.Examples.toy_json.
#[local] Existing Instance TrustedTokens.Examples.toy_tokens.

Lemma right_password_accepted_witness :
  ∃ m c', ControllerLogin.handle_login_from_ui ControllerExamples.system "" "secret" true controller
      = (Ok tt, c') ∧
    ControllerConfig.effects c' = ControllerConfig.effects controller ++ [ControllerConfig.SendLogin m] ∧
    (check (SessionExamples.env 2000) m host_world).1 = true.
Proof.
  destruct (right_password_accepted ControllerExamples.system (SessionExamples.env 2000) "" "secret" true
    controller host_world) as (m & c' & Hrun & He & Hok & _).
  - discriminate.
  - reflexivity.
  - reflexivity.
  - exists m, c'. split; [exact Hrun|]. split; [exact He|]. apply Hok.
    apply (has_permanent _ _ _ ConfigStoreProofs.Examples.machine None).
    + vm_compute. reflexivity.
    + constructor; vm_compute; auto.
    + vm_compute. discriminate.
    + vm_compute. reflexivity.
Defined.

End ControllerHostExamples.
