(* ===== verification/TerminalOutput.v ===== *)
(** * The output of a terminal

    [OutputBuffer], [find_utf8_split_point] and [Utf8ChunkAccumulator] of
    client/src/server/terminal_service.rs: the recent output that is kept to be shown
    again on a reconnection, and the cutting of what is read from the terminal into
    chunks.  [usize] is 64 bits; no buffer comes near its limit. *)
From S2P Require Import Prelude RustStd RecordUpdate Utf8.

Module TerminalOutput.
Export Utf8.
Abbreviation bytes := (list byte).

Definition MAX_OUTPUT_BUFFER_SIZE : Z := 1024 * 1024.
Definition MAX_BUFFER_LINES : Z := 10000.
Definition DEFAULT_RECONNECT_BUFFER_BYTES : Z := 8 * 1024.

(** ** The buffer *)
Record OutputBuffer : Type := mkBuffer {
  lines : list bytes;
  total_size : Z;
  last_line_incomplete : bool;
}.
#[export] Instance eta_buffer : Eta OutputBuffer := λ b,
  mkBuffer (lines b) (total_size b) (last_line_incomplete b).

Definition new : OutputBuffer := mkBuffer [] 0 false.

Definition is_newline (b : byte) : bool := bool_decide (b = newline).

(** [data.iter().position(|&b| b == b'\n')] *)
Fixpoint position (data : bytes) : option nat :=
  match data with
  | [] => None
  | b :: data => if is_newline b then Some O else S <$> position data
  end.

(** [remaining.split(|&b| b == b'\n')] *)
Fixpoint split (data : bytes) : list bytes :=
  match data with
  | [] => [[]]
  | b :: data =>
      if is_newline b then [] :: split data
      else match split data with [] => [[b]] | l :: ls => (b :: l) :: ls end
  end.

(** [self.lines.back_mut()], extended by [data]. *)
Definition extend_last (ls : list bytes) (data : bytes) : list bytes :=
  match last ls with
  | Some l => removelast ls ++ [l ++ data]
  | None => ls
  end.

(** The part of [data] that completes an incomplete line, and where the rest starts. *)
Definition complete_line (b : OutputBuffer) (data : bytes) : OutputBuffer * nat :=
  if last_line_incomplete b && negb (bool_decide (lines b = [])) then
    match position data with
    | Some pos =>
        (mkBuffer (extend_last (lines b) (take (S pos) data))
           (total_size b + Z.of_nat (S pos)) false, S pos)
    | None =>
        (b <| lines := extend_last (lines b) data |> <| total_size := total_size b + len data |>,
         length data)
    end
  else (b, O).

(** The loop over the lines of the rest. *)
Fixpoint push_lines (ends_with_newline : bool) (ls : list bytes) (b : OutputBuffer) : OutputBuffer :=
  match ls with
  | [] => b
  | line :: ls =>
      let is_last := bool_decide (ls = []) in
      let empty := bool_decide (line = []) in
      let b := if is_last && negb ends_with_newline && negb empty
               then b <| last_line_incomplete := true |> else b in
      let b := if negb empty || negb is_last then
                 let line := if negb is_last || ends_with_newline then line ++ [newline] else line in
                 b <| total_size := total_size b + len line |> <| lines := lines b ++ [line] |>
               else b in
      push_lines ends_with_newline ls b
  end.

Definition sum_len (ls : list bytes) : Z := foldr (λ l n, len l + n) 0 ls.

(** The loop that trims old data. *)
Fixpoint trim (ls : list bytes) (total : Z) (incomplete : bool) : OutputBuffer :=
  if (MAX_OUTPUT_BUFFER_SIZE <? total) || (MAX_BUFFER_LINES <? len ls) then
    match ls with
    | [] => mkBuffer [] 0 false
    | line :: rest =>
        if bool_decide (rest = []) && incomplete then
          let line := drop (Z.to_nat (saturating_sub (len line) (MAX_OUTPUT_BUFFER_SIZE / 2))) line in
          mkBuffer [line] (len line) incomplete
        else
          trim rest (if total <? len line then sum_len rest else total - len line)
            (if bool_decide (rest = []) then false else incomplete)
    end
  else mkBuffer ls total incomplete.

Definition append (data : bytes) (b : OutputBuffer) : OutputBuffer :=
  if bool_decide (data = []) then b
  else
    let '(b, start) := complete_line b data in
    let remaining := drop start data in
    let ends_with_newline := bool_decide (last remaining = Some newline) in
    let b := push_lines ends_with_newline (split remaining) b in
    trim (lines b) (total_size b) (last_line_incomplete b).

(** At most [n] bytes that continue a character are skipped. *)
Fixpoint skip_continuation (n : nat) (l : bytes) : bytes :=
  match n, l with
  | S n, b :: l' => if continues b then skip_continuation n l' else l
  | _, _ => l
  end.

(** The loop from the newest line to the oldest; [chunks] are those collected, oldest
    first. *)
Fixpoint collect (max_bytes size : Z) (newest_first : list bytes) (chunks : list bytes) : list bytes :=
  match newest_first with
  | [] => chunks
  | line :: older =>
      if max_bytes <? size + len line then
        if (size =? 0) && (max_bytes <? len line) then
          let tail := skip_continuation 3 (drop (Z.to_nat (len line - max_bytes)) line) in
          if bool_decide (tail = []) then chunks else tail :: chunks
        else chunks
      else collect max_bytes (size + len line) older (line :: chunks)
  end.

Definition get_recent (max_bytes : Z) (b : OutputBuffer) : bytes :=
  if max_bytes =? 0 then [] else mjoin (collect max_bytes 0 (reverse (lines b)) []).

(** ** Chunks *)

(** The loop of [find_utf8_split_point] over [indices]. *)
Fixpoint scan (buf : bytes) (indices : list nat) : nat :=
  match indices with
  | [] => length buf
  | i :: indices =>
      let b := default Byte.x00 (buf !! i) in
      if masked b 0x80 0 then length buf
      else if continues b then scan buf indices
      else
        match (if masked b 0xE0 0xC0 then Some 2 else if masked b 0xF0 0xE0 then Some 3
               else if masked b 0xF8 0xF0 then Some 4 else None)%nat with
        | None => length buf
        | Some seq_len => if (seq_len <=? length buf - i)%nat then length buf else i
        end
  end.

Definition find_utf8_split_point (buf : bytes) : nat :=
  match buf with
  | [] => O
  | _ => let start := (length buf - 3)%nat in scan buf (reverse (seq start (length buf - start)))
  end.

(** [std::str::from_utf8(..).is_err()] *)
Definition not_utf8 (l : bytes) : bool := negb (is_utf8_go (length l) l).

(** [Utf8ChunkAccumulator]: the chunk that may go on, and the [remainder] after it. *)
Definition push_chunk (data remainder : bytes) : option bytes * bytes :=
  if bool_decide (data = []) then (None, remainder)
  else
    let had_remainder := negb (bool_decide (remainder = [])) in
    let '(data, remainder) := if had_remainder then (remainder ++ data, []) else (data, remainder) in
    let split := find_utf8_split_point data in
    if (split =? length data)%nat then (Some data, remainder)
    else if negb had_remainder && (0 <? split)%nat && not_utf8 (take split data)
    then (Some data, remainder)
    else
      let remainder := drop split data in
      let data := take split data in
      (if bool_decide (data = []) then None else Some data, remainder).

Definition finish (remainder : bytes) : option bytes * bytes :=
  if bool_decide (remainder = []) then (None, remainder) else (Some remainder, []).

(** The chunks that a sequence of reads yields, and what remains. *)
Fixpoint push_chunks (reads : list bytes) (remainder : bytes) : list bytes * bytes :=
  match reads with
  | [] => ([], remainder)
  | data :: reads =>
      let '(o, remainder) := push_chunk data remainder in
      let '(out, remainder) := push_chunks reads remainder in
      (option_list o ++ out, remainder)
  end.

Example split_across_reads :
  push_chunks [[z2b 0xE4]; [z2b 0xB8]; [z2b 0xAD]] [] = ([[z2b 0xE4; z2b 0xB8; z2b 0xAD]], []).
Proof. vm_compute. reflexivity. Qed.
Example flushed_tail :
  push_chunk [Byte.x61; z2b 0xE4] [] = (Some [Byte.x61], [z2b 0xE4]) ∧
  finish [z2b 0xE4] = (Some [z2b 0xE4], []).
Proof. vm_compute. done. Qed.

End TerminalOutput.
