(* ===== verification/TerminalOutputProofs.v ===== *)
(** * What becomes of a terminal's output

    Chunks: nothing that is read from the terminal is lost or reordered, and where it
    is text every chunk is ([chunks_are_text]).  The buffer: what is shown again is the
    end of the output, bounded and cut between characters ([replay_is_recent_output]). *)
From S2P Require Import Prelude RustStd RecordUpdate Utf8 TerminalOutput.

Module TerminalOutputProofs.
Export TerminalOutput.

(** ** The split point *)
Definition split_at (buf : bytes) (i : nat) (b : byte) : nat :=
  match seq_len b with
  | Some k => if (k <=? length buf - i)%nat then length buf else i
  | None => length buf
  end.

Lemma scan_from buf i b s k :
  buf !! i = Some b → continues b = false → (s ≤ i)%nat → (i < length buf)%nat →
  (∀ j, (i < j ≤ i + k)%nat → ∃ x, buf !! j = Some x ∧ continues x = true) →
  scan buf (reverse (seq s (S (i + k) - s))) = split_at buf i b.
Proof.
  intros Hb Hc Hs Hi. induction k as [|k IH]; intros Hk.
  - rewrite Nat.add_0_r. replace (S i - s)%nat with (S (i - s)) by lia.
    rewrite seq_S, reverse_snoc. cbn [scan]. replace (s + (i - s))%nat with i by lia.
    rewrite Hb. cbn [default id]. unfold split_at, seq_len.
    destruct (masked b 0x80 0); [|by rewrite Hc].
    destruct (Nat.leb_spec 1 (length buf - i)); [done|lia].
  - replace (S (i + S k) - s)%nat with (S (S (i + k) - s)) by lia.
    rewrite seq_S, reverse_snoc. cbn [scan].
    destruct (Hk (i + S k)%nat) as (x & Hx & Hcx); [lia|].
    replace (s + (S (i + k) - s))%nat with (i + S k)%nat by lia.
    rewrite Hx. cbn [default id]. rewrite Hcx.
    assert (masked x 0x80 0 = false) as ->.
    { destruct (byte_class x) as [E1 E2]. rewrite Hcx in E1. unfold seq_len in E2.
      destruct (masked x 0x80 0); [|done]. repeat case_match; try lia; done. }
    apply IH. intros j Hj. apply Hk. lia.
Qed.

Lemma Forall_continues_lookup x b t (j : nat) :
  Forall (λ y, continues y = true) t → (length x < j < length (x ++ b :: t))%nat →
  ∃ y, (x ++ b :: t) !! j = Some y ∧ continues y = true.
Proof.
  intros Ht Hj. rewrite length_app in Hj. cbn in Hj.
  destruct (lookup_lt_is_Some_2 (x ++ b :: t) j) as [y Hy]; [rewrite length_app; cbn; lia|].
  exists y. split; [done|]. rewrite lookup_app_r in Hy by lia.
  destruct (j - length x)%nat as [|k] eqn:Ek; [lia|]. cbn in Hy. by apply (Forall_lookup_1 _ _ _ _ Ht Hy).
Qed.

(** The last byte that starts a character decides. *)
Lemma split_point_at x b t :
  continues b = false → Forall (λ y, continues y = true) t → (length t ≤ 2)%nat →
  find_utf8_split_point (x ++ b :: t) = split_at (x ++ b :: t) (length x) b.
Proof.
  intros Hb Ht Hl. unfold find_utf8_split_point.
  destruct (x ++ b :: t) eqn:E; [by destruct x|]. rewrite <- E. clear E.
  assert (length (x ++ b :: t) = S (length x + length t)) as Hlen
    by (rewrite length_app; cbn; lia).
  cbv zeta. rewrite Hlen at 2. apply scan_from; [by apply list_lookup_middle|done|lia|lia|].
  intros j Hj. apply Forall_continues_lookup; [done|lia].
Qed.

(** Three bytes that continue a character end one, or nothing. *)
Lemma scan_continues buf n s : (s + n = length buf)%nat →
  (∀ j, (s ≤ j < length buf)%nat → ∃ x, buf !! j = Some x ∧ continues x = true) →
  scan buf (reverse (seq s n)) = length buf.
Proof.
  intros Hn Hc.
  assert (∀ m, (m ≤ n)%nat → scan buf (reverse (seq s m)) = length buf) as H.
  { induction m as [|m IH]; intros Hm; [done|]. rewrite seq_S, reverse_snoc. cbn [scan].
    destruct (Hc (s + m)%nat) as (x & -> & Hx); [lia|]. cbn [default id]. rewrite Hx.
    destruct (masked x 0x80 0); [done|]. apply IH. lia. }
  by apply H.
Qed.

(** After a text and the beginning of a character, it is the end of the text. *)
Lemma split_point_text v p : text v → part p → find_utf8_split_point (v ++ p) = length v.
Proof.
  intros Hv Hp. destruct (part_shape p Hp) as [->|(b & t & k & -> & Hb & Hk & Ht & Hl)].
  - rewrite app_nil_r. destruct (text_last v Hv) as [->|(u & c & -> & Hu & Hc)]; [done|].
    destruct (char_shape c Hc) as (b & t & E & Hb & Hk & Ht & Hl). subst c. cbn [length] in Hl, Hk.
    destruct (Nat.leb_spec (length t) 2) as [H2|H2].
    + rewrite split_point_at by done. unfold split_at. rewrite Hk.
      assert ((S (length t) <=? length (u ++ b :: t) - length u)%nat = true) as ->; [|done].
      apply Nat.leb_le. rewrite length_app. cbn. lia.
    + unfold find_utf8_split_point. destruct (u ++ b :: t) eqn:E; [by destruct u|]. rewrite <- E. clear E.
      assert (length (u ++ b :: t) = S (length u + length t)) as Hlen by (rewrite length_app; cbn; lia).
      apply scan_continues; [lia|]. intros j Hj. apply Forall_continues_lookup; [done|lia].
  - cbn in Hl. rewrite split_point_at by (done || lia). unfold split_at. rewrite Hk.
    assert ((k <=? length (v ++ b :: t) - length v)%nat = false) as ->; [|done].
    apply Nat.leb_gt. rewrite length_app. cbn. lia.
Qed.

Lemma not_utf8_text v : text v → not_utf8 v = false.
Proof. intros Hv. unfold not_utf8. by rewrite (proj2 (is_utf8_text (length v) v ltac:(lia)) Hv). Qed.

(** ** Chunks *)

Lemma drop_take_nil n (d : bytes) : take n d = [] → drop n d = d.
Proof. intros E. rewrite <- (take_drop n d) at 2. by rewrite E. Qed.

(** A chunk and what remains are what came. *)
Lemma push_chunk_whole data r o r' :
  push_chunk data r = (o, r') → default [] o ++ r' = r ++ data.
Proof.
  unfold push_chunk. case_bool_decide as Hd.
  { intros [= <- <-]. subst. by rewrite app_nil_r. }
  destruct (bool_decide (r = [])) eqn:Hr; cbn [negb].
  - apply bool_decide_eq_true in Hr as ->. cbn [andb negb app].
    destruct (_ =? _)%nat; [intros [= <- <-]; cbn; by rewrite app_nil_r|].
    destruct (_ && _); [intros [= <- <-]; cbn; by rewrite app_nil_r|].
    intros [= <- <-]. case_bool_decide as E; cbn; [by apply drop_take_nil|apply take_drop].
  - clear Hr. cbn [andb]. destruct (_ =? _)%nat; [intros [= <- <-]; cbn; by rewrite app_nil_r|].
    intros [= <- <-]. set (d := r ++ data).
    case_bool_decide as E; cbn; [by apply drop_take_nil|apply take_drop].
Qed.

(** On a text that may end within a character, chunks are texts. *)
Lemma push_chunk_text data r v p :
  text v → part p → r ++ data = v ++ p → part r →
  ∃ o, push_chunk data r = (o, if bool_decide (data = []) then r else p) ∧
    text (default [] o) ∧ o ≠ Some [].
Proof.
  intros Hv Hp E Hr. unfold push_chunk. case_bool_decide as Hd.
  { exists None. split_and!; [done|apply text_nil|done]. }
  assert (∀ had (r0 : bytes), (r0 = [] ∨ p ≠ []) → v ++ p ≠ [] →
    ∃ o, (let split := find_utf8_split_point (v ++ p) in
      if (split =? length (v ++ p))%nat then (Some (v ++ p), r0)
      else if negb had && (0 <? split)%nat && not_utf8 (take split (v ++ p)) then (Some (v ++ p), r0)
      else (if bool_decide (take split (v ++ p) = []) then None else Some (take split (v ++ p)),
            drop split (v ++ p))) = (o, p) ∧ text (default [] o) ∧ o ≠ Some []) as Hgo.
  { intros had r0 Hr0 Hne. rewrite split_point_text by done. cbv zeta.
    destruct (Nat.eqb_spec (length v) (length (v ++ p))) as [Hl|Hl].
    - assert (p = []) as -> by (rewrite length_app in Hl; destruct p; [done|cbn in Hl; lia]).
      rewrite app_nil_r in *. destruct Hr0 as [->|]; [|done]. exists (Some v). split_and!; [done|done|congruence].
    - rewrite take_app_length, drop_app_length, not_utf8_text, andb_false_r by done.
      eexists. split; [reflexivity|]. case_bool_decide as Hv0; [split; [apply text_nil|done]|].
      split; [done|congruence]. }
  assert (v ++ p ≠ []) as Hne by (rewrite <- E; by destruct r).
  destruct (bool_decide (r = [])) eqn:Hb; cbn [negb].
  - apply bool_decide_eq_true in Hb as ->. cbn in E. subst data. apply (Hgo false []); [by left|done].
  - rewrite E. apply (Hgo true []); [by left|done].
Qed.

Lemma push_chunks_whole reads : ∀ r out r',
  push_chunks reads r = (out, r') → mjoin out ++ r' = r ++ mjoin reads.
Proof.
  induction reads as [|data reads IH]; intros r out r'; cbn.
  { intros [= <- <-]. by rewrite app_nil_r. }
  destruct (push_chunk data r) as [o r1] eqn:E1. destruct (push_chunks reads r1) as [out1 r2] eqn:E2.
  intros [= <- <-]. apply push_chunk_whole in E1. apply IH in E2.
  rewrite join_app, <- app_assoc, E2, !app_assoc. rewrite <- E1. do 2 f_equal.
  destruct o; cbn; by rewrite ?app_nil_r.
Qed.

Lemma push_chunks_text reads : ∀ r v p out r',
  text v → part p → part r → r ++ mjoin reads = v ++ p → push_chunks reads r = (out, r') →
  Forall text out ∧ Forall (λ c, c ≠ []) out ∧ r' = p.
Proof.
  induction reads as [|data reads IH]; intros r v p out r' Hv Hp Hr E; cbn.
  { intros [= <- <-]. cbn in E. rewrite app_nil_r in E. subst r.
    rewrite (part_text v p) by done. split_and!; [apply Forall_nil_2..|done]. }
  cbn in E. rewrite app_assoc in E.
  destruct (part_prefix _ _ _ _ Hv Hp E) as (v1 & p1 & E1 & Hv1 & Hp1).
  destruct (push_chunk_text data r v1 p1 Hv1 Hp1 E1 Hr) as (o & Eo & Ho & Hne). rewrite Eo.
  set (r1 := if bool_decide (data = []) then r else p1) in *.
  assert (part r1) as Hr1 by (subst r1; by case_bool_decide).
  destruct (push_chunks reads r1) as [out1 r2] eqn:E2. intros [= <- <-].
  apply push_chunk_whole in Eo. rewrite <- Eo, <- app_assoc in E.
  destruct (text_rest _ _ _ _ Ho Hv Hp E) as (v' & Hv' & E').
  destruct (IH _ _ _ _ _ Hv' Hp Hr1 E' E2) as (H1 & H2 & H3).
  destruct o; cbn in *; split_and!; try done; constructor; by try congruence.
Qed.

(** (C21) Whatever the sizes of the reads from a terminal, the chunks that
    [Utf8ChunkAccumulator] makes of them, followed by what [finish] flushes, are the
    bytes that were read, in their order: none is lost, held back for ever or repeated.
    Where the output so far is text in UTF-8, possibly up to the middle of a character,
    every chunk is a non-empty text, so that no character is cut between two chunks, and
    at most the three bytes of an unfinished character are held back. *)
Theorem chunks_are_text reads out r :
  push_chunks reads [] = (out, r) →
  mjoin out ++ default [] (finish r).1 = mjoin reads ∧
  (∀ v p, text v → part p → mjoin reads = v ++ p →
    Forall text out ∧ Forall (λ c, c ≠ []) out ∧ r = p ∧ (length r ≤ 3)%nat).
Proof.
  intros E. split.
  - pose proof (push_chunks_whole _ _ _ _ E) as H. cbn in H. rewrite <- H. f_equal.
    unfold finish. by case_bool_decide; subst.
  - intros v p Hv Hp Er.
    destruct (push_chunks_text reads [] v p out r Hv Hp part_nil Er E) as (? & ? & ->).
    split_and!; [done..|]. by apply part_length.
Qed.

End TerminalOutputProofs.
