(* ===== verification/OutputBufferProofs.v ===== *)
(** * The buffer of recent output

    What [OutputBuffer] keeps of everything that was appended, and what [get_recent]
    shows of it again ([replay_is_recent_output]). *)
From S2P Require Import Prelude RustStd RecordUpdate Utf8 TerminalOutput.

Module OutputBufferProofs.
Export TerminalOutput.

(** ** Lines of bytes *)
Fixpoint unsplit (ls : list bytes) : bytes :=
  match ls with
  | [] => []
  | [l] => l
  | l :: ls => l ++ newline :: unsplit ls
  end.

Lemma split_cons d : ∃ l ls, split d = l :: ls.
Proof. destruct d as [|b d]; cbn; [eauto|]. destruct (is_newline b); [eauto|]. destruct (split d); eauto. Qed.

Lemma unsplit_cons l ls : ls ≠ [] → unsplit (l :: ls) = l ++ newline :: unsplit ls.
Proof. by destruct ls. Qed.

Lemma unsplit_split d : unsplit (split d) = d.
Proof.
  induction d as [|b d IH]; [done|]. cbn [split]. unfold is_newline.
  destruct (split_cons d) as (l & ls & E). case_bool_decide as Hb.
  - rewrite unsplit_cons by (by rewrite E). rewrite IH. by subst b.
  - rewrite E in *. destruct ls; cbn in *; by rewrite IH.
Qed.

Lemma split_last d : last d = Some newline → last (split d) = Some [].
Proof.
  induction d as [|b d IH]; [done|]. rewrite last_cons. cbn [split]. unfold is_newline.
  destruct (last d) as [x|] eqn:E'; cbn.
  - intros [= ->]. specialize (IH eq_refl). case_bool_decide; [by rewrite last_cons, IH|].
    destruct (split_cons d) as (l & ls & E). pose proof (unsplit_split d) as H1. rewrite E in *.
    destruct ls as [|l2 ls]; [|exact IH].
    injection IH as ->. cbn in H1. by subst d.
  - intros [= ->]. apply last_None in E' as ->. by rewrite bool_decide_eq_true_2.
Qed.

Lemma sum_len_cons l ls : sum_len (l :: ls) = len l + sum_len ls.
Proof. done. Qed.
Lemma sum_len_join ls : sum_len ls = len (mjoin ls).
Proof. induction ls as [|l ls IH]; [done|]. cbn [mjoin list_join]. by rewrite sum_len_cons, len_app, IH. Qed.

Lemma sum_len_app l r : sum_len (l ++ r) = sum_len l + sum_len r.
Proof. by rewrite !sum_len_join, join_app, len_app. Qed.

Definition newlines (d : bytes) : Z := len (filter (λ b, is_newline b) d).

Lemma newlines_app l r : newlines (l ++ r) = newlines l + newlines r.
Proof. unfold newlines. by rewrite filter_app, len_app. Qed.
Lemma newlines_newline d : newlines (newline :: d) = 1 + newlines d.
Proof. unfold newlines. rewrite filter_cons, decide_True by done. apply len_cons. Qed.
Lemma newlines_nonneg d : 0 ≤ newlines d.
Proof. unfold newlines, len. lia. Qed.

Lemma position_newline d pos : position d = Some pos →
  (pos < length d)%nat ∧ ∃ x, take (S pos) d = x ++ [newline].
Proof.
  revert pos. induction d as [|b d IH]; intros pos; [done|]. cbn [position]. unfold is_newline.
  case_bool_decide as Hb; [intros [= <-]; split; [cbn; lia|]; exists []; cbn; subst; by rewrite take_0|].
  destruct (position d) as [p|] eqn:E; cbn; [|done]. intros [= <-].
  destruct (IH p eq_refl) as [Hp [x Hx]]. split; [cbn; lia|]. exists (b :: x). cbn in *. by rewrite Hx.
Qed.

(** ** The lines that are pushed *)
Fixpoint kept (ends : bool) (ls : list bytes) : list bytes :=
  match ls with
  | [] => []
  | [l] => if bool_decide (l = []) then [] else [if ends then l ++ [newline] else l]
  | l :: ls => (l ++ [newline]) :: kept ends ls
  end.

Definition left_open (ends : bool) (ls : list bytes) : bool :=
  negb ends && negb (bool_decide (last ls = Some [])) && negb (bool_decide (ls = [])).

Lemma kept_cons ends l ls : ls ≠ [] → kept ends (l :: ls) = (l ++ [newline]) :: kept ends ls.
Proof. by destruct ls. Qed.

Lemma push_lines_kept ends ls : ∀ b,
  push_lines ends ls b =
  mkBuffer (lines b ++ kept ends ls) (total_size b + sum_len (kept ends ls))
    (last_line_incomplete b || left_open ends ls).
Proof.
  induction ls as [|l ls IH]; intros b.
  { cbn. unfold left_open. rewrite andb_false_r, orb_false_r, app_nil_r, Z.add_0_r. by destruct b. }
  cbn [push_lines]. rewrite IH. destruct ls as [|l2 ls].
  - clear IH. cbn [kept]. unfold left_open. cbn [last negb andb orb]. 
    rewrite !(bool_decide_eq_true_2 ([] = [])), !(bool_decide_eq_false_2 ([l] = [])) by done.
    destruct (bool_decide_reflect (l = [])) as [->|Hl].
    + rewrite (bool_decide_eq_true_2 (Some [] = Some [])) by done. destruct ends, b; cbn;
        by rewrite ?app_nil_r, ?Z.add_0_r, ?orb_false_r.
    + rewrite (bool_decide_eq_false_2 (Some l = Some [])) by congruence.
      destruct ends, b; cbn; rewrite ?app_nil_r, ?Z.add_0_r, ?orb_false_r, ?orb_true_r; f_equal; lia.
  - rewrite (kept_cons ends l) by done. unfold left_open. rewrite last_cons_cons.
    rewrite !(bool_decide_eq_false_2 (l2 :: ls = [])), !(bool_decide_eq_false_2 (l :: l2 :: ls = [])) by done.
    cbn [negb andb orb]. rewrite andb_false_l || idtac. destruct b; cbn. rewrite orb_true_r. cbn.
    rewrite <- app_assoc. cbn. f_equal. by rewrite Z.add_assoc.
Qed.

Section kept.
Context (ends : bool).

Lemma kept_join ls : (ends = true → last ls = Some []) → mjoin (kept ends ls) = unsplit ls.
Proof.
  induction ls as [|l [|l2 ls] IH]; intros H; [done|..].
  - cbn. case_bool_decide as Hl; [by subst|]. destruct ends; cbn; [|by rewrite app_nil_r].
    specialize (H eq_refl). cbn in H. congruence.
  - rewrite (kept_cons ends l), (unsplit_cons l) by done. cbn [mjoin list_join]. rewrite <- app_assoc. cbn.
    f_equal. f_equal. apply IH. intros E. by apply H.
Qed.

Lemma kept_text ls : (ends = true → last ls = Some []) → text (unsplit ls) → Forall text (kept ends ls).
Proof.
  induction ls as [|l [|l2 ls] IH]; intros H Ht; [apply Forall_nil_2|..].
  - cbn in *. case_bool_decide as Hl; [apply Forall_nil_2|]. destruct ends; [|by repeat constructor].
    specialize (H eq_refl). congruence.
  - rewrite (kept_cons ends l) by done. rewrite (unsplit_cons l) in Ht by done. apply text_newline in Ht as (_ & Hl & Hr).
    constructor; [done|]. apply IH; [|done]. intros E. by apply H.
Qed.

Lemma kept_count ls : (ends = true → last ls = Some []) →
  len (kept ends ls) ≤ newlines (unsplit ls) + Z.b2z (left_open ends ls).
Proof.
  induction ls as [|l [|l2 ls] IH]; intros H; [unfold left_open; by destruct ends|..].
  - cbn. pose proof (newlines_nonneg l). unfold left_open. cbn.
    case_bool_decide as Hl; cbn.
    + unfold len. cbn. destruct (_ && _)%bool; cbn; lia.
    + destruct ends; [specialize (H eq_refl); cbn in H; congruence|].
      rewrite bool_decide_eq_false_2 by congruence. unfold len. cbn. lia.
  - rewrite (kept_cons ends l), (unsplit_cons l) by done. unfold left_open in *. rewrite last_cons_cons in *.
    rewrite newlines_app, newlines_newline. pose proof (newlines_nonneg l).
    rewrite (bool_decide_eq_false_2 (l :: _ = [])) by done.
    rewrite (bool_decide_eq_false_2 (l2 :: _ = [])) in IH by done. rewrite len_cons.
    specialize (IH H). lia.
Qed.
End kept.

(** ** What is appended before anything is trimmed *)
Record wf (b : OutputBuffer) : Prop := {
  wf_size : total_size b = sum_len (lines b);
  wf_open : last_line_incomplete b = true → lines b ≠ [];
}.

Definition appended (data : bytes) (b : OutputBuffer) : OutputBuffer :=
  let '(b, start) := complete_line b data in
  let remaining := drop start data in
  push_lines (bool_decide (last remaining = Some newline)) (split remaining) b.

Lemma append_trims data b : data ≠ [] →
  append data b = trim (lines (appended data b)) (total_size (appended data b))
                    (last_line_incomplete (appended data b)).
Proof.
  intros Hd. unfold append, appended. rewrite bool_decide_eq_false_2 by done.
  by destruct (complete_line b data).
Qed.

Lemma extend_last_snoc ls l d : extend_last (ls ++ [l]) d = ls ++ [l ++ d].
Proof. unfold extend_last. by rewrite last_snoc, removelast_last. Qed.

(** What completing a line does. *)
Lemma complete_line_spec b d b' start : wf b → complete_line b d = (b', start) →
  wf b' ∧ (b' = b ∧ start = 0%nat ∧ last_line_incomplete b = false ∨
    ∃ ls l x, lines b = ls ++ [l] ∧ lines b' = ls ++ [l ++ take start d] ∧
      last_line_incomplete b = true ∧
      (last_line_incomplete b' = false ∧ take start d = x ++ [newline] ∨
       last_line_incomplete b' = true ∧ start = length d)).
Proof.
  intros Hwf. unfold complete_line.
  destruct (last_line_incomplete b) eqn:Hi; cbn [andb]; [|intros [= <- <-]; auto].
  destruct Hwf as [Hs Ho]. specialize (Ho Hi). rewrite bool_decide_eq_false_2 by done. cbn [negb].
  destruct (exists_last Ho) as (ls0 & l0 & El). rewrite El in *.
  assert (∀ n, (n ≤ length d)%nat → sum_len (ls0 ++ [l0 ++ take n d]) = total_size b + Z.of_nat n) as Hsum.
  { intros n Hn. rewrite Hs, !sum_len_join, !join_app, !len_app. cbn. rewrite !app_nil_r, len_app.
    unfold len. rewrite length_take. lia. }
  destruct (position d) as [pos|] eqn:Ep; intros [= <- <-]; rewrite extend_last_snoc.
  - destruct (position_newline d pos Ep) as [Hp [x Hx]].
    split; [split; cbn -[take]; [by rewrite Hsum|done]|]. right. exists ls0, l0, x. cbn -[take]. split_and!; [done..|by left].
  - split; [split; cbn; [rewrite <- (firstn_all d) at 2; by rewrite Hsum|by destruct ls0]|].
    right. exists ls0, l0, []. rewrite firstn_all. cbn. split_and!; [done..|by right].
Qed.

Definition ends_line (d : bytes) : bool := bool_decide (last d = Some newline).

Lemma ends_line_split d : ends_line d = true → last (split d) = Some [].
Proof. intros H%bool_decide_eq_true. by apply split_last. Qed.

Lemma left_open_kept ends ls : left_open ends ls = true → kept ends ls ≠ [].
Proof.
  unfold left_open. rewrite !andb_true_iff, !negb_true_iff, !bool_decide_eq_false.
  destruct ls as [|l [|l2 ls]]; intros [[-> Hl] Hn]; [done| |done].
  cbn in *. rewrite bool_decide_eq_false_2; [done|congruence].
Qed.

(** A line that stays open takes all the data; [rest] is what is pushed. *)
Lemma appended_lines d b : wf b → ∃ b' start,
  complete_line b d = (b', start) ∧ wf b' ∧
  let rest := drop start d in
  lines (appended d b) = lines b' ++ kept (ends_line rest) (split rest) ∧
  total_size (appended d b) = total_size b' + sum_len (kept (ends_line rest) (split rest)) ∧
  last_line_incomplete (appended d b) = last_line_incomplete b' || left_open (ends_line rest) (split rest).
Proof.
  intros Hwf. unfold appended. destruct (complete_line b d) as [b' start] eqn:E.
  exists b', start. split; [done|]. split; [by eapply complete_line_spec|].
  cbv zeta. by rewrite push_lines_kept.
Qed.

Lemma appended_wf d b : wf b → wf (appended d b).
Proof.
  intros Hwf. destruct (appended_lines d b Hwf) as (b' & start & _ & [Hs Ho] & El & Es & Ei).
  split; rewrite ?El, ?Es, ?Ei.
  - by rewrite Hs, sum_len_app.
  - intros [H|H]%orb_true_iff E; apply app_eq_nil in E as [E1 E2]; [by apply Ho|].
    by apply left_open_kept in H.
Qed.

Lemma complete_line_join b d b' start : wf b → complete_line b d = (b', start) →
  mjoin (lines b') = mjoin (lines b) ++ take start d.
Proof.
  intros Hwf E. destruct (complete_line_spec _ _ _ _ Hwf E) as [_ [(-> & -> & _)|(ls & l & x & -> & -> & _)]].
  - by rewrite take_0, app_nil_r.
  - rewrite !join_app. cbn. by rewrite !app_nil_r, app_assoc.
Qed.

Lemma appended_join d b : wf b → mjoin (lines (appended d b)) = mjoin (lines b) ++ d.
Proof.
  intros Hwf. destruct (appended_lines d b Hwf) as (b' & start & E & _ & -> & _).
  rewrite join_app, kept_join, unsplit_split by apply ends_line_split.
  rewrite (complete_line_join _ _ _ _ Hwf E), <- app_assoc. by rewrite take_drop.
Qed.

(** As long as nothing is trimmed there is a newline for each line that is not open. *)
Definition counted (b : OutputBuffer) : Prop :=
  len (lines b) ≤ newlines (mjoin (lines b)) + Z.b2z (last_line_incomplete b).

Lemma appended_counted d b : wf b → counted b → counted (appended d b).
Proof.
  unfold counted. intros Hwf Hc. rewrite appended_join by done.
  destruct (appended_lines d b Hwf) as (b' & start & E & _ & -> & _ & ->).
  set (rest := drop start d). pose proof (kept_count (ends_line rest) (split rest) (ends_line_split _)) as Hk.
  rewrite unsplit_split in Hk. rewrite len_app.
  assert (newlines d = newlines (take start d) + newlines rest) as Hd
    by (rewrite <- newlines_app; subst rest; by rewrite take_drop).
  rewrite newlines_app. pose proof (newlines_nonneg (take start d)).
  destruct (complete_line_spec _ _ _ _ Hwf E) as [_ [(-> & -> & Hi)|(ls & l & x & El & El' & Hi & H')]].
  - rewrite Hi in *. cbn in *. lia.
  - rewrite El' in *. rewrite El, len_app in Hc. rewrite len_app. change (len [_]) with 1 in *.
    rewrite Hi in Hc. cbn [Z.b2z] in Hc. destruct H' as [[-> Hx]|[-> ->]].
    + rewrite Hx, newlines_app, newlines_newline in Hd. pose proof (newlines_nonneg x).
      change (newlines []) with 0 in Hd. rewrite El. cbn. lia.
    + assert (rest = []) as Er by (subst rest; apply drop_all). rewrite Er in *. cbn in Hk |- *.
      rewrite El, len_nil. change (newlines []) with 0 in *. lia.
Qed.

(** ** Where a kept text may be cut *)
Definition tail_text (l : bytes) : Prop := ∃ x, text (x ++ l).

(** Only the oldest line can be the end of a text, and it is long then. *)
Definition cut (ls : list bytes) : Prop :=
  match ls with
  | [] => True
  | l :: ls => Forall text ls ∧ (text l ∨ tail_text l ∧ MAX_OUTPUT_BUFFER_SIZE / 2 ≤ len l)
  end.

Lemma cut_app ls ks : cut ls → Forall text ks → cut (ls ++ ks).
Proof.
  destruct ls as [|l ls]; cbn.
  - intros _ Hk. destruct Hk; cbn; auto.
  - intros [Hls Hl] Hk. split; [by apply Forall_app|done].
Qed.

Lemma cut_extend ls l d : cut (ls ++ [l]) → text d → cut (ls ++ [l ++ d]).
Proof.
  destruct ls as [|l0 ls]; cbn.
  - intros [_ [Hl|[[x Hx] Hl]]] Hd; (split; [done|]); [left; by apply text_app|right].
    split; [exists x; rewrite app_assoc; by apply text_app|rewrite len_app; pose proof (len_nonneg d); lia].
  - intros [Hls Hl] Hd. split; [|done]. apply Forall_app in Hls as [? Hl1]. apply Forall_app.
    split; [done|]. inversion Hl1; subst. apply Forall_singleton. by apply text_app.
Qed.

Lemma cut_drop k ls : cut ls → cut (drop k ls).
Proof.
  destruct k as [|k], ls as [|l ls]; [done..|]. cbn. intros [Hls _].
  apply (Forall_drop _ k) in Hls. by destruct Hls; cbn; auto.
Qed.

Lemma appended_cut d b : wf b → text d → cut (lines b) → cut (lines (appended d b)).
Proof.
  intros Hwf Ht Hc. destruct (appended_lines d b Hwf) as (b' & start & E & _ & -> & _).
  assert (text (take start d) ∧ text (drop start d) ∧ cut (lines b')) as (H1 & H2 & H3).
  { destruct (complete_line_spec _ _ _ _ Hwf E) as [_ [(-> & -> & Hi)|(ls & l & x & El & El' & Hi & H')]].
    - rewrite take_0, drop_0. split_and!; [apply text_nil|done..].
    - assert (text (take start d) ∧ text (drop start d)) as [H1 H2].
      { destruct H' as [[_ Hx]|[_ ->]].
        - rewrite <- (take_drop start d), Hx, <- app_assoc in Ht. cbn in Ht.
          apply text_newline in Ht as (_ & ? & ?). by rewrite Hx.
        - rewrite firstn_all, drop_all. split; [done|apply text_nil]. }
      split_and!; [done..|]. rewrite El'. rewrite El in Hc. by apply cut_extend. }
  apply cut_app; [done|]. apply kept_text; [apply ends_line_split|]. by rewrite unsplit_split.
Qed.

(** ** Trimming *)
Definition bounded (b : OutputBuffer) : Prop :=
  0 ≤ total_size b ≤ MAX_OUTPUT_BUFFER_SIZE ∧ len (lines b) ≤ MAX_BUFFER_LINES.

Lemma sum_len_nonneg ls : 0 ≤ sum_len ls.
Proof. rewrite sum_len_join. apply len_nonneg. Qed.

Lemma trim_spec ls : ∀ total open, total = sum_len ls → (open = true → ls ≠ []) →
  let b := trim ls total open in
  wf b ∧ bounded b ∧ mjoin (lines b) `suffix_of` mjoin ls ∧ (cut ls → cut (lines b)).
Proof.
  induction ls as [|l ls IH]; intros total open -> Ho; cbn [trim].
  { cbn. split_and!; try done. }
  destruct (_ || _) eqn:Eb.
  2: { cbn. apply orb_false_iff in Eb as [E1%Z.ltb_ge E2%Z.ltb_ge]. split_and!; try done.
       by pose proof (sum_len_nonneg (l :: ls)). }
  destruct (bool_decide_reflect (ls = [])) as [->|Hls]; cbn [andb].
  - destruct open; cbn [andb].
    + change (sum_len [l]) with (len l + 0) in Eb. rewrite Z.add_0_r in Eb. apply orb_true_iff in Eb as [H%Z.ltb_lt|H%Z.ltb_lt];
        [|rewrite len_cons, len_nil in H; unfold MAX_BUFFER_LINES in H; lia].
      set (k := Z.to_nat _). assert (len (drop k l) = MAX_OUTPUT_BUFFER_SIZE / 2) as Hk.
      { unfold len in *. rewrite length_drop. subst k. unfold saturating_sub, len, MAX_OUTPUT_BUFFER_SIZE in *. change (1024 * 1024 / 2) with 524288. lia. }
      cbn. rewrite !app_nil_r. split_and!.
      * split; [cbn; lia|done].
      * unfold bounded. cbn [total_size lines]. rewrite Hk. done.
      * exists (take k l). by rewrite take_drop.
      * intros [_ Hl]. split; [done|]. right. rewrite Hk. split; [|done].
        assert (tail_text l) as [x Hx] by (destruct Hl as [Hl|[? _]]; [by exists []|done]).
        exists (x ++ take k l). by rewrite <- app_assoc, take_drop.
    + cbn [trim]. rewrite sum_len_cons. destruct (Z.ltb_spec (len l + sum_len []) (len l)); cbn in *; [lia|].
      replace (len l + 0 - len l) with 0 by lia. cbn. split_and!; try done. apply suffix_nil.
  - rewrite sum_len_cons. pose proof (sum_len_nonneg ls).
    destruct (Z.ltb_spec (len l + sum_len ls) (len l)); [lia|].
    destruct (IH (len l + sum_len ls - len l) open ltac:(lia) ltac:(done)) as (H1 & H2 & H3 & H4).
    split_and!; [done..| |].
    + etrans; [exact H3|]. cbn. by apply suffix_app_r.
    + intros Hc. apply H4. apply (cut_drop 1 _ Hc).
Qed.

Lemma trim_small ls total open :
  total ≤ MAX_OUTPUT_BUFFER_SIZE → len ls ≤ MAX_BUFFER_LINES → trim ls total open = mkBuffer ls total open.
Proof.
  intros H1%Z.ltb_ge H2%Z.ltb_ge. destruct ls; cbn [trim]; by rewrite H1, H2.
Qed.

(** ** What is shown again *)
Fixpoint skipped (n : nat) (l : bytes) : nat :=
  match n, l with
  | S n, b :: l' => if continues b then S (skipped n l') else O
  | _, _ => O
  end.

Lemma skip_continuation_drop n l : skip_continuation n l = drop (skipped n l) l.
Proof. revert l. induction n as [|n IH]; intros [|b l]; cbn; try done. destruct (continues b); cbn; auto. Qed.

Lemma skip_continuation_tail l : tail_text l → text (skip_continuation 3 l).
Proof.
  intros [x Hx]. destruct (text_behind x l Hx) as (t & z & -> & Hz & Hc & Hl & _). clear x Hx.
  assert (∀ n, (length t ≤ n)%nat → skip_continuation n (t ++ z) = z) as ->; [|done|done].
  induction Hc as [|b t Hb Hc IH]; intros n Hn; cbn in *.
  - destruct n as [|n]; [done|]. destruct Hz as [|c z Hch Hz]; [done|].
    destruct (char_shape c Hch) as (b & t & -> & Hb & _). cbn. by rewrite Hb.
  - destruct n as [|n]; [lia|]. cbn. rewrite Hb. apply IH; lia.
Qed.

Lemma tail_text_drop k l : tail_text l → tail_text (drop k l).
Proof. intros [x Hx]. exists (x ++ take k l). by rewrite <- app_assoc, take_drop. Qed.

Lemma collect_spec m rl : ∀ size chunks, size = sum_len chunks → size ≤ m →
  mjoin (collect m size rl chunks) `suffix_of` mjoin (reverse rl) ++ mjoin chunks ∧
  len (mjoin (collect m size rl chunks)) ≤ m ∧
  (sum_len (reverse rl) + size ≤ m → mjoin (collect m size rl chunks) = mjoin (reverse rl) ++ mjoin chunks) ∧
  (m < MAX_OUTPUT_BUFFER_SIZE / 2 → cut (reverse rl) → Forall text chunks →
   text (mjoin (collect m size rl chunks))).
Proof.
  assert (∀ ls, Forall text ls → text (mjoin ls)) as Hj.
  { induction 1; cbn; [apply text_nil|by apply text_app]. }
  induction rl as [|l rl IH]; intros size chunks -> Hm; cbn [collect].
  { rewrite <- sum_len_join. auto. }
  rewrite reverse_cons, join_app, sum_len_app. replace (mjoin [l]) with l by (cbn; by rewrite app_nil_r).
  replace (sum_len [l]) with (len l) by (cbn; lia).
  destruct (Z.ltb_spec m (sum_len chunks + len l)) as [Hlt|Hge].
  - assert (len (mjoin chunks) ≤ m) by (by rewrite <- sum_len_join).
    pose proof (sum_len_nonneg (reverse rl)).
    destruct ((sum_len chunks =? 0) && (m <? len l)) eqn:E.
    + apply andb_true_iff in E as [E1%Z.eqb_eq E2%Z.ltb_lt].
      set (k := Z.to_nat (len l - m)). set (tl := skip_continuation 3 (drop k l)).
      assert (mjoin (if bool_decide (tl = []) then chunks else tl :: chunks) = tl ++ mjoin chunks) as ->.
      { destruct (bool_decide_reflect (tl = [])) as [->|]; done. }
      assert (len tl ≤ m) as Htl.
      { subst tl k. rewrite skip_continuation_drop. unfold len in *. rewrite !length_drop. lia. }
      split_and!.
      * rewrite <- app_assoc. apply suffix_app_r. apply suffix_app. subst tl. rewrite skip_continuation_drop, drop_drop.
        eexists. symmetry. apply take_drop.
      * rewrite len_app, <- sum_len_join. lia.
      * intros. lia.
      * intros Hh Hc Hch. apply text_app; [|auto]. apply skip_continuation_tail, tail_text_drop.
        destruct (reverse rl); cbn in Hc.
        -- destruct Hc as [_ [Hl|[Hl _]]]; [by exists []|done].
        -- destruct Hc as [Hc _]. apply Forall_app in Hc as [_ Hc]. exists []. by inversion Hc.
    + split_and!; [by apply suffix_app_r|done|lia|auto].
  - destruct (IH (sum_len chunks + len l) (l :: chunks)) as (H1 & H2 & H3 & H4); [rewrite sum_len_cons; lia|done|].
    cbn in H1, H3. rewrite <- app_assoc. split_and!; [done..| |].
    + intros. apply H3. lia.
    + intros Hh Hc Hch. destruct (reverse rl) as [|l0 ls].
      * cbn in Hc. apply H4; [done..|]. constructor; [|done].
        destruct Hc as [_ [?|[_ Hl]]]; [done|]. pose proof (sum_len_nonneg chunks). lia.
      * cbn in Hc. destruct Hc as [Hc Hl]. apply Forall_app in Hc as [Hc Hc'].
        apply H4; [done|by split|]. constructor; [by inversion Hc'|done].
Qed.

(** ** The buffer over its life *)
Definition appends (chunks : list bytes) : OutputBuffer := foldl (λ b d, append d b) new chunks.

Record kept_of (chunks : list bytes) (b : OutputBuffer) : Prop := {
  k_wf : wf b;
  k_bounded : bounded b;
  k_suffix : mjoin (lines b) `suffix_of` mjoin chunks;
  k_whole : len (mjoin chunks) ≤ MAX_OUTPUT_BUFFER_SIZE → newlines (mjoin chunks) < MAX_BUFFER_LINES →
    mjoin (lines b) = mjoin chunks ∧ counted b;
  k_cut : Forall text chunks → cut (lines b);
}.

Lemma kept_of_append chunks b d : kept_of chunks b → kept_of (chunks ++ [d]) (append d b).
Proof.
  intros [Hwf Hb Hs Hk Hc].
  assert (mjoin (chunks ++ [d]) = mjoin chunks ++ d) as Ej by (rewrite join_app; cbn; by rewrite app_nil_r).
  destruct (bool_decide_reflect (d = [])) as [->|Hd].
  { rewrite app_nil_r in Ej. split; rewrite ?Ej; try done. intros H. apply Hc. by apply Forall_app in H as [? _]. }
  rewrite append_trims by done. pose proof (appended_wf d b Hwf) as [Hz Ho].
  pose proof (appended_join d b Hwf) as Ha.
  pose proof (trim_spec _ _ _ Hz Ho) as H. cbv zeta in H. destruct H as (H1 & H2 & H3 & H4).
  split; rewrite ?Ej; try done.
  - etrans; [exact H3|]. rewrite Ha. destruct Hs as [x ->]. exists x. by rewrite app_assoc.
  - rewrite len_app, newlines_app. intros Hl Hn. pose proof (newlines_nonneg d). pose proof (len_nonneg d).
    destruct Hk as [Ek Hk]; [lia..|]. pose proof (appended_counted d b Hwf Hk) as Hk'.
    assert (len (lines (appended d b)) ≤ MAX_BUFFER_LINES) as Hn'.
    { unfold counted in Hk'. rewrite Ha, newlines_app, Ek in Hk'.
      destruct (last_line_incomplete (appended d b)); cbn [Z.b2z] in Hk'; lia. }
    rewrite trim_small; [|rewrite Hz, sum_len_join, Ha, len_app, Ek; lia|done].
    cbn. rewrite Ha, Ek. split; [done|]. unfold counted in *. cbn. done.
  - intros [H5 H6]%Forall_app. apply H4, appended_cut; [done|by inversion H6|auto].
Qed.

Lemma kept_of_appends chunks : kept_of chunks (appends chunks).
Proof.
  unfold appends. induction chunks as [|d chunks IH] using rev_ind.
  - split; cbn; done || by split.
  - rewrite foldl_app. by apply kept_of_append.
Qed.

Lemma get_recent_spec b n : 0 ≤ n → wf b →
  get_recent n b `suffix_of` mjoin (lines b) ∧ len (get_recent n b) ≤ n ∧
  (total_size b ≤ n → get_recent n b = mjoin (lines b)) ∧
  (cut (lines b) → n < MAX_OUTPUT_BUFFER_SIZE / 2 → text (get_recent n b)).
Proof.
  intros Hn [Hz _]. unfold get_recent. destruct (Z.eqb_spec n 0) as [->|Hn0].
  { split_and!; [apply suffix_nil|done| |intros; apply text_nil].
    intros Ht. rewrite Hz, sum_len_join in Ht. symmetry. apply nil_length_inv. unfold len in Ht. lia. }
  destruct (collect_spec n (reverse (lines b)) 0 [] eq_refl Hn) as (H1 & H2 & H3 & H4).
  rewrite reverse_involutive, app_nil_r in *. split_and!; [done..| |].
  - intros Ht. apply H3. rewrite <- Hz. lia.
  - intros Ht Hh. apply H4; auto.
Qed.

(** What a replay of [n] bytes shows of all that was appended. *)
Lemma replay_bounds chunks n : 0 ≤ n < MAX_OUTPUT_BUFFER_SIZE / 2 →
  let r := get_recent n (appends chunks) in
  r `suffix_of` mjoin chunks ∧ len r ≤ n ∧
  (len (mjoin chunks) ≤ n → newlines (mjoin chunks) < MAX_BUFFER_LINES → r = mjoin chunks) ∧
  (Forall text chunks → text r).
Proof.
  intros Hn. destruct (kept_of_appends chunks) as [Hw _ Hs Hk Hc].
  destruct (get_recent_spec (appends chunks) n ltac:(lia) Hw) as (H1 & H2 & H3 & H4). cbv zeta. split_and!.
  - by etrans.
  - done.
  - intros Hl Hnl. change (MAX_OUTPUT_BUFFER_SIZE / 2) with 524288 in Hn.
    assert (len (mjoin chunks) ≤ MAX_OUTPUT_BUFFER_SIZE) as Hl' by (unfold MAX_OUTPUT_BUFFER_SIZE; lia).
    destruct (Hk Hl' Hnl) as [E _]. rewrite <- E. apply H3. destruct Hw as [-> _]. rewrite sum_len_join, E. lia.
  - intros Ht. apply H4; [auto|lia].
Qed.

(** (C22) Whatever was appended to the buffer of a terminal's recent output, it holds at
    most a megabyte in at most ten thousand lines, counts its bytes right, and its lines
    in order are the end of all that was appended, and all of it as long as that is
    within the limits.  [get_recent] shows at most as many bytes as are asked for, again
    the end of what is held, and all of it where it fits; and if text was appended it
    shows text, whole characters from the first on, for requests below half a megabyte. *)
Theorem replay_is_recent_output chunks n :
  let b := appends chunks in
  total_size b = sum_len (lines b) ∧ 0 ≤ total_size b ≤ MAX_OUTPUT_BUFFER_SIZE ∧
  len (lines b) ≤ MAX_BUFFER_LINES ∧
  mjoin (lines b) `suffix_of` mjoin chunks ∧
  (len (mjoin chunks) ≤ MAX_OUTPUT_BUFFER_SIZE → newlines (mjoin chunks) < MAX_BUFFER_LINES →
   mjoin (lines b) = mjoin chunks) ∧
  (0 ≤ n →
   get_recent n b `suffix_of` mjoin (lines b) ∧ len (get_recent n b) ≤ n ∧
   (total_size b ≤ n → get_recent n b = mjoin (lines b)) ∧
   (Forall text chunks → n < MAX_OUTPUT_BUFFER_SIZE / 2 → text (get_recent n b))).
Proof.
  cbv zeta. destruct (kept_of_appends chunks) as [[Hz Ho] [[Hb0 Hb1] Hb2] Hs Hk Hc].
  split_and!; [done..|intros; by apply Hk|]. intros Hn.
  destruct (get_recent_spec (appends chunks) n Hn ltac:(by split)) as (H1 & H2 & H3 & H4).
  split_and!; auto.
Qed.

End OutputBufferProofs.
