(* ===== verification/TerminalService.v ===== *)
(** * Terminals that outlive a connection

    client/src/server/terminal_service.rs on Linux: the registry of terminal services,
    the terminals of each, and what a controller's messages and the polling loop do to
    them; with the handlers of client/src/server/connection.rs that call it.

    The shell, its pseudo-terminal and the clock are outside: each operation takes what
    they answer ([Spawn], [ActionEnv], [PollEnv]).  A pseudo-terminal is the size it was
    given last, a shell its process id, a channel the list of what is in it.  The order in
    which a [HashMap] is visited is a parameter, and so is the compressor. *)
From S2P Require Import Prelude RustStd RecordUpdate TerminalOutput.

Module TerminalService.
Abbreviation bytes := (list byte).

Definition MAX_SERVICES : Z := 100.
(* in milliseconds *)
Definition SERVICE_IDLE_TIMEOUT : Z := 3600 * 1000.
Definition CHANNEL_BUFFER_SIZE : Z := 500.
Definition COMPRESS_THRESHOLD : Z := 512.
Definition MAX_SIGWINCH_PHASE_ATTEMPTS : Z := 3.

Inductive SigwinchPhase : Type :=
| Idle
| TempResize (retries : Z)
| Restore (retries : Z).

Inductive SigwinchAction : Type := DoTempResize | DoRestore.

Inductive SessionState : Type :=
| Closed
| Active (pending_buffer : option bytes) (sigwinch : SigwinchPhase).

Record PtySize : Type := mkSize { size_rows : Z; size_cols : Z }.

Record TerminalSession : Type := mkSession {
  created_at : Z;
  last_activity : Z;
  pty_pair : option PtySize;
  child : option Z;
  input_tx : bool;                (* whether the sender is held *)
  input : list bytes;             (* what was sent to the writer thread *)
  output_rx : option (list bytes);
  exiting : bool;
  reader_thread : option bool;    (* whether it has finished *)
  remainder : bytes;              (* of the reader thread's [Utf8ChunkAccumulator] *)
  output_buffer : TerminalOutput.OutputBuffer;
  title : string;
  pid : Z;
  rows : Z;
  cols : Z;
  closed_message_sent : bool;
  state : SessionState;
}.
#[export] Instance eta_session : Eta TerminalSession := λ s,
  mkSession (created_at s) (last_activity s) (pty_pair s) (child s) (input_tx s) (input s)
    (output_rx s) (exiting s) (reader_thread s) (remainder s) (output_buffer s) (title s)
    (pid s) (rows s) (cols s) (closed_message_sent s) (state s).

(** [TerminalSession::new] *)
Definition new_session (now terminal_id rows cols : Z) : TerminalSession :=
  mkSession now now None None false [] None false None [] TerminalOutput.new
    ("Terminal " +:+ int_to_string terminal_id) 0 rows cols false Closed.

Definition update_activity (now : Z) (s : TerminalSession) : TerminalSession :=
  s <| last_activity := now |>.

Definition crlf : bytes := [Byte.x0d; Byte.x0a].

(** [stop] joins the threads; the child, if there still is one, goes to the reaper. *)
Definition stop (s : TerminalSession) : TerminalSession * list Z :=
  let s := s <| state := Closed |> <| exiting := true |> in
  let s := if input_tx s then s <| input := input s ++ [crlf] |> <| input_tx := false |> else s in
  let s := s <| output_rx := None |> <| pty_pair := None |> <| reader_thread := None |> in
  (s <| child := None |>, option_list (child s)).

(** ** The reader thread *)
Inductive ReadResult : Type := ReadOk (data : bytes) | WouldBlock | ReadErr.

(** Whether the read loop ends is the second component. *)
Definition try_send_output (data : bytes) (s : TerminalSession) : TerminalSession * bool :=
  match output_rx s with
  | Some q => ((if len q <? CHANNEL_BUFFER_SIZE then s <| output_rx := Some (q ++ [data]) |> else s), false)
  | None => (s, true)
  end.

(** One turn of the loop. *)
Definition reader_turn (r : ReadResult) (s : TerminalSession) : TerminalSession :=
  match reader_thread s with
  | Some false =>
      match r with
      | ReadOk [] =>
          let s := match TerminalOutput.finish (remainder s) with
                   | (Some data, rest) => (try_send_output data (s <| remainder := rest |>)).1
                   | (None, _) => s
                   end in
          s <| reader_thread := Some true |>
      | ReadOk buf =>
          if exiting s then s <| reader_thread := Some true |>
          else
            match TerminalOutput.push_chunk buf (remainder s) with
            | (None, rest) => s <| remainder := rest |>
            | (Some data, rest) =>
                let '(s, stopped) := try_send_output data (s <| remainder := rest |>) in
                if stopped then s <| reader_thread := Some true |> else s
            end
      | WouldBlock => if exiting s then s <| reader_thread := Some true |> else s
      | ReadErr => s <| reader_thread := Some true |>
      end
  | _ => s
  end.

(** ** Services *)
Record PersistentTerminalService : Type := mkService {
  service_id : string;
  sessions : gmap Z TerminalSession;
  service_created_at : Z;
  service_last_activity : Z;
  is_persistent : bool;
  needs_session_sync : bool;
  is_specified_user : bool;
}.
#[export] Instance eta_service : Eta PersistentTerminalService := λ s,
  mkService (service_id s) (sessions s) (service_created_at s) (service_last_activity s)
    (is_persistent s) (needs_session_sync s) (is_specified_user s).

Definition new_service (now : Z) (id : string) (persistent specified_user : bool) : PersistentTerminalService :=
  mkService id ∅ now now persistent false specified_user.

Definition close_state (s : TerminalSession) : TerminalSession := s <| state := Closed |>.

Definition reset_status (persistent : bool) (svc : PersistentTerminalService) : PersistentTerminalService :=
  svc <| is_persistent := persistent |> <| needs_session_sync := true |>
      <| sessions := close_state <$> sessions svc |>.

Definition get_terminal_buffer (terminal_id max_bytes : Z) (svc : PersistentTerminalService) : option bytes :=
  (λ s, TerminalOutput.get_recent max_bytes (output_buffer s)) <$> sessions svc !! terminal_id.

Definition get_terminal_info (terminal_id : Z) (svc : PersistentTerminalService) : option (Z * Z * bytes) :=
  (λ s, (rows s, cols s,
     TerminalOutput.get_recent TerminalOutput.DEFAULT_RECONNECT_BUFFER_BYTES (output_buffer s)))
    <$> sessions svc !! terminal_id.

Definition has_active_terminals (svc : PersistentTerminalService) : bool :=
  negb (bool_decide (sessions svc = ∅)).

(** The globals [TERMINAL_SERVICES] and [TERMINAL_TASKS]. *)
Record Terminals : Type := mkTerminals {
  TERMINAL_SERVICES : gmap string PersistentTerminalService;
  TERMINAL_TASKS : list Z;
}.
#[export] Instance eta_terminals : Eta Terminals := λ w,
  mkTerminals (TERMINAL_SERVICES w) (TERMINAL_TASKS w).

Definition get_service (id : string) (w : Terminals) : option PersistentTerminalService :=
  TERMINAL_SERVICES w !! id.
Definition put_service (id : string) (svc : PersistentTerminalService) (w : Terminals) : Terminals :=
  w <| TERMINAL_SERVICES := <[id := svc]> (TERMINAL_SERVICES w) |>.

Definition is_service_specified_user (id : string) (w : Terminals) : option bool :=
  is_specified_user <$> get_service id w.

Definition get_terminal_session_count (include_zombie_tasks : bool) (w : Terminals) : Z :=
  Z.of_nat (size (TERMINAL_SERVICES w)) + (if include_zombie_tasks then len (TERMINAL_TASKS w) else 0).

Definition set_persistent (id : string) (persistent : bool) (w : Terminals) : Terminals * result unit string :=
  match get_service id w with
  | Some svc => (put_service id (svc <| is_persistent := persistent |>) w, Ok tt)
  | None => (w, Err ("Service " +:+ id +:+ " not found"))
  end.

Definition too_many : string :=
  "Maximum number of terminal services (" +:+ int_to_string MAX_SERVICES +:+ ") reached".

Definition get_or_create_service (now : Z) (id : string) (persistent specified_user : bool) (w : Terminals)
    : Terminals * result PersistentTerminalService string :=
  if negb (bool_decide (is_Some (get_service id w))) &&
     (MAX_SERVICES <=? Z.of_nat (size (TERMINAL_SERVICES w)))
  then (w, Err too_many)
  else
    let svc := default (new_service now id persistent specified_user) (get_service id w) in
    let svc := reset_status persistent svc in
    (put_service id svc w, Ok svc).

(** [check_zombie_terminals]; [exited] is what [try_wait] answers of a child, [None] for
    one that is still running. *)
Fixpoint check_zombie_terminals (exited : Z → option (result Z string)) (tasks : list Z) : list Z :=
  match tasks with
  | [] => []
  | t :: tasks =>
      match exited t with
      | Some _ => check_zombie_terminals exited tasks
      | None => t :: check_zombie_terminals exited tasks
      end
  end.

(** ** Messages *)
Record OpenTerminal : Type := mkOpen { open_terminal_id : Z; open_rows : Z; open_cols : Z }.
Record ResizeTerminal : Type := mkResize { resize_terminal_id : Z; resize_rows : Z; resize_cols : Z }.
Record TerminalData : Type := mkData { data_terminal_id : Z; data_data : bytes; data_compressed : bool }.

Inductive TerminalAction : Type :=
| ActionOpen (open : OpenTerminal)
| ActionResize (resize : ResizeTerminal)
| ActionData (data : TerminalData)
| ActionClose (terminal_id : Z)
| ActionNone.

Record TerminalOpened : Type := mkOpened {
  terminal_id : Z;
  success : bool;
  message : string;
  opened_pid : Z;
  opened_service_id : string;
  persistent_sessions : list Z;
  replay_terminal_output : bool;
}.

Inductive TerminalResponse : Type :=
| RespOpened (opened : TerminalOpened)
| RespData (data : TerminalData)
| RespClosed (terminal_id exit_code : Z)
| RespError (message : string).

(** What opening a pseudo-terminal and starting the shell in it comes to. *)
Inductive Spawn : Type := SpawnErr (e : string) | Spawned (process_id : option Z).

Record ActionEnv : Type := mkActionEnv {
  a_now : Z;
  spawn : Spawn;
  resize_err : option string;
  kill_err : option string;
}.

Record PollEnv : Type := mkPollEnv {
  p_now : Z;
  busy : Z → bool;                (* another thread holds the session *)
  try_wait : Z → bool;            (* the shell has exited *)
  exit_status : Z → option Z;
  resize_ok : Z → bool;
}.

Record TerminalServiceProxy : Type := mkProxy { proxy_service_id : string; proxy_persistent : bool }.

Definition new_proxy (id : string) (persistent : option bool) (w : Terminals) : TerminalServiceProxy :=
  mkProxy id (default (default false (is_persistent <$> get_service id w)) persistent).

(** ** The size of the terminal *)
Definition target_rows (action : SigwinchAction) (rows : Z) : Z :=
  match action with
  | DoTempResize => if 2 <? rows then saturating_sub rows 1 else saturating_add u16_max rows 1
  | DoRestore => rows
  end.

(** Whether the pseudo-terminal was resized, and its size. *)
Definition do_sigwinch_resize (rows cols : Z) (pty : option PtySize) (resizes : bool)
    (action : SigwinchAction) : bool * option PtySize :=
  if (rows =? 0) || (cols =? 0) then (false, pty)
  else
    match pty with
    | Some _ => if resizes then (true, Some (mkSize (target_rows action rows) cols)) else (false, pty)
    | None => (false, None)
    end.

(** The phase that [read_outputs] leaves before it acts, and the action. *)
Definition next_phase (p : SigwinchPhase) : SigwinchPhase * option SigwinchAction :=
  match p with
  | TempResize retries => if retries =? 0 then (Idle, None) else (TempResize (retries - 1), Some DoTempResize)
  | Restore retries => if retries =? 0 then (Idle, None) else (Restore (retries - 1), Some DoRestore)
  | Idle => (Idle, None)
  end.

Definition advance (action : SigwinchAction) (resized : bool) (p : SigwinchPhase) : SigwinchPhase :=
  if resized then
    match action with DoTempResize => Restore MAX_SIGWINCH_PHASE_ATTEMPTS | DoRestore => Idle end
  else p.

(** ** Operations *)
Section operations.
(** [compress::compress], and the order in which a map is visited. *)
Context (compress : bytes → bytes).
Context (iter : ∀ {A}, gmap Z A → list (Z * A)) (iter_services : ∀ {A}, gmap string A → list (string * A)).

Definition keys {A} (m : gmap Z A) : list Z := (iter _ m).*1.

(** [remove_service]: every session stops. *)
Definition remove_service (id : string) (w : Terminals) : Terminals :=
  match get_service id w with
  | Some svc =>
      mkTerminals (delete id (TERMINAL_SERVICES w))
        (TERMINAL_TASKS w ++ concat ((λ p, (stop p.2).2) <$> iter _ (sessions svc)))
  | None => w
  end.

Definition idle_too_long (now : Z) (svc : PersistentTerminalService) : bool :=
  let since := saturating_sub now (service_last_activity svc) in
  (negb (is_persistent svc) && (SERVICE_IDLE_TIMEOUT <? since)) ||
  (is_persistent svc && negb (has_active_terminals svc) && (SERVICE_IDLE_TIMEOUT * 2 <? since)).

Definition cleanup_inactive_services (now : Z) (w : Terminals) : Terminals :=
  let to_remove := (filter (λ p, idle_too_long now p.2 = true) (iter_services _ (TERMINAL_SERVICES w))).*1 in
  foldl (λ w id, remove_service id w) w to_remove.

Definition list_terminals (svc : PersistentTerminalService) : list (Z * string * Z * Z) :=
  (λ '(id, s), (id, title s, pid s, created_at s)) <$> iter _ (sessions svc).

Definition list_services (w : Terminals) : list (string * Z * Z * bool) :=
  (λ '(id, svc), (id, service_created_at svc, Z.of_nat (size (sessions svc)), is_persistent svc))
    <$> iter_services _ (TERMINAL_SERVICES w).

(** *** Opening *)

(** [service.sessions.keys().min()] *)
Definition lowest_id (m : gmap Z TerminalSession) : option Z :=
  match keys m with [] => None | k :: ks => Some (foldr Z.min k ks) end.

Definition remap (requested : Z) (svc : PersistentTerminalService) : PersistentTerminalService :=
  if negb (bool_decide (is_Some (sessions svc !! requested))) && needs_session_sync svc
     && has_active_terminals svc
  then
    match lowest_id (sessions svc) with
    | Some lowest =>
        match sessions svc !! lowest with
        | Some s => svc <| sessions := <[requested := s]> (delete lowest (sessions svc)) |>
        | None => svc
        end
    | None => svc
    end
  else svc.

(** What is shown again: the backlog that is taken from the channel first is kept too. *)
Definition reopen_session (s : TerminalSession) : TerminalSession * bool :=
  let backlog := take (Z.to_nat CHANNEL_BUFFER_SIZE) (default [] (output_rx s)) in
  let s := s <| output_rx := drop (Z.to_nat CHANNEL_BUFFER_SIZE) <$> output_rx s |>
             <| output_buffer := foldl (λ b d, TerminalOutput.append d b) (output_buffer s) backlog |> in
  let buffer := TerminalOutput.get_recent TerminalOutput.DEFAULT_RECONNECT_BUFFER_BYTES (output_buffer s) in
  let has_pending := negb (bool_decide (buffer = [])) in
  (s <| state := Active (if has_pending then Some buffer else None)
                   (TempResize MAX_SIGWINCH_PHASE_ATTEMPTS) |>, has_pending).

(** The session of a new terminal, once its shell runs. *)
Definition start_session (now : Z) (open : OpenTerminal) (process_id : option Z) : TerminalSession :=
  let r := as_u16 (open_rows open) in
  let c := as_u16 (open_cols open) in
  let process := default 0 process_id in
  (new_session now (open_terminal_id open) r c)
    <| pty_pair := Some (mkSize r c) |> <| pid := process |> <| child := Some process |>
    <| input_tx := true |> <| output_rx := Some [] |> <| reader_thread := Some false |>
    <| state := Active None Idle |>.

Definition handle_open (p : TerminalServiceProxy) (env : ActionEnv) (open : OpenTerminal)
    (svc : PersistentTerminalService)
    : PersistentTerminalService * result (option TerminalResponse) string :=
  let id := open_terminal_id open in
  let svc := remap id svc in
  match sessions svc !! id with
  | Some s =>
      let '(s, has_pending) := reopen_session s in
      let svc := svc <| sessions := <[id := s]> (sessions svc) |> in
      let others := if needs_session_sync svc && (1 <? Z.of_nat (size (sessions svc)))
                    then filter (λ k, k ≠ id) (keys (sessions svc)) else [] in
      (svc <| needs_session_sync := false |>,
       Ok (Some (RespOpened (mkOpened id true
         (if has_pending then "Reconnected to existing terminal with pending output"
          else "Reconnected to existing terminal")
         (pid s) (proxy_service_id p) others has_pending))))
  | None =>
      match spawn env with
      | SpawnErr e => (svc, Err e)
      | Spawned process_id =>
          let s := start_session (a_now env) open process_id in
          let others := if needs_session_sync svc && negb (bool_decide (sessions svc = ∅))
                        then keys (sessions svc) else [] in
          (svc <| needs_session_sync := false |> <| sessions := <[id := s]> (sessions svc) |>,
           Ok (Some (RespOpened (mkOpened id true "Terminal opened" (pid s) (service_id svc) others false))))
      end
  end.

(** *** The other messages *)
Definition handle_resize (env : ActionEnv) (resize : ResizeTerminal) (s : TerminalSession)
    : TerminalSession * result (option TerminalResponse) string :=
  let s := update_activity (a_now env) s in
  let s := s <| rows := as_u16 (resize_rows resize) |> <| cols := as_u16 (resize_cols resize) |> in
  match pty_pair s, resize_err env with
  | Some _, Some e => (s, Err e)
  | Some _, None =>
      (s <| pty_pair := Some (mkSize (as_u16 (resize_rows resize)) (as_u16 (resize_cols resize))) |>, Ok None)
  | None, _ => (s, Ok None)
  end.

Definition handle_data (env : ActionEnv) (data : TerminalData) (s : TerminalSession) : TerminalSession :=
  let s := update_activity (a_now env) s in
  if input_tx s then s <| input := input s ++ [data_data data] |> else s.

(** The session is dropped at the end, and stops. *)
Definition handle_close (env : ActionEnv) (id : Z) (svc : PersistentTerminalService)
    : PersistentTerminalService * list Z * result (option TerminalResponse) string :=
  match sessions svc !! id with
  | Some s =>
      let svc := svc <| sessions := delete id (sessions svc) |> in
      match child s with
      | Some c =>
          match kill_err env with
          | Some e => (svc, [], Err e)
          | None => (svc, [c], Ok (Some (RespClosed id (-1))))
          end
      | None => (svc, [], Ok (Some (RespClosed id 0)))
      end
  | None => (svc, [], Ok None)
  end.

Definition handle_action (p : TerminalServiceProxy) (env : ActionEnv) (action : TerminalAction) (w : Terminals)
    : Terminals * result (option TerminalResponse) string :=
  let id := proxy_service_id p in
  match get_service id w with
  | None => (w, Ok (Some (RespError ("Terminal service " +:+ id +:+ " not found"))))
  | Some svc =>
      let svc := svc <| service_last_activity := a_now env |> in
      match action with
      | ActionOpen open =>
          let '(svc, r) := handle_open p env open svc in (put_service id svc w, r)
      | ActionResize resize =>
          match sessions svc !! resize_terminal_id resize with
          | Some s =>
              let '(s, r) := handle_resize env resize s in
              (put_service id (svc <| sessions := <[resize_terminal_id resize := s]> (sessions svc) |>) w, r)
          | None => (put_service id svc w, Ok None)
          end
      | ActionData data =>
          match sessions svc !! data_terminal_id data with
          | Some s =>
              (put_service id
                 (svc <| sessions := <[data_terminal_id data := handle_data env data s]> (sessions svc) |>) w,
               Ok None)
          | None => (put_service id svc w, Ok None)
          end
      | ActionClose tid =>
          let '(svc, reaped, r) := handle_close env tid svc in
          (put_service id svc (w <| TERMINAL_TASKS := TERMINAL_TASKS w ++ reaped |>), r)
      | ActionNone => (put_service id svc w, Ok None)
      end
  end.

(** *** Polling *)
Definition create_terminal_data_response (id : Z) (data : bytes) : TerminalResponse :=
  if COMPRESS_THRESHOLD <? len data then
    let compressed := compress data in
    if len compressed <? len data then RespData (mkData id compressed true)
    else RespData (mkData id data false)
  else RespData (mkData id data false).

(** Whether the session has ended; it is said once. *)
Definition should_send_closed (env : PollEnv) (id : Z) (s : TerminalSession) : bool :=
  negb (closed_message_sent s) &&
  (bool_decide (reader_thread s = Some true) ||
   match child s with Some _ => try_wait env id | None => false end).

(** The channel is drained into the buffer, whatever the state. *)
Definition drain (s : TerminalSession) : TerminalSession * list bytes :=
  let received := default [] (output_rx s) in
  (s <| output_rx := (λ _, []) <$> output_rx s |>
     <| output_buffer := foldl (λ b d, TerminalOutput.append d b) (output_buffer s) received |>,
   received).

Definition sigwinch_step (env : PollEnv) (id : Z) (action : option SigwinchAction)
    (phase : SigwinchPhase) (s : TerminalSession) : TerminalSession :=
  match action with
  | Some action =>
      let '(resized, pty) := do_sigwinch_resize (rows s) (cols s) (pty_pair s) (resize_ok env id) action in
      s <| pty_pair := pty |> <| state := Active None (advance action resized phase) |>
  | None => s
  end.

(** The loop body of [read_outputs] for a session that is not busy. *)
Definition poll_session (env : PollEnv) (id : Z) (s : TerminalSession)
    : TerminalSession * list TerminalResponse * bool :=
  let closing := should_send_closed env id s in
  let s := if closing then s <| closed_message_sent := true |> else s in
  let '(s, received) := drain s in
  match state s with
  | Closed => (s, [], closing)
  | Active pending_buffer sigwinch =>
      let '(phase, action) := next_phase sigwinch in
      let s := s <| state := Active None phase |> in
      let replay := match pending_buffer with
                    | Some buffer => if bool_decide (buffer = []) then []
                                     else [create_terminal_data_response id buffer]
                    | None => []
                    end in
      let s := if bool_decide (received = []) then s else update_activity (p_now env) s in
      let s := sigwinch_step env id action phase s in
      (s, replay ++ (create_terminal_data_response id <$> received), closing)
  end.

Definition poll_one (env : PollEnv) (acc : PersistentTerminalService * list TerminalResponse * list Z) (id : Z)
    : PersistentTerminalService * list TerminalResponse * list Z :=
  let '(svc, responses, closed) := acc in
  if busy env id then acc
  else
    match sessions svc !! id with
    | Some s =>
        let '(s, out, closing) := poll_session env id s in
        (svc <| sessions := <[id := s]> (sessions svc) |>, responses ++ out,
         closed ++ (if closing then [id] else []))
    | None => acc
    end.

(** A terminal that has ended is removed: at once where the service is not persistent,
    and as its message has been sent where it is. *)
Definition close_one (p : TerminalServiceProxy) (env : PollEnv)
    (acc : PersistentTerminalService * list TerminalResponse * list Z) (id : Z)
    : PersistentTerminalService * list TerminalResponse * list Z :=
  let '(svc, responses, reaped) := acc in
  let exit_code s := match child s with Some _ => default 0 (as_i32 <$> exit_status env id) | None => 0 end in
  match sessions svc !! id with
  | Some s =>
      let removed := svc <| sessions := delete id (sessions svc) |> in
      let svc := if negb (proxy_persistent p) then removed
                 else if closed_message_sent s then removed
                 else svc <| sessions := <[id := s <| child := None |>]> (sessions svc) |> in
      (svc, responses ++ [RespClosed id (exit_code s)], reaped ++ option_list (child s))
  | None => (svc, responses ++ [RespClosed id 0], reaped)
  end.

Definition read_outputs (p : TerminalServiceProxy) (env : PollEnv) (w : Terminals)
    : Terminals * list TerminalResponse :=
  let id := proxy_service_id p in
  match get_service id w with
  | None => (w, [])
  | Some svc =>
      let '(svc, responses, closed) := foldl (poll_one env) (svc, [], []) (keys (sessions svc)) in
      let '(svc, responses, reaped) := foldl (close_one p env) (svc, responses, []) closed in
      (put_service id svc (w <| TERMINAL_TASKS := TERMINAL_TASKS w ++ reaped |>), responses)
  end.

Definition on_disconnect (p : TerminalServiceProxy) (w : Terminals) : Terminals :=
  if proxy_persistent p then w else remove_service (proxy_service_id p) w.

(** One turn of [run], and its end. *)
Definition run_turn (id : string) (env : PollEnv) (w : Terminals) : Terminals * list TerminalResponse :=
  read_outputs (new_proxy id None w) env w.

Definition run_end (id : string) (w : Terminals) : Terminals :=
  match get_service id w with
  | Some svc => if is_persistent svc then w else remove_service id w
  | None => w
  end.

(** *** The connection's side *)

(** [Connection::init_terminal_service] with a user token; [generated] is the id for a
    controller that names none. *)
Definition init_terminal_service (now : Z) (generated id : string) (persistent specified_user : bool)
    (w : Terminals) : Terminals * string :=
  let id := if bool_decide (id = "") then generated else id in
  ((get_or_create_service now id persistent specified_user w).1, id).

(** [Connection::handle_terminal_action]: the response that is sent. *)
Definition handle_terminal_action (id : string) (persistent : bool) (env : ActionEnv) (action : TerminalAction)
    (w : Terminals) : Terminals * option TerminalResponse :=
  match handle_action (new_proxy id (Some persistent) w) env action w with
  | (w, Ok r) => (w, r)
  | (w, Err e) => (w, Some (RespError ("Failed to handle action: " +:+ e)))
  end.
End operations.

End TerminalService.
