(* ===== verification/TerminalStream.v ===== *)
(** * One terminal over its life

    The operations of TerminalService.v on one session, in any order: what the controller
    is shown after it reconnects ([reconnection_has_no_gap]), and that the size of the
    terminal settles ([sigwinch_settles]). *)
From S2P Require Import Prelude RustStd RecordUpdate Utf8 TerminalOutput OutputBufferProofs TerminalService.

Module TerminalStream.
Export TerminalService.

(** ** What can happen to a session *)
Inductive SessionEvent : Type :=
| EvRead (r : ReadResult)
| EvPoll (env : PollEnv)
| EvResize (env : ActionEnv) (resize : ResizeTerminal)
| EvData (env : ActionEnv) (data : TerminalData)
| EvReopen
| EvLost.

Definition session_step (compress : bytes → bytes) (id : Z) (ev : SessionEvent) (s : TerminalSession)
    : TerminalSession * list TerminalResponse :=
  match ev with
  | EvRead r => (reader_turn r s, [])
  | EvPoll env => (poll_session compress env id s).1
  | EvResize env resize => ((handle_resize env resize s).1, [])
  | EvData env data => (handle_data env data s, [])
  | EvReopen => ((reopen_session s).1, [])
  | EvLost => (close_state s, [])
  end.

Definition channel (s : TerminalSession) : list bytes := default [] (output_rx s).

(** ** The channel and the buffer *)

(** A turn of the reader puts at most one chunk on the channel, and touches nothing that
    the other operations look at. *)
Lemma try_send_output_spec d s : ∃ out,
  channel (try_send_output d s).1 = channel s ++ out ∧ (out = [] ∨ out = [d] ∧ len (channel s) < CHANNEL_BUFFER_SIZE) ∧
  output_buffer (try_send_output d s).1 = output_buffer s ∧ state (try_send_output d s).1 = state s ∧
  (output_rx s = None ↔ output_rx (try_send_output d s).1 = None).
Proof.
  unfold try_send_output, channel. destruct (output_rx s) as [q|] eqn:E; cbn.
  - destruct (Z.ltb_spec (len q) CHANNEL_BUFFER_SIZE); cbn.
    + exists [d]. naive_solver.
    + exists []. rewrite E, app_nil_r. naive_solver.
  - exists []. rewrite E. naive_solver.
Qed.

Lemma reader_turn_spec r s : ∃ out,
  channel (reader_turn r s) = channel s ++ out ∧
  (out = [] ∨ len out = 1 ∧ len (channel s) < CHANNEL_BUFFER_SIZE) ∧
  output_buffer (reader_turn r s) = output_buffer s ∧ state (reader_turn r s) = state s.
Proof.
  assert (∀ s', channel s' = channel s → output_buffer s' = output_buffer s → state s' = state s →
    ∃ out, channel s' = channel s ++ out ∧ (out = [] ∨ len out = 1 ∧ len (channel s) < CHANNEL_BUFFER_SIZE) ∧
      output_buffer s' = output_buffer s ∧ state s' = state s) as Hsame.
  { intros s' -> ? ?. exists []. rewrite app_nil_r. auto. }
  assert (∀ d s0 s', channel s0 = channel s → output_buffer s0 = output_buffer s → state s0 = state s →
    channel s' = channel (try_send_output d s0).1 → output_buffer s' = output_buffer (try_send_output d s0).1 →
    state s' = state (try_send_output d s0).1 →
    ∃ out, channel s' = channel s ++ out ∧ (out = [] ∨ len out = 1 ∧ len (channel s) < CHANNEL_BUFFER_SIZE) ∧
      output_buffer s' = output_buffer s ∧ state s' = state s) as Hsend.
  { intros d s0 s' E1 E2 E3 -> -> ->. destruct (try_send_output_spec d s0) as (out & -> & Ho & -> & -> & _).
    exists out. rewrite E1, E2, E3 in *. split_and!; try done. destruct Ho as [->|[-> ?]]; auto. }
  unfold reader_turn. destruct (reader_thread s) as [[]|]; try by apply Hsame.
  destruct r as [[|b l]| |]; try by apply Hsame.
  - destruct (TerminalOutput.finish (remainder s)) as [[d|] rest]; [by apply (Hsend d (s <| remainder := rest |>))|by apply Hsame].
  - destruct (exiting s); [by apply Hsame|].
    destruct (TerminalOutput.push_chunk (b :: l) (remainder s)) as [[d|] rest]; [|by apply Hsame].
    destruct (try_send_output d _) as [s1 stopped] eqn:E.
    apply (Hsend d (s <| remainder := rest |>)); rewrite ?E; destruct stopped; done.
  - destruct (exiting s); by apply Hsame.
Qed.

Abbreviation appends := OutputBufferProofs.appends.
Abbreviation replay_bytes := TerminalOutput.DEFAULT_RECONNECT_BUFFER_BYTES.

Lemma appends_app hs ks : foldl (λ b d, TerminalOutput.append d b) (appends hs) ks = appends (hs ++ ks).
Proof. unfold appends, OutputBufferProofs.appends. by rewrite foldl_app. Qed.

(** ** What a poll does to a session *)
Definition poll_output (compress : bytes → bytes) (id : Z) (pending : option bytes) (q : list bytes)
    : list TerminalResponse :=
  match pending with
  | Some b => if bool_decide (b = []) then [] else [create_terminal_data_response compress id b]
  | None => []
  end ++ (create_terminal_data_response compress id <$> q).

Lemma sigwinch_step_spec env id action phase s :
  let s' := sigwinch_step env id action phase s in
  channel s' = channel s ∧ output_buffer s' = output_buffer s ∧
  child s' = child s ∧ closed_message_sent s' = closed_message_sent s ∧
  (state s = Active None phase → ∃ phase', state s' = Active None phase').
Proof.
  unfold sigwinch_step. destruct action as [a|]; [|eauto 10].
  destruct (do_sigwinch_resize _ _ _ _ _) as [ok pty]. cbn. eauto 10.
Qed.

(** It empties the channel into the buffer, and shows it if the session is open. *)
Lemma poll_session_spec compress env id s : ∃ s' out,
  poll_session compress env id s = (s', out, should_send_closed env id s) ∧
  channel s' = [] ∧
  output_buffer s' = foldl (λ b d, TerminalOutput.append d b) (output_buffer s) (channel s) ∧
  child s' = child s ∧ closed_message_sent s' = closed_message_sent s || should_send_closed env id s ∧
  match state s with
  | Closed => state s' = Closed ∧ out = []
  | Active pending _ => (∃ phase, state s' = Active None phase) ∧ out = poll_output compress id pending (channel s)
  end.
Proof.
  unfold poll_session. set (closing := should_send_closed env id s). set (s1 := if closing then _ else _).
  assert (output_rx s1 = output_rx s ∧ output_buffer s1 = output_buffer s ∧ state s1 = state s ∧
    child s1 = child s ∧ closed_message_sent s1 = closed_message_sent s || closing) as (E1 & E2 & E3 & E4 & E5).
  { subst s1. destruct closing; cbn; [by rewrite orb_true_r|by rewrite orb_false_r]. }
  unfold drain. cbn [state]. set (s2 := _ <| output_buffer := _ |>).
  assert (channel s2 = [] ∧ output_buffer s2 = foldl (λ b d, TerminalOutput.append d b) (output_buffer s) (channel s)
    ∧ state s2 = state s ∧ child s2 = child s ∧ closed_message_sent s2 = closed_message_sent s || closing)
    as (F1 & F2 & F3 & F4 & F5).
  { rewrite <- E3, <- E4, <- E5. subst s2. unfold channel in *. cbn. rewrite E1, E2. destruct (output_rx s); done. }
  rewrite F3. destruct (state s) as [|pending phase] eqn:Es; [eauto 15|].
  destruct (next_phase phase) as [phase' action]. set (s3 := if bool_decide _ then _ else _).
  assert (channel s3 = [] ∧ output_buffer s3 = output_buffer s2 ∧ state s3 = Active None phase' ∧
    child s3 = child s2 ∧ closed_message_sent s3 = closed_message_sent s2) as (G1 & G2 & G3 & G4 & G5)
    by (subst s3; by destruct (bool_decide _)).
  pose proof (sigwinch_step_spec env id action phase' s3) as H. cbv zeta in H. destruct H as (H1 & H2 & H3 & H4 & H5).
  do 2 eexists. split; [reflexivity|]. rewrite H1, H2, H3, H4, G1, G2, G4, G5, F2, F4, F5.
  split_and!; [done..|by apply H5|]. unfold poll_output, channel. by rewrite E1.
Qed.

(** ** What the controller has been shown *)
Section shown.
Context (compress decompress : bytes → bytes).

Definition shown_by (r : TerminalResponse) : bytes :=
  match r with
  | RespData d => if data_compressed d then decompress (data_data d) else data_data d
  | _ => []
  end.

(** A session, the chunks that were put on its channel, those of them that were in the
    buffer when it was opened last, and what was shown since. *)
Record Stream : Type := mkStream {
  session : TerminalSession;
  accepted : list bytes;
  before : list bytes;
  shown : bytes;
}.

Definition start (s : TerminalSession) : Stream := mkStream s [] [] [].

Definition stream_step (id : Z) (t : Stream) (ev : SessionEvent) : Stream :=
  let s := session t in
  let '(s', out) := session_step compress id ev s in
  match ev with
  | EvRead _ => mkStream s' (accepted t ++ drop (length (channel s)) (channel s')) (before t) (shown t)
  | EvReopen => mkStream s' (accepted t)
                  (take (length (accepted t) - length (channel s')) (accepted t)) []
  | _ => mkStream s' (accepted t) (before t) (shown t ++ mjoin (shown_by <$> out))
  end.

Definition stream (id : Z) (t : Stream) (es : list SessionEvent) : Stream := foldl (stream_step id) t es.

Hypothesis decompress_compress : ∀ d, decompress (compress d) = d.

Lemma shown_data id d : shown_by (create_terminal_data_response compress id d) = d.
Proof.
  unfold create_terminal_data_response. repeat case_match; cbn; try done.
Qed.

Lemma shown_chunks id ds : mjoin (shown_by <$> (create_terminal_data_response compress id <$> ds)) = mjoin ds.
Proof. induction ds as [|d ds IH]; [done|]. cbn. rewrite shown_data. f_equal. exact IH. Qed.

(** The chunks are in the buffer or on the channel; what was shown, with what is about
    to be shown again, is the replay and all that came to the buffer after it. *)
Definition replay (t : Stream) : bytes := TerminalOutput.get_recent replay_bytes (appends (before t)).

Definition shows (t : Stream) (rest : list bytes) : Prop :=
  match state (session t) with
  | Active None _ => shown t = replay t ++ mjoin rest
  | Active (Some b) _ => rest = [] ∧ shown t = [] ∧ b = replay t ∧ b ≠ []
  | Closed => True
  end.

Definition flows (t : Stream) : Prop := ∃ hs,
  accepted t = hs ++ channel (session t) ∧ output_buffer (session t) = appends hs ∧
  before t `prefix_of` hs ∧ shows t (drop (length (before t)) hs).

Lemma flows_same t s' :
  flows t → channel s' = channel (session t) → output_buffer s' = output_buffer (session t) →
  state s' = state (session t) → flows (mkStream s' (accepted t) (before t) (shown t)).
Proof.
  intros (hs & Ha & Hb & Hp & Hs) E1 E2 E3. exists hs. cbn. rewrite E1, E2. split_and!; try done.
  unfold shows in *. cbn. by rewrite E3.
Qed.

Lemma shown_poll id pending q :
  mjoin (shown_by <$> poll_output compress id pending q) = default [] pending ++ mjoin q.
Proof.
  unfold poll_output. rewrite fmap_app, join_app, shown_chunks. f_equal.
  destruct pending as [b|]; [|done]. case_bool_decide; subst; [done|]. cbn. by rewrite shown_data, app_nil_r.
Qed.

Lemma reopen_session_spec s : let '(s', pending) := reopen_session s in
  let k := Z.to_nat CHANNEL_BUFFER_SIZE in
  channel s' = drop k (channel s) ∧
  output_buffer s' = foldl (λ b d, TerminalOutput.append d b) (output_buffer s) (take k (channel s)) ∧
  let b := TerminalOutput.get_recent replay_bytes (output_buffer s') in
  state s' = Active (if bool_decide (b = []) then None else Some b) (TempResize MAX_SIGWINCH_PHASE_ATTEMPTS) ∧
  pending = negb (bool_decide (b = [])).
Proof.
  unfold reopen_session. cbn -[take drop Z.to_nat CHANNEL_BUFFER_SIZE]. unfold channel.
  cbn -[take drop Z.to_nat CHANNEL_BUFFER_SIZE].
  split_and!; [by destruct (output_rx s); rewrite ?drop_nil|done| |done]. by case_bool_decide.
Qed.

Lemma flows_read id t r : flows t → flows (stream_step id t (EvRead r)).
Proof.
  intros (hs & Ha & Hb & Hp & Hs). cbn. destruct (reader_turn_spec r (session t)) as (out & E1 & _ & E2 & E3).
  exists hs. cbn. rewrite E1, E2, drop_app_length, Ha, app_assoc. split_and!; try done.
  unfold shows in *. cbn. by rewrite E3.
Qed.

Lemma flows_poll id t env : flows t → flows (stream_step id t (EvPoll env)).
Proof.
  intros (hs & Ha & Hb & Hp & Hs). unfold stream_step, session_step.
  destruct (poll_session_spec compress env id (session t)) as (s' & out & -> & E1 & E2 & _ & _ & E3). cbn.
  exists (hs ++ channel (session t)). cbn. rewrite E1, app_nil_r, E2, Hb, appends_app. split_and!; [done..| |].
  { destruct Hp as [x ->]. exists (x ++ channel (session t)). by rewrite app_assoc. }
  assert (length (before t) ≤ length hs)%nat by (by apply prefix_length).
  unfold shows in *. cbn. destruct (state (session t)) as [|pending phase]; [by destruct E3 as [-> _]|].
  destruct E3 as [[phase' ->] ->]. rewrite shown_poll, drop_app_le, join_app by done. unfold replay in *. cbn.
  destruct pending as [b|]; cbn.
  - destruct Hs as (-> & -> & -> & _). done.
  - by rewrite Hs, app_assoc.
Qed.

Lemma flows_reopen id t : flows t → flows (stream_step id t EvReopen).
Proof.
  intros (hs & Ha & Hb & Hp & Hs). unfold stream_step, session_step.
  pose proof (reopen_session_spec (session t)) as H. destruct (reopen_session (session t)) as [s' pending].
  cbv zeta in H. set (k := Z.to_nat CHANNEL_BUFFER_SIZE) in *. destruct H as (E1 & E2 & E3 & _). cbn [fst].
  set (hs' := hs ++ take k (channel (session t))).
  assert (accepted t = hs' ++ channel s') as Ea by (subst hs'; by rewrite E1, <- app_assoc, take_drop).
  assert (take (length (accepted t) - length (channel s')) (accepted t) = hs') as Eh.
  { rewrite Ea, length_app. replace (_ + _ - _)%nat with (length hs') by lia. by rewrite take_app_length. }
  exists hs'. cbn. rewrite Eh. split_and!; [done|by rewrite E2, Hb, appends_app|done|].
  rewrite E2, Hb, appends_app in E3. fold hs' in E3. rewrite drop_all.
  unfold shows, replay. cbn [session before shown]. rewrite E3. case_bool_decide as Eb; [by rewrite Eb|done].
Qed.

Lemma flows_step id t ev : flows t → flows (stream_step id t ev).
Proof.
  intros Hf. destruct ev as [r|env|env rs|env d| |]; [by apply flows_read|by apply flows_poll| | |by apply flows_reopen|].
  - cbn. rewrite app_nil_r. apply flows_same; [done|..]; unfold handle_resize; cbn;
      destruct (pty_pair _), (resize_err env); done.
  - cbn. rewrite app_nil_r. apply flows_same; [done|..]; unfold handle_data; cbn; by destruct (input_tx _).
  - cbn. rewrite app_nil_r. destruct Hf as (hs & Ha & Hb & Hp & Hs). exists hs. cbn. split_and!; try done.
Qed.

Lemma flows_stream id t es : flows t → flows (stream id t es).
Proof.
  unfold stream. revert t. induction es as [|ev es IH]; intros t Hf; [done|]. by apply IH, flows_step.
Qed.

Lemma flows_start now open process : flows (start (start_session now open process)).
Proof. exists []. cbn. split_and!; try done. Qed.
End shown.

Lemma text_mjoin ls : Forall Utf8.text ls → Utf8.text (mjoin ls).
Proof. induction 1; cbn; [apply Utf8.text_nil|by apply Utf8.text_app]. Qed.


(** ** The size of the terminal *)
Lemma as_u16_range z : 0 ≤ as_u16 z ≤ u16_max.
Proof. unfold as_u16, u16_max. pose proof (Z.mod_pos_bound z (2 ^ 16)). lia. Qed.

Section size.
Context (compress : bytes → bytes) (id : Z).

Definition steps (s : TerminalSession) (es : list SessionEvent) : TerminalSession :=
  foldl (λ s ev, (session_step compress id ev s).1) s es.

Lemma steps_app s es fs : steps s (es ++ fs) = steps (steps s es) fs.
Proof. apply foldl_app. Qed.

(** Neither is the connection lost nor the terminal opened again. *)
Definition goes_on (ev : SessionEvent) : bool :=
  match ev with EvReopen | EvLost => false | _ => true end.
Definition is_poll (ev : SessionEvent) : bool := match ev with EvPoll _ => true | _ => false end.
Definition polls (es : list SessionEvent) : nat := length (filter (λ ev, is_poll ev = true) es).

(** The operating system and the controller do as they should. *)
Definition resizes (ev : SessionEvent) : Prop :=
  match ev with
  | EvPoll env => resize_ok env id = true
  | EvResize env rs => resize_err env = None ∧ as_u16 (resize_rows rs) ≠ 0 ∧ as_u16 (resize_cols rs) ≠ 0
  | _ => True
  end.

Definition sized (s : TerminalSession) : Prop :=
  1 ≤ rows s ≤ u16_max ∧ 1 ≤ cols s ≤ u16_max ∧ is_Some (pty_pair s).
Definition fits (s : TerminalSession) : Prop := pty_pair s = Some (mkSize (rows s) (cols s)).

Lemma poll_size env s pending ph : state s = Active pending ph →
  let s' := (session_step compress id (EvPoll env) s).1 in
  rows s' = rows s ∧ cols s' = cols s ∧
  match next_phase ph with
  | (ph', None) => pty_pair s' = pty_pair s ∧ state s' = Active None ph'
  | (ph', Some a) =>
      let '(ok, pty) := do_sigwinch_resize (rows s) (cols s) (pty_pair s) (resize_ok env id) a in
      pty_pair s' = pty ∧ state s' = Active None (advance a ok ph')
  end.
Proof.
  intros Hs. cbn [session_step]. unfold poll_session.
  set (s1 := if should_send_closed env id s then _ else _).
  assert (state s1 = state s ∧ rows s1 = rows s ∧ cols s1 = cols s ∧ pty_pair s1 = pty_pair s) as (E1 & E2 & E3 & E4)
    by (subst s1; by destruct (should_send_closed env id s)).
  unfold drain. cbn [state]. set (s2 := _ <| output_buffer := _ |>).
  change (state s2) with (state s1). change (rows s2) with (rows s1).
  rewrite E1, Hs. destruct (next_phase ph) as [ph' action]. cbn [fst].
  set (s3 := if bool_decide _ then _ else _).
  assert (state s3 = Active None ph' ∧ rows s3 = rows s ∧ cols s3 = cols s ∧ pty_pair s3 = pty_pair s) as (F1 & F2 & F3 & F4)
    by (rewrite <- E2, <- E3, <- E4; subst s3; by destruct (bool_decide _)).
  unfold sigwinch_step. destruct action as [a|]; [|by rewrite F1, F2, F3, F4].
  rewrite F2, F3, F4. destruct (do_sigwinch_resize _ _ _ _ _) as [ok pty]. cbn. auto.
Qed.

(** Every other event leaves the phase alone. *)
Lemma other_size ev s : goes_on ev = true → is_poll ev = false →
  let s' := (session_step compress id ev s).1 in
  state s' = state s ∧
  (resizes ev → sized s → sized s' ∧ (fits s → fits s')).
Proof.
  unfold sized, fits. destruct ev as [r|env|env rs|env d| |]; try done; intros _ _; cbn.
  - destruct (reader_turn_spec r s) as (_ & _ & _ & _ & ->). split; [done|].
    assert (∀ d s0, rows (try_send_output d s0).1 = rows s0 ∧ cols (try_send_output d s0).1 = cols s0 ∧
      pty_pair (try_send_output d s0).1 = pty_pair s0) as Ht
      by (intros d s0; unfold try_send_output; repeat case_match; done).
    assert (rows (reader_turn r s) = rows s ∧ cols (reader_turn r s) = cols s ∧ pty_pair (reader_turn r s) = pty_pair s)
      as (-> & -> & ->); [|auto].
    unfold reader_turn. repeat (case_match; try done);
      repeat match goal with
      | H : try_send_output ?d ?s0 = (?t, _) |- _ =>
          let X := fresh in pose proof (Ht d s0) as X; rewrite H in X; clear H; cbn in X; cbn
      end; auto.
    all: match goal with |- context [try_send_output ?d ?x] => exact (Ht d x) end.
  - unfold handle_resize. split; [cbn; repeat case_match; done|].
    intros (He & Hr & Hc) (_ & _ & [q Hq]). cbn. rewrite He, Hq. cbn.
    pose proof (as_u16_range (resize_rows rs)). pose proof (as_u16_range (resize_cols rs)).
    split; [|done]. split; [lia|]. split; [lia|eauto].
  - unfold handle_data. cbn. destruct (input_tx s); cbn; auto.
Qed.

(** How many polls a phase can last. *)
Definition lasts (ph : SigwinchPhase) : Z :=
  match ph with Idle => 0 | Restore r => r + 1 | TempResize r => r + 1 + MAX_SIGWINCH_PHASE_ATTEMPTS end.
Definition phase_ok (ph : SigwinchPhase) : Prop :=
  match ph with Idle => True | Restore r | TempResize r => 0 ≤ r end.

Lemma next_phase_lasts ph ph' a ok : phase_ok ph → next_phase ph = (ph', a) →
  let ph2 := match a with Some a => advance a ok ph' | None => ph' end in
  phase_ok ph2 ∧ lasts ph2 ≤ Z.max 0 (lasts ph - 1).
Proof.
  unfold next_phase, advance, MAX_SIGWINCH_PHASE_ATTEMPTS, lasts, phase_ok.
  destruct ph as [|r|r]; [intros _ [= <- <-]; done|..]; intros Hr; destruct (Z.eqb_spec r 0);
    intros [= <- <-]; destruct ok; cbn; unfold MAX_SIGWINCH_PHASE_ATTEMPTS; lia.
Qed.

Lemma poll_phase env s pending ph : state s = Active pending ph → phase_ok ph →
  ∃ ph', state (session_step compress id (EvPoll env) s).1 = Active None ph' ∧ phase_ok ph' ∧
    lasts ph' ≤ Z.max 0 (lasts ph - 1).
Proof.
  intros Hs Hp. destruct (poll_size env s pending ph Hs) as (_ & _ & H).
  destruct (next_phase ph) as [ph' [a|]] eqn:E.
  - destruct (do_sigwinch_resize _ _ _ _ _) as [ok pty]. destruct H as [_ ->].
    eexists. split; [reflexivity|]. apply (next_phase_lasts ph ph' (Some a) ok Hp E).
  - destruct H as [_ ->]. eexists. split; [reflexivity|]. apply (next_phase_lasts ph ph' None true Hp E).
Qed.

Lemma lasts_nonneg ph : phase_ok ph → 0 ≤ lasts ph.
Proof. unfold phase_ok, lasts, MAX_SIGWINCH_PHASE_ATTEMPTS. destruct ph; lia. Qed.

Lemma steps_phase es : ∀ s pending ph, Forall (λ ev, goes_on ev = true) es →
  state s = Active pending ph → phase_ok ph →
  ∃ pending' ph', state (steps s es) = Active pending' ph' ∧ phase_ok ph' ∧
    lasts ph' ≤ Z.max 0 (lasts ph - Z.of_nat (polls es)).
Proof.
  induction es as [|ev es IH]; intros s pending ph Hg Hs Hp.
  { exists pending, ph. cbn. pose proof (lasts_nonneg ph Hp). split_and!; [done..|lia]. }
  inversion Hg as [|? ? Hev Hes]; subst. cbn [steps foldl]. unfold polls. rewrite filter_cons.
  destruct (is_poll ev) eqn:Ei.
  - destruct ev; try done. destruct (poll_phase env s pending ph Hs Hp) as (ph1 & E1 & Hp1 & L1).
    destruct (IH _ _ _ Hes E1 Hp1) as (pending' & ph' & E2 & Hp' & L2).
    exists pending', ph'. split_and!; [done..|]. rewrite decide_True by done. cbn [length].
    unfold polls in L2. lia.
  - destruct (other_size ev s Hev Ei) as [E1 _]. rewrite Hs in E1. rewrite decide_False by done.
    apply (IH _ _ _ Hes E1 Hp).
Qed.

Lemma quiet_steps es : ∀ s, Forall (λ ev, goes_on ev = true) es → polls es = 0%nat → Forall resizes es → sized s →
  state (steps s es) = state s ∧ sized (steps s es) ∧ (fits s → fits (steps s es)).
Proof.
  induction es as [|ev es IH]; intros s Hg Hp Hr Hs; [done|].
  inversion Hg as [|? ? Hev Hes]; subst. inversion Hr as [|? ? Hrev Hres]; subst.
  unfold polls in Hp. rewrite filter_cons in Hp. case_decide as Ei; [done|]. apply not_true_is_false in Ei.
  destruct (other_size ev s Hev Ei) as [E1 H1]. destruct (H1 Hrev Hs) as [Hs1 Hf1].
  cbn [steps foldl]. destruct (IH _ Hes Hp Hres Hs1) as (E2 & Hs2 & Hf2). fold (steps (session_step compress id ev s).1 es).
  rewrite E2, E1. auto.
Qed.

(** A poll that can resize does what the phase is for. *)
Lemma poll_resizes env s pending ph : resize_ok env id = true → sized s → state s = Active pending ph →
  let s' := (session_step compress id (EvPoll env) s).1 in
  sized s' ∧
  match ph with
  | Idle => state s' = Active None Idle ∧ (fits s → fits s')
  | Restore r => 0 < r → state s' = Active None Idle ∧ fits s'
  | TempResize r => 0 < r → state s' = Active None (Restore MAX_SIGWINCH_PHASE_ATTEMPTS) ∧
      ∃ t, pty_pair s' = Some (mkSize t (cols s')) ∧ t ≠ rows s' ∧ 1 ≤ t ≤ u16_max
  end.
Proof.
  intros Hok (Hr & Hc & [q Hq]) Hs. destruct (poll_size env s pending ph Hs) as (E1 & E2 & H).
  cbv zeta. set (s' := (session_step compress id (EvPoll env) s).1) in *. unfold sized, fits. rewrite E1, E2.
  assert (∀ a, do_sigwinch_resize (rows s) (cols s) (pty_pair s) (resize_ok env id) a =
    (true, Some (mkSize (target_rows a (rows s)) (cols s)))) as Hdo.
  { intros a. unfold do_sigwinch_resize. rewrite Hok, Hq.
    destruct (Z.eqb_spec (rows s) 0); [lia|]. destruct (Z.eqb_spec (cols s) 0); [lia|]. done. }
  unfold next_phase in H. destruct ph as [|r|r].
  - destruct H as [-> ->]. rewrite Hq. eauto.
  - destruct (Z.eqb_spec r 0) as [->|]; [destruct H as [-> ->]; rewrite Hq; split; [eauto|lia]|].
    rewrite Hdo in H. destruct H as [-> ->]. split; [eauto|]. intros _. split; [done|].
    eexists. split; [reflexivity|]. unfold target_rows, saturating_sub, saturating_add, u16_max in *.
    destruct (Z.ltb_spec 2 (rows s)); lia.
  - destruct (Z.eqb_spec r 0) as [->|]; [destruct H as [-> ->]; rewrite Hq; split; [eauto|lia]|].
    rewrite Hdo in H. destruct H as [-> ->]. split; [eauto|]. done.
Qed.

Lemma idle_steps es : ∀ s, Forall (λ ev, goes_on ev = true) es → Forall resizes es →
  sized s → state s = Active None Idle → fits s →
  state (steps s es) = Active None Idle ∧ fits (steps s es).
Proof.
  induction es as [|ev es IH]; intros s Hg Hr Hs Hst Hf; [done|].
  inversion Hg as [|? ? Hev Hes]; subst. inversion Hr as [|? ? Hrev Hres]; subst.
  cbn [steps foldl]. fold (steps (session_step compress id ev s).1 es). destruct (is_poll ev) eqn:Ei.
  - destruct ev as [|env| | | |]; try done. destruct (poll_resizes env s None Idle Hrev Hs Hst) as (Hs1 & Hst1 & Hf1).
    apply IH; auto.
  - destruct (other_size ev s Hev Ei) as [E1 H1]. destruct (H1 Hrev Hs) as [Hs1 Hf1].
    apply IH; auto. by rewrite E1.
Qed.
End size.

(** (C30) After a terminal was opened again, the trick that makes its program redraw ends:
    within seven polls no resize is due any more, whatever comes in between and however
    often resizing fails.  Where resizing works the first poll gives the terminal a size
    that differs from the session's, by a row, and is a size a terminal can have, so that
    the program sees a change; and from the second poll on it has the session's size,
    which follows the controller's, and keeps it. *)
Theorem sigwinch_settles compress id s es :
  let s0 := (reopen_session s).1 in
  Forall (λ ev, goes_on ev = true) es →
  ((7 ≤ polls es)%nat → ∃ pending, state (steps compress id s0 es) = Active pending Idle) ∧
  (∀ es1 env1 es2 env2 es3, es = es1 ++ EvPoll env1 :: es2 ++ EvPoll env2 :: es3 →
     polls es1 = 0%nat → polls es2 = 0%nat → Forall (resizes id) es → sized s →
     (let s1 := steps compress id s0 (es1 ++ [EvPoll env1]) in
      ∃ t, pty_pair s1 = Some (mkSize t (cols s1)) ∧ t ≠ rows s1 ∧ 1 ≤ t ≤ u16_max) ∧
     (let s3 := steps compress id s0 es in
      state s3 = Active None Idle ∧ pty_pair s3 = Some (mkSize (rows s3) (cols s3)))).
Proof.
  intros s0 Hg. assert (∃ p, state s0 = Active p (TempResize MAX_SIGWINCH_PHASE_ATTEMPTS)) as [p Hst].
  { pose proof (reopen_session_spec s) as H. unfold s0. destruct (reopen_session s) as [s' b].
    cbv zeta in H. cbn [fst]. destruct H as (_ & _ & -> & _). eauto. }
  split.
  - intros H7. destruct (steps_phase compress id es s0 _ _ Hg Hst ltac:(done)) as (p' & ph' & E & Hok & Hl).
    exists p'. rewrite E. change (lasts (TempResize _)) with 7 in Hl.
    destruct ph'; [done|..]; unfold lasts, phase_ok, MAX_SIGWINCH_PHASE_ATTEMPTS in *; lia.
  - intros es1 env1 es2 env2 es3 -> H1 H2 Hr Hs.
    assert (sized s0) as Hs0 by exact Hs.
    apply Forall_app in Hg as [Hg1 Hg]. apply Forall_cons in Hg as [_ Hg]. apply Forall_app in Hg as [Hg2 Hg].
    apply Forall_cons in Hg as [_ Hg3].
    apply Forall_app in Hr as [Hr1 Hr]. apply Forall_cons in Hr as [Hp1 Hr]. apply Forall_app in Hr as [Hr2 Hr].
    apply Forall_cons in Hr as [Hp2 Hr3].
    destruct (quiet_steps compress id es1 s0 Hg1 H1 Hr1 Hs0) as (E1 & Z1 & _). rewrite Hst in E1.
    rewrite !steps_app. cbn [steps foldl]. set (s1 := steps compress id s0 es1) in *.
    destruct (poll_resizes compress id env1 s1 _ _ Hp1 Z1 E1) as (Z2 & H). destruct H as [E2 Ht]; [done|].
    split; [exact Ht|]. fold (steps compress id (session_step compress id (EvPoll env1) s1).1 (es2 ++ EvPoll env2 :: es3)).
    set (s2 := (session_step compress id (EvPoll env1) s1).1) in *. rewrite steps_app.
    destruct (quiet_steps compress id es2 s2 Hg2 H2 Hr2 Z2) as (E3 & Z3 & _). rewrite E2 in E3.
    set (s3 := steps compress id s2 es2) in *.
    destruct (poll_resizes compress id env2 s3 _ _ Hp2 Z3 E3) as (Z4 & H). destruct H as [E4 F4]; [done|].
    cbn [steps foldl]. fold (steps compress id (session_step compress id (EvPoll env2) s3).1 es3).
    by apply idle_steps.
Qed.

End TerminalStream.
