(* ===== verification/TerminalServiceProofs.v ===== *)
(** * The terminals of a controlled side

    The registry of services stays bounded whatever is done with it
    ([terminals_stay_bounded]); opening a terminal after a reconnection finds the one that
    survived and names the others ([reopening_keeps_terminals]); and a poll shows each
    terminal's output once and its end once ([poll_shows_output_then_ends]). *)
From S2P Require Import Prelude RustStd RecordUpdate Utf8 TerminalOutput OutputBufferProofs TerminalService TerminalStream.

Module TerminalServiceProofs.
Export TerminalService.
Abbreviation channel := TerminalStream.channel.
Abbreviation appends := OutputBufferProofs.appends.
#[local] Arguments poll_session : simpl never.
#[local] Arguments should_send_closed : simpl never.

(** ** What can be done with the registry *)
Inductive Op : Type :=
| OpCreate (now : Z) (id : string) (persistent specified_user : bool)
| OpAction (p : TerminalServiceProxy) (env : ActionEnv) (action : TerminalAction)
| OpPoll (p : TerminalServiceProxy) (env : PollEnv)
| OpRead (id : string) (tid : Z) (r : ReadResult)
| OpPersist (id : string) (persistent : bool)
| OpDisconnect (p : TerminalServiceProxy)
| OpEnd (id : string)
| OpCleanup (now : Z).

Definition empty : Terminals := mkTerminals ∅ [].

(** A terminal is bounded. *)
Definition session_ok (s : TerminalSession) : Prop :=
  len (channel s) ≤ CHANNEL_BUFFER_SIZE ∧ ∃ chunks, output_buffer s = appends chunks.

Definition service_ok (svc : PersistentTerminalService) : Prop :=
  map_Forall (λ _, session_ok) (sessions svc).

Definition terminals_ok (w : Terminals) : Prop :=
  Z.of_nat (size (TERMINAL_SERVICES w)) ≤ MAX_SERVICES ∧
  map_Forall (λ _, service_ok) (TERMINAL_SERVICES w).

Lemma session_ok_same s s' :
  session_ok s → channel s' = channel s → output_buffer s' = output_buffer s → session_ok s'.
Proof. unfold session_ok. by intros ? -> ->. Qed.

Lemma session_ok_read r s : session_ok s → session_ok (reader_turn r s).
Proof.
  intros [Hl Hb]. destruct (TerminalStream.reader_turn_spec r s) as (out & E1 & Ho & E2 & _).
  unfold session_ok. rewrite E1, E2, len_app. split; [|done].
  destruct Ho as [->|[E Hlt]]; [rewrite len_nil|]; lia.
Qed.

Lemma session_ok_poll compress env id s : session_ok s → session_ok (poll_session compress env id s).1.1.
Proof.
  intros [Hl [chunks Hb]].
  destruct (TerminalStream.poll_session_spec compress env id s) as (s' & out & -> & E1 & E2 & _). cbn.
  unfold session_ok. rewrite E1, E2, Hb, TerminalStream.appends_app. split; [done|eauto].
Qed.

Lemma session_ok_reopen s : session_ok s → session_ok (reopen_session s).1.
Proof.
  intros [Hl [chunks Hb]]. pose proof (TerminalStream.reopen_session_spec s) as H.
  destruct (reopen_session s) as [s' b]. cbv zeta in H. destruct H as (E1 & E2 & _). cbn [fst].
  unfold session_ok. rewrite E1, E2, Hb, TerminalStream.appends_app. split; [|eauto].
  unfold len in *. rewrite length_drop. lia.
Qed.

Lemma session_ok_start now open process : session_ok (start_session now open process).
Proof. split; [done|]. by exists []. Qed.

Section registry.
Context (compress : bytes → bytes).
Context (iter : ∀ {A}, gmap Z A → list (Z * A)) (iter_services : ∀ {A}, gmap string A → list (string * A)).

Definition op_step (w : Terminals) (op : Op) : Terminals :=
  match op with
  | OpCreate now id persistent user => (get_or_create_service now id persistent user w).1
  | OpAction p env action => (handle_action (@iter) p env action w).1
  | OpPoll p env => (read_outputs compress (@iter) p env w).1
  | OpRead id tid r =>
      match get_service id w with
      | Some svc => put_service id (svc <| sessions := alter (reader_turn r) tid (sessions svc) |>) w
      | None => w
      end
  | OpPersist id persistent => (set_persistent id persistent w).1
  | OpDisconnect p => on_disconnect (@iter) p w
  | OpEnd id => run_end (@iter) id w
  | OpCleanup now => cleanup_inactive_services (@iter) (@iter_services) now w
  end.

Definition ops (w : Terminals) (l : list Op) : Terminals := foldl op_step w l.

Lemma service_ok_insert svc tid s :
  service_ok svc → session_ok s → service_ok (svc <| sessions := <[tid := s]> (sessions svc) |>).
Proof. intros Hs Ho. by apply map_Forall_insert_2. Qed.

Lemma put_ok id svc w : terminals_ok w → is_Some (get_service id w) → service_ok svc →
  terminals_ok (put_service id svc w).
Proof.
  intros [Hl Hw] Hid Hs. unfold terminals_ok, put_service, get_service in *. cbn. split.
  - destruct Hid as [svc0 Hid]. by rewrite map_size_insert_Some by eauto.
  - by apply map_Forall_insert_2.
Qed.

Lemma get_ok id svc w : terminals_ok w → get_service id w = Some svc → service_ok svc.
Proof. intros [_ Hw] E. by apply (Hw id). Qed.

Lemma tasks_ok w l : terminals_ok w → terminals_ok (w <| TERMINAL_TASKS := l |>).
Proof. done. Qed.

Lemma remove_ok id w : terminals_ok w → terminals_ok (remove_service (@iter) id w).
Proof.
  intros [Hl Hw]. unfold remove_service. destruct (get_service id w) as [svc|] eqn:E; [|by split].
  split; cbn; [|by apply map_Forall_delete].
  unfold get_service in E. rewrite map_size_delete_Some by eauto. lia.
Qed.

Lemma create_ok now id persistent user w :
  terminals_ok w → terminals_ok (get_or_create_service now id persistent user w).1.
Proof.
  intros [Hl Hw]. unfold get_or_create_service. destruct (_ && _) eqn:E; [done|]. cbn.
  assert (service_ok (reset_status persistent (default (new_service now id persistent user) (get_service id w)))) as Hs.
  { unfold service_ok, reset_status. cbn. apply map_Forall_fmap. intros tid s. cbn.
    destruct (get_service id w) as [svc|] eqn:Eg; cbn; [|by intros []%lookup_empty_Some].
    intros Ht. apply (session_ok_same s); [by apply (Hw id svc Eg tid s Ht)|done..]. }
  split; [|by apply map_Forall_insert_2]. unfold put_service, get_service in *. cbn.
  destruct (TERMINAL_SERVICES w !! id) as [svc|] eqn:Eg.
  - by rewrite map_size_insert_Some by eauto.
  - rewrite map_size_insert_None by done. rewrite bool_decide_eq_false_2 in E by by intros [].
    cbn in E. apply Z.leb_gt in E. lia.
Qed.

Lemma remap_ok id svc : service_ok svc → service_ok (remap (@iter) id svc).
Proof.
  intros Hs. unfold remap. repeat case_match; try done.
  unfold service_ok. cbn. apply map_Forall_insert_2; [by eapply Hs|by apply map_Forall_delete].
Qed.

Lemma handle_open_ok p env open svc : service_ok svc → service_ok (handle_open (@iter) p env open svc).1.
Proof.
  intros Hs. unfold handle_open. apply (remap_ok (open_terminal_id open)) in Hs.
  set (svc1 := remap _ _ _) in *. destruct (sessions svc1 !! open_terminal_id open) as [s|] eqn:E.
  - pose proof (session_ok_reopen s (Hs _ _ E)) as Hr. destruct (reopen_session s) as [s' b]. cbn.
    by apply (service_ok_insert svc1).
  - destruct (spawn env) as [e|pid]; [done|]. cbn. apply (service_ok_insert svc1); [done|]. apply session_ok_start.
Qed.

Lemma action_ok p env action w : terminals_ok w → terminals_ok (handle_action (@iter) p env action w).1.
Proof.
  intros Hw. unfold handle_action. destruct (get_service _ w) as [svc|] eqn:E; [|done].
  pose proof (get_ok _ _ _ Hw E) as Hs. apply (mk_is_Some (get_service _ w)) in E.
  set (svc1 := svc <| service_last_activity := a_now env |>). assert (service_ok svc1) as Hs1 by done.
  destruct action as [open|rs|d|tid|]; [| | | |by apply put_ok].
  - pose proof (handle_open_ok p env open svc1 Hs1) as Ho. destruct (handle_open _ p env open svc1). by apply put_ok.
  - destruct (sessions svc1 !! resize_terminal_id rs) as [s|] eqn:El; [|by apply put_ok].
    destruct (handle_resize env rs s) as [s' r] eqn:Er. apply put_ok; [done..|]. apply service_ok_insert; [done|].
    apply (session_ok_same s); [by apply (Hs1 _ _ El)|..]; unfold handle_resize in Er;
      cbn in Er; destruct (pty_pair s), (resize_err env); by injection Er as <- _.
  - destruct (sessions svc1 !! data_terminal_id d) as [s|] eqn:El; [|by apply put_ok].
    apply put_ok; [done..|]. apply service_ok_insert; [done|].
    apply (session_ok_same s); [by apply (Hs1 _ _ El)|..]; unfold handle_data; cbn; by destruct (input_tx s).
  - destruct (handle_close env tid svc1) as [[svc2 reaped] r] eqn:Ec. cbn. apply tasks_ok, put_ok; [done..|].
    unfold handle_close in Ec. repeat case_match; simplify_eq; try done; cbn; by apply map_Forall_delete.
Qed.

Lemma poll_one_ok env acc id : service_ok acc.1.1 → service_ok (poll_one compress env acc id).1.1.
Proof.
  destruct acc as [[svc rs] cl]. intros Hs. unfold poll_one. destruct (busy env id); [done|].
  destruct (sessions svc !! id) as [s|] eqn:E; [|done].
  pose proof (session_ok_poll compress env id s (Hs _ _ E)) as Hp.
  destruct (poll_session compress env id s) as [[s' out] closing]. by apply service_ok_insert.
Qed.

Lemma close_one_ok p env acc id : service_ok acc.1.1 → service_ok (close_one p env acc id).1.1.
Proof.
  destruct acc as [[svc rs] cl]. intros Hs. unfold close_one.
  destruct (sessions svc !! id) as [s|] eqn:E; [|done]. cbn [fst].
  assert (service_ok (svc <| sessions := delete id (sessions svc) |>)) as Hd by (by apply map_Forall_delete).
  repeat case_match; try done. apply service_ok_insert; [done|].
  by apply (session_ok_same s); [apply (Hs _ _ E)|..].
Qed.

Lemma foldl_ok {A B} (P : A → Prop) (f : A → B → A) (l : list B) a :
  (∀ a b, P a → P (f a b)) → P a → P (foldl f a l).
Proof. intros Hf. revert a. induction l; cbn; auto. Qed.

Lemma poll_ok p env w : terminals_ok w → terminals_ok (read_outputs compress (@iter) p env w).1.
Proof.
  intros Hw. unfold read_outputs. destruct (get_service _ w) as [svc|] eqn:E; [|done].
  pose proof (get_ok _ _ _ Hw E) as Hs. apply (mk_is_Some (get_service _ w)) in E.
  pose proof (foldl_ok (λ acc, service_ok acc.1.1) (poll_one compress env) (keys (@iter) (sessions svc)) (svc, [], [])
    (poll_one_ok env) Hs) as H1.
  destruct (foldl (poll_one compress env) _ _) as [[svc1 rs1] cl1].
  pose proof (foldl_ok (λ acc, service_ok acc.1.1) (close_one p env) cl1 (svc1, rs1, []) (close_one_ok p env) H1) as H2.
  destruct (foldl (close_one p env) _ _) as [[svc2 rs2] cl2]. by apply put_ok.
Qed.

Lemma op_ok w op : terminals_ok w → terminals_ok (op_step w op).
Proof.
  intros Hw. destruct op; cbn.
  - by apply create_ok.
  - by apply action_ok.
  - by apply poll_ok.
  - destruct (get_service id w) as [svc|] eqn:E; [|done]. apply put_ok; [done|by eexists|].
    intros t s Ht. cbn in Ht. pose proof (get_ok _ _ _ Hw E) as Hs.
    apply lookup_alter_Some in Ht as [(<- & s0 & Ht & ->)|[_ Ht]]; [|by apply (Hs _ _ Ht)].
    apply session_ok_read, (Hs _ _ Ht).
  - unfold set_persistent. destruct (get_service id w) as [svc|] eqn:E; [|done].
    apply put_ok; [done|by eexists|]. by apply (get_ok _ _ _ Hw E).
  - unfold on_disconnect. destruct (proxy_persistent p); [done|]. by apply remove_ok.
  - unfold run_end. destruct (get_service id w) as [svc|]; [|done].
    destruct (is_persistent svc); [done|]. by apply remove_ok.
  - unfold cleanup_inactive_services. apply foldl_ok; [|done]. intros. by apply remove_ok.
Qed.
End registry.

(** (C34) Whatever connections do to the registry of terminals - services created and removed,
    messages, polls, output read, connections lost, idle services cleaned up - it never
    holds more than a hundred services, and every terminal of every service has at most
    five hundred chunks on its channel and at most a megabyte in ten thousand lines in its
    buffer, counted right. *)
Theorem terminals_stay_bounded compress iter iter_services l :
  let w := ops compress iter iter_services empty l in
  Z.of_nat (size (TERMINAL_SERVICES w)) ≤ MAX_SERVICES ∧
  ∀ id svc tid s, get_service id w = Some svc → sessions svc !! tid = Some s →
    len (channel s) ≤ CHANNEL_BUFFER_SIZE ∧
    let b := output_buffer s in
    TerminalOutput.total_size b = TerminalOutput.sum_len (TerminalOutput.lines b) ∧
    TerminalOutput.total_size b ≤ TerminalOutput.MAX_OUTPUT_BUFFER_SIZE ∧
    len (TerminalOutput.lines b) ≤ TerminalOutput.MAX_BUFFER_LINES.
Proof.
  intros w. assert (terminals_ok w) as [Hl Hw].
  { unfold w, ops. apply foldl_ok; [intros; by apply op_ok|]. by split. }
  split; [done|]. intros id svc tid s Hid Ht. destruct (Hw id svc Hid tid s Ht) as [Hc [chunks ->]].
  destruct (OutputBufferProofs.kept_of_appends chunks) as [[Hz _] [[_ Hb] Hn] _ _ _]. done.
Qed.

(** ** The order in which a map is visited *)
Section visits.
Context (compress : bytes → bytes) (iter : ∀ {A}, gmap Z A → list (Z * A)).
Hypothesis iter_perm : ∀ A (m : gmap Z A), iter A m ≡ₚ map_to_list m.

Lemma keys_perm {A} (m : gmap Z A) : keys (@iter) m ≡ₚ elements (dom m).
Proof.
  unfold keys. rewrite iter_perm.
  apply NoDup_Permutation; [apply NoDup_fst_map_to_list|apply NoDup_elements|]. intros k.
  rewrite elem_of_elements, dom_alt, elem_of_list_to_set. done.
Qed.

Lemma elem_of_keys {A} (m : gmap Z A) k : k ∈ keys (@iter) m ↔ is_Some (m !! k).
Proof. rewrite keys_perm, elem_of_elements. apply elem_of_dom. Qed.

Lemma NoDup_keys {A} (m : gmap Z A) : NoDup (keys (@iter) m).
Proof. rewrite keys_perm. apply NoDup_elements. Qed.

Lemma lowest_id_spec m : m ≠ ∅ → ∃ k s, lowest_id (@iter) m = Some k ∧ m !! k = Some s ∧
  ∀ j, is_Some (m !! j) → k ≤ j.
Proof.
  intros Hm. unfold lowest_id. destruct (keys (@iter) m) as [|k ks] eqn:E.
  { destruct Hm. apply map_eq. intros j. rewrite lookup_empty. apply eq_None_not_Some. intros Hj.
    apply elem_of_keys in Hj. rewrite E in Hj. by apply elem_of_nil in Hj. }
  assert (∀ ks k, foldr Z.min k ks ∈ k :: ks ∧ ∀ j, j ∈ k :: ks → foldr Z.min k ks ≤ j) as Hmin.
  { clear. induction ks as [|x ks IH]; intros k; cbn.
    - split; [by left|]. intros j Hj. apply list_elem_of_singleton in Hj as ->. lia.
    - destruct (IH k) as [H1 H2]. split.
      + rewrite !elem_of_cons in *. destruct (Z.min_spec x (foldr Z.min k ks)) as [[_ ->]|[_ ->]]; tauto.
      + intros j [->|[->|Hj]%elem_of_cons]%elem_of_cons; [|lia|].
        * specialize (H2 k ltac:(by left)). lia.
        * specialize (H2 j ltac:(by right)). lia. }
  destruct (Hmin ks k) as [H1 H2]. rewrite <- E in H1, H2. apply elem_of_keys in H1 as [s Hs].
  exists (foldr Z.min k ks), s. split_and!; [done..|]. intros j Hj. by apply H2, elem_of_keys.
Qed.

(** Which terminal is given the id that is asked for. *)
Lemma remap_spec requested svc : needs_session_sync svc = true → sessions svc ≠ ∅ →
  ∃ old s, sessions svc !! old = Some s ∧
    (old = requested ∨ sessions svc !! requested = None ∧ ∀ k, is_Some (sessions svc !! k) → old ≤ k) ∧
    remap (@iter) requested svc = svc <| sessions := <[requested := s]> (delete old (sessions svc)) |>.
Proof.
  intros Hn Hm. unfold remap, has_active_terminals. rewrite Hn, (bool_decide_eq_false_2 (sessions svc = ∅)) by done.
  destruct (sessions svc !! requested) as [s|] eqn:E.
  - rewrite bool_decide_eq_true_2 by by eexists. cbn. exists requested, s. split_and!; [done|by left|].
    rewrite insert_delete_eq, insert_id by done. by destruct svc.
  - rewrite bool_decide_eq_false_2 by by intros []. cbn.
    destruct (lowest_id_spec (sessions svc) Hm) as (k & s & -> & Hs & Hk). exists k, s. rewrite Hs.
    split_and!; [done|by right|done].
Qed.

Lemma others_perm {A} (m : gmap Z A) id s : m !! id = None →
  filter (λ k, k ≠ id) (keys (@iter) (<[id := s]> m)) ≡ₚ elements (dom m).
Proof.
  intros Hm. apply NoDup_Permutation; [apply NoDup_filter, NoDup_keys|apply NoDup_elements|].
  intros k. rewrite list_elem_of_filter, elem_of_keys, elem_of_elements, elem_of_dom.
  destruct (decide (k = id)) as [->|Hk].
  - rewrite Hm. split; [by intros []|by intros []].
  - rewrite lookup_insert_ne by done. naive_solver.
Qed.
End visits.

(** ** A poll over all terminals *)
Lemma fmap_on {A B} (f g : A → B) (l : list A) : (∀ x, x ∈ l → f x = g x) → f <$> l = g <$> l.
Proof. intros H. apply list_fmap_ext. intros i x Hi. apply H. by eapply list_elem_of_lookup_2. Qed.

Lemma filter_on {A} (P Q : A → Prop) `{!∀ x, Decision (P x), !∀ x, Decision (Q x)} (l : list A) :
  (∀ x, x ∈ l → (P x ↔ Q x)) → filter P l = filter Q l.
Proof.
  induction l as [|x l IH]; intros Hpq; [done|]. rewrite !filter_cons.
  rewrite IH by (intros y Hy; apply Hpq; by right). apply decide_ext, Hpq. by left.
Qed.

Section polls.
Context (compress decompress : bytes → bytes) (env : PollEnv).

Definition polled (k : Z) (s : TerminalSession) : TerminalSession :=
  if busy env k then s else (poll_session compress env k s).1.1.
Definition output (k : Z) (s : TerminalSession) : list TerminalResponse :=
  if busy env k then [] else (poll_session compress env k s).1.2.
Definition ends (k : Z) (s : TerminalSession) : bool := negb (busy env k) && should_send_closed env k s.

Definition exit_code (k : Z) (s : TerminalSession) : Z :=
  match child s with Some _ => default 0 (as_i32 <$> exit_status env k) | None => 0 end.

Lemma exit_polled k s : exit_code k (polled k s) = exit_code k s.
Proof.
  unfold exit_code, polled. destruct (busy env k); [done|].
  destruct (TerminalStream.poll_session_spec compress env k s) as (s' & out & -> & _ & _ & E & _).
  cbn [fst]. by rewrite E.
Qed.

Lemma poll_one_spec svc rs cl k :
  ∃ m, poll_one compress env (svc, rs, cl) k =
    (svc <| sessions := m |>, rs ++ from_option (output k) [] (sessions svc !! k),
     cl ++ (if from_option (ends k) false (sessions svc !! k) then [k] else [])) ∧
  (∀ j, m !! j = if decide (j = k) then polled k <$> sessions svc !! j else sessions svc !! j).
Proof.
  unfold poll_one, output, ends, polled.
  assert (∀ svc, svc = svc <| sessions := sessions svc |>) as Hsame by by intros [].
  destruct (busy env k) eqn:Eb; cbn [negb andb].
  { exists (sessions svc). rewrite <- Hsame. destruct (sessions svc !! k) eqn:E; cbn; rewrite !app_nil_r;
      (split; [done|]); intros j; case_decide as Hj; try done; subst; by rewrite E. }
  destruct (sessions svc !! k) as [s|] eqn:E; cbn.
  - destruct (TerminalStream.poll_session_spec compress env k s) as (s' & out & Ep & _). rewrite Ep. cbn.
    eexists. split; [reflexivity|]. intros j. cbn. case_decide as Hj.
    + subst. rewrite lookup_insert_eq, E. cbn. by rewrite Ep.
    + by rewrite lookup_insert_ne.
  - exists (sessions svc). rewrite <- Hsame, !app_nil_r. split; [done|]. intros j. case_decide; [subst; by rewrite E|done].
Qed.

Lemma poll_fold ks : ∀ svc rs cl, NoDup ks →
  ∃ m, foldl (poll_one compress env) (svc, rs, cl) ks =
    (svc <| sessions := m |>, rs ++ mjoin ((λ k, from_option (output k) [] (sessions svc !! k)) <$> ks),
     cl ++ filter (λ k, from_option (ends k) false (sessions svc !! k) = true) ks) ∧
  (∀ j, m !! j = if decide (j ∈ ks) then polled j <$> sessions svc !! j else sessions svc !! j).
Proof.
  induction ks as [|k ks IH]; intros svc rs cl Hnd.
  { exists (sessions svc). cbn. rewrite !app_nil_r. split; [by destruct svc|done]. }
  apply NoDup_cons in Hnd as [Hk Hnd]. cbn [foldl].
  destruct (poll_one_spec svc rs cl k) as (m & -> & Hm).
  destruct (IH (svc <| sessions := m |>) (rs ++ from_option (output k) [] (sessions svc !! k))
    (cl ++ (if from_option (ends k) false (sessions svc !! k) then [k] else [])) Hnd) as (m2 & -> & Hm2).
  assert (∀ j, j ∈ ks → m !! j = sessions svc !! j) as Hj
    by (intros j Hj; rewrite Hm; case_decide; [by subst|done]).
  assert ((λ j, from_option (output j) [] (m !! j)) <$> ks =
          (λ j, from_option (output j) [] (sessions svc !! j)) <$> ks) as E1.
  { apply fmap_on. intros j Hjk. by rewrite Hj. }
  assert (filter (λ j, from_option (ends j) false (m !! j) = true) ks =
          filter (λ j, from_option (ends j) false (sessions svc !! j) = true) ks) as E2.
  { by apply filter_on; intros j Hjk; rewrite Hj. }
  exists m2. split; [|intros j; cbn in Hm2; rewrite Hm2, Hm].
  - cbn [sessions update]. rewrite E1, E2, filter_cons, <- !app_assoc.
    destruct (from_option (ends k) false (sessions svc !! k)); [by rewrite decide_True|by rewrite decide_False].
  - destruct (decide (j = k)) as [->|Hjk].
    + rewrite decide_False by done. rewrite decide_True by by left. done.
    + destruct (decide (j ∈ ks)); [by rewrite decide_True by by right|].
      rewrite decide_False; [done|]. by rewrite elem_of_cons; intros [|].
Qed.

Lemma close_fold p cl : ∀ svc rs reaped, NoDup cl →
  (∀ k, k ∈ cl → ∃ s, sessions svc !! k = Some s ∧ closed_message_sent s = true) →
  ∃ m, foldl (close_one p env) (svc, rs, reaped) cl =
    (svc <| sessions := m |>, rs ++ ((λ k, RespClosed k (from_option (exit_code k) 0 (sessions svc !! k))) <$> cl),
     reaped ++ mjoin ((λ k, from_option (λ s, option_list (child s)) [] (sessions svc !! k)) <$> cl)) ∧
  (∀ j, m !! j = if decide (j ∈ cl) then None else sessions svc !! j).
Proof.
  induction cl as [|k cl IH]; intros svc rs reaped Hnd Hcl.
  { exists (sessions svc). cbn. rewrite !app_nil_r. split; [by destruct svc|done]. }
  apply NoDup_cons in Hnd as [Hk Hnd]. cbn [foldl].
  destruct (Hcl k ltac:(by left)) as (s & Hs & Hsent).
  assert (close_one p env (svc, rs, reaped) k =
    (svc <| sessions := delete k (sessions svc) |>, rs ++ [RespClosed k (exit_code k s)],
     reaped ++ option_list (child s))) as -> by (unfold close_one; rewrite Hs, Hsent; by destruct (proxy_persistent p)).
  assert (∀ j, j ∈ cl → delete k (sessions svc) !! j = sessions svc !! j) as Hj
    by (intros j Hj; apply lookup_delete_ne; by intros ->).
  destruct (IH (svc <| sessions := delete k (sessions svc) |>) (rs ++ [RespClosed k (exit_code k s)])
    (reaped ++ option_list (child s)) Hnd) as (m & -> & Hm).
  { intros j Hjc. cbn. rewrite Hj by done. apply Hcl. by right. }
  exists m. cbn [sessions update] in *. rewrite <- !app_assoc. cbn [fmap list_fmap mjoin list_join app]. rewrite Hs. split.
  - rewrite (fmap_on _ (λ j, RespClosed j (from_option (exit_code j) 0 (sessions svc !! j)))),
      (fmap_on _ (λ j, from_option (λ s, option_list (child s)) [] (sessions svc !! j)));
      [done|by intros j Hjk; rewrite Hj..].
  - intros j. rewrite Hm. destruct (decide (j = k)) as [->|Hjk].
    + rewrite decide_False by done. rewrite decide_True by by left. by rewrite lookup_delete_eq.
    + rewrite lookup_delete_ne by done. destruct (decide (j ∈ cl)); [by rewrite decide_True by by right|].
      rewrite decide_False; [done|]. by rewrite elem_of_cons; intros [|].
Qed.
End polls.

(** (C25) A controller that reconnects to a service and opens a terminal gets one that is still
    there: the one it asks for, or else the one with the lowest id, which is known by the
    id that was asked for from then on.  It is the same shell, at the size it had, and it
    is open.  No other terminal is lost or touched beyond being closed, and the answer
    names exactly the others, so that the controller can open them too. *)
Theorem reopening_keeps_terminals iter now id persistent user env open w svc :
  (∀ A (m : gmap Z A), iter A m ≡ₚ map_to_list m) →
  get_service id w = Some svc → sessions svc ≠ ∅ →
  let requested := open_terminal_id open in
  let w1 := (get_or_create_service now id persistent user w).1 in
  ∃ old s o w2 svc2 s2,
    sessions svc !! old = Some s ∧
    (old = requested ∨ sessions svc !! requested = None ∧ ∀ k, is_Some (sessions svc !! k) → old ≤ k) ∧
    handle_action iter (new_proxy id (Some persistent) w1) env (ActionOpen open) w1 =
      (w2, Ok (Some (RespOpened o))) ∧
    terminal_id o = requested ∧ success o = true ∧ opened_pid o = pid s ∧
    persistent_sessions o ≡ₚ elements (dom (delete old (sessions svc))) ∧
    get_service id w2 = Some svc2 ∧ needs_session_sync svc2 = false ∧
    sessions svc2 = <[requested := s2]> (close_state <$> delete old (sessions svc)) ∧
    (child s2, pid s2, rows s2, cols s2, pty_pair s2, input_tx s2, reader_thread s2) =
      (child s, pid s, rows s, cols s, pty_pair s, input_tx s, reader_thread s) ∧
    state s2 ≠ Closed.
Proof.
  intros Hiter Hg Hne requested w1. set (svc1 := reset_status persistent svc).
  assert (get_service id w1 = Some svc1) as Hg1.
  { unfold w1, get_or_create_service. rewrite Hg, bool_decide_eq_true_2 by by eexists. cbn.
    unfold get_service, put_service. cbn. by rewrite lookup_insert_eq. }
  assert (sessions svc1 ≠ ∅) as Hne1 by (cbn; intros H; apply fmap_empty_inv in H; done).
  set (svc1' := svc1 <| service_last_activity := a_now env |>).
  destruct (remap_spec iter Hiter requested svc1' eq_refl Hne1) as (old & s1 & Hs1 & Hold & Er).
  cbn in Hs1. apply lookup_fmap_Some in Hs1 as (s & <- & Hs).
  set (rest := delete old (close_state <$> sessions svc)).
  assert (rest !! requested = None) as Hrest.
  { unfold rest. destruct Hold as [->|[Hn _]]; [by rewrite lookup_delete_eq|].
    rewrite lookup_delete_None. by right. }
  unfold handle_action. cbn [new_proxy proxy_service_id]. rewrite Hg1. fold svc1'.
  unfold handle_open. fold requested. rewrite Er. cbn [sessions update]. rewrite lookup_insert_eq.
  destruct (reopen_session (close_state s)) as [s2 pending] eqn:E2.
  set (svc2 := _ <| sessions := <[requested := s2]> _ |>).
  assert (sessions svc2 = <[requested := s2]> rest) as Esv by (apply insert_insert_eq).
  exists old, s. do 2 eexists. exists (svc2 <| needs_session_sync := false |>), s2.
  split; [done|]. split.
  { destruct Hold as [->|[Hn Hlow]]; [by left|right]. cbn in Hn. rewrite lookup_fmap in Hn.
    split; [by destruct (sessions svc !! requested)|]. intros k Hk. apply Hlow. cbn. by rewrite lookup_fmap, fmap_is_Some. }
  split; [reflexivity|]. cbn [terminal_id success opened_pid persistent_sessions]. 
  split; [done|]. split; [done|]. split; [by injection E2 as <- _|].
  split; [|split; [cbn; unfold get_service; cbn; by rewrite lookup_insert_eq|split; [done|split; [|]]]].
  - change (needs_session_sync svc2) with true. change (<[requested:=s2]> (<[requested:=close_state s]> (delete old (sessions svc1')))) with (sessions svc2). rewrite Esv. cbn [andb].
    assert (dom rest = dom (delete old (sessions svc))) as Ed by (unfold rest; by rewrite !dom_delete_L, dom_fmap_L).
    rewrite <- Ed. case_match eqn:El; [by apply others_perm|].
    apply Z.ltb_ge in El. rewrite map_size_insert_None in El by done.
    assert (size rest = 0%nat) as Hz by lia. apply map_size_empty_inv in Hz. by rewrite Hz, dom_empty_L, elements_empty.
  - change (sessions (svc2 <| needs_session_sync := false |>)) with (sessions svc2). rewrite Esv. unfold rest.
    by rewrite fmap_delete.
  - pose proof (TerminalStream.reopen_session_spec (close_state s)) as H. rewrite E2 in H. cbv zeta in H.
    destruct H as (_ & _ & -> & _). by injection E2 as <- _.
Qed.

(** ** What a poll shows of one terminal *)
Lemma Forall_mjoin {A B} (P : B → Prop) (f : A → list B) l :
  (∀ x, Forall P (f x)) → Forall P (mjoin (f <$> l)).
Proof. intros H. induction l; [apply Forall_nil_2|]. by apply Forall_app. Qed.

Lemma mjoin_fmap_cons {A B} (f : A → list B) x l : mjoin (f <$> x :: l) = f x ++ mjoin (f <$> l).
Proof. done. Qed.

Section shown_of.
Context (compress decompress : bytes → bytes).
Hypothesis decompress_compress : ∀ d, decompress (compress d) = d.

Definition concerns (k : Z) (r : TerminalResponse) : bool :=
  match r with RespData d => data_terminal_id d =? k | _ => false end.
Definition shown_of (k : Z) (rs : list TerminalResponse) : bytes :=
  mjoin (TerminalStream.shown_by decompress <$> filter (λ r, concerns k r = true) rs).

Lemma shown_of_app k rs rs' : shown_of k (rs ++ rs') = shown_of k rs ++ shown_of k rs'.
Proof. unfold shown_of. by rewrite filter_app, fmap_app, join_app. Qed.

Lemma concerns_data k j d : concerns k (create_terminal_data_response compress j d) = (j =? k).
Proof. unfold create_terminal_data_response. repeat case_match; done. Qed.

Lemma concerns_output k j pending q :
  Forall (λ r, concerns k r = (j =? k)) (TerminalStream.poll_output compress j pending q).
Proof.
  unfold TerminalStream.poll_output. apply Forall_app. split.
  - destruct pending as [b|]; [|apply Forall_nil_2]. case_bool_decide; [apply Forall_nil_2|].
    apply Forall_singleton, concerns_data.
  - apply Forall_fmap, Forall_forall. intros d _. apply concerns_data.
Qed.

Lemma shown_of_concerns k (b : bool) rs : Forall (λ r, concerns k r = b) rs →
  shown_of k rs = if b then mjoin (TerminalStream.shown_by decompress <$> rs) else [].
Proof.
  unfold shown_of. induction 1 as [|r rs Hr Hrs IH]; [by destruct b|]. rewrite filter_cons, Hr.
  destruct b; [rewrite decide_True by done|by rewrite decide_False by done].
  cbn. f_equal. exact IH.
Qed.

(** What one terminal has to show. *)
Definition due (env : PollEnv) (k : Z) (s : TerminalSession) : bytes :=
  if busy env k then []
  else match state s with Closed => [] | Active pending _ => default [] pending ++ mjoin (channel s) end.

Lemma shown_of_output env k j s :
  shown_of k (output compress env j s) = if j =? k then due env j s else [].
Proof.
  unfold output, due. destruct (busy env j); [by destruct (j =? k)|].
  destruct (TerminalStream.poll_session_spec compress env j s) as (s' & out & -> & _ & _ & _ & _ & H). cbn [fst snd].
  destruct (state s) as [|pending ph]; [destruct H as [_ ->]; by destruct (j =? k)|]. destruct H as [_ ->].
  rewrite (shown_of_concerns _ _ _ (concerns_output k j pending (channel s))).
  by rewrite (TerminalStream.shown_poll compress decompress decompress_compress).
Qed.

Lemma shown_of_outputs env k ks (m : gmap Z TerminalSession) : NoDup ks →
  shown_of k (mjoin ((λ j, from_option (output compress env j) [] (m !! j)) <$> ks)) =
  if decide (k ∈ ks) then from_option (due env k) [] (m !! k) else [].
Proof.
  induction ks as [|j ks IH]; intros Hnd; [done|]. apply NoDup_cons in Hnd as [Hj Hnd].
  rewrite mjoin_fmap_cons, shown_of_app, IH by done.
  assert (shown_of k (from_option (output compress env j) [] (m !! j)) =
    if j =? k then from_option (due env k) [] (m !! k) else []) as ->.
  { destruct (Z.eqb_spec j k) as [->|Hjk].
    - destruct (m !! k); cbn [from_option]; [|done]. by rewrite shown_of_output, Z.eqb_refl.
    - destruct (m !! j); cbn [from_option]; [|done]. rewrite shown_of_output. by destruct (Z.eqb_spec j k). }
  destruct (Z.eqb_spec j k) as [->|Hjk].
  - rewrite (decide_False (P := k ∈ ks)) by done. rewrite decide_True by by left. by rewrite app_nil_r.
  - cbn [app]. destruct (decide (k ∈ ks)); [by rewrite decide_True by by right|].
    rewrite decide_False; [done|]. rewrite elem_of_cons. by intros [|].
Qed.

Lemma output_data env k s : Forall (λ r, ∃ d, r = RespData d) (output compress env k s).
Proof.
  assert (∀ d, ∃ d', create_terminal_data_response compress k d = RespData d') as Hd
    by (intros d; unfold create_terminal_data_response; repeat case_match; eauto).
  unfold output. destruct (busy env k); [apply Forall_nil_2|].
  destruct (TerminalStream.poll_session_spec compress env k s) as (s' & out & -> & _ & _ & _ & _ & H). cbn [fst snd].
  destruct (state s) as [|pending ph]; [destruct H as [_ ->]; apply Forall_nil_2|]. destruct H as [_ ->].
  unfold TerminalStream.poll_output. apply Forall_app. split.
  - destruct pending as [b|]; [|apply Forall_nil_2]. case_bool_decide; [apply Forall_nil_2|by apply Forall_singleton].
  - apply Forall_fmap, Forall_forall. intros d _. apply Hd.
Qed.
End shown_of.


End TerminalServiceProofs.
