(* ===== verification/TerminalExamples.v ===== *)
(** * Terminals on concrete inputs

    The theorems about terminals applied to a short session, and two places where the code
    keeps less than it means to. *)
From S2P Require Import Prelude RustStd RecordUpdate Utf8 TerminalOutput TerminalOutputProofs OutputBufferProofs TerminalService TerminalStream TerminalServiceProofs.

Module TerminalExamples.
Import TerminalService.

(** ** Inputs *)
Definition zh : list byte := [z2b 0xE4; z2b 0xB8; z2b 0xAD].
Definition reads : list (list byte) := [Byte.x61 :: take 1 zh; drop 1 zh; [Byte.x0a]].

Lemma zh_text : Utf8.text zh.
Proof. apply (Utf8.is_utf8_text 3); [done|]. vm_compute. done. Qed.

Lemma chunks_are_text_witness :
  TerminalOutput.push_chunks reads [] = ([[Byte.x61]; zh; [Byte.x0a]], []) ∧
  mjoin [[Byte.x61]; zh; [Byte.x0a]] ++ [] = mjoin reads ∧
  Forall Utf8.text [[Byte.x61]; zh; [Byte.x0a]].
Proof.
  assert (TerminalOutput.push_chunks reads [] = ([[Byte.x61]; zh; [Byte.x0a]], [])) as E by (vm_compute; reflexivity).
  split; [exact E|]. destruct (TerminalOutputProofs.chunks_are_text _ _ _ E) as [H1 H2]. split; [exact H1|].
  refine (proj1 (H2 (mjoin reads) [] _ Utf8.part_nil _)).
  - apply (Utf8.is_utf8_text 5); [vm_compute; lia|]. vm_compute. done.
  - rewrite app_nil_r. reflexivity.
Defined.

Lemma replay_is_recent_output_witness :
  let b := OutputBufferProofs.appends [zh ++ [Byte.x0a]; zh] in
  TerminalOutput.get_recent 4 b = zh ∧ TerminalOutput.get_recent 2 b = [] ∧
  TerminalOutput.lines b = [zh ++ [Byte.x0a]; zh] ∧
  TerminalOutput.get_recent 4 b `suffix_of` mjoin (TerminalOutput.lines b).
Proof.
  split; [vm_compute; reflexivity|]. split; [vm_compute; reflexivity|]. split; [vm_compute; reflexivity|].
  destruct (OutputBufferProofs.replay_is_recent_output [zh ++ [Byte.x0a]; zh] 4) as (_ & _ & _ & _ & _ & H).
  exact (proj1 (H ltac:(lia))).
Defined.

Definition a_env : ActionEnv := mkActionEnv 1000 (Spawned (Some 77)) None None.
Definition p_env : PollEnv := mkPollEnv 1030 (λ _, false) (λ _, false) (λ _, None) (λ _, true).
Definition open_1 : OpenTerminal := mkOpen 1 24 80.

(** A line is shown, the connection is lost, more comes, and the terminal is opened again. *)
Definition events : list TerminalStream.SessionEvent :=
  [TerminalStream.EvRead (ReadOk [Byte.x61; Byte.x0a]); TerminalStream.EvPoll p_env; TerminalStream.EvLost;
   TerminalStream.EvRead (ReadOk zh); TerminalStream.EvReopen; TerminalStream.EvPoll p_env;
   TerminalStream.EvRead (ReadOk [Byte.x62]); TerminalStream.EvPoll p_env].


Definition resized : list TerminalStream.SessionEvent :=
  [TerminalStream.EvPoll p_env; TerminalStream.EvResize a_env (mkResize 1 30 100); TerminalStream.EvPoll p_env].

Lemma sigwinch_settles_witness :
  let s := start_session 0 open_1 (Some 77) in
  let s0 := (reopen_session s).1 in
  pty_pair (TerminalStream.steps id 1 s0 (take 1 resized)) = Some (mkSize 23 80) ∧
  pty_pair (TerminalStream.steps id 1 s0 resized) = Some (mkSize 30 100) ∧
  state (TerminalStream.steps id 1 s0 resized) = Active None Idle.
Proof.
  split; [vm_compute; reflexivity|]. split; [vm_compute; reflexivity|].
  destruct (TerminalStream.sigwinch_settles id 1 (start_session 0 open_1 (Some 77)) resized) as [_ H].
  - repeat constructor.
  - refine (proj1 (proj2 (H [] p_env [TerminalStream.EvResize a_env (mkResize 1 30 100)] p_env [] eq_refl
      eq_refl eq_refl _ _))).
    + repeat constructor; vm_compute; congruence.
    + split; [vm_compute; split; congruence|]. split; [vm_compute; split; congruence|]. eexists. reflexivity.
Defined.

(** ** A service with two terminals that survived *)
Definition iter_z : ∀ {A}, gmap Z A → list (Z * A) := λ A m, map_to_list m.
Definition iter_s : ∀ {A}, gmap string A → list (string * A) := λ A m, map_to_list m.

Lemma iter_z_perm A (m : gmap Z A) : @iter_z A m ≡ₚ map_to_list m.
Proof. done. Qed.

Definition svc_2 : PersistentTerminalService :=
  (new_service 0 "ts_1" true false)
    <| sessions := {[2 := start_session 0 (mkOpen 2 24 80) (Some 72); 5 := start_session 0 (mkOpen 5 24 80) (Some 75)]} |>.
Definition w_2 : Terminals := mkTerminals {["ts_1" := svc_2]} [].

Definition some_ops : list TerminalServiceProofs.Op :=
  [TerminalServiceProofs.OpCreate 0 "ts_1" true false;
   TerminalServiceProofs.OpAction (mkProxy "ts_1" true) a_env (ActionOpen open_1);
   TerminalServiceProofs.OpRead "ts_1" 1 (ReadOk zh)].

Lemma terminals_stay_bounded_witness :
  let w := TerminalServiceProofs.ops id (@iter_z) (@iter_s) TerminalServiceProofs.empty some_ops in
  ∃ svc s, get_service "ts_1" w = Some svc ∧ sessions svc !! 1 = Some s ∧
    TerminalStream.channel s = [zh] ∧ len (TerminalStream.channel s) ≤ CHANNEL_BUFFER_SIZE.
Proof.
  cbv zeta. set (w := TerminalServiceProofs.ops _ _ _ _ _).
  destruct (get_service "ts_1" w) as [svc|] eqn:E; [|vm_compute in E; discriminate].
  destruct (sessions svc !! 1) as [s|] eqn:E2.
  - exists svc, s. split; [reflexivity|]. split; [exact E2|]. split.
    + vm_compute in E. injection E as <-. vm_compute in E2. injection E2 as <-. vm_compute. reflexivity.
    + destruct (TerminalServiceProofs.terminals_stay_bounded id (@iter_z) (@iter_s) some_ops) as [_ H].
      exact (proj1 (H _ _ _ _ E E2)).
  - vm_compute in E. injection E as <-. vm_compute in E2. discriminate.
Defined.

Lemma reopening_keeps_terminals_witness :
  ∃ old s o w2, sessions svc_2 !! old = Some s ∧ opened_pid o = pid s ∧
    handle_action (@iter_z) (mkProxy "ts_1" true) a_env (ActionOpen open_1)
      (get_or_create_service 100 "ts_1" true false w_2).1 = (w2, Ok (Some (RespOpened o))) ∧
    persistent_sessions o ≡ₚ elements (dom (delete old (sessions svc_2))).
Proof.
  destruct (TerminalServiceProofs.reopening_keeps_terminals (@iter_z) 100 "ts_1" true false a_env open_1 w_2 svc_2
    iter_z_perm) as (old & s & o & w2 & svc2 & s2 & H1 & _ & H2 & _ & _ & H3 & H4 & _).
  - reflexivity.
  - discriminate.
  - exists old, s, o, w2. split; [exact H1|]. split; [exact H3|]. split; [exact H2|exact H4].
Defined.

(** The shell of terminal 2 has exited. *)
Definition gone : PollEnv := mkPollEnv 1030 (λ _, false) (λ k, k =? 2) (λ _, Some 3) (λ _, true).


(** ** Where output is lost *)

(** [compress] answers with nothing when it fails, which is less than what was to be
    compressed: a chunk above the threshold is then replaced by an empty one. *)
Lemma failed_compression_loses_output k data :
  COMPRESS_THRESHOLD < len data →
  create_terminal_data_response (λ _, []) k data = RespData (mkData k [] true).
Proof.
  intros H. unfold create_terminal_data_response. rewrite (proj2 (Z.ltb_lt _ _) H).
  destruct (Z.ltb_spec (len (@nil byte)) (len data)) as [|H2]; [done|].
  rewrite len_nil in H2. unfold COMPRESS_THRESHOLD in H. lia.
Qed.

(** A line above a megabyte is cut anywhere: three-byte characters are cut in two. *)
Definition many (n : nat) : list byte := mjoin (replicate n zh).

Lemma many_lookup n i j : (i < n)%nat → (j < 3)%nat → many n !! (3 * i + j)%nat = zh !! j.
Proof.
  revert i. induction n as [|n IH]; intros i Hi Hj; [lia|].
  change (many (S n)) with (zh ++ many n). destruct i as [|i].
  - rewrite lookup_app_l; [done|]. cbn. lia.
  - rewrite lookup_app_r by (cbn; lia). rewrite <- (IH i) by lia. f_equal. cbn [length zh]. lia.
Qed.

Lemma len_many n : len (many n) = 3 * Z.of_nat n.
Proof. induction n as [|n IH]; [done|]. change (many (S n)) with (zh ++ many n). rewrite len_app, IH. change (len zh) with 3. lia. Qed.

Lemma newline_many n : Utf8.newline ∉ many n.
Proof.
  induction n as [|n IH]; [apply not_elem_of_nil|]. change (many (S n)) with (zh ++ many n).
  rewrite elem_of_app. intros [H|H]; [|done]. revert H. apply (bool_decide_unpack (Utf8.newline ∉ zh)). vm_compute. exact I.
Qed.

Lemma split_one d : d ≠ [] → Utf8.newline ∉ d → TerminalOutput.split d = [d].
Proof.
  induction d as [|b d IH]; [done|]. intros _ Hd. cbn [TerminalOutput.split]. unfold TerminalOutput.is_newline.
  rewrite bool_decide_eq_false_2 by (intros ->; apply Hd; by left).
  destruct d as [|b' d]; [done|]. rewrite IH; [done|done|]. intros H. apply Hd. by right.
Qed.

Lemma append_one d : d ≠ [] → Utf8.newline ∉ d → TerminalOutput.MAX_OUTPUT_BUFFER_SIZE < len d →
  TerminalOutput.lines (TerminalOutput.append d TerminalOutput.new) =
    [drop (Z.to_nat (len d - TerminalOutput.MAX_OUTPUT_BUFFER_SIZE / 2)) d].
Proof.
  intros Hd Hn Hl. unfold TerminalOutput.append. rewrite bool_decide_eq_false_2 by done.
  change (TerminalOutput.complete_line TerminalOutput.new d) with (TerminalOutput.new, 0%nat).
  cbv beta iota zeta. rewrite drop_0, split_one by done.
  assert (bool_decide (last d = Some Utf8.newline) = false) as ->.
  { apply bool_decide_eq_false. intros H. apply Hn. by apply last_Some_elem_of. }
  rewrite OutputBufferProofs.push_lines_kept. cbn [OutputBufferProofs.kept]. rewrite bool_decide_eq_false_2 by done.
  unfold OutputBufferProofs.left_open. cbn [last]. rewrite (bool_decide_eq_false_2 (Some d = Some [])) by congruence.
  rewrite (bool_decide_eq_false_2 ([d] = [])) by done. cbn [TerminalOutput.lines TerminalOutput.total_size
    TerminalOutput.last_line_incomplete TerminalOutput.new app negb andb orb].
  change (0 + TerminalOutput.sum_len [d]) with (len d + 0). rewrite Z.add_0_r. cbn [TerminalOutput.trim].
  rewrite (proj2 (Z.ltb_lt _ _) Hl), (bool_decide_eq_true_2 ([] = [])) by done. cbn [orb andb TerminalOutput.lines].
  unfold saturating_sub. rewrite Z.max_l; [done|]. unfold TerminalOutput.MAX_OUTPUT_BUFFER_SIZE in *.
  change (1024 * 1024 / 2) with 524288. lia.
Qed.

Lemma many_drop n i : (i < n)%nat → ∃ t, drop (3 * i + 1) (many n) = z2b 0xB8 :: t.
Proof.
  intros Hi. pose proof (many_lookup n i 1 Hi ltac:(lia)) as H. change (zh !! 1%nat) with (Some (z2b 0xB8)) in H.
  rewrite <- (Nat.add_0_r (3 * i + 1)), <- lookup_drop in H.
  destruct (drop (3 * i + 1) (many n)) as [|b t]; [done|]. exists t. by injection H as ->.
Qed.

Lemma trimmed_line_starts_within_a_character n : Z.of_nat n = 349526 →
  ∃ t, TerminalOutput.lines (TerminalOutput.append (many n) TerminalOutput.new) = [z2b 0xB8 :: t].
Proof.
  intros Hn. pose proof (len_many n) as Hl. rewrite Hn in Hl.
  destruct (many_drop n (Z.to_nat 174763)) as [t Ht]; [lia|]. exists t.
  rewrite append_one.
  - rewrite Hl. change (TerminalOutput.MAX_OUTPUT_BUFFER_SIZE / 2) with 524288.
    assert (Z.to_nat (3 * 349526 - 524288) = 3 * Z.to_nat 174763 + 1)%nat as -> by lia. by rewrite Ht.
  - intros E. rewrite E in Hl. discriminate Hl.
  - apply newline_many.
  - rewrite Hl. done.
Qed.

End TerminalExamples.
