(* ===== verification/UpdateMetadata.v ===== *)
(** * Which update is taken

    client/src/update_metadata.rs with artifact.rs and offline.rs below it, and the
    release ids and versions of client/src/common.rs: what a release page's address, the
    signed metadata of a release and the artifact it describes have to be.

    JSON, base64, the signature check and the parsing of addresses are libraries; they
    are the class [UpdateLibs].  The errors are the messages, without what is put into
    them. *)
From S2P Require Import Prelude RustStd HostNames.
From Stdlib Require Import Ascii.

Module UpdateMetadata.
Import HostNames.
Abbreviation bytes := (list byte).

Definition ok_or {A E} (o : option A) (why : E) : result A E :=
  match o with Some a => Ok a | None => Err why end.
Definition ensure {E} (b : bool) (why : E) : result unit E := if b then Ok tt else Err why.

(** ** Data *)
Record UpdateArtifact : Type := mkArtifact {
  platform : string;
  arch : string;
  format : string;
  url : string;
  file_name : string;
  size : Z;
  sha256 : string;
}.

Record UpdateMetadata : Type := mkMetadata {
  schema_version : Z;
  app : string;
  package_id : string;
  version : string;
  release_id : string;
  published_at : string;
  signature_key_id : string;
  artifacts : list UpdateArtifact;
}.

Record UpdateSignature : Type := mkSignature {
  sig_schema_version : Z;
  algorithm : string;
  key_id : string;
  signature : string;
}.

Record TrustedUpdateKey : Type := mkKey {
  trusted_key_id : string;
  trusted_algorithm : string;
  public_key : bytes;
}.

Record UpdateArtifactQuery : Type := mkQuery { q_platform : string; q_arch : string; q_format : string }.

Record VerifiedUpdateArtifact : Type := mkVerified {
  v_version : string;
  v_url : string;
  v_file_name : string;
  v_size : Z;
  v_sha256 : string;
}.

(** What [url::Url] tells of an address. *)
Record Url : Type := mkUrl {
  scheme : string;
  host_str : option string;
  username : string;
  password : option string;
  port : option Z;
  query : option string;
  fragment : option string;
  path_segments : option (list string);
}.

Class UpdateLibs : Type := {
  url_parse : string → option Url;
  signature_json : bytes → option UpdateSignature;
  metadata_json : bytes → option UpdateMetadata;
  header_json : bytes → option (string * string);
  version_check_json : bytes → option string;
  base64_decode : string → option bytes;
  base64_encode : bytes → string;
  signature_from_bytes : bytes → option bytes;
  sodium_init : bool;
  verify_detached : bytes → bytes → bytes → bool;
}.

(** ** Constants *)
Definition UPDATE_METADATA_SIGNATURE_CONTEXT : bytes :=
  as_bytes "RustDesk update metadata v1" ++ [Byte.x0a].
Definition UPDATE_APP : string := "rustdesk".
Definition PUBLIC_UPDATE_PACKAGE_ID : string := "rustdesk".
Definition METADATA_SCHEMA_VERSION : Z := 1.
Definition SIGNATURE_SCHEMA_VERSION : Z := 1.
Definition SIGNATURE_ALGORITHM : string := "ed25519".

Definition TRUSTED_UPDATE_KEYS : list TrustedUpdateKey :=
  [mkKey "2026-ed25519-main" SIGNATURE_ALGORITHM
     (z2b <$> [52; 214; 32; 65; 191; 134; 137; 75; 157; 74; 67; 221; 150; 161; 118; 215; 218; 35; 236;
        156; 127; 120; 133; 156; 197; 141; 37; 22; 47; 106; 181; 177])].

(** ** Characters *)
Definition char_code (c : ascii) : Z := Z.of_N (N_of_ascii c).
Definition between (lo hi c : Z) : bool := (lo <=? c) && (c <=? hi).
Definition is_ascii_digit (c : ascii) : bool := between 48 57 (char_code c).
Definition is_ascii_alphanumeric (c : ascii) : bool :=
  is_ascii_digit c || between 65 90 (char_code c) || between 97 122 (char_code c).
Definition is_ascii_hexdigit (c : ascii) : bool :=
  is_ascii_digit c || between 65 70 (char_code c) || between 97 102 (char_code c).

Fixpoint str_all (p : ascii → bool) (s : string) : bool :=
  match s with
  | EmptyString => true
  | String c s => p c && str_all p s
  end.

(** ** Release ids and versions (common.rs) *)

(** [raw_url.split_once("://")], the second half. *)
Fixpoint after_scheme (s : string) : option string :=
  match s with
  | EmptyString => None
  | String _ t => match strip_prefix "://" s with Some r => Some r | None => after_scheme t end
  end.

(** [rest.split(|c| matches!(c, '/' | '?' | '#')).next()] *)
Fixpoint authority_of (s : string) : string :=
  match s with
  | EmptyString => ""
  | String c s =>
      if bool_decide (c ∈ ["/"; "?"; "#"]%char) then "" else String c (authority_of s)
  end.

Definition url_has_explicit_port (raw_url : string) : bool :=
  match after_scheme raw_url with
  | None => false
  | Some rest =>
      let authority := authority_of rest in
      let host_port := default authority (last (split "@" authority)) in
      contains ":" host_port
  end.

Definition display_version_from_release_id (release_id : string) : result string string :=
  let display_version := default release_id (strip_prefix "v" release_id) in
  let segments := split "." display_version in
  if negb (len segments =? 3) ||
     existsb (λ s, is_empty s || negb (str_all is_ascii_digit s) || bool_decide (parse_u16 s = None)) segments
  then Err "Release id is not a stable display version"
  else if get_version_number display_version <=? 0 then Err "Release id has invalid display version"
  else Ok display_version.

Section libs.
Context `{!UpdateLibs}.

Definition release_id_from_update_url (update_url : string) : result string string :=
  let? u := ok_or (url_parse update_url) "relative URL without a base" in
  let? _ := ensure (bool_decide (scheme u = "https") && bool_decide (host_str u = Some "github.com"))
    "Update URL is not a GitHub HTTPS release URL" in
  let? _ := ensure (negb (url_has_explicit_port update_url || bool_decide (is_Some (port u))
                || negb (is_empty (username u)) || bool_decide (is_Some (password u))))
    "Update URL must not contain credentials or an explicit port" in
  let? _ := ensure (negb (bool_decide (is_Some (query u)) || bool_decide (is_Some (fragment u))))
    "Update URL must not contain query or fragment" in
  let? segments := ok_or (path_segments u) "Update URL has no path" in
  let? id := match drop 4 segments with
             | id :: rest =>
                 if bool_decide (take 4 segments = ["rustdesk"; "rustdesk"; "releases"; "tag"]) &&
                    bool_decide (rest = [] ∨ rest = [""])
                 then Ok id else Err "Update URL is not a RustDesk release tag URL"
             | [] => Err "Update URL is not a RustDesk release tag URL"
             end in
  let? _ := ensure (negb (is_empty id || (id ==s ".") || (id ==s "..") ||
                existsb (λ c, contains c id) [" "; "/"; "\"; "?"; "#"]%char || contains "%" id))
    "Update URL has no release id" in
  Ok id.

(** [process_software_update_check_response]; the state is [SOFTWARE_UPDATE_URL]. *)
Definition process_software_update_check_response (VERSION : string) (response : bytes) (url : string)
    : string * result unit string :=
  match version_check_json response with
  | None => (url, Err "invalid JSON")
  | Some response_url =>
      match result_bind (release_id_from_update_url response_url) display_version_from_release_id with
      | Err e => (url, Err e)
      | Ok latest =>
          ((if get_version_number VERSION <? get_version_number latest then response_url else ""), Ok tt)
      end
  end.

(** [do_check_software_update], after the server answered. *)
Definition do_check_software_update (VERSION : string) (answer : result bytes string) (url : string)
    : string * result unit string :=
  let '(url, r) := match answer with
                   | Ok response => process_software_update_check_response VERSION response url
                   | Err e => (url, Err e)
                   end in
  match r with Ok _ => (url, r) | Err _ => ("", r) end.

(** ** Artifacts (update_metadata/artifact.rs) *)
Inductive ArtifactUrlPolicy : Type := ExactPrefix (prefix : string) | SignedHttps.

Definition validate_artifact_file_name (name : string) : result unit string :=
  ensure (negb (is_empty name || (name ==s ".") || (name ==s "..") ||
                negb (str_all (λ c, is_ascii_alphanumeric c || bool_decide (c ∈ ["."; "_"; "-"]%char)) name)))
    "invalid update artifact file name".

Definition is_sha256_hex (value : string) : bool :=
  (str_len value =? 64) && str_all is_ascii_hexdigit value.

Definition validate_artifact_url_policy (artifact : UpdateArtifact) (parsed : Url) (policy : ArtifactUrlPolicy)
    : result unit string :=
  match policy with
  | ExactPrefix prefix =>
      ensure (bool_decide (url artifact = prefix +:+ file_name artifact))
        "update artifact URL is outside expected release prefix"
  | SignedHttps =>
      ensure (bool_decide (scheme parsed = "https") && bool_decide (is_Some (host_str parsed))
              && is_empty (username parsed) && bool_decide (password parsed = None))
        "signed update artifact URL must be an HTTPS URL without credentials"
  end.

Definition validate_artifact (artifact : UpdateArtifact) (policy : ArtifactUrlPolicy) : result unit string :=
  let? _ := validate_artifact_file_name (file_name artifact) in
  let? _ := ensure (is_sha256_hex (sha256 artifact)) "invalid update artifact sha256" in
  let? parsed := ok_or (url_parse (url artifact)) "invalid update artifact URL" in
  let? _ := ensure (negb (bool_decide (is_Some (query parsed)) || bool_decide (is_Some (fragment parsed))))
    "update artifact URL must not contain query or fragment" in
  let? _ := validate_artifact_url_policy artifact parsed policy in
  let? basename := ok_or (path_segments parsed ≫= last) "update artifact URL has no basename" in
  ensure (bool_decide (basename = file_name artifact)) "update artifact URL basename mismatch".

(** ** Metadata (update_metadata.rs) *)
Record VerificationOptions : Type := mkOptions {
  expected_version : string;
  expected_release_id : string;
  query_artifact : UpdateArtifactQuery;
  expected_package_id : string;
  artifact_url_policy : ArtifactUrlPolicy;
  trusted_keys : list TrustedUpdateKey;
}.

Definition validate_signature_schema (s : UpdateSignature) : result unit string :=
  let? _ := ensure (sig_schema_version s =? SIGNATURE_SCHEMA_VERSION) "unsupported update signature schema version" in
  ensure (bool_decide (algorithm s = SIGNATURE_ALGORITHM)) "unsupported update signature algorithm".

Definition decode_signature (encoded : string) : result bytes string :=
  let? decoded := ok_or (base64_decode encoded) "invalid update signature base64" in
  let? _ := ensure ((len decoded =? 64) && bool_decide (base64_encode decoded = encoded))
    "invalid update signature length or encoding" in
  ok_or (signature_from_bytes decoded) "invalid update signature bytes".

Definition verify_metadata_signature (metadata signature : bytes) (key : TrustedUpdateKey) : result unit string :=
  let? _ := ensure sodium_init "failed to initialize sodiumoxide" in
  ensure (verify_detached signature (UPDATE_METADATA_SIGNATURE_CONTEXT ++ metadata) (public_key key))
    "invalid update metadata signature".

Fixpoint validate_file_names (l : list UpdateArtifact) : result unit string :=
  match l with
  | [] => Ok tt
  | a :: l => let? _ := validate_artifact_file_name (file_name a) in validate_file_names l
  end.

Definition validate_metadata (m : UpdateMetadata) (s : UpdateSignature) (o : VerificationOptions)
    : result unit string :=
  let? _ := ensure (schema_version m =? METADATA_SCHEMA_VERSION) "unsupported update metadata schema version" in
  let? _ := ensure (bool_decide (signature_key_id m = key_id s)) "update metadata signature key id mismatch" in
  let? _ := ensure (bool_decide (app m = UPDATE_APP)) "update metadata app mismatch" in
  let? _ := ensure (bool_decide (package_id m = expected_package_id o)) "update metadata package id is not allowed" in
  let? _ := ensure (bool_decide (expected_version o = version m)) "update metadata version mismatch" in
  let? _ := ensure (bool_decide (expected_release_id o = release_id m)) "update metadata release id mismatch" in
  validate_file_names (artifacts m).

Definition asked_for (q : UpdateArtifactQuery) (a : UpdateArtifact) : bool :=
  bool_decide (platform a = q_platform q) && bool_decide (arch a = q_arch q) && bool_decide (format a = q_format q).

Definition select_artifact (m : UpdateMetadata) (q : UpdateArtifactQuery) : result UpdateArtifact string :=
  match filter (λ a, asked_for q a = true) (artifacts m) with
  | [] => Err "matching update artifact not found"
  | [a] => Ok a
  | _ => Err "multiple matching update artifacts found"
  end.

Definition trusted_key (s : UpdateSignature) (keys : list TrustedUpdateKey) : option TrustedUpdateKey :=
  head (filter (λ k, trusted_key_id k = key_id s ∧ trusted_algorithm k = algorithm s) keys).

Definition verify_update_metadata_with_options (metadata_bytes signature_bytes : bytes) (o : VerificationOptions)
    : result VerifiedUpdateArtifact string :=
  let? s := ok_or (signature_json signature_bytes) "invalid update signature JSON" in
  let? _ := validate_signature_schema s in
  let? sig := decode_signature (signature s) in
  let? key := ok_or (trusted_key s (trusted_keys o)) "unsupported update signature key" in
  let? _ := verify_metadata_signature metadata_bytes sig key in
  let? m := ok_or (metadata_json metadata_bytes) "invalid update metadata JSON" in
  let? _ := validate_metadata m s o in
  let? a := select_artifact m (query_artifact o) in
  let? _ := validate_artifact a (artifact_url_policy o) in
  Ok (mkVerified (version m) (url a) (file_name a) (size a) (sha256 a)).

Definition verify_update_metadata (metadata_bytes signature_bytes : bytes)
    (version release_id prefix : string) (q : UpdateArtifactQuery) : result VerifiedUpdateArtifact string :=
  verify_update_metadata_with_options metadata_bytes signature_bytes
    (mkOptions version release_id q PUBLIC_UPDATE_PACKAGE_ID (ExactPrefix prefix) TRUSTED_UPDATE_KEYS).

(** ** Updates from a file (update_metadata/offline.rs) *)
Definition verify_offline_update_metadata_with_options (metadata_bytes signature_bytes : bytes)
    (local_file_name package_id : string) (q : UpdateArtifactQuery) (keys : list TrustedUpdateKey)
    : result VerifiedUpdateArtifact string :=
  let? header := ok_or (header_json metadata_bytes) "invalid update metadata JSON" in
  let '(version, release_id) := header in
  let? expected := display_version_from_release_id release_id in
  let? _ := ensure (bool_decide (version = expected)) "offline update metadata version and release id mismatch" in
  let? a := verify_update_metadata_with_options metadata_bytes signature_bytes
        (mkOptions expected release_id q package_id SignedHttps keys) in
  let? _ := ensure (bool_decide (v_file_name a = local_file_name)) "local update file name does not match signed metadata" in
  Ok a.

Definition verify_offline_update_metadata (metadata_bytes signature_bytes : bytes)
    (local_file_name package_id : string) (q : UpdateArtifactQuery) : result VerifiedUpdateArtifact string :=
  verify_offline_update_metadata_with_options metadata_bytes signature_bytes local_file_name package_id q
    TRUSTED_UPDATE_KEYS.
End libs.

End UpdateMetadata.
