(* ===== verification/UpdateDownload.v ===== *)
(** * Downloading an update

    client/src/updater/download.rs and update_hash.rs: the file in the cache, the
    download beside it, and the check of size and hash before it takes the place.  The
    file system is that of FileSystem.v, where any call may fail; the hash, as the text
    that is compared, and the random numbers are parameters. *)
From S2P Require Import Prelude RustStd RecordUpdate FileSystem UpdateMetadata.
From Stdlib Require Import Ascii.
Import FileSystem.

Module UpdateDownload.
Abbreviation bytes := (list byte).

Definition SHA256_HEX_LENGTH : Z := 64.
Definition UPDATE_FILE_CREATE_ATTEMPTS : nat := 16.

(** [to_ascii_lowercase] *)
Definition lower (c : ascii) : ascii :=
  let n := UpdateMetadata.char_code c in
  if UpdateMetadata.between 65 90 n then ascii_of_N (Z.to_N (n + 32)) else c.
Fixpoint to_ascii_lowercase (s : string) : string :=
  match s with EmptyString => "" | String c s => String (lower c) (to_ascii_lowercase s) end.

(** What the server answers: the status, and the pieces of the body until it ends or
    breaks. *)
Record Response : Type := mkResponse { success : bool; body : list bytes; broken : bool }.

(** [take]: no more than [n] bytes are read. *)
Fixpoint limit (n : nat) (chunks : list bytes) : list bytes :=
  match n, chunks with
  | O, _ | _, [] => []
  | _, c :: chunks => if (n <=? length c)%nat then [take n c] else c :: limit (n - length c) chunks
  end.
Definition take_response (n : Z) (r : Response) : Response :=
  mkResponse (success r) (limit (Z.to_nat n) (body r)) (broken r && (len (mjoin (body r)) <? n)).

Section download.
Context (sha256_hex : bytes → string).

(** *** update_hash.rs *)

(** The rest of the file. *)
Definition read_rest (h : Handle) : M Fs bytes :=
  syscall (λ fs, Ok (drop (h_offset h) (content (inode fs (h_ino h))), fs)).

Definition sha256_reader_hex (h : Handle) : M Fs string :=
  d ← read_rest h; mret (sha256_hex d).

Definition expected_hex (expected_sha256 : string) : string := to_ascii_lowercase (RustStd.trim expected_sha256).

Definition verify_sha256_reader (h : Handle) (expected_sha256 : string) : M Fs () :=
  let expected := expected_hex expected_sha256 in
  if negb (str_len expected =? SHA256_HEX_LENGTH) || negb (UpdateMetadata.str_all UpdateMetadata.is_ascii_hexdigit expected)
  then bail "Expected update file SHA256 is malformed"
  else
    h ← seek h 0;
    r ← try (sha256_reader_hex h);
    match r with
    | Err e => seek h 0;; fail e
    | Ok actual =>
        seek h 0;;
        if actual ==s expected then mret tt else bail "SHA256 mismatch"
    end.

(** *** updater/download.rs *)
Definition verify_file_sha256 (path expected_sha256 : string) : M Fs () :=
  h ← open_read path;
  match h with
  | Some h => verify_sha256_reader h expected_sha256
  | None => if negb (str_len (expected_hex expected_sha256) =? SHA256_HEX_LENGTH)
                 || negb (UpdateMetadata.str_all UpdateMetadata.is_ascii_hexdigit (expected_hex expected_sha256))
            then bail "Expected update file SHA256 is malformed" else fail (Io IsADirectory)
  end.

Definition remove_cached_update_artifact (path : string) : M Fs () :=
  md ← try (symlink_metadata path);
  match md with
  | Err (Io NotFound) => mret tt
  | Err e => fail e
  | Ok md => if is_file md || is_symlink md then remove_file path
             else bail "Refusing to remove update cache path that is not a file"
  end.

Definition cached_update_artifact_size (path : string) : M Fs (option Z) :=
  md ← try (symlink_metadata path);
  match md with
  | Err (Io NotFound) => mret None
  | Err e => fail e
  | Ok md =>
      if is_file md then mret (Some (md_len md))
      else if is_symlink md then remove_cached_update_artifact path;; mret None
      else bail "Refusing to use update cache path that is not a regular file"
  end.

Definition remove_update_file (path : string) : M Fs () := r ← try (remove_file path); mret tt.

Definition temp_name (file_name : string) (pid random : Z) : string :=
  "." +:+ file_name +:+ "." +:+ uint_to_string pid +:+ "." +:+ uint_to_string random +:+ ".download".

Fixpoint try_temp_files (dir file_name : string) (pid : Z) (attempts : nat) (randoms : list Z)
    : M Fs (Handle * string) :=
  match attempts with
  | O => bail "Failed to create temporary update file"
  | S attempts =>
      let temp_path := path_join dir (temp_name file_name pid (default 0 (head randoms))) in
      r ← try (open_create_new temp_path);
      match r with
      | Ok h => mret (h, temp_path)
      | Err (Io AlreadyExists) => try_temp_files dir file_name pid attempts (tail randoms)
      | Err e => fail e
      end
  end.

Definition create_download_temp_file (pid : Z) (randoms : list Z) (final_path : string) : M Fs (Handle * string) :=
  download_dir ← unwrap "Update file has no parent directory" (path_parent final_path);
  file_name ← unwrap "Update file has no file name" (path_file_name final_path);
  try_temp_files download_dir file_name pid UPDATE_FILE_CREATE_ATTEMPTS randoms.

(** [std::io::copy]: the bytes written. *)
Fixpoint copy (h : Handle) (chunks : list bytes) (broken : bool) (written : Z) : M Fs Z :=
  match chunks with
  | [] => if broken then fail (Io OtherError) else mret written
  | c :: chunks =>
      p ← write_some h c;
      _ ← of_result p.2;
      copy p.1 chunks broken (written + len c)
  end.

Definition copy_and_verify_update_artifact (h : Handle) (r : Response) (expected_size : Z) (expected_sha256 : string)
    : M Fs () :=
  bytes_written ← copy h (body r) (broken r) 0;
  flush;;
  if negb (bytes_written =? expected_size) then bail "Update artifact size mismatch"
  else verify_sha256_reader h expected_sha256.

Definition write_verified_update_artifact (pid : Z) (randoms : list Z) (final_path : string) (r : Response)
    (expected_size : Z) (expected_sha256 : string) : M Fs () :=
  p ← create_download_temp_file pid randoms final_path;
  let temp_path := p.2 in
  v ← try (copy_and_verify_update_artifact p.1 r expected_size expected_sha256);
  match v with
  | Err e => remove_update_file temp_path;; fail e
  | Ok _ =>
      v ← try (remove_cached_update_artifact final_path);
      match v with
      | Err e => remove_update_file temp_path;; fail e
      | Ok _ =>
          v ← try (rename temp_path final_path);
          match v with
          | Err e => remove_update_file temp_path;; fail e
          | Ok _ => mret tt
          end
      end
  end.

(** The cache decides whether there is something to download. *)
Definition use_cached_update_artifact (file_path : string) (expected_size : Z) (expected_sha256 : string) : M Fs bool :=
  cached ← cached_update_artifact_size file_path;
  match cached with
  | Some file_size =>
      if file_size =? expected_size then
        v ← try (verify_file_sha256 file_path expected_sha256);
        match v with
        | Ok _ => mret true
        | Err _ => remove_cached_update_artifact file_path;; mret false
        end
      else remove_cached_update_artifact file_path;; mret false
  | None => mret false
  end.

Definition ensure_verified_update_artifact (http : string → result Response Error) (pid : Z) (randoms : list Z)
    (download_url file_path : string) (expected_size : Z) (expected_sha256 : string) : M Fs () :=
  done ← use_cached_update_artifact file_path expected_size expected_sha256;
  if done : bool then mret tt
  else
    response ← of_result (http download_url);
    if negb (success response) then bail "Failed to download the new version file"
    else write_verified_update_artifact pid randoms file_path
           (take_response (saturating_add u64_max expected_size 1) response) expected_size expected_sha256.
End download.

End UpdateDownload.
