(* ===== verification/UpdateDownloadProofs.v ===== *)
(** * The downloaded update is the signed one

    Whatever the server sends and whichever calls of the file system fail, a file is
    handed on only with the size and the hash that were signed, and nothing but the
    file of the cache and the download beside it is touched. *)
From S2P Require Import Prelude RustStd RecordUpdate FileSystem FileSystemProofs FileTransferProofs.
From S2P Require Import FileDelivery UpdateMetadata UpdateDownload.
From Stdlib Require Import Ascii.
Import FileSystem FileSystemProofs UpdateDownload.
Import FileTransferProofs (same, same_refl, same_trans, reads, reads_ok, bind_ok, syscall_ok, syscall_err,
  reads_syscall, reads_bind, reads_try, reads_seek, reads_flush, reads_fail, reads_ret, resolve_same, stat_not_found).
Import FileDelivery (path_of, path_of_join, inode_put, inode_put_ne, splice_end).

Module UpdateDownloadProofs.

(** ** What a computation ends in *)
Definition run {S A} (m : M S A) (fs : S) (Q : A → S → Prop) (E : S → Prop) : Prop :=
  match m fs with (Ok a, fs') => Q a fs' | (Err _, fs') => E fs' end.

Lemma run_bind {S A B} (m : M S A) (k : A → M S B) fs (P : A → S → Prop) Q E :
  run m fs P E → (∀ a fs', P a fs' → run (k a) fs' Q E) → run (m ≫= k) fs Q E.
Proof. unfold run, mbind, m_bind. intros H Hk. destruct (m fs) as [[a|e] fs']; [by apply Hk|done]. Qed.

Lemma run_mono {S A} (m : M S A) fs (P Q : A → S → Prop) (E F : S → Prop) :
  run m fs P E → (∀ a fs', P a fs' → Q a fs') → (∀ fs', E fs' → F fs') → run m fs Q F.
Proof. unfold run. intros H HQ HF. destruct (m fs) as [[a|e] fs']; auto. Qed.

Lemma run_try_value {S A} (m : M S A) fs (P : A → S → Prop) E F :
  run m fs P E → run (try m) fs (λ r fs', match r with Ok a => P a fs' | Err _ => E fs' end) F.
Proof. unfold run, try. by destruct (m fs) as [[a|e] fs']. Qed.

Lemma run_try_bind {S A B} (m : M S A) (k : result A Error → M S B) fs (P : A → S → Prop) E Q F :
  run m fs P E → (∀ a fs', P a fs' → run (k (Ok a)) fs' Q F) → (∀ e fs', E fs' → run (k (Err e)) fs' Q F) →
  run (try m ≫= k) fs Q F.
Proof. intros H Hk He. eapply run_bind; [apply (run_try_value _ _ _ _ F H)|]. intros [a|e] fs'; cbn; auto. Qed.

Lemma run_ret {S A} (a : A) fs (Q : A → S → Prop) E : Q a fs → run (mret a) fs Q E.
Proof. done. Qed.
Lemma run_fail {S A} e fs (Q : A → S → Prop) (E : S → Prop) : E fs → run (fail e) fs Q E.
Proof. done. Qed.

(** A computation that only reads. *)
Lemma run_reads {A} (m : M Fs A) g fs : reads m → same g fs → run m fs (λ _, same g) (same g).
Proof.
  intros Hm Hg. unfold run. specialize (Hm fs). destruct (m fs) as [[a|e] fs']; by eapply same_trans.
Qed.

Lemma run_syscall {A} (f : Fs → result (A * Fs) ErrorKind) g fs (Q : A → Fs → Prop) :
  same g fs → (∀ fs1 a fs', same g fs1 → f fs1 = Ok (a, fs') → Q a fs') → run (syscall f) fs Q (same g).
Proof.
  intros Hg HQ. unfold run. destruct (syscall f fs) as [[a|e] fs'] eqn:E.
  - apply syscall_ok in E as (fs1 & Hs & E). eapply HQ; [|exact E]. by eapply same_trans.
  - apply syscall_err in E as [Hs _]. by eapply same_trans.
Qed.

Lemma same_with_nodes g fs n : same g fs → same (g <| nodes := n |>) (fs <| nodes := n |>).
Proof. intros []. by split. Qed.

(** ** The folder of the cache

    [file_path] is the name [leaf] in the directory [PL]; the way there does not lead
    through the file itself. *)
Section Place.
Context (cs : list Component) (leaf : string) (PL : Loc) (N0 : nmap) (file_path : string).
Context (Hpath : path_of cs file_path leaf).
Local Abbreviation FINAL := (PL ++ [leaf]).
Local Abbreviation core := (delete FINAL N0).
Context (Hway : walk core MAX_LINKS [] (RootDir :: cs) true = Ok PL) (Hdir : N0 !! PL = Some Dir).

Lemma final_not_PL : FINAL ≠ PL.
Proof. intros H%(f_equal length). rewrite length_app in H. cbn in H. lia. Qed.

Lemma core_dir : core !! PL = Some Dir.
Proof. rewrite lookup_delete_ne; [done|apply final_not_PL]. Qed.

Lemma resolve_name fs q s f :
  core ⊆ nodes fs → path_of cs q s → (f = true → ¬ is_link (nodes fs !! (PL ++ [s]))) →
  resolve fs q f = Ok (PL ++ [s]).
Proof.
  intros Hc (Ha & Hs & Ht) Hl. unfold resolve, segments. change (starts_with "/" q) with (absolute q).
  rewrite Ha, (components_absolute q Ha), Hs, Ht, app_nil_r.
  destruct (is_empty q) eqn:E; [apply is_empty_true in E as ->; done|]. rewrite app_comm_cons.
  assert (walk (nodes fs) MAX_LINKS [] (RootDir :: cs) true = Ok PL) as Hw.
  { apply (walk_mono core); [done|done|]. rewrite core_dir. by eexists. }
  destruct (walk_app (nodes fs) MAX_LINKS [] (RootDir :: cs) [Normal s] f PL) as [n ->]; [done..|].
  rewrite walk_unfold, (lookup_weaken _ _ _ _ core_dir Hc).
  destruct (nodes fs !! (PL ++ [s])) as [[|i|t]|]; try by rewrite walk_nil.
  destruct f; [|done]. by destruct Hl; [|eexists].
Qed.

Lemma resolve_final fs : core ⊆ nodes fs → resolve fs file_path false = Ok FINAL.
Proof. intros. by apply resolve_name. Qed.

Lemma core_delete g : core ⊆ nodes g → core ⊆ delete FINAL (nodes g).
Proof. intros H. rewrite <- (delete_delete_eq N0 FINAL). by apply delete_mono. Qed.

(** Removing the file of a name in the folder. *)
Definition without (g : Fs) (s : string) : Fs := g <| nodes := delete (PL ++ [s]) (nodes g) |>.
Definition gone (g : Fs) : Fs := without g leaf.

Lemma run_remove_file g fs q s :
  core ⊆ nodes g → same g fs → path_of cs q s → run (remove_file q) fs (λ _, same (without g s)) (same g).
Proof.
  intros Hc Hg Hq. apply run_syscall; [done|]. intros fs1 [] fs' Hs H.
  apply result_bind_ok in H as (l & Hl & H). rewrite (resolve_same g fs1), (resolve_name g q s) in Hl by done.
  injection Hl as <-. unfold without. destruct Hs as [Hn ?]. rewrite Hn in H.
  destruct (nodes g !! (PL ++ [s])) as [[| |]|]; simplify_eq; by split.
Qed.

Lemma symlink_metadata_final g fs :
  core ⊆ nodes g → same g fs →
  match symlink_metadata file_path fs with
  | (Ok md, fs') => same g fs' ∧ node_metadata g FINAL = Ok md
  | (Err (Io NotFound), fs') => same g fs' ∧ nodes g !! FINAL = None
  | (Err _, fs') => same g fs'
  end.
Proof.
  intros Hc Hg. destruct (symlink_metadata file_path fs) as [[md|e] fs'] eqn:E.
  - apply syscall_ok in E as (fs1 & Hs & E). apply result_bind_ok in E as (l & Hl & E).
    apply result_bind_ok in E as (md' & Hm & E). simplify_eq.
    assert (same g fs') as Hg' by (by eapply same_trans). split; [done|].
    rewrite (resolve_same g fs'), resolve_final in Hl by done. injection Hl as <-.
    destruct Hg' as [Hn Hi]. unfold node_metadata, file_metadata, inode in *. by rewrite Hn, Hi in Hm.
  - pose proof (syscall_err _ _ _ _ E) as [Hs _].
    assert (same g fs') as Hg' by (by eapply same_trans).
    destruct e as [[]|]; try done. split; [done|]. apply stat_not_found in E.
    rewrite (resolve_same g fs), resolve_final in E by done. destruct E as [?|(l & [= <-] & E)]; [done|].
    by rewrite (FileTransferProofs.same_nodes _ _ Hg) in E.
Qed.

Lemma same_gone_none g fs : nodes g !! FINAL = None → same g fs → same (gone g) fs.
Proof. intros Hn []. split; cbn; try done. by rewrite delete_id. Qed.

Lemma run_remove_cached g fs :
  core ⊆ nodes g → same g fs → run (remove_cached_update_artifact file_path) fs (λ _, same (gone g)) (same g).
Proof.
  intros Hc Hg. unfold remove_cached_update_artifact, run, mbind at 1, m_bind at 1, try at 1.
  pose proof (symlink_metadata_final g fs Hc Hg) as H.
  destruct (symlink_metadata file_path fs) as [[md|[[]|]] fs'];
    try exact H; try (destruct H as [H Hn]; by apply same_gone_none).
  destruct H as [H _]. destruct (is_file md || is_symlink md); [|exact H]. by apply run_remove_file.
Qed.

(** ** The hash *)
Section Hash.
Context (sha256_hex : bytes → string).

Lemma reads_read_rest h : reads (read_rest h).
Proof. apply reads_syscall. intros fs a fs' H. by simplify_eq. Qed.

Lemma reads_verify h e : reads (verify_sha256_reader sha256_hex h e).
Proof.
  unfold verify_sha256_reader. case_match; [apply reads_fail|].
  apply reads_bind; [apply reads_seek|intros h']. apply reads_bind.
  - apply reads_try, reads_bind; [apply reads_read_rest|intros ?; apply reads_ret].
  - intros [a|?]; (apply reads_bind; [apply reads_seek|intros ?]); [|apply reads_fail].
    destruct (a ==s _); [apply reads_ret|apply reads_fail].
Qed.

Lemma inode_same g fs i : same g fs → inode fs i = inode g i.
Proof. intros []. unfold inode. congruence. Qed.

Definition has_hash (e : string) (d : bytes) : Prop := sha256_hex d = expected_hex e.

Lemma run_verify g fs h e :
  same g fs →
  run (verify_sha256_reader sha256_hex h e) fs (λ _ fs', same g fs' ∧ has_hash e (content (inode g (h_ino h)))) (same g).
Proof.
  intros Hg. unfold run. pose proof (reads_verify h e fs) as Hr.
  destruct (verify_sha256_reader sha256_hex h e fs) as [[[]|?] fs'] eqn:E; [|by eapply same_trans].
  split; [by eapply same_trans|]. unfold verify_sha256_reader in E. case_match; [done|].
  apply bind_ok in E as (h' & fs1 & E1 & E). apply bind_ok in E as (r & fs2 & E2 & E).
  pose proof (reads_ok _ _ _ _ (reads_seek h 0) E1) as H1.
  apply syscall_ok in E1 as (fs3 & _ & [= <- <-]).
  unfold try, sha256_reader_hex, mbind at 1, m_bind at 1 in E2.
  destruct (read_rest _ _) as [[d|?] fs4] eqn:Ed; cbn in E2; simplify_eq;
    [|apply bind_ok in E as (? & ? & _ & E); done].
  apply syscall_ok in Ed as (fs5 & H5 & [= <- _]). cbn in E.
  apply bind_ok in E as (? & ? & _ & E). case_match eqn:Ec; [|done]. apply eqb_str_true in Ec.
  unfold has_hash. rewrite <- Ec. cbn. f_equal. rewrite drop_0. f_equal. symmetry.
  apply inode_same. eapply same_trans; [exact Hg|]. by eapply same_trans.
Qed.

(** *** The cache *)
Lemma run_cached_size g fs :
  core ⊆ nodes g → same g fs →
  run (cached_update_artifact_size file_path) fs
    (λ o fs', match o with
              | Some n => same g fs' ∧ ∃ i, nodes g !! FINAL = Some (File i) ∧ n = len (content (inode g i))
              | None => same (gone g) fs'
              end) (same g).
Proof.
  intros Hc Hg. unfold cached_update_artifact_size, run, mbind at 1, m_bind at 1, try at 1.
  pose proof (symlink_metadata_final g fs Hc Hg) as H.
  destruct (symlink_metadata file_path fs) as [[md|[[]|]] fs'];
    try exact H; try (destruct H as [H Hn]; by apply same_gone_none).
  destruct H as [H Hm]. unfold is_file, is_symlink. unfold node_metadata in Hm.
  destruct (nodes g !! FINAL) as [[|i|t]|] eqn:En; simplify_eq; cbn; [exact H|split; [done|by exists i]|].
  unfold mbind, m_bind. pose proof (run_remove_cached g fs' Hc H) as Hr. unfold run in Hr.
  by destruct (remove_cached_update_artifact _ _) as [[|] ?].
Qed.

Lemma run_open_read g fs i :
  core ⊆ nodes g → same g fs → nodes g !! FINAL = Some (File i) →
  run (open_read file_path) fs (λ o fs', same g fs' ∧ o = Some (mkHandle i 0)) (same g).
Proof.
  intros Hc Hg Hi. apply run_syscall; [done|]. intros fs1 o fs' Hs H.
  apply result_bind_ok in H as (l & Hl & H).
  rewrite (resolve_same g fs1), (resolve_name g _ leaf) in Hl by (done || (intros _; rewrite Hi; by intros [? ?])).
  injection Hl as <-. rewrite (FileTransferProofs.same_nodes _ _ Hs), Hi in H. simplify_eq. done.
Qed.

(** At the end of the path is a file of the size and the hash asked for. *)
Definition verified (size : Z) (e : string) (d : bytes) : Prop := len d = size ∧ has_hash e d.

Lemma run_use_cached g fs size e :
  core ⊆ nodes g → same g fs →
  run (use_cached_update_artifact sha256_hex file_path size e) fs
    (λ b fs', if b : bool
              then same g fs' ∧ ∃ i, nodes g !! FINAL = Some (File i) ∧ verified size e (content (inode g i))
              else same (gone g) fs')
    (same g).
Proof.
  intros Hc Hg. unfold use_cached_update_artifact.
  eapply run_bind; [by apply run_cached_size|]. intros [n|] fs1; cbn; [|intros H; exact H].
  intros (H1 & i & Hi & ->).
  assert (∀ fs, same g fs → run (remove_cached_update_artifact file_path;; mret false) fs
    (λ b fs', if b : bool then same g fs' ∧ ∃ i, nodes g !! FINAL = Some (File i) ∧ verified size e (content (inode g i))
              else same (gone g) fs') (same g)) as Hrm.
  { intros fs2 H2. eapply run_bind; [by apply run_remove_cached|]. by intros [] ? H. }
  destruct (len _ =? size) eqn:El; [apply Z.eqb_eq in El|by apply Hrm].
  eapply (run_try_bind _ _ _ (λ _ fs', same g fs' ∧ has_hash e (content (inode g i))) (same g)).
  - unfold verify_file_sha256. eapply run_bind; [by apply (run_open_read g _ i)|].
    intros o fs' [H ->]. eapply run_mono; [by apply run_verify|done|done].
  - intros [] fs' [H Hh]. split; [done|]. by exists i.
  - intros ? fs' H. by apply Hrm.
Qed.

(** *** The download *)

(** A new empty file. *)
Definition with_new (g : Fs) (s : string) : Fs :=
  g <| nodes := <[PL ++ [s] := File (next_ino g)]> (nodes g) |>
    <| inodes := <[next_ino g := mkInode [] (clock g)]> (inodes g) |>
    <| next_ino := S (next_ino g) |>.

Lemma run_create_new g fs q s :
  core ⊆ nodes g → same g fs → path_of cs q s →
  run (open_create_new q) fs
    (λ h fs', h = mkHandle (next_ino g) 0 ∧ nodes g !! (PL ++ [s]) = None ∧ same (with_new g s) fs') (same g).
Proof.
  intros Hc Hg Hq. apply run_syscall; [done|]. intros fs1 h fs' Hs H.
  apply result_bind_ok in H as (l & Hl & H). rewrite (resolve_same g fs1), (resolve_name g _ s) in Hl by done.
  injection Hl as <-. destruct Hs as [Hn Hi Hx Hw Hk]. unfold new_file in H. rewrite Hn, Hx, Hi, Hk in H.
  destruct (nodes g !! (PL ++ [s])); [done|]. case_bool_decide; [|done]. simplify_eq. by split_and!.
Qed.

Lemma contains_append c a b : contains c (a +:+ b) = contains c a || contains c b.
Proof.
  induction a as [|x a IH]; [done|]. change (String x a +:+ b) with (String x (a +:+ b)). cbn [contains].
  by rewrite IH, orb_assoc.
Qed.

Lemma temp_name_ok pid r : name_ok (temp_name leaf pid r) ∧ temp_name leaf pid r ≠ leaf.
Proof.
  assert (contains "/" leaf = false) as Hl.
  { destruct Hpath as (_ & Hs & _). pose proof (segc_ok file_path) as Hok. rewrite Hs in Hok.
    by apply Forall_app in Hok as [_ [(_ & _ & _ & ?) _]%Forall_cons]. }
  unfold temp_name.
  set (t := "." +:+ uint_to_string pid +:+ "." +:+ uint_to_string r +:+ ".download").
  assert (9 ≤ String.length t)%nat as Ht.
  { unfold t. rewrite !append_length. cbn [String.length]. lia. }
  assert (String.length ("." +:+ leaf +:+ t) = S (String.length leaf + String.length t)) as Hlen.
  { rewrite !append_length. done. }
  assert (contains "/" ("." +:+ leaf +:+ t) = false) as Hc.
  { unfold t. rewrite !contains_append, !uint_to_string_no_char, Hl by done. done. }
  split; [split_and!|]; [..|exact Hc|]; intros H; rewrite H in Hlen; cbn [String.length] in Hlen; lia.
Qed.

Lemma run_temp_file g fs pid randoms :
  core ⊆ nodes g → same g fs →
  run (create_download_temp_file pid randoms file_path) fs
    (λ p fs', ∃ s, s ≠ leaf ∧ path_of cs p.2 s ∧ p.1 = mkHandle (next_ino g) 0 ∧
                   nodes g !! (PL ++ [s]) = None ∧ same (with_new g s) fs') (same g).
Proof.
  intros Hc Hg. pose proof Hpath as (Ha & Hs & _). unfold create_download_temp_file.
  rewrite (path_parent_absolute _ _ _ Ha Hs), (path_file_name_absolute _ _ _ Ha Hs). cbn [unwrap].
  set (k := UPDATE_FILE_CREATE_ATTEMPTS). clearbody k.
  revert fs Hg randoms. induction k as [|k IH]; intros fs Hg randoms; [done|].
  unfold mbind, m_bind, mret, m_ret. cbn [try_temp_files].
  destruct (temp_name_ok pid (default 0 (head randoms))) as [Hok Hne].
  pose proof (path_of_join file_path leaf cs Hs _ Hok) as Hq.
  eapply run_try_bind; [by eapply run_create_new| |].
  - intros h fs' (-> & Hn & H). by exists (temp_name leaf pid (default 0 (head randoms))).
  - intros e fs' H. destruct e as [[]|]; try exact H. by apply IH.
Qed.

(** The bytes of the new file. *)
Definition with_data (g : Fs) (i : nat) (d : bytes) (t : Z) : Fs :=
  g <| inodes := <[i := mkInode d t]> (inodes g) |>.

Lemma run_copy g i chunks b : ∀ fs h d t w,
  h_ino h = i → h_offset h = length d → same (with_data g i d t) fs →
  run (copy h chunks b w) fs
    (λ n fs', n = w + len (mjoin chunks) ∧ ∃ t', same (with_data g i (d ++ mjoin chunks) t') fs')
    (λ fs', ∃ d' t', len d' ≤ len d + len (mjoin chunks) ∧ same (with_data g i d' t') fs').
Proof.
  induction chunks as [|c chunks IH]; intros fs h d t w Hi Ho Hs; cbn [copy].
  { destruct b; [apply run_fail; exists d, t; split; [change (mjoin []) with (@nil byte); rewrite len_nil; lia|done]|apply run_ret].
    change (mjoin []) with (@nil byte). split; [rewrite len_nil; lia|]. exists t. by rewrite app_nil_r. }
  change (mjoin (c :: chunks)) with (c ++ mjoin chunks).
  assert (∀ c' fl, same (with_data g i (d ++ c') (clock g)) (put (fs <| faults := fl |>) (h_ino h) c' (h_offset h))) as Hput.
  { intros c' fl. destruct Hs as [Hn Hx ? ? Hk]. rewrite Hi, Ho.
    assert (content (inode (fs <| faults := fl |>) i) = d) as Hd.
    { unfold inode. cbn. rewrite Hx. cbn. by rewrite lookup_insert_eq. }
    split; cbn; try done. rewrite Hd, splice_end, Hx. cbn. cbn in Hk. rewrite Hk. by rewrite insert_insert_eq. }
  unfold write_some, run, mbind at 1, m_bind at 1.
  destruct (faults fs) as [|[n|] fl] eqn:Ef; cbn [fst snd].
  2: { exists (d ++ take n c), (clock g). split; [|apply Hput]. rewrite !len_app.
       pose proof (len_nonneg (mjoin chunks)). unfold len. rewrite length_take. lia. }
  all: unfold mbind at 1, m_bind at 1, of_result;
    refine (run_mono _ _ _ _ _ _ (IH _ _ (d ++ c) (clock g) _ _ _ (Hput c _)) _ _);
    [done|cbn; rewrite length_app, Ho; done| |].
  1,3: intros n' fs' [-> [t' H]]; split; [rewrite len_app; lia|]; exists t'; by rewrite app_assoc.
  all: intros fs' (d' & t' & Hl & H); exists d', t'; split; [|exact H]; rewrite !len_app in *; lia.
Qed.

Lemma run_copy_and_verify g fs i h r size e :
  h_ino h = i → h_offset h = 0%nat → content (inode g i) = [] → is_Some (inodes g !! i) → same g fs →
  run (copy_and_verify_update_artifact sha256_hex h r size e) fs
    (λ _ fs', ∃ d t, verified size e d ∧ len d ≤ len (mjoin (body r)) ∧ same (with_data g i d t) fs')
    (λ fs', ∃ d t, len d ≤ len (mjoin (body r)) ∧ same (with_data g i d t) fs').
Proof.
  intros Hi Ho Hd [[d t] Hx] Hg. unfold inode in Hd. rewrite Hx in Hd. cbn in Hd. subst d.
  assert (same (with_data g i [] t) fs) as Hg' by (destruct Hg; split; cbn; [done|by rewrite insert_id|done..]).
  unfold copy_and_verify_update_artifact. eapply run_bind.
  { eapply run_mono; [by apply (run_copy g i (body r) (broken r) fs h [] t 0)|intros ?? H; exact H|].
    cbn. intros fs' H. exact H. }
  intros n fs1 [-> [t1 H1]]. cbn [app] in H1. cbn [Z.add] in *.
  assert (∀ fs', same (with_data g i (mjoin (body r)) t1) fs' →
    ∃ d t, len d ≤ len (mjoin (body r)) ∧ same (with_data g i d t) fs') as Herr
    by (intros fs' H; by exists (mjoin (body r)), t1).
  eapply run_bind; [eapply run_mono; [exact (run_reads _ _ _ reads_flush H1)|intros ?? H; exact H|exact Herr]|].
  intros [] fs2 H2. cbn beta. destruct (negb _) eqn:En; [by apply run_fail, Herr|].
  apply negb_false_iff, Z.eqb_eq in En.
  eapply run_mono; [by apply run_verify| |exact Herr]. intros _ fs3 [H3 Hh].
  exists (mjoin (body r)), t1. rewrite Hi in Hh. unfold inode in Hh. cbn in Hh. rewrite lookup_insert_eq in Hh.
  done.
Qed.

Lemma run_remove_update_file g fs q s F :
  core ⊆ nodes g → same g fs → path_of cs q s →
  run (remove_update_file q) fs (λ _ fs', same g fs' ∨ same (without g s) fs') F.
Proof.
  intros Hc Hg Hq. unfold remove_update_file. eapply run_try_bind; [by apply run_remove_file| |].
  - intros a fs' H. apply run_ret. by right.
  - intros e fs' H. apply run_ret. by left.
Qed.

Lemma run_rename g fs q s i :
  core ⊆ nodes g → same g fs → path_of cs q s → nodes g !! (PL ++ [s]) = Some (File i) →
  nodes g !! FINAL = None →
  run (rename q file_path) fs
    (λ _, same (g <| nodes := <[FINAL := File i]> (delete (PL ++ [s]) (nodes g)) |>)) (same g).
Proof.
  intros Hc Hg Hq Hs Hf. apply run_syscall; [done|]. intros fs1 [] fs' H1 H.
  apply result_bind_ok in H as (l & Hl & H). apply result_bind_ok in H as (k & Hk & H).
  rewrite (resolve_same g fs1), (resolve_name g q s) in Hl by done.
  rewrite (resolve_same g fs1), resolve_final in Hk by done. simplify_eq.
  pose proof (FileTransferProofs.same_nodes _ _ H1) as Hn.
  rewrite Hn, Hs, Hf, removelast_last in H. case_bool_decide; [|done]. simplify_eq. by apply same_with_nodes.
Qed.

(** *** What may have changed *)
Section Touched.
Context (g0 : Fs) (H0 : nodes g0 = N0) (bound : Z).
Local Abbreviation ino := (next_ino g0).

(** The file of the cache is as it was or gone, and a new file may be there. *)
Definition nodes_ok (N : nmap) : Prop :=
  (N !! FINAL = N0 !! FINAL ∨ N !! FINAL = None) ∧
  ∀ l, l ≠ FINAL → N !! l = N0 !! l ∨ N0 !! l = None ∧ N !! l = Some (File ino).

(** The data of every file that was there stay, and a new one is not too large. *)
Definition data_ok (fs : Fs) : Prop :=
  (∀ i, i ≠ ino → inodes fs !! i = inodes g0 !! i) ∧
  (next_ino fs = ino ∨ next_ino fs = S ino ∧ len (content (inode fs ino)) ≤ bound).

Lemma nodes_ok_start : nodes_ok N0.
Proof. split; [by left|]. intros l _. by left. Qed.

Lemma nodes_ok_gone N : nodes_ok N → nodes_ok (delete FINAL N).
Proof.
  intros [_ H]. split; [right; apply lookup_delete_eq|]. intros l Hl. rewrite lookup_delete_ne by done. by apply H.
Qed.

Lemma nodes_ok_new N s : s ≠ leaf → N0 !! (PL ++ [s]) = None → nodes_ok N → nodes_ok (<[PL ++ [s] := File ino]> N).
Proof.
  intros Hs Hn [H1 H2]. split.
  - rewrite lookup_insert_ne; [done|]. intros [= ?]%app_inv_head. done.
  - intros l Hl. destruct (decide (l = PL ++ [s])) as [-> |Hne]; [right; by rewrite lookup_insert_eq|].
    rewrite lookup_insert_ne by done. by apply H2.
Qed.

Lemma nodes_ok_without N s : s ≠ leaf → N0 !! (PL ++ [s]) = None → nodes_ok N → nodes_ok (delete (PL ++ [s]) N).
Proof.
  intros Hs Hn [H1 H2]. split.
  - rewrite lookup_delete_ne; [done|]. intros [= ?]%app_inv_head. done.
  - intros l Hl. destruct (decide (l = PL ++ [s])) as [-> |Hne]; [left; by rewrite lookup_delete_eq|].
    rewrite lookup_delete_ne by done. by apply H2.
Qed.

Definition as_before (fs : Fs) : Prop := nodes_ok (nodes fs) ∧ data_ok fs.

Lemma as_before_same N fs : nodes_ok N → same (g0 <| nodes := N |>) fs → as_before fs.
Proof.
  intros HN [Hn Hi Hx _ _]. cbn in *. split; [by rewrite Hn|]. split; [|by left]. intros i _. by rewrite Hi.
Qed.

(** The state with the download, [N] the nodes. *)
Definition downloaded (N : nmap) (d : bytes) (t : Z) : Fs :=
  g0 <| nodes := N |> <| inodes := <[ino := mkInode d t]> (inodes g0) |> <| next_ino := S ino |>.

Lemma downloaded_data N d t fs : len d ≤ bound → same (downloaded N d t) fs → data_ok fs.
Proof.
  intros Hb [_ Hi Hx _ _]. cbn in *. split.
  - intros i Hne. rewrite Hi. by apply lookup_insert_ne.
  - right. split; [done|]. unfold inode. by rewrite Hi, lookup_insert_eq.
Qed.

Lemma downloaded_before N d t fs : nodes_ok N → len d ≤ bound → same (downloaded N d t) fs → as_before fs.
Proof.
  intros HN Hb Hs. split; [|by eapply downloaded_data]. by rewrite (FileTransferProofs.same_nodes _ _ Hs).
Qed.

Lemma same_downloaded N s d t fs :
  same (with_data (with_new (g0 <| nodes := N |>) s) ino d t) fs →
  same (downloaded (<[PL ++ [s] := File ino]> N) d t) fs.
Proof. intros []. split; cbn in *; try done. by rewrite same_inodes, insert_insert_eq. Qed.

(** What is left when something fails after the download. *)
Lemma run_cleanup N d t fs q s e (Q : () → Fs → Prop) :
  core ⊆ N → nodes_ok N → s ≠ leaf → N0 !! (PL ++ [s]) = None → path_of cs q s → len d ≤ bound →
  same (downloaded N d t) fs →
  run (remove_update_file q;; fail e) fs Q as_before.
Proof.
  intros Hc HN Hs Hn Hq Hb Hg. eapply run_bind; [by apply (run_remove_update_file (downloaded N d t) _ _ s)|].
  intros [] fs' Hfs. apply run_fail. destruct Hfs as [H|H].
  - by apply (downloaded_before N d t).
  - apply (downloaded_before (delete (PL ++ [s]) N) d t); [by apply nodes_ok_without|done|exact H].
Qed.

Definition installed (size : Z) (e : string) (fs : Fs) : Prop :=
  ∃ i, nodes fs = <[FINAL := File i]> N0 ∧ verified size e (content (inode fs i)) ∧ data_ok fs.

Lemma run_write pid randoms N1 fs r size e :
  N1 = N0 ∨ N1 = core → len (mjoin (body r)) ≤ bound → same (g0 <| nodes := N1 |>) fs →
  run (write_verified_update_artifact sha256_hex pid randoms file_path r size e) fs
    (λ _, installed size e) as_before.
Proof.
  intros HN1 Hb Hg.
  assert (core ⊆ N1) as Hc by (destruct HN1 as [-> | ->]; [apply delete_subseteq|done]).
  assert (nodes_ok N1) as HN by (destruct HN1 as [-> | ->]; [|apply nodes_ok_gone]; apply nodes_ok_start).
  unfold write_verified_update_artifact.
  eapply run_bind.
  { eapply run_mono; [exact (run_temp_file (g0 <| nodes := N1 |>) _ pid randoms Hc Hg)|intros ?? H; exact H|]. intros fs'. by apply as_before_same. }
  intros [h q] fs1 (s & Hs & Hq & Hh & Hn & H1). cbn [fst snd] in *.
  assert (N0 !! (PL ++ [s]) = None) as Hn0.
  { destruct HN1 as [-> | ->]; [done|]. cbn in Hn. rewrite lookup_delete_ne in Hn; [done|].
    intros [= ?]%app_inv_head. done. }
  set (N2 := <[PL ++ [s] := File ino]> N1).
  assert (core ⊆ N2 ∧ nodes_ok N2) as [Hc2 HN2].
  { split; [|by apply nodes_ok_new]. etrans; [exact Hc|]. by apply insert_subseteq. }
  eapply run_try_bind.
  - apply (run_copy_and_verify (with_new (g0 <| nodes := N1 |>) s) fs1 ino h r size e); try (by rewrite Hh); [..|exact H1].
    + unfold inode. cbn. by rewrite lookup_insert_eq.
    + cbn. rewrite lookup_insert_eq. by eexists.
  - intros _ fs2 (d & t & Hv & Hd & H2%same_downloaded). fold N2 in H2.
    eapply run_try_bind; [exact (run_remove_cached (downloaded N2 d t) _ Hc2 H2)| |].
    + intros [] fs3 H3. eapply run_try_bind.
      * apply (run_rename (downloaded (delete FINAL N2) d t) _ _ s ino); [..|exact H3|exact Hq| |].
        -- rewrite <- (delete_delete_eq N0 FINAL). by apply delete_mono.
        -- cbn. rewrite lookup_delete_ne; [apply lookup_insert_eq|]. intros [= ?]%app_inv_head. done.
        -- apply lookup_delete_eq.
      * intros [] fs4 H4. apply run_ret. exists ino.
        assert (next_ino fs4 = S ino ∧ inodes fs4 = <[ino := mkInode d t]> (inodes g0)) as [Hx Hi] by (by destruct H4).
        split_and!.
        -- rewrite (FileTransferProofs.same_nodes _ _ H4). cbn. unfold N2. rewrite delete_delete.
           rewrite delete_insert_id by (destruct HN1 as [-> | ->]; [done|]; exact Hn).
           destruct HN1 as [-> | ->]; rewrite ?delete_delete_eq; by rewrite insert_delete_eq.
        -- unfold inode. by rewrite Hi, lookup_insert_eq.
        -- split; [intros i Hne; rewrite Hi; by apply lookup_insert_ne|]. right. split; [done|].
           unfold inode. rewrite Hi, lookup_insert_eq. cbn. lia.
      * intros err fs4 H4. apply (run_cleanup (delete FINAL N2) d t _ _ s); try done; [|by apply nodes_ok_gone|lia].
        rewrite <- (delete_delete_eq N0 FINAL). by apply delete_mono.
    + intros err fs3 H3. apply (run_cleanup N2 d t _ _ s); try done. lia.
  - intros err fs2 (d & t & Hd & H2%same_downloaded). apply (run_cleanup N2 d t _ _ s); try done. lia.
Qed.

Lemma limit_length n chunks : (length (mjoin (limit n chunks)) ≤ n)%nat.
Proof.
  revert n. induction chunks as [|c chunks IH]; intros [|n]; [apply Nat.le_0_l..|].
  cbn [limit]. destruct (Nat.leb_spec (S n) (length c)) as [H|H].
  - change (mjoin [take (S n) c]) with (take (S n) c ++ []). rewrite app_nil_r, length_take. apply Nat.le_min_l.
  - change (mjoin (c :: ?l)) with (c ++ mjoin l). rewrite length_app. specialize (IH (S n - length c)%nat). lia.
Qed.

Lemma run_ensure http pid randoms fs url size e :
  same g0 fs → 0 ≤ size → size + 1 ≤ bound →
  run (ensure_verified_update_artifact sha256_hex http pid randoms url file_path size e) fs
    (λ _, installed size e) as_before.
Proof.
  intros Hg Hs Hb. assert (core ⊆ nodes g0) as Hc by (rewrite H0; apply delete_subseteq).
  unfold ensure_verified_update_artifact. eapply run_bind.
  { eapply run_mono; [by apply (run_use_cached g0)|intros ?? H; exact H|].
    intros fs' H. apply (as_before_same N0); [apply nodes_ok_start|]. rewrite <- H0. by destruct H; split. }
  intros [|] fs1; cbn [negb].
  - intros [H (i & Hi & Hv)]. apply run_ret. exists i. rewrite (FileTransferProofs.same_nodes _ _ H), H0.
    rewrite H0 in Hi. rewrite insert_id by done. split_and!; [done|by rewrite (inode_same g0)|].
    eapply as_before_same; [apply nodes_ok_start|]. rewrite <- H0. by destruct H; split.
  - intros H1. assert (same (g0 <| nodes := core |>) fs1) as Hg1 by (rewrite <- H0; exact H1).
    assert (as_before fs1) as Hbef by (eapply as_before_same; [|exact Hg1]; apply nodes_ok_gone, nodes_ok_start).
    unfold of_result, run, mbind, m_bind. destruct (http url) as [r|?]; [|exact Hbef].
    destruct (negb (success r)); [exact Hbef|].
    apply (run_write _ _ core); [by right| |done]. cbn.
    pose proof (limit_length (Z.to_nat (saturating_add u64_max size 1)) (body r)).
    unfold len, saturating_add in *. lia.
Qed.
End Touched.
End Hash.
End Place.

(** The path of the cache: the name [leaf] in the directory [PL], which the path
    reaches without going through the file itself. *)
Record cache_path (fs : Fs) (file_path leaf : string) (cs : list Component) (PL : Loc) : Prop := mkCachePath {
  cp_path : path_of cs file_path leaf;
  cp_way : walk (delete (PL ++ [leaf]) (nodes fs)) MAX_LINKS [] (RootDir :: cs) true = Ok PL;
  cp_dir : nodes fs !! PL = Some Dir;
}.

(** When the download succeeds. *)
Lemma ensure_installed sha256_hex http pid randoms fs url file_path leaf cs PL size e :
  cache_path fs file_path leaf cs PL → 0 ≤ size →
  match ensure_verified_update_artifact sha256_hex http pid randoms url file_path size e fs with
  | (Ok _, fs') =>
      ∃ i, nodes fs' = <[PL ++ [leaf] := File i]> (nodes fs) ∧
           (∀ follow, resolve fs' file_path follow = Ok (PL ++ [leaf])) ∧
           len (content (inode fs' i)) = size ∧
           sha256_hex (content (inode fs' i)) = expected_hex e
  | (Err _, fs') => True
  end.
Proof.
  intros [Hp Hw Hd] Hs.
  pose proof (run_ensure cs leaf PL (nodes fs) file_path Hp Hw Hd sha256_hex fs eq_refl (size + 1)
    http pid randoms fs url size e (same_refl fs) Hs (Z.le_refl _)) as H. unfold run in H.
  destruct (ensure_verified_update_artifact _ _ _ _ _ _ _ _ _) as [[[]|err] fs']; [|done].
  destruct H as (i & Hn & [Hl Hh] & _). exists i. split_and!; try done.
  intros f. apply (resolve_name cs leaf PL (nodes fs)); try done.
  - rewrite Hn, <- insert_delete_eq. apply insert_subseteq, lookup_delete_eq.
  - intros _. rewrite Hn, lookup_insert_eq. by intros [? ?].
Qed.

(** (C10) Whatever the server sends, whichever calls of the file system fail and
    whatever is in the cache: when [ensure_verified_update_artifact] succeeds, the path
    leads, with links followed or not, to a regular file that has exactly the size and
    the hash that were signed, and apart from that name the file system has the names
    it had.  When it fails, what was at the path is as it was or gone, and nothing else
    is, at most a new file is left in a place that was free.  In both cases no data of
    an earlier file change, and no more than one byte above the size is stored. *)
Theorem update_file_verified sha256_hex http pid randoms fs url file_path leaf cs PL size e :
  cache_path fs file_path leaf cs PL → 0 ≤ size →
  let '(r, fs') := ensure_verified_update_artifact sha256_hex http pid randoms url file_path size e fs in
  match r with
  | Ok _ => ∃ i, nodes fs' = <[PL ++ [leaf] := File i]> (nodes fs) ∧
                 (∀ follow, resolve fs' file_path follow = Ok (PL ++ [leaf])) ∧
                 len (content (inode fs' i)) = size ∧
                 sha256_hex (content (inode fs' i)) = expected_hex e
  | Err _ =>
      (nodes fs' !! (PL ++ [leaf]) = nodes fs !! (PL ++ [leaf]) ∨ nodes fs' !! (PL ++ [leaf]) = None) ∧
      ∀ l, l ≠ PL ++ [leaf] →
        nodes fs' !! l = nodes fs !! l ∨ nodes fs !! l = None ∧ nodes fs' !! l = Some (File (next_ino fs))
  end ∧
  (∀ i, i ≠ next_ino fs → inodes fs' !! i = inodes fs !! i) ∧
  (next_ino fs' = next_ino fs ∨
   next_ino fs' = S (next_ino fs) ∧ len (content (inode fs' (next_ino fs))) ≤ size + 1).
Proof.
  intros Hc Hs. pose proof (ensure_installed sha256_hex http pid randoms fs url _ _ _ _ _ e Hc Hs) as Hok.
  destruct Hc as [Hp Hw Hd].
  pose proof (run_ensure cs leaf PL (nodes fs) file_path Hp Hw Hd sha256_hex fs eq_refl (size + 1)
    http pid randoms fs url size e (same_refl fs) Hs (Z.le_refl _)) as H. unfold run in H.
  destruct (ensure_verified_update_artifact _ _ _ _ _ _ _ _ _) as [[[]|err] fs']; [|exact H].
  destruct H as (i & _ & _ & Hdata). by split.
Qed.
End UpdateDownloadProofs.
