(* ===== verification/Updater.v ===== *)
(** * The updater

    client/src/updater.rs and updater/artifact.rs: from the address of a release page to
    the signed artifact, the check for an update with its download and start, the one
    of the macOS service, and the threads that decide when to check.  What an
    installer does with the file is a parameter, the server and the other programs too.
    The paths are those of Unix. *)
From S2P Require Import Prelude RustStd RecordUpdate HostNames FileSystem UpdateMetadata UpdateDownload.
From Stdlib Require Import Ascii.
Import FileSystem.

Module Updater.
Abbreviation bytes := (list byte).
Import UpdateMetadata (UpdateLibs, mkQuery, UpdateArtifactQuery, VerifiedUpdateArtifact).
Import UpdateDownload (Response, mkResponse, success, body, broken, take_response).

Definition bail_err {A} (r : result A string) : result A Error :=
  match r with Ok a => Ok a | Err why => Err (Bail why) end.

(** ** Constants (updater.rs), in seconds *)
Definition INITIAL_CHECK_DELAY : Z := 30.
Definition DUR_ONE_DAY : Z := 60 * 60 * 24.
Definition MIN_INTERVAL : Z := 60 * 10.
Definition RETRY_INTERVAL : Z := 60 * 30.

(** [std::fs::remove_dir_all]: a directory with all below it, or a link; that a
    directory can be left half removed is not modelled. *)
Definition remove_dir_all (p : string) : M Fs () :=
  syscall (λ fs, result_bind (resolve fs p false) (λ l,
    match nodes fs !! l with
    | Some Dir => Ok (tt, fs <| nodes := filter (λ x, ¬ l `prefix_of` x.1) (nodes fs) |>)
    | Some (Link _) => Ok (tt, fs <| nodes := delete l (nodes fs) |>)
    | Some (File _) => Err NotADirectory
    | None => Err NotFound
    end)).

(** ** What is asked for (artifact.rs) *)
Inductive Os : Type := Windows | MacOs | OtherOs (name : string).
#[export] Instance os_eq_dec : EqDecision Os.
Proof. solve_decision. Defined.
Record Build : Type := mkBuild { os : Os; flutter : bool; ARCH : string }.

Definition current_update_platform (b : Build) : string :=
  match os b with Windows => "windows" | MacOs => "macos" | OtherOs name => name end.
Definition current_update_arch (b : Build) : string :=
  if bool_decide (os b = Windows) && negb (flutter b) then "x86" else ARCH b.
Definition current_update_format (b : Build) (update_msi : bool) : string :=
  match os b with
  | Windows => if flutter b && update_msi then "msi" else "exe"
  | MacOs => "dmg"
  | OtherOs _ => "unknown"
  end.
Definition current_update_artifact_query (b : Build) (update_msi : bool) : UpdateArtifactQuery :=
  mkQuery (current_update_platform b) (current_update_arch b) (current_update_format b update_msi).

(** ** The signed metadata of a release (artifact.rs) *)
Definition UPDATE_METADATA_SIDECAR_MAX_BYTES : Z := 1024 * 1024.

Definition read_limited_response_bytes (r : Response) (limit : Z) : result bytes Error :=
  let r := take_response (saturating_add u64_max limit 1) r in
  if broken r then Err (Io OtherError)
  else if limit <? len (mjoin (body r)) then Err (Bail "exceeds maximum allowed size")
  else Ok (mjoin (body r)).

Definition fetch_update_sidecar_bytes (http : string → result Response Error) (url : string) : result bytes Error :=
  let? response := http url in
  if negb (success response) then Err (Bail "Failed to download update metadata sidecar")
  else read_limited_response_bytes response UPDATE_METADATA_SIDECAR_MAX_BYTES.

Definition expected_artifact_url_prefix (release_id : string) : string :=
  "https://github.com/rustdesk/rustdesk/releases/download/" +:+ release_id +:+ "/".

Definition is_plain_update_filename (filename : string) : bool :=
  if is_empty filename || contains "/" filename || contains "\" filename || contains ":" filename then false
  else match components filename with
       | [Normal name] => name ==s filename
       | _ => false
       end.

(** The static variables: [SOFTWARE_UPDATE_URL] and [VERIFIED_UPDATE_ARTIFACT]. *)
Record Statics : Type := mkStatics {
  SOFTWARE_UPDATE_URL : string;
  VERIFIED_UPDATE_ARTIFACT : option VerifiedUpdateArtifact;
}.
#[export] Instance eta_statics : Eta Statics := λ s, mkStatics (SOFTWARE_UPDATE_URL s) (VERIFIED_UPDATE_ARTIFACT s).

Definition keep_artifact (a : VerifiedUpdateArtifact) : M Statics () := λ s,
  (Ok tt, s <| VERIFIED_UPDATE_ARTIFACT := Some a |>).

(** How an installer is started. *)
Inductive Launch : Type :=
  | NewVersion (update_msi : bool) (version path sha256 : string)
  | VerifiedDmg (path sha256 : string) (size : Z)
  | DmgAsRoot (path version : string).

(** Each start of an installer, with the file system it meets. *)
Record State : Type := mkState { statics : Statics; fs : Fs; launches : list (Launch * Fs) }.
#[export] Instance eta_state : Eta State := λ s, mkState (statics s) (fs s) (launches s).

Definition on_fs {A} (m : M Fs A) : M State A := λ s,
  let (r, f) := m (fs s) in (r, s <| fs := f |>).
Definition launch (l : Launch) : M State () := λ s, (Ok tt, s <| launches := launches s ++ [(l, fs s)] |>).

(** ** When it may be installed (updater.rs) *)
Definition has_no_controlling_conns (b : Build) (sessions : Z) (pids : string → list Z) : bool :=
  if bool_decide (os b ≠ Windows) || flutter b then sessions =? 0
  else forallb (λ arg, bool_decide (pids arg = []))
         ["--connect"; "--play"; "--file-transfer"; "--view-camera"; "--port-forward"; "--rdp"].
Definition has_no_active_conns (b : Build) (alive_conns : list Z) (sessions : Z) (pids : string → list Z) : bool :=
  bool_decide (alive_conns = []) && has_no_controlling_conns b sessions pids.

(** What the server process of a user answers. *)
Inductive IpcReply : Type := ConnectFailed | SendFailed | HasNoActiveConns (b : option bool) | OtherData | Closed | Failed.

Fixpoint query_no_active_conns_ipc (replies : list IpcReply) : result bool string :=
  match replies with
  | [] => Ok true
  | ConnectFailed :: _ => Err "IPC connection failed"
  | SendFailed :: _ => Err "IPC send failed"
  | HasNoActiveConns (Some true) :: replies => query_no_active_conns_ipc replies
  | HasNoActiveConns (Some false) :: _ => Ok false
  | HasNoActiveConns None :: _ | OtherData :: _ => Err "unexpected active-connection IPC response"
  | Closed :: _ => Err "active-connection IPC closed"
  | Failed :: _ => Err "active-connection IPC failed"
  end.
Definition has_no_active_conns_ipc (replies : list IpcReply) : bool :=
  match query_no_active_conns_ipc replies with Ok b => b | Err _ => false end.

(** What the check meets outside of the program. *)
Record World : Type := mkWorld {
  build : Build;
  VERSION : string;
  is_msi_installed : result bool Error;
  is_custom_client : bool;
  allow_auto_update : bool;
  answer : result bytes string;
  http : string → result Response Error;
  process_id : Z;
  randoms : list Z;
  temp_dir : string;
  (** after the download *)
  alive_conns : list Z;
  controlling_sessions : Z;
  pids_with_first_arg : string → list Z;
  update_to_verified_dmg : string → string → Z → result () Error;
}.

Section updater.
Context `{!UpdateLibs} (sha256_hex : bytes → string).

Definition verified_update_artifact_from_release_page_url (http : string → result Response Error)
    (update_url : string) (query : UpdateArtifactQuery) : result VerifiedUpdateArtifact Error :=
  let? release_id := bail_err (UpdateMetadata.release_id_from_update_url update_url) in
  let? display_version := bail_err (UpdateMetadata.display_version_from_release_id release_id) in
  let prefix := expected_artifact_url_prefix release_id in
  let metadata_url := prefix +:+ "rustdesk-update.json" in
  let signature_url := metadata_url +:+ ".sig" in
  let? metadata_bytes := fetch_update_sidecar_bytes http metadata_url in
  let? signature_bytes := fetch_update_sidecar_bytes http signature_url in
  bail_err (UpdateMetadata.verify_update_metadata metadata_bytes signature_bytes display_version release_id prefix query).

Definition verified_update_artifact_for_release_page_url (http : string → result Response Error)
    (release_page_url : string) (query : UpdateArtifactQuery) : M Statics VerifiedUpdateArtifact :=
  artifact ← of_result (verified_update_artifact_from_release_page_url http release_page_url query);
  keep_artifact artifact;;
  mret artifact.

Definition verified_update_artifact_for_download_url (download_url : string) : M Statics VerifiedUpdateArtifact :=
  s ← get;
  of_result (match VERIFIED_UPDATE_ARTIFACT s with
             | Some artifact => if UpdateMetadata.v_url artifact ==s download_url then Ok artifact
                                else Err (Bail "update artifact was not verified")
             | None => Err (Bail "update artifact was not verified")
             end).

Definition get_update_download_file_from_url (temp_dir url : string) : option string :=
  parsed ← UpdateMetadata.url_parse url;
  if negb (starts_with "https://github.com/" url)
     || bool_decide (UpdateMetadata.scheme parsed ≠ "https")
     || bool_decide (UpdateMetadata.host_str parsed ≠ Some "github.com")
     || negb (is_empty (UpdateMetadata.username parsed))
     || bool_decide (is_Some (UpdateMetadata.password parsed))
     || bool_decide (is_Some (UpdateMetadata.port parsed))
     || bool_decide (is_Some (UpdateMetadata.query parsed))
     || bool_decide (is_Some (UpdateMetadata.fragment parsed))
  then None
  else
    segments ← UpdateMetadata.path_segments parsed;
    match segments with
    | [owner; repo; releases; download; tag; filename] =>
        if negb (owner ==s "rustdesk") || negb (repo ==s "rustdesk") || negb (releases ==s "releases")
           || negb (download ==s "download") || is_empty tag || negb (is_plain_update_filename filename)
        then None else Some (path_join temp_dir filename)
    | _ => None
    end.

(** ** The check (updater.rs) *)
Definition do_check (VERSION : string) (answer : result bytes string) : M State () := λ s,
  let '(url, r) := UpdateMetadata.do_check_software_update VERSION answer (SOFTWARE_UPDATE_URL (statics s)) in
  (bail_err r, s <| statics := (statics s) <| SOFTWARE_UPDATE_URL := url |> |>).

Definition start_installer (w : World) (update_msi : bool) (a : VerifiedUpdateArtifact) (file_path : string)
    : M State () :=
  match os (build w) with
  | Windows => launch (NewVersion update_msi (UpdateMetadata.v_version a) file_path (UpdateMetadata.v_sha256 a))
  | MacOs =>
      launch (VerifiedDmg file_path (UpdateMetadata.v_sha256 a) (UpdateMetadata.v_size a));;
      of_result (update_to_verified_dmg w file_path (UpdateMetadata.v_sha256 a) (UpdateMetadata.v_size a))
  | OtherOs _ => mret tt
  end.

Definition is_idle (w : World) : bool :=
  has_no_active_conns (build w) (alive_conns w) (controlling_sessions w) (pids_with_first_arg w).

Definition check_update (w : World) (manually : bool) : M State () :=
  if bool_decide (os (build w) = MacOs) && negb manually then mret tt
  else
    update_msi ← (if bool_decide (os (build w) = Windows)
                  then installed ← of_result (is_msi_installed w); mret (installed && negb (is_custom_client w))
                  else mret false);
    if negb (manually || allow_auto_update w) then mret tt
    else
      do_check (VERSION w) (answer w);;
      s ← get;
      let update_url := SOFTWARE_UPDATE_URL (statics s) in
      if is_empty update_url then mret tt
      else if current_update_format (build w) update_msi ==s "unknown" then mret tt
      else
        artifact ← of_result (verified_update_artifact_from_release_page_url (http w) update_url
                                (current_update_artifact_query (build w) update_msi));
        match get_update_download_file_from_url (temp_dir w) (UpdateMetadata.v_url artifact) with
        | None => bail "Failed to get the file path from the URL"
        | Some file_path =>
            on_fs (UpdateDownload.ensure_verified_update_artifact sha256_hex (http w) (process_id w) (randoms w)
                     (UpdateMetadata.v_url artifact) file_path (UpdateMetadata.v_size artifact)
                     (UpdateMetadata.v_sha256 artifact));;
            if is_idle w then start_installer w update_msi artifact file_path else mret tt
        end.

(** ** The check of the macOS service *)

(** An entry of /tmp: the age is [None] when it cannot be told. *)
Record DirEntry : Type := mkEntry {
  e_name : string;
  e_metadata : option (bool * Z * Z * option Z);  (* a directory, owner, mode, age *)
}.

Definition is_old_update_dir (e : DirEntry) : bool :=
  (starts_with ".rustdeskupdate-root-" (e_name e) || starts_with ".rustdeskdownload-" (e_name e)) &&
  match e_metadata e with
  | Some (is_dir, uid, mode, Some age) =>
      is_dir && (uid =? 0) && (Z.land mode 4095 =? 448) && (RETRY_INTERVAL <=? age)
  | _ => false
  end.

Definition ignore_errors {S} (m : M S ()) : M S () := r ← try m; mret tt.

Fixpoint remove_old_update_dirs (entries : list DirEntry) : M Fs () :=
  match entries with
  | [] => mret tt
  | e :: entries =>
      (if is_old_update_dir e then ignore_errors (remove_dir_all (path_join "/tmp" (e_name e))) else mret tt);;
      remove_old_update_dirs entries
  end.

Definition clean_tmp (entries : option (list DirEntry)) : M Fs () :=
  match entries with Some entries => remove_old_update_dirs entries | None => mret tt end.

(** What the service meets. [mktemp] tells whether it succeeded and what it printed. *)
Record RootWorld : Type := mkRootWorld {
  base : World;
  acquire_mac_update_lock : result () Error;
  tmp_entries : option (list DirEntry);
  mktemp : M Fs (bool * string);
  set_permissions : result () Error;
  replies : list IpcReply;
  update_from_dmg_as_root : string → string → result () Error;
}.

Definition check_update_as_root (w : RootWorld) : M State bool :=
  of_result (acquire_mac_update_lock w);;
  if negb (allow_auto_update (base w)) then mret false
  else if is_custom_client (base w) then mret false
  else
    on_fs (clean_tmp (tmp_entries w));;
    checked ← try (do_check (VERSION (base w)) (answer (base w)));
    match checked with
    | Err e => bail "Failed to check for software update"
    | Ok _ =>
        s ← get;
        let update_url := SOFTWARE_UPDATE_URL (statics s) in
        if is_empty update_url then mret false
        else
          artifact ← of_result (verified_update_artifact_from_release_page_url (http (base w)) update_url
                                  (current_update_artifact_query (build (base w)) false));
          let dmg_url := UpdateMetadata.v_url artifact in
          match get_update_download_file_from_url (temp_dir (base w)) dmg_url with
          | None => bail "URL failed allowlist check"
          | Some _ =>
              out ← on_fs (mktemp w);
              if negb (fst out) then bail "Failed to create private download directory"
              else
                let private_tmp := RustStd.trim (snd out) in
                if is_empty private_tmp then bail "mktemp returned an empty download directory"
                else
                  of_result (set_permissions w);;
                  let file_path := path_join private_tmp (UpdateMetadata.v_file_name artifact) in
                  downloaded ← try (on_fs (UpdateDownload.ensure_verified_update_artifact sha256_hex (http (base w))
                    (process_id (base w)) (randoms (base w)) dmg_url file_path
                    (UpdateMetadata.v_size artifact) (UpdateMetadata.v_sha256 artifact)));
                  match downloaded with
                  | Err e => on_fs (ignore_errors (remove_dir_all private_tmp));; fail e
                  | Ok _ =>
                      if negb (has_no_active_conns_ipc (replies w)) then
                        on_fs (ignore_errors (remove_dir_all private_tmp));;
                        bail "Active session started during download, deferring update"
                      else
                        launch (DmgAsRoot file_path (UpdateMetadata.v_version artifact));;
                        let result := update_from_dmg_as_root w file_path (UpdateMetadata.v_version artifact) in
                        on_fs (ignore_errors (remove_dir_all private_tmp));;
                        of_result result;;
                        mret true
                  end
          end
    end.
End updater.

(** ** When to check

    Times and spans are seconds.  A turn of the loop is what [recv_timeout] returned,
    [None] for no message in time, when, whether the machine was idle then, and for a
    check whether it worked and when it was over. *)
Inductive UpdateMsg : Type := CheckUpdate | Exit.

Record Turn : Type := mkTurn {
  received : option UpdateMsg;
  woken : Z;
  idle : bool;
  works : bool;
  over : Z;
}.

Record Sched : Type := mkSched { last_check_time : Z; check_interval : Z }.

(** A check that was made. *)
Record CheckRun : Type := mkCheckRun { c_manually : bool; c_start : Z; c_end : Z; c_ok : bool }.

Inductive Action : Type := Continue (s : Sched) | Checked (c : CheckRun) (s : Sched) | Break.

Definition turn (s : Sched) (t : Turn) : Action :=
  match received t with
  | Some Exit => Break
  | r =>
      if woken t - last_check_time s <? MIN_INTERVAL then Continue s
      else if negb (idle t) then Continue (mkSched (last_check_time s) RETRY_INTERVAL)
      else
        let c := mkCheckRun (match r with Some CheckUpdate => true | _ => false end) (woken t) (over t) (works t) in
        if works t then Checked c (mkSched (over t) DUR_ONE_DAY)
        else Checked c (mkSched (last_check_time s) RETRY_INTERVAL)
  end.

Fixpoint turns (s : Sched) (l : list Turn) : list CheckRun :=
  match l with
  | [] => []
  | t :: l =>
      match turn s t with
      | Continue s => turns s l
      | Checked c s => c :: turns s l
      | Break => []
      end
  end.

(** [start_auto_update_check_]: the first check, over at [t], comes before the loop. *)
Definition start_auto_update_check_ (start t : Z) (ok : bool) (l : list Turn) : list CheckRun :=
  mkCheckRun false (start + INITIAL_CHECK_DELAY) t ok :: turns (mkSched t DUR_ONE_DAY) l.

(** [start_auto_update_macos]: how long the service sleeps after a round. *)
Definition interval_after (no_active_conns : bool) (checked : result bool Error) : Z :=
  if negb no_active_conns then MIN_INTERVAL
  else match checked with
       | Ok true => RETRY_INTERVAL
       | Ok false => DUR_ONE_DAY
       | Err _ => RETRY_INTERVAL
       end.

(** [wait_for_failed_update_retry]: how long it sleeps for a marker of this age, [None]
    when the age cannot be told. *)
Definition failed_update_wait (age : option Z) : Z :=
  match age with Some elapsed => Z.max 0 (RETRY_INTERVAL - elapsed) | None => RETRY_INTERVAL end.

End Updater.
