(* ===== verification/UpdaterProofs.v ===== *)
(** * Which updates are installed

    An update that is started was described by metadata one of the keys of the program
    signed, for the release the server named, newer than the program itself, and the
    installer meets the file that was signed. *)
From S2P Require Import Prelude RustStd RecordUpdate HostNames FileSystem FileSystemProofs UpdateMetadata UpdateDownload.
From S2P Require Import FileTransferProofs FileDelivery UpdateDownloadProofs Updater.
From Stdlib Require Import Ascii.
Import FileSystem FileSystemProofs Updater.
Import UpdateMetadata (UpdateLibs).
Import HostNames.
Import FileTransferProofs (same, bind_ok).
Import UpdateDownloadProofs (cache_path, mkCachePath, ensure_installed, run, run_bind, run_mono, run_try_bind, run_ret, run_fail).

Module UpdaterProofs.

(** ** Inversion *)
Lemma ensure_ok {E} (b : bool) (why : E) u : UpdateMetadata.ensure b why = Ok u ↔ b = true.
Proof. destruct b, u; unfold UpdateMetadata.ensure; naive_solver. Qed.

Lemma ok_or_ok {A E} (o : option A) (why : E) a : UpdateMetadata.ok_or o why = Ok a ↔ o = Some a.
Proof. destruct o; unfold UpdateMetadata.ok_or; naive_solver. Qed.

Lemma bail_err_ok {A} (r : result A string) a : bail_err r = Ok a ↔ r = Ok a.
Proof. destruct r; unfold bail_err; naive_solver. Qed.

Lemma of_result_ok {S A} (r : result A Error) (s : S) a s' : of_result r s = (Ok a, s') ↔ r = Ok a ∧ s' = s.
Proof. unfold of_result. naive_solver. Qed.

Ltac inv_ok :=
  repeat match goal with
  | H : result_bind _ _ = Ok _ |- _ => apply result_bind_ok in H as (? & ? & H)
  | H : UpdateMetadata.ensure _ _ = Ok _ |- _ => apply ensure_ok in H
  | H : UpdateMetadata.ok_or _ _ = Ok _ |- _ => apply ok_or_ok in H
  | H : bail_err _ = Ok _ |- _ => apply bail_err_ok in H
  | H : _ && _ = true |- _ => apply andb_true_iff in H as [? H]
  | H : negb _ = true |- _ => apply negb_true_iff in H
  | H : _ || _ = false |- _ => apply orb_false_iff in H as [? H]
  | H : bool_decide _ = true |- _ => apply bool_decide_eq_true in H
  | H : bool_decide _ = false |- _ => apply bool_decide_eq_false in H
  | H : (_ =? _) = true |- _ => apply Z.eqb_eq in H
  | H : (_ ==s _) = true |- _ => apply eqb_str_true in H
  | H : unit |- _ => destruct H
  end.

Section metadata.
Context {L : UpdateLibs}.
Import UpdateMetadata.

(** ** Signed metadata *)

(** A name that names a file of one folder, wherever it is put. *)
Definition clean_name (s : string) : Prop :=
  s ≠ "" ∧ s ≠ "." ∧ s ≠ ".." ∧
  str_all (λ c, is_ascii_alphanumeric c || bool_decide (c ∈ ["."; "_"; "-"]%char)) s = true.

Lemma validate_artifact_file_name_ok s u : validate_artifact_file_name s = Ok u → clean_name s.
Proof.
  unfold validate_artifact_file_name. intros H%ensure_ok%negb_true_iff.
  apply orb_false_iff in H as [[[H1%is_empty_false H2]%orb_false_iff H3]%orb_false_iff H4%negb_false_iff].
  unfold eqb_str in *. inv_ok. by split_and!.
Qed.

(** What a verified artifact was signed as. *)
Record genuine (metadata_bytes signature_bytes : bytes) (o : VerificationOptions)
    (m : UpdateMetadata) (a : UpdateArtifact) : Prop := mkGenuine {
  gn_signed : ∃ s sig key,
    signature_json signature_bytes = Some s ∧ base64_decode (signature s) ≫= signature_from_bytes = Some sig ∧
    key ∈ trusted_keys o ∧ trusted_key_id key = key_id s ∧
    algorithm s = SIGNATURE_ALGORITHM ∧ trusted_algorithm key = SIGNATURE_ALGORITHM ∧
    verify_detached sig (UPDATE_METADATA_SIGNATURE_CONTEXT ++ metadata_bytes) (public_key key) = true;
  gn_metadata : metadata_json metadata_bytes = Some m;
  gn_app : app m = UPDATE_APP;
  gn_package : package_id m = expected_package_id o;
  gn_version : version m = expected_version o;
  gn_release : release_id m = expected_release_id o;
  gn_artifact : filter (λ a, asked_for (query_artifact o) a = true) (artifacts m) = [a];
  gn_name : clean_name (file_name a);
  gn_hash : str_len (sha256 a) = 64 ∧ str_all is_ascii_hexdigit (sha256 a) = true;
  gn_url : ∃ u, url_parse (url a) = Some u ∧ query u = None ∧ fragment u = None ∧
                path_segments u ≫= last = Some (file_name a);
  gn_policy : match artifact_url_policy o with
              | ExactPrefix prefix => url a = prefix +:+ file_name a
              | SignedHttps => ∃ u, url_parse (url a) = Some u ∧ scheme u = "https"
              end;
}.

Lemma trusted_key_ok s keys key :
  trusted_key s keys = Some key → key ∈ keys ∧ trusted_key_id key = key_id s ∧ trusted_algorithm key = algorithm s.
Proof.
  unfold trusted_key. intros H%head_Some_elem_of. by apply list_elem_of_filter in H as [[? ?] ?].
Qed.

Lemma select_artifact_ok m q a :
  select_artifact m q = Ok a → filter (λ a, asked_for q a = true) (artifacts m) = [a].
Proof. unfold select_artifact. by destruct (filter _ _) as [|x [|]]; intros; simplify_eq. Qed.

Lemma decode_signature_ok e sig :
  decode_signature e = Ok sig → base64_decode e ≫= signature_from_bytes = Some sig.
Proof. unfold decode_signature. intros H. inv_ok. by rewrite H0. Qed.

Lemma not_is_Some {A} (o : option A) : ¬ is_Some o → o = None.
Proof. apply eq_None_not_Some. Qed.

Lemma validate_artifact_ok a p u :
  validate_artifact a p = Ok u →
  clean_name (file_name a) ∧ (str_len (sha256 a) = 64 ∧ str_all is_ascii_hexdigit (sha256 a) = true) ∧
  (∃ u, url_parse (url a) = Some u ∧ query u = None ∧ fragment u = None ∧ path_segments u ≫= last = Some (file_name a)) ∧
  match p with
  | ExactPrefix prefix => url a = prefix +:+ file_name a
  | SignedHttps => ∃ u, url_parse (url a) = Some u ∧ scheme u = "https"
  end.
Proof.
  unfold validate_artifact, is_sha256_hex, validate_artifact_url_policy. intros H. inv_ok.
  split_and!; try done.
  - by eapply validate_artifact_file_name_ok.
  - eexists. split_and!; [done|by apply not_is_Some..|congruence].
  - destruct p; inv_ok; [done|]. by eexists.
Qed.

Lemma verify_ok mb sb o v :
  verify_update_metadata_with_options mb sb o = Ok v →
  ∃ m a, genuine mb sb o m a ∧ v = mkVerified (version m) (url a) (file_name a) (size a) (sha256 a).
Proof.
  unfold verify_update_metadata_with_options, validate_signature_schema, verify_metadata_signature, validate_metadata.
  intros H. inv_ok. simplify_eq.
  match goal with
  | Hm : metadata_json _ = Some ?m, Ha : select_artifact _ _ = Ok ?a |- _ => exists m, a
  end.
  repeat match goal with
  | Ht : trusted_key _ _ = Some _ |- _ => apply trusted_key_ok in Ht as (? & ? & ?)
  | Hs : select_artifact _ _ = Ok _ |- _ => apply select_artifact_ok in Hs
  | Hd : decode_signature _ = Ok _ |- _ => apply decode_signature_ok in Hd
  | Hv : validate_artifact _ _ = Ok _ |- _ => apply validate_artifact_ok in Hv as (? & ? & ? & ?)
  end.
  split; [|done]. split; try congruence; try done.
  do 3 eexists. split_and!; try done. congruence.
Qed.
End metadata.

Section updater.
Context {L : UpdateLibs} (sha256_hex : bytes → string).
Import UpdateMetadata UpdateDownload.

(** ** From the release page *)
Lemma limit_take n chunks : mjoin (limit n chunks) = take n (mjoin chunks).
Proof.
  revert n. induction chunks as [|c chunks IH]; intros [|n]; [done..|]. cbn [limit].
  change (mjoin (c :: ?l)) with (c ++ mjoin l). destruct (Nat.leb_spec (S n) (length c)) as [H|H].
  - change (mjoin [take (S n) c]) with (take (S n) c ++ []). by rewrite app_nil_r, take_app_le.
  - change (mjoin (c :: ?l)) with (c ++ mjoin l). rewrite IH, take_app_ge; [done|lia].
Qed.

(** The server answered with these bytes, no more than [limit]. *)
Definition served (http : string → result Response Error) (url : string) (limit : Z) (d : bytes) : Prop :=
  ∃ r, http url = Ok r ∧ success r = true ∧ broken r = false ∧ d = mjoin (body r) ∧ len d ≤ limit.

Lemma read_limited_ok r limit d :
  0 ≤ limit < u64_max → read_limited_response_bytes r limit = Ok d →
  broken r = false ∧ d = mjoin (body r) ∧ len d ≤ limit.
Proof.
  intros Hl. unfold read_limited_response_bytes, take_response. cbn [broken body].
  rewrite limit_take. replace (saturating_add u64_max limit 1) with (limit + 1) by (unfold saturating_add; lia).
  destruct (broken r && _) eqn:Eb; [done|].
  destruct (Z.ltb_spec limit (len (take (Z.to_nat (limit + 1)) (mjoin (body r))))) as [|H]; [done|].
  intros [= <-]. unfold len in *. rewrite length_take in H.
  assert (length (mjoin (body r)) ≤ Z.to_nat limit)%nat as Hb by lia.
  rewrite take_ge by lia. split_and!; [|done|lia].
  destruct (broken r); [|done]. cbn in Eb. apply Z.ltb_ge in Eb. lia.
Qed.

Lemma fetch_ok http url d :
  fetch_update_sidecar_bytes http url = Ok d → served http url UPDATE_METADATA_SIDECAR_MAX_BYTES d.
Proof.
  unfold fetch_update_sidecar_bytes. intros (r & Hr & H)%result_bind_ok.
  destruct (success r) eqn:Es; [|done]. cbn in H. apply read_limited_ok in H as (? & ? & ?); [by exists r|].
  done.
Qed.

(** The address names this release of the program, of this version. *)
Definition release_of (update_url id version : string) : Prop :=
  release_id_from_update_url update_url = Ok id ∧ display_version_from_release_id id = Ok version.

(** The artifact [v] is [a] of the metadata [m], which were served beside the release
    [id] and signed by a key of the program. *)
Record released (http : string → result Response Error) (id version : string) (q : UpdateArtifactQuery)
    (m : UpdateMetadata) (a : UpdateArtifact) (v : VerifiedUpdateArtifact) : Prop := mkReleased {
  rl_artifact : v = mkVerified (UpdateMetadata.version m) (url a) (file_name a) (size a) (sha256 a);
  rl_genuine : ∃ mb sb,
    served http (expected_artifact_url_prefix id +:+ "rustdesk-update.json") UPDATE_METADATA_SIDECAR_MAX_BYTES mb ∧
    served http ((expected_artifact_url_prefix id +:+ "rustdesk-update.json") +:+ ".sig") UPDATE_METADATA_SIDECAR_MAX_BYTES sb ∧
    genuine mb sb (mkOptions version id q PUBLIC_UPDATE_PACKAGE_ID (ExactPrefix (expected_artifact_url_prefix id))
                     TRUSTED_UPDATE_KEYS) m a;
}.

Lemma from_release_page_ok http update_url q v :
  verified_update_artifact_from_release_page_url http update_url q = Ok v →
  ∃ id version m a, release_of update_url id version ∧ released http id version q m a v.
Proof.
  unfold verified_update_artifact_from_release_page_url. intros (id & Hid%bail_err_ok & H)%result_bind_ok.
  apply result_bind_ok in H as (version & Hv%bail_err_ok & H).
  apply result_bind_ok in H as (mb & Hm%fetch_ok & H). apply result_bind_ok in H as (sb & Hs%fetch_ok & H).
  apply bail_err_ok, verify_ok in H as (m & a & Hg & ->). exists id, version, m, a.
  split; [done|]. split; [done|]. by exists mb, sb.
Qed.

(** ** Where the download goes *)
Lemma str_all_contains (p : ascii → bool) s c : str_all p s = true → p c = false → contains c s = false.
Proof.
  intros H Hp. induction s as [|x s IH]; [done|]. cbn [str_all] in H. apply andb_true_iff in H as [Hx H].
  cbn [contains]. rewrite (IH H). case_bool_decide; [congruence|done].
Qed.

Lemma clean_name_ok s : clean_name s → name_ok s.
Proof. intros (H1 & H2 & H3 & H4). split_and!; try done. by eapply str_all_contains. Qed.

Lemma download_file_name dir a p :
  (∃ u, url_parse (url a) = Some u ∧ query u = None ∧ fragment u = None ∧ path_segments u ≫= last = Some (file_name a)) →
  get_update_download_file_from_url dir (url a) = Some p → p = path_join dir (file_name a).
Proof.
  intros (u & Hu & _ & _ & Hl). unfold get_update_download_file_from_url. rewrite Hu. cbn [mbind option_bind].
  case_match; [done|]. destruct (path_segments u) as [l|]; [|done]. cbn [mbind option_bind] in *.
  do 7 (destruct l as [|? l]; try done). case_match; [done|]. cbn in Hl. congruence.
Qed.

(** A directory that holds the downloads: an absolute path leads to it, whatever one
    name in it is. *)
Record cache_dir (f : Fs) (dir : string) (cs : list Component) (PL : Loc) : Prop := mkCacheDir {
  cd_absolute : absolute dir = true;
  cd_components : segc dir = cs;
  cd_dir : nodes f !! PL = Some Dir;
  cd_way : ∀ leaf, walk (delete (PL ++ [leaf]) (nodes f)) MAX_LINKS [] (RootDir :: cs) true = Ok PL;
}.

Lemma name_relative s : name_ok s → absolute s = false.
Proof.
  intros (_ & _ & _ & H). destruct s as [|c s]; [done|]. cbn [contains] in H. apply orb_false_iff in H as [H _].
  apply bool_decide_eq_false in H. apply bool_decide_eq_false. intros [t Ht]. cbn in Ht. by case_bool_decide.
Qed.

Lemma cache_dir_path f dir cs PL leaf :
  cache_dir f dir cs PL → name_ok leaf → cache_path f (path_join dir leaf) leaf cs PL.
Proof.
  intros [Ha Hc Hd Hw] Hn. split; [|apply Hw|done]. pose proof (name_relative leaf Hn) as Hr.
  destruct Hn as (H1 & H2 & H3 & H4).
  assert (segc leaf = [Normal leaf] ∧ trailing leaf = false) as [Hs Ht].
  { unfold segc, trailing. rewrite split_no_sep by done. cbn. unfold eqb_str.
    by rewrite !bool_decide_eq_false_2. }
  split_and!.
  - by apply path_join_absolute.
  - by rewrite segc_path_join, Hs, Hc.
  - by rewrite trailing_path_join.
Qed.

(** The file at [path] of [f] is the artifact. *)
Definition has_artifact (f : Fs) (path : string) (a : UpdateArtifact) : Prop :=
  ∃ l i, (∀ follow, resolve f path follow = Ok l) ∧ nodes f !! l = Some (File i) ∧
         len (content (inode f i)) = size a ∧
         sha256_hex (content (inode f i)) = expected_hex (sha256 a).

Lemma ensure_has_artifact http pid randoms f f' dir cs PL u a :
  cache_dir f dir cs PL → clean_name (file_name a) → 0 ≤ size a →
  ensure_verified_update_artifact sha256_hex http pid randoms u (path_join dir (file_name a)) (size a) (sha256 a) f
    = (Ok tt, f') →
  has_artifact f' (path_join dir (file_name a)) a.
Proof.
  intros Hd Hn Hs He.
  destruct (cache_dir_path f dir cs PL (file_name a) Hd (clean_name_ok _ Hn)) as [Hp Hw Hdir].
  pose proof (ensure_installed sha256_hex http pid randoms f u _ _ cs PL (size a) (sha256 a)
                (mkCachePath _ _ _ _ _ Hp Hw Hdir) Hs) as H.
  rewrite He in H. destruct H as (i & Hnodes & Hr & Hl & Hh). exists (PL ++ [file_name a]), i.
  split_and!; try done. rewrite Hnodes. apply lookup_insert_eq.
Qed.

(** ** The check *)

(** The server named this release, newer than the program. *)
Definition newer (VERSION : string) (answer : result bytes string) (update_url id version : string) : Prop :=
  (∃ response, answer = Ok response ∧ version_check_json response = Some update_url) ∧
  release_of update_url id version ∧ get_version_number VERSION < get_version_number version.

Lemma do_check_spec VERSION answer s :
  let '(r, s') := do_check VERSION answer s in
  fs s' = fs s ∧ launches s' = launches s ∧
  let u := SOFTWARE_UPDATE_URL (statics s') in
  match r with Ok _ => u = "" ∨ ∃ id version, newer VERSION answer u id version | Err _ => u = "" end.
Proof.
  unfold do_check, do_check_software_update, process_software_update_check_response.
  destruct answer as [response|e]; [|done]. destruct (version_check_json response) as [u|] eqn:Eu; [|done].
  destruct (result_bind _ _) as [v|e] eqn:Er; [|done]. cbn. split_and!; [done..|].
  destruct (Z.ltb_spec (get_version_number VERSION) (get_version_number v)); [right|by left].
  apply result_bind_ok in Er as (id & Hid & Hv). exists id, v. split_and!; [by exists response|done|done].
Qed.

(** How an installer is told of the artifact. *)
Definition launch_of (l : Launch) (path : string) (m : UpdateMetadata) (a : UpdateArtifact) : Prop :=
  match l with
  | NewVersion _ v p h => p = path ∧ v = UpdateMetadata.version m ∧ h = sha256 a
  | VerifiedDmg p h n => p = path ∧ h = sha256 a ∧ n = size a
  | DmgAsRoot p v => p = path ∧ v = UpdateMetadata.version m
  end.

(** An installer is started, in [f], for a signed artifact of a newer release, which
    is the file at the path. *)
Definition legitimate (w : World) (update_msi : bool) (dir : string) (l : Launch) (f : Fs) : Prop :=
  ∃ update_url id version m a v,
    newer (VERSION w) (answer w) update_url id version ∧
    released (http w) id version (current_update_artifact_query (build w) update_msi) m a v ∧
    launch_of l (path_join dir (file_name a)) m a ∧
    has_artifact f (path_join dir (file_name a)) a.

Context (sizes : ∀ b m a, metadata_json b = Some m → a ∈ artifacts m → 0 ≤ size a).

Lemma released_facts http id version q m a v :
  released http id version q m a v →
  v_url v = url a ∧ v_file_name v = file_name a ∧ v_size v = size a ∧ v_sha256 v = sha256 a ∧
  v_version v = UpdateMetadata.version m ∧ clean_name (file_name a) ∧ 0 ≤ size a ∧
  (∃ u, url_parse (url a) = Some u ∧ query u = None ∧ fragment u = None ∧ path_segments u ≫= last = Some (file_name a)).
Proof.
  intros [-> (mb & sb & _ & _ & [])]. split_and!; try done. apply (sizes _ _ _ gn_metadata0).
  assert (a ∈ filter (λ a, asked_for (query_artifact (mkOptions version id q PUBLIC_UPDATE_PACKAGE_ID
    (ExactPrefix (expected_artifact_url_prefix id)) TRUSTED_UPDATE_KEYS)) a = true) (artifacts m)) as Hin
    by (rewrite gn_artifact0; by left).
  by apply list_elem_of_filter in Hin as [_ ?].
Qed.

Lemma run_on_fs {A} (m : M Fs A) s :
  run (on_fs m) s (λ a s', launches s' = launches s ∧ statics s' = statics s ∧ m (fs s) = (Ok a, fs s'))
    (λ s', launches s' = launches s).
Proof. unfold run, on_fs. by destruct (m (fs s)) as [[a|e] f]. Qed.

Lemma run_do_check VERSION answer s :
  run (do_check VERSION answer) s
    (λ _ s', (launches s' = launches s ∧ fs s' = fs s) ∧
       (SOFTWARE_UPDATE_URL (statics s') = "" ∨
        ∃ id version, newer VERSION answer (SOFTWARE_UPDATE_URL (statics s')) id version))
    (λ s', launches s' = launches s).
Proof.
  unfold run. pose proof (do_check_spec VERSION answer s) as H.
  destruct (do_check VERSION answer s) as [[[]|e] s']; destruct H as (? & ? & ?); done.
Qed.

Lemma run_of_result {S A} (r : result A Error) (s : S) : run (of_result r) s (λ a s', r = Ok a ∧ s' = s) (λ s', s' = s).
Proof. unfold run, of_result. by destruct r. Qed.

(** At most one installer is started, and then [P]. *)
Definition starts (s : State) (P : Launch → Fs → Prop) (s' : State) : Prop :=
  launches s' = launches s ∨ ∃ l f, launches s' = launches s ++ [(l, f)] ∧ P l f.

Lemma run_launch s l : run (launch l) s (λ _ s', launches s' = launches s ++ [(l, fs s)]) (λ _, False).
Proof. done. Qed.

Lemma run_get {S} (s : S) : run get s (λ a s', a = s ∧ s' = s) (λ _, False).
Proof. done. Qed.

(** The part of the two checks that is the same: the artifact of a release that is
    newer. *)
Lemma newer_release w update_url update_msi id version v :
  newer (VERSION w) (answer w) update_url id version →
  verified_update_artifact_from_release_page_url (http w) update_url
    (current_update_artifact_query (build w) update_msi) = Ok v →
  ∃ m a, released (http w) id version (current_update_artifact_query (build w) update_msi) m a v.
Proof.
  intros (_ & [Hid Hv] & _) H. apply from_release_page_ok in H as (id' & version' & m & a & [Hid' Hv'] & H).
  assert (id' = id) as -> by congruence. assert (version' = version) as -> by congruence. by exists m, a.
Qed.

Lemma start_installer_ok w update_msi id version m a v p update_url s :
  newer (VERSION w) (answer w) update_url id version →
  released (http w) id version (current_update_artifact_query (build w) update_msi) m a v →
  p = path_join (temp_dir w) (file_name a) → has_artifact (fs s) p a →
  run (start_installer w update_msi v p) s
    (λ _, starts s (legitimate w update_msi (temp_dir w))) (starts s (legitimate w update_msi (temp_dir w))).
Proof.
  intros Hnew Hr -> Ha. pose proof (released_facts _ _ _ _ _ _ _ Hr) as (_ & _ & Hs & Hh & Hv & _).
  assert (∀ l s', launches s' = launches s ++ [(l, fs s)] → launch_of l (path_join (temp_dir w) (file_name a)) m a →
    starts s (legitimate w update_msi (temp_dir w)) s') as Hstart.
  { intros l s' Hl Hof. right. exists l, (fs s). split; [done|]. by exists update_url, id, version, m, a, v. }
  unfold start_installer. destruct (os (build w)); [..|by left].
  - eapply run_mono; [exact (run_launch s _)|intros [] s' H; eapply Hstart; [exact H|by split_and!]|done].
  - eapply run_bind; [eapply run_mono; [exact (run_launch s _)|intros ?? H; exact H|done]|].
    intros [] s' H. eapply run_mono; [apply run_of_result|..].
    + intros [] s2 [_ ->]. eapply Hstart; [exact H|by split_and!].
    + intros s2 ->. eapply Hstart; [exact H|by split_and!].
Qed.

Lemma run_check w manually s cs PL :
  cache_dir (fs s) (temp_dir w) cs PL →
  let P l f := is_idle w = true ∧ (manually = true ∨ allow_auto_update w = true) ∧
               ∃ update_msi, legitimate w update_msi (temp_dir w) l f in
  run (check_update sha256_hex w manually) s (λ _, starts s P) (starts s P).
Proof.
  intros Hd P. assert (∀ s', launches s' = launches s → starts s P s') as Hno by (by left).
  unfold check_update. case_match; [by apply Hno|].
  eapply run_bind with (P := λ _ s', s' = s).
  { destruct (bool_decide (os (build w) = Windows)); [|done]. eapply run_bind; [eapply run_mono; [apply run_of_result|intros ?? H'; exact H'|]|].
    - intros s' ->. by apply Hno.
    - by intros b s' [_ ->]. }
  intros update_msi ? ->. destruct (negb (manually || allow_auto_update w)) eqn:Em; [by apply Hno|].
  apply negb_false_iff, orb_true_iff in Em.
  eapply run_bind; [eapply run_mono; [apply run_do_check|intros ?? H'; exact H'|intros s' H'; by apply Hno]|].
  intros [] s1 [[Hl1 Hf1] Hurl].
  eapply run_bind; [eapply run_mono; [apply run_get|intros ?? H'; exact H'|done]|]. intros ? ? [-> ->].
  destruct (is_empty _) eqn:Ee; [by apply Hno|]. apply is_empty_false in Ee.
  destruct Hurl as [?|(id & version & Hnew)]; [done|]. destruct (_ ==s "unknown"); [by apply Hno|].
  eapply run_bind; [eapply run_mono; [apply run_of_result|intros ?? H'; exact H'|intros ? ->; by apply Hno]|].
  intros v ? [Hv ->]. destruct (newer_release _ _ _ _ _ _ Hnew Hv) as (m & a & Hr).
  pose proof (released_facts _ _ _ _ _ _ _ Hr) as (Hu & _ & Hsz & Hh & _ & Hn & Hpos & Hurl).
  destruct (get_update_download_file_from_url _ _) as [p|] eqn:Ep; [|by apply Hno].
  rewrite Hu in Ep. apply (download_file_name _ a) in Ep as ->; [|done].
  eapply run_bind; [eapply run_mono; [apply run_on_fs|intros ?? H'; exact H'|]|].
  { intros s' H'. apply Hno. congruence. }
  intros [] s2 (Hl2 & _ & He). destruct (is_idle w) eqn:Ei; [|apply Hno; congruence].
  assert (has_artifact (fs s2) (path_join (temp_dir w) (file_name a)) a) as Ha.
  { rewrite Hf1, Hsz, Hh in He. by eapply ensure_has_artifact. }
  assert (∀ s', starts s2 (legitimate w update_msi (temp_dir w)) s' → starts s P s') as Hstarts.
  { intros s' [H'|(l & f & H' & Hleg)]; [left; congruence|right]. exists l, f. split; [congruence|].
    split_and!; [done..|by exists update_msi]. }
  eapply run_mono; [by eapply start_installer_ok|by auto|by auto].
Qed.

(** ** The check of the service *)
Lemma has_no_active_conns_ipc_spec replies :
  has_no_active_conns_ipc replies = true ↔ Forall (λ r, r = HasNoActiveConns (Some true)) replies.
Proof.
  unfold has_no_active_conns_ipc. induction replies as [|r replies IH]; [by split; [constructor|]|].
  rewrite Forall_cons, <- IH. cbn [query_no_active_conns_ipc]. destruct r as [| |[[]|]| | |]; naive_solver.
Qed.

Lemma run_cleanup_dir (m : M Fs ()) s : run (on_fs (ignore_errors m)) s (λ _ s', launches s' = launches s) (λ _, False).
Proof. unfold run, on_fs, ignore_errors, try, mbind, m_bind. by destruct (m (fs s)). Qed.

(** What has to hold for the service to start an installer. *)
Definition root_legitimate (w : RootWorld) (l : Launch) (f : Fs) : Prop :=
  acquire_mac_update_lock w = Ok tt ∧ allow_auto_update (base w) = true ∧ is_custom_client (base w) = false ∧
  Forall (λ r, r = HasNoActiveConns (Some true)) (replies w) ∧ ∃ dir, legitimate (base w) false dir l f.

Definition root_ends (w : RootWorld) (s : State) (b : bool) (s' : State) : Prop :=
  if b then ∃ l f, launches s' = launches s ++ [(l, f)] ∧ root_legitimate w l f else launches s' = launches s.

Section root.
Context (w : RootWorld) (s : State).
(** [mktemp -d] makes a directory and prints the path of it. *)
Context (mktemp_ok : ∀ out f', mktemp w (clean_tmp (tmp_entries w) (fs s)).2 = (Ok (true, out), f') →
  RustStd.trim out ≠ "" → ∃ cs PL, cache_dir f' (RustStd.trim out) cs PL).

Local Abbreviation started := (starts s (root_legitimate w)).
Local Abbreviation ended := (root_ends w s).

(** The end: the installer, and the directory removed. *)
Lemma run_install dir path version s1 :
  launches s1 = launches s →
  root_legitimate w (DmgAsRoot path version) (fs s1) →
  run (launch (DmgAsRoot path version);;
       on_fs (ignore_errors (remove_dir_all dir));;
       of_result (update_from_dmg_as_root w path version);; mret true) s1 ended started.
Proof.
  intros Hl Hr. eapply run_bind; [eapply run_mono; [exact (run_launch s1 _)|intros ?? H; exact H|done]|].
  intros [] s2 H2. eapply run_bind; [eapply run_mono; [apply run_cleanup_dir|intros ?? H; exact H|done]|].
  intros [] s3 H3. assert (launches s3 = launches s ++ [(DmgAsRoot path version, fs s1)]) as H by congruence.
  eapply run_bind; [eapply run_mono; [apply run_of_result|intros ?? H'; exact H'|]|].
  - intros ? ->. right. by eexists _, _.
  - intros [] ? [_ ->]. apply run_ret. by eexists _, _.
Qed.

(** The download into the directory of its own. *)
Lemma run_root_download update_url id version m a v f1 s1 dir cs PL :
  acquire_mac_update_lock w = Ok tt → allow_auto_update (base w) = true → is_custom_client (base w) = false →
  newer (VERSION (base w)) (answer (base w)) update_url id version →
  released (http (base w)) id version (current_update_artifact_query (build (base w)) false) m a v →
  launches s1 = launches s → fs s1 = f1 → cache_dir f1 dir cs PL →
  run (downloaded ← try (on_fs (ensure_verified_update_artifact sha256_hex (http (base w)) (process_id (base w))
         (randoms (base w)) (v_url v) (path_join dir (v_file_name v)) (v_size v) (v_sha256 v)));
       match downloaded with
       | Err e => on_fs (ignore_errors (remove_dir_all dir));; fail e
       | Ok _ =>
           if negb (has_no_active_conns_ipc (replies w)) then
             on_fs (ignore_errors (remove_dir_all dir));;
             bail "Active session started during download, deferring update"
           else
             launch (DmgAsRoot (path_join dir (v_file_name v)) (v_version v));;
             let result := update_from_dmg_as_root w (path_join dir (v_file_name v)) (v_version v) in
             on_fs (ignore_errors (remove_dir_all dir));;
             of_result result;;
             mret true
       end) s1 ended started.
Proof.
  intros Hlock Hallow Hcustom Hnew Hr Hl1 Hf Hd.
  pose proof (released_facts _ _ _ _ _ _ _ Hr) as (Hu & Hname & Hsz & Hh & Hv & Hn & Hpos & _).
  assert (∀ s' e, launches s' = launches s →
    run (on_fs (ignore_errors (remove_dir_all dir));; fail e) s' ended started) as Hfail.
  { intros s' e Hl. eapply run_bind; [eapply run_mono; [apply run_cleanup_dir|intros ?? H; exact H|done]|].
    intros [] s2 H. apply run_fail. left. congruence. }
  eapply run_try_bind; [apply run_on_fs|..].
  - intros [] s2 (Hl2 & _ & He). destruct (has_no_active_conns_ipc (replies w)) eqn:Ei; cbn [negb];
      [|apply Hfail; congruence].
    apply run_install; [congruence|]. apply has_no_active_conns_ipc_spec in Ei. split_and!; try done.
    exists dir, update_url, id, version, m, a, v. rewrite Hf, Hname, Hsz, Hh in He. rewrite Hname, Hv. split_and!; try done.
    by eapply ensure_has_artifact.
  - intros e s2 H2. apply Hfail. congruence.
Qed.

Lemma run_check_as_root : run (check_update_as_root sha256_hex w) s ended started.
Proof.
  assert (∀ s', launches s' = launches s → started s') as Hno by (by left).
  assert (∀ {A} (r : result A Error) s', launches s' = launches s →
    run (of_result r) s' (λ a s2, r = Ok a ∧ s2 = s') started) as Hres.
  { intros A r s' Hl. eapply run_mono; [apply run_of_result|done|]. intros ? ->. auto. }
  unfold check_update_as_root. eapply run_bind; [by apply Hres|]. intros [] ? [Hlock ->].
  destruct (allow_auto_update (base w)) eqn:Hallow; [|done]. destruct (is_custom_client (base w)) eqn:Hcustom; [done|].
  cbn [negb]. eapply run_bind; [eapply run_mono; [apply run_on_fs|intros ?? H; exact H|auto]|].
  intros [] s1 (Hl1 & _ & Hc). eapply run_try_bind; [apply run_do_check| |intros e s2 H2; apply Hno; congruence].
  intros [] s2 [[Hl2 Hf2] Hurl].
  eapply run_bind; [eapply run_mono; [apply run_get|intros ?? H'; exact H'|done]|]. intros ? ? [-> ->].
  destruct (is_empty _) eqn:Ee; [apply run_ret; cbn; congruence|]. apply is_empty_false in Ee.
  destruct Hurl as [?|(id & version & Hnew)]; [done|].
  eapply run_bind; [apply Hres; congruence|]. intros v ? [Hv ->].
  destruct (newer_release _ _ _ _ _ _ Hnew Hv) as (m & a & Hr).
  destruct (get_update_download_file_from_url _ _) as [p|] eqn:Ep; [|apply Hno; congruence].
  eapply run_bind; [eapply run_mono; [apply run_on_fs|intros ?? H; exact H|intros s' H; apply Hno; congruence]|].
  intros [okb out] s3 (Hl3 & _ & Hm). destruct okb; cbn [fst snd negb]; [|apply Hno; congruence].
  destruct (is_empty (RustStd.trim out)) eqn:Et; [apply Hno; congruence|]. apply is_empty_false in Et.
  rewrite Hc in mktemp_ok. rewrite Hf2 in Hm. destruct (mktemp_ok _ _ Hm Et) as (cs & PL & Hd).
  eapply run_bind; [apply Hres; congruence|]. intros [] ? [_ ->].
  eapply run_root_download; try done. congruence.
Qed.
End root.
End updater.

(** ** When checks are made *)

(** The turns are in order, and a wait without a message lasts the interval. *)
Fixpoint timely (s : Sched) (now : Z) (l : list Turn) : Prop :=
  match l with
  | [] => True
  | t :: l =>
      (now ≤ woken t ∧ woken t ≤ over t ∧ (received t = None → now + check_interval s ≤ woken t)) ∧
      match turn s t with
      | Continue s' => timely s' (woken t) l
      | Checked _ s' => timely s' (over t) l
      | Break => True
      end
  end.

(** The distance a check has to the one before. *)
Definition apart (c d : CheckRun) : Prop :=
  (c_ok c = true → c_end c + MIN_INTERVAL ≤ c_start d) ∧
  (c_manually d = false → c_end c + RETRY_INTERVAL ≤ c_start d).

Fixpoint spaced (c : CheckRun) (l : list CheckRun) : Prop :=
  match l with [] => True | d :: l => apart c d ∧ spaced d l end.

Lemma turns_spaced l : ∀ c s now,
  timely s now l → (c_ok c = true → c_end c ≤ last_check_time s) → c_end c ≤ now →
  RETRY_INTERVAL ≤ check_interval s → spaced c (turns s l).
Proof.
  induction l as [|t l IH]; intros c s now Ht Hok Hnow Hi; [done|]. destruct Ht as [(H1 & H2 & H3) Ht].
  cbn [turns]. unfold turn in *. destruct (received t) as [[]|] eqn:Er; [|done|].
  all: destruct (Z.ltb_spec (woken t - last_check_time s) MIN_INTERVAL); [apply (IH c s (woken t)); [done..|lia|done]|].
  all: destruct (idle t); cbn [negb] in *; [|eapply (IH c _ (woken t)); [done..|lia|done]].
  all: assert (apart c (mkCheckRun (match received t with Some CheckUpdate => true | _ => false end) (woken t) (over t) (works t)))
    as Ha by (split; cbn; intros; [specialize (Hok ltac:(done)); lia|rewrite ?Er in *; try done; specialize (H3 eq_refl); lia]).
  all: rewrite Er in Ha; destruct (works t) eqn:Ew; split; try exact Ha; eapply IH; try done;
    cbn; unfold RETRY_INTERVAL, DUR_ONE_DAY in *; lia.
Qed.

Lemma spaced_split pre : ∀ c d post c0, spaced c0 (pre ++ c :: d :: post) → apart c d.
Proof.
  induction pre as [|x pre IH]; intros c d post c0 H; [by destruct H as [_ [? _]]|]. destruct H as [_ H]. by eapply IH.
Qed.

Lemma turns_idle l : ∀ s c, c ∈ turns s l → ∃ t, t ∈ l ∧ woken t = c_start c ∧ idle t = true.
Proof.
  induction l as [|t l IH]; intros s c Hc; [by apply not_elem_of_nil in Hc|]. cbn [turns] in Hc.
  assert (∀ s, c ∈ turns s l → ∃ t', t' ∈ t :: l ∧ woken t' = c_start c ∧ idle t' = true) as Hr.
  { intros s' H. destruct (IH s' c H) as (t' & ? & ?). exists t'. split; [by right|done]. }
  unfold turn in Hc. destruct (received t) as [[]|] eqn:Er.
  2: by apply not_elem_of_nil in Hc.
  all: destruct (woken t - last_check_time s <? MIN_INTERVAL); [by eapply Hr|].
  all: destruct (idle t) eqn:Ei; cbn [negb] in Hc; [|by eapply Hr].
  all: destruct (works t); (apply elem_of_cons in Hc as [-> |Hc]; [exists t; split_and!; [by left|done|done]|by eapply Hr]).
Qed.

(** ** Properties *)

(** (C7) Whatever the server and the network answer, a check starts an installer at most
    once, only when no connection is there after the download, and only for an artifact
    of this program, package, platform, architecture and format that the signed metadata
    of a release name, the only one they name; the signature is that of a key of the
    program, the release is the one the server named and is newer than the program; and
    the installer meets, at the path it is given, a file of the signed size and hash. *)
Theorem only_newer_signed_updates_installed {L : UpdateLibs} sha256_hex w manually s cs PL :
  (∀ b m a, UpdateMetadata.metadata_json b = Some m → a ∈ UpdateMetadata.artifacts m → 0 ≤ UpdateMetadata.size a) →
  cache_dir (fs s) (temp_dir w) cs PL →
  let s' := (check_update sha256_hex w manually s).2 in
  launches s' = launches s ∨
  ∃ l f, launches s' = launches s ++ [(l, f)] ∧ is_idle w = true ∧ (manually = true ∨ allow_auto_update w = true) ∧
         ∃ update_msi, legitimate sha256_hex w update_msi (temp_dir w) l f.
Proof.
  intros Hs Hd. pose proof (run_check sha256_hex Hs w manually s cs PL Hd) as H. cbv zeta in H. unfold run in H.
  by destruct (check_update sha256_hex w manually s) as [[[]|e] s'].
Qed.

(** (C20) The check of the macOS service starts an installer only with the lock held, with
    automatic updates allowed, in a client that is not a custom one, for a signed artifact of a
    newer release as above, downloaded into a directory of its own, and only when the server
    process of every user answered that it has no connection: no answer, a
    failure or another answer counts as a connection.  It reports that an update was
    started only when one was, and no update only when none was. *)
Theorem root_update_needs_everyone_idle {L : UpdateLibs} sha256_hex w s :
  (∀ b m a, UpdateMetadata.metadata_json b = Some m → a ∈ UpdateMetadata.artifacts m → 0 ≤ UpdateMetadata.size a) →
  (∀ out f', mktemp w (clean_tmp (tmp_entries w) (fs s)).2 = (Ok (true, out), f') → RustStd.trim out ≠ "" →
               ∃ cs PL, cache_dir f' (RustStd.trim out) cs PL) →
  match check_update_as_root sha256_hex w s with
  | (Ok b, s') => root_ends sha256_hex w s b s'
  | (Err _, s') => starts s (root_legitimate sha256_hex w) s'
  end.
Proof.
  intros Hs Hm. pose proof (run_check_as_root sha256_hex Hs w s Hm) as H. unfold run in H.
  by destruct (check_update_as_root sha256_hex w s) as [[b|e] s'].
Qed.

(** Metadata of a local file are accepted only when a key of the program signed
    them, for the version their release id stands for, with one artifact of the asked
    kind, whose name is that of the file. *)
Theorem offline_update_signed {L : UpdateLibs} mb sb local_file_name package_id q v :
  UpdateMetadata.verify_offline_update_metadata mb sb local_file_name package_id q = Ok v →
  ∃ version id m a,
    UpdateMetadata.header_json mb = Some (version, id) ∧
    UpdateMetadata.display_version_from_release_id id = Ok version ∧
    genuine mb sb (UpdateMetadata.mkOptions version id q package_id UpdateMetadata.SignedHttps
                     UpdateMetadata.TRUSTED_UPDATE_KEYS) m a ∧
    UpdateMetadata.file_name a = local_file_name ∧
    v = UpdateMetadata.mkVerified version (UpdateMetadata.url a) local_file_name (UpdateMetadata.size a)
          (UpdateMetadata.sha256 a).
Proof.
  unfold UpdateMetadata.verify_offline_update_metadata, UpdateMetadata.verify_offline_update_metadata_with_options.
  intros ([version id] & Hh & H)%result_bind_ok. inv_ok. simplify_eq.
  match goal with Hv : UpdateMetadata.verify_update_metadata_with_options _ _ _ = Ok _ |- _ =>
    apply verify_ok in Hv as (m & a & Hg & ->) end.
  exists x, id, m, a. pose proof (gn_version _ _ _ _ _ Hg) as Hv. cbn in Hv. cbn. by rewrite Hv.
Qed.

(** (C35) After a check that worked the next one is at least ten minutes later, also when
    it is asked for by hand; a check nobody asked for is at least half an hour after
    the one before; and every check after the first is made when no connection is there. *)
Theorem checks_are_spaced start t ok l :
  timely (mkSched t DUR_ONE_DAY) t l →
  let checks := start_auto_update_check_ start t ok l in
  (∀ pre c d post, checks = pre ++ c :: d :: post →
     (c_ok c = true → c_end c + MIN_INTERVAL ≤ c_start d) ∧
     (c_manually d = false → c_end c + RETRY_INTERVAL ≤ c_start d)) ∧
  ∀ c, c ∈ tail checks → ∃ t, t ∈ l ∧ woken t = c_start c ∧ idle t = true.
Proof.
  intros Ht. cbv zeta. unfold start_auto_update_check_. set (c0 := mkCheckRun false (start + INITIAL_CHECK_DELAY) t ok).
  assert (spaced c0 (turns (mkSched t DUR_ONE_DAY) l)) as Hs by (by apply (turns_spaced l c0 _ t)).
  split; [|intros c Hc; by eapply turns_idle].
  intros [|x pre] c d post H; injection H as Hx H; rewrite H in Hs.
  - rewrite <- Hx. by destruct Hs as [Ha _].
  - by apply spaced_split in Hs.
Qed.
End UpdaterProofs.

(** ** Examples

    A release of the program with its metadata, a macOS machine and a server, and the
    theorems on the updater applied to them. *)
Module UpdaterExamples.
Import UpdateDownloadProofs UpdaterProofs.


Definition file_data : list byte := [Byte.x64; Byte.x6d; Byte.x67].
Definition good_hash : string := "00112233445566778899aabbccddeeff00112233445566778899aabbccddeeff".
Definition bad_hash : string := "ffffffffffffffffffffffffffffffffffffffffffffffffffffffffffffffff".

(** A hash that tells this file from all others. *)
Definition hash (d : list byte) : string := if bool_decide (d = file_data) then good_hash else bad_hash.

Definition prefix : string := "https://github.com/rustdesk/rustdesk/releases/download/v1.9.0/".
Definition page : string := "https://github.com/rustdesk/rustdesk/releases/tag/v1.9.0".
Definition download : string := prefix +:+ "rustdesk.dmg".

Definition artifact : UpdateMetadata.UpdateArtifact :=
  UpdateMetadata.mkArtifact "macos" "aarch64" "dmg" download "rustdesk.dmg" 3 good_hash.
Definition meta : UpdateMetadata.UpdateMetadata :=
  UpdateMetadata.mkMetadata 1 "rustdesk" "rustdesk" "1.9.0" "v1.9.0" "2026-01-01" "2026-ed25519-main" [artifact].
Definition sig : UpdateMetadata.UpdateSignature := UpdateMetadata.mkSignature 1 "ed25519" "2026-ed25519-main" "sig".
Definition sig_bytes : list byte := replicate 64 Byte.x01.
Definition meta_bytes : list byte := as_bytes "metadata".

Definition github (l : list string) : UpdateMetadata.Url :=
  UpdateMetadata.mkUrl "https" (Some "github.com") "" None None None None (Some l).

#[export] Instance libs : UpdateMetadata.UpdateLibs := {|
  UpdateMetadata.url_parse s :=
    if s ==s page then Some (github ["rustdesk"; "rustdesk"; "releases"; "tag"; "v1.9.0"])
    else if s ==s download then Some (github ["rustdesk"; "rustdesk"; "releases"; "download"; "v1.9.0"; "rustdesk.dmg"])
    else None;
  UpdateMetadata.signature_json b := Some sig;
  UpdateMetadata.metadata_json b := if bool_decide (b = meta_bytes) then Some meta else None;
  UpdateMetadata.header_json b := Some ("1.9.0", "v1.9.0");
  UpdateMetadata.version_check_json b := Some page;
  UpdateMetadata.base64_decode s := Some sig_bytes;
  UpdateMetadata.base64_encode b := "sig";
  UpdateMetadata.signature_from_bytes b := Some b;
  UpdateMetadata.sodium_init := true;
  UpdateMetadata.verify_detached s m k :=
    bool_decide (s = sig_bytes ∧ m = UpdateMetadata.UPDATE_METADATA_SIGNATURE_CONTEXT ++ meta_bytes);
|}.

Definition server (url : string) : result UpdateDownload.Response Error :=
  if url ==s download then Ok (UpdateDownload.mkResponse true [[Byte.x64]; [Byte.x6d; Byte.x67]] false)
  else Ok (UpdateDownload.mkResponse true [meta_bytes] false).

Definition disk : Fs := mkFs (<[["tmp"] := Dir]> {[ [] := Dir ]}) ∅ 0 [] 7 [].

Definition world : World :=
  mkWorld (mkBuild MacOs true "aarch64") "1.4.2" (Ok false) false true (Ok []) server 42 [9] "/tmp" [] 0 (λ _, [])
    (λ _ _ _, Ok tt).

Lemma sizes_ok b m a :
  UpdateMetadata.metadata_json b = Some m → a ∈ UpdateMetadata.artifacts m → 0 ≤ UpdateMetadata.size a.
Proof. cbn. intros H. case_bool_decide; simplify_eq. intros ->%list_elem_of_singleton. done. Qed.

Lemma way_to_tmp (m : nmap) l :
  m !! [] = Some Dir → m !! ["tmp"] = Some Dir → l ≠ [] → l ≠ ["tmp"] →
  walk (delete l m) MAX_LINKS [] [RootDir; Normal "tmp"] true = Ok ["tmp"].
Proof.
  intros H1 H2 ??. rewrite walk_unfold, lookup_delete_ne, H1 by done.
  rewrite walk_unfold, lookup_delete_ne, H1 by done. cbn [app].
  rewrite lookup_delete_ne, H2 by done. apply walk_nil.
Qed.

Lemma way_below_tmp (m : nmap) x l :
  m !! [] = Some Dir → m !! ["tmp"] = Some Dir → m !! ["tmp"; x] = Some Dir →
  l ≠ [] → l ≠ ["tmp"] → l ≠ ["tmp"; x] →
  walk (delete l m) MAX_LINKS [] [RootDir; Normal "tmp"; Normal x] true = Ok ["tmp"; x].
Proof.
  intros H1 H2 H3 ???. rewrite walk_unfold, lookup_delete_ne, H1 by done.
  rewrite walk_unfold, lookup_delete_ne, H1 by done. cbn [app].
  rewrite lookup_delete_ne, H2, walk_unfold, lookup_delete_ne, H2 by done. cbn [app].
  rewrite lookup_delete_ne, H3 by done. apply walk_nil.
Qed.

Lemma tmp_dir : cache_dir disk "/tmp" [Normal "tmp"] ["tmp"].
Proof. split; [done..|]. intros leaf. by apply way_to_tmp. Qed.

(** The download over a link that someone put there, with a call that fails. *)
Definition hostile : Fs :=
  mkFs (<[["tmp"; "rustdesk.dmg"] := Link "/etc/passwd"]> (nodes disk)) ∅ 0 [] 7 [].

Lemma update_file_verified_witness :
  let '(r, fs') := UpdateDownload.ensure_verified_update_artifact hash server 42 [9] download "/tmp/rustdesk.dmg" 3 good_hash hostile in
  r = Ok tt ∧ nodes fs' !! ["tmp"; "rustdesk.dmg"] = Some (File 0) ∧
  ∃ i, nodes fs' = <[["tmp"; "rustdesk.dmg"] := File i]> (nodes hostile) ∧ len (content (inode fs' i)) = 3.
Proof.
  assert (cache_path hostile "/tmp/rustdesk.dmg" "rustdesk.dmg" [Normal "tmp"] ["tmp"]) as Hc.
  { split; [by split_and!|by apply way_to_tmp|done]. }
  pose proof (update_file_verified hash server 42 [9] hostile download _ _ _ _ 3 good_hash Hc ltac:(lia)) as H.
  revert H.
  destruct (UpdateDownload.ensure_verified_update_artifact _ _ _ _ _ _ _ _ _) as [r fs'] eqn:E.
  vm_compute in E. injection E as <- <-. intros [(i & H & _ & Hl & _) _]. split_and!; [done|done|].
  by exists i.
Defined.

Lemma only_newer_signed_updates_installed_witness :
  let s := mkState (mkStatics "" None) disk [] in
  let s' := (check_update hash world true s).2 in
  (fst <$> launches s') = [VerifiedDmg "/tmp/rustdesk.dmg" good_hash 3] ∧
  (launches s' = launches s ∨
   ∃ l f, launches s' = launches s ++ [(l, f)] ∧ is_idle world = true ∧ (true = true ∨ allow_auto_update world = true) ∧
         ∃ update_msi, legitimate hash world update_msi (temp_dir world) l f).
Proof.
  split; [vm_compute; reflexivity|].
  exact (only_newer_signed_updates_installed hash world true (mkState (mkStatics "" None) disk []) _ _ sizes_ok tmp_dir).
Defined.

(** The service of the same machine, with one user and an old directory in /tmp. *)
Definition own_dir : string := "/tmp/.rustdeskdownload-abc".
Definition root_world : RootWorld :=
  mkRootWorld world (Ok tt) (Some [mkEntry ".rustdeskdownload-old" (Some (true, 0, 448, Some 4000))])
    (create_dir own_dir;; mret (true, own_dir +:+ String (ascii_of_nat 10) "")) (Ok tt)
    [HasNoActiveConns (Some true)] (λ _ _, Ok tt).
Definition root_disk : Fs := disk <| nodes := <[["tmp"; ".rustdeskdownload-old"] := Dir]> (nodes disk) |>.
Definition root_start : State := mkState (mkStatics "" None) root_disk [].

Lemma own_dir_ok out f' :
  mktemp root_world (clean_tmp (tmp_entries root_world) (fs root_start)).2 = (Ok (true, out), f') →
  RustStd.trim out ≠ "" → ∃ cs PL, cache_dir f' (RustStd.trim out) cs PL.
Proof.
  intros H _. exists [Normal "tmp"; Normal ".rustdeskdownload-abc"], ["tmp"; ".rustdeskdownload-abc"].
  set (d := mktemp _ _) in H. vm_compute in d. subst d. injection H as <- <-.
  split; [done..|]. intros leaf. by apply way_below_tmp.
Qed.

Lemma root_update_needs_everyone_idle_witness :
  (fst (check_update_as_root hash root_world root_start) = Ok true ∧
   fst <$> launches (check_update_as_root hash root_world root_start).2 =
     [DmgAsRoot (own_dir +:+ "/rustdesk.dmg") "1.9.0"]) ∧
  match check_update_as_root hash root_world root_start with
  | (Ok b, s') => root_ends hash root_world root_start b s'
  | (Err _, s') => starts root_start (root_legitimate hash root_world) s'
  end.
Proof.
  split; [vm_compute; split; reflexivity|].
  exact (root_update_needs_everyone_idle hash root_world root_start sizes_ok own_dir_ok).
Defined.

Lemma offline_update_signed_witness :
  let q := UpdateMetadata.mkQuery "macos" "aarch64" "dmg" in
  let v := UpdateMetadata.mkVerified "1.9.0" download "rustdesk.dmg" 3 good_hash in
  UpdateMetadata.verify_offline_update_metadata meta_bytes [] "rustdesk.dmg" "rustdesk" q = Ok v ∧
  ∃ version id m a,
    UpdateMetadata.header_json meta_bytes = Some (version, id) ∧
    UpdateMetadata.display_version_from_release_id id = Ok version ∧
    genuine meta_bytes [] (UpdateMetadata.mkOptions version id q "rustdesk" UpdateMetadata.SignedHttps
                     UpdateMetadata.TRUSTED_UPDATE_KEYS) m a ∧
    UpdateMetadata.file_name a = "rustdesk.dmg" ∧
    v = UpdateMetadata.mkVerified version (UpdateMetadata.url a) "rustdesk.dmg" (UpdateMetadata.size a)
          (UpdateMetadata.sha256 a).
Proof.
  split; [vm_compute; reflexivity|].
  apply (offline_update_signed meta_bytes [] "rustdesk.dmg" "rustdesk"). vm_compute. reflexivity.
Defined.

(** A day passes, the check fails, and half an hour later there is another; one asked for
    five minutes after that is not made. *)
Definition day : list Turn :=
  [mkTurn None 86500 true false 86510; mkTurn None 88310 true true 88320;
   mkTurn (Some CheckUpdate) 88620 true true 88630].

Lemma checks_are_spaced_witness :
  let checks := start_auto_update_check_ 0 60 true day in
  (c_start <$> checks) = [30; 86500; 88310] ∧
  ((∀ pre c d post, checks = pre ++ c :: d :: post →
     (c_ok c = true → c_end c + MIN_INTERVAL ≤ c_start d) ∧
     (c_manually d = false → c_end c + RETRY_INTERVAL ≤ c_start d)) ∧
  ∀ c, c ∈ tail checks → ∃ t, t ∈ day ∧ woken t = c_start c ∧ idle t = true).
Proof.
  split; [reflexivity|]. apply (checks_are_spaced 0 60 true day). vm_compute. repeat split; discriminate.
Defined.
End UpdaterExamples.
